(* ===== verification/_CoqProject ===== *)
-Q . S2P
Prelude.v
GoStrings.v
Values.v
Core.v
Placeholders.v
Params.v
Guid.v
Digits.v
Calendar.v
Temporal.v
Converter.v
ConverterLaws.v
Triggers.v
TriggerLaws.v
Dialect.v
Sqlite.v
Postgres.v
SqlServer.v
DialectLaws.v
GeneratedSql.v
Query.v
Render.v
RenderLaws.v
Reading.v
CriteriaMeaning.v
Tracker.v
DependencyOrder.v
Instances.v
Session.v
UnitOfWork.v
Loading.v
JoinMode.v
LoadingLaws.v
Membership.v
Loaded.v
JoinLaws.v
ScheduleLaws.v
Cascades.v
Reach.v
Tarjan.v
TypeRanks.v
Flush.v
KeyFlow.v
Batching.v
Writes.v
FlushRun.v
Journal.v
Rollback.v
OperationLaws.v
FlushLaws.v
WriteLaws.v
OperationUndo.v
BatchingLaws.v
Json.v
SchemaSnapshot.v
SchemaDiff.v
MigrationSteps.v
DownDerive.v
Sha256.v
MigrationRunner.v
Signatures.v
Evolution.v
DiffLaws.v
DownLaws.v
RunnerLaws.v
RunnerRuns.v
MapSpec.v
MapAssembler.v
MapLoader.v
LoaderLaws.v
LoaderPaths.v
MapBuilder.v
TriggerScan.v
MapExport.v
ResultMapper.v
MapperLaws.v
