(* ===== verification/Prelude.v ===== *)
(** * SimpleOrm, the Go library (src/go/orm): a verification development

    SimpleOrm maps Go structs to tables and writes its SQL itself.  A program
    opens a session (a [Db]) on one of three dialects, queries and writes
    entities through it and, in tracked mode, schedules changes that [Flush]
    turns into an ordered list of statements and forms into messages.  Its
    schema history is a directory of snapshots from which migrations are
    generated, run and rolled back.  This library models that core as pure
    functions and proves what each part promises the next.

    ** The parts and how they call each other

    A write goes: schedule (UnitOfWork) -> plan (Flush, TypeRanks,
    DependencyOrder) -> keys flow into the instance (KeyFlow) -> identity gate
    (Session, Tracker) -> hooks, the generated statement and its arguments
    (Writes over GeneratedSql, rendered by a dialect) -> the messages of the call
    (Batching) -> the driver, which on PostgreSQL rewrites the placeholders
    (Params) -> the row count judged, generated keys and tracking applied
    (Writes), or the journal rolled back (FlushRun).

    A read goes: the caller's SQL and arguments (Params over Placeholders), or a
    criteria query (Query) rendered for the dialect (Render) -> the driver -> a
    plan that turns each row into an instance through the converter
    (ResultMapper, Converter) -> one instance per key (Session) -> the included
    navigations, by further queries (Loading) or from the joined row (JoinMode).

    Metadata goes: the program's types and declarations (MapSpec) -> the specs of
    a loader path (MapLoader) -> one entity map (MapAssembler), which all of the
    above take as data.  A migration goes: the maps against the last snapshot
    (SchemaDiff over SchemaSnapshot) -> a generated step (MigrationSteps), its
    rollback derived from two snapshots (DownDerive) -> the runner, which
    validates the recorded history, applies or reverts versions and records them
    (MigrationRunner).

    The files, in dependency order, and the Go files they model:

    - [Prelude]: errors as values ([result], [let*]) and the state-and-error
      monad ([SM], [do!], [;!], [forS], with its preservation lemmas), the
      development's tactics and the generic list lemmas.
    - [GoStrings]: the functions of Go's strings, strconv and sort packages the
      program calls, on byte strings.
    - [Values]: dynamic values, exact decimals, the comparator and key tuples
      (internal/core/decimal.go, compare_values.go, key_tuple.go).
    - [Core]: the metadata model (internal/core/metadata.go, column_type.go,
      cascade.go, owned.go, table_schema.go).
    - [Placeholders]: the placeholder scanner (internal/core/sql_placeholders.go).
    - [Params]: [Bind] (internal/params/parameter_binder.go) and the PostgreSQL
      driver's rewrite and arrangement (postgres/driver.go).
    - [Guid], [Digits], [Calendar], [Temporal]: the text of GUIDs
      (internal/core/guid.go), of integers (strconv), the Gregorian calendar
      (package time) and the stored forms of instants
      (internal/core/iso8601.go).
    - [Converter], [ConverterLaws]: the type converter, its enums and its handler
      registry (internal/core/type_converter.go, enum.go, type_handlers.go), and
      what it gives back.
    - [Triggers]: trigger declarations (internal/core/trigger.go); their
      theorems are in [TriggerLaws].
    - [Dialect], [Sqlite], [Postgres], [SqlServer]: the dialect seam as a record
      of operations (internal/core/dialect.go) and its three implementations
      (<dialect>/dialect.go, trigger.go).
    - [DialectLaws]: what a dialect promises the session, as a class, and its
      three instances.
    - [GeneratedSql]: the session's generated statements and their column-list
      cache (generated_sql.go, and the update list of db_crud.go), proved
      against the class.
    - [Query], [Render]: the criteria query and its rendering
      (internal/core/query_ast.go, criteria_query.go,
      internal/render/ansi_select_renderer.go); [RenderLaws]: what it binds.
    - [Reading], [CriteriaMeaning]: SQL's reading of a WHERE clause, a
      specification, and that a rendered clause means what the criteria say.
    - [Tracker]: the identity map (tracker.go).
    - [DependencyOrder]: the one topological order of flush.go.
    - [Instances]: the objects of the program: a heap of instances, the accessors
      and navigations (metadata.go, owned.go), and snapshots (tracker.go).
    - [Session]: identity resolution and the identity gate (tracking.go).
    - [UnitOfWork]: the schedule (unit_of_work.go, db_detach_merge.go); its
      theorems are in [ScheduleLaws], [Cascades] (the walks terminate, the
      schedule stays well formed) and [Reach] (what a walk schedules).
    - [Loading], [JoinMode]: relationship loading in its own queries
      (db_eager.go, db_loading.go, loading_keys.go) and in one joined SELECT
      (db_eager_join.go).  [LoadingLaws], [Membership], [Loaded] and [JoinLaws]
      hold their theorems: the sort and the integer fast path, the membership
      query, what a load leaves in memory, the joined one.
    - [Flush]: dirty instances and the insert and delete orders (flush.go), by
      reduction to [DependencyOrder].
    - [KeyFlow]: [copyKey] and [flowKeys] (flush.go).
    - [Batching], [BatchingLaws]: how statements form messages (batching.go,
      batch.go, db_write.go), and the rules they keep.
    - [Tarjan], [TypeRanks]: strongly connected components and ranks over any
      decidable nodes, and [rankTypes] over the mapped types (flush.go).
    - [Writes]: every generated write prepared, run and completed, with the hooks,
      and the undo journal (db_crud.go, db_hooks.go, db_write.go).
    - [FlushRun]: a whole flush (flush.go).
    - [Journal], [Rollback]: what one journaled effect does and what a rollback
      gives back; [OperationLaws]: the flush's operations are journaled effects;
      [FlushLaws]: a whole failed flush; [WriteLaws]: immediate writes;
      [OperationUndo]: what the journal of one operation gives back.
    - [Json]: canonical JSON and the naming convention
      (internal/core/canonical_json.go, naming.go).
    - [SchemaSnapshot], [SchemaDiff], [MigrationSteps], [DownDerive]: schema
      history as data, the difference to the model, the steps with the statements
      they render, and derived rollbacks (migrations/schema_snapshot.go,
      snapshot_set.go, trigger_declaration.go, migration_generator.go,
      migration.go, migration_set.go, trigger_actions.go, down_deriver.go).
    - [Sha256], [MigrationRunner]: checksums (crypto/sha256) and the runner
      (migrations/migration_runner.go).
    - [Signatures], [Evolution]: index signatures read back, and the abstract
      machine on table shapes, a specification; [DiffLaws], [DownLaws]: generated
      steps and derived rollbacks judged against it; [RunnerLaws], [RunnerRuns]:
      what runs of the runner do.
    - [MapSpec], [MapAssembler], [MapLoader], [MapBuilder]: what the metadata
      loader reads, its validations, its paths, its options and manual builder
      (internal/metadata, internal/core/entity_def.go, owned.go); [LoaderLaws],
      [LoaderPaths]: what a load gives.  [TriggerScan], [MapExport]: the scan over
      a model's triggers and the conformance export.
    - [ResultMapper], [MapperLaws]: plans and rows
      (internal/mapping/result_mapper.go), and what they guarantee.

    ** Conventions

    A function that returns [error] returns [result]; one that also mutates
    session state is an [SM] computation or returns the new state.  A panic of
    the Go runtime (an index out of range, a failed type assertion, a nil
    pointer) is the value [Panic], and the theorems that an operation returns
    [Ok] or a given code say that it does not happen.  A shared mutable object
    is a key into a store: an instance is a [Ptr] into the heap, a tracked
    entry its registration number, a scheduled insert its schedule order; the
    Go lists and maps of pointers hold those keys, so aliasing is visible.
    Integers carry their Go kind beside a [Z]; the counters that only order
    (registration and schedule numbers, both [uint64]) are [nat] and do not
    wrap.  Strings are byte strings; case mapping and white space are ASCII.

    ** What the theorems show

    - Identity: [Tracker.register_one_instance_per_key],
      [Tracker.find_refines_lookup] - the
      sorted identity map refines a finite map from keys to instances.
      [Session.writeIdentity_exact], [Session.resolveRow_one_instance] - what the
      session does with it.
    - Dirty checking: [Instances.resnapshot_changed], [Instances.Set_Get].
    - The schedule: [Cascades.walks_terminate], [Cascades.schedule_invariant],
      [Reach.Persist_schedules_reached], [Reach.Remove_schedules_reached],
      [ScheduleLaws.cancel_least].
    - The plan: [DependencyOrder.dependencyOrder_correct] and its two uses
      [Flush.orderInserts_correct], [Flush.orderDeletes_correct];
      [KeyFlow.copyKey_copies], [KeyFlow.flowKeys_frame].
    - Statements: [GeneratedSql.generated_writes_bind_exactly] and
      [GeneratedSql.generated_writes_arrange] (every generated write, every
      dialect), [GeneratedSql.columnLists_transparent],
      [GeneratedSql.resolveUpdateList_sound].
    - Messages: [BatchingLaws.run_keeps_the_rules].
    - Type ranks: [TypeRanks.rankTypes_correct].
    - Criteria queries: [CriteriaMeaning.rendered_where_means] (the text means
      the criteria in three-valued logic, for criteria without subqueries and
      without nil pointers as values; [CriteriaMeaning.nil_pointer_is_not_is_null]
      is what a nil pointer does) and [RenderLaws.rendered_select_binds_exactly]
      (subqueries included).
    - Loading: [Loaded.one_to_many_attaches_the_related],
      [Loaded.many_to_one_points_at_the_target],
      [Loaded.one_to_one_refuses_exactly_duplicates] over a database that reads
      the statements as [Reading] does; [LoadingLaws.integer_path_is_tuple_path];
      [JoinLaws.join_request_exact], with [JoinLaws.page_refused_before_the_count]
      for the one request the documented precedence answers otherwise.
    - Metadata: [LoaderLaws.assemble_exact] (a map exactly when every rule
      holds), [LoaderPaths.loaded_map_well_formed],
      [LoaderPaths.no_field_unmapped], [LoaderPaths.load_depth_and_cache],
      [MapBuilder.tags_and_builder_agree] (types without a descriptor whose fields
      are plain columns), [TriggerScan.trigger_scan_exact],
      [MapExport.export_exact].
    - Rows: [MapperLaws.entity_plan_strict], [MapperLaws.written_row_reads_back],
      [MapperLaws.plan_cache_transparent].
    - Schema evolution: [DiffLaws.generated_step_reaches_the_model],
      [DownLaws.rollback_restores_the_snapshot]; their conditions on renames and
      index names are ones the program does not test, and
      [DiffLaws.explicit_rename_overwrites_a_column],
      [DiffLaws.generated_step_drops_under_an_index] and
      [DownLaws.chained_renames_do_not_roll_back] show what happens without them.
    - The runner: [RunnerLaws.validation_is_what_status_shows],
      [RunnerRuns.migrate_leaves_nothing_pending],
      [RunnerRuns.accepted_migration_completes] (progress),
      [RunnerRuns.rollback_undoes_migration],
      [RunnerRuns.rollback_leaves_history_up_to_target].
    - Failure: [FlushLaws.Flush_failure_restores] composes
      [Rollback.rollback_restores_identity_map] and
      [OperationLaws.operation_journals] through the batching loops, with one
      statement to a message; [OperationUndo.flush_operation_undone] says what
      undoing one operation gives back of the instance itself;
      [WriteLaws.failed_write_restores] is its counterpart for immediate writes of
      an untracked session.  [WriteLaws.updateJudge_exact],
      [WriteLaws.coerceKeyPart_bounds]: versions and keys at their width.
    - Placeholders and arguments: [Placeholders.FindPlaceholders_spec],
      [Placeholders.PlaceholderSpans_sound],
      [Placeholders.literal_has_no_placeholders], [Params.Bind_strict],
      [Params.Bind_covers_placeholders], [Params.rewritePlaceholders_spec],
      [Params.arrange_spec].
    - Values: [Values.KeyTuple_Compare_total_preorder].
    - Values that cross the boundary: [ConverterLaws.stored_value_reads_back]
      (what is bound reads back), [ConverterLaws.FromDatabase_typed] (what is read
      has the member's type and is in its range), [Temporal.stored_time_reads_back],
      [Guid.ParseGUID_exact].
    - Trigger declarations: [TriggerLaws.ParseTriggerEvents_inverse],
      [TriggerLaws.ExpandTriggerTokens_replaces].

    ** Fuel

    Some loops and walks are not structural.  [Tracker.sort_Search] halves
    an interval of [n] and is given [n + 1]; [DependencyOrder.drain] pops one node
    a turn and is given one more than the nodes; [UnitOfWork.cancel_loop] cancels
    at least one scheduled insert a turn but the last, and is given one more than
    there are.  The walks of [UnitOfWork] enter each instance once and are given
    two more than the heap holds; [TypeRanks.discover] and [Tarjan.connect] enter
    each type once and are given more than there are types.  In each case a
    theorem says that the result is the one the unbounded loop reaches
    ([search_spec], [dependencyOrder_correct], [cancel_least],
    [walks_terminate], [rankTypes_correct]).  The walks of the metadata loader
    through embedded and owned values ([discoverFields], [keyArity],
    [refuseEmbeddedEntities]) take a depth, and [load_depth_and_cache] shows that
    any depth above the rank of the embeddings gives one answer - a Go struct
    cannot embed its own value, so there is a rank; the walks through the
    fields of a struct visit each type once and take at least one step more than
    there are types.
    [Reading]'s parser takes three units a token and two more, which
    [rendered_where_means] needs for every clause the renderer writes;
    [chunks_from] takes the length of the list it cuts, and [Sha256] as many
    turns as the padded text has words.

    ** Parameters

    The session's files take the map loader as a function
    ([load : GoType -> result EntityMap]), which [MapLoader.Load] is.  The program itself
    - its struct types with their tags and declarations, its named types and
    enums - is data of [MapSpec].  The clock, the GUID
    generator, and the driver
    - sending a message, running one statement, beginning, committing and
    rolling back a transaction, and the state of the context, each a step on a
    database of any type - are arguments of the definitions that use them, and
    each theorem says what it asks of them.  The session's files take the type
    converter as two arguments, [ToDatabase] and [FromDatabase], with the one
    property they use; [Converter] defines both, [ConverterLaws.FromDatabase_real]
    proves the property, and the witness of [Flush_failure_restores] runs on
    them.  The converter's own arguments are Go's: the text of floats
    ([ParseFloat], [FormatFloat]), [fmt.Sprint] of a value it does not know, what
    a conversion of an unrepresentable float gives, and the program's handlers.
    The session's files know the program's named types by [Writes.NamedTypes],
    for a key or a version of a named integer type.
    [Loading] takes running a rendered SELECT and building its instances as
    [read_rows], [JoinMode] as [raw_rows] and [Plan], with what reflection says of
    a navigation field ([pointer_elem], [field_shape]).  [MigrationRunner] takes
    the driver as an [Engine] on a database of any type, the clock and the random
    suffix of the probe view.

    ** Not modelled

    The source files left out call the operating system, a database or Go's
    reflection, and decide little of their own:
    - connections, transactions, retries and timeouts (db.go, db_open.go,
      db_statements.go), the drivers' batching (postgres/batch.go,
      sqlserver/batch.go, driver.go) and the statement log: I/O over
      database/sql;
    - the schema guard, schema synchronisation and the diff command
      (schema_guard.go, migrations/schema_sync.go, diff_command.go): they read a
      live database or write files around the difference and the renderings
      modelled here; the Go source a generator emits is text for a compiler;
    - shadow databases (migrations/shadow.go, <dialect>/shadow.go), which replay a
      history on a throwaway database, with the SQLite trigger parser that reads a
      stored trigger back for them;
    - the registry of named SQL texts and the repository facade, registered
      queries, the command line, the aliases and the test support;
    - the JSON type handler (internal/mapping/json_type_handler.go), which walks
      arbitrary Go values by reflection.

    Of the parts that are modelled, messages of errors are their codes and
    targets, and locks and atomics are left out: the caches they guard are
    written once per key.  [Flush_failure_restores] is
    about one statement to a message: with more, a statement after the failing
    one may have run, and the identity map is restored by the same journal, but
    the loops are not followed here.  A failed flush does not restore the foreign
    keys that flowed into an instance before it was recorded (a finding). *)
From Stdlib Require Export Ascii ZArith Lia.
From Stdlib Require String.
From stdpp Require Export base strings list gmap sorting.

(** * Go errors as values *)

(** The library's [core.Error]: its stable code and the thing it names.  The
    message is prose and [Cause] is the driver's own error; neither is
    modelled. *)
Record Error := NewError { Code : string; Target : string }.

Inductive result (A : Type) : Type :=
  | Ok (a : A)
  | Fail (e : Error).
Arguments Ok {A} a.
Arguments Fail {A} e.

(** [if err != nil { return err }] is the monad's bind. *)
#[export] Instance result_ret : MRet result := fun A a => Ok a.
#[export] Instance result_bind : MBind result :=
  fun A B f m => match m with Ok a => f a | Fail e => Fail e end.
#[export] Instance result_fmap : FMap result :=
  fun A B f m => match m with Ok a => Ok (f a) | Fail e => Fail e end.

Declare Scope go_scope.
Delimit Scope go_scope with go.
Notation "'let*' x := m 'in' k" := (mbind (M := result) (fun x => k) m)
  (at level 10, x pattern, m at level 100, k at level 200) : go_scope.
Open Scope go_scope.

Definition is_ok {A} (r : result A) : bool :=
  match r with Ok _ => true | Fail _ => false end.

(** [failing code r]: the operation refused with that code. *)
Definition failing {A} (code : string) (r : result A) : Prop :=
  exists target, r = Fail (NewError code target).

#[export] Instance Error_eq_dec : EqDecision Error.
Proof. solve_decision. Defined.

(** Unlike [injection], this leaves the values as they are. *)
Lemma Ok_inj {A} (a b : A) : Ok a = Ok b -> a = b.
Proof. by intros [= H]. Qed.

Lemma bind_Ok {A B} (m : result A) (f : A -> result B) b :
  (let* x := m in f x) = Ok b <-> exists a, m = Ok a /\ f a = Ok b.
Proof.
  unfold mbind, result_bind. destruct m as [a|e]; split.
  - eauto.
  - intros [a' [[= <-] H]]. exact H.
  - discriminate.
  - intros [a' [? _]]. discriminate.
Qed.

Lemma bind_Fail {A B} (m : result A) (f : A -> result B) e :
  (let* x := m in f x) = Fail e <->
  m = Fail e \/ exists a, m = Ok a /\ f a = Fail e.
Proof.
  unfold mbind, result_bind. destruct m as [a|e']; split.
  - eauto.
  - intros [?|[a' [[= <-] H]]]; [discriminate|exact H].
  - intros [= ->]. auto.
  - intros [[= ->]|[a' [? _]]]; [reflexivity|discriminate].
Qed.

Lemma bind_assoc {A B C} (m : result A) (f : A -> result B) (g : B -> result C) :
  (let* y := (let* x := m in f x) in g y) = (let* x := m in let* y := f x in g y).
Proof. destruct m; reflexivity. Qed.

(** Splits every hypothesis [(let* x := m in k) = Ok b] into its steps. *)
Ltac inv_ok :=
  repeat match goal with
  | H : mbind (M := result) _ _ = Ok _ |- _ =>
      apply bind_Ok in H; destruct H as (? & ? & H)
  | H : mret _ = Ok _ |- _ => unfold mret, result_ret in H
  | H : Ok _ = Ok _ |- _ => injection H as H; subst
  | H : Fail _ = Ok _ |- _ => discriminate H
  | H : Ok _ = Fail _ |- _ => discriminate H
  end.

(** ** Traversals: a Go [for] loop that stops at the first error *)

Fixpoint mapR {A B} (f : A -> result B) (l : list A) : result (list B) :=
  match l with
  | [] => Ok []
  | x :: l' => let* y := f x in let* ys := mapR f l' in Ok (y :: ys)
  end.

Fixpoint foldR {A S} (f : S -> A -> result S) (s : S) (l : list A) : result S :=
  match l with
  | [] => Ok s
  | x :: l' => let* s' := f s x in foldR f s' l'
  end.

(** An element of a list of distinct keys is known by its key. *)
Lemma keyed_inj {A B} (key : A -> B) l a b : NoDup (key <$> l) -> a ∈ l -> b ∈ l -> key a = key b -> a = b.
Proof.
  intros Hn [i Hi]%list_elem_of_lookup [j Hj]%list_elem_of_lookup E.
  assert (i = j) as ->; [|congruence]. eapply NoDup_lookup; [exact Hn| |]; rewrite list_lookup_fmap; [by rewrite Hi|by rewrite Hj, E].
Qed.

Lemma mapR_Ok {A B} (f : A -> result B) l ys :
  mapR f l = Ok ys <-> Forall2 (fun x y => f x = Ok y) l ys.
Proof.
  revert ys. induction l as [|x l IH]; intros ys; simpl.
  - split; [intros [= <-]; constructor | inversion 1; reflexivity].
  - rewrite bind_Ok. split.
    + intros (y & Hy & H). apply bind_Ok in H as (ys' & Hys & [= <-]).
      constructor; [exact Hy|]. by apply IH.
    + inversion 1 as [|? y ? ys' Hy Hys]; subst. exists y. split; [exact Hy|].
      apply bind_Ok. exists ys'. split; [by apply IH|reflexivity].
Qed.

Lemma mapR_Fail {A B} (f : A -> result B) l e : mapR f l = Fail e -> exists a, a ∈ l /\ f a = Fail e.
Proof.
  induction l as [|a l IH]; [done|]. cbn [mapR]. intros [H|(b & _ & H)]%bind_Fail; [exists a; split; [by left|done]|].
  apply bind_Fail in H as [H|(? & _ & ?)]; [|done]. destruct (IH H) as (x & Hx & E). exists x. split; [by right|done].
Qed.

Lemma mapR_length {A B} (f : A -> result B) l ys :
  mapR f l = Ok ys -> length ys = length l.
Proof. intros H%mapR_Ok. symmetry. by eapply Forall2_length. Qed.

Lemma mapR_pure {A B} (f : A -> result B) (g : A -> B) l :
  (forall x, x ∈ l -> f x = Ok (g x)) -> mapR f l = Ok (g <$> l).
Proof. intros H. apply mapR_Ok. apply Forall2_fmap_r, Forall_Forall2_diag, Forall_forall. exact H. Qed.

Lemma mapR_total {A B} (f : A -> result B) l :
  (forall x, x ∈ l -> exists y, f x = Ok y) -> exists ys, mapR f l = Ok ys.
Proof.
  induction l as [|x l IH]; intros H; [by exists []|].
  destruct (H x) as [y Hy]; [by left|]. destruct IH as [ys Hys]; [intros z Hz; apply H; by right|].
  exists (y :: ys). cbn [mapR]. by rewrite Hy, Hys.
Qed.

Lemma mapR_ext {A B} (f g : A -> result B) l :
  (forall x, x ∈ l -> f x = g x) -> mapR f l = mapR g l.
Proof.
  induction l as [|x l IH]; intros H; simpl; [reflexivity|].
  rewrite (H x) by set_solver. rewrite IH by set_solver. reflexivity.
Qed.

Lemma foldR_app {A S} (f : S -> A -> result S) s l1 l2 :
  foldR f s (l1 ++ l2) = let* s' := foldR f s l1 in foldR f s' l2.
Proof.
  revert s. induction l1 as [|x l1 IH]; intros s; simpl; [reflexivity|].
  unfold mbind, result_bind. destruct (f s x) as [s'|e]; [apply IH|reflexivity].
Qed.

(** A loop invariant of [foldR]. *)
Lemma foldR_inv {A S} (P : S -> Prop) (f : S -> A -> result S) s l s' :
  P s -> (forall s1 x s2, x ∈ l -> P s1 -> f s1 x = Ok s2 -> P s2) ->
  foldR f s l = Ok s' -> P s'.
Proof.
  revert s. induction l as [|x l IH]; intros s Hs Hf H; simpl in H; inv_ok; [done|].
  eapply IH; [| |done]; [eapply Hf; [|exact Hs|eassumption]; set_solver|].
  intros s1 y s2 Hy. apply Hf. set_solver.
Qed.

(** * State and errors

    A method that mutates what it is given and may fail keeps the state it
    reached: the error does not undo the steps before it. *)

Definition SM (S A : Type) : Type := S -> S * result A.
Definition sret {S A} (a : A) : SM S A := fun s => (s, Ok a).
Definition sthrow {S A} (e : Error) : SM S A := fun s => (s, Fail e).
Definition sbind {S A B} (m : SM S A) (k : A -> SM S B) : SM S B := fun s =>
  match m s with
  | (s', Ok a) => k a s'
  | (s', Fail e) => (s', Fail e)
  end.
Definition sget {S} : SM S S := fun s => (s, Ok s).
Definition smodify {S} (f : S -> S) : SM S unit := fun s => (f s, Ok tt).
Definition slift {S A} (r : result A) : SM S A := fun s => (s, r).

Notation "'do!' x <- m 'in' k" := (sbind m (fun x => k))
  (at level 10, x pattern, m at level 100, k at level 200) : go_scope.
Notation "m ';!' k" := (sbind m (fun _ => k)) (at level 101, right associativity) : go_scope.

(** A [for] loop over its elements, left at the first error. *)
Fixpoint forS {S A} (f : A -> SM S unit) (l : list A) : SM S unit :=
  match l with
  | [] => sret tt
  | x :: l' => f x ;! forS f l'
  end.

(** A loop that collects one value an element, stopping at the first error. *)
Definition mapS {S A B} (f : A -> SM S B) : list A -> SM S (list B) :=
  fix go l :=
    match l with
    | [] => sret []
    | x :: l' => do! y <- f x in do! ys <- go l' in sret (y :: ys)
    end.

Lemma sbind_Ok {S A B} (m : SM S A) (k : A -> SM S B) s s' b :
  sbind m k s = (s', Ok b) <-> exists s1 a, m s = (s1, Ok a) /\ k a s1 = (s', Ok b).
Proof.
  unfold sbind. destruct (m s) as [s1 [a|e]]; split.
  - eauto.
  - by intros (? & ? & [= <- <-] & ?).
  - discriminate.
  - by intros (? & ? & ? & _).
Qed.

Lemma sbind_step {S A B} (m : SM S A) (k : A -> SM S B) s s1 a :
  m s = (s1, Ok a) -> sbind m k s = k a s1.
Proof. intros H. unfold sbind. by rewrite H. Qed.

(** [preserves P m]: [m] keeps the invariant, whether it fails or not. *)
Definition preserves {S A} (P : S -> Prop) (m : SM S A) : Prop := forall s, P s -> P (m s).1.

Lemma sbind_preserves {S A B} (P : S -> Prop) (m : SM S A) (k : A -> SM S B) :
  preserves P m -> (forall a, preserves P (k a)) -> preserves P (sbind m k).
Proof.
  intros Hm Hk s Hs. unfold sbind. pose proof (Hm s Hs) as H.
  destruct (m s) as [s1 [a|e]]; [by apply Hk|done].
Qed.

Lemma preserves_pure {S A} (P : S -> Prop) (r : result A) : preserves P (slift r).
Proof. by intros s. Qed.
Lemma preserves_ret {S A} (P : S -> Prop) (a : A) : preserves P (sret (S := S) a).
Proof. by intros s. Qed.
Lemma preserves_throw {S A} (P : S -> Prop) (e : Error) : preserves P (sthrow (A := A) (S := S) e).
Proof. by intros s. Qed.
Lemma preserves_modify {S} (P : S -> Prop) (f : S -> S) :
  (forall s, P s -> P (f s)) -> preserves P (smodify f).
Proof. intros H s. apply H. Qed.

(** A method may use the state it reads. *)
Lemma preserves_get {S A} (P : S -> Prop) (k : S -> SM S A) :
  (forall s, P s -> P (k s s).1) -> preserves P (sbind sget k).
Proof. intros H s. apply H. Qed.

Lemma forS_preserves {S A} (P : S -> Prop) (f : A -> SM S unit) l :
  (forall x, x ∈ l -> preserves P (f x)) -> preserves P (forS f l).
Proof.
  induction l as [|x l IH]; intros H; [by intros s|].
  apply sbind_preserves; [apply H; left|]. intros _. apply IH. intros y Hy. apply H. by right.
Qed.

(** What a loop that ran to its end did: every turn moved the state along [R],
    and what a turn established the later ones kept. *)
Lemma forS_rel {S A} (R : S -> S -> Prop) (Q : A -> S -> Prop) (f : A -> SM S unit) l s s' :
  (forall s, R s s) -> (forall s1 s2 s3, R s1 s2 -> R s2 s3 -> R s1 s3) ->
  (forall x s1 s2, R s1 s2 -> Q x s1 -> Q x s2) ->
  (forall x s1 s2, x ∈ l -> R s s1 -> f x s1 = (s2, Ok tt) -> R s1 s2 /\ Q x s2) ->
  forS f l s = (s', Ok tt) -> R s s' /\ forall x, x ∈ l -> Q x s'.
Proof.
  intros Hrefl Htrans Hmono. revert s. induction l as [|x l IH]; intros s Hf H.
  { injection H as <-. split; [done|]. by intros x []%not_elem_of_nil. }
  cbn [forS] in H. apply sbind_Ok in H as (s1 & [] & H1 & H).
  destruct (Hf x s s1 (list_elem_of_here _ _) (Hrefl s) H1) as [HR HQ].
  destruct (IH s1) as [HR' HQ']; [|done|].
  { intros y t1 t2 Hy Ht. apply Hf; [by right|by eapply Htrans]. }
  split; [by eapply Htrans|]. intros y [->|Hy]%elem_of_cons; [by eapply Hmono|auto].
Qed.

Lemma forS_ext {S A} (P : S -> Prop) (f g : A -> SM S unit) l s :
  P s -> (forall x, x ∈ l -> preserves P (g x)) ->
  (forall x s1, x ∈ l -> P s1 -> f x s1 = g x s1) -> forS f l s = forS g l s.
Proof.
  revert s. induction l as [|x l IH]; intros s Hs Hp He; [done|]. cbn [forS]. unfold sbind.
  rewrite (He x s (list_elem_of_here _ _) Hs). pose proof (Hp x (list_elem_of_here _ _) s Hs) as Hs1.
  destruct (g x s) as [s1 [[]|e]]; [|done]. apply IH; [done| |].
  - intros y Hy. apply Hp. by right.
  - intros y s2 Hy. apply He. by right.
Qed.

(** The errors of a loop are the errors of its turns. *)
Lemma forS_Fail {S A} (P : S -> Prop) (f : A -> SM S unit) l s s' e :
  P s -> (forall x, x ∈ l -> preserves P (f x)) -> forS f l s = (s', Fail e) ->
  exists x s1, x ∈ l /\ P s1 /\ f x s1 = (s', Fail e).
Proof.
  revert s. induction l as [|x l IH]; intros s Hs Hp H; [discriminate|]. cbn [forS] in H.
  unfold sbind in H. pose proof (Hp x (list_elem_of_here _ _) s Hs) as Hs1.
  destruct (f x s) as [s1 [[]|e1]] eqn:Ef.
  - destruct (IH s1 Hs1) as (y & s2 & Hy & HP & Hf); [|done|].
    + intros z Hz. apply Hp. by right.
    + exists y, s2. split; [by right|done].
  - injection H as <- <-. exists x, s. split; [left|done].
Qed.

Lemma NoDup_snoc {A} (l : list A) x : NoDup l -> x ∉ l -> NoDup (l ++ [x]).
Proof.
  intros Hl Hx. apply NoDup_app. split; [done|]. split; [|apply NoDup_singleton].
  intros y Hy. rewrite list_elem_of_singleton. by intros ->.
Qed.

Lemma elem_of_take_in {A} n (l : list A) x : x ∈ take n l -> x ∈ l.
Proof. intros H. rewrite <- (take_drop n l). apply elem_of_app. by left. Qed.
Lemma elem_of_drop_in {A} n (l : list A) x : x ∈ drop n l -> x ∈ l.
Proof. intros H. rewrite <- (take_drop n l). apply elem_of_app. by right. Qed.

Lemma elem_of_concat {A} (ls : list (list A)) x : x ∈ concat ls <-> exists l, l ∈ ls /\ x ∈ l.
Proof.
  rewrite list_elem_of_In, in_concat. by setoid_rewrite list_elem_of_In.
Qed.

Create HintDb go.
#[export] Hint Resolve mapR_length : go.
#[export] Hint Resolve preserves_pure preserves_ret preserves_throw : go.
