(* ===== verification/GoStrings.v ===== *)
(** The functions of Go's [strings], [strconv] and [sort] packages the program
    uses, on byte strings, with the lemmas the components share.  Case mapping
    and white space are the ASCII ones: the names the library handles (SQL
    identifiers, storage types, property names) are ASCII, and a byte above
    127 is neither a letter nor a space here. *)
From Stdlib Require Import DecimalString DecimalZ.
From S2P Require Import Prelude.

#[global] Arguments String.append : simpl nomatch.

(** ** Concatenation *)

Lemma app_empty_r (s : string) : s +:+ "" = s.
Proof. induction s as [|c s IH]; simpl; [reflexivity|]. by rewrite IH. Qed.

Lemma app_assoc_s (s t u : string) : (s +:+ t) +:+ u = s +:+ (t +:+ u).
Proof. induction s as [|c s IH]; simpl; [reflexivity|]. by rewrite IH. Qed.

Lemma app_length_s (s t : string) :
  String.length (s +:+ t) = String.length s + String.length t.
Proof. induction s as [|c s IH]; simpl; [reflexivity|]. by rewrite IH. Qed.

Lemma app_inj_l (s t u : string) : s +:+ t = s +:+ u -> t = u.
Proof. induction s as [|c s IH]; simpl; [done|]. intros [= H]. auto. Qed.

Create Rewrite HintDb gostr.
#[export] Hint Rewrite app_empty_r app_assoc_s : gostr.

(** [strings.Join] *)
Fixpoint Join (elems : list string) (sep : string) : string :=
  match elems with
  | [] => ""
  | [e] => e
  | e :: es => e +:+ sep +:+ Join es sep
  end.

Lemma Join_cons e es sep :
  es <> [] -> Join (e :: es) sep = e +:+ sep +:+ Join es sep.
Proof. destruct es; [done|reflexivity]. Qed.

Lemma Join_app es1 es2 sep :
  es1 <> [] -> es2 <> [] ->
  Join (es1 ++ es2) sep = Join es1 sep +:+ sep +:+ Join es2 sep.
Proof.
  intros H1 H2. induction es1 as [|e es1 IH]; [done|].
  destruct es1 as [|e' es1]; simpl app.
  - by rewrite Join_cons.
  - rewrite (Join_cons e (e' :: es1)) by done.
    change ((e' :: es1) ++ es2)%list with (e' :: es1 ++ es2)%list in IH |- *.
    rewrite Join_cons by done. rewrite IH by done. by autorewrite with gostr.
Qed.

(** ** Bytes of a string *)

Fixpoint bytes (s : string) : list ascii :=
  match s with "" => [] | String c s' => c :: bytes s' end.

Fixpoint of_bytes (l : list ascii) : string :=
  match l with [] => "" | c :: l' => String c (of_bytes l') end.

Lemma of_bytes_bytes s : of_bytes (bytes s) = s.
Proof. induction s as [|c s IH]; simpl; [done|]. by rewrite IH. Qed.

Lemma bytes_of_bytes l : bytes (of_bytes l) = l.
Proof. induction l as [|c l IH]; simpl; [done|]. by rewrite IH. Qed.

Lemma bytes_app s t : bytes (s +:+ t) = (bytes s ++ bytes t)%list.
Proof. induction s as [|c s IH]; simpl; [done|]. by rewrite IH. Qed.

Lemma of_bytes_app l k : of_bytes (l ++ k) = of_bytes l +:+ of_bytes k.
Proof. induction l as [|c l IH]; simpl; [done|]. by rewrite IH. Qed.

Lemma length_bytes s : length (bytes s) = String.length s.
Proof. induction s as [|c s IH]; simpl; [done|]. by rewrite IH. Qed.

#[export] Instance bytes_inj : Inj eq eq bytes.
Proof. intros s t H. by rewrite <- (of_bytes_bytes s), H, of_bytes_bytes. Qed.

#[export] Hint Rewrite bytes_app of_bytes_app bytes_of_bytes of_bytes_bytes length_bytes : gostr.

(** [sql[i:j]] for [i <= j <= len(sql)]. *)
Definition slice (s : string) (i j : nat) : string :=
  of_bytes (take (j - i) (drop i (bytes s))).

(** ** Character classes *)

Definition ord (c : ascii) : N := N_of_ascii c.
Definition in_range (lo hi : N) (c : ascii) : bool := ((lo <=? ord c) && (ord c <=? hi))%N.
Definition is_upper (c : ascii) : bool := in_range 65 90 c.
Definition is_lower (c : ascii) : bool := in_range 97 122 c.
Definition is_digit (c : ascii) : bool := in_range 48 57 c.
(** ['\t'], ['\n'], ['\v'], ['\f'], ['\r'] and [' ']. *)
Definition is_space (c : ascii) : bool := in_range 9 13 c || (ord c =? 32)%N.

Definition to_lower (c : ascii) : ascii :=
  if is_upper c then ascii_of_N (ord c + 32) else c.
Definition to_upper (c : ascii) : ascii :=
  if is_lower c then ascii_of_N (ord c - 32) else c.

Definition map_bytes (f : ascii -> ascii) (s : string) : string :=
  of_bytes (f <$> bytes s).

(** [strings.ToLower], [strings.ToUpper], [strings.EqualFold] *)
Definition ToLower : string -> string := map_bytes to_lower.
Definition ToUpper : string -> string := map_bytes to_upper.
Definition EqualFold (s t : string) : bool := bool_decide (ToLower s = ToLower t).

Ltac all_ascii c :=
  destruct c as [[] [] [] [] [] [] [] []]; vm_compute; reflexivity.

Lemma to_lower_idem c : to_lower (to_lower c) = to_lower c.
Proof. all_ascii c. Qed.

Lemma to_lower_upper c : to_lower (to_upper c) = to_lower c.
Proof. all_ascii c. Qed.

Lemma ToLower_idem s : ToLower (ToLower s) = ToLower s.
Proof.
  unfold ToLower, map_bytes. rewrite bytes_of_bytes. f_equal.
  rewrite <- list_fmap_compose. apply list_fmap_ext. intros _ c _. apply to_lower_idem.
Qed.

Lemma EqualFold_refl s : EqualFold s s = true.
Proof. by apply bool_decide_eq_true. Qed.

Lemma EqualFold_true s t : EqualFold s t = true <-> ToLower s = ToLower t.
Proof. apply bool_decide_eq_true. Qed.

Lemma EqualFold_sym s t : EqualFold s t = EqualFold t s.
Proof. apply bool_decide_ext. split; congruence. Qed.

Lemma ToLower_app s t : ToLower (s +:+ t) = ToLower s +:+ ToLower t.
Proof. unfold ToLower, map_bytes. by rewrite bytes_app, fmap_app, of_bytes_app. Qed.

(** [strings.TrimSpace] *)
Fixpoint trim_left (l : list ascii) : list ascii :=
  match l with
  | [] => []
  | c :: l' => if is_space c then trim_left l' else l
  end.
Definition TrimSpace (s : string) : string :=
  of_bytes (rev (trim_left (rev (trim_left (bytes s))))).

Lemma trim_left_solid l :
  Forall (fun c => is_space c = false) (take 1 l) -> trim_left l = l.
Proof. destruct l as [|c l]; [done|]. simpl. inversion 1 as [|? ? Hc]; subst. by rewrite Hc. Qed.

(** Text that neither starts nor ends with a space is left alone. *)
Lemma TrimSpace_solid c l d :
  is_space c = false -> is_space d = false ->
  TrimSpace (of_bytes (c :: l ++ [d])) = of_bytes (c :: l ++ [d]).
Proof.
  intros Hc Hd. unfold TrimSpace. rewrite bytes_of_bytes.
  rewrite (trim_left_solid (c :: l ++ [d])) by by repeat constructor.
  rewrite app_comm_cons, rev_app_distr. rewrite trim_left_solid by by repeat constructor.
  by rewrite rev_app_distr, rev_involutive.
Qed.

(** [strings.Fields]: the maximal runs of non-space bytes. *)
Fixpoint fields_from (word : list ascii) (l : list ascii) : list string :=
  match l with
  | [] => match word with [] => [] | _ => [of_bytes (rev word)] end
  | c :: l' =>
      if is_space c
      then match word with
           | [] => fields_from [] l'
           | _ => of_bytes (rev word) :: fields_from [] l'
           end
      else fields_from (c :: word) l'
  end.
Definition Fields (s : string) : list string := fields_from [] (bytes s).

(** [strings.ReplaceAll(s, old, new)] for a one-byte [old]. *)
Fixpoint ReplaceAll (s : string) (old : ascii) (new : string) : string :=
  match s with
  | "" => ""
  | String c s' =>
      if Ascii.eqb c old then new +:+ ReplaceAll s' old new
      else String c (ReplaceAll s' old new)
  end.

(** [strings.HasPrefix] and [strings.Contains] *)
Definition HasPrefix (s pre : string) : bool := String.prefix pre s.
Fixpoint Contains (s sub : string) : bool :=
  String.prefix sub s ||
  match s with "" => false | String _ s' => Contains s' sub end.

(** [strconv.Itoa], [strconv.FormatInt(_, 10)], [%d] *)
Definition Itoa (z : Z) : string := NilZero.string_of_int (Z.to_int z).

Lemma int_of_string_Itoa z :
  NilZero.int_of_string (Itoa z) = Some (Z.to_int z).
Proof.
  apply NilZero.isi; destruct z as [|p|p]; simpl; try done;
    intros E; injection E as E; by apply (DecimalPos.Unsigned.to_uint_nonnil p).
Qed.

Lemma Itoa_inj z1 z2 : Itoa z1 = Itoa z2 -> z1 = z2.
Proof.
  intros H. apply DecimalZ.to_int_inj.
  pose proof (int_of_string_Itoa z1) as H1. rewrite H, int_of_string_Itoa in H1.
  by injection H1.
Qed.

Lemma Itoa_digits z : (0 <= z)%Z -> Forall (fun c => is_digit c = true) (bytes (Itoa z)).
Proof.
  assert (H : forall u, Forall (fun c => is_digit c = true)
                          (bytes (NilEmpty.string_of_uint u)))
    by (induction u; simpl; by constructor).
  intros Hz. unfold Itoa. destruct z as [|p|p]; [by repeat constructor| |lia].
  simpl. unfold NilZero.string_of_uint. destruct (Pos.to_uint p); try apply H.
  by repeat constructor.
Qed.

Lemma Itoa_chars z :
  Forall (fun c => is_digit c = true \/ c = "-"%char) (bytes (Itoa z)).
Proof.
  destruct (Z.le_ge_cases 0 z) as [Hz|Hz].
  - eapply Forall_impl; [by apply Itoa_digits|]. auto.
  - destruct z as [|p|p]; [by repeat constructor; left|lia|].
    pose proof (Itoa_digits (Z.pos p) (Pos2Z.is_nonneg p)) as H.
    change (bytes (Itoa (Z.neg p))) with ("-"%char :: bytes (Itoa (Z.pos p))).
    constructor; [by right|]. eapply Forall_impl; [exact H|]. auto.
Qed.

Lemma Itoa_nonempty z : bytes (Itoa z) <> [].
Proof.
  intros H. assert (Hz : Itoa z = "") by (by rewrite <- (of_bytes_bytes (Itoa z)), H).
  pose proof (int_of_string_Itoa z) as Hi. by rewrite Hz in Hi.
Qed.

(** [sort.Strings]: ascending byte order.  The order is total, so the sorted
    list is unique and stability is not observable. *)
Definition sort_strings : list string -> list string := merge_sort String.le.

Lemma sort_strings_perm l : sort_strings l ≡ₚ l.
Proof. apply merge_sort_Permutation. Qed.

Lemma elem_of_sort_strings x l : x ∈ sort_strings l <-> x ∈ l.
Proof. by rewrite sort_strings_perm. Qed.
