(* ===== verification/Values.v ===== *)
(** Go values as the session handles them ([any]), exact decimals
    (internal/core/decimal.go), the one value-wise comparator
    (compare_values.go) and key tuples (key_tuple.go).

    An integer keeps its Go type beside its value; an instant is its
    nanoseconds since the epoch and its zone offset; a GUID and a byte slice
    are their bytes; a float is the IEEE datum of [SpecFloat].  A failed type
    assertion panics in Go: [Panic] is the error that stands for it, and the
    theorems show where it cannot happen. *)
From Stdlib Require Import SpecFloat.
From S2P Require Import Prelude GoStrings.

Inductive IntKind :=
  | KInt | KInt8 | KInt16 | KInt32 | KInt64
  | KUint | KUint8 | KUint16 | KUint32 | KUint64.
#[export] Instance IntKind_eq_dec : EqDecision IntKind.
Proof. solve_decision. Defined.

#[export] Instance spec_float_eq_dec : EqDecision spec_float.
Proof. solve_decision. Defined.

Inductive Value :=
  | VNil
  | VInt (k : IntKind) (z : Z)
  | VFloat (single : bool) (f : spec_float)
  | VString (s : string)
  | VBool (b : bool)
  | VBytes (s : string)
  | VTime (nanos offset : Z)
  | VGuid (s : string)
  | VDecimal (text : string)
  (** any other named type: its name and its [fmt.Sprint] form *)
  | VOther (type text : string).
#[export] Instance Value_eq_dec : EqDecision Value.
Proof. solve_decision. Defined.

(** The dynamic type of a value ([reflect.TypeOf]), with the [fmt.Sprint] form
    of the zero value for a type the model does not know. *)
Inductive VType :=
  | TyInt (k : IntKind) | TyFloat (single : bool) | TyString | TyBool | TyBytes
  | TyTime | TyGuid | TyDecimal | TyOther (type zero : string).
#[export] Instance VType_eq_dec : EqDecision VType.
Proof. solve_decision. Defined.

Definition has_type (v : Value) (ty : VType) : bool :=
  match v, ty with
  | VInt k _, TyInt k' => bool_decide (k = k')
  | VFloat s _, TyFloat s' => Bool.eqb s s'
  | VString _, TyString | VBool _, TyBool | VBytes _, TyBytes | VTime _ _, TyTime
  | VGuid _, TyGuid | VDecimal _, TyDecimal => true
  | VOther t _, TyOther t' _ => bool_decide (t = t')
  | _, _ => false
  end.

(** Year 1, the zero [time.Time], is 62135596800 seconds before the epoch; the
    zero [Decimal] has no text. *)
Definition zero_value (ty : VType) : Value :=
  match ty with
  | TyInt k => VInt k 0
  | TyFloat s => VFloat s (S754_zero false)
  | TyString => VString ""
  | TyBool => VBool false
  | TyBytes => VBytes ""
  | TyTime => VTime (-62135596800000000000) 0
  | TyGuid => VGuid (of_bytes (repeat zero 16))
  | TyDecimal => VDecimal ""
  | TyOther t zero => VOther t zero
  end.

Lemma zero_has_type ty : has_type (zero_value ty) ty = true.
Proof. destruct ty; simpl; try done; [by rewrite bool_decide_true|by destruct single|by rewrite bool_decide_true]. Qed.

Definition is_nil (v : Value) : bool := match v with VNil => true | _ => false end.

Definition Panic {A} (what : string) : result A := Fail (NewError "panic" what).

(** The range of a fixed-width integer type on a 64-bit platform. *)
Definition int_bounds (k : IntKind) : Z * Z :=
  match k with
  | KInt8 => (- 2 ^ 7, 2 ^ 7 - 1)
  | KInt16 => (- 2 ^ 15, 2 ^ 15 - 1)
  | KInt32 => (- 2 ^ 31, 2 ^ 31 - 1)
  | KInt | KInt64 => (- 2 ^ 63, 2 ^ 63 - 1)
  | KUint8 => (0, 2 ^ 8 - 1)
  | KUint16 => (0, 2 ^ 16 - 1)
  | KUint32 => (0, 2 ^ 32 - 1)
  | KUint | KUint64 => (0, 2 ^ 64 - 1)
  end%Z.
Definition in_bounds (k : IntKind) (z : Z) : bool :=
  ((int_bounds k).1 <=? z)%Z && (z <=? (int_bounds k).2)%Z.

(** [int64(v)] of an integer, and [SetInt]/[SetUint] into a kind: bits beyond
    the width are cut. *)
Definition wrap (k : IntKind) (z : Z) : Z :=
  let '(lo, hi) := int_bounds k in (lo + (z - lo) mod (hi - lo + 1))%Z.

Lemma in_bounds_spec k z : in_bounds k z = true <-> ((int_bounds k).1 <= z <= (int_bounds k).2)%Z.
Proof. unfold in_bounds. rewrite andb_true_iff, !Z.leb_le. lia. Qed.

Lemma wrap_bounds k z : in_bounds k (wrap k z) = true.
Proof.
  apply in_bounds_spec. unfold wrap. destruct k; cbn;
    match goal with |- context [(?a mod ?b)%Z] => pose proof (Z.mod_pos_bound a b); lia end.
Qed.

Lemma wrap_id k z : in_bounds k z = true -> wrap k z = z.
Proof.
  intros Hz%in_bounds_spec. unfold wrap. destruct (int_bounds k) as [lo hi]. cbn in Hz.
  rewrite Z.mod_small by lia. lia.
Qed.

(** ** Decimal (decimal.go) *)

(** [^-?[0-9]+(\.[0-9]+)?$] *)
Definition all_digits (l : list ascii) : bool :=
  match l with [] => false | _ => forallb is_digit l end.

(** The text before and after the first point. *)
Fixpoint cut_point (l : list ascii) : list ascii * option (list ascii) :=
  match l with
  | [] => ([], None)
  | c :: l' =>
      if Ascii.eqb c "."%char then ([], Some l')
      else let (a, b) := cut_point l' in (c :: a, b)
  end.

Definition unsigned_literal (l : list ascii) : bool :=
  match cut_point l with
  | (int, None) => all_digits int
  | (int, Some frac) => all_digits int && all_digits frac
  end.

Definition decimalLiteral (text : string) : bool :=
  match bytes text with
  | c :: l => if Ascii.eqb c "-"%char then unsigned_literal l else unsigned_literal (c :: l)
  | [] => false
  end.

(** [strings.Trim(text, "0.") == ""] *)
Definition only_zeros_and_points (l : list ascii) : bool :=
  forallb (fun c => Ascii.eqb c "0"%char || Ascii.eqb c "."%char) l.

Definition canonicalDecimal (text : string) : string :=
  match bytes text with
  | c :: l =>
      if Ascii.eqb c "-"%char && only_zeros_and_points l then of_bytes l else text
  | [] => text
  end.

Definition ParseDecimal (text : string) : result string :=
  let trimmed := TrimSpace text in
  if decimalLiteral trimmed then Ok (canonicalDecimal trimmed)
  else Fail (NewError "MAP-031" "Decimal").

Definition Decimal_String (text : string) : string :=
  if decide (text = "") then "0" else text.

(** [strings.TrimRight(text, "0")] and then [TrimRight(_, ".")] *)
Fixpoint drop_while (f : ascii -> bool) (l : list ascii) : list ascii :=
  match l with
  | [] => []
  | c :: l' => if f c then drop_while f l' else l
  end.
Definition TrimRight (s : string) (f : ascii -> bool) : string :=
  of_bytes (rev (drop_while f (rev (bytes s)))).

Definition normalized (text : string) : string :=
  let text := Decimal_String text in
  let text :=
    if Contains text "." then
      TrimRight (TrimRight text (fun c => Ascii.eqb c "0"%char)) (fun c => Ascii.eqb c "."%char)
    else text in
  if decide (text = "-0" \/ text = "") then "0" else text.

Definition Decimal_IsZero (text : string) : bool := bool_decide (normalized text = "0").
Definition Decimal_Equal (a b : string) : bool := bool_decide (normalized a = normalized b).

(** [big.Rat.SetString] on a decimal literal: numerator over a power of ten. *)
Definition digit_value (c : ascii) : Z := Z.of_N (ord c) - 48.
Definition digits_value (l : list ascii) : Z :=
  fold_left (fun acc c => acc * 10 + digit_value c)%Z l 0%Z.

Definition unsigned_rat (l : list ascii) : Z * Z :=
  match cut_point l with
  | (int, None) => (digits_value int, 1)%Z
  | (int, Some frac) => (digits_value (int ++ frac), 10 ^ Z.of_nat (length frac))%Z
  end.

Definition decimal_rat (text : string) : option (Z * Z) :=
  if decimalLiteral text then
    match bytes text with
    | c :: l =>
        if Ascii.eqb c "-"%char
        then let (n, d) := unsigned_rat l in Some (- n, d)%Z
        else Some (unsigned_rat (c :: l))
    | [] => None
    end
  else None.

(** A value a Go program can hold: integers fit their kind, a GUID is sixteen
    bytes and a decimal, which only [ParseDecimal] makes, is a literal. *)
Definition real (v : Value) : Prop :=
  match v with
  | VInt k z => in_bounds k z = true
  | VGuid g => String.length g = 16
  | VDecimal t => is_Some (decimal_rat (Decimal_String t))
  | _ => True
  end.

Lemma zero_real ty : real (zero_value ty).
Proof. destruct ty as [[]| | | | | | | |]; try done. vm_compute. by eexists. Qed.

Lemma decimal_literal text : is_Some (decimal_rat text) <-> decimalLiteral text = true.
Proof.
  unfold decimal_rat, decimalLiteral. split; [destruct (match bytes text with [] => _ | _ => _ end); [done|by intros []]|].
  destruct (bytes text) as [|c l]; [done|]. intros ->. destruct (Ascii.eqb c "-"%char); [destruct (unsigned_rat l)|]; by eexists.
Qed.

Definition Zsign_of (c : comparison) : Z :=
  match c with Lt => -1 | Eq => 0 | Gt => 1 end%Z.

(** [left.Cmp(right)]; a text [SetString] refuses leaves a nil [*big.Rat]. *)
Definition Decimal_Compare (a b : string) : result Z :=
  match decimal_rat (Decimal_String a), decimal_rat (Decimal_String b) with
  | Some (n1, d1), Some (n2, d2) => Ok (Zsign_of (n1 * d2 ?= n2 * d1)%Z)
  | _, _ => Panic "nil *big.Rat"
  end.

(** ** [CompareValues] *)

Definition compare_Z (a b : Z) : Z := Zsign_of (a ?= b)%Z.

Definition compareOrdered_float (a b : spec_float) : Z :=
  if SFltb a b then (-1)%Z else if SFltb b a then 1%Z else 0%Z.

Fixpoint compare_bytes (a b : list ascii) : Z :=
  match a, b with
  | [], [] => 0
  | [], _ :: _ => -1
  | _ :: _, [] => 1
  | c :: a', d :: b' =>
      match (ord c ?= ord d)%N with
      | Lt => -1
      | Gt => 1
      | Eq => compare_bytes a' b'
      end
  end%Z.
Definition Compare_string (a b : string) : Z := compare_bytes (bytes a) (bytes b).

(** [fmt.Sprint] of a value, where the fallback of [CompareValues] reaches it:
    a byte slice prints as its decimal bytes in brackets.  Floats, instants and
    GUIDs are compared by their own cases; the text of one against a value of
    another type is outside the model. *)
Definition fmt_Sprint (v : Value) : option string :=
  match v with
  | VNil => Some "<nil>"
  | VInt _ z => Some (Itoa z)
  | VString s => Some s
  | VBool b => Some (if b then "true" else "false")
  | VBytes s =>
      Some ("[" +:+ Join ((fun c => Itoa (Z.of_N (ord c))) <$> bytes s) " " +:+ "]")
  | VDecimal t => Some (Decimal_String t)
  | VOther _ text => Some text
  | VFloat _ _ | VTime _ _ | VGuid _ => None
  end.

Definition CompareValues (a b : Value) : result Z :=
  match a with
  | VNil => if is_nil b then Ok 0%Z else Ok (-1)%Z
  | VInt k x =>
      match b with
      | VInt k' y => if decide (k = k') then Ok (compare_Z x y) else Panic "interface conversion"
      | _ => Panic "interface conversion"
      end
  | VFloat s x =>
      match b with
      | VFloat s' y => if Bool.eqb s s' then Ok (compareOrdered_float x y)
                       else Panic "interface conversion"
      | _ => Panic "interface conversion"
      end
  | VString x => match b with VString y => Ok (Compare_string x y) | _ => Panic "interface conversion" end
  | VBool x =>
      match b with
      | VBool y => Ok (if Bool.eqb x y then 0 else if negb x then -1 else 1)%Z
      | _ => Panic "interface conversion"
      end
  | VTime x _ => match b with VTime y _ => Ok (compare_Z x y) | _ => Panic "interface conversion" end
  | VGuid x => match b with VGuid y => Ok (Compare_string x y) | _ => Panic "interface conversion" end
  | VDecimal x => match b with VDecimal y => Decimal_Compare x y | _ => Panic "interface conversion" end
  | VBytes _ | VOther _ _ =>
      if is_nil b then Ok 1%Z
      else match fmt_Sprint a, fmt_Sprint b with
           | Some x, Some y => Ok (Compare_string x y)
           | _, _ => Panic "fmt.Sprint outside the model"
           end
  end.

(** ** [KeyTuple] *)

Definition KeyTuple := list Value.

(** [reflect.DeepEqual] on two values of these types: equal Go types and equal
    contents, floats by [==]. *)
Definition DeepEqual (a b : Value) : bool :=
  match a, b with
  | VFloat s x, VFloat s' y => Bool.eqb s s' && SFeqb x y
  | _, _ => bool_decide (a = b)
  end.

Fixpoint KeyTuple_Equal (t other : KeyTuple) : bool :=
  match t, other with
  | [], [] => true
  | a :: t', b :: other' => DeepEqual a b && KeyTuple_Equal t' other'
  | _, _ => false
  end.

(** The receiver's length drives the loop: a shorter [other] is an index out
    of range. *)
Fixpoint KeyTuple_Compare (t other : KeyTuple) : result Z :=
  match t with
  | [] => Ok 0%Z
  | a :: t' =>
      match other with
      | [] => Panic "index out of range"
      | b :: other' =>
          let* c := CompareValues a b in
          if (c =? 0)%Z then KeyTuple_Compare t' other' else Ok c
      end
  end.

Definition HasNull (t : KeyTuple) : bool := existsb is_nil t.

(** * Lemmas: the comparator is a total order on the keys of one type *)

(** A three-way comparison that orders a set of values. *)
Record ordering_on {A} (P : A -> Prop) (cmp : A -> A -> result Z) : Prop := {
  ord_total : forall x y, P x -> P y -> exists c, cmp x y = Ok c /\ (-1 <= c <= 1)%Z;
  ord_refl : forall x, P x -> cmp x x = Ok 0%Z;
  ord_anti : forall x y c, P x -> P y -> cmp x y = Ok c -> cmp y x = Ok (- c)%Z;
  ord_trans : forall x y z c d, P x -> P y -> P z ->
    cmp x y = Ok c -> cmp y z = Ok d -> (c <= 0)%Z -> (d <= 0)%Z ->
    exists e, cmp x z = Ok e /\ (e <= 0)%Z /\ ((c < 0)%Z \/ (d < 0)%Z -> (e < 0)%Z) }.

(** An order on images orders the values. *)
Lemma ordering_on_image {A B} (P : A -> Prop) (Q : B -> Prop) (f : A -> B) cmpA cmpB :
  ordering_on Q cmpB -> (forall x, P x -> Q (f x)) ->
  (forall x y, P x -> P y -> cmpA x y = cmpB (f x) (f y)) -> ordering_on P cmpA.
Proof.
  intros [Ht Hr Ha Hs] HP Hc. split.
  - intros x y Hx Hy. rewrite Hc by done. auto.
  - intros x Hx. rewrite Hc by done. auto.
  - intros x y c Hx Hy. rewrite !Hc by done. auto.
  - intros x y z c d Hx Hy Hz. rewrite !Hc by done. apply Hs; auto.
Qed.

Lemma compare_Z_order : ordering_on (fun _ => True) (fun x y => Ok (compare_Z x y)).
Proof.
  unfold compare_Z. split.
  - intros x y _ _. eexists. split; [done|]. destruct (x ?= y)%Z; simpl; lia.
  - intros x _. by rewrite Z.compare_refl.
  - intros x y c _ _ [= <-]. rewrite (Z.compare_antisym x y). by destruct (x ?= y)%Z.
  - intros x y z c d _ _ _ [= <-] [= <-].
    destruct (Z.compare_spec x y), (Z.compare_spec y z), (Z.compare_spec x z);
      simpl; intros; eexists; (split; [done|]); split; lia.
Qed.

Lemma compare_bytes_range a b : (-1 <= compare_bytes a b <= 1)%Z.
Proof.
  revert b. induction a as [|c a IH]; intros [|d b]; simpl; try lia.
  destruct (ord c ?= ord d)%N; try lia. apply IH.
Qed.

Lemma compare_bytes_anti a b : compare_bytes b a = (- compare_bytes a b)%Z.
Proof.
  revert b. induction a as [|c a IH]; intros [|d b]; simpl; try done.
  rewrite (N.compare_antisym (ord c) (ord d)). destruct (ord c ?= ord d)%N; simpl; [apply IH|done|done].
Qed.

Lemma compare_bytes_trans a b c :
  (compare_bytes a b <= 0)%Z -> (compare_bytes b c <= 0)%Z ->
  (compare_bytes a c <= 0)%Z /\
  ((compare_bytes a b < 0)%Z \/ (compare_bytes b c < 0)%Z -> (compare_bytes a c < 0)%Z).
Proof.
  revert b c. induction a as [|x a IH]; intros [|y b] [|z c]; simpl; try lia.
  destruct (N.compare_spec (ord x) (ord y)) as [E1|E1|E1];
  destruct (N.compare_spec (ord y) (ord z)) as [E2|E2|E2];
  destruct (N.compare_spec (ord x) (ord z)) as [E3|E3|E3]; try lia.
  apply IH.
Qed.

Lemma compare_bytes_order : ordering_on (fun _ => True) (fun a b => Ok (compare_bytes a b)).
Proof.
  split.
  - intros x y _ _. eexists. split; [done|]. apply compare_bytes_range.
  - intros x _. f_equal. pose proof (compare_bytes_anti x x). lia.
  - intros x y c _ _ [= <-]. f_equal. apply compare_bytes_anti.
  - intros x y z c d _ _ _ [= <-] [= <-] H1 H2. eexists. split; [done|].
    by apply (compare_bytes_trans x y z).
Qed.

(** Two rationals with positive denominators, compared crosswise. *)
Lemma rat_order :
  ordering_on (fun q : Z * Z => (0 < q.2)%Z)
    (fun p q => Ok (Zsign_of (p.1 * q.2 ?= q.1 * p.2)%Z)).
Proof.
  split.
  - intros [n d] [n' d'] _ _. eexists. split; [done|]. destruct (_ ?= _)%Z; simpl; lia.
  - intros [n d] _. by rewrite Z.compare_refl.
  - intros [n d] [n' d'] c _ _ [= <-]. simpl.
    rewrite (Z.compare_antisym (n * d') (n' * d)). by destruct (_ ?= _)%Z.
  - intros [n1 d1] [n2 d2] [n3 d3] c d. simpl. intros H1 H2 H3 [= <-] [= <-].
    destruct (Z.compare_spec (n1 * d2) (n2 * d1)) as [E1|E1|E1];
    destruct (Z.compare_spec (n2 * d3) (n3 * d2)) as [E2|E2|E2];
    destruct (Z.compare_spec (n1 * d3) (n3 * d1)) as [E3|E3|E3];
      simpl; intros; eexists; (split; [done|]); split; nia.
Qed.

(** The types a key part can have, and the values of each: what "both always
    come from the same mapped property" means.  A float key is excluded: NaN
    compares equal to everything. *)
Inductive KeyType :=
  | KTInt (k : IntKind) | KTString | KTBool | KTTime | KTGuid | KTDecimal | KTBytes | KTOther.
#[export] Instance KeyType_eq_dec : EqDecision KeyType.
Proof. solve_decision. Defined.

Definition of_type (ty : KeyType) (v : Value) : Prop :=
  match ty, v with
  | KTInt k, VInt k' z => k' = k /\ in_bounds k z = true
  | KTString, VString _ | KTBool, VBool _ | KTTime, VTime _ _ | KTGuid, VGuid _
  | KTBytes, VBytes _ | KTOther, VOther _ _ => True
  | KTDecimal, VDecimal t => is_Some (decimal_rat (Decimal_String t))
  | _, _ => False
  end.

Lemma unsigned_rat_pos l : (0 < (unsigned_rat l).2)%Z.
Proof.
  unfold unsigned_rat. destruct (cut_point l) as [int [frac|]]; simpl; [|done].
  apply Z.pow_pos_nonneg; lia.
Qed.

Lemma decimal_rat_pos t q : decimal_rat t = Some q -> (0 < q.2)%Z.
Proof.
  unfold decimal_rat. destruct (decimalLiteral t); [|done].
  destruct (bytes t) as [|c l]; [done|]. destruct (Ascii.eqb c "-"%char).
  - pose proof (unsigned_rat_pos l). destruct (unsigned_rat l). intros [= <-]. exact H.
  - intros [= <-]. apply unsigned_rat_pos.
Qed.

Definition value_rat (v : Value) : Z * Z :=
  match v with VDecimal t => default (0, 1)%Z (decimal_rat (Decimal_String t)) | _ => (0, 1)%Z end.
Definition value_Z (v : Value) : Z :=
  match v with
  | VInt _ z => z | VTime n _ => n | VBool b => if b then 1 else 0 | _ => 0
  end%Z.
Definition value_text (v : Value) : list ascii :=
  match v with
  | VString s | VGuid s => bytes s
  | _ => bytes (default "" (fmt_Sprint v))
  end.

Lemma CompareValues_order ty : ordering_on (of_type ty) CompareValues.
Proof.
  destruct ty as [k| | | | | | |].
  all: try (apply (ordering_on_image _ _ value_text _ _ compare_bytes_order); [done|];
            intros [] []; simpl; done).
  - apply (ordering_on_image _ _ value_Z _ _ compare_Z_order); [done|].
    intros [] []; simpl; try done. intros [-> _] [-> _]. by rewrite decide_True.
  - apply (ordering_on_image _ _ value_Z _ _ compare_Z_order); [done|].
    intros [] []; simpl; try done. destruct b, b0; done.
  - apply (ordering_on_image _ _ value_Z _ _ compare_Z_order); [done|].
    intros [] []; simpl; done.
  - apply (ordering_on_image _ _ value_rat _ _ rat_order).
    + intros []; simpl; try done. intros [q Hq]. rewrite Hq. simpl. by eapply decimal_rat_pos.
    + intros [] []; simpl; try done. intros [[n1 d1] H1] [[n2 d2] H2].
      unfold Decimal_Compare. by rewrite H1, H2.
Qed.

(** ** Key tuples of one key's types *)

Definition tuple_of (tys : list KeyType) (t : KeyTuple) : Prop := Forall2 of_type tys t.

Lemma of_type_not_nil ty v : of_type ty v -> is_nil v = false.
Proof. by destruct ty, v. Qed.

Lemma tuple_no_null tys t : tuple_of tys t -> HasNull t = false.
Proof.
  induction 1 as [|ty v tys t Hv H IH]; [done|]. unfold HasNull in *. simpl.
  by rewrite (of_type_not_nil _ _ Hv), IH.
Qed.

Lemma KeyTuple_Compare_cons a t b other :
  KeyTuple_Compare (a :: t) (b :: other)
  = let* c := CompareValues a b in
    if (c =? 0)%Z then KeyTuple_Compare t other else Ok c.
Proof. reflexivity. Qed.

Ltac inv_tuple H v t Hv Ht :=
  apply Forall2_cons_inv_l in H as (v & t & Hv & Ht & ->).

Lemma KeyTuple_order tys : ordering_on (tuple_of tys) KeyTuple_Compare.
Proof.
  induction tys as [|ty tys [Ht Hr Ha Hs]]; unfold tuple_of in *.
  { split.
    - inversion 1; inversion 1; subst. exists 0%Z. split; [done|lia].
    - inversion 1; subst. done.
    - inversion 1; inversion 1; subst. intros [= <-]. done.
    - inversion 1; inversion 1; inversion 1; subst. intros [= <-] [= <-] _ _.
      exists 0%Z. split; [done|lia]. }
  destruct (CompareValues_order ty) as [Vt Vr Va Vs].
  split.
  - intros x y Hx Hy. inv_tuple Hx a x' H1 H2. inv_tuple Hy b y' H3 H4.
    rewrite KeyTuple_Compare_cons. destruct (Vt a b H1 H3) as (c & -> & Hc). simpl.
    destruct (c =? 0)%Z; [by apply Ht|]. by exists c.
  - intros x Hx. inv_tuple Hx a x' H1 H2.
    rewrite KeyTuple_Compare_cons, (Vr a H1). simpl. by apply Hr.
  - intros x y c Hx Hy. inv_tuple Hx a x' H1 H2. inv_tuple Hy b y' H3 H4.
    rewrite !KeyTuple_Compare_cons. intros (c1 & E1 & E)%bind_Ok.
    rewrite (Va a b c1 H1 H3 E1). simpl.
    destruct (Z.eqb_spec c1 0) as [->|Hc]; [by apply Ha|]. injection E as <-.
    destruct (Z.eqb_spec (- c1) 0); [lia|done].
  - intros x y z c d Hx Hy Hz.
    inv_tuple Hx a x' H1 H2. inv_tuple Hy b y' H3 H4. inv_tuple Hz e z' H5 H6.
    rewrite !KeyTuple_Compare_cons. intros (c1 & E1 & E)%bind_Ok (d1 & E2 & F)%bind_Ok Hc Hd.
    assert (Hc1 : (c1 <= 0)%Z) by (destruct (Z.eqb_spec c1 0); [lia|injection E as ->; lia]).
    assert (Hd1 : (d1 <= 0)%Z) by (destruct (Z.eqb_spec d1 0); [lia|injection F as ->; lia]).
    destruct (Vs a b e c1 d1 H1 H3 H5 E1 E2 Hc1 Hd1) as (f & Ef & Hf & Hf').
    rewrite Ef. simpl.
    destruct (Z.eqb_spec f 0) as [->|Hf0].
    + assert (c1 = 0 /\ d1 = 0)%Z as [-> ->] by lia. simpl in E, F.
      by apply (Hs x' y' z' c d).
    + exists f. split; [done|]. split; [lia|]. lia.
Qed.

Lemma tuple_compare_total tys t u :
  tuple_of tys t -> tuple_of tys u -> exists c, KeyTuple_Compare t u = Ok c.
Proof. intros Ht Hu. destruct (ord_total _ _ (KeyTuple_order tys) t u Ht Hu) as (c & ? & _). eauto. Qed.

#[export] Hint Resolve tuple_compare_total KeyTuple_order CompareValues_order : go.

(** * Theorems *)

(** [KeyTuple.Compare] on the tuples of one key never panics and is a total
    preorder: it answers -1, 0 or 1, a tuple equals itself, swapping the
    arguments negates the answer, and the order is transitive, strictly when
    either step is strict. *)
Theorem KeyTuple_Compare_total_preorder (tys : list KeyType) (a b c : KeyTuple) :
  tuple_of tys a -> tuple_of tys b -> tuple_of tys c ->
  exists ab bc ac,
    KeyTuple_Compare a b = Ok ab /\ KeyTuple_Compare b c = Ok bc /\
    KeyTuple_Compare a c = Ok ac /\ (-1 <= ab <= 1)%Z /\
    KeyTuple_Compare a a = Ok 0%Z /\ KeyTuple_Compare b a = Ok (- ab)%Z /\
    ((ab <= 0)%Z -> (bc <= 0)%Z ->
       (ac <= 0)%Z /\ ((ab < 0)%Z \/ (bc < 0)%Z -> (ac < 0)%Z)).
Proof.
  intros Ha Hb Hc. destruct (KeyTuple_order tys) as [Ot Or Oa Os].
  destruct (Ot a b Ha Hb) as (ab & Eab & Hab), (Ot b c Hb Hc) as (bc & Ebc & _),
    (Ot a c Ha Hc) as (ac & Eac & _).
  exists ab, bc, ac. do 4 (split; [done|]). split; [by apply Or|]. split; [by apply Oa|].
  intros H1 H2. destruct (Os a b c ab bc Ha Hb Hc Eab Ebc H1 H2) as (e & Ee & He).
  rewrite Eac in Ee. injection Ee as <-. exact He.
Qed.

Lemma KeyTuple_Compare_total_preorder_witness :
  tuple_of [KTInt KInt64; KTDecimal] [VInt KInt64 2; VDecimal "19.9"] /\
  exists ab bc ac,
    KeyTuple_Compare [VInt KInt64 2; VDecimal "19.9"] [VInt KInt64 10; VDecimal "19.90"] = Ok ab /\
    KeyTuple_Compare [VInt KInt64 10; VDecimal "19.90"] [VInt KInt64 10; VDecimal "100"] = Ok bc /\
    KeyTuple_Compare [VInt KInt64 2; VDecimal "19.9"] [VInt KInt64 10; VDecimal "100"] = Ok ac /\
    (-1 <= ab <= 1)%Z.
Proof.
  assert (H : forall z t, in_bounds KInt64 z = true -> is_Some (decimal_rat (Decimal_String t)) ->
            tuple_of [KTInt KInt64; KTDecimal] [VInt KInt64 z; VDecimal t]).
  { intros z t Hz Ht. repeat constructor; assumption. }
  assert (H1 : tuple_of [KTInt KInt64; KTDecimal] [VInt KInt64 2; VDecimal "19.9"])
    by (apply H; [reflexivity|eexists; reflexivity]).
  split; [exact H1|].
  destruct (KeyTuple_Compare_total_preorder [KTInt KInt64; KTDecimal]
    [VInt KInt64 2; VDecimal "19.9"] [VInt KInt64 10; VDecimal "19.90"]
    [VInt KInt64 10; VDecimal "100"]) as (ab & bc & ac & E1 & E2 & E3 & E4 & _).
  - exact H1.
  - apply H; [reflexivity|eexists; reflexivity].
  - apply H; [reflexivity|eexists; reflexivity].
  - exists ab, bc, ac. auto.
Defined.

(** [Decimal.Equal] and [IsZero] read the text: leading zeros, which
    [ParseDecimal] keeps, make equal values unequal. *)
Example Decimal_Equal_leading_zeros :
  ParseDecimal "007" = Ok "007" /\ Decimal_Compare "007" "7" = Ok 0%Z /\
  Decimal_Equal "007" "7" = false /\ Decimal_IsZero "00" = false.
Proof. by vm_compute. Qed.
