(* ===== verification/Core.v ===== *)
(** The metadata model of [internal/core]: the neutral column types, the
    enumerations and their export tokens, [PropertyMap], [EntityMap] with
    [NewEntityMap], the cascade flag set, and the snapshot shape of a table. *)
From S2P Require Import Prelude GoStrings Values.

(** A named Go type, as [reflect.Type] identifies it. *)
Record GoType := mkGoType { PkgPath : string; TypeShortName : string }.
#[export] Instance GoType_eq_dec : EqDecision GoType.
Proof. solve_decision. Defined.
#[export] Instance GoType_countable : Countable GoType.
Proof.
  refine (inj_countable' (fun t => (PkgPath t, TypeShortName t))
                         (fun p => mkGoType p.1 p.2) _).
  by intros [].
Defined.

(** ** [ColumnType] (column_type.go) *)

Inductive ColumnType :=
  | TypeInt16 | TypeInt32 | TypeInt64 | TypeDecimal | TypeDouble | TypeFloat
  | TypeBool | TypeString | TypeGUID | TypeBytes | TypeDateTime
  | TypeDateTimeOffset | TypeDate | TypeTime | TypeEnumText | TypeEnumInt
  | TypeCustom.
#[export] Instance ColumnType_eq_dec : EqDecision ColumnType.
Proof. solve_decision. Defined.

Definition ColumnType_token (t : ColumnType) : string :=
  match t with
  | TypeInt16 => "int16" | TypeInt32 => "int32" | TypeInt64 => "int64"
  | TypeDecimal => "decimal" | TypeDouble => "double" | TypeFloat => "float"
  | TypeBool => "bool" | TypeString => "string" | TypeGUID => "guid"
  | TypeBytes => "bytes" | TypeDateTime => "datetime"
  | TypeDateTimeOffset => "datetimeoffset" | TypeDate => "date"
  | TypeTime => "time" | TypeEnumText => "enum_text" | TypeEnumInt => "enum_int"
  | TypeCustom => "custom"
  end.

(** The [columnTypes] table; [custom] is never declared. *)
Definition columnTypes : list (string * ColumnType) :=
  [("int16", TypeInt16); ("int32", TypeInt32); ("int64", TypeInt64);
   ("decimal", TypeDecimal); ("double", TypeDouble); ("float", TypeFloat);
   ("bool", TypeBool); ("string", TypeString); ("guid", TypeGUID);
   ("bytes", TypeBytes); ("datetime", TypeDateTime);
   ("datetimeoffset", TypeDateTimeOffset); ("date", TypeDate); ("time", TypeTime);
   ("enum_text", TypeEnumText); ("enum_int", TypeEnumInt)].

Fixpoint assoc {A} (key : string) (l : list (string * A)) : option A :=
  match l with
  | [] => None
  | (k, v) :: l' => if decide (k = key) then Some v else assoc key l'
  end.

Definition ParseColumnType (token : string) : option ColumnType := assoc token columnTypes.

Definition IsInteger (c : ColumnType) : bool :=
  match c with TypeInt16 | TypeInt32 | TypeInt64 => true | _ => false end.
Definition IsEnum (c : ColumnType) : bool :=
  match c with TypeEnumText | TypeEnumInt => true | _ => false end.
Definition IsTemporal (c : ColumnType) : bool :=
  match c with
  | TypeDateTime | TypeDateTimeOffset | TypeDate | TypeTime => true
  | _ => false
  end.

(** ** Enumerations and their tokens (metadata.go) *)

Inductive RelationKind :=
  | RelationTable | RelationView | RelationMaterializedView
  | RelationStatement | RelationProcedure.
#[export] Instance RelationKind_eq_dec : EqDecision RelationKind.
Proof. solve_decision. Defined.

Definition RelationKind_Token (k : RelationKind) : string :=
  match k with
  | RelationTable => "table"
  | RelationView => "view"
  | RelationMaterializedView => "materialized_view"
  | RelationStatement => "statement"
  | RelationProcedure => "procedure"
  end.

Inductive KeyStrategy := KeyNone | KeyDatabaseGenerated | KeyClientGuid | KeyNatural.
#[export] Instance KeyStrategy_eq_dec : EqDecision KeyStrategy.
Proof. solve_decision. Defined.

Definition KeyStrategy_Token (s : KeyStrategy) : string :=
  match s with
  | KeyNone => "none"
  | KeyDatabaseGenerated => "database_generated"
  | KeyClientGuid => "client_guid"
  | KeyNatural => "natural"
  end.

Inductive RelationshipKind :=
  | RelationshipManyToOne | RelationshipOneToMany
  | RelationshipManyToMany | RelationshipOneToOne.
#[export] Instance RelationshipKind_eq_dec : EqDecision RelationshipKind.
Proof. solve_decision. Defined.

Definition RelationshipKind_Token (k : RelationshipKind) : string :=
  match k with
  | RelationshipManyToOne => "many_to_one"
  | RelationshipOneToMany => "one_to_many"
  | RelationshipManyToMany => "many_to_many"
  | RelationshipOneToOne => "one_to_one"
  end.

Inductive AuditRole := AuditNone | AuditCreatedAt | AuditUpdatedAt.
#[export] Instance AuditRole_eq_dec : EqDecision AuditRole.
Proof. solve_decision. Defined.

Definition AuditRole_Token (a : AuditRole) : string :=
  match a with
  | AuditCreatedAt => "created_at"
  | AuditUpdatedAt => "updated_at"
  | AuditNone => ""
  end.

(** ** [CascadeOperations] (cascade.go): an [int] used as a flag set *)

Definition CascadeOperations := Z.
Definition CascadePersist : CascadeOperations := 1%Z.
Definition CascadeRemove : CascadeOperations := 2%Z.

Definition Cascade_Has (c op : CascadeOperations) : bool :=
  negb (op =? 0)%Z && (Z.land c op =? op)%Z.

Definition Cascade_Tokens (c : CascadeOperations) : list string :=
  (if Cascade_Has c CascadePersist then ["persist"] else []) ++
  (if Cascade_Has c CascadeRemove then ["remove"] else []).

Definition Cascade_String (c : CascadeOperations) : string :=
  if (c =? 0)%Z then "none" else Join (Cascade_Tokens c) "+".

(** [strings.Split(text, "+")]: a separator always splits, so the result is
    never empty. *)
Fixpoint split_from (sep : ascii) (word l : list ascii) : list string :=
  match l with
  | [] => [of_bytes (rev word)]
  | c :: l' =>
      if Ascii.eqb c sep then of_bytes (rev word) :: split_from sep [] l'
      else split_from sep (c :: word) l'
  end.
Definition Split (text : string) (sep : ascii) : list string :=
  split_from sep [] (bytes text).

Definition ParseCascadeOperations (text : string) : option CascadeOperations :=
  let step operations token :=
    match operations with
    | None => None
    | Some ops =>
        let t := TrimSpace token in
        if decide (t = "persist") then Some (Z.lor ops CascadePersist)
        else if decide (t = "remove") then Some (Z.lor ops CascadeRemove)
        else None
    end in
  fold_left step (Split text "+"%char) (Some 0%Z).

(** ** [PropertyMap] and [EntityMap] (metadata.go, owned.go) *)

(** An owned navigation (ADR-0030).  The program compares [*OwnedMap] pointers;
    an owner's navigations have distinct field names, so the record is the
    identity. *)
Record OwnedMap := mkOwned {
  ow_PropertyName : string;
  ow_Prefix : string;
  ow_IsNullable : bool }.
#[export] Instance OwnedMap_eq_dec : EqDecision OwnedMap.
Proof. solve_decision. Defined.

(** A field's Go type: the type of its values and whether it is a pointer to
    them.  [Field] and [Index], where the field sits in the struct, are the
    (dotted) property name here. *)
Record FieldType := mkField { ft_pointer : bool; ft_elem : VType }.
#[export] Instance FieldType_eq_dec : EqDecision FieldType.
Proof. solve_decision. Defined.

Record PropertyMap := mkProperty {
  DeclaringType : option GoType;
  PropertyName : string;
  ColumnName : string;
  PropertyType : FieldType;
  ColumnType_ : ColumnType;
  IsNullable : bool;
  IsKey : bool;
  IsGenerated : bool;
  IsVersion : bool;
  Audit : AuditRole;
  IsSoftDelete : bool;
  RenamedFrom : option string;
  Length : Z;
  Precision : Z;
  Scale : Z;
  ForeignKeyReferences : option GoType;
  Owner : option OwnedMap }.
#[export] Instance PropertyMap_eq_dec : EqDecision PropertyMap.
Proof. solve_decision. Defined.

Record IndexColumn := mkIndexColumn {
  ic_PropertyName : string; ic_ColumnName : string; ic_Descending : bool }.
Record EntityIndex := mkEntityIndex {
  ei_Name : string; ei_Columns : list IndexColumn; ei_Unique : bool }.
#[export] Instance IndexColumn_eq_dec : EqDecision IndexColumn.
Proof. solve_decision. Defined.
#[export] Instance EntityIndex_eq_dec : EqDecision EntityIndex.
Proof. solve_decision. Defined.

Record RelationshipMap := mkRelationship {
  rel_PropertyName : string;
  rel_Kind : RelationshipKind;
  rel_TargetType : GoType;
  rel_ForeignKeyProperties : list string;
  rel_LinkType : option GoType;
  rel_LinkForeignKeysToOwner : list string;
  rel_LinkForeignKeysToTarget : list string;
  rel_Cascade : CascadeOperations }.
#[export] Instance RelationshipMap_eq_dec : EqDecision RelationshipMap.
Proof. solve_decision. Defined.

(** Triggers are modelled in [Triggers.v]; the session never reads them. *)
Record EntityMap := mkEntityMap {
  Type_ : GoType;
  Kind : RelationKind;
  RelationName : string;
  Schema : string;
  DefiningSQL : string;
  Properties : list PropertyMap;
  KeyStrategy_ : KeyStrategy;
  Indexes : list EntityIndex;
  Relationships : list RelationshipMap;
  KeyProperties : list PropertyMap;
  VersionProperty : option PropertyMap;
  CreatedAtProperty : option PropertyMap;
  UpdatedAtProperty : option PropertyMap;
  SoftDeleteProperty : option PropertyMap;
  OwnedTypes : list OwnedMap }.
#[export] Instance EntityMap_eq_dec : EqDecision EntityMap.
Proof. solve_decision. Defined.

(** The first property satisfying a test, as the [&& m.X == nil] loops keep it. *)
Definition keep_first (test : bool) (p : PropertyMap) (seen : option PropertyMap) :=
  match seen with
  | Some _ => seen
  | None => if test then Some p else None
  end.

(** One turn of [NewEntityMap]'s loop over the properties. *)
Definition derive_step (m : EntityMap) (p : PropertyMap) : EntityMap := {|
  Type_ := Type_ m; Kind := Kind m; RelationName := RelationName m;
  Schema := Schema m; DefiningSQL := DefiningSQL m; Properties := Properties m;
  KeyStrategy_ := KeyStrategy_ m; Indexes := Indexes m;
  Relationships := Relationships m;
  KeyProperties := if IsKey p then KeyProperties m ++ [p] else KeyProperties m;
  VersionProperty := keep_first (IsVersion p) p (VersionProperty m);
  CreatedAtProperty :=
    keep_first (bool_decide (Audit p = AuditCreatedAt)) p (CreatedAtProperty m);
  UpdatedAtProperty :=
    keep_first (bool_decide (Audit p = AuditUpdatedAt)) p (UpdatedAtProperty m);
  SoftDeleteProperty := keep_first (IsSoftDelete p) p (SoftDeleteProperty m);
  OwnedTypes :=
    match Owner p with
    | Some o => if decide (o ∈ OwnedTypes m) then OwnedTypes m else OwnedTypes m ++ [o]
    | None => OwnedTypes m
    end |}.

Definition NewEntityMap (entityType : GoType) (kind : RelationKind)
    (relationName schema definingSQL : string) (properties : list PropertyMap)
    (keyStrategy : KeyStrategy) (indexes : list EntityIndex)
    (relationships : list RelationshipMap) : EntityMap :=
  fold_left derive_step properties {|
    Type_ := entityType; Kind := kind; RelationName := relationName;
    Schema := schema; DefiningSQL := definingSQL; Properties := properties;
    KeyStrategy_ := keyStrategy; Indexes := indexes;
    Relationships := relationships; KeyProperties := []; VersionProperty := None;
    CreatedAtProperty := None; UpdatedAtProperty := None;
    SoftDeleteProperty := None; OwnedTypes := [] |}.

Definition EntityName (m : EntityMap) : string := TypeShortName (Type_ m).

Definition Property (m : EntityMap) (propertyName : string) : option PropertyMap :=
  List.find (fun p => bool_decide (PropertyName p = propertyName)) (Properties m).

Definition PropertyByColumn (m : EntityMap) (columnName : string) : option PropertyMap :=
  List.find (fun p => bool_decide (ColumnName p = columnName)) (Properties m).

(** A property's position in its map.  The program compares property pointers;
    a map's properties have distinct names, so the record is the identity. *)
Definition property_index (m : EntityMap) (p : PropertyMap) : option nat :=
  fst <$> list_find (fun q => q = p) (Properties m).

(** ** The snapshot shape of a table (table_schema.go) *)

Record TableColumn := mkTableColumn {
  tc_Name : string; tc_StorageType : string;
  tc_Nullable : bool; tc_Key : bool; tc_Generated : bool }.
Record IndexPart := mkIndexPart { ip_ColumnName : string; ip_Descending : bool }.
Record TableIndex := mkTableIndex {
  ti_Name : string; ti_Columns : list IndexPart; ti_Unique : bool }.
Record TableSchema := mkTableSchema {
  ts_Name : string; ts_Dialect : string;
  ts_Columns : list TableColumn; ts_Indexes : list TableIndex }.
#[export] Instance TableColumn_eq_dec : EqDecision TableColumn.
Proof. solve_decision. Defined.
#[export] Instance IndexPart_eq_dec : EqDecision IndexPart.
Proof. solve_decision. Defined.
#[export] Instance TableIndex_eq_dec : EqDecision TableIndex.
Proof. solve_decision. Defined.
#[export] Instance TableSchema_eq_dec : EqDecision TableSchema.
Proof. solve_decision. Defined.

(** * Properties of the metadata model *)

(** The well-formedness every loader establishes and every consumer relies
    on: the derived members are what [NewEntityMap] derives. *)
Record map_derived (m : EntityMap) : Prop := {
  md_keys : KeyProperties m = List.filter IsKey (Properties m);
  md_version : VersionProperty m = List.find IsVersion (Properties m);
  md_created : CreatedAtProperty m
    = List.find (fun p => bool_decide (Audit p = AuditCreatedAt)) (Properties m);
  md_updated : UpdatedAtProperty m
    = List.find (fun p => bool_decide (Audit p = AuditUpdatedAt)) (Properties m);
  md_soft : SoftDeleteProperty m = List.find IsSoftDelete (Properties m);
  md_owners_nodup : NoDup (OwnedTypes m);
  md_owners : forall o, o ∈ OwnedTypes m <-> exists p, p ∈ Properties m /\ Owner p = Some o }.

Lemma fold_keep_first test get l m
  (Hget : forall m p, get (derive_step m p) = keep_first (test p) p (get m)) :
  get (fold_left derive_step l m)
  = match get m with Some p => Some p | None => List.find test l end.
Proof.
  revert m. induction l as [|p l IH]; intros m; simpl.
  - by destruct (get m).
  - rewrite IH, Hget. unfold keep_first. destruct (get m); [done|]. by destruct (test p).
Qed.

Lemma fold_keys l m :
  KeyProperties (fold_left derive_step l m) = KeyProperties m ++ List.filter IsKey l.
Proof.
  revert m. induction l as [|p l IH]; intros m; simpl; [by rewrite app_nil_r|].
  rewrite IH. simpl. destruct (IsKey p); [|done]. by rewrite <- app_assoc.
Qed.

Lemma fold_properties l m : Properties (fold_left derive_step l m) = Properties m.
Proof. revert m. induction l as [|p l IH]; intros m; simpl; [done|]. by rewrite IH. Qed.

Lemma fold_owners l m :
  NoDup (OwnedTypes m) ->
  NoDup (OwnedTypes (fold_left derive_step l m)) /\
  forall o, o ∈ OwnedTypes (fold_left derive_step l m)
            <-> o ∈ OwnedTypes m \/ exists p, p ∈ l /\ Owner p = Some o.
Proof.
  revert m. induction l as [|p l IH]; intros m Hm; simpl.
  - split; [done|]. set_solver.
  - destruct (IH (derive_step m p)) as [Hn Ho].
    { simpl. destruct (Owner p) as [o|]; [|done]. case_decide; [done|].
      apply NoDup_app. split; [done|]. split; [set_solver|]. apply NoDup_singleton. }
    split; [exact Hn|]. intros o. rewrite Ho. simpl.
    destruct (Owner p) as [o'|] eqn:Ep; [case_decide|]; set_solver.
Qed.

Lemma NewEntityMap_derived t k r s d ps ks ix rel :
  map_derived (NewEntityMap t k r s d ps ks ix rel).
Proof.
  unfold NewEntityMap.
  set (m0 := mkEntityMap _ _ _ _ _ _ _ _ _ _ _ _ _ _ _).
  assert (HP : Properties (fold_left derive_step ps m0) = ps) by apply fold_properties.
  destruct (fold_owners ps m0) as [Hn Ho]; [constructor|].
  split; rewrite ?HP; try exact Hn.
  - apply fold_keys.
  - by rewrite (fold_keep_first IsVersion VersionProperty).
  - by rewrite (fold_keep_first (fun p => bool_decide (Audit p = AuditCreatedAt)) CreatedAtProperty).
  - by rewrite (fold_keep_first (fun p => bool_decide (Audit p = AuditUpdatedAt)) UpdatedAtProperty).
  - by rewrite (fold_keep_first IsSoftDelete SoftDeleteProperty).
  - intros o. rewrite Ho. subst m0; simpl. set_solver.
Qed.

#[export] Hint Resolve NewEntityMap_derived : go.

Lemma ParseColumnType_token t : t <> TypeCustom -> ParseColumnType (ColumnType_token t) = Some t.
Proof. by destruct t. Qed.

Lemma ParseColumnType_Some s t : ParseColumnType s = Some t -> s = ColumnType_token t.
Proof.
  unfold ParseColumnType, columnTypes. simpl. intros H.
  repeat (case_decide; [injection H as <-; subst; reflexivity|]). discriminate.
Qed.

Lemma Property_Some m name p :
  Property m name = Some p -> p ∈ Properties m /\ PropertyName p = name.
Proof.
  intros [Hin Hp]%List.find_some. split; [by apply list_elem_of_In|].
  by apply bool_decide_eq_true in Hp.
Qed.
