(* ===== verification/Placeholders.v ===== *)
(** The placeholder scanner (internal/core/sql_placeholders.go): [maskSQL]
    blanks string literals and comments, the regular expression finds [@name],
    and every consumer - the binder, the statement loader, the PostgreSQL
    rewriter - reads positions of the mask as positions of the SQL. *)
From S2P Require Import Prelude GoStrings.

Definition quote : ascii := "'"%char.
Definition dash : ascii := "-"%char.
Definition slash : ascii := "/"%char.
Definition star : ascii := "*"%char.
Definition at_sign : ascii := "@"%char.
Definition space : ascii := " "%char.
Definition newline : ascii := "010"%char.

(** ** [maskSQL] *)

(** Where the scanner stands: in the text, inside a literal, inside a line
    comment, inside a block comment. *)
Inductive mask_mode := Text | Literal | LineComment | BlockComment.
#[export] Instance mask_mode_eq_dec : EqDecision mask_mode.
Proof. solve_decision. Defined.

Definition head_is (c : ascii) (l : list ascii) : bool :=
  match l with c' :: _ => Ascii.eqb c' c | [] => false end.

Fixpoint mask (mode : mask_mode) (l : list ascii) : list ascii :=
  match l with
  | [] => []
  | c :: l' =>
      match mode with
      | Text =>
          if Ascii.eqb c quote then space :: mask Literal l'
          else if Ascii.eqb c dash && head_is dash l' then space :: mask LineComment l'
          else if Ascii.eqb c slash && head_is star l' then
            match l' with
            | [] => [space]
            | _ :: l'' => space :: space :: mask BlockComment l''
            end
          else c :: mask Text l'
      | Literal =>
          if Ascii.eqb c quote then
            match l' with
            | [] => [space]
            | c2 :: l'' =>
                (* [''] is the escaped quote *)
                if Ascii.eqb c2 quote then space :: space :: mask Literal l''
                else space :: mask Text l'
            end
          else space :: mask Literal l'
      | LineComment =>
          if Ascii.eqb c newline then c :: mask Text l' else space :: mask LineComment l'
      | BlockComment =>
          match l' with
          | [] => [space]
          | c2 :: l'' =>
              if Ascii.eqb c star && Ascii.eqb c2 slash then space :: space :: mask Text l''
              else space :: mask BlockComment l'
          end
      end
  end.

Definition maskSQL (sql : string) : string := of_bytes (mask Text (bytes sql)).

(** ** The placeholder pattern: an at sign, a letter or underscore, then
    letters, digits and underscores *)

Definition name_start (c : ascii) : bool :=
  is_upper c || is_lower c || Ascii.eqb c "_"%char.
Definition name_char (c : ascii) : bool := name_start c || is_digit c.

Fixpoint take_while (f : ascii -> bool) (l : list ascii) : list ascii :=
  match l with
  | c :: l' => if f c then c :: take_while f l' else []
  | [] => []
  end.

(** One match: the index of the [@] and the name after it. *)
Record Match := mkMatch { m_index : nat; m_name : list ascii }.

(** [FindAllStringSubmatchIndex]: leftmost, longest, non-overlapping.  [skip]
    counts the bytes still inside the previous match. *)
Fixpoint find_all (i skip : nat) (l : list ascii) : list Match :=
  match l with
  | [] => []
  | c :: l' =>
      match skip with
      | S k => find_all (S i) k l'
      | O =>
          if Ascii.eqb c at_sign then
            match l' with
            | c2 :: _ =>
                if name_start c2 then
                  let name := take_while name_char l' in
                  mkMatch i name :: find_all (S i) (length name) l'
                else find_all (S i) 0 l'
            | [] => []
            end
          else find_all (S i) 0 l'
      end
  end.

(** [placeholderMatches]: an [@] preceded by another [@] is a system function. *)
Definition preceded_by_at (masked : list ascii) (i : nat) : bool :=
  match i with
  | O => false
  | S k => match masked !! k with Some c => Ascii.eqb c at_sign | None => false end
  end.

Definition placeholderMatches (masked : list ascii) : list Match :=
  List.filter (fun m => negb (preceded_by_at masked (m_index m))) (find_all 0 0 masked).

Record PlaceholderSpan := mkSpan { Index : nat; Len : nat }.
Record NamedPlaceholderSpan := mkNamedSpan { Name : string; Span : PlaceholderSpan }.
#[export] Instance PlaceholderSpan_eq_dec : EqDecision PlaceholderSpan.
Proof. solve_decision. Defined.

(** The whole match is the [@] and the name. *)
Definition match_span (m : Match) : PlaceholderSpan := mkSpan (m_index m) (S (length (m_name m))).

Definition PlaceholderSpans (sql : string) : list NamedPlaceholderSpan :=
  (fun m => mkNamedSpan (of_bytes (m_name m)) (match_span m))
    <$> placeholderMatches (mask Text (bytes sql)).

(** The [seen] loop of [FindPlaceholders]. *)
Fixpoint first_seen (seen : list string) (names : list string) : list string :=
  match names with
  | [] => []
  | n :: names' =>
      if decide (n ∈ seen) then first_seen seen names'
      else n :: first_seen (n :: seen) names'
  end.

Definition FindPlaceholders (sql : string) : list string :=
  first_seen [] ((fun m => of_bytes (m_name m))
                   <$> placeholderMatches (mask Text (bytes sql))).

Definition PlaceholderOccurrences (sql placeholder : string) : list PlaceholderSpan :=
  match_span <$>
    List.filter (fun m => EqualFold (of_bytes (m_name m)) placeholder)
                (placeholderMatches (mask Text (bytes sql))).

(** * Lemmas: the mask *)

(** Induction two bytes at a time, as the scanner looks ahead. *)
Lemma list_ind2 {A} (P : list A -> Prop) :
  P [] -> (forall x, P [x]) -> (forall x y l, P l -> P (y :: l) -> P (x :: y :: l)) ->
  forall l, P l.
Proof.
  intros H0 H1 H2 l. enough (P l /\ forall x, P (x :: l)) by tauto.
  induction l as [|y l [IH1 IH2]]; split; auto.
Qed.

Ltac mask_cases :=
  repeat match goal with
  | |- context [if ?b then _ else _] => destruct b eqn:?
  end.

(** One turn of the scanner's loop. *)
Lemma mask_cons2 mode x y l :
  mask mode (x :: y :: l) =
  match mode with
  | Text =>
      if Ascii.eqb x quote then space :: mask Literal (y :: l)
      else if Ascii.eqb x dash && Ascii.eqb y dash then space :: mask LineComment (y :: l)
      else if Ascii.eqb x slash && Ascii.eqb y star then space :: space :: mask BlockComment l
      else x :: mask Text (y :: l)
  | Literal =>
      if Ascii.eqb x quote then
        if Ascii.eqb y quote then space :: space :: mask Literal l
        else space :: mask Text (y :: l)
      else space :: mask Literal (y :: l)
  | LineComment =>
      if Ascii.eqb x newline then x :: mask Text (y :: l) else space :: mask LineComment (y :: l)
  | BlockComment =>
      if Ascii.eqb x star && Ascii.eqb y slash then space :: space :: mask Text l
      else space :: mask BlockComment (y :: l)
  end.
Proof. by destruct mode. Qed.

(** Every masked byte is the original one or a space. *)
Definition blanked (c c' : ascii) : Prop := c' = c \/ c' = space.

Lemma blanked_refl c : blanked c c.
Proof. by left. Qed.
Lemma blanked_space c : blanked c space.
Proof. by right. Qed.
Create HintDb mask.
#[export] Hint Resolve blanked_refl blanked_space : mask.
#[export] Hint Constructors Forall2 : mask.

Lemma mask_blanked l mode : Forall2 blanked l (mask mode l).
Proof.
  revert mode. induction l as [|x|x y l IH1 IH2] using list_ind2; intros mode.
  - constructor.
  - destruct mode; simpl; mask_cases; auto with mask.
  - rewrite mask_cons2. destruct mode; mask_cases; auto with mask.
Qed.

Lemma mask_length mode l : length (mask mode l) = length l.
Proof. symmetry. eapply Forall2_length, mask_blanked. Qed.

Lemma mask_lookup mode l i c :
  mask mode l !! i = Some c -> c <> space -> l !! i = Some c.
Proof.
  intros H Hc.
  destruct (Forall2_lookup_r _ _ _ _ _ (mask_blanked l mode) H) as (c0 & H0 & [-> | ->]);
    [exact H0|done].
Qed.

(** * Lemmas: the pattern *)

Lemma take_while_Forall f l : Forall (fun c => f c = true) (take_while f l).
Proof.
  induction l as [|c l IH]; simpl; [constructor|].
  destruct (f c) eqn:E; [constructor; auto|constructor].
Qed.

Lemma take_while_prefix f l : exists k, l = take_while f l ++ k.
Proof.
  induction l as [|c l [k IH]]; simpl; [by exists []|].
  destruct (f c); [|by exists (c :: l)]. exists k. simpl. by rewrite <- IH.
Qed.

(** What a match says of the bytes it was found in. *)
Definition match_at (l : list ascii) (m : Match) : Prop :=
  exists pre post,
    l = pre ++ at_sign :: m_name m ++ post /\ length pre = m_index m.

Record good_name (name : list ascii) : Prop := {
  gn_head : exists c k, name = c :: k /\ name_start c = true;
  gn_chars : Forall (fun c => name_char c = true) name }.

Lemma find_all_sound l pre skip i :
  length pre = i ->
  Forall (fun m => match_at (pre ++ l) m /\ good_name (m_name m) /\ i <= m_index m)
         (find_all i skip l).
Proof.
  revert pre skip i. induction l as [|c l IH]; intros pre skip i Hi; simpl; [constructor|].
  assert (Hrec : forall k, Forall (fun m => match_at (pre ++ c :: l) m /\
            good_name (m_name m) /\ i <= m_index m) (find_all (S i) k l)).
  { intros k. specialize (IH (pre ++ [c]) k (S i)). rewrite length_app in IH. simpl in IH.
    rewrite <- app_assoc in IH. simpl in IH.
    eapply Forall_impl; [apply IH; lia|]. intros m (H1 & H2 & H3). repeat split; auto; try apply H2. lia. }
  destruct skip as [|k]; [|apply Hrec].
  destruct (Ascii.eqb_spec c at_sign) as [->|_]; [|apply Hrec].
  destruct l as [|c2 l2]; [constructor|].
  destruct (name_start c2) eqn:Ec; [|apply Hrec].
  apply Forall_cons. split; [|apply Hrec].
  destruct (take_while_prefix name_char (c2 :: l2)) as [post Hp].
  split; [|split; [split|simpl; lia]].
  - exists pre, post. cbn [m_name m_index]. split; [|exact Hi]. by rewrite <- Hp.
  - cbn [m_name]. exists c2, (take_while name_char l2). simpl.
    unfold name_char at 1. rewrite Ec. simpl. auto.
  - apply take_while_Forall.
Qed.

(** Matches come in text order and do not overlap. *)
Fixpoint ordered_from (i : nat) (ms : list Match) : Prop :=
  match ms with
  | [] => True
  | m :: ms' => i <= m_index m /\ ordered_from (S (m_index m) + length (m_name m)) ms'
  end.

Lemma ordered_from_le i j ms : i <= j -> ordered_from j ms -> ordered_from i ms.
Proof. destruct ms; simpl; [done|]. intros ? []. split; [lia|done]. Qed.

Lemma find_all_ordered l i skip : ordered_from (i + skip) (find_all i skip l).
Proof.
  revert i skip. induction l as [|c l IH]; intros i skip; simpl; [done|].
  destruct skip as [|k].
  - assert (Hrec : ordered_from (i + 0) (find_all (S i) 0 l)).
    { eapply ordered_from_le; [|apply IH]. lia. }
    destruct (Ascii.eqb c at_sign); [|exact Hrec].
    destruct l as [|c2 l2]; [done|]. destruct (name_start c2); [|exact Hrec].
    split; [cbn [m_index]; lia|]. apply IH.
  - replace (i + S k) with (S i + k) by lia. apply IH.
Qed.

Lemma ordered_from_filter f ms i : ordered_from i ms -> ordered_from i (List.filter f ms).
Proof.
  revert i. induction ms as [|m ms IH]; intros i; simpl; [done|]. intros [H1 H2].
  destruct (f m); [split; auto|]. eapply ordered_from_le; [|by apply IH]. lia.
Qed.

Lemma placeholderMatches_ordered l : ordered_from 0 (placeholderMatches l).
Proof. apply ordered_from_filter. apply (find_all_ordered l 0 0). Qed.

Lemma placeholderMatches_sound l m :
  m ∈ placeholderMatches l ->
  match_at l m /\ good_name (m_name m) /\ preceded_by_at l (m_index m) = false.
Proof.
  unfold placeholderMatches. rewrite list_elem_of_In, filter_In, <- list_elem_of_In.
  intros [Hm Hp]. pose proof (find_all_sound l [] 0 0 eq_refl) as HF.
  rewrite Forall_forall in HF. destruct (HF m Hm) as (H1 & H2 & _).
  repeat split; auto; try apply H2. by apply negb_true_iff.
Qed.

Lemma name_char_not_space c : name_char c = true -> c <> space.
Proof. by intros H ->. Qed.

Lemma not_space_at : at_sign <> space.
Proof. done. Qed.

(** * Lemmas: spans and names *)

Lemma first_seen_elem seen names n :
  n ∈ first_seen seen names <-> n ∈ names /\ n ∉ seen.
Proof.
  revert seen. induction names as [|x names IH]; intros seen; simpl; [set_solver|].
  case_decide as Hx.
  - rewrite IH. set_solver.
  - rewrite elem_of_cons, IH. destruct (decide (n = x)); set_solver.
Qed.

Lemma first_seen_nodup seen names : NoDup (first_seen seen names).
Proof.
  revert seen. induction names as [|x names IH]; intros seen; simpl; [constructor|].
  case_decide; [done|]. constructor; [|done]. rewrite first_seen_elem. set_solver.
Qed.

Lemma span_names sql :
  Name <$> PlaceholderSpans sql
  = (fun m => of_bytes (m_name m)) <$> placeholderMatches (mask Text (bytes sql)).
Proof.
  unfold PlaceholderSpans. rewrite <- list_fmap_compose. by apply list_fmap_ext.
Qed.

Lemma FindPlaceholders_spans sql : FindPlaceholders sql = first_seen [] (Name <$> PlaceholderSpans sql).
Proof. unfold FindPlaceholders. by rewrite span_names. Qed.

Lemma blanked_exact l k :
  Forall2 blanked l k -> Forall (fun c => c <> space) k -> l = k.
Proof.
  induction 1 as [|c c' l k [-> | ->] H IH]; intros HF; [done| |].
  - inversion HF; subst. f_equal. auto.
  - by inversion HF.
Qed.

Lemma blanked_segment mode l pre w post :
  mask mode l = pre ++ w ++ post -> Forall (fun c => c <> space) w ->
  exists pre' post', l = pre' ++ w ++ post' /\ length pre' = length pre.
Proof.
  intros Hm Hw. pose proof (mask_blanked l mode) as HF. rewrite Hm in HF.
  apply Forall2_app_inv_r in HF as (pre' & r & Hpre & HF & ->).
  apply Forall2_app_inv_r in HF as (w' & post' & Hw' & _ & ->).
  rewrite (blanked_exact _ _ Hw' Hw). exists pre', post'. split; [done|].
  by eapply Forall2_length.
Qed.

Lemma slice_app (pre w post : list ascii) :
  slice (of_bytes (pre ++ w ++ post)) (length pre) (length pre + length w) = of_bytes w.
Proof.
  unfold slice. rewrite bytes_of_bytes, drop_app_length.
  replace (length pre + length w - length pre) with (length w) by lia.
  by rewrite take_app_length.
Qed.

Lemma good_name_no_space name : good_name name -> Forall (fun c => c <> space) (at_sign :: name).
Proof.
  intros [_ H]. constructor; [done|]. eapply Forall_impl; [exact H|]. apply name_char_not_space.
Qed.

Lemma match_in_text sql m :
  m ∈ placeholderMatches (mask Text (bytes sql)) ->
  slice sql (m_index m) (m_index m + S (length (m_name m)))
  = String at_sign (of_bytes (m_name m)).
Proof.
  intros ((pre & post & Hl & Hi) & Hn & _)%placeholderMatches_sound.
  change (at_sign :: m_name m ++ post) with ((at_sign :: m_name m) ++ post) in Hl.
  destruct (blanked_segment _ _ _ _ _ Hl (good_name_no_space _ Hn)) as (pre' & post' & Hs & Hp).
  rewrite <- (of_bytes_bytes sql), Hs, <- Hi, <- Hp.
  exact (slice_app pre' (at_sign :: m_name m) post').
Qed.

(** Spans as the rewriters need them: in text order, disjoint. *)
Fixpoint spans_ordered (i : nat) (l : list PlaceholderSpan) : Prop :=
  match l with
  | [] => True
  | s :: l' => i <= Index s /\ spans_ordered (Index s + Len s) l'
  end.

Lemma spans_ordered_matches i ms :
  ordered_from i ms -> spans_ordered i (match_span <$> ms).
Proof.
  revert i. induction ms as [|m ms IH]; intros i; simpl; [done|]. intros [H1 H2].
  split; [done|]. replace (m_index m + S (length (m_name m)))
    with (S (m_index m) + length (m_name m)) by lia. auto.
Qed.

(** ** Literals are invisible *)

(** The text of [t] inside quotes, every quote doubled. *)
Fixpoint double_quotes (l : list ascii) : list ascii :=
  match l with
  | [] => []
  | c :: l' => if Ascii.eqb c quote then quote :: quote :: double_quotes l'
               else c :: double_quotes l'
  end.

Lemma double_quotes_ReplaceAll t :
  double_quotes (bytes t) = bytes (ReplaceAll t quote (of_bytes [quote; quote])).
Proof.
  induction t as [|c t IH]; simpl; [done|].
  destruct (Ascii.eqb c quote); simpl; by rewrite IH.
Qed.

Lemma mask_literal_body l rest :
  head_is quote rest = false ->
  mask Literal (double_quotes l ++ quote :: rest)
  = replicate (S (length (double_quotes l))) space ++ mask Text rest.
Proof.
  intros Hr. induction l as [|c l IH]; simpl double_quotes.
  - destruct rest as [|c2 rest]; [done|]. simpl app. rewrite mask_cons2. simpl.
    simpl in Hr. by rewrite Hr.
  - destruct (Ascii.eqb_spec c quote) as [->|Hc].
    + simpl app. rewrite mask_cons2. simpl. f_equal. f_equal. exact IH.
    + simpl app. simpl mask. apply Ascii.eqb_neq in Hc. rewrite Hc. simpl.
      f_equal. exact IH.
Qed.

Lemma mask_literal l rest :
  head_is quote rest = false ->
  mask Text (quote :: double_quotes l ++ quote :: rest)
  = replicate (S (S (length (double_quotes l)))) space ++ mask Text rest.
Proof.
  intros Hr. change (mask Text (quote :: ?k)) with (space :: mask Literal k).
  by rewrite mask_literal_body.
Qed.

Lemma quoted_literal t rest :
  of_bytes [quote] +:+ ReplaceAll t quote (of_bytes [quote; quote])
    +:+ of_bytes [quote] +:+ rest
  = of_bytes ((quote :: double_quotes (bytes t) ++ [quote]) ++ bytes rest).
Proof.
  apply bytes_inj. rewrite bytes_of_bytes, !bytes_app, <- double_quotes_ReplaceAll.
  simpl. by rewrite <- app_assoc.
Qed.

(** A prefix without an at sign only shifts the matches. *)
Definition shift_match (k : nat) (m : Match) : Match := mkMatch (k + m_index m) (m_name m).

Lemma find_all_shift k i skip l :
  find_all (k + i) skip l = shift_match k <$> find_all i skip l.
Proof.
  revert i skip. induction l as [|c l IH]; intros i skip; simpl; [done|].
  rewrite <- Nat.add_succ_r. destruct skip; [|apply IH].
  destruct (Ascii.eqb c at_sign); [|apply IH].
  destruct l as [|c2 l2]; [done|]. destruct (name_start c2); [|apply IH].
  rewrite fmap_cons. f_equal. apply IH.
Qed.

Lemma find_all_prefix pre l i :
  Forall (fun c => c <> at_sign) pre ->
  find_all i 0 (pre ++ l) = find_all (length pre + i) 0 l.
Proof.
  revert i. induction pre as [|c pre IH]; intros i; simpl; [done|].
  inversion 1 as [|? ? Hc HF]; subst. apply Ascii.eqb_neq in Hc. rewrite Hc.
  rewrite (IH (S i)) by done. f_equal. lia.
Qed.

Lemma preceded_shift pre l i :
  Forall (fun c => c <> at_sign) pre ->
  preceded_by_at (pre ++ l) (length pre + i) = preceded_by_at l i.
Proof.
  intros HF. destruct i as [|k].
  - rewrite Nat.add_0_r. destruct (length pre) as [|n] eqn:En; [done|]. simpl.
    rewrite lookup_app_l by lia.
    destruct (pre !! n) as [c|] eqn:Hn; [|done].
    rewrite Forall_lookup in HF. apply Ascii.eqb_neq. eauto.
  - rewrite Nat.add_succ_r. simpl.
    rewrite lookup_app_r by lia. by replace (length pre + k - length pre) with k by lia.
Qed.

Lemma placeholderMatches_prefix pre l :
  Forall (fun c => c <> at_sign) pre ->
  placeholderMatches (pre ++ l) = shift_match (length pre) <$> placeholderMatches l.
Proof.
  intros HF. unfold placeholderMatches. rewrite find_all_prefix, find_all_shift by done.
  induction (find_all 0 0 l) as [|m ms IH]; [done|]. rewrite fmap_cons. simpl.
  rewrite preceded_shift by done. destruct (negb _); [rewrite fmap_cons; f_equal|]; exact IH.
Qed.

Lemma Forall_replicate_space n : Forall (fun c => c <> at_sign) (replicate n space).
Proof. apply Forall_replicate. done. Qed.

Lemma names_after_prefix pre rest mode :
  mask Text (pre ++ rest) = mode ++ mask Text rest ->
  Forall (fun c => c <> at_sign) mode ->
  Name <$> PlaceholderSpans (of_bytes (pre ++ rest)) = Name <$> PlaceholderSpans (of_bytes rest).
Proof.
  intros Hm HF. rewrite !span_names, !bytes_of_bytes, Hm, placeholderMatches_prefix by done.
  rewrite <- list_fmap_compose. by apply list_fmap_ext.
Qed.

(** ** The scan as a local recursion

    A name holds no at sign, so the leftmost-longest search finds exactly the
    at signs followed by a letter: [scan_from] reads the matches off the masked
    text one byte at a time, remembering only whether the byte before was an at
    sign. *)
Definition starts_name (l : list ascii) : bool :=
  match l with c :: _ => name_start c | [] => false end.

Fixpoint scan_from (i : nat) (after_at : bool) (l : list ascii) : list Match :=
  match l with
  | [] => []
  | c :: l' =>
      if Ascii.eqb c at_sign then
        (if negb after_at && starts_name l' then [mkMatch i (take_while name_char l')] else [])
        ++ scan_from (S i) true l'
      else scan_from (S i) false l'
  end.

Definition ends_at (after_at : bool) (l : list ascii) : bool :=
  match last l with Some c => Ascii.eqb c at_sign | None => after_at end.

Lemma name_char_not_at c : name_char c = true -> Ascii.eqb c at_sign = false.
Proof. intros H. apply Ascii.eqb_neq. by intros ->. Qed.

(** Skipping the bytes of a name skips no match. *)
Lemma find_all_skip i l k :
  k <= length (take_while name_char l) -> find_all i k l = find_all i 0 l.
Proof.
  revert i k. induction l as [|c l IH]; intros i k; simpl; [done|].
  destruct k as [|k]; [done|]. destruct (name_char c) eqn:Ec; simpl; [|lia].
  intros Hk. rewrite (name_char_not_at _ Ec). rewrite IH; [done|lia].
Qed.

Lemma preceded_by_at_app pre c l :
  preceded_by_at (pre ++ c :: l) (length pre) = ends_at false pre.
Proof.
  destruct pre as [|x pre] using rev_ind; [done|]. unfold ends_at.
  rewrite last_snoc, length_app, Nat.add_1_r. simpl.
  rewrite <- app_assoc, lookup_app_r, Nat.sub_diag by lia. done.
Qed.

Lemma filter_scan_from pre l :
  List.filter (fun m => negb (preceded_by_at (pre ++ l) (m_index m))) (find_all (length pre) 0 l)
  = scan_from (length pre) (ends_at false pre) l.
Proof.
  revert pre. induction l as [|c l IH]; intros pre; [done|]. cbn [find_all scan_from].
  pose proof (preceded_by_at_app pre c l) as Hp.
  specialize (IH (pre ++ [c])). unfold ends_at in IH at 1.
  rewrite last_snoc, length_app, Nat.add_1_r, <- app_assoc in IH. simpl in IH.
  destruct (Ascii.eqb c at_sign) eqn:Ec; [|exact IH].
  destruct l as [|c2 l2]; [by rewrite andb_false_r|].
  unfold starts_name. destruct (name_start c2) eqn:Es; rewrite ?andb_true_r, ?andb_false_r; [|exact IH].
  rewrite find_all_skip by lia. simpl List.filter. cbn [m_index]. rewrite Hp.
  destruct (ends_at false pre); simpl; [exact IH|]. f_equal. exact IH.
Qed.

Lemma placeholderMatches_scan l : placeholderMatches l = scan_from 0 false l.
Proof. exact (filter_scan_from [] l). Qed.

Lemma scan_from_app i b l k :
  Forall (fun c => name_char c = true -> False) (take 1 k) ->
  scan_from i b (l ++ k) = scan_from i b l ++ scan_from (i + length l) (ends_at b l) k.
Proof.
  intros Hk. revert i b. induction l as [|c l IH]; intros i b.
  - simpl. by rewrite Nat.add_0_r.
  - assert (Hl : starts_name (l ++ k) = starts_name l /\
                 take_while name_char (l ++ k) = take_while name_char l).
    { clear IH. split.
      - destruct l; [|done]. destruct k as [|d k]; [done|]. inversion Hk as [|? ? Hd _]; subst.
        simpl. destruct (name_start d) eqn:E; [|done]. exfalso. apply Hd.
        unfold name_char. by rewrite E.
      - induction l as [|d l IHl]; simpl.
        + destruct k as [|d k]; [done|]. inversion Hk as [|? ? Hd _]; subst. simpl.
          destruct (name_char d); [exfalso; auto|done].
        + destruct (name_char d); [by rewrite IHl|done]. }
    destruct Hl as [Hs Ht].
    assert (He : ends_at b (c :: l) = ends_at (Ascii.eqb c at_sign) l).
    { unfold ends_at. rewrite last_cons. by destruct (last l). }
    simpl. rewrite He, Hs, Ht, !IH, Nat.add_succ_r. simpl.
    destruct (Ascii.eqb c at_sign); simpl; [by rewrite app_assoc|done].
Qed.

Lemma ends_at_cons b c l : ends_at b (c :: l) = ends_at (Ascii.eqb c at_sign) l.
Proof. unfold ends_at. rewrite last_cons. by destruct (last l). Qed.

Lemma scan_cons i b c l :
  scan_from i b (c :: l) =
  if Ascii.eqb c at_sign then
    (if negb b && starts_name l then [mkMatch i (take_while name_char l)] else [])
    ++ scan_from (S i) true l
  else scan_from (S i) false l.
Proof. reflexivity. Qed.

(** A text with no match, not ending in an at sign, hides nothing after it. *)
Lemma scan_none_app i b l k :
  scan_from i b l = [] -> ends_at b l = false ->
  scan_from i b (l ++ k) = scan_from (i + length l) false k.
Proof.
  revert i b. induction l as [|c l IH]; intros i b Hs He.
  - unfold ends_at in He. simpl in *. by rewrite He, Nat.add_0_r.
  - rewrite ends_at_cons in He. change ((c :: l) ++ k) with (c :: (l ++ k)).
    rewrite scan_cons in Hs |- *. simpl length. rewrite Nat.add_succ_r.
    destruct (Ascii.eqb c at_sign) eqn:Ec; [|by apply (IH (S i))].
    assert (Hst : starts_name (l ++ k) = starts_name l) by (by destruct l).
    rewrite Hst. destruct (negb b && starts_name l); [done|].
    rewrite app_nil_l in *. by apply (IH (S i)).
Qed.

(** A word of ordinary bytes: nothing the scanner treats specially. *)
Definition neutral (c : ascii) : Prop :=
  c <> quote /\ c <> dash /\ c <> slash /\ c <> star /\ c <> newline.

(** Where the scanner stands after [l], when an ordinary byte follows. *)
Fixpoint mode_end (mode : mask_mode) (l : list ascii) : mask_mode :=
  match l with
  | [] => mode
  | c :: l' =>
      match mode with
      | Text =>
          if Ascii.eqb c quote then mode_end Literal l'
          else if Ascii.eqb c dash && head_is dash l' then mode_end LineComment l'
          else if Ascii.eqb c slash && head_is star l' then
            match l' with [] => Text | _ :: l'' => mode_end BlockComment l'' end
          else mode_end Text l'
      | Literal =>
          if Ascii.eqb c quote then
            match l' with
            | [] => Text
            | c2 :: l'' =>
                if Ascii.eqb c2 quote then mode_end Literal l'' else mode_end Text l'
            end
          else mode_end Literal l'
      | LineComment =>
          if Ascii.eqb c newline then mode_end Text l' else mode_end LineComment l'
      | BlockComment =>
          match l' with
          | [] => BlockComment
          | c2 :: l'' =>
              if Ascii.eqb c star && Ascii.eqb c2 slash then mode_end Text l''
              else mode_end BlockComment l'
          end
      end
  end.

Definition blank_unless_text (mode : mask_mode) (w : list ascii) : list ascii :=
  match mode with Text => w | _ => replicate (length w) space end.

Lemma mask_neutral_cons mode c l :
  neutral c ->
  mask mode (c :: l) = match mode with Text => c | _ => space end :: mask mode l.
Proof.
  intros (Hq & Hd & Hs & Hst & Hn). apply Ascii.eqb_neq in Hq, Hd, Hs, Hst, Hn.
  destruct mode; simpl; rewrite ?Hq, ?Hd, ?Hs, ?Hn; simpl; try done.
  destruct l; [done|]. by rewrite Hst.
Qed.

Lemma mask_neutral_word mode w k :
  Forall neutral w -> mask mode (w ++ k) = blank_unless_text mode w ++ mask mode k.
Proof.
  induction 1 as [|c w Hc Hw IH]; [by destruct mode|].
  change ((c :: w) ++ k) with (c :: (w ++ k)). rewrite mask_neutral_cons by done.
  rewrite IH. by destruct mode.
Qed.

Lemma neutral_not_head c d l : neutral d -> c = dash \/ c = star -> head_is c (d :: l) = false.
Proof. intros (? & ? & ? & ? & ?) [-> | ->]; simpl; by apply Ascii.eqb_neq. Qed.

(** The mask of a text around an ordinary word. *)
Lemma mask_around_word mode l w k :
  w <> [] -> Forall neutral w ->
  mask mode (l ++ w ++ k)
  = mask mode l ++ blank_unless_text (mode_end mode l) w ++ mask (mode_end mode l) k.
Proof.
  intros Hne Hw. destruct w as [|d w]; [done|].
  assert (Hd : neutral d) by (by inversion Hw).
  pose proof (neutral_not_head dash d (w ++ k) Hd (or_introl eq_refl)) as Hdash.
  pose proof (neutral_not_head star d (w ++ k) Hd (or_intror eq_refl)) as Hstar.
  assert (Hword : forall m, mask m (d :: w ++ k)
                  = blank_unless_text m (d :: w) ++ mask m k)
    by (intros m; apply (mask_neutral_word m (d :: w) k Hw)).
  destruct Hd as (Hq & Hda & Hs & Hst & Hn). apply Ascii.eqb_neq in Hq, Hda, Hs, Hst, Hn.
  revert mode. induction l as [|x|x y l IH1 IH2] using list_ind2; intros mode.
  - apply Hword.
  - change ([x] ++ (d :: w) ++ k) with (x :: d :: (w ++ k)).
    rewrite mask_cons2. rewrite !Hword. simpl in Hdash, Hstar.
    rewrite Hda, Hq, Hs, Hst, !andb_false_r.
    destruct mode; cbn [mask mode_end head_is]; rewrite ?andb_false_r;
      destruct (Ascii.eqb x quote), (Ascii.eqb x newline); reflexivity.
  - change ((x :: y :: l) ++ (d :: w) ++ k) with (x :: y :: (l ++ (d :: w) ++ k)).
    rewrite !mask_cons2.
    change (y :: l ++ (d :: w) ++ k) with ((y :: l) ++ (d :: w) ++ k).
    rewrite !IH1, !IH2.
    destruct mode; cbn [mode_end head_is]; mask_cases; reflexivity.
Qed.

(** ** The pieces of a statement: text, placeholder, text, placeholder, ... *)

Inductive pieces : nat -> bool -> mask_mode -> list ascii ->
    list (list ascii * list ascii) -> list ascii -> Prop :=
  | pieces_nil i b mode l :
      scan_from i b (mask mode l) = [] -> pieces i b mode l [] l
  | pieces_cons i b mode gap name rest ps tail :
      scan_from i b (mask mode gap) = [] -> mode_end mode gap = Text ->
      ends_at b (mask mode gap) = false -> good_name name ->
      Forall (fun c => name_char c = false) (take 1 rest) ->
      pieces (i + length gap + S (length name)) false Text rest ps tail ->
      pieces i b mode (gap ++ at_sign :: name ++ rest) ((gap, name) :: ps) tail.

Lemma take_while_split f l :
  exists k, l = take_while f l ++ k /\ Forall (fun c => f c = false) (take 1 k).
Proof.
  induction l as [|c l (k & Hk & HF)]; simpl; [by exists []|].
  destruct (f c) eqn:Ec.
  - exists k. simpl. by rewrite <- Hk.
  - exists (c :: l). split; [done|]. simpl. by repeat constructor.
Qed.

Lemma scan_first i b l m ms :
  scan_from i b l = m :: ms ->
  exists pre post, l = pre ++ at_sign :: m_name m ++ post /\
    scan_from i b pre = [] /\ ends_at b pre = false /\ good_name (m_name m) /\
    Forall (fun c => name_char c = false) (take 1 post).
Proof.
  revert i b. induction l as [|c l IH]; intros i b; simpl; [done|].
  assert (Hrec : scan_from (S i) (Ascii.eqb c at_sign) l = m :: ms ->
    (Ascii.eqb c at_sign = true -> negb b && starts_name l = false) ->
    exists pre post, c :: l = pre ++ at_sign :: m_name m ++ post /\
      scan_from i b pre = [] /\ ends_at b pre = false /\ good_name (m_name m) /\
      Forall (fun c => name_char c = false) (take 1 post)).
  { intros Hm Hno. destruct (IH _ _ Hm) as (pre & post & -> & Hs & He & Hn & Hp).
    exists (c :: pre), post. rewrite ends_at_cons. simpl.
    repeat split; try done; [|apply Hn..].
    destruct (Ascii.eqb c at_sign) eqn:Ec; [|exact Hs].
    specialize (Hno eq_refl).
    assert (starts_name pre = starts_name (pre ++ at_sign :: m_name m ++ post) \/ pre = [])
      as [-> | ->] by (destruct pre; auto).
    - by rewrite Hno.
    - unfold ends_at in He. simpl in He. done. }
  destruct (Ascii.eqb_spec c at_sign) as [->|Hc]; [|intros Hm; by apply Hrec].
  destruct (negb b && starts_name l) eqn:Hb; [|intros Hm; by apply Hrec].
  intros [= <- _]. cbn [m_name].
  destruct (take_while_split name_char l) as (post & Hl & Hp).
  exists [], post. split; [by rewrite app_nil_l, <- Hl|]. split; [done|].
  apply andb_prop in Hb as [Hb1 Hb2]. split; [unfold ends_at; simpl; by apply negb_true_iff|].
  split; [|exact Hp]. split; [|apply take_while_Forall].
  destruct l as [|c2 l]; [done|]. exists c2, (take_while name_char l). simpl in *.
  unfold name_char at 1. by rewrite Hb2.
Qed.

Lemma good_name_neutral name : good_name name -> Forall neutral (at_sign :: name).
Proof.
  intros [_ H]. constructor; [by repeat split|].
  eapply Forall_impl; [exact H|]. intros c Hc. repeat split; by intros ->.
Qed.

Lemma blank_no_name mode d w r c k :
  blank_unless_text mode (d :: w) ++ r = c :: k -> c <> space -> mode = Text.
Proof. destruct mode; simpl; try done; by intros [= <- _]. Qed.

(** The first byte of a text is masked only when it opens a literal or a
    comment. *)
Lemma mask_head_not_name l :
  Forall (fun c => name_char c = false) (take 1 l)
  <-> Forall (fun c => name_char c = false) (take 1 (mask Text l)).
Proof.
  destruct l as [|c l]; [done|]. simpl.
  destruct (Ascii.eqb_spec c quote) as [->|_]; [by repeat constructor|].
  destruct (Ascii.eqb_spec c dash) as [->|_];
    [destruct (head_is dash l); by repeat constructor|].
  destruct (Ascii.eqb_spec c slash) as [->|_]; simpl; [|by rewrite !take_0].
  destruct (head_is star l); [destruct l|]; by repeat constructor.
Qed.

Lemma pieces_exist i b mode l : exists ps tail, pieces i b mode l ps tail.
Proof.
  remember (length l) as n eqn:Hn. revert i b mode l Hn.
  induction (lt_wf n) as [n _ IH]; intros i b mode l ->.
  destruct (scan_from i b (mask mode l)) as [|m ms] eqn:Es;
    [by exists [], l; constructor|].
  destruct (scan_first _ _ _ _ _ Es) as (pre & post & Hm & Hs & He & Hname & Hp).
  change (at_sign :: m_name m ++ post) with ((at_sign :: m_name m) ++ post) in Hm.
  destruct (blanked_segment _ _ _ _ _ Hm (good_name_no_space _ Hname)) as (gap & rest & -> & Hlen).
  rewrite mask_around_word in Hm; [|done|by apply good_name_neutral].
  apply app_inj_1 in Hm as [Hpre Hm]; [|by rewrite mask_length].
  assert (Hmode : mode_end mode gap = Text) by (eapply blank_no_name; [exact Hm|done]).
  rewrite Hmode in Hm. simpl in Hm. injection Hm as Hm. apply app_inv_head in Hm.
  destruct (IH (length rest)) with (l := rest) (i := i + length gap + S (length (m_name m)))
    (b := false) (mode := Text) as (ps & tail & Hps); [|done|].
  { rewrite !length_app. simpl. lia. }
  exists ((gap, m_name m) :: ps), tail.
  change ((at_sign :: m_name m) ++ rest) with (at_sign :: m_name m ++ rest).
  constructor; rewrite ?Hpre; try done.
  apply mask_head_not_name. by rewrite Hm.
Qed.

(** The matches of a text, read off its pieces. *)
Fixpoint matches_of (i : nat) (ps : list (list ascii * list ascii)) : list Match :=
  match ps with
  | [] => []
  | (gap, name) :: ps' =>
      mkMatch (i + length gap) name :: matches_of (i + length gap + S (length name)) ps'
  end.

(** The text with one word in each placeholder's place. *)
Fixpoint assemble (ps : list (list ascii * list ascii)) (ws : list (list ascii))
    (tail : list ascii) : list ascii :=
  match ps, ws with
  | (gap, _) :: ps', w :: ws' => gap ++ w ++ assemble ps' ws' tail
  | _, _ => tail
  end.

Definition own_words (ps : list (list ascii * list ascii)) : list (list ascii) :=
  (fun p => at_sign :: p.2) <$> ps.

Lemma pieces_assemble i b mode l ps tail :
  pieces i b mode l ps tail -> assemble ps (own_words ps) tail = l.
Proof.
  induction 1 as [|i b mode gap name rest ps tail _ _ _ _ _ _ IH]; [done|].
  change (own_words ((gap, name) :: ps)) with ((at_sign :: name) :: own_words ps).
  simpl. by rewrite IH.
Qed.

Lemma take_while_all f l k :
  Forall (fun c => f c = true) l -> Forall (fun c => f c = false) (take 1 k) ->
  take_while f (l ++ k) = l.
Proof.
  intros Hl Hk. induction Hl as [|c l Hc Hl IH]; simpl.
  - destruct k as [|c k]; [done|]. simpl in *. inversion Hk as [|? ? Hc]; subst. by rewrite Hc.
  - by rewrite Hc, IH.
Qed.

Lemma scan_name i name k :
  good_name name -> Forall (fun c => name_char c = false) (take 1 k) ->
  scan_from i false (at_sign :: name ++ k)
  = mkMatch i name :: scan_from (i + S (length name)) false k.
Proof.
  intros [(c & n & -> & Hc) Hn] Hk. rewrite scan_cons. simpl Ascii.eqb. cbv iota.
  rewrite take_while_all by done. simpl starts_name. rewrite Hc. simpl app at 1. f_equal.
  assert (Hname : forall j b l, Forall (fun c => name_char c = true) l ->
            scan_from j b (l ++ k) = scan_from (j + length l) (match l with [] => b | _ => false end) k).
  { clear. intros j b l H. revert j b. induction H as [|d l Hd H IH]; intros j b; simpl.
    - by rewrite Nat.add_0_r.
    - rewrite (name_char_not_at _ Hd), IH, Nat.add_succ_r. by destruct l. }
  rewrite name_char_not_at by (by inversion Hn). inversion Hn; subst.
  rewrite Hname by done. replace (i + _) with (S (S i) + length n) by (simpl; lia).
  by destruct n.
Qed.

Lemma pieces_matches i b mode l ps tail :
  pieces i b mode l ps tail -> scan_from i b (mask mode l) = matches_of i ps.
Proof.
  induction 1 as [|i b mode gap name rest ps tail Hs Hm He Hn Hr H IH]; [done|].
  change (gap ++ at_sign :: name ++ rest) with (gap ++ (at_sign :: name) ++ rest).
  rewrite (mask_around_word mode gap (at_sign :: name) rest)
    by (done || (by apply good_name_neutral)).
  rewrite Hm, scan_none_app, mask_length by done.
  change (blank_unless_text Text (at_sign :: name) ++ mask Text rest)
    with (at_sign :: name ++ mask Text rest).
  rewrite scan_name by (done || (by apply mask_head_not_name in Hr)).
  simpl. by rewrite IH.
Qed.

Lemma pieces_good i b mode l ps tail :
  pieces i b mode l ps tail -> Forall (fun p => good_name p.2) ps.
Proof. induction 1; constructor; auto. Qed.

(** A word that can stand for a placeholder: ordinary bytes, starting with an
    at sign, a dollar sign or the like and not ending with an at sign. *)
Record word_ok (w : list ascii) : Prop := {
  wo_nonempty : w <> [];
  wo_neutral : Forall neutral w;
  wo_head : Forall (fun c => name_char c = false) (take 1 w);
  wo_last : ends_at false w = false }.

Lemma own_word_ok name : good_name name -> word_ok (at_sign :: name).
Proof.
  intros Hn. split; [done|by apply good_name_neutral|by repeat constructor|].
  destruct Hn as [(c & n & Hne & _) Hc]. unfold ends_at.
  destruct name as [|d name _] using rev_ind; [done|].
  rewrite app_comm_cons, last_snoc. apply Forall_app in Hc as [_ Hc].
  inversion Hc; subst. by apply name_char_not_at.
Qed.

Definition scan_names (b : bool) (l : list ascii) : list (list ascii) :=
  m_name <$> scan_from 0 b l.

Lemma scan_names_index i b l : m_name <$> scan_from i b l = scan_names b l.
Proof.
  unfold scan_names. generalize 0 as j. revert i b.
  induction l as [|c l IH]; intros i b j; [done|]. rewrite !scan_cons.
  destruct (Ascii.eqb c at_sign); [|apply IH].
  rewrite !fmap_app. f_equal; [by destruct (_ && _)|apply IH].
Qed.

Lemma assemble_head ps ws tail i b mode l :
  pieces i b mode l ps tail -> Forall word_ok ws -> length ws = length ps ->
  Forall (fun c => name_char c = false) (take 1 l) ->
  Forall (fun c => name_char c = false) (take 1 (assemble ps ws tail)).
Proof.
  destruct 1 as [|i b mode gap name rest ps tail]; [done|]. intros Hw Hlen Hl.
  destruct ws as [|w ws]; [done|]. inversion Hw as [|? ? Hw1 _]; subst.
  destruct gap as [|c gap]; [|done]. destruct Hw1 as [Hne _ Hh _]. by destruct w.
Qed.

(** Replacing placeholders by words replaces their names by the words'. *)
Lemma assemble_names i b mode l ps tail ws :
  pieces i b mode l ps tail -> Forall word_ok ws -> length ws = length ps ->
  scan_names b (mask mode (assemble ps ws tail)) = concat (scan_names false <$> ws).
Proof.
  intros H. revert ws.
  induction H as [i b mode l Hs|i b mode gap name rest ps tail Hs Hm He Hn Hr H IH];
    intros ws Hw Hlen.
  - destruct ws; [|done]. simpl. rewrite <- (scan_names_index i), Hs. done.
  - destruct ws as [|w ws]; [done|]. inversion Hw as [|? ? Hw1 Hws]; subst.
    injection Hlen as Hlen. simpl assemble.
    pose proof (assemble_head _ ws _ _ _ _ _ H Hws Hlen Hr) as Hhead.
    destruct Hw1 as [Hne Hneu Hh Hla].
    rewrite mask_around_word, Hm by done.
    rewrite <- (scan_names_index i), scan_none_app by done. simpl blank_unless_text.
    rewrite scan_from_app, Hla, fmap_app, !scan_names_index.
    + rewrite IH by done. done.
    + apply mask_head_not_name in Hhead. eapply Forall_impl; [exact Hhead|]. by intros c ->.
Qed.

(** * Theorems *)

(** Every span the scanner reports is, in the original text, an at sign
    followed by the reported name; the name is an identifier, the spans come in
    text order without overlap, and none is the second at sign of a system
    function such as [@@rowcount]. *)
Theorem PlaceholderSpans_sound (sql : string) :
  spans_ordered 0 (Span <$> PlaceholderSpans sql) /\
  Forall (fun s =>
    slice sql (Index (Span s)) (Index (Span s) + Len (Span s)) = String at_sign (Name s) /\
    good_name (bytes (Name s)) /\
    preceded_by_at (bytes (maskSQL sql)) (Index (Span s)) = false)
    (PlaceholderSpans sql).
Proof.
  split.
  - unfold PlaceholderSpans. rewrite <- list_fmap_compose.
    apply (spans_ordered_matches 0), placeholderMatches_ordered.
  - unfold PlaceholderSpans. rewrite Forall_fmap, Forall_forall. intros m Hm. simpl.
    split; [by apply match_in_text|]. unfold maskSQL. rewrite !bytes_of_bytes.
    apply placeholderMatches_sound in Hm. tauto.
Qed.

(** The three scans agree: [FindPlaceholders] lists each name of
    [PlaceholderSpans] once, in first-seen order, and the occurrences of a name
    are the spans whose name matches it case-insensitively. *)
Theorem FindPlaceholders_spec (sql : string) :
  NoDup (FindPlaceholders sql) /\
  (forall n, n ∈ FindPlaceholders sql <-> n ∈ Name <$> PlaceholderSpans sql) /\
  FindPlaceholders sql = first_seen [] (Name <$> PlaceholderSpans sql) /\
  forall p, PlaceholderOccurrences sql p
    = Span <$> List.filter (fun s => EqualFold (Name s) p) (PlaceholderSpans sql).
Proof.
  rewrite FindPlaceholders_spans. split; [apply first_seen_nodup|].
  split; [intros n; rewrite first_seen_elem; pose proof (not_elem_of_nil n); tauto|]. split; [done|].
  intros p. unfold PlaceholderOccurrences, PlaceholderSpans.
  induction (placeholderMatches _) as [|m ms IH]; [done|]. rewrite fmap_cons. simpl.
  destruct (EqualFold _ p); [rewrite !fmap_cons; f_equal|]; exact IH.
Qed.

(** Text bound into a quoted literal (its quotes doubled) is invisible to
    the scanner whatever it holds - [@name]s, comment openers, quotes: the
    placeholders of the statement are those after the literal. *)
Theorem literal_has_no_placeholders (t rest : string) :
  head_is quote (bytes rest) = false ->
  FindPlaceholders (of_bytes [quote] +:+ ReplaceAll t quote (of_bytes [quote; quote])
                      +:+ of_bytes [quote] +:+ rest)
  = FindPlaceholders rest.
Proof.
  intros Hr. rewrite !FindPlaceholders_spans. f_equal.
  pose proof (mask_literal (bytes t) (bytes rest) Hr) as Hm.
  rewrite quoted_literal. rewrite <- (of_bytes_bytes rest) at 2.
  eapply names_after_prefix; [|apply Forall_replicate_space].
  simpl. rewrite <- app_assoc. exact Hm.
Qed.

Lemma literal_has_no_placeholders_witness :
  head_is quote (bytes " and id = @id") = false /\
  FindPlaceholders (of_bytes [quote] +:+ ReplaceAll "it's @name -- x" quote (of_bytes [quote; quote])
                      +:+ of_bytes [quote] +:+ " and id = @id") = ["id"].
Proof.
  split; [reflexivity|].
  rewrite (literal_has_no_placeholders "it's @name -- x" " and id = @id") by reflexivity.
  reflexivity.
Defined.
