(* ===== verification/Params.v ===== *)
(** Parameter binding: [Bind] (internal/params/parameter_binder.go) matches the
    [@name] placeholders of a statement with the fields of an args struct,
    expanding a collection field into one placeholder per element, and the
    PostgreSQL driver's [rewritePlaceholders] and [arrange]
    (postgres/driver.go) turn names into [$n] positions.

    A field carries what [reflect] reads off it: its name, its column type (the
    element type's for a collection), its values.  The type converter is a
    variable: every theorem holds for every converter. *)
From S2P Require Import Prelude GoStrings Core Values Placeholders.

(** ** [TypedNull] (internal/mapping/typed_null.go) *)

Inductive SqlNull :=
  | NilBytes | NullInt16 | NullInt32 | NullInt64 | NullFloat64 | NullBool
  | NullTime | NullString | UntypedNil.

Definition TypedNull (columnType : ColumnType) : SqlNull :=
  match columnType with
  | TypeBytes => NilBytes
  | TypeInt16 => NullInt16
  | TypeInt32 => NullInt32
  | TypeInt64 | TypeEnumInt => NullInt64
  | TypeDouble | TypeFloat => NullFloat64
  | TypeBool => NullBool
  | TypeDateTime | TypeDateTimeOffset => NullTime
  | TypeString | TypeDecimal | TypeGUID | TypeDate | TypeTime | TypeEnumText => NullString
  | TypeCustom => UntypedNil
  end.

(** What a named argument carries to the driver. *)
Inductive Bound :=
  | BoundValue (v : Value)
  | BoundNull (n : SqlNull)
  | BoundArray (vs : list Value).

Record NamedArg := mkNamedArg { arg_Name : string; arg_Value : Bound }.
Record BoundSQL := mkBoundSQL { SQL : string; Args : list NamedArg }.

Inductive FieldValue := Scalar (v : Value) | Collection (vs : list Value).

(** One exported field of the args struct; [af_zero] is the zero value of a
    collection's declared element type. *)
Record ArgField := mkArgField {
  af_name : string; af_type : ColumnType; af_value : FieldValue; af_zero : Value }.

Definition is_collection (f : ArgField) : bool :=
  match af_value f with Collection _ => true | Scalar _ => false end.

(** ** [buildPlan] *)

Record fieldPlan := mkFieldPlan {
  fp_field : ArgField;
  fp_placeholder : string;            (* "" is PRM-002 *)
  fp_context : string;
  fp_occurrences : list PlaceholderSpan }.
Record bindPlan := mkPlan { missing : string; fields : list fieldPlan }.

(** The first element that folds to [name], or the empty string. *)
Definition find_fold (name : string) (l : list string) : string :=
  default "" (List.find (fun p => EqualFold p name) l).

Definition first_missing (names placeholders : list string) : option string :=
  List.find (fun p => negb (existsb (fun n => EqualFold n p) names)) placeholders.

Definition buildPlan (sqlText queryName : string) (args : list ArgField) : bindPlan :=
  let placeholders := FindPlaceholders sqlText in
  match first_missing (af_name <$> args) placeholders with
  | Some p => mkPlan p []
  | None =>
      mkPlan "" ((fun f =>
        let placeholder := find_fold (af_name f) placeholders in
        if decide (placeholder = "") then mkFieldPlan f "" "" []
        else mkFieldPlan f placeholder (queryName +:+ "." +:+ placeholder)
               (if is_collection f then PlaceholderOccurrences sqlText placeholder else []))
        <$> args)
  end.

(** ** [replaceOccurrences]: last span first, so earlier offsets stay valid *)

Definition replace_span (replacement : list ascii) (span : PlaceholderSpan)
    (text : list ascii) : list ascii :=
  take (Index span) text ++ replacement ++ drop (Index span + Len span) text.

Definition replaceOccurrences (text : string) (occurrences : list PlaceholderSpan)
    (replacement : string) : string :=
  of_bytes (fold_right (replace_span (bytes replacement)) (bytes text) occurrences).

(** ** [Bind] *)

Section Bind.
Context (ToDatabase : Value -> string -> result Value).
Context (SupportsArrayParameters : bool).

(** The dynamic Go type of a converted value. *)
Definition dynamic_type (v : Value) : string :=
  match v with
  | VNil => "nil" | VInt _ _ => "int64" | VFloat true _ => "float32"
  | VFloat false _ => "float64" | VString _ => "string" | VBool _ => "bool"
  | VBytes _ => "[]byte" | VTime _ _ => "time.Time" | VGuid _ => "GUID"
  | VDecimal _ => "Decimal" | VOther t _ => t
  end.

(** The typed slice: its element type is the first converted element's, or the
    converted zero of the declared type; [Set] panics on another type. *)
Definition typedArray (converted : list Value) (zero : Value) (context : string)
    : result Bound :=
  let fill ty :=
    if forallb (fun v => is_nil v || bool_decide (dynamic_type v = ty)) converted
    then Ok (BoundArray converted)
    else Panic "reflect.Set: value of another type" in
  match List.find (fun v => negb (is_nil v)) converted with
  | Some v => fill (dynamic_type v)
  | None =>
      match ToDatabase zero context with
      | Ok sample =>
          if is_nil sample then Fail (NewError "MAP-030" context)
          else fill (dynamic_type sample)
      | Fail _ => Fail (NewError "MAP-030" context)
      end
  end.

Definition bound_or_null (ct : ColumnType) (cv : Value) : Bound :=
  if is_nil cv then BoundNull (TypedNull ct) else BoundValue cv.

(** The element loop of an expanded collection: names and arguments [i] on. *)
Fixpoint expand_elements (placeholder context : string) (ct : ColumnType)
    (i : Z) (elements : list Value) : result (list string * list NamedArg) :=
  match elements with
  | [] => Ok ([], [])
  | item :: rest =>
      let name := placeholder +:+ "_" +:+ Itoa i in
      let* cv := ToDatabase item context in
      let* (names, named) := expand_elements placeholder context ct (i + 1) rest in
      Ok (("@" +:+ name) :: names, mkNamedArg name (bound_or_null ct cv) :: named)
  end.

(** What the loop over the fields carries. *)
Record bind_state := mkBindState {
  bs_text : string; bs_args : list NamedArg; bs_expanded : bool }.

Definition bind_field (queryName : string) (s : bind_state) (fp : fieldPlan)
    : result bind_state :=
  let f := fp_field fp in
  if decide (fp_placeholder fp = "") then Fail (NewError "PRM-002" queryName) else
  match af_value f with
  | Collection elements =>
      if SupportsArrayParameters then
        let* converted := mapR (fun item => ToDatabase item (fp_context fp)) elements in
        let* typed := typedArray converted (af_zero f) (fp_context fp) in
        Ok (mkBindState (bs_text s)
              (bs_args s ++ [mkNamedArg (fp_placeholder fp) typed]) (bs_expanded s))
      else
        let occurrences :=
          if bs_expanded s then PlaceholderOccurrences (bs_text s) (fp_placeholder fp)
          else fp_occurrences fp in
        let* (names, named) :=
          expand_elements (fp_placeholder fp) (fp_context fp) (af_type f) 0 elements in
        let replacement := match names with [] => "NULL" | _ => Join names ", " end in
        Ok (mkBindState (replaceOccurrences (bs_text s) occurrences replacement)
              (bs_args s ++ named) true)
  | Scalar v =>
      let* cv := ToDatabase v (fp_context fp) in
      Ok (mkBindState (bs_text s)
            (bs_args s ++ [mkNamedArg (fp_placeholder fp) (bound_or_null (af_type f) cv)])
            (bs_expanded s))
  end.

Definition Bind (sqlText : string) (args : list ArgField) (queryName : string)
    : result BoundSQL :=
  let plan := buildPlan sqlText queryName args in
  if decide (missing plan <> "") then Fail (NewError "PRM-001" queryName) else
  let* s := foldR (bind_field queryName) (mkBindState sqlText [] false) (fields plan) in
  Ok (mkBoundSQL (bs_text s) (bs_args s)).

End Bind.

(** ** [rewritePlaceholders] and [arrange] (postgres/driver.go) *)

Record rewritten := mkRewritten { rw_sql : string; rw_names : list string }.

Record rewrite_state := mkRewriteState {
  rs_names : list string; rs_ordinal : gmap string nat;
  rs_b : string; rs_last : nat }.

Definition rewrite_step (sqlText : string) (st : rewrite_state)
    (span : NamedPlaceholderSpan) : rewrite_state :=
  let key := ToLower (Name span) in
  let '(names, ordinal, n) :=
    match rs_ordinal st !! key with
    | Some n => (rs_names st, rs_ordinal st, n)
    | None =>
        let names := rs_names st ++ [key] in
        (names, <[key := length names]> (rs_ordinal st), length names)
    end in
  mkRewriteState names ordinal
    (rs_b st +:+ slice sqlText (rs_last st) (Index (Span span)) +:+ "$" +:+ Itoa (Z.of_nat n))
    (Index (Span span) + Len (Span span)).

Definition rewritePlaceholders (sqlText : string) : rewritten :=
  match PlaceholderSpans sqlText with
  | [] => mkRewritten sqlText []
  | spans =>
      let st := fold_left (rewrite_step sqlText) spans (mkRewriteState [] ∅ "" 0) in
      mkRewritten (rs_b st +:+ slice sqlText (rs_last st) (String.length sqlText)) (rs_names st)
  end.

Record NamedValue := mkNamedValue { nv_Name : string; nv_Ordinal : nat; nv_Value : Bound }.

(** The errors of [arrange] carry no code: the target says which one. *)
Definition plain_error {A} (what : string) : result A := Fail (NewError "" what).

Fixpoint arrange_by_name (byName : gmap string Bound) (args : list NamedValue)
    : result (gmap string Bound) :=
  match args with
  | [] => Ok byName
  | arg :: rest =>
      if decide (nv_Name arg = "") then plain_error "positional argument"
      else arrange_by_name (<[ToLower (nv_Name arg) := nv_Value arg]> byName) rest
  end.

Fixpoint arrange_names (i : nat) (byName : gmap string Bound) (names : list string)
    : result (list NamedValue * gmap string Bound) :=
  match names with
  | [] => Ok ([], byName)
  | name :: rest =>
      match byName !! name with
      | None => plain_error "placeholder has no bound argument"
      | Some value =>
          let* (arranged, remaining) := arrange_names (S i) (delete name byName) rest in
          Ok (mkNamedValue "" (S i) value :: arranged, remaining)
      end
  end.

Definition arrange (r : rewritten) (args : list NamedValue) : result (list NamedValue) :=
  match rw_names r with
  | [] => Ok args
  | names =>
      let* byName := arrange_by_name ∅ args in
      let* (arranged, remaining) := arrange_names 0 byName names in
      if decide (remaining = ∅) then Ok arranged else plain_error "argument without a placeholder"
  end.

(** * Lemmas: replacing placeholders *)

(** What each placeholder of a text becomes: [f] of its name, or itself. *)
Definition words_by (f : string -> option (list ascii)) (ps : list (list ascii * list ascii))
    : list (list ascii) :=
  (fun p => default (at_sign :: p.2) (f (of_bytes p.2))) <$> ps.

Lemma replace_span_at pre gap name w rest :
  replace_span w (mkSpan (length pre + length gap) (S (length name)))
    (pre ++ gap ++ at_sign :: name ++ rest) = pre ++ gap ++ w ++ rest.
Proof.
  unfold replace_span. simpl.
  rewrite !(app_assoc pre gap). rewrite <- !app_assoc.
  rewrite (app_assoc pre gap (at_sign :: name ++ rest)).
  rewrite take_app_length' by (rewrite length_app; done).
  replace (length pre + length gap + S (length name))
    with (length ((pre ++ gap) ++ at_sign :: name)) by (rewrite !length_app; simpl; lia).
  replace ((pre ++ gap) ++ at_sign :: name ++ rest)
    with (((pre ++ gap) ++ at_sign :: name) ++ rest) by (by rewrite <- !app_assoc).
  rewrite drop_app_length. by rewrite <- !app_assoc.
Qed.

Lemma replace_matches test w i b mode l ps tail pre :
  pieces i b mode l ps tail -> length pre = i ->
  fold_right (replace_span w) (pre ++ l)
    (match_span <$> List.filter (fun m => test (of_bytes (m_name m))) (matches_of i ps))
  = pre ++ assemble ps (words_by (fun n => if test n then Some w else None) ps) tail.
Proof.
  intros H. revert pre.
  induction H as [|i b mode gap name rest ps tail Hs Hm He Hn Hr H IH];
    intros pre <-; [done|].
  specialize (IH (pre ++ gap ++ at_sign :: name)).
  rewrite <- !app_assoc in IH. simpl app in IH.
  specialize (IH ltac:(rewrite !length_app; simpl; lia)).
  simpl matches_of. simpl List.filter.
  change (words_by ?f ((gap, name) :: ps))
    with (default (at_sign :: name) (f (of_bytes name)) :: words_by f ps).
  cbv beta. cbn [assemble m_name]. destruct (test (of_bytes name)) eqn:Et; cbn [default].
  - rewrite fmap_cons. cbn [fold_right]. rewrite IH. apply replace_span_at.
  - rewrite IH. done.
Qed.

Lemma replaceOccurrences_words text p w ps tail :
  pieces 0 false Text (bytes text) ps tail ->
  bytes (replaceOccurrences text (PlaceholderOccurrences text p) w)
  = assemble ps (words_by (fun n => if EqualFold n p then Some (bytes w) else None) ps) tail.
Proof.
  intros H. unfold replaceOccurrences, PlaceholderOccurrences.
  rewrite bytes_of_bytes, placeholderMatches_scan, (pieces_matches _ _ _ _ _ _ H).
  exact (replace_matches (fun n => EqualFold n p) _ _ _ _ _ _ _ [] H eq_refl).
Qed.

(** The names of the placeholders of a text, in text order, with repetitions. *)
Definition names_in (text : string) : list string := Name <$> PlaceholderSpans text.

Lemma names_in_scan text :
  names_in text = of_bytes <$> scan_names false (mask Text (bytes text)).
Proof.
  unfold names_in. rewrite span_names, placeholderMatches_scan.
  unfold scan_names. by rewrite <- list_fmap_compose.
Qed.

Lemma elem_of_FindPlaceholders n text : n ∈ FindPlaceholders text <-> n ∈ names_in text.
Proof.
  rewrite FindPlaceholders_spans, first_seen_elem. unfold names_in.
  pose proof (not_elem_of_nil n). tauto.
Qed.

Lemma names_in_pieces text ps tail :
  pieces 0 false Text (bytes text) ps tail -> names_in text = (fun p => of_bytes p.2) <$> ps.
Proof.
  intros H. unfold names_in. rewrite span_names, placeholderMatches_scan.
  rewrite (pieces_matches _ _ _ _ _ _ H). clear H. generalize 0 as i.
  induction ps as [|[gap name] ps IH]; intros i; [done|]. simpl. f_equal. apply IH.
Qed.

(** Every placeholder name is an identifier. *)
Lemma names_in_good text : Forall (fun n => good_name (bytes n)) (names_in text).
Proof.
  destruct (pieces_exist 0 false Text (bytes text)) as (ps & tail & H).
  rewrite (names_in_pieces _ _ _ H). apply Forall_fmap.
  eapply Forall_impl; [by eapply pieces_good|]. intros p Hp. simpl. by rewrite bytes_of_bytes.
Qed.

Lemma names_in_replaced text ps tail f text' :
  pieces 0 false Text (bytes text) ps tail ->
  bytes text' = assemble ps (words_by f ps) tail ->
  (forall n w, n ∈ names_in text -> f n = Some w -> word_ok w) ->
  names_in text' = concat ((fun n => match f n with
    | Some w => of_bytes <$> scan_names false w | None => [n] end) <$> names_in text).
Proof.
  intros H Ht Hf. pose proof (names_in_good text) as Hgood.
  pose proof (names_in_pieces _ _ _ H) as Hn.
  rewrite names_in_scan, Ht, (assemble_names _ _ _ _ _ _ _ H).
  - rewrite Hn in *. unfold words_by. clear - Hgood Hf.
    induction ps as [|[gap name] ps IH]; [done|].
    simpl in *. inversion Hgood as [|? ? Hg Hgs]; subst. rewrite fmap_app. f_equal.
    + destruct (f (of_bytes name)) as [w|] eqn:Ew; simpl; [done|].
      rewrite bytes_of_bytes in Hg. unfold scan_names.
      rewrite <- (app_nil_r name) at 1. rewrite scan_name by (done || constructor). done.
    + apply IH; try done. intros n w Hin. apply Hf. by right.
  - unfold words_by. apply Forall_fmap, Forall_forall. intros p Hp. simpl.
    assert (Hin : of_bytes p.2 ∈ names_in text) by (rewrite Hn; apply list_elem_of_fmap; eauto).
    destruct (f (of_bytes p.2)) as [w|] eqn:Ew; simpl; [by eapply Hf|].
    apply own_word_ok. rewrite Forall_forall in Hgood. apply Hgood in Hin.
    by rewrite bytes_of_bytes in Hin.
  - unfold words_by. by rewrite length_fmap.
Qed.

(** * Lemmas: the words that replace a placeholder *)

Definition at_name (n : string) : string := "@" +:+ n.

Definition elem_name (placeholder : string) (i : Z) : string :=
  placeholder +:+ "_" +:+ Itoa i.

Lemma elem_name_good p i : good_name (bytes p) -> (0 <= i)%Z -> good_name (bytes (elem_name p i)).
Proof.
  intros [(c & n & Hp & Hc) Hall] Hi. unfold elem_name. rewrite !bytes_app. split.
  - rewrite Hp. by exists c, (n ++ bytes "_" ++ bytes (Itoa i)).
  - apply Forall_app; split; [done|]. constructor; [done|].
    eapply Forall_impl; [by apply Itoa_digits|]. intros d Hd. unfold name_char.
    by rewrite Hd, orb_true_r.
Qed.

Lemma expand_elements_names td p ctx ct i elements names named :
  expand_elements td p ctx ct i elements = Ok (names, named) -> (0 <= i)%Z ->
  names = (fun a => at_name (arg_Name a)) <$> named /\
  length named = length elements /\
  Forall (fun a => exists j, (0 <= j)%Z /\ arg_Name a = elem_name p j) named.
Proof.
  revert i names named. induction elements as [|item rest IH]; intros i names named H Hi.
  - injection H as <- <-. repeat split; constructor.
  - cbn [expand_elements] in H. apply bind_Ok in H as (cv & _ & H).
    apply bind_Ok in H as ([ns nd] & H & [= <- <-]).
    apply IH in H as (-> & Hlen & HF); [|lia]. split; [done|]. split; [simpl; congruence|].
    constructor; [|done]. by exists i.
Qed.

Lemma scan_word_names n ns :
  Forall (fun n => good_name (bytes n)) (n :: ns) ->
  scan_names false (bytes (Join (at_name <$> (n :: ns)) ", ")) = bytes <$> (n :: ns).
Proof.
  intros H. unfold scan_names. generalize 0 as i. revert n H.
  induction ns as [|m ns IH]; intros n H i; inversion H as [|? ? Hn Hns]; subst.
  - change (bytes (Join (at_name <$> [n]) ", ")) with (at_sign :: bytes n).
    rewrite <- (app_nil_r (bytes n)) at 1. rewrite scan_name by (done || constructor). done.
  - rewrite fmap_cons, Join_cons by done.
    change (bytes (at_name n +:+ ", " +:+ Join (at_name <$> m :: ns) ", "))
      with (at_sign :: bytes (n +:+ ", " +:+ Join (at_name <$> m :: ns) ", ")).
    rewrite bytes_app, scan_name by (done || by repeat constructor).
    rewrite fmap_cons, (fmap_cons bytes). f_equal.
    change (bytes (", " +:+ Join (at_name <$> m :: ns) ", "))
      with (","%char :: space :: bytes (Join (at_name <$> m :: ns) ", ")).
    rewrite !scan_cons. by apply IH.
Qed.

Lemma join_word_ok n ns :
  Forall (fun n => good_name (bytes n)) (n :: ns) ->
  word_ok (bytes (Join (at_name <$> (n :: ns)) ", ")).
Proof.
  revert n. induction ns as [|m ns IH]; intros n H; inversion H as [|? ? Hn Hns]; subst.
  - by apply own_word_ok.
  - rewrite fmap_cons, Join_cons by done. unfold at_name at 1. rewrite !bytes_app.
    destruct (IH m Hns) as [Hne Hneu _ Hla]. split.
    + done.
    + apply Forall_app; split; [by apply good_name_neutral|].
      apply Forall_app; split; [by repeat constructor|done].
    + by repeat constructor.
    + unfold ends_at in *. rewrite app_assoc.
      destruct (bytes (Join (at_name <$> m :: ns) ", ")) as [|c l] using rev_ind; [done|].
      by rewrite app_assoc, last_snoc in *.
Qed.

(** * Lemmas: [Bind] *)

Lemma find_fold_spec name l :
  Forall (fun p => p <> "") l ->
  (find_fold name l = "" /\ Forall (fun p => EqualFold p name = false) l) \/
  (find_fold name l <> "" /\ find_fold name l ∈ l /\ EqualFold (find_fold name l) name = true).
Proof.
  intros Hl. unfold find_fold. destruct (List.find _ l) as [p|] eqn:Ef; simpl.
  - right. apply find_some in Ef as [Hin Hp]. apply list_elem_of_In in Hin.
    rewrite Forall_forall in Hl. auto.
  - left. split; [done|]. apply Forall_forall. intros p Hp%list_elem_of_In.
    by apply (find_none _ _ Ef).
Qed.

Lemma placeholders_nonempty sql : Forall (fun p => p <> "") (FindPlaceholders sql).
Proof.
  apply Forall_forall. intros p Hp%elem_of_FindPlaceholders.
  pose proof (names_in_good sql) as H. rewrite Forall_forall in H. apply H in Hp.
  destruct Hp as [(c & n & Hp & _) _]. by destruct p.
Qed.

Definition has_field (names : list string) (n : string) : Prop :=
  exists f, f ∈ names /\ EqualFold f n = true.

Lemma first_missing_None names l :
  first_missing names l = None <-> forall n, n ∈ l -> has_field names n.
Proof.
  unfold first_missing. split.
  - intros H n Hn. apply list_elem_of_In in Hn. pose proof (find_none _ _ H n Hn) as Hx.
    apply negb_false_iff, existsb_exists in Hx as (f & Hf & He).
    exists f. by rewrite list_elem_of_In.
  - intros H. destruct (List.find _ l) as [p|] eqn:Ef; [|done].
    apply find_some in Ef as [Hp Hneg]. apply negb_true_iff in Hneg.
    destruct (H p) as (f & Hf & He); [by apply list_elem_of_In|].
    rewrite <- not_true_iff_false in Hneg. exfalso. apply Hneg, existsb_exists.
    exists f. by rewrite <- list_elem_of_In.
Qed.

(** What [buildPlan] records for a field whose placeholder exists. *)
Definition plan_field (sqlText queryName : string) (f : ArgField) : fieldPlan :=
  let placeholder := find_fold (af_name f) (FindPlaceholders sqlText) in
  if decide (placeholder = "") then mkFieldPlan f "" "" []
  else mkFieldPlan f placeholder (queryName +:+ "." +:+ placeholder)
         (if is_collection f then PlaceholderOccurrences sqlText placeholder else []).

Lemma buildPlan_cases sqlText queryName args :
  (exists p, p ∈ FindPlaceholders sqlText /\ ~ has_field (af_name <$> args) p /\
     buildPlan sqlText queryName args = mkPlan p []) \/
  ((forall n, n ∈ FindPlaceholders sqlText -> has_field (af_name <$> args) n) /\
   buildPlan sqlText queryName args = mkPlan "" (plan_field sqlText queryName <$> args)).
Proof.
  unfold buildPlan. destruct (first_missing _ _) as [p|] eqn:Ef.
  - left. exists p. unfold first_missing in Ef. apply find_some in Ef as [Hp Hn].
    rewrite list_elem_of_In. repeat split; [done|]. intros (f & Hf & He).
    apply negb_true_iff in Hn.
    assert (existsb (fun n => EqualFold n p) (af_name <$> args) = true) as Hx; [|congruence].
    apply existsb_exists. exists f. by rewrite <- list_elem_of_In.
  - right. split; [by apply first_missing_None|done].
Qed.

Lemma Bind_unfold td arrays sqlText args queryName :
  Bind td arrays sqlText args queryName =
  if first_missing (af_name <$> args) (FindPlaceholders sqlText)
  then Fail (NewError "PRM-001" queryName)
  else let* s := foldR (bind_field td arrays queryName) (mkBindState sqlText [] false)
                   (plan_field sqlText queryName <$> args) in
       Ok (mkBoundSQL (bs_text s) (bs_args s)).
Proof.
  unfold Bind, buildPlan. destruct (first_missing _ _) as [p|] eqn:Ef; [|done].
  cbn [missing]. rewrite decide_True; [done|]. apply find_some in Ef as [Hp _].
  apply list_elem_of_In in Hp. pose proof (placeholders_nonempty sqlText) as H.
  rewrite Forall_forall in H. by apply H.
Qed.

Section BindProof.
Context (td : Value -> string -> result Value) (sqlText queryName : string).

(** What the loop needs of a planned field. *)
Record plan_ok (fp : fieldPlan) : Prop := {
  po_good : fp_placeholder fp <> "" -> good_name (bytes (fp_placeholder fp));
  po_occurrences : forall vs, af_value (fp_field fp) = Collection vs ->
    fp_placeholder fp <> "" ->
    fp_occurrences fp = PlaceholderOccurrences sqlText (fp_placeholder fp);
  po_filled : af_value (fp_field fp) <> Collection [] }.

Definition bound_by (args : list NamedArg) (n : string) : Prop :=
  exists a, a ∈ args /\ EqualFold (arg_Name a) n = true.

(** Every placeholder of the text is bound already or waits for a later field. *)
Definition covered (text : string) (args : list NamedArg) (rest : list fieldPlan) : Prop :=
  forall n, n ∈ names_in text ->
    bound_by args n \/ exists fp, fp ∈ rest /\ EqualFold (fp_placeholder fp) n = true.

Lemma covered_bind text args new fp rest :
  covered text args (fp :: rest) ->
  (exists a, a ∈ new /\ arg_Name a = fp_placeholder fp) -> covered text (args ++ new) rest.
Proof.
  intros H (a & Ha & Hp) n Hn. destruct (H n Hn) as [(x & Hx & He)|(x & Hx & He)].
  - left. exists x. rewrite elem_of_app. auto.
  - apply elem_of_cons in Hx as [->|Hx]; [|by right; exists x]. left. exists a.
    rewrite Hp, elem_of_app. auto.
Qed.

(** An expansion leaves placeholders of other fields and binds its own. *)
Lemma covered_expand text args new fp rest :
  covered text args (fp :: rest) -> good_name (bytes (fp_placeholder fp)) -> new <> [] ->
  Forall (fun a => exists j, (0 <= j)%Z /\ arg_Name a = elem_name (fp_placeholder fp) j) new ->
  covered (replaceOccurrences text (PlaceholderOccurrences text (fp_placeholder fp))
             (Join (at_name <$> (arg_Name <$> new)) ", ")) (args ++ new) rest.
Proof.
  intros H Hp Hne Hnew n Hn.
  destruct (pieces_exist 0 false Text (bytes text)) as (ps & tail & Hps).
  assert (Hgood : Forall (fun n => good_name (bytes n)) (arg_Name <$> new)).
  { apply Forall_fmap. eapply Forall_impl; [exact Hnew|].
    intros a (j & Hj & Ha). simpl. rewrite Ha. by apply elem_name_good. }
  destruct (arg_Name <$> new) as [|n1 ns] eqn:En; [by destruct new|].
  pose proof (replaceOccurrences_words text (fp_placeholder fp)
    (Join (at_name <$> n1 :: ns) ", ") ps tail Hps) as Hw.
  rewrite (names_in_replaced text ps tail _ _ Hps Hw) in Hn.
  2:{ intros m w _. destruct (EqualFold m _); [|done]. intros [= <-]. by apply join_word_ok. }
  apply list_elem_of_In, in_concat in Hn as (l & Hl%list_elem_of_In & Hn%list_elem_of_In).
  apply list_elem_of_fmap in Hl as (m & -> & Hm).
  destruct (EqualFold m (fp_placeholder fp)) eqn:Em.
  - rewrite scan_word_names, <- list_fmap_compose in Hn by done.
    rewrite (list_fmap_ext (of_bytes ∘ bytes) id), list_fmap_id, <- En in Hn
      by (intros; apply of_bytes_bytes).
    apply list_elem_of_fmap in Hn as (a & -> & Ha). left. exists a.
    rewrite elem_of_app, EqualFold_refl. auto.
  - apply list_elem_of_singleton in Hn as ->.
    destruct (H m Hm) as [(x & Hx & He)|(x & Hx & He)].
    + left. exists x. rewrite elem_of_app. auto.
    + apply elem_of_cons in Hx as [->|Hx]; [|by right; exists x].
      by rewrite EqualFold_sym, Em in He.
Qed.

Lemma bind_field_covered arrays s fp rest s' :
  plan_ok fp -> bs_expanded s = true \/ bs_text s = sqlText ->
  covered (bs_text s) (bs_args s) (fp :: rest) ->
  bind_field td arrays queryName s fp = Ok s' ->
  (bs_expanded s' = true \/ bs_text s' = sqlText) /\ covered (bs_text s') (bs_args s') rest.
Proof.
  intros [Hgood Hocc Hfill] Htext Hc H. unfold bind_field in H.
  case_decide as Hp; [done|]. specialize (Hgood Hp).
  destruct (af_value (fp_field fp)) as [v|vs] eqn:Ev.
  { inv_ok. split; [done|]. apply (covered_bind _ _ _ fp); [done|].
    eexists. split; [by apply list_elem_of_singleton|done]. }
  destruct arrays.
  { inv_ok. split; [done|]. apply (covered_bind _ _ _ fp); [done|].
    eexists. split; [by apply list_elem_of_singleton|done]. }
  apply bind_Ok in H as ([names named] & H & [= <-]). cbn [bs_expanded bs_text bs_args].
  split; [by left|]. apply expand_elements_names in H as (-> & Hlen & HF); [|lia].
  assert (Hne : named <> []) by (intros ->; destruct vs; [by apply Hfill|done]).
  replace (if bs_expanded s then _ else _)
    with (PlaceholderOccurrences (bs_text s) (fp_placeholder fp)).
  2:{ destruct Htext as [-> | ->]; [done|]. destruct (bs_expanded s); [done|].
      symmetry. by eapply Hocc. }
  destruct named as [|a named]; [done|].
  pose proof (covered_expand _ _ _ _ _ Hc Hgood Hne HF) as Hcov.
  rewrite <- list_fmap_compose in Hcov. exact Hcov.
Qed.

Lemma bind_fields_covered arrays fps s s' :
  Forall plan_ok fps -> bs_expanded s = true \/ bs_text s = sqlText ->
  covered (bs_text s) (bs_args s) fps ->
  foldR (bind_field td arrays queryName) s fps = Ok s' -> covered (bs_text s') (bs_args s') [].
Proof.
  intros Hok. revert s. induction Hok as [|fp fps Hfp Hok IH]; intros s Ht Hc H; simpl in H.
  - by inv_ok.
  - apply bind_Ok in H as (s1 & H1 & H).
    destruct (bind_field_covered _ _ _ _ _ Hfp Ht Hc H1) as [Ht1 Hc1]. by eapply IH.
Qed.

End BindProof.

Lemma find_fold_placeholder sqlText name :
  find_fold name (FindPlaceholders sqlText) <> "" ->
  find_fold name (FindPlaceholders sqlText) ∈ FindPlaceholders sqlText /\
  EqualFold (find_fold name (FindPlaceholders sqlText)) name = true.
Proof.
  intros H. destruct (find_fold_spec name (FindPlaceholders sqlText)) as [[H0 _]|(_ & ? & ?)];
    [apply placeholders_nonempty|congruence|auto].
Qed.

Lemma find_fold_used sqlText name n :
  n ∈ FindPlaceholders sqlText -> EqualFold name n = true ->
  find_fold name (FindPlaceholders sqlText) <> "" /\
  EqualFold (find_fold name (FindPlaceholders sqlText)) n = true.
Proof.
  intros Hn He. destruct (find_fold_spec name (FindPlaceholders sqlText)) as [[_ H]|(Hne & _ & H)].
  - apply placeholders_nonempty.
  - rewrite Forall_forall in H. apply H in Hn. by rewrite EqualFold_sym, Hn in He.
  - split; [done|]. apply EqualFold_true in He, H. apply EqualFold_true. congruence.
Qed.

Lemma plan_field_ok sqlText queryName f :
  af_value f <> Collection [] -> plan_ok sqlText (plan_field sqlText queryName f).
Proof.
  intros Hf. unfold plan_field. case_decide as Hp; [by split|].
  split; cbn [fp_placeholder fp_field fp_occurrences].
  - intros _. apply find_fold_placeholder in Hp as [Hin _].
    apply elem_of_FindPlaceholders in Hin.
    pose proof (names_in_good sqlText) as H. rewrite Forall_forall in H. by apply H.
  - intros vs Hv _. unfold is_collection. by rewrite Hv.
  - done.
Qed.

(** Both directions of the match hold: every placeholder has a field and every
    field a placeholder. *)
Definition strict_match (sqlText : string) (names : list string) : Prop :=
  (forall n, n ∈ FindPlaceholders sqlText -> has_field names n) /\
  (forall f, f ∈ names -> find_fold f (FindPlaceholders sqlText) <> "").

Lemma expand_elements_total td p ctx ct i vs :
  (forall v c, is_ok (td v c) = true) -> is_ok (expand_elements td p ctx ct i vs) = true.
Proof.
  intros Htd. revert i. induction vs as [|v vs IH]; intros i; [done|]. simpl.
  specialize (Htd v ctx). specialize (IH (i + 1)%Z).
  destruct (td v ctx); [|done]. simpl.
  by destruct (expand_elements td p ctx ct (i + 1) vs) as [[??]|].
Qed.

Lemma bind_field_total td queryName s fp :
  (forall v c, is_ok (td v c) = true) ->
  if decide (fp_placeholder fp = "") then
    bind_field td false queryName s fp = Fail (NewError "PRM-002" queryName)
  else is_ok (bind_field td false queryName s fp) = true.
Proof.
  intros Htd. unfold bind_field. case_decide as Hp; [done|].
  destruct (af_value (fp_field fp)) as [v|vs].
  - specialize (Htd v (fp_context fp)). by destruct (td v _).
  - pose proof (expand_elements_total td (fp_placeholder fp) (fp_context fp)
      (af_type (fp_field fp)) 0 vs Htd) as H.
    by destruct (expand_elements _ _ _ _ _ _) as [[??]|].
Qed.

Lemma bind_fields_total td queryName s fps :
  (forall v c, is_ok (td v c) = true) ->
  (is_ok (foldR (bind_field td false queryName) s fps) = true /\
     Forall (fun fp => fp_placeholder fp <> "") fps) \/
  (foldR (bind_field td false queryName) s fps = Fail (NewError "PRM-002" queryName) /\
     Exists (fun fp => fp_placeholder fp = "") fps).
Proof.
  intros Htd. revert s. induction fps as [|fp fps IH]; intros s; [left; by split|]. simpl.
  pose proof (bind_field_total td queryName s fp Htd) as H. case_decide as Hp.
  - right. rewrite H. split; [done|by left].
  - destruct (bind_field td false queryName s fp) as [s1|]; [|done]. simpl.
    destruct (IH s1) as [[H1 H2]|[H1 H2]]; [left|right]; split; auto.
Qed.

(** * Lemmas: [rewritePlaceholders] *)

Fixpoint index_of (key : string) (names : list string) : nat :=
  match names with
  | [] => 0
  | n :: names' => if decide (n = key) then 0 else S (index_of key names')
  end.

Lemma index_of_lookup key names : key ∈ names -> names !! index_of key names = Some key.
Proof.
  induction 1 as [|y names Hin IH]; simpl; [by rewrite decide_True|].
  by case_decide; subst.
Qed.

Lemma index_of_app key l k : key ∈ l -> index_of key (l ++ k) = index_of key l.
Proof. induction 1 as [|y l Hin IH]; simpl; case_decide; congruence. Qed.

Lemma index_of_fresh key l : key ∉ l -> index_of key (l ++ [key]) = length l.
Proof.
  induction l as [|x l IH]; simpl; [by rewrite decide_True|].
  rewrite not_elem_of_cons. intros [Hx Hl]. rewrite decide_False by congruence. by rewrite IH.
Qed.

Lemma first_seen_ext s1 s2 l :
  (forall x, x ∈ s1 <-> x ∈ s2) -> first_seen s1 l = first_seen s2 l.
Proof.
  revert s1 s2. induction l as [|n l IH]; intros s1 s2 H; [done|]. simpl.
  do 2 case_decide; try (exfalso; naive_solver); [by apply IH|].
  f_equal. apply IH. intros x. rewrite !elem_of_cons, H. done.
Qed.

(** The word a placeholder becomes: its name's position among the names. *)
Definition dollar (names : list string) (key : string) : list ascii :=
  bytes ("$" +:+ Itoa (Z.of_nat (S (index_of key names)))).

Lemma dollar_app key l k : key ∈ l -> dollar (l ++ k) key = dollar l key.
Proof. intros H. unfold dollar. by rewrite index_of_app. Qed.

Lemma digit_neutral d : is_digit d = true -> neutral d.
Proof. intros H. repeat split; by intros ->. Qed.

Lemma dollar_ok names key : word_ok (dollar names key).
Proof.
  assert (Hd : Forall (fun c => is_digit c = true)
            (bytes (Itoa (Z.of_nat (S (index_of key names)))))) by (apply Itoa_digits; lia).
  unfold dollar. rewrite bytes_app. split; [done| | |].
  - apply Forall_app; split; [by repeat constructor|].
    eapply Forall_impl; [exact Hd|]. apply digit_neutral.
  - by repeat constructor.
  - pose proof (Itoa_nonempty (Z.of_nat (S (index_of key names)))) as Hne. unfold ends_at.
    destruct (bytes (Itoa _)) as [|d l _] using rev_ind; [done|].
    rewrite app_assoc, last_snoc. apply Forall_app in Hd as [_ Hd].
    inversion Hd; subst. apply name_char_not_at. unfold name_char. by rewrite orb_comm, H1.
Qed.

Lemma dollar_no_names names key : scan_names false (dollar names key) = [].
Proof.
  unfold dollar. rewrite bytes_app. unfold scan_names. simpl app. rewrite scan_cons.
  simpl Ascii.eqb. cbv iota.
  assert (Hd : Forall (fun c => is_digit c = true)
            (bytes (Itoa (Z.of_nat (S (index_of key names)))))) by (apply Itoa_digits; lia).
  generalize 1 as i. induction Hd as [|d l Hd' Hd IH]; intros i; [done|]. rewrite scan_cons.
  rewrite name_char_not_at; [apply IH|]. unfold name_char. by rewrite Hd', orb_true_r.
Qed.

Definition ordinals_ok (st : rewrite_state) : Prop :=
  forall key, rs_ordinal st !! key =
    if decide (key ∈ rs_names st) then Some (S (index_of key (rs_names st))) else None.

Definition named_spans (ms : list Match) : list NamedPlaceholderSpan :=
  (fun m => mkNamedSpan (of_bytes (m_name m)) (match_span m)) <$> ms.

Definition key_of (p : list ascii * list ascii) : string := ToLower (of_bytes p.2).

Lemma rewrite_step_spec text st pre gap name rest :
  ordinals_ok st -> bytes text = pre ++ gap ++ at_sign :: name ++ rest ->
  rs_last st = length pre ->
  let key := ToLower (of_bytes name) in
  let st' := rewrite_step text st (mkNamedSpan (of_bytes name)
               (mkSpan (length pre + length gap) (S (length name)))) in
  ordinals_ok st' /\ rs_names st' = rs_names st ++ first_seen (rs_names st) [key] /\
  bytes (rs_b st') = bytes (rs_b st) ++ gap ++ dollar (rs_names st') key /\
  rs_last st' = length (pre ++ gap ++ at_sign :: name).
Proof.
  intros Hord Htext Hlast key st'.
  assert (Hgap : slice text (rs_last st) (length pre + length gap) = of_bytes gap).
  { unfold slice. rewrite Hlast, Htext, drop_app_length. f_equal.
    replace (length pre + length gap - length pre) with (length gap) by lia.
    apply take_app_length. }
  subst st'. unfold rewrite_step. cbn [Name Span Index Len]. fold key. rewrite Hgap.
  rewrite (Hord key). simpl first_seen.
  assert (Hl : length pre + length gap + S (length name) = length (pre ++ gap ++ at_sign :: name))
    by (rewrite !length_app; simpl; lia).
  case_decide as Hk; cbn [rs_names rs_b rs_last rs_ordinal].
  - rewrite app_nil_r, !bytes_app, bytes_of_bytes. done.
  - rewrite length_app. simpl length. split; [|split; [done|split; [|done]]].
    + intros k. cbn [rs_ordinal rs_names]. destruct (decide (k = key)) as [->|Hne].
      * rewrite lookup_insert_eq, decide_True by (apply elem_of_app; right; by left).
        rewrite index_of_fresh by done. f_equal. lia.
      * rewrite lookup_insert_ne by congruence. rewrite Hord.
        rewrite (decide_ext (k ∈ rs_names st) (k ∈ rs_names st ++ [key])).
        2:{ rewrite elem_of_app, list_elem_of_singleton. naive_solver. }
        case_decide as Hin; [|done]. rewrite index_of_app; [done|].
        apply elem_of_app in Hin as [?|Hin%list_elem_of_singleton]; done.
    + unfold dollar. rewrite index_of_fresh by done.
      rewrite !bytes_app, bytes_of_bytes. by rewrite Nat.add_1_r.
Qed.

Lemma first_seen_cons seen n l :
  first_seen seen (n :: l) = first_seen seen [n] ++ first_seen (seen ++ first_seen seen [n]) l.
Proof.
  simpl. case_decide; [by rewrite app_nil_r|]. simpl. f_equal. apply first_seen_ext.
  intros x. rewrite elem_of_app, elem_of_cons, list_elem_of_singleton. tauto.
Qed.

Lemma rewrite_fold text i b mode l ps tail pre st :
  pieces i b mode l ps tail -> bytes text = pre ++ l -> length pre = i ->
  rs_last st = i -> ordinals_ok st ->
  let st' := fold_left (rewrite_step text) (named_spans (matches_of i ps)) st in
  rs_names st' = rs_names st ++ first_seen (rs_names st) (key_of <$> ps) /\
  bytes (rs_b st' +:+ slice text (rs_last st') (String.length text))
  = bytes (rs_b st) ++ assemble ps ((fun p => dollar (rs_names st') (key_of p)) <$> ps) tail.
Proof.
  intros H. revert pre st.
  induction H as [i b mode l Hs|i b mode gap name rest ps tail Hs Hm He Hn Hr H IH];
    intros pre st Htext Hpre Hlast Hord.
  - simpl. rewrite app_nil_r, bytes_app. split; [done|]. f_equal.
    unfold slice. rewrite bytes_of_bytes, Hlast, Htext, <- Hpre, drop_app_length.
    apply take_ge. rewrite <- length_bytes, Htext, length_app. lia.
  - subst i. cbn [matches_of named_spans]. 
    change (named_spans (mkMatch (length pre + length gap) name :: ?ms))
      with (mkNamedSpan (of_bytes name) (mkSpan (length pre + length gap) (S (length name)))
              :: named_spans ms). cbn [fold_left].
    destruct (rewrite_step_spec text st pre gap name rest Hord Htext Hlast)
      as (Hord1 & Hnames1 & Hb1 & Hlast1).
    set (st1 := rewrite_step text st _) in *.
    assert (Hi : length (pre ++ gap ++ at_sign :: name) = length pre + length gap + S (length name))
      by (rewrite !length_app; simpl; lia).
    destruct (IH (pre ++ gap ++ at_sign :: name) st1) as [Hnames Hb]; [|done|congruence|done|].
    { rewrite Htext. by rewrite <- !app_assoc. }
    rewrite fmap_cons, first_seen_cons, (app_assoc (rs_names st)). change (key_of (gap, name)) with (ToLower (of_bytes name)).
    rewrite <- Hnames1. split; [exact Hnames|]. rewrite Hb, Hb1.
    rewrite fmap_cons. cbn [assemble]. rewrite <- !app_assoc. do 2 f_equal.
    change (key_of (gap, name)) with (ToLower (of_bytes name)). rewrite Hnames, dollar_app; [done|].
    rewrite Hnames1. simpl. case_decide; rewrite elem_of_app; [by left|right; by left].
Qed.

Lemma rewritePlaceholders_pieces sql ps tail :
  pieces 0 false Text (bytes sql) ps tail ->
  rw_names (rewritePlaceholders sql) = first_seen [] (key_of <$> ps) /\
  bytes (rw_sql (rewritePlaceholders sql))
  = assemble ps ((fun p => dollar (rw_names (rewritePlaceholders sql)) (key_of p)) <$> ps) tail.
Proof.
  intros H.
  assert (Hspans : PlaceholderSpans sql = named_spans (matches_of 0 ps)).
  { unfold PlaceholderSpans. by rewrite placeholderMatches_scan, (pieces_matches _ _ _ _ _ _ H). }
  assert (Hord : ordinals_ok (mkRewriteState [] ∅ "" 0)).
  { intros key. cbn. rewrite lookup_empty, decide_False; [done|apply not_elem_of_nil]. }
  pose proof (rewrite_fold sql 0 false Text (bytes sql) ps tail []
    (mkRewriteState [] ∅ "" 0) H eq_refl eq_refl eq_refl Hord)
    as [Hnames Hb].
  unfold rewritePlaceholders. rewrite Hspans.
  destruct (matches_of 0 ps) as [|m ms] eqn:Em.
  - destruct ps as [|[gap name] ps]; [|done]. inversion H; subst. done.
  - exact (conj Hnames Hb).
Qed.

(** * Lemmas: [arrange] *)

(** The argument bound under a placeholder's name: the last one that folds to it. *)
Definition argument (key : string) (args : list NamedValue) : option Bound :=
  nv_Value <$> last (List.filter (fun a => bool_decide (ToLower (nv_Name a) = key)) args).

Lemma argument_cons key a args :
  argument key (a :: args)
  = match argument key args with
    | Some v => Some v
    | None => if decide (ToLower (nv_Name a) = key) then Some (nv_Value a) else None
    end.
Proof.
  unfold argument. simpl. case_bool_decide as Hk.
  - rewrite decide_True, last_cons by done. by destruct (last _).
  - rewrite decide_False by done. by destruct (last _).
Qed.

Lemma argument_Some key args :
  is_Some (argument key args) <-> exists a, a ∈ args /\ ToLower (nv_Name a) = key.
Proof.
  induction args as [|a args IH].
  - unfold argument. simpl. split; [by intros []|]. by intros (a & Ha%not_elem_of_nil & _).
  - rewrite argument_cons. destruct (argument key args) as [v|] eqn:Ev.
    + split; [intros _|by eexists]. destruct IH as [IH _]. destruct IH as (x & Hx & Hk); [by eexists|].
      exists x. split; [by right|done].
    + case_decide as Hk; (split; [|try by eexists]).
      * intros _. exists a. split; [by left|done].
      * by intros [].
      * intros (x & [->|Hx]%elem_of_cons & Hkx); [done|].
        destruct IH as [_ IH]. destruct IH; [by exists x|done].
Qed.

Lemma arrange_by_name_spec byName args :
  arrange_by_name byName args =
  if decide (Forall (fun a => nv_Name a <> "") args)
  then Ok (fold_left (fun m a => <[ToLower (nv_Name a) := nv_Value a]> m) args byName)
  else plain_error "positional argument".
Proof.
  revert byName. induction args as [|a args IH]; intros byName; cbn [arrange_by_name fold_left].
  - by rewrite decide_True by constructor.
  - destruct (decide (nv_Name a = "")) as [Ha|Ha].
    + rewrite decide_False; [done|]. inversion 1; by subst.
    + rewrite IH. case_decide as H1.
      * rewrite decide_True; [done|]. by constructor.
      * rewrite decide_False; [done|]. inversion 1; by subst.
Qed.

Lemma fold_insert_lookup args (m : gmap string Bound) key :
  fold_left (fun m a => <[ToLower (nv_Name a) := nv_Value a]> m) args m !! key
  = match argument key args with Some v => Some v | None => m !! key end.
Proof.
  revert m. induction args as [|a args IH]; intros m; [done|].
  cbn [fold_left]. rewrite IH, argument_cons. destruct (argument key args); [done|].
  destruct (decide (ToLower (nv_Name a) = key)) as [<-|Hne].
  - by rewrite lookup_insert_eq.
  - by rewrite lookup_insert_ne.
Qed.

(** The names take their arguments in order and leave the rest of the map. *)
Lemma arrange_names_spec names i byName :
  NoDup names ->
  match arrange_names i byName names with
  | Ok (out, remaining) =>
      length out = length names /\
      (forall k key, names !! k = Some key -> exists v, byName !! key = Some v /\
         out !! k = Some (mkNamedValue "" (S (i + k)) v)) /\
      (forall key, remaining !! key = if decide (key ∈ names) then None else byName !! key)
  | Fail _ => exists key, key ∈ names /\ byName !! key = None
  end.
Proof.
  revert i byName. induction names as [|n names IH]; intros i byName Hnd; cbn [arrange_names length].
  - split; [done|]. split; [by intros []|]. intros key. rewrite decide_False; [done|apply not_elem_of_nil].
  - apply NoDup_cons in Hnd as [Hn Hnd].
    destruct (byName !! n) as [v|] eqn:Ev; [|exists n; split; [by left|done]].
    specialize (IH (S i) (delete n byName) Hnd).
    destruct (arrange_names (S i) (delete n byName) names) as [[out rem]|e]; simpl.
    + destruct IH as (Hlen & Hout & Hrem). split; [by rewrite Hlen|]. split.
      * intros [|k] key Hk; simpl in *.
        { injection Hk as <-. exists v. by rewrite Nat.add_0_r. }
        destruct (Hout k key Hk) as (w & Hw & Hk2). exists w.
        apply lookup_delete_Some in Hw as [_ Hw]. split; [done|].
        by rewrite Nat.add_succ_r.
      * intros key. rewrite Hrem. destruct (decide (key ∈ names)) as [Hin|Hin].
        { by rewrite decide_True by (by right). }
        destruct (decide (key = n)) as [->|Hne].
        { rewrite decide_True by left. by rewrite lookup_delete_eq. }
        rewrite decide_False by (rewrite elem_of_cons; tauto).
        by rewrite lookup_delete_ne.
    + destruct IH as (key & Hin & Hno). exists key. split; [by right|].
      apply lookup_delete_None in Hno as [<-|?]; [done|done].
Qed.

Lemma arrange_correct (sql : string) (args : list NamedValue) :
  let r := rewritePlaceholders sql in
  rw_names r <> [] ->
  (is_ok (arrange r args) = true <->
     Forall (fun a => nv_Name a <> "" /\ ToLower (nv_Name a) ∈ rw_names r) args /\
     forall key, key ∈ rw_names r -> is_Some (argument key args)) /\
  forall out, arrange r args = Ok out ->
    length out = length (rw_names r) /\
    forall k key, rw_names r !! k = Some key ->
      exists v, argument key args = Some v /\ out !! k = Some (mkNamedValue "" (S k) v).
Proof.
  intros r Hne.
  assert (Hnd : NoDup (rw_names r)).
  { destruct (pieces_exist 0 false Text (bytes sql)) as (ps & tail & H).
    destruct (rewritePlaceholders_pieces _ _ _ H) as [Hnames _]. subst r. rewrite Hnames.
    apply first_seen_nodup. }
  clearbody r. unfold arrange. destruct (rw_names r) as [|n names]; [done|].
  rewrite arrange_by_name_spec. set (all := n :: names) in *.
  set (byName := fold_left _ args ∅).
  assert (Hby : forall key, byName !! key = argument key args).
  { intros key. subst byName. rewrite fold_insert_lookup, lookup_empty.
    by destruct (argument key args). }
  clearbody byName all. case_decide as Hnamed; simpl.
  2:{ split; [|done]. split; [done|]. intros [Hall _]. destruct Hnamed.
      eapply Forall_impl; [exact Hall|]. by intros a [? _]. }
  pose proof (arrange_names_spec all 0 byName Hnd) as Hspec.
  destruct (arrange_names 0 byName all) as [[out rem]|e]; simpl.
  - destruct Hspec as (Hlen & Hout & Hrem).
    assert (Hres : forall k key, all !! k = Some key -> exists v,
              argument key args = Some v /\ out !! k = Some (mkNamedValue "" (S k) v)).
    { intros k key Hk. rewrite <- Hby. by apply Hout. }
    assert (Hempty : rem = ∅ <-> Forall (fun a => ToLower (nv_Name a) ∈ all) args).
    { split.
      - intros ->. apply Forall_forall. intros a Ha.
        destruct (decide (ToLower (nv_Name a) ∈ all)) as [|Hno]; [done|].
        specialize (Hrem (ToLower (nv_Name a))).
        rewrite lookup_empty, decide_False, Hby in Hrem by done.
        destruct (proj2 (argument_Some (ToLower (nv_Name a)) args)) as [v Hv]; [eauto|congruence].
      - intros Hall. apply map_eq. intros key. rewrite Hrem, lookup_empty.
        case_decide as Hk; [done|]. rewrite Hby. apply eq_None_not_Some.
        intros (a & Ha & <-)%argument_Some. rewrite Forall_forall in Hall. by apply Hk, Hall. }
    case_decide as Hr.
    + split; [|by intros ? [= <-]]. split; [intros _|done]. split.
      * apply Forall_and. split; [done|]. by apply Hempty.
      * intros key Hk. apply list_elem_of_lookup in Hk as [k Hk].
        destruct (Hres k key Hk) as (v & Hv & _). by exists v.
    + split; [|done]. split; [done|]. intros [Hall _]. destruct Hr. apply Hempty.
      eapply Forall_impl; [exact Hall|]. by intros a [_ ?].
  - split; [|done]. split; [done|]. intros [_ Hall].
    destruct Hspec as (key & Hin & Hno). apply Hall in Hin. rewrite <- Hby, Hno in Hin.
    by destruct Hin.
Qed.

Lemma arrange_accepts sql args :
  let r := rewritePlaceholders sql in
  rw_names r <> [] ->
  Forall (fun a => nv_Name a <> "" /\ ToLower (nv_Name a) ∈ rw_names r) args /\
    (forall key, key ∈ rw_names r -> is_Some (argument key args)) ->
  is_ok (arrange r args) = true.
Proof. intros r Hr H. by apply (arrange_correct sql args Hr). Qed.

(** * Theorems *)

(** Whatever collections are expanded, and even when a generated name is
    another field's name, the SQL [Bind] returns has no placeholder without an
    argument: each one matches, case-insensitively, the name of a bound
    argument. *)
Theorem Bind_covers_placeholders td arrays sqlText args queryName b :
  Bind td arrays sqlText args queryName = Ok b ->
  Forall (fun f => af_value f <> Collection []) args ->
  forall n, n ∈ FindPlaceholders (SQL b) ->
    exists a, a ∈ Args b /\ EqualFold (arg_Name a) n = true.
Proof.
  intros H Hfill n Hn%elem_of_FindPlaceholders. rewrite Bind_unfold in H.
  destruct (first_missing _ _) as [|] eqn:Ef; [done|].
  apply bind_Ok in H as (s & Hs & [= <-]). cbn [SQL Args] in *.
  assert (Hc : covered sqlText [] (plan_field sqlText queryName <$> args)).
  { intros m Hm%elem_of_FindPlaceholders. right.
    destruct (proj1 (first_missing_None _ _) Ef m Hm) as (f & Hf & He).
    apply list_elem_of_fmap in Hf as (f0 & -> & Hf).
    exists (plan_field sqlText queryName f0). split; [apply list_elem_of_fmap; eauto|].
    destruct (find_fold_used _ _ _ Hm He) as [Hne Hfold].
    unfold plan_field. by rewrite decide_False. }
  assert (Hok : Forall (plan_ok sqlText) (plan_field sqlText queryName <$> args)).
  { apply Forall_fmap. eapply Forall_impl; [exact Hfill|]. apply plan_field_ok. }
  destruct (bind_fields_covered td sqlText queryName arrays _ (mkBindState sqlText [] false) s
              Hok (or_intror eq_refl) Hc Hs n Hn) as [Hb|(fp & Hfp & _)]; [exact Hb|].
  by apply not_elem_of_nil in Hfp.
Qed.

Definition echo (v : Value) (_ : string) : result Value := Ok v.
Definition ids_args : list ArgField :=
  [mkArgField "Ids" TypeInt64 (Collection [VInt KInt64 7; VInt KInt64 9]) (VInt KInt64 0);
   mkArgField "name" TypeString (Scalar (VString "x")) VNil].

Lemma Bind_covers_placeholders_witness :
  Bind echo false "select 1 from t where id in (@ids) and n = @Name" ids_args "Q"
    = Ok (mkBoundSQL "select 1 from t where id in (@ids_0, @ids_1) and n = @Name"
        [mkNamedArg "ids_0" (BoundValue (VInt KInt64 7)); mkNamedArg "ids_1" (BoundValue (VInt KInt64 9));
         mkNamedArg "Name" (BoundValue (VString "x"))]) /\
  exists a, a ∈ [mkNamedArg "ids_0" (BoundValue (VInt KInt64 7));
                 mkNamedArg "ids_1" (BoundValue (VInt KInt64 9));
                 mkNamedArg "Name" (BoundValue (VString "x"))] /\
    EqualFold (arg_Name a) "ids_1" = true.
Proof.
  split; [vm_compute; reflexivity|].
  apply (Bind_covers_placeholders echo false
    "select 1 from t where id in (@ids) and n = @Name" ids_args "Q"
    (mkBoundSQL "select 1 from t where id in (@ids_0, @ids_1) and n = @Name"
       [mkNamedArg "ids_0" (BoundValue (VInt KInt64 7)); mkNamedArg "ids_1" (BoundValue (VInt KInt64 9));
        mkNamedArg "Name" (BoundValue (VString "x"))])).
  - vm_compute. reflexivity.
  - repeat constructor; discriminate.
  - vm_compute. right. left.
Defined.

(** Matching is strict in both directions.  A placeholder no field matches is
    PRM-001 whatever the values are; with a converter that accepts the values,
    a field no placeholder uses is PRM-002, and [Bind] succeeds exactly when
    the placeholders and the fields match both ways. *)
Theorem Bind_strict td sqlText args queryName (Htd : forall v c, is_ok (td v c) = true) :
  ((exists n, n ∈ FindPlaceholders sqlText /\ ~ has_field (af_name <$> args) n) ->
     Bind td false sqlText args queryName = Fail (NewError "PRM-001" queryName)) /\
  ((forall n, n ∈ FindPlaceholders sqlText -> has_field (af_name <$> args) n) ->
   (exists f, f ∈ args /\ forall n, n ∈ FindPlaceholders sqlText -> EqualFold n (af_name f) = false) ->
     Bind td false sqlText args queryName = Fail (NewError "PRM-002" queryName)) /\
  (is_ok (Bind td false sqlText args queryName) = true
     <-> strict_match sqlText (af_name <$> args)).
Proof.
  rewrite Bind_unfold. destruct (first_missing _ _) as [p|] eqn:Ef.
  - assert (Hno : ~ forall n, n ∈ FindPlaceholders sqlText -> has_field (af_name <$> args) n)
      by (intros H%first_missing_None; congruence).
    split; [done|]. split; [done|]. split; [done|]. by intros [? _].
  - pose proof (proj1 (first_missing_None _ _) Ef) as Hall.
    split; [intros (n & Hn & Hno); by destruct Hno; apply Hall|].
    assert (Hplan : forall f, fp_placeholder (plan_field sqlText queryName f)
              = find_fold (af_name f) (FindPlaceholders sqlText))
      by (intros f; unfold plan_field; by case_decide).
    destruct (bind_fields_total td queryName (mkBindState sqlText [] false)
      (plan_field sqlText queryName <$> args) Htd) as [[Hok HF]|[Hfail HE]].
    + rewrite Forall_fmap, Forall_forall in HF. split.
      * intros _ (f & Hf & Hno). apply HF in Hf as Hne. cbn in Hne. rewrite Hplan in Hne.
        apply find_fold_placeholder in Hne as [Hin He]. by rewrite Hno in He.
      * destruct (foldR _ _ _); [|done]. simpl. split; [intros _|done]. split; [done|].
        intros f Hf. apply list_elem_of_fmap in Hf as (f0 & -> & Hf). rewrite <- Hplan. by apply HF.
    + rewrite Hfail. split; [done|]. simpl. split; [done|]. intros [_ Hs].
      apply Exists_exists in HE as (fp & Hfp & He).
      apply list_elem_of_fmap in Hfp as (f & -> & Hf). rewrite Hplan in He.
      destruct (Hs (af_name f)); [apply list_elem_of_fmap; eauto|done].
Qed.

Lemma Bind_strict_witness :
  (forall v c, is_ok (echo v c) = true) /\
  Bind echo false "select @a" [] "Q" = Fail (NewError "PRM-001" "Q").
Proof.
  split; [done|]. apply (Bind_strict echo "select @a" [] "Q" (fun _ _ => eq_refl)).
  exists "a". split; [vm_compute; left|]. intros (f & Hf & _). by apply not_elem_of_nil in Hf.
Defined.

(** The PostgreSQL rewrite replaces placeholders and nothing else: the text
    splits into literal parts and placeholders, the result has the same literal
    parts with [$n] in each placeholder's place, [n] being the place of the
    lowercased name among the names, which are listed once, in first-seen
    order; and no placeholder is left. *)
Theorem rewritePlaceholders_spec (sql : string) :
  let r := rewritePlaceholders sql in
  rw_names r = first_seen [] (ToLower <$> (Name <$> PlaceholderSpans sql)) /\
  FindPlaceholders (rw_sql r) = [] /\
  exists ps tail,
    Name <$> PlaceholderSpans sql = (fun p => of_bytes p.2) <$> ps /\
    bytes sql = assemble ps (own_words ps) tail /\
    bytes (rw_sql r) = assemble ps ((fun p => dollar (rw_names r) (key_of p)) <$> ps) tail /\
    Forall (fun p => rw_names r !! index_of (key_of p) (rw_names r) = Some (key_of p)) ps.
Proof.
  intros r. destruct (pieces_exist 0 false Text (bytes sql)) as (ps & tail & H).
  pose proof (names_in_pieces _ _ _ H) as Hn. unfold names_in in Hn.
  destruct (rewritePlaceholders_pieces _ _ _ H) as [Hnames Hb]. fold r in Hnames, Hb.
  assert (Hkeys : ToLower <$> (Name <$> PlaceholderSpans sql) = key_of <$> ps)
    by (rewrite Hn, <- list_fmap_compose; reflexivity).
  split; [by rewrite Hkeys|]. split.
  - rewrite FindPlaceholders_spans. change (Name <$> PlaceholderSpans (rw_sql r)) with (names_in (rw_sql r)).
    rewrite names_in_scan, Hb, (assemble_names _ _ _ _ _ _ _ H).
    + clear. induction ps as [|p ps IH]; [done|]. rewrite !fmap_cons. cbn [concat].
      by rewrite dollar_no_names.
    + apply Forall_fmap, Forall_forall. intros p _. apply dollar_ok.
    + by rewrite length_fmap.
  - exists ps, tail. split; [done|]. split; [symmetry; by eapply pieces_assemble|].
    split; [done|]. apply Forall_forall. intros p Hp. apply index_of_lookup.
    rewrite Hnames, first_seen_elem. split; [apply list_elem_of_fmap; eauto|apply not_elem_of_nil].
Qed.

(** C37. [arrange] gives the driver exactly the arguments the rewritten text
    needs.  A statement without a placeholder passes its arguments through as
    they are, named or not; on any other it succeeds exactly when every argument
    is named, every name has an argument and every argument a name, and then
    position [k+1] carries the argument of the [k]-th name, whatever its case. *)
Theorem arrange_spec (sql : string) (args : list NamedValue) :
  let r := rewritePlaceholders sql in
  if decide (rw_names r = []) then arrange r args = Ok args
  else
    (is_ok (arrange r args) = true <->
       Forall (fun a => nv_Name a <> "" /\ ToLower (nv_Name a) ∈ rw_names r) args /\
       forall key, key ∈ rw_names r -> is_Some (argument key args)) /\
    forall out, arrange r args = Ok out ->
      length out = length (rw_names r) /\
      forall k key, rw_names r !! k = Some key ->
        exists v, argument key args = Some v /\ out !! k = Some (mkNamedValue "" (S k) v).
Proof.
  intros r. destruct (decide (rw_names r = [])) as [E|Hne]; [unfold arrange; by rewrite E|].
  by apply arrange_correct.
Qed.

Lemma arrange_spec_witness :
  arrange (rewritePlaceholders "update t set a = @B where k = @a and b = @b")
    [mkNamedValue "A" 1 (BoundValue (VBool true)); mkNamedValue "b" 2 (BoundValue (VBool false))]
  = Ok [mkNamedValue "" 1 (BoundValue (VBool false)); mkNamedValue "" 2 (BoundValue (VBool true))] /\
  length [mkNamedValue "" 1 (BoundValue (VBool false)); mkNamedValue "" 2 (BoundValue (VBool true))]
  = length (rw_names (rewritePlaceholders "update t set a = @B where k = @a and b = @b")).
Proof.
  pose proof (arrange_spec "update t set a = @B where k = @a and b = @b"
    [mkNamedValue "A" 1 (BoundValue (VBool true)); mkNamedValue "b" 2 (BoundValue (VBool false))]) as H.
  cbv zeta in H. rewrite decide_False in H by (vm_compute; discriminate). destruct H as [_ H].
  split; [vm_compute; reflexivity|]. apply H. vm_compute. reflexivity.
Defined.

(** A placeholder an IN list generates may be one the SQL already has. *)
Example Bind_generated_name_collides :
  Bind echo false "select 1 from t where id in (@ids) and n = @ids_0"
    [mkArgField "ids" TypeInt64 (Collection [VInt KInt64 7]) (VInt KInt64 0);
     mkArgField "ids_0" TypeInt64 (Scalar (VInt KInt64 9)) VNil] "Q"
  = Ok (mkBoundSQL "select 1 from t where id in (@ids_0) and n = @ids_0"
      [mkNamedArg "ids_0" (BoundValue (VInt KInt64 7));
       mkNamedArg "ids_0" (BoundValue (VInt KInt64 9))]).
Proof. by vm_compute. Qed.
