(* ===== verification/Guid.v ===== *)
(** GUIDs (internal/core/guid.go): sixteen bytes, written as lower-case
    hyphenated hexadecimal and read back from any spelling of it. *)
From S2P Require Import Prelude GoStrings.

(** ** [encoding/hex] *)

Definition hex_digit (n : N) : ascii := ascii_of_N (if n <? 10 then n + 48 else n + 87)%N.

Definition from_hex (c : ascii) : option N :=
  if is_digit c then Some (ord c - 48)%N
  else if in_range 97 102 c then Some (ord c - 87)%N
  else if in_range 65 70 c then Some (ord c - 55)%N
  else None.

Definition EncodeToString (l : list ascii) : list ascii :=
  l ≫= fun c => [hex_digit (ord c / 16); hex_digit (ord c mod 16)].

Fixpoint hex_Decode (l : list ascii) : option (list ascii) :=
  match l with
  | [] => Some []
  | a :: b :: l' =>
      high ← from_hex a;
      low ← from_hex b;
      rest ← hex_Decode l';
      Some (ascii_of_N (high * 16 + low) :: rest)
  | [_] => None
  end.

(** ** The type *)

(** [rand.Read] filled [random]; six bits of it are the version and variant. *)
Definition stamp_bits (keep set : N) (c : ascii) : ascii := ascii_of_N (N.lor (N.land (ord c) keep) set).
Definition NewGUID (random : list ascii) : string :=
  of_bytes (alter (stamp_bits 63 128) 8 (alter (stamp_bits 15 64) 6 random)).

(** [strings.NewReplacer("-", "", "{", "", "}", "")] *)
Definition guid_punctuation (c : ascii) : bool :=
  Ascii.eqb c "-"%char || Ascii.eqb c "{"%char || Ascii.eqb c "}"%char.
Definition cleaned (text : string) : list ascii :=
  List.filter (fun c => negb (guid_punctuation c)) (bytes (TrimSpace text)).

Definition ParseGUID (text : string) : result string :=
  if decide (length (cleaned text) = 32) then
    match hex_Decode (cleaned text) with
    | Some g => Ok (of_bytes g)
    | None => Fail (NewError "MAP-031" "GUID")
    end
  else Fail (NewError "MAP-031" "GUID").

Definition GUIDFromBytes (blob : string) : result string :=
  if decide (String.length blob = 16) then Ok blob else Fail (NewError "MAP-031" "GUID").

Definition GUID_String (g : string) : string :=
  let h := of_bytes (EncodeToString (bytes g)) in
  slice h 0 8 +:+ "-" +:+ slice h 8 12 +:+ "-" +:+ slice h 12 16 +:+ "-" +:+ slice h 16 20 +:+ "-" +:+ slice h 20 32.

Definition GUID_IsZero (g : string) : bool := bool_decide (g = of_bytes (replicate 16 zero)).

(** ** Hexadecimal *)

Lemma from_hex_lower c n : from_hex c = Some n <-> (n < 16)%N /\ to_lower c = hex_digit n.
Proof.
  split.
  - destruct c as [[] [] [] [] [] [] [] []]; vm_compute; intros H; try discriminate; injection H as <-;
      by split.
  - intros [Hn Hc]. assert (H : forallb (fun n => bool_decide (from_hex c = Some n) ||
      negb (Ascii.eqb (to_lower c) (hex_digit n))) (N.of_nat <$> seq 0 16) = true) by (all_ascii c).
    rewrite forallb_forall in H. specialize (H n). rewrite Hc, Ascii.eqb_refl, orb_false_r in H.
    apply (bool_decide_eq_true _), H, list_elem_of_In, list_elem_of_fmap. exists (N.to_nat n).
    split; [lia|]. apply elem_of_seq. lia.
Qed.

Lemma ord_lt c : (ord c < 256)%N.
Proof. apply N_ascii_bounded. Qed.
Lemma ord_ascii n : (n < 256)%N -> ord (ascii_of_N n) = n.
Proof. apply N_ascii_embedding. Qed.

Lemma byte_halves h lo : (h < 16)%N -> (lo < 16)%N ->
  let c := ascii_of_N (h * 16 + lo) in (ord c / 16 = h /\ ord c mod 16 = lo)%N.
Proof.
  intros Hh Hlo c. unfold c. rewrite ord_ascii by lia. split.
  - by rewrite N.div_add_l, N.div_small, N.add_0_r by lia.
  - by rewrite N.add_comm, N.Div0.mod_add, N.mod_small by lia.
Qed.
Lemma halves_byte c : ascii_of_N (ord c / 16 * 16 + ord c mod 16) = c.
Proof. rewrite N.mul_comm, <- N.div_mod' by lia. apply ascii_N_embedding. Qed.
Lemma half_lt c : (ord c / 16 < 16 /\ ord c mod 16 < 16)%N.
Proof. pose proof (ord_lt c). split; [apply N.Div0.div_lt_upper_bound; lia|by apply N.mod_lt]. Qed.

(** What decodes to [g] is [g]'s encoding, in either case of letters. *)
Lemma hex_Decode_Some g l : hex_Decode l = Some g <-> to_lower <$> l = EncodeToString g.
Proof.
  revert l. induction g as [|c g IH]; intros l.
  { destruct l as [|a [|b l]]; simpl; split; try done.
    destruct (from_hex a), (from_hex b), (hex_Decode l); by intros [=]. }
  destruct l as [|a [|b l]]; simpl; [split; by intros [=]|split; by intros [=]|].
  change (EncodeToString (c :: g)) with (hex_digit (ord c / 16) :: hex_digit (ord c mod 16) :: EncodeToString g).
  destruct (half_lt c) as [Hh Hl]. split.
  - destruct (from_hex a) as [h|] eqn:Ha, (from_hex b) as [lo|] eqn:Hb, (hex_Decode l) as [r|] eqn:Hr;
      simpl; try done. intros [= Hc ->].
    apply from_hex_lower in Ha as [Ha ->]. apply from_hex_lower in Hb as [Hb ->].
    destruct (byte_halves h lo Ha Hb) as [E1 E2]. rewrite Hc in E1, E2. rewrite E1, E2.
    do 2 f_equal. by apply IH.
  - intros [= Ha Hb Hr]. rewrite (proj2 (from_hex_lower a _) (conj Hh Ha)).
    rewrite (proj2 (from_hex_lower b _) (conj Hl Hb)). rewrite (proj2 (IH l) Hr). simpl.
    by rewrite halves_byte.
Qed.

Lemma length_EncodeToString g : length (EncodeToString g) = 2 * length g.
Proof. induction g as [|c g IH]; simpl; [done|]. rewrite IH. lia. Qed.

(** [ParseGUID] reads exactly the spellings of a GUID - its 32 hexadecimal
    digits in any case, hyphens and braces anywhere, spaces around - and what it
    reads has sixteen bytes. *)
Theorem ParseGUID_exact (text g : string) :
  ParseGUID text = Ok g <->
  String.length g = 16 /\ to_lower <$> cleaned text = EncodeToString (bytes g).
Proof.
  unfold ParseGUID. split.
  - destruct (decide _) as [Hl|]; [|done]. destruct (hex_Decode _) as [r|] eqn:E; [|done]. intros [= <-].
    apply hex_Decode_Some in E. rewrite bytes_of_bytes. split; [|done].
    apply (f_equal length) in E. rewrite length_fmap, length_EncodeToString in E.
    rewrite <- length_bytes, bytes_of_bytes. lia.
  - intros [Hg E]. pose proof (f_equal length E) as Hl.
    rewrite length_fmap, length_EncodeToString, length_bytes, Hg in Hl. rewrite decide_True by done.
    apply hex_Decode_Some in E. by rewrite E, of_bytes_bytes.
Qed.

(** ** The written form *)

Lemma hex_char n : (n < 16)%N ->
  is_space (hex_digit n) = false /\ guid_punctuation (hex_digit n) = false /\ to_lower (hex_digit n) = hex_digit n.
Proof.
  intros Hn. assert (H : forallb (fun n => negb (is_space (hex_digit n)) && negb (guid_punctuation (hex_digit n)) &&
    Ascii.eqb (to_lower (hex_digit n)) (hex_digit n)) (N.of_nat <$> seq 0 16) = true) by (vm_compute; reflexivity).
  rewrite forallb_forall in H. specialize (H n). rewrite !andb_true_iff, !negb_true_iff in H.
  destruct H as [[H1 H2] H3%Ascii.eqb_eq]; [|done].
  apply list_elem_of_In, list_elem_of_fmap. exists (N.to_nat n). split; [lia|]. apply elem_of_seq. lia.
Qed.

Lemma hex_chars g : Forall (fun c => is_space c = false /\ guid_punctuation c = false /\ to_lower c = c) (EncodeToString g).
Proof.
  induction g as [|c g IH]; simpl; [constructor|]. destruct (half_lt c).
  constructor; [by apply hex_char|]. constructor; [by apply hex_char|]. exact IH.
Qed.

Definition kept_char (c : ascii) : bool := negb (guid_punctuation c).
Lemma filter_kept l : Forall (fun c => guid_punctuation c = false) l -> List.filter kept_char l = l.
Proof. induction 1 as [|c l Hc _ IH]; simpl; [done|]. unfold kept_char at 1. by rewrite Hc, IH. Qed.

Lemma GUID_String_groups g : String.length g = 16 ->
  let h := EncodeToString (bytes g) in
  bytes (GUID_String g) = (take 8 h ++ ["-"%char] ++ take 4 (drop 8 h) ++ ["-"%char] ++ take 4 (drop 12 h) ++
    ["-"%char] ++ take 4 (drop 16 h) ++ ["-"%char] ++ drop 20 h)%list.
Proof.
  intros Hg h. unfold GUID_String, slice. rewrite !bytes_app, !bytes_of_bytes. fold h.
  assert (length h = 32) by (subst h; rewrite length_EncodeToString, length_bytes; lia).
  by rewrite (take_ge (drop 20 h)) by (rewrite length_drop; lia).
Qed.

Lemma cleaned_GUID_String g : String.length g = 16 -> cleaned (GUID_String g) = EncodeToString (bytes g).
Proof.
  intros Hg. pose proof (GUID_String_groups g Hg) as E. set (h := EncodeToString (bytes g)) in *.
  pose proof (hex_chars (bytes g)) as Hh. fold h in Hh.
  assert (Hl : length h = 32) by (subst h; rewrite length_EncodeToString, length_bytes; lia).
  assert (Hk : Forall (fun c => guid_punctuation c = false) h) by (eapply Forall_impl; [exact Hh|naive_solver]).
  unfold cleaned. fold kept_char. clearbody h.
  assert (Htrim : TrimSpace (GUID_String g) = GUID_String g).
  { rewrite <- (of_bytes_bytes (GUID_String g)), E.
    destruct h as [|c k]; [done|]. destruct (exists_last (l := drop 20 (c :: k))) as (l & d & Ed).
    { intros El%(f_equal length). rewrite length_drop, Hl in El. done. }
    rewrite Ed. simpl take at 1. cbn [app]. rewrite !app_comm_cons, !app_assoc. rewrite <- !app_comm_cons.
    apply TrimSpace_solid; [by inversion Hh as [|? ? [? _]]|].
    assert (Hd : d ∈ c :: k) by (apply (elem_of_drop_in 20); rewrite Ed; set_solver).
    by apply (proj1 (Forall_forall _ _) Hh). }
  rewrite Htrim, E, !List.filter_app. change (List.filter kept_char ["-"%char]) with (@nil ascii).
  rewrite !filter_kept by (repeat first [apply Forall_take|apply Forall_drop]; exact Hk).
  clear - Hl. do 32 (destruct h as [|? h]; [simpl in Hl; lia|]).
  destruct h; [reflexivity|simpl in Hl; lia].
Qed.

(** The stored spelling reads back: every GUID is what [ParseGUID] makes of
    its [String]. *)
Theorem GUID_round_trip (g : string) :
  String.length g = 16 -> ParseGUID (GUID_String g) = Ok g.
Proof.
  intros Hg. apply ParseGUID_exact. split; [done|]. rewrite cleaned_GUID_String by done.
  rewrite <- (list_fmap_id (EncodeToString (bytes g))) at 2. apply list_fmap_ext. intros i c Hc.
  apply list_elem_of_lookup_2 in Hc. by apply (proj1 (Forall_forall _ _) (hex_chars (bytes g))).
Qed.

(** A generated GUID is never the empty one, which stands for a key not set. *)
Lemma NewGUID_not_zero random : length random = 16 -> GUID_IsZero (NewGUID random) = false.
Proof.
  intros Hl. apply bool_decide_eq_false. intros H%(f_equal (fun s => bytes s !! 6)).
  unfold NewGUID in H. rewrite !bytes_of_bytes, list_lookup_alter_ne, list_lookup_alter in H by done.
  destruct (random !! 6) as [c|] eqn:E; [|apply lookup_ge_None in E; lia].
  cbn in H. injection H as H. revert H. unfold stamp_bits. destruct c as [[] [] [] [] [] [] [] []]; vm_compute; discriminate.
Qed.

Lemma NewGUID_length random : length random = 16 -> String.length (NewGUID random) = 16.
Proof. intros H. unfold NewGUID. by rewrite <- length_bytes, bytes_of_bytes, !length_alter. Qed.
