(* ===== verification/Digits.v ===== *)
(** Decimal digits: [strconv.Itoa] and [ParseInt], [time]'s padded fields, and
    the value of a run of digits. *)
From Stdlib Require Import Decimal DecimalFacts DecimalPos DecimalString.
From S2P Require Import Prelude GoStrings Values.
#[local] Open Scope Z_scope.

(** A sign, if any, and digits. *)
Definition read_int (text : string) : option Z :=
  let '(negative, digits) :=
    match bytes text with
    | c :: l => if Ascii.eqb c "-"%char then (true, l)
                else if Ascii.eqb c "+"%char then (false, l) else (false, c :: l)
    | [] => (false, [])
    end in
  if all_digits digits then Some (if negative then - digits_value digits else digits_value digits) else None.

(** [strconv.ParseInt(text, 10, 64)] *)
Definition ParseInt (text : string) : option Z :=
  z ← read_int text; if in_bounds KInt64 z then Some z else None.

(** [appendInt(x, width)] of package time *)
Definition append_int (x : Z) (width : nat) : list ascii :=
  let digits := bytes (Itoa (Z.abs x)) in
  (if x <? 0 then ["-"%char] else []) ++ replicate (width - length digits) "0"%char ++ digits.

(** The [n] low digits. *)
Definition digit (z : Z) : ascii := ascii_of_N (Z.to_N (z + 48)).
Fixpoint pad (n : nat) (z : Z) : list ascii :=
  match n with O => [] | S n => pad n (z / 10) ++ [digit (z mod 10)] end.

(** ** The value of a run of digits *)

Definition digits_from (acc : Z) (l : list ascii) : Z := fold_left (fun acc c => acc * 10 + digit_value c) l acc.

Lemma digits_from_app acc l k : digits_from acc (l ++ k) = digits_from (digits_from acc l) k.
Proof. apply fold_left_app. Qed.
Lemma digits_value_app l k : digits_value (l ++ k) = digits_from (digits_value l) k.
Proof. apply fold_left_app. Qed.

Lemma digit_value_range c : is_digit c = true -> 0 <= digit_value c <= 9.
Proof. unfold is_digit, in_range, digit_value. rewrite andb_true_iff, !N.leb_le. lia. Qed.
Lemma digit_value_inj c d : digit_value c = digit_value d -> c = d.
Proof.
  unfold digit_value, ord. intros H. rewrite <- (ascii_N_embedding c), <- (ascii_N_embedding d). f_equal. lia.
Qed.
Lemma digit_digit z : 0 <= z <= 9 -> is_digit (digit z) = true /\ digit_value (digit z) = z.
Proof.
  intros Hz. unfold is_digit, in_range, digit_value, digit, ord. rewrite N_ascii_embedding by lia.
  rewrite andb_true_iff, !N.leb_le. lia.
Qed.

Lemma digits_from_range l acc : 0 <= acc -> Forall (fun c => is_digit c = true) l ->
  acc * 10 ^ Z.of_nat (length l) <= digits_from acc l < (acc + 1) * 10 ^ Z.of_nat (length l).
Proof.
  intros Ha Hl. revert acc Ha. induction Hl as [|c l Hc _ IH]; intros acc Ha; [cbn; lia|].
  pose proof (digit_value_range c Hc). change (digits_from acc (c :: l)) with (digits_from (acc * 10 + digit_value c) l).
  specialize (IH (acc * 10 + digit_value c) ltac:(lia)). cbn [length]. rewrite Nat2Z.inj_succ, Z.pow_succ_r by lia. nia.
Qed.

Lemma length_pad n z : length (pad n z) = n.
Proof. revert z. induction n as [|n IH]; intros z; cbn; [done|]. rewrite length_app, IH. cbn. lia. Qed.

Lemma pad_digits n z : Forall (fun c => is_digit c = true) (pad n z).
Proof.
  revert z. induction n as [|n IH]; intros z; cbn; [constructor|]. apply Forall_app. split; [done|].
  pose proof (Z.mod_pos_bound z 10 ltac:(lia)). constructor; [|constructor]. apply digit_digit. lia.
Qed.

Lemma pad_value n z : 0 <= z < 10 ^ Z.of_nat n -> digits_value (pad n z) = z.
Proof.
  revert z. induction n as [|n IH]; intros z Hz; [cbn in *; lia|].
  rewrite Nat2Z.inj_succ, Z.pow_succ_r in Hz by lia. cbn [pad]. rewrite digits_value_app.
  pose proof (Z.div_mod z 10 ltac:(lia)). pose proof (Z.mod_pos_bound z 10 ltac:(lia)). rewrite IH by lia.
  unfold digits_from. cbn [fold_left]. rewrite (proj2 (digit_digit (z mod 10) ltac:(lia))). lia.
Qed.

(** A run of [n] digits is the padding of its value. *)
Lemma pad_unique l : Forall (fun c => is_digit c = true) l -> l = pad (length l) (digits_value l).
Proof.
  induction l as [|c l IH] using rev_ind; [done|]. rewrite Forall_app, Forall_singleton. intros [Hl Hc].
  rewrite length_app. cbn [length]. rewrite Nat.add_1_r. cbn [pad]. rewrite digits_value_app.
  unfold digits_from. cbn [fold_left]. pose proof (digit_value_range c Hc).
  rewrite Z.div_add_l, (Z.div_small (digit_value c)), Z.add_0_r by lia.
  rewrite Z.add_comm, Z.mod_add, Z.mod_small by lia. rewrite <- IH by done. f_equal. f_equal.
  apply digit_value_inj. symmetry. apply digit_digit. lia.
Qed.

Lemma pad_take k n z : (k <= n)%nat -> take k (pad n z) = pad k (z / 10 ^ Z.of_nat (n - k)).
Proof.
  intros Hk. revert z. induction n as [|n IH]; intros z; [by replace k with 0%nat by lia|].
  destruct (decide (k = S n)) as [->|Hne].
  - rewrite Nat.sub_diag, Z.div_1_r. apply take_ge. by rewrite length_pad.
  - cbn [pad]. rewrite take_app_le by (rewrite length_pad; lia). rewrite IH by lia.
    replace (Z.of_nat (S n - k)) with (1 + Z.of_nat (n - k)) by lia. rewrite Z.pow_add_r by lia.
    by rewrite Z.div_div by lia.
Qed.

(** ** [Itoa] writes the digits, without a leading zero *)

Lemma uint_digits u p :
  digits_from (Zpos p) (bytes (NilEmpty.string_of_uint u)) = Zpos (Pos.of_uint_acc u p).
Proof.
  revert p. induction u as [|u IH|u IH|u IH|u IH|u IH|u IH|u IH|u IH|u IH|u IH]; intros p; [done|..];
    unfold digits_from in *; cbn [NilEmpty.string_of_uint bytes fold_left Pos.of_uint_acc]; rewrite <- IH; f_equal;
    match goal with |- context [digit_value ?c] =>
      let v := eval vm_compute in (digit_value c) in change (digit_value c) with v end; lia.
Qed.

Lemma positive_digits p :
  digits_value (bytes (NilZero.string_of_uint (Pos.to_uint p))) = Zpos p /\
  exists c l, bytes (NilZero.string_of_uint (Pos.to_uint p)) = c :: l /\ 1 <= digit_value c.
Proof.
  pose proof (DecimalPos.Unsigned.of_to p) as H.
  assert (Hhead : forall u, Pos.to_uint p <> D0 u).
  { intros u E. pose proof (DecimalPos.Unsigned.to_of (Pos.to_uint p)) as Hn. rewrite H in Hn. cbn in Hn.
    rewrite E in Hn. unfold unorm in Hn. destruct (nzhead (D0 u)) eqn:Ez; try done.
    - apply (DecimalPos.Unsigned.to_uint_nonzero p). by rewrite E, Hn.
    - by apply nzhead_nonzero in Ez. }
  destruct (Pos.to_uint p) as [|u|u|u|u|u|u|u|u|u|u]; [done|by destruct (Hhead u)|..];
    cbn [Pos.of_uint NilZero.string_of_uint NilEmpty.string_of_uint bytes] in H |- *; injection H as H;
    (split; [|by eexists _, _; split; [reflexivity|]]);
    match goal with |- digits_value (?c :: ?l) = _ => change (digits_from (digit_value c) l = Zpos p) end;
    rewrite <- H; apply uint_digits.
Qed.

Lemma Itoa_value z : 0 <= z -> digits_value (bytes (Itoa z)) = z.
Proof. intros Hz. unfold Itoa. destruct z as [|p|p]; [done| |lia]. apply positive_digits. Qed.

Lemma Itoa_length z n : 0 <= z < 10 ^ Z.of_nat n -> (0 < n)%nat -> (length (bytes (Itoa z)) <= n)%nat.
Proof.
  intros Hz Hn. destruct z as [|p|p]; [cbn; lia| |lia].
  destruct (positive_digits p) as [Hv (c & l & E & Hc)].
  change (Itoa (Z.pos p)) with (NilZero.string_of_uint (Pos.to_uint p)). rewrite E in Hv |- *.
  assert (Hd : Forall (fun c => is_digit c = true) (c :: l)) by (rewrite <- E; apply (Itoa_digits (Z.pos p)); lia).
  inversion Hd as [|? ? Hc' Hl']; subst.
  change (digits_value (c :: l)) with (digits_from (digit_value c) l) in Hv.
  pose proof (digits_from_range l (digit_value c) ltac:(lia) Hl') as [Hlow _]. rewrite Hv in Hlow. cbn [length].
  destruct (decide (S (length l) <= n)%nat) as [|Hgt]; [done|].
  assert (10 ^ Z.of_nat n <= 10 ^ Z.of_nat (length l)) by (apply Z.pow_le_mono_r; lia). nia.
Qed.

Lemma append_int_pad z n : 0 <= z < 10 ^ Z.of_nat n -> (0 < n)%nat -> append_int z n = pad n z.
Proof.
  intros Hz Hn. unfold append_int. rewrite Z.abs_eq by lia. destruct (Z.ltb_spec z 0); [lia|]. cbn [app].
  pose proof (Itoa_length z n Hz Hn) as Hl. set (l := bytes (Itoa z)) in *.
  set (zs := replicate (n - length l) "0"%char).
  assert (Hd : Forall (fun c => is_digit c = true) (zs ++ l)).
  { apply Forall_app. split; [by apply Forall_replicate|apply Itoa_digits; lia]. }
  rewrite (pad_unique _ Hd). f_equal.
  - subst zs. rewrite length_app, length_replicate. lia.
  - rewrite digits_value_app. replace (digits_value zs) with 0.
    + by apply Itoa_value.
    + subst zs. clear Hd. by induction (n - length l)%nat as [|k IH].
Qed.

Lemma all_digits_spec l : all_digits l = true <-> l <> [] /\ Forall (fun c => is_digit c = true) l.
Proof.
  unfold all_digits. destruct l as [|c l]; [by split; [|intros []]|]. rewrite forallb_forall, Forall_forall.
  split; [intros H; split; [done|]; intros x Hx; by apply H, list_elem_of_In|].
  intros [_ H] x Hx. by apply H, list_elem_of_In.
Qed.
Lemma Itoa_all_digits z : 0 <= z -> all_digits (bytes (Itoa z)) = true.
Proof. intros Hz. apply all_digits_spec. split; [apply Itoa_nonempty|by apply Itoa_digits]. Qed.
Lemma Itoa_negative p : bytes (Itoa (Zneg p)) = "-"%char :: bytes (Itoa (Zpos p)).
Proof. done. Qed.

Lemma read_int_Itoa z : read_int (Itoa z) = Some z.
Proof.
  unfold read_int. destruct z as [|p|p]; [reflexivity| |].
  - pose proof (Itoa_all_digits (Zpos p) ltac:(lia)) as Hd. pose proof (Itoa_value (Zpos p) ltac:(lia)) as Hv.
    assert (Hc : exists c l, bytes (Itoa (Zpos p)) = c :: l /\ is_digit c = true).
    { apply all_digits_spec in Hd as [Hne Hd]. destruct (bytes (Itoa (Zpos p))) as [|c l]; [done|].
      apply Forall_cons_1 in Hd as [Hc _]. by exists c, l. }
    destruct Hc as (c & l & E & Hc). rewrite E in Hd, Hv |- *.
    destruct (Ascii.eqb_spec c "-"%char) as [->|]; [done|]. destruct (Ascii.eqb_spec c "+"%char) as [->|]; [done|].
    by rewrite Hd, Hv.
  - rewrite Itoa_negative. cbn [Ascii.eqb Bool.eqb]. by rewrite (Itoa_all_digits (Zpos p)), (Itoa_value (Zpos p)) by lia.
Qed.
