(* ===== verification/Calendar.v ===== *)
(** The proleptic Gregorian calendar of Go's [time] package: days counted from
    0001-01-01, and the civil date of a day. *)
From S2P Require Import Prelude.
#[local] Open Scope Z_scope.

Definition days_before_year (y : Z) : Z :=
  let p := y - 1 in 365 * p + p / 4 - p / 100 + p / 400.

Definition is_leap (y : Z) : bool := (y mod 4 =? 0) && (negb (y mod 100 =? 0) || (y mod 400 =? 0)).

(** A year is 146097 / 400 days on average: off by one at most. *)
Definition year_of_day (n : Z) : Z :=
  let y := n * 400 / 146097 + 1 in
  if n <? days_before_year y then y - 1 else if days_before_year (y + 1) <=? n then y + 1 else y.

Definition month_lengths (y : Z) : list Z :=
  [31; if is_leap y then 29 else 28; 31; 30; 31; 30; 31; 31; 30; 31; 30; 31].
Definition days_in (y m : Z) : Z := default 0 (month_lengths y !! Z.to_nat (m - 1)).

(** The month and day of day [d] (from 0) of the months left, [m] the first. *)
Fixpoint month_of (lengths : list Z) (m d : Z) : Z * Z :=
  match lengths with
  | [] => (m, d + 1)
  | l :: ls => if d <? l then (m, d + 1) else month_of ls (m + 1) (d - l)
  end.

Definition year_month_day (n : Z) : Z * Z * Z :=
  let y := year_of_day n in
  let '(m, d) := month_of (month_lengths y) 1 (n - days_before_year y) in (y, m, d).

Definition days_before_month (y m : Z) : Z := foldr Z.add 0 (take (Z.to_nat (m - 1)) (month_lengths y)).
Definition day_number (y m d : Z) : Z := days_before_year y + days_before_month y m + d - 1.

Definition valid_date (y m d : Z) : bool := (1 <=? m) && (m <=? 12) && (1 <=? d) && (d <=? days_in y m).

(** ** The date of a day is the only one that counts to it *)

Lemma div_step k y : 0 < k -> y / k - (y - 1) / k = if y mod k =? 0 then 1 else 0.
Proof.
  intros Hk. assert (H : (y - 1) / k = if y mod k =? 0 then y / k - 1 else y / k).
  { pose proof (Z.div_mod y k ltac:(lia)) as E. pose proof (Z.mod_pos_bound y k Hk).
    destruct (Z.eqb_spec (y mod k) 0).
    - symmetry. apply (Z.div_unique _ _ _ (k - 1)); nia.
    - symmetry. apply (Z.div_unique _ _ _ (y mod k - 1)); nia. }
  rewrite H. destruct (y mod k =? 0); lia.
Qed.
Lemma mod_divides k j y : 0 < k -> 0 < j -> y mod (k * j) = 0 -> y mod k = 0.
Proof.
  intros Hk Hj H. apply Z.mod_divide in H as [c ->]; [|lia]. apply Z.mod_divide; [lia|]. exists (c * j). lia.
Qed.

Lemma days_in_year y : days_before_year (y + 1) = days_before_year y + 365 + if is_leap y then 1 else 0.
Proof.
  unfold days_before_year, is_leap. cbn zeta. rewrite Z.add_simpl_r.
  pose proof (div_step 4 y ltac:(lia)). pose proof (div_step 100 y ltac:(lia)). pose proof (div_step 400 y ltac:(lia)).
  pose proof (mod_divides 4 25 y ltac:(lia) ltac:(lia)). pose proof (mod_divides 100 4 y ltac:(lia) ltac:(lia)).
  destruct (Z.eqb_spec (y mod 4) 0), (Z.eqb_spec (y mod 100) 0), (Z.eqb_spec (y mod 400) 0); cbn [andb orb negb];
    try lia; exfalso; auto.
Qed.

Lemma days_before_year_bounds y :
  146097 * (y - 1) - 699 <= 400 * days_before_year y <= 146097 * (y - 1) + 396.
Proof.
  unfold days_before_year. cbn zeta. set (p := y - 1).
  pose proof (Z.div_mod p 4 ltac:(lia)). pose proof (Z.mod_pos_bound p 4 ltac:(lia)).
  pose proof (Z.div_mod p 100 ltac:(lia)). pose proof (Z.mod_pos_bound p 100 ltac:(lia)).
  pose proof (Z.div_mod p 400 ltac:(lia)). pose proof (Z.mod_pos_bound p 400 ltac:(lia)). lia.
Qed.

Lemma year_of_day_spec n : days_before_year (year_of_day n) <= n < days_before_year (year_of_day n + 1).
Proof.
  unfold year_of_day. cbn zeta. remember (n * 400 / 146097 + 1) as y eqn:Hy.
  assert (H : days_before_year (y - 1) <= n < days_before_year (y + 2)).
  { pose proof (days_before_year_bounds (y - 1)). pose proof (days_before_year_bounds (y + 2)).
    pose proof (Z.div_mod (n * 400) 146097 ltac:(lia)). pose proof (Z.mod_pos_bound (n * 400) 146097 ltac:(lia)). lia. }
  destruct (Z.ltb_spec n (days_before_year y)); [rewrite Z.sub_add; lia|].
  destruct (Z.leb_spec (days_before_year (y + 1)) n); [|lia].
  replace (y + 1 + 1) with (y + 2) by lia. lia.
Qed.

Lemma days_before_year_mono y y' : y <= y' -> days_before_year y <= days_before_year y'.
Proof.
  intros H. replace y' with (y + Z.of_nat (Z.to_nat (y' - y))) by lia.
  induction (Z.to_nat (y' - y)) as [|k IH]; [by rewrite Z.add_0_r|].
  rewrite Nat2Z.inj_succ, <- Z.add_1_r, Z.add_assoc, days_in_year. destruct (is_leap _); lia.
Qed.

Lemma month_of_spec ls m d : 0 <= d < foldr Z.add 0 ls ->
  exists k, (month_of ls m d).1 = m + Z.of_nat k /\ (k < length ls)%nat /\
    1 <= (month_of ls m d).2 <= default 0 (ls !! k) /\
    d = foldr Z.add 0 (take k ls) + (month_of ls m d).2 - 1.
Proof.
  revert m d. induction ls as [|l ls IH]; intros m d Hd; cbn [foldr month_of] in Hd |- *; [lia|].
  destruct (Z.ltb_spec d l).
  - exists 0%nat. cbn [fst snd length lookup list_lookup default id take foldr]. lia.
  - destruct (IH (m + 1) (d - l)) as (k & H1 & H2 & H3 & H4); [lia|]. exists (S k).
    change ((l :: ls) !! S k) with (ls !! k). cbn [length take foldr]. lia.
Qed.

Lemma year_length y : foldr Z.add 0 (month_lengths y) = days_before_year (y + 1) - days_before_year y.
Proof. rewrite days_in_year. unfold month_lengths. destruct (is_leap y); cbn [foldr]; lia. Qed.

Lemma year_month_day_spec n :
  let '(y, m, d) := year_month_day n in y = year_of_day n /\ valid_date y m d = true /\ day_number y m d = n.
Proof.
  unfold year_month_day. cbn zeta. set (y := year_of_day n).
  destruct (month_of_spec (month_lengths y) 1 (n - days_before_year y)) as (k & H1 & H2 & H3 & H4).
  { rewrite year_length. pose proof (year_of_day_spec n). fold y in H. lia. }
  destruct (month_of _ _ _) as [m d]. cbn [fst snd] in *. change (length (month_lengths y)) with 12%nat in H2.
  split; [done|]. unfold valid_date, day_number, days_in, days_before_month.
  assert (Hk : Z.to_nat (m - 1) = k) by lia. rewrite Hk. rewrite !andb_true_iff, !Z.leb_le. lia.
Qed.

(** Two valid dates of one day are the same. *)
Lemma take_sum_mono ls i j : Forall (fun l => 0 <= l) ls -> (i <= j)%nat ->
  foldr Z.add 0 (take i ls) <= foldr Z.add 0 (take j ls).
Proof.
  intros Hls. revert i j. induction Hls as [|l ls Hl Hls IH]; intros i j Hij; [by rewrite !take_nil|].
  destruct i as [|i], j as [|j]; cbn [take foldr]; cbn beta in Hl; try lia.
  - specialize (IH 0%nat j). change (take 0 ls) with (@nil Z) in IH. cbn [foldr] in IH. lia.
  - specialize (IH i j). lia.
Qed.
Lemma take_sum_S ls i : foldr Z.add 0 (take (S i) ls) = foldr Z.add 0 (take i ls) + default 0 (ls !! i).
Proof.
  revert i. induction ls as [|l ls IH]; intros i; [by destruct i|]. destruct i as [|i].
  - cbn [take foldr lookup list_lookup default id]. rewrite ?take_0. cbn [foldr]. lia.
  - change ((l :: ls) !! S i) with (ls !! i). specialize (IH i). cbn [take foldr] in IH |- *. lia.
Qed.
Lemma month_lengths_pos y : Forall (fun l => 0 <= l) (month_lengths y).
Proof. unfold month_lengths. destruct (is_leap y); repeat constructor; lia. Qed.

Lemma valid_in_year y m d : valid_date y m d = true ->
  days_before_year y <= day_number y m d < days_before_year (y + 1).
Proof.
  unfold valid_date, day_number, days_before_month, days_in. rewrite !andb_true_iff, !Z.leb_le. intros [[[H1 H2] H3] H4].
  pose proof (take_sum_mono (month_lengths y) 0 (Z.to_nat (m - 1)) (month_lengths_pos y) ltac:(lia)) as Ha.
  pose proof (take_sum_mono _ (S (Z.to_nat (m - 1))) 12 (month_lengths_pos y) ltac:(lia)) as Hb.
  rewrite take_sum_S in Hb. change (take 12 (month_lengths y)) with (month_lengths y) in Hb.
  rewrite year_length in Hb. cbn in Ha. lia.
Qed.

Lemma same_day y m d y' m' d' :
  valid_date y m d = true -> valid_date y' m' d' = true -> day_number y m d = day_number y' m' d' ->
  (y, m, d) = (y', m', d').
Proof.
  intros H H' E. pose proof (valid_in_year _ _ _ H) as Hy. pose proof (valid_in_year _ _ _ H') as Hy'.
  assert (y = y') as <-.
  { destruct (Z.lt_trichotomy y y') as [Hlt|[|Hlt]]; [|done|];
      [pose proof (days_before_year_mono (y + 1) y')|pose proof (days_before_year_mono (y' + 1) y)]; lia. }
  unfold valid_date, day_number, days_before_month, days_in in *. rewrite !andb_true_iff, !Z.leb_le in H, H'.
  assert (Hm : forall i j, (i < j)%nat -> foldr Z.add 0 (take i (month_lengths y)) + default 0 (month_lengths y !! i)
    <= foldr Z.add 0 (take j (month_lengths y))).
  { intros i j Hij. rewrite <- take_sum_S. by apply take_sum_mono; [apply month_lengths_pos|lia]. }
  assert (m = m') as <-.
  { destruct (Z.lt_trichotomy m m') as [Hlt|[|Hlt]]; [|done|];
      [pose proof (Hm (Z.to_nat (m - 1)) (Z.to_nat (m' - 1)))|pose proof (Hm (Z.to_nat (m' - 1)) (Z.to_nat (m - 1)))]; lia. }
  f_equal. lia.
Qed.

Lemma year_month_day_number y m d : valid_date y m d = true -> year_month_day (day_number y m d) = (y, m, d).
Proof.
  intros H. pose proof (year_month_day_spec (day_number y m d)) as Hs.
  destruct (year_month_day _) as [[y' m'] d']. destruct Hs as (_ & Hv & E). by apply same_day.
Qed.
