(* ===== verification/Temporal.v ===== *)
(** The stored spellings of time values (internal/core/iso8601.go) over what
    Go's [time] package formats and parses for the layouts used there.

    A [time.Time] is its nanoseconds since 1970 and its zone's offset in
    seconds, as in [Values]. *)
From S2P Require Import Prelude GoStrings Values Placeholders Digits Calendar.
#[local] Open Scope Z_scope.

Definition Time : Type := Z * Z.
Definition nanos_in_second : Z := 10 ^ 9.
Definition nanos_in_day : Z := 86400 * nanos_in_second.
Definition epoch_day : Z := 719162.

Definition UTC (t : Time) : Time := (t.1, 0).

(** ** The civil reading of an instant in its zone *)

Definition local_nanos (t : Time) : Z := t.1 + t.2 * nanos_in_second.
Definition civil_date (t : Time) : Z * Z * Z := year_month_day (local_nanos t / nanos_in_day + epoch_day).
Definition nanos_of_day (t : Time) : Z := local_nanos t mod nanos_in_day.

(** [time.Date]: of a civil date, nanoseconds in the day and an offset. *)
Definition time_of (y m d nanos offset : Z) : Time :=
  ((day_number y m d - epoch_day) * nanos_in_day + nanos - offset * nanos_in_second, offset).

(** ** Formatting *)

Definition format_date (t : Time) : list ascii :=
  let '(y, m, d) := civil_date t in
  append_int y 4 ++ ["-"%char] ++ append_int m 2 ++ ["-"%char] ++ append_int d 2.

(** [15:04:05.0000000]: the fraction is cut to seven digits. *)
Definition format_clock (t : Time) : list ascii :=
  let n := nanos_of_day t in
  let seconds := n / nanos_in_second in
  append_int (seconds / 3600) 2 ++ [":"%char] ++ append_int (seconds / 60 mod 60) 2 ++ [":"%char] ++
  append_int (seconds mod 60) 2 ++ ["."%char] ++ take 7 (append_int (n mod nanos_in_second) 9).

(** [-07:00]: the offset in whole minutes, toward zero. *)
Definition format_offset (offset : Z) : list ascii :=
  let minutes := Z.quot offset 60 in
  (if minutes <? 0 then "-"%char else "+"%char) ::
  append_int (Z.abs minutes / 60) 2 ++ [":"%char] ++ append_int (Z.abs minutes mod 60) 2.

Definition FormatUTC (t : Time) : string :=
  of_bytes (format_date (UTC t) ++ ["T"%char] ++ format_clock (UTC t) ++ ["Z"%char]).
Definition FormatOffset (t : Time) : string :=
  of_bytes (format_date t ++ ["T"%char] ++ format_clock t ++ format_offset t.2).
Definition FormatDate (t : Time) : string := of_bytes (format_date t).
Definition FormatTime (t : Time) : string := of_bytes (format_clock t).

(** ** Parsing *)

Definition reader (A : Type) : Type := list ascii -> option (A * list ascii).

Definition expect (c : ascii) : list ascii -> option (list ascii) := fun l =>
  match l with a :: l' => if Ascii.eqb a c then Some l' else None | [] => None end.

(** [getnum(value, fixed)] *)
Definition getnum (fixed : bool) : reader Z := fun l =>
  match l with
  | a :: l1 =>
      if is_digit a then
        match l1 with
        | b :: l2 => if is_digit b then Some (digits_value [a; b], l2)
                     else if fixed then None else Some (digit_value a, l1)
        | [] => if fixed then None else Some (digit_value a, [])
        end
      else None
  | [] => None
  end.

Definition read_bounded (lo hi : Z) (r : reader Z) : reader Z := fun l =>
  p ← r l; if (lo <=? p.1) && (p.1 <=? hi) then Some p else None.

(** [2006] *)
Definition read_year : reader Z := fun l =>
  if (length (take 4 l) =? 4)%nat && forallb is_digit (take 4 l) then Some (digits_value (take 4 l), drop 4 l) else None.

(** A fraction of a second: a point or a comma and digits, of which nine
    count; none at all is zero. *)
Definition read_fraction : reader Z := fun l =>
  match l with
  | p :: d :: l' =>
      if (Ascii.eqb p "."%char || Ascii.eqb p ","%char) && is_digit d then
        let ds := take_while is_digit (d :: l') in
        Some (digits_value (take 9 ds) * 10 ^ (9 - Z.of_nat (length (take 9 ds))), drop (length ds) (d :: l'))
      else Some (0, l)
  | _ => Some (0, l)
  end.

(** [2006-01-02]: the day is checked against the month. *)
Definition read_date : reader (Z * Z * Z) := fun l =>
  y ← read_year l;
  l ← expect "-"%char y.2;
  m ← read_bounded 1 12 (getnum true) l;
  l ← expect "-"%char m.2;
  d ← getnum true l;
  if valid_date y.1 m.1 d.1 then Some ((y.1, m.1, d.1), d.2) else None.

Definition read_hour_minute : reader Z := fun l =>
  h ← read_bounded 0 23 (getnum false) l;
  l ← expect ":"%char h.2;
  m ← read_bounded 0 59 (getnum true) l;
  Some (h.1 * 60 + m.1, m.2).

(** [15:04:05.999999999], in nanoseconds; a seconds field takes a fraction even
    where the layout has none. *)
Definition read_clock : reader Z := fun l =>
  hm ← read_hour_minute l;
  l ← expect ":"%char hm.2;
  s ← read_bounded 0 59 (getnum true) l;
  f ← read_fraction s.2;
  Some ((hm.1 * 60 + s.1) * nanos_in_second + f.1, f.2).

(** [Z07:00], in seconds *)
Definition read_zone : reader Z := fun l =>
  match l with
  | sign :: l' =>
      if Ascii.eqb sign "Z"%char then Some (0, l')
      else
        h ← read_bounded 0 24 (getnum true) l';
        l ← expect ":"%char h.2;
        m ← read_bounded 0 60 (getnum true) l;
        if Ascii.eqb sign "+"%char then Some ((h.1 * 60 + m.1) * 60, m.2)
        else if Ascii.eqb sign "-"%char then Some (- ((h.1 * 60 + m.1) * 60), m.2)
        else None
  | [] => None
  end.

(** [time.Parse(time.RFC3339Nano, text)] *)
Definition parse_rfc3339 (l : list ascii) : option Time :=
  date ← read_date l;
  l ← expect "T"%char date.2;
  clock ← read_clock l;
  zone ← read_zone clock.2;
  match zone.2 with
  | [] => let '(y, m, d) := date.1 in Some (time_of y m d clock.1 zone.1)
  | _ => None
  end.

(** ** The stored forms *)

(** [[+-][0-9]{2}:[0-9]{2}$] *)
Definition offsetSuffix (l : list ascii) : bool :=
  match rev l with
  | m2 :: m1 :: colon :: h2 :: h1 :: sign :: _ =>
      forallb is_digit [h1; h2; m1; m2] && Ascii.eqb colon ":"%char &&
      (Ascii.eqb sign "+"%char || Ascii.eqb sign "-"%char)
  | _ => false
  end.

(** [strings.TrimRight(text, " \t\r\n")] *)
Definition trailing_space (c : ascii) : bool := (ord c =? 32)%N || (ord c =? 9)%N || (ord c =? 13)%N || (ord c =? 10)%N.

Definition HasUTCMarker (text : string) : bool :=
  let trimmed := bytes (TrimRight text trailing_space) in
  match rev trimmed with
  | c :: _ => Ascii.eqb c "Z"%char || Ascii.eqb c "z"%char || offsetSuffix trimmed
  | [] => false
  end.

(** A space in place of the [T] is accepted. *)
Definition with_separator (l : list ascii) : list ascii :=
  match drop 10 l with
  | c :: rest => if Ascii.eqb c " "%char then take 10 l ++ "T"%char :: rest else l
  | [] => l
  end.

Definition ParseOffset (text context : string) : result Time :=
  let trimmed := TrimSpace text in
  if negb (HasUTCMarker trimmed) then Fail (NewError "VAL-020" context)
  else match parse_rfc3339 (with_separator (bytes trimmed)) with
       | Some parsed => Ok parsed
       | None => Fail (NewError "MAP-031" context)
       end.

Definition ParseMarked (text context : string) : result Time :=
  let* parsed := ParseOffset text context in Ok (UTC parsed).

Definition ParseDate (text context : string) : result Time :=
  match read_date (take 10 (bytes (TrimSpace text))) with
  | Some ((y, m, d), []) => Ok (time_of y m d 0 0)
  | _ => Fail (NewError "MAP-031" context)
  end.

(** A time alone is on the first day of year 0. *)
Definition clock_time (nanos : Z) : Time := time_of 0 1 1 nanos 0.
Definition ParseTime (text context : string) : result Time :=
  let l := bytes (TrimSpace text) in
  match read_clock l, read_hour_minute l with
  | Some (nanos, []), _ => Ok (clock_time nanos)
  | _, Some (minutes, []) => Ok (clock_time (minutes * 60 * nanos_in_second))
  | _, _ => Fail (NewError "MAP-031" context)
  end.

Example epoch_text : FormatUTC (0, 3600) = "1970-01-01T00:00:00.0000000Z".
Proof. reflexivity. Qed.
Example offset_text : FormatOffset (1709210096123456789, -5400) = "2024-02-29T11:04:56.1234567-01:30".
Proof. reflexivity. Qed.
Example offset_read : ParseOffset " 2024-02-29 11:04:56,1234567891-01:30 " "" = Ok (1709210096123456789, -5400).
Proof. reflexivity. Qed.
Example time_read : ParseTime "9:05" "" = Ok (clock_time ((9 * 60 + 5) * 60 * nanos_in_second)).
Proof. reflexivity. Qed.


(** ** What is written reads back *)

Lemma pad_2 z : 0 <= z < 100 -> exists a b, pad 2 z = [a; b] /\ is_digit a = true /\ is_digit b = true /\ digits_value [a; b] = z.
Proof.
  intros Hz. pose proof (pad_digits 2 z) as Hd. pose proof (pad_value 2 z Hz) as Hv. pose proof (length_pad 2 z) as Hl.
  destruct (pad 2 z) as [|a [|b [|]]]; try discriminate. apply Forall_cons_1 in Hd as [Ha Hb].
  apply Forall_cons_1 in Hb as [Hb _]. by eexists _, _.
Qed.

Lemma getnum_pad fixed z r : 0 <= z < 100 -> getnum fixed (pad 2 z ++ r) = Some (z, r).
Proof.
  intros Hz. destruct (pad_2 z Hz) as (a & b & -> & Ha & Hb & Hv). cbn [app getnum]. by rewrite Ha, Hb, Hv.
Qed.

Lemma read_bounded_pad lo hi fixed z r : 0 <= z < 100 -> lo <= z <= hi ->
  read_bounded lo hi (getnum fixed) (pad 2 z ++ r) = Some (z, r).
Proof.
  intros Hz Hb. unfold read_bounded. rewrite getnum_pad by done. cbn.
  by rewrite (proj2 (Z.leb_le lo z)), (proj2 (Z.leb_le z hi)) by lia.
Qed.

Lemma read_year_pad z r : 0 <= z < 10000 -> read_year (pad 4 z ++ r) = Some (z, r).
Proof.
  intros Hz. unfold read_year. pose proof (length_pad 4 z) as Hl. pose proof (pad_digits 4 z) as Hd.
  rewrite take_app_length', drop_app_length' by done. rewrite Hl. cbn [Nat.eqb andb].
  rewrite (proj2 (forallb_forall _ _)), pad_value; [done|lia|].
  intros c Hc%list_elem_of_In. by apply (proj1 (Forall_forall _ _) Hd).
Qed.

Lemma read_fraction_pad z r : 0 <= z < 10 ^ 7 -> Forall (fun c => is_digit c = false) (take 1 r) ->
  read_fraction ("."%char :: pad 7 z ++ r) = Some (z * 100, r).
Proof.
  intros Hz Hr. pose proof (pad_digits 7 z) as Hd. pose proof (length_pad 7 z) as Hl.
  pose proof (pad_value 7 z Hz) as Hv. pose proof (take_while_all is_digit _ r Hd Hr) as Ht.
  unfold read_fraction. destruct (pad 7 z) as [|d ds]; [done|]. cbn [app].
  apply Forall_cons_1 in Hd as [Hdd _]. rewrite Hdd. cbn [Ascii.eqb orb andb].
  change (d :: ds ++ r) with ((d :: ds) ++ r). rewrite Ht. cbn zeta.
  rewrite drop_app_length, (take_ge (d :: ds)) by (rewrite Hl; lia). rewrite Hl, Hv. done.
Qed.

Lemma expect_same c r : expect c (c :: r) = Some r.
Proof. cbn. by rewrite Ascii.eqb_refl. Qed.

(** One step of a reader: the literal, then the next field. *)
Ltac field lemma := cbn [mbind option_bind app fst snd]; rewrite ?expect_same;
  cbn [mbind option_bind app fst snd]; rewrite lemma by lia.

Definition year_of (t : Time) : Z := (civil_date t).1.1.
Definition ordinary (t : Time) : Prop := 0 <= year_of t <= 9999.

Lemma civil_date_valid t : valid_date (civil_date t).1.1 (civil_date t).1.2 (civil_date t).2 = true.
Proof.
  unfold civil_date. pose proof (year_month_day_spec (local_nanos t / nanos_in_day + epoch_day)) as H.
  destruct (year_month_day _) as [[y m] d]. apply H.
Qed.

Lemma valid_date_bounds y m d : valid_date y m d = true -> 1 <= m <= 12 /\ 1 <= d < 100.
Proof.
  unfold valid_date. rewrite !andb_true_iff, !Z.leb_le. intros [[[H1 H2] H3] H4]. split; [lia|].
  assert (days_in y m <= 31); [|lia]. unfold days_in, month_lengths.
  destruct (Z.to_nat (m - 1)) as [|[|[|[|[|[|[|[|[|[|[|[|k]]]]]]]]]]]]; destruct (is_leap y); vm_compute; discriminate.
Qed.

Lemma format_date_pads t : ordinary t ->
  format_date t = pad 4 (civil_date t).1.1 ++ ["-"%char] ++ pad 2 (civil_date t).1.2 ++ ["-"%char] ++ pad 2 (civil_date t).2.
Proof.
  intros Ho. unfold ordinary, year_of in Ho. unfold format_date. pose proof (civil_date_valid t) as Hv.
  destruct (civil_date t) as [[y m] d]. cbn [fst snd] in *. apply valid_date_bounds in Hv.
  by rewrite !append_int_pad by (cbn; lia).
Qed.

Lemma read_date_formatted t r : ordinary t -> read_date (format_date t ++ r) = Some (civil_date t, r).
Proof.
  intros Ho. rewrite format_date_pads by done. unfold ordinary, year_of in Ho. pose proof (civil_date_valid t) as Hv.
  destruct (civil_date t) as [[y m] d]. cbn [fst snd] in *. pose proof (valid_date_bounds _ _ _ Hv).
  unfold read_date. rewrite <- !app_assoc. field read_year_pad. field read_bounded_pad. field getnum_pad.
  cbn [mbind option_bind app fst snd]. by rewrite Hv.
Qed.

(** The clock is cut to 100 nanoseconds. *)
Definition truncated (t : Time) : Time := (t.1 / 100 * 100, t.2).

Lemma format_clock_pads t : exists h m s f, 0 <= h <= 23 /\ 0 <= m <= 59 /\ 0 <= s <= 59 /\ 0 <= f < 10 ^ 7 /\
  format_clock t = pad 2 h ++ [":"%char] ++ pad 2 m ++ [":"%char] ++ pad 2 s ++ ["."%char] ++ pad 7 f /\
  ((h * 60 + m) * 60 + s) * nanos_in_second + f * 100 = nanos_of_day t / 100 * 100.
Proof.
  unfold format_clock. set (n := nanos_of_day t). cbn zeta.
  assert (Hn : 0 <= n < nanos_in_day) by (by apply Z.mod_pos_bound).
  set (s := n / nanos_in_second). set (f := n mod nanos_in_second).
  assert (Hs : 0 <= s < 86400) by (subst s; split; [apply Z.div_pos|apply Z.div_lt_upper_bound]; unfold nanos_in_day in Hn; lia).
  assert (Hf : 0 <= f < nanos_in_second) by (by apply Z.mod_pos_bound).
  assert (E : n = s * nanos_in_second + f) by (rewrite Z.mul_comm; by apply Z.div_mod).
  assert (H1 : 0 <= s / 3600 <= 23) by (split; [apply Z.div_pos|assert (s / 3600 < 24) by (apply Z.div_lt_upper_bound; lia)]; lia).
  pose proof (Z.mod_pos_bound (s / 60) 60 ltac:(lia)). pose proof (Z.mod_pos_bound s 60 ltac:(lia)).
  rewrite !append_int_pad by (cbn; unfold nanos_in_second in *; lia).
  rewrite pad_take by lia. change (10 ^ Z.of_nat (9 - 7)) with 100.
  assert (Hg : 0 <= f / 100 < 10 ^ 7) by (split; [apply Z.div_pos|apply Z.div_lt_upper_bound]; unfold nanos_in_second in *; lia).
  exists (s / 3600), (s / 60 mod 60), (s mod 60), (f / 100). repeat (split; [lia || done|]).
  rewrite E. replace (s * nanos_in_second + f) with (f + s * 10 ^ 7 * 100) by (unfold nanos_in_second; lia).
  rewrite Z.div_add by lia. replace (s / 3600) with (s / 60 / 60) by (by rewrite Z.div_div by lia).
  pose proof (Z.div_mod (s / 60) 60 ltac:(lia)). pose proof (Z.div_mod s 60 ltac:(lia)). unfold nanos_in_second. lia.
Qed.

Lemma read_clock_formatted t r : Forall (fun c => is_digit c = false) (take 1 r) ->
  read_clock (format_clock t ++ r) = Some (nanos_of_day t / 100 * 100, r).
Proof.
  intros Hr. destruct (format_clock_pads t) as (h & m & s & f & Hh & Hm & Hs & Hf & -> & <-).
  unfold read_clock, read_hour_minute. rewrite <- !app_assoc.
  field read_bounded_pad. field read_bounded_pad. field read_bounded_pad.
  cbn [mbind option_bind app fst snd]. rewrite read_fraction_pad by done. done.
Qed.

Lemma format_offset_pads o : o mod 60 = 0 -> Z.abs o < 86400 -> exists sign h m, 0 <= h <= 23 /\ 0 <= m <= 59 /\
  format_offset o = sign :: pad 2 h ++ [":"%char] ++ pad 2 m /\
  (sign = "+"%char /\ o = (h * 60 + m) * 60 \/ sign = "-"%char /\ o = - ((h * 60 + m) * 60)).
Proof.
  intros Hm Ho. unfold format_offset. cbn zeta. apply Z.mod_divide in Hm as [k ->]; [|lia].
  rewrite Z.quot_mul by lia. pose proof (Z.mod_pos_bound (Z.abs k) 60 ltac:(lia)).
  pose proof (Z.div_mod (Z.abs k) 60 ltac:(lia)) as E.
  assert (H1 : 0 <= Z.abs k / 60 <= 23) by (split; [apply Z.div_pos|assert (Z.abs k / 60 < 24) by (apply Z.div_lt_upper_bound; lia)]; lia).
  rewrite !append_int_pad by (cbn; lia). eexists _, (Z.abs k / 60), (Z.abs k mod 60).
  split; [done|]. split; [lia|]. split; [done|]. destruct (Z.ltb_spec k 0); [right|left]; split; try done; lia.
Qed.

Lemma read_zone_formatted o : o mod 60 = 0 -> Z.abs o < 86400 -> read_zone (format_offset o) = Some (o, []).
Proof.
  intros Hm Ho. destruct (format_offset_pads o Hm Ho) as (sign & h & m & Hh & Hm' & -> & Hs).
  rewrite <- (app_nil_r (pad 2 m)). unfold read_zone.
  assert (Hz : Ascii.eqb sign "Z"%char = false) by (by destruct Hs as [[-> _]|[-> _]]).
  rewrite Hz. field read_bounded_pad. field read_bounded_pad. cbn [mbind option_bind fst snd].
  by destruct Hs as [[-> ->]|[-> ->]].
Qed.

(** ** The formatted texts *)

Lemma TrimSpace_free l : Forall (fun c => is_space c = false) l -> TrimSpace (of_bytes l) = of_bytes l.
Proof.
  intros Hl. unfold TrimSpace. rewrite bytes_of_bytes, (trim_left_solid l) by by apply Forall_take.
  rewrite trim_left_solid by (apply Forall_take, Forall_rev, Hl). by rewrite rev_involutive.
Qed.

Lemma digit_not_space c : is_digit c = true -> is_space c = false.
Proof. destruct c as [[] [] [] [] [] [] [] []]; vm_compute; congruence. Qed.
Lemma pad_no_space n z : Forall (fun c => is_space c = false) (pad n z).
Proof. eapply Forall_impl; [apply pad_digits|]. intros c. apply digit_not_space. Qed.

Ltac no_space := repeat (rewrite Forall_app || rewrite Forall_cons); split_and?; try apply pad_no_space; done.

Lemma format_date_no_space t : ordinary t -> Forall (fun c => is_space c = false) (format_date t).
Proof. intros Ho. rewrite format_date_pads by done. no_space. Qed.
Lemma format_clock_no_space t : Forall (fun c => is_space c = false) (format_clock t).
Proof. destruct (format_clock_pads t) as (h & m & s & f & _ & _ & _ & _ & -> & _). no_space. Qed.

Lemma with_separator_free l : Forall (fun c => is_space c = false) l -> with_separator l = l.
Proof.
  intros Hl. unfold with_separator. destruct (drop 10 l) as [|c r] eqn:E; [done|].
  assert (Hc : is_space c = false).
  { apply (Forall_drop _ 10) in Hl. rewrite E in Hl. by apply Forall_cons_1 in Hl as [Hc _]. }
  by destruct c as [[] [] [] [] [] [] [] []].
Qed.

Lemma TrimRight_last l c f : f c = false -> TrimRight (of_bytes (l ++ [c])) f = of_bytes (l ++ [c]).
Proof.
  intros Hc. unfold TrimRight. rewrite bytes_of_bytes, rev_app_distr. cbn. rewrite Hc.
  cbn. by rewrite rev_involutive.
Qed.

Lemma HasUTCMarker_Z l : HasUTCMarker (of_bytes (l ++ ["Z"%char])) = true.
Proof. unfold HasUTCMarker. rewrite TrimRight_last, bytes_of_bytes, rev_app_distr by done. done. Qed.

Lemma digit_not_trailing c : is_digit c = true -> trailing_space c = false.
Proof. destruct c as [[] [] [] [] [] [] [] []]; vm_compute; congruence. Qed.

Lemma HasUTCMarker_offset l o : o mod 60 = 0 -> Z.abs o < 86400 -> HasUTCMarker (of_bytes (l ++ format_offset o)) = true.
Proof.
  intros Hm Ho. destruct (format_offset_pads o Hm Ho) as (sign & h & m & Hh & Hm' & -> & Hs).
  destruct (pad_2 h ltac:(lia)) as (h1 & h2 & -> & Hh1 & Hh2 & _).
  destruct (pad_2 m ltac:(lia)) as (m1 & m2 & -> & Hm1 & Hm2 & _). unfold HasUTCMarker.
  replace (l ++ sign :: [h1; h2] ++ [":"%char] ++ [m1; m2]) with ((l ++ [sign; h1; h2; ":"%char; m1]) ++ [m2])
    by (by rewrite <- app_assoc).
  assert (Hrev : rev ((l ++ [sign; h1; h2; ":"%char; m1]) ++ [m2]) = m2 :: m1 :: ":"%char :: h2 :: h1 :: sign :: rev l)
    by (by rewrite !rev_app_distr).
  rewrite TrimRight_last, bytes_of_bytes by by apply digit_not_trailing. cbn zeta. unfold offsetSuffix. rewrite Hrev.
  rewrite orb_true_iff. right. cbn [forallb]. rewrite Hh1, Hh2, Hm1, Hm2. by destruct Hs as [[-> _]|[-> _]].
Qed.

Lemma time_of_civil t :
  let '(y, m, d) := civil_date t in time_of y m d (nanos_of_day t / 100 * 100) t.2 = truncated t.
Proof.
  unfold civil_date. pose proof (year_month_day_spec (local_nanos t / nanos_in_day + epoch_day)) as H.
  destruct (year_month_day _) as [[y m] d]. destruct H as (_ & _ & H). unfold time_of, truncated. f_equal. rewrite H.
  unfold nanos_of_day. set (n := local_nanos t). pose proof (Z.div_mod n nanos_in_day ltac:(done)) as E.
  set (q := n / nanos_in_day) in *. set (r := n mod nanos_in_day) in *.
  assert (Ht : t.1 = r + (q * (86400 * 10 ^ 7) - t.2 * 10 ^ 7) * 100).
  { unfold local_nanos in n. assert (t.1 = n - t.2 * nanos_in_second) by (subst n; lia).
    unfold nanos_in_day, nanos_in_second in *. lia. }
  rewrite Ht, Z.div_add by lia. unfold nanos_in_day, nanos_in_second. lia.
Qed.

(** What reads the text of a date and a clock, and then a zone. *)
Lemma parse_rfc3339_formatted t zone o :
  ordinary t -> Forall (fun c => is_digit c = false) (take 1 zone) -> read_zone zone = Some (o, []) -> o = t.2 ->
  parse_rfc3339 (format_date t ++ ["T"%char] ++ format_clock t ++ zone) = Some (truncated t).
Proof.
  intros Ho Hz Hr ->. unfold parse_rfc3339. rewrite read_date_formatted by done.
  cbn [mbind option_bind app fst snd]. rewrite expect_same. cbn [mbind option_bind app fst snd].
  rewrite read_clock_formatted by done. cbn [mbind option_bind app fst snd]. rewrite Hr. cbn [mbind option_bind fst snd].
  pose proof (time_of_civil t) as H. destruct (civil_date t) as [[y m] d]. by rewrite H.
Qed.

Lemma ParseOffset_text l context :
  Forall (fun c => is_space c = false) l -> HasUTCMarker (of_bytes l) = true ->
  ParseOffset (of_bytes l) context =
    match parse_rfc3339 l with Some parsed => Ok parsed | None => Fail (NewError "MAP-031" context) end.
Proof.
  intros Hl Hm. unfold ParseOffset. rewrite TrimSpace_free by done. by rewrite Hm, bytes_of_bytes, with_separator_free.
Qed.

(** A year of another length than four digits is written but not read. *)
Lemma year_digits y : y < 0 \/ 10000 <= y -> exists sign digits,
  append_int y 4 = (if y <? 0 then ["-"%char] else sign) ++ digits /\
  (0 <= y -> sign = [] /\ (4 < length digits)%nat) /\ Forall (fun c => is_digit c = true) digits.
Proof.
  intros Hy. unfold append_int. cbn zeta. set (l := bytes (Itoa (Z.abs y))).
  assert (Hl : Forall (fun c => is_digit c = true) l) by (apply Itoa_digits; lia).
  exists [], (replicate (4 - length l) "0"%char ++ l). split; [by destruct (y <? 0)|]. split.
  - intros Hp. split; [done|]. rewrite length_app, length_replicate.
    pose proof (digits_from_range l 0 ltac:(lia) Hl) as [_ Hu].
    change (digits_from 0 l) with (digits_value l) in Hu. subst l. rewrite Itoa_value, Z.abs_eq in Hu by lia.
    destruct (decide (length (bytes (Itoa y)) <= 4)%nat) as [Hle|]; [|rewrite Z.abs_eq; lia].
    assert (10 ^ Z.of_nat (length (bytes (Itoa y))) <= 10 ^ 4) by (apply Z.pow_le_mono_r; lia). lia.
  - apply Forall_app. split; [by apply Forall_replicate|done].
Qed.

Lemma digits_no_space l : Forall (fun c => is_digit c = true) l -> Forall (fun c => is_space c = false) l.
Proof. intros H. eapply Forall_impl; [exact H|]. intros c. apply digit_not_space. Qed.

Lemma format_date_unreadable t : ~ ordinary t ->
  Forall (fun c => is_space c = false) (format_date t) /\
  forall l, take 5 l = take 5 (format_date t) -> read_date l = None.
Proof.
  unfold ordinary, year_of, format_date. pose proof (civil_date_valid t) as Hv.
  destruct (civil_date t) as [[y m] d]. cbn [fst snd] in *. intros Ho. apply valid_date_bounds in Hv.
  destruct (year_digits y ltac:(lia)) as (sign & digits & -> & Hs & Hd). split.
  - rewrite !append_int_pad by (cbn; lia). rewrite !Forall_app. pose proof (digits_no_space _ Hd).
    split_and!; try apply pad_no_space; try done; [|by repeat constructor..].
    destruct (Z.ltb_spec y 0); [by repeat constructor|]. by destruct (Hs ltac:(lia)) as [-> _].
  - intros l Hl. unfold read_date, read_year. destruct (Z.ltb_spec y 0).
    + destruct l as [|c l]; [done|]. injection Hl as -> _. cbn. by rewrite andb_false_r.
    + destruct (Hs ltac:(lia)) as [-> Hlen]. destruct digits as [|a [|b [|c [|e [|g digits]]]]]; try (cbn in Hlen; lia).
      apply Forall_cons_1 in Hd as [Ha Hd]. apply Forall_cons_1 in Hd as [Hb Hd]. apply Forall_cons_1 in Hd as [Hc Hd].
      apply Forall_cons_1 in Hd as [He Hd]. apply Forall_cons_1 in Hd as [Hg Hd].
      destruct l as [|a' [|b' [|c' [|e' [|g' l]]]]]; try discriminate. injection Hl as -> -> -> -> ->.
      cbn [app take drop forallb length Nat.eqb andb]. rewrite Ha, Hb, Hc, He. cbn [andb mbind option_bind snd expect].
      destruct (Ascii.eqb_spec g "-"%char) as [->|]; [discriminate Hg|done].
Qed.

Lemma unreadable_prefix t r : ~ ordinary t -> read_date (format_date t ++ r) = None.
Proof.
  intros Ho. destruct (format_date_unreadable t Ho) as [_ H]. apply H. apply take_app_le.
  unfold format_date. destruct (civil_date t) as [[y m] d]. unfold append_int.
  rewrite !length_app, length_replicate. cbn. lia.
Qed.

Lemma stamp_no_space t zone : Forall (fun c => is_space c = false) zone ->
  Forall (fun c => is_space c = false) (format_date t ++ ["T"%char] ++ format_clock t ++ zone).
Proof.
  intros Hz. rewrite !Forall_app. split_and!; try done; [|by repeat constructor|apply format_clock_no_space].
  destruct (decide (ordinary t)); [by apply format_date_no_space|by apply format_date_unreadable].
Qed.

Lemma marked_reads_back t context :
  ParseMarked (FormatUTC t) context =
    if decide (ordinary (UTC t)) then Ok (UTC (truncated t)) else Fail (NewError "MAP-031" context).
Proof.
  unfold ParseMarked, FormatUTC. rewrite ParseOffset_text; [|by apply stamp_no_space; repeat constructor|].
  2: by rewrite !app_assoc; apply HasUTCMarker_Z.
  destruct (decide (ordinary (UTC t))) as [Ho|Ho].
  - by rewrite (parse_rfc3339_formatted (UTC t) ["Z"%char] 0) by (done || by repeat constructor).
  - unfold parse_rfc3339. by rewrite unreadable_prefix.
Qed.

Lemma offset_reads_back t context : t.2 mod 60 = 0 -> Z.abs t.2 < 86400 ->
  ParseOffset (FormatOffset t) context =
    if decide (ordinary t) then Ok (truncated t) else Fail (NewError "MAP-031" context).
Proof.
  intros Hm Hb. unfold FormatOffset. destruct (format_offset_pads _ Hm Hb) as (sign & h & m & _ & _ & E & Hs).
  assert (Hz : Forall (fun c => is_space c = false) (format_offset t.2) /\
               Forall (fun c => is_digit c = false) (take 1 (format_offset t.2))).
  { rewrite E. split; [|destruct Hs as [[-> _]|[-> _]]; cbn; by repeat constructor].
    destruct Hs as [[-> _]|[-> _]]; no_space. }
  rewrite ParseOffset_text; [|by apply stamp_no_space, Hz|by rewrite !app_assoc; apply HasUTCMarker_offset].
  destruct (decide (ordinary t)) as [Ho|Ho].
  - by rewrite (parse_rfc3339_formatted t _ t.2) by (done || apply Hz || by apply read_zone_formatted).
  - unfold parse_rfc3339. by rewrite unreadable_prefix.
Qed.

Lemma date_reads_back t context :
  ParseDate (FormatDate t) context =
    if decide (ordinary t) then let '(y, m, d) := civil_date t in Ok (time_of y m d 0 0)
    else Fail (NewError "MAP-031" context).
Proof.
  unfold ParseDate, FormatDate. destruct (decide (ordinary t)) as [Ho|Ho].
  - rewrite TrimSpace_free, bytes_of_bytes by by apply format_date_no_space.
    pose proof (read_date_formatted t [] Ho) as H. rewrite app_nil_r in H.
    rewrite take_ge; [by rewrite H; destruct (civil_date t) as [[y m] d]|].
    rewrite format_date_pads, !length_app, !length_pad by done. done.
  - destruct (format_date_unreadable t Ho) as [Hs Hr]. rewrite TrimSpace_free, bytes_of_bytes by done.
    by rewrite Hr by (rewrite take_take; f_equal; lia).
Qed.

Lemma clock_reads_back t context :
  ParseTime (FormatTime t) context = Ok (clock_time (nanos_of_day t / 100 * 100)).
Proof.
  unfold ParseTime, FormatTime. rewrite TrimSpace_free, bytes_of_bytes by apply format_clock_no_space.
  pose proof (read_clock_formatted t [] ltac:(constructor)) as H. rewrite app_nil_r in H. by rewrite H.
Qed.

(** C36. A stored time reads back as what was stored, to the 100 nanoseconds the
    spelling keeps: a [datetime] as the UTC instant, a [datetimeoffset] with its
    offset of whole minutes, a [date] as midnight UTC of the day it had in its
    own zone, a [time] as that clock reading.  A year outside 0 to 9999 is
    written, and refused when read. *)
Theorem stored_time_reads_back (t : Time) (context : string) :
  ParseMarked (FormatUTC t) context =
    (if decide (ordinary (UTC t)) then Ok (UTC (truncated t)) else Fail (NewError "MAP-031" context)) /\
  (t.2 mod 60 = 0 -> Z.abs t.2 < 86400 ->
   ParseOffset (FormatOffset t) context =
     if decide (ordinary t) then Ok (truncated t) else Fail (NewError "MAP-031" context)) /\
  ParseDate (FormatDate t) context =
    (if decide (ordinary t) then let '(y, m, d) := civil_date t in Ok (time_of y m d 0 0)
     else Fail (NewError "MAP-031" context)) /\
  ParseTime (FormatTime t) context = Ok (clock_time (nanos_of_day t / 100 * 100)).
Proof. split_and!; [apply marked_reads_back|apply offset_reads_back|apply date_reads_back|apply clock_reads_back]. Qed.

Lemma stored_time_reads_back_witness :
  ParseOffset (FormatOffset (1709210096123456789, -5400)) "" = Ok (1709210096123456700, -5400) /\
  ParseDate (FormatDate (1709210096123456789, -5400)) "" = Ok (1709164800000000000, 0).
Proof.
  destruct (stored_time_reads_back (1709210096123456789, -5400) "") as (_ & H & H' & _).
  split; [rewrite H by (vm_compute; congruence || reflexivity)|rewrite H']; vm_compute; reflexivity.
Defined.
