(* ===== verification/Converter.v ===== *)
(** The fixed conversion table (internal/mapping/type_converter.go), with the
    enum rules (internal/core/enum.go) and the handler registry
    (internal/core/type_handler.go): the two ways a value crosses the database
    boundary.

    A named type is described by its kind and, for an enum, its members; a
    value of one is a [VOther] whose text is the string, or the number in
    decimal, below it.  Named floats and named byte slices are left out. *)
From Stdlib Require Import SpecFloat.
From S2P Require Import Prelude GoStrings Values Core Guid Digits Calendar Temporal.
#[local] Open Scope Z_scope.

(** ** Named types and enums *)

Inductive NamedKind := NamedString | NamedInt (k : IntKind) | NamedBool | NamedOther.

Record NamedType := mkNamed {
  nt_kind : NamedKind;
  (** [EnumNames], for a type or pointer type that has the method *)
  nt_names : option (list string);
  (** the method is the value's, not its pointer's *)
  nt_by_value : bool }.

Fixpoint EnumIndex (names : list string) (name : string) : option nat :=
  match names with
  | [] => None
  | candidate :: rest => if EqualFold candidate name then Some 0%nat else S <$> EnumIndex rest name
  end.

(** [int64(raw)] into a named type of that kind *)
Definition named_int (type : string) (k : IntKind) (z : Z) : Value := VOther type (Itoa (wrap k z)).
Definition int_text (text : string) : Z := default 0 (read_int text).

(** ** Conversions of the language *)

(** The integer part of a finite float, and whether there is nothing else. *)
Definition float_int (f : spec_float) : option (Z * bool) :=
  match f with
  | S754_zero _ => Some (0, true)
  | S754_finite s m e =>
      let '(q, exact) := if 0 <=? e then (Zpos m * 2 ^ e, true)
                         else (Zpos m / 2 ^ (- e), Zpos m mod 2 ^ (- e) =? 0) in
      Some (if s then - q else q, exact)
  | _ => None
  end.

(** Rounding to a format; a float64 holds every float32. *)
Definition round_float (prec emax : Z) (f : spec_float) : spec_float :=
  match f with S754_finite s m e => binary_round prec emax s m e | _ => f end.
Definition to_float32 : spec_float -> spec_float := round_float 24 128.
Definition to_float64 : spec_float -> spec_float := round_float 53 1024.
Definition float_of_int (z : Z) : spec_float := binary_normalize 53 1024 z 0 false.

Section Converter.
Context (named : string -> NamedType).
(** What Go leaves to the implementation: the integer a float out of range
    converts to. *)
Context (unrepresentable : IntKind -> spec_float -> Z).
(** [strconv]'s float conversions and [fmt.Sprint] of the values the fixed table
    does not name. *)
Context (ParseFloat : string -> option spec_float) (FormatFloat_g FormatFloat_f : spec_float -> string)
  (Sprint : Value -> string).

Definition IsEnumType (t : VType) : bool :=
  match t with TyOther type _ => bool_decide (is_Some (nt_names (named type))) | _ => false end.
Definition EnumNamesOf (t : VType) : list string :=
  match t with TyOther type _ => default [] (nt_names (named type)) | _ => [] end.

Definition EnumName (v : Value) : option string :=
  match v with
  | VOther type text =>
      let n := named type in
      if nt_by_value n then
        names ← nt_names n;
        match nt_kind n with
        | NamedString => index ← EnumIndex names text; names !! index
        | NamedInt _ => if int_text text <? 0 then None else names !! Z.to_nat (int_text text)
        | _ => None
        end
      else None
  | _ => None
  end.

Definition EnumValue (t : VType) (index : nat) (names : list string) : Value :=
  match t with
  | TyOther type zero =>
      match nt_kind (named type) with
      | NamedString => VOther type (default "" (names !! index))
      | NamedInt k => named_int type k (Z.of_nat index)
      | _ => VOther type zero
      end
  | _ => zero_value t
  end.

(** ** The handler registry *)

Record handlerFuncs := mkHandler {
  h_parse : Value -> result Value;
  h_format : Value -> result Value }.
Definition TypeHandlerRegistry : Type := VType -> option handlerFuncs.

(** The registry's key: a named type's zero is not part of it. *)
Definition type_key (t : VType) : VType := match t with TyOther type _ => TyOther type "" | _ => t end.
Definition value_type (v : Value) : option VType :=
  match v with
  | VNil => None | VInt k _ => Some (TyInt k) | VFloat s _ => Some (TyFloat s) | VString _ => Some TyString
  | VBool _ => Some TyBool | VBytes _ => Some TyBytes | VTime _ _ => Some TyTime | VGuid _ => Some TyGuid
  | VDecimal _ => Some TyDecimal | VOther t _ => Some (TyOther t "")
  end.

Definition NewTypeHandlerRegistry : TypeHandlerRegistry := fun _ => None.
Definition RegisterHandler (r : TypeHandlerRegistry) (t : VType) (h : handlerFuncs) : TypeHandlerRegistry :=
  fun t' => if decide (t' = type_key t) then Some h else r t'.
Definition Contains (r : TypeHandlerRegistry) (t : VType) : bool := bool_decide (is_Some (r (type_key t))).
Definition handler_Parse (r : TypeHandlerRegistry) (t : VType) (databaseValue : Value) : option (result Value) :=
  h ← r (type_key t); Some (h_parse h databaseValue).
Definition handler_Format (r : TypeHandlerRegistry) (v : Value) : option (result Value) :=
  t ← value_type v; h ← r t; Some (h_format h v).

(** ** The converter *)

Context (handlers : TypeHandlerRegistry) (bindsTemporalsNatively : bool).

Definition conversionFailed {A} (context : string) : result A := Fail (NewError "MAP-031" context).

(** [int64(f)] and [uint64(f)] *)
Definition int_of_float (k : IntKind) (f : spec_float) : Z :=
  match float_int f with
  | Some (z, _) => if in_bounds k z then z else unrepresentable k f
  | None => unrepresentable k f
  end.

(** [float64(v) != math.Trunc(v)]: not a number is, the infinities are not. *)
Definition fractional (f : spec_float) : bool :=
  match f with S754_nan => true | S754_infinity _ => false | _ => match float_int f with Some (_, b) => negb b | None => true end end.

Definition parseInt64 (v : Value) : option Z :=
  match v with
  | VInt KInt64 z | VInt KInt z => Some z
  | VFloat false f => if fractional f then None else Some (int_of_float KInt64 f)
  | VString s => ParseInt (TrimSpace s)
  | _ => None
  end.

Definition toFloat64 (v : Value) : option spec_float :=
  match v with
  | VFloat false f => Some f
  | VInt KInt64 z => Some (float_of_int z)
  | VString s => ParseFloat (TrimSpace s)
  | _ => None
  end.

Definition float_is_zero (f : spec_float) : bool := match f with S754_zero _ => true | _ => false end.

Definition toBool (v : Value) (context : string) : result bool :=
  match v with
  | VBool b => Ok b
  | VInt KInt64 z => Ok (negb (z =? 0))
  | VFloat false f => Ok (negb (float_is_zero f))
  | VString s =>
      let trimmed := TrimSpace s in
      if bool_decide (trimmed = "1") || EqualFold trimmed "true" then Ok true
      else if bool_decide (trimmed = "0") || EqualFold trimmed "false" then Ok false
      else conversionFailed context
  | _ => conversionFailed context
  end.

Definition toInvariantString (v : Value) : string :=
  match v with
  | VString s | VBytes s => s
  | VInt KInt64 z => Itoa z
  | VFloat false f => FormatFloat_g f
  | VBool b => if b then "true" else "false"
  | _ => Sprint v
  end.

(** [convertTo]: [reflect.Value.Convert] to a type of a convertible kind. *)
Definition int_kind (t : VType) : option IntKind :=
  match t with
  | TyInt k => Some k
  | TyOther type _ => match nt_kind (named type) with NamedInt k => Some k | _ => None end
  | _ => None
  end.
Definition int_value (t : VType) (k : IntKind) (z : Z) : Value :=
  match t with TyOther type _ => VOther type (Itoa z) | _ => VInt k z end.
Definition signed (k : IntKind) : bool := ((int_bounds k).1 <? 0).

Definition convert_string (s : string) (element : VType) : result Value :=
  match element with
  | TyString => Ok (VString s)
  | TyBytes => Ok (VBytes s)
  | TyOther type _ => match nt_kind (named type) with NamedString => Ok (VOther type s) | _ => Panic "reflect.Value.Convert" end
  | _ => Panic "reflect.Value.Convert"
  end.
Definition convert_bool (b : bool) (element : VType) : result Value :=
  match element with
  | TyBool => Ok (VBool b)
  | TyOther type _ =>
      match nt_kind (named type) with
      | NamedBool => Ok (VOther type (if b then "true" else "false"))
      | _ => Panic "reflect.Value.Convert"
      end
  | _ => Panic "reflect.Value.Convert"
  end.
(** To an integer kind, through the 64-bit integer of its sign. *)
Definition convert_float (f : spec_float) (element : VType) : result Value :=
  match element with
  | TyFloat single => Ok (VFloat single (if single then to_float32 f else f))
  | _ => match int_kind element with
         | Some k => Ok (int_value element k (wrap k (int_of_float (if signed k then KInt64 else KUint64) f)))
         | None => Panic "reflect.Value.Convert"
         end
  end.

(** In the column's range and in the field's. *)
Definition column_kind (columnType : ColumnType) : IntKind :=
  match columnType with TypeInt16 => KInt16 | TypeInt32 => KInt32 | _ => KInt64 end.
Definition convertInt (raw : Z) (element : VType) (columnType : ColumnType) (context : string) : result Value :=
  if negb (in_bounds (column_kind columnType) raw) then conversionFailed context
  else match int_kind element with
       | Some k => if in_bounds k raw then Ok (int_value element k raw) else conversionFailed context
       | None => Fail (NewError "MAP-030" context)
       end.

Definition toDecimal (v : Value) (context : string) : result Value :=
  match v with
  | VString s | VBytes s => let* d := ParseDecimal s in Ok (VDecimal d)
  | VInt KInt64 z => Ok (VDecimal (Itoa z))
  | VFloat false f => let* d := ParseDecimal (FormatFloat_f f) in Ok (VDecimal d)
  | _ => conversionFailed context
  end.

Definition toGUID (v : Value) (element : VType) (context : string) : result Value :=
  let* g := match v with
            | VString s => ParseGUID s
            | VBytes b => GUIDFromBytes b
            | _ => conversionFailed context
            end in
  match element with
  | TyGuid => Ok (VGuid g)
  | TyString => convert_string (GUID_String g) element
  | TyOther type _ =>
      match nt_kind (named type) with
      | NamedString => convert_string (GUID_String g) element
      | _ => Fail (NewError "MAP-030" context)
      end
  | _ => Fail (NewError "MAP-030" context)
  end.

Definition time_value (t : Time) : Value := VTime t.1 t.2.

Definition toTemporal (v : Value) (context : string) (parse : string -> string -> result Time) : result Value :=
  match v with
  | VString s => let* t := parse s context in Ok (time_value t)
  | VTime nanos offset => Ok (time_value (UTC (nanos, offset)))
  | _ => conversionFailed context
  end.

Definition enumByPosition (position : Z) (element : VType) (names : list string) (context : string) : result Value :=
  if (position <? 0) || (Z.of_nat (length names) <=? position) then Fail (NewError "MAP-031" context)
  else Ok (EnumValue element (Z.to_nat position) names).

Definition toEnum (v : Value) (element : VType) (context : string) : result Value :=
  if negb (IsEnumType element) then Fail (NewError "MAP-030" context)
  else
    let names := EnumNamesOf element in
    match v with
    | VString s =>
        match EnumIndex names s with
        | Some index => Ok (EnumValue element index names)
        | None => Fail (NewError "MAP-031" context)
        end
    | VInt KInt64 z => enumByPosition z element names context
    | VFloat false f => enumByPosition (int_of_float KInt64 f) element names context
    | _ => conversionFailed context
    end.

Definition FromDatabase (v : Value) (target : FieldType) (columnType : ColumnType) (context : string) : result Value :=
  let element := ft_elem target in
  if is_nil v then (if ft_pointer target then Ok VNil else Fail (NewError "MAP-031" context))
  else
    match handler_Parse handlers element v with
    | Some parsed => parsed
    | None =>
        match columnType with
        | TypeInt16 | TypeInt32 | TypeInt64 =>
            match parseInt64 v with
            | Some raw => convertInt raw element columnType context
            | None => conversionFailed context
            end
        | TypeDecimal => toDecimal v context
        | TypeDouble | TypeFloat =>
            match toFloat64 v with
            | Some f => convert_float f element
            | None => conversionFailed context
            end
        | TypeBool => let* b := toBool v context in convert_bool b element
        | TypeString => convert_string (toInvariantString v) element
        | TypeGUID => toGUID v element context
        | TypeBytes =>
            match v with
            | VBytes s | VString s => Ok (VBytes s)
            | _ => conversionFailed context
            end
        | TypeDateTime => toTemporal v context ParseMarked
        | TypeDateTimeOffset => toTemporal v context ParseOffset
        | TypeDate => toTemporal v context ParseDate
        | TypeTime => toTemporal v context ParseTime
        | TypeEnumText | TypeEnumInt => toEnum v element context
        | TypeCustom => Fail (NewError "MAP-030" context)
        end
    end.

(** [columnType] is none where the value's own type gives the token. *)
Definition formatTemporal (t : Time) (columnType : option ColumnType) : Value :=
  match columnType with
  | Some TypeDateTimeOffset => if bindsTemporalsNatively then time_value (UTC t) else VString (FormatOffset t)
  | Some TypeDate =>
      if bindsTemporalsNatively then let '(y, m, d) := civil_date t in time_value (time_of y m d 0 0)
      else VString (FormatDate t)
  | Some TypeTime => VString (FormatTime t)
  | _ => if bindsTemporalsNatively then time_value (UTC t) else VString (FormatUTC t)
  end.

Definition ToDatabase (v : Value) (columnType : option ColumnType) (context : string) : result Value :=
  if is_nil v then Ok VNil
  else
    match handler_Format handlers v with
    | Some formatted => formatted
    | None =>
        match v with
        | VOther type text =>
            if IsEnumType (TyOther type "") then
              match EnumName v with
              | None => Fail (NewError "MAP-031" context)
              | Some name =>
                  if bool_decide (columnType = Some TypeEnumInt)
                  then Ok (VInt KInt64 (Z.of_nat (default 0%nat (EnumIndex (EnumNamesOf (TyOther type "")) name))))
                  else Ok (VString name)
              end
            else
              match nt_kind (named type) with
              | NamedString => Ok (VString text)
              | NamedInt _ => Ok (VInt KInt64 (wrap KInt64 (int_text text)))
              | NamedBool => Ok (VBool (bool_decide (text = "true")))
              | NamedOther => Fail (NewError "MAP-030" context)
              end
        | VDecimal text => Ok (VString (Decimal_String text))
        | VGuid g => Ok (VString (GUID_String g))
        | VTime nanos offset => Ok (formatTemporal (nanos, offset) columnType)
        | VBytes _ | VString _ | VBool _ => Ok v
        | VInt _ z => Ok (VInt KInt64 (wrap KInt64 z))
        | VFloat single f => Ok (VFloat false (if single then to_float64 f else f))
        | VNil => Ok VNil
        end
    end.
End Converter.
