(* ===== verification/ConverterLaws.v ===== *)
(** What crosses the database boundary: every conversion that succeeds gives a
    value of the field's type ([FromDatabase_typed]), and what a mapped column
    stores reads back ([stored_value_reads_back]). *)
From Stdlib Require Import SpecFloat.
From S2P Require Import Prelude GoStrings Values Core Guid Digits Calendar Temporal Converter.
#[local] Open Scope Z_scope.

(** ** Decimal texts *)

Lemma cut_point_digits l : Forall (fun c => is_digit c = true) l -> cut_point l = (l, None).
Proof.
  induction 1 as [|c l Hc _ IH]; [done|]. cbn. rewrite IH. by destruct (Ascii.eqb_spec c "."%char) as [->|].
Qed.
Lemma digits_literal l : all_digits l = true -> unsigned_literal l = true.
Proof. intros H. unfold unsigned_literal. by rewrite (cut_point_digits l (proj2 (proj1 (all_digits_spec l) H))). Qed.

Lemma unsigned_no_sign l : unsigned_literal ("-"%char :: l) = false.
Proof. unfold unsigned_literal. cbn. by destruct (cut_point l) as [i [f|]]. Qed.

Lemma decimalLiteral_bytes text : decimalLiteral text = true <->
  exists l, unsigned_literal l = true /\ (bytes text = l \/ bytes text = "-"%char :: l).
Proof.
  unfold decimalLiteral. destruct (bytes text) as [|c l].
  - split; [done|]. intros (l & Hl & [<-|]); done.
  - destruct (Ascii.eqb_spec c "-"%char) as [->|Hc].
    + split; [intros H; exists l; auto|]. intros (k & Hk & [<-|[= <-]]); [|done].
      by rewrite unsigned_no_sign in Hk.
    + split; [intros H; exists (c :: l); auto|]. intros (k & Hk & [->|[= Hc' _]]); [done|]. by subst c.
Qed.

Lemma Itoa_literal z : decimalLiteral (Itoa z) = true.
Proof.
  apply decimalLiteral_bytes. destruct z as [|p|p].
  - eexists. split; [|by left]. done.
  - eexists. split; [|by left]. apply digits_literal, Itoa_all_digits. lia.
  - exists (bytes (Itoa (Zpos p))). split; [apply digits_literal, Itoa_all_digits; lia|right; done].
Qed.

Lemma canonicalDecimal_literal text : decimalLiteral text = true -> decimalLiteral (canonicalDecimal text) = true.
Proof.
  intros H. pose proof H as (l & Hl & E)%decimalLiteral_bytes. unfold canonicalDecimal.
  destruct E as [E|E]; rewrite E.
  - destruct l as [|c l]; [done|]. destruct (Ascii.eqb_spec c "-"%char) as [->|]; [by rewrite unsigned_no_sign in Hl|]. by rewrite andb_false_l.
  - cbn [Ascii.eqb Bool.eqb andb]. destruct (only_zeros_and_points l); [|done].
    apply decimalLiteral_bytes. exists l. rewrite bytes_of_bytes. auto.
Qed.

Lemma literal_String text : decimalLiteral text = true -> Decimal_String text = text.
Proof. unfold Decimal_String. by destruct (decide (text = "")) as [->|]. Qed.

Section Laws.
Context (named : string -> NamedType) (unrepresentable : IntKind -> spec_float -> Z)
  (ParseFloat : string -> option spec_float) (FormatFloat_g FormatFloat_f : spec_float -> string)
  (Sprint : Value -> string).
Context (handlers : TypeHandlerRegistry) (bindsTemporalsNatively : bool).
Notation FromDatabase := (FromDatabase named unrepresentable ParseFloat FormatFloat_g FormatFloat_f Sprint handlers).
Notation ToDatabase := (ToDatabase named handlers bindsTemporalsNatively).
Notation int_kind := (int_kind named).
Notation IsEnumType := (IsEnumType named).
Notation EnumNamesOf := (EnumNamesOf named).

Definition kind_of (t : VType) : option NamedKind :=
  match t with TyOther type _ => Some (nt_kind (named type)) | _ => None end.

(** A field's Go type and its column's token that belong together: what
    [ColumnTypeOf] derives, and the overrides a tag may declare. *)
Definition fits (t : VType) (ct : ColumnType) : Prop :=
  match ct with
  | TypeInt16 | TypeInt32 | TypeInt64 => is_Some (int_kind t)
  | TypeDecimal => t = TyDecimal
  | TypeDouble | TypeFloat => exists single, t = TyFloat single
  | TypeBool => t = TyBool \/ kind_of t = Some NamedBool
  | TypeString => t = TyString \/ kind_of t = Some NamedString
  | TypeGUID => t = TyGuid \/ t = TyString \/ kind_of t = Some NamedString
  | TypeBytes => t = TyBytes
  | TypeDateTime | TypeDateTimeOffset | TypeDate | TypeTime => t = TyTime
  | TypeEnumText | TypeEnumInt =>
      IsEnumType t = true /\ (kind_of t = Some NamedString \/ is_Some (int_kind t))
  | TypeCustom => False
  end.

(** A value of a named type is one its kind can hold, too. *)
Definition proper (v : Value) : Prop :=
  real v /\
  match v with
  | VOther type text =>
      match nt_kind (named type) with
      | NamedInt k => exists z, in_bounds k z = true /\ text = Itoa z
      | NamedBool => text = "true" \/ text = "false"
      | _ => True
      end
  | _ => True
  end.

Lemma int_value_typed t k z : int_kind t = Some k -> in_bounds k z = true ->
  has_type (int_value t k z) t = true /\ proper (int_value t k z) /\ int_value t k z <> VNil.
Proof.
  destruct t; try done; cbn; intros H Hz.
  - injection H as ->. by rewrite bool_decide_true.
  - destruct (nt_kind (named type)) eqn:E; try done. injection H as ->. rewrite bool_decide_true by done.
    split; [done|]. split; [|done]. split; [done|]. cbn. rewrite E. by exists z.
Qed.

Lemma GUID_String_proper s : proper (VString s).
Proof. by split. Qed.

Lemma convert_string_typed s t v : (t = TyString \/ kind_of t = Some NamedString) -> convert_string named s t = Ok v ->
  has_type v t = true /\ proper v /\ v <> VNil.
Proof.
  intros [->|H]; cbn; [by intros [= <-]|]. destruct t; try done. injection H as H. cbn. rewrite H. intros [= <-].
  split; [by apply bool_decide_eq_true|]. split; [|done]. split; [done|]. cbn. by rewrite H.
Qed.

Lemma literal_proper text : decimalLiteral text = true -> proper (VDecimal text).
Proof. intros H. split; [|done]. cbn. rewrite literal_String by done. by apply decimal_literal. Qed.

Lemma ParseDecimal_proper s d : ParseDecimal s = Ok d -> proper (VDecimal d).
Proof.
  unfold ParseDecimal. destruct (decimalLiteral (TrimSpace s)) eqn:E; [|done]. intros [= <-].
  by apply literal_proper, canonicalDecimal_literal.
Qed.

Lemma GUIDFromBytes_proper b g : GUIDFromBytes b = Ok g -> proper (VGuid g).
Proof. unfold GUIDFromBytes. destruct (decide _) as [H|]; [|done]. intros [= <-]. by split. Qed.
Lemma ParseGUID_length text g : ParseGUID text = Ok g -> String.length g = 16%nat.
Proof.
  unfold ParseGUID. destruct (decide _) as [Hl|]; [|done]. destruct (hex_Decode _) as [r|] eqn:E; [|done]. intros [= <-].
  apply hex_Decode_Some, (f_equal length) in E. rewrite length_fmap, length_EncodeToString in E.
  rewrite <- length_bytes, bytes_of_bytes. lia.
Qed.

Lemma EnumIndex_lookup names s i : EnumIndex names s = Some i -> exists n, names !! i = Some n /\ EqualFold n s = true.
Proof.
  revert i. induction names as [|n names IH]; intros i; cbn; [done|]. destruct (EqualFold n s) eqn:E.
  - intros [= <-]. by exists n.
  - intros (j & Hj & ->)%fmap_Some. by apply IH in Hj.
Qed.

Lemma EnumValue_typed t i n : IsEnumType t = true -> (kind_of t = Some NamedString \/ is_Some (int_kind t)) ->
  EnumNamesOf t !! i = Some n ->
  let v := EnumValue named t i (EnumNamesOf t) in has_type v t = true /\ proper v /\ v <> VNil.
Proof.
  intros He Hk Hn. destruct t; try done. cbn in Hk |- *. destruct (nt_kind (named type)) as [|k| |] eqn:E; cbn.
  - split; [by apply bool_decide_eq_true|]. split; [|done]. split; [done|]. cbn. by rewrite E.
  - split; [by apply bool_decide_eq_true|]. split; [|done]. split; [done|]. cbn. rewrite E.
    exists (wrap k (Z.of_nat i)). split; [apply wrap_bounds|done].
  - destruct Hk as [[=]|[? [=]]].
  - destruct Hk as [[=]|[? [=]]].
Qed.

Lemma convertInt_typed raw t ct context w : convertInt named raw t ct context = Ok w ->
  has_type w t = true /\ proper w /\ w <> VNil.
Proof.
  unfold convertInt. destruct (negb _); [done|]. destruct (int_kind t) as [k|] eqn:Hk; [|done].
  destruct (in_bounds k raw) eqn:Hb; [|done]. intros [= <-]. by apply int_value_typed.
Qed.

Lemma convert_bool_typed b t w : (t = TyBool \/ kind_of t = Some NamedBool) -> convert_bool named b t = Ok w ->
  has_type w t = true /\ proper w /\ w <> VNil.
Proof.
  intros [->|H]; cbn; [by intros [= <-]|]. destruct t; try done. injection H as H. cbn. rewrite H. intros [= <-].
  split; [by apply bool_decide_eq_true|]. split; [|done]. split; [done|]. cbn. rewrite H. destruct b; auto.
Qed.

Lemma toDecimal_typed v context w : toDecimal FormatFloat_f v context = Ok w ->
  has_type w TyDecimal = true /\ proper w /\ w <> VNil.
Proof.
  assert (Hp : forall s, (let* d := ParseDecimal s in Ok (VDecimal d)) = Ok w -> has_type w TyDecimal = true /\ proper w /\ w <> VNil).
  { intros s H. apply bind_Ok in H as (d & Hd & H). apply Ok_inj in H as <-. split; [done|]. split; [|done].
    by eapply ParseDecimal_proper. }
  destruct v as [|k z|sg f|s|b|s|n o|g|t|t x]; try done; cbn [toDecimal]; try apply Hp.
  - destruct k; try done. intros [= <-]. split; [done|]. split; [apply literal_proper, Itoa_literal|done].
  - destruct sg; [done|apply Hp].
Qed.

Lemma toGUID_typed v t context w : (t = TyGuid \/ t = TyString \/ kind_of t = Some NamedString) ->
  toGUID named v t context = Ok w -> has_type w t = true /\ proper w /\ w <> VNil.
Proof.
  intros Ht H. unfold toGUID in H. apply bind_Ok in H as (g & Hg & H).
  assert (Hl : String.length g = 16%nat).
  { destruct v; try done; [by eapply ParseGUID_length|]. unfold GUIDFromBytes in Hg.
    destruct (decide _); [|done]. by apply Ok_inj in Hg as <-. }
  destruct Ht as [->|Ht]; [apply Ok_inj in H as <-; by split_and!|].
  eapply convert_string_typed; [exact Ht|]. destruct Ht as [->|Ht]; [exact H|].
  destruct t; try done. injection Ht as Ht. rewrite Ht in H. exact H.
Qed.

Lemma toTemporal_typed v context parse w : toTemporal v context parse = Ok w ->
  has_type w TyTime = true /\ proper w /\ w <> VNil.
Proof.
  destruct v; try done; cbn [toTemporal]; intros H.
  - apply bind_Ok in H as (t & _ & H). by apply Ok_inj in H as <-.
  - by apply Ok_inj in H as <-.
Qed.

Lemma toEnum_typed v t context w : IsEnumType t = true -> (kind_of t = Some NamedString \/ is_Some (int_kind t)) ->
  toEnum named unrepresentable v t context = Ok w -> has_type w t = true /\ proper w /\ w <> VNil.
Proof.
  intros He Hk. unfold toEnum. rewrite He. cbn [negb].
  assert (Hpos : forall z, enumByPosition named z t (EnumNamesOf t) context = Ok w ->
    has_type w t = true /\ proper w /\ w <> VNil).
  { intros z H. unfold enumByPosition in H. destruct (Z.ltb_spec z 0); [done|].
    destruct (Z.leb_spec (Z.of_nat (length (EnumNamesOf t))) z); [done|]. cbn [orb] in H. apply Ok_inj in H as <-.
    destruct (lookup_lt_is_Some_2 (EnumNamesOf t) (Z.to_nat z) ltac:(lia)) as [n Hn]. by eapply EnumValue_typed. }
  destruct v as [|k z|sg f|s| | | | | |]; try done.
  - destruct k; try done. apply Hpos.
  - destruct sg; [done|]. apply Hpos.
  - destruct (EnumIndex _ s) as [i|] eqn:Ei; [|done]. intros [= <-].
    destruct (EnumIndex_lookup _ _ _ Ei) as (n & Hn & _). by eapply EnumValue_typed.
Qed.

(** Whatever the types, a value that comes out of the converter is one a Go
    program can hold. *)
Lemma FromDatabase_real (Hreal : forall t v w, handler_Parse handlers t v = Some (Ok w) -> real w)
    v target ct context w : FromDatabase v target ct context = Ok w -> real w.
Proof.
  unfold Converter.FromDatabase. destruct (is_nil v); [destruct (ft_pointer target); [by intros [= <-]|done]|].
  destruct (handler_Parse handlers (ft_elem target) v) as [p|] eqn:Ep; [intros ->; by eapply Hreal|].
  set (t := ft_elem target). clearbody t.
  assert (Hs : forall s, convert_string named s t = Ok w -> real w).
  { intros s. destruct t; cbn; try done; try (by intros [= <-]). destruct (nt_kind (named type)); try done. by intros [= <-]. }
  assert (Hfloat : forall f, convert_float named unrepresentable f t = Ok w -> real w).
  { intros f. unfold convert_float. destruct t; cbn [Converter.int_kind int_value]; try done; try (by intros [= <-]).
    - intros [= <-]. apply wrap_bounds.
    - destruct (nt_kind (named type)); try done. by intros [= <-]. }
  assert (He : toEnum named unrepresentable v t context = Ok w -> real w).
  { unfold toEnum. destruct (IsEnumType t) eqn:He; [|done]. destruct t; try done. cbn [negb].
    assert (Hev : forall i names, real (EnumValue named (TyOther type zero) i names)).
    { intros i names. cbn. by destruct (nt_kind (named type)). }
    assert (Hpos : forall z, enumByPosition named z (TyOther type zero) (EnumNamesOf (TyOther type zero)) context = Ok w -> real w).
    { intros z. unfold enumByPosition. destruct (_ || _); [done|]. intros [= <-]. apply Hev. }
    destruct v as [|k z|sg f|s| | | | | |]; try done; [destruct k; try done; apply Hpos|destruct sg; [done|apply Hpos]|].
    destruct (EnumIndex _ s); [|done]. intros [= <-]. apply Hev. }
  destruct ct; try done.
  1-3: destruct (parseInt64 _ v); [|done]; intros (_ & [Hw _] & _)%convertInt_typed; exact Hw.
  - intros (_ & [Hw _] & _)%toDecimal_typed. exact Hw.
  - destruct (toFloat64 _ v); [apply Hfloat|done].
  - destruct (toFloat64 _ v); [apply Hfloat|done].
  - intros H. apply bind_Ok in H as (b & _ & H). destruct t; cbn in H; try done; try (by injection H as <-).
    destruct (nt_kind (named type)); try done. by injection H as <-.
  - apply Hs.
  - unfold toGUID. intros H. apply bind_Ok in H as (g & Hg & H). destruct t; try done.
    + by apply Ok_inj in H as <-.
    + apply Ok_inj in H as <-. destruct v; try done; [by eapply ParseGUID_length|]. by apply GUIDFromBytes_proper in Hg as [Hg _].
    + destruct (nt_kind (named type)) eqn:Ek; try done. by apply (Hs (GUID_String g)).
  - destruct v; try done; by intros [= <-].
  - intros (_ & [Hw _] & _)%toTemporal_typed. exact Hw.
  - intros (_ & [Hw _] & _)%toTemporal_typed. exact Hw.
  - intros (_ & [Hw _] & _)%toTemporal_typed. exact Hw.
  - intros (_ & [Hw _] & _)%toTemporal_typed. exact Hw.
Qed.

(** A registered handler returns values of its type. *)
Context (Hhandlers : forall t v w, handler_Parse handlers t v = Some (Ok w) -> has_type w t = true /\ proper w /\ w <> VNil).

Lemma conversion_typed (v w : Value) (target : FieldType) (ct : ColumnType) (context : string) :
  fits (ft_elem target) ct \/ Contains handlers (ft_elem target) = true ->
  FromDatabase v target ct context = Ok w ->
  (v = VNil /\ ft_pointer target = true /\ w = VNil) \/
  (v <> VNil /\ has_type w (ft_elem target) = true /\ proper w /\ w <> VNil).
Proof.
  unfold Converter.FromDatabase. destruct (is_nil v) eqn:En.
  { destruct v; try done. intros _. destruct (ft_pointer target); [|done]. intros [= <-]. by left. }
  intros Hfit H. right. split; [by destruct v|]. revert H.
  destruct (handler_Parse handlers (ft_elem target) v) as [p|] eqn:Ep.
  { intros ->. by eapply Hhandlers. }
  destruct Hfit as [Hfit|Hc].
  2:{ unfold Contains in Hc. apply bool_decide_eq_true in Hc as [h Hh]. unfold handler_Parse in Ep. by rewrite Hh in Ep. }
  set (t := ft_elem target) in *. clearbody t.
  destruct ct; cbn [fits] in Hfit |- *; try done.
  1-3: destruct (parseInt64 _ v); [apply convertInt_typed|done].
  - subst t. apply toDecimal_typed.
  - destruct Hfit as [single ->], (toFloat64 _ v); [|done]. cbn. intros [= <-]. by destruct single.
  - destruct Hfit as [single ->], (toFloat64 _ v); [|done]. cbn. intros [= <-]. by destruct single.
  - intros H. apply bind_Ok in H as (b & _ & H). by eapply convert_bool_typed.
  - by apply convert_string_typed.
  - by apply toGUID_typed.
  - subst t. destruct v; try done; by intros [= <-].
  - subst t. apply toTemporal_typed.
  - subst t. apply toTemporal_typed.
  - subst t. apply toTemporal_typed.
  - subst t. apply toTemporal_typed.
  - destruct Hfit. by apply toEnum_typed.
  - destruct Hfit. by apply toEnum_typed.
Qed.

(** C35. A conversion that succeeds gives the field a value it can hold: nil only
    for NULL into a pointer field, and otherwise a value of the field's own
    type, in its range - so assigning it never fails and no integer is cut. *)
Theorem FromDatabase_typed (v w : Value) (target : FieldType) (ct : ColumnType) (context : string) :
  fits (ft_elem target) ct \/ Contains handlers (ft_elem target) = true ->
  FromDatabase v target ct context = Ok w ->
  (v = VNil /\ ft_pointer target = true /\ w = VNil) \/
  (v <> VNil /\ has_type w (ft_elem target) = true /\ proper w /\ w <> VNil).
Proof. apply conversion_typed. Qed.

(** ** Round trips *)

Definition read_time (t : Time) (ct : ColumnType) (context : string) : result Value :=
  let unless_odd_year (u : Time) (r : Time) := if decide (ordinary u) then Ok (time_value r) else conversionFailed context in
  match ct with
  | TypeTime => Ok (time_value (clock_time (nanos_of_day t / 100 * 100)))
  | TypeDate =>
      let '(y, m, d) := civil_date t in
      if bindsTemporalsNatively then Ok (time_value (time_of y m d 0 0)) else unless_odd_year t (time_of y m d 0 0)
  | TypeDateTimeOffset => if bindsTemporalsNatively then Ok (time_value (UTC t)) else unless_odd_year t (truncated t)
  | _ => if bindsTemporalsNatively then Ok (time_value (UTC t)) else unless_odd_year (UTC t) (UTC (truncated t))
  end.

(** The integer of a value of an integer kind. *)
Definition int_of (v : Value) : Z :=
  match v with VInt _ z => z | VOther _ text => int_text text | _ => 0 end.

(** What a column gives back for a value stored in it. *)
Definition read_back (v : Value) (t : VType) (ct : ColumnType) (context : string) : result Value :=
  match ct with
  | TypeInt16 | TypeInt32 | TypeInt64 =>
      if in_bounds (column_kind ct) (int_of v) then Ok v else conversionFailed context
  | TypeDecimal => match v with VDecimal text => Ok (VDecimal (canonicalDecimal (Decimal_String text))) | _ => Ok v end
  | TypeDouble | TypeFloat =>
      match v with VFloat true f => Ok (VFloat true (to_float32 (to_float64 f))) | _ => Ok v end
  | TypeGUID =>
      match v with
      | VString s | VOther _ s => let* g := ParseGUID s in convert_string named (GUID_String g) t
      | _ => Ok v
      end
  | TypeDateTime | TypeDateTimeOffset | TypeDate | TypeTime =>
      match v with VTime nanos offset => read_time (nanos, offset) ct context | _ => Ok v end
  | TypeEnumText | TypeEnumInt =>
      match v, kind_of t with
      | VOther type _, Some NamedString => Ok (VOther type (default "" (EnumName named v)))
      | _, _ => Ok v
      end
  | _ => Ok v
  end.

Lemma int_text_Itoa z : int_text (Itoa z) = z.
Proof. unfold int_text. by rewrite read_int_Itoa. Qed.

Lemma stored_int z ct : match ct with TypeInt16 | TypeInt32 | TypeInt64 => True | _ => False end ->
  forall t k context, int_kind t = Some k -> in_bounds k z = true ->
  convertInt named (wrap KInt64 z) t ct context =
    if in_bounds (column_kind ct) z then Ok (int_value t k z) else conversionFailed context.
Proof.
  intros Hct t k context Hk Hz. unfold convertInt. rewrite Hk.
  destruct (in_bounds KInt64 z) eqn:H64.
  - rewrite wrap_id by done. destruct (in_bounds (column_kind ct) z); cbn [negb]; [by rewrite Hz|done].
  - assert (Hc : in_bounds (column_kind ct) z = false).
    { destruct (in_bounds (column_kind ct) z) eqn:E; [|done]. exfalso. apply not_true_iff_false in H64.
      apply H64, in_bounds_spec. apply in_bounds_spec in E. destruct ct; try done; cbn in *; lia. }
    rewrite Hc. destruct (negb _); [done|].
    assert (Hneg : in_bounds k (wrap KInt64 z) = false); [|by rewrite Hneg].
    apply not_true_is_false. intros Hw%in_bounds_spec. apply in_bounds_spec in Hz.
    assert (~ (- 2 ^ 63 <= z <= 2 ^ 63 - 1)) by (intros Hb; by apply not_true_iff_false in H64; destruct H64; apply in_bounds_spec).
    unfold wrap in Hw. destruct k; cbn in Hz, Hw; try lia;
      change (2 ^ 63 - 1 - - 2 ^ 63 + 1) with (2 ^ 64) in Hw;
      rewrite <- (Z.mod_unique (z - - 2 ^ 63) (2 ^ 64) 1 (z - 2 ^ 63)) in Hw by lia; lia.
Qed.

Lemma canonical_read text : decimalLiteral text = true ->
  ParseDecimal text = Ok (canonicalDecimal text).
Proof.
  intros H. unfold ParseDecimal. assert (E : TrimSpace text = text).
  { rewrite <- (of_bytes_bytes text). apply TrimSpace_free. apply decimalLiteral_bytes in H as (l & Hl & E).
    assert (Hs : Forall (fun c => is_space c = false) l).
    { clear E. unfold unsigned_literal in Hl.
      assert (Hcut : forall l i f, cut_point l = (i, f) -> l = i ++ match f with Some f => "."%char :: f | None => [] end).
      { clear. induction l as [|c l IH]; cbn; intros i f; [by intros [= <- <-]|].
        destruct (Ascii.eqb_spec c "."%char) as [->|]; [by intros [= <- <-]|].
        destruct (cut_point l) as [i' f'] eqn:Ec. intros [= <- <-]. cbn. f_equal. by apply IH. }
      destruct (cut_point l) as [i f] eqn:Ec. rewrite (Hcut _ _ _ Ec).
      destruct f as [f|]; [apply andb_true_iff in Hl as [Hi Hf]|]; rewrite Forall_app.
      - apply all_digits_spec in Hi as [_ Hi]. apply all_digits_spec in Hf as [_ Hf].
        split; [by apply digits_no_space|]. constructor; [done|by apply digits_no_space].
      - apply all_digits_spec in Hl as [_ Hl]. split; [by apply digits_no_space|constructor]. }
    destruct E as [-> | ->]; [done|by constructor]. }
  by rewrite E, H.
Qed.

Lemma EnumIndex_fold names s s' : EqualFold s s' = true -> EnumIndex names s = EnumIndex names s'.
Proof.
  intros H%EqualFold_true. induction names as [|n names IH]; cbn; [done|]. rewrite IH.
  assert (E : EqualFold n s = EqualFold n s'); [|by rewrite E].
  unfold EqualFold. by rewrite H.
Qed.

Lemma EnumIndex_distinct names i n : NoDup (ToLower <$> names) -> names !! i = Some n -> EnumIndex names n = Some i.
Proof.
  revert i. induction names as [|m names IH]; intros i Hnd Hi; [done|]. cbn in Hnd. apply NoDup_cons in Hnd as [Hm Hnd].
  destruct i as [|i]; cbn in Hi |- *.
  - injection Hi as ->. by rewrite EqualFold_refl.
  - destruct (EqualFold m n) eqn:E; [|by rewrite (IH i)].
    apply EqualFold_true in E. destruct Hm. rewrite E. apply list_elem_of_fmap. exists n. split; [done|].
    by eapply list_elem_of_lookup_2.
Qed.

(** An enum's members differ, ignoring case. *)
Definition distinct_members : Prop :=
  forall type names, nt_names (named type) = Some names -> NoDup (ToLower <$> names).

Lemma stored_enum v t ct ptr context : distinct_members ->
  (ct = TypeEnumText \/ ct = TypeEnumInt) -> fits t ct -> value_type v = Some (type_key t) -> proper v ->
  handlers (type_key t) = None ->
  match ToDatabase v (Some ct) context with
  | Ok d => FromDatabase d (mkField ptr t) ct context = read_back v t ct context
  | Fail err => err = NewError "MAP-031" context /\ EnumName named v = None
  end.
Proof.
  intros Hdist Hct Hfit Hv Hp Hnone. assert (Hfit' : IsEnumType t = true /\ (kind_of t = Some NamedString \/ is_Some (int_kind t)))
    by (by destruct Hct as [-> | ->]). clear Hfit. destruct Hfit' as [He Hk].
  destruct t as [| | | | | | | |type zero']; try done. destruct v as [| | | | | | | | |vt text]; try done.
  injection Hv as ->. cbn [type_key] in Hnone. unfold Converter.ToDatabase. cbn [is_nil].
  unfold handler_Format. cbn [value_type mbind option_bind]. rewrite Hnone.
  change (IsEnumType (TyOther type "")) with (IsEnumType (TyOther type zero')). rewrite He. cbn [mbind option_bind].
  apply bool_decide_eq_true in He as [names Hnames]. destruct (EnumName named (VOther type text)) as [name|] eqn:En; [|done].
  assert (Hi : exists i, EnumIndex names name = Some i /\
    EnumValue named (TyOther type zero') i names =
      match nt_kind (named type) with NamedString => VOther type name | _ => VOther type text end).
  { cbn in En, Hk. destruct (nt_by_value (named type)); [|done]. rewrite Hnames in En. cbn in En.
    unfold proper in Hp. cbn in Hp |- *. destruct (nt_kind (named type)) as [|k| |] eqn:Ek; try done.
    - destruct (EnumIndex names text) as [i|] eqn:Ei; [|done]. cbn in En.
      destruct (EnumIndex_lookup _ _ _ Ei) as (n & Hn & Hf). rewrite En in Hn. injection Hn as ->.
      exists i. split; [by rewrite (EnumIndex_fold _ _ _ Hf)|]. by rewrite En.
    - destruct Hp as [_ (z & Hz & ->)]. rewrite int_text_Itoa in En. destruct (Z.ltb_spec z 0); [done|].
      exists (Z.to_nat z). split; [by apply EnumIndex_distinct; [eapply Hdist|]|].
      unfold named_int. rewrite Z2Nat.id by done. by rewrite wrap_id. }
  destruct Hi as (i & Hi & Hval). unfold read_back, kind_of. rewrite En. cbn [default].
  assert (Hread : read_back (VOther type text) (TyOther type zero') ct context =
    Ok (EnumValue named (TyOther type zero') i names)).
  { rewrite Hval. unfold read_back, kind_of. rewrite En. destruct Hct as [-> | ->]; by destruct (nt_kind (named type)). }
  unfold read_back, kind_of in Hread. rewrite En in Hread. cbn [default] in Hread. rewrite Hread.
  destruct (EnumIndex_lookup _ _ _ Hi) as (n & Hn & _). apply lookup_lt_Some in Hn.
  assert (Hpos : enumByPosition named (Z.of_nat i) (TyOther type zero') names context =
    Ok (EnumValue named (TyOther type zero') i names)).
  { unfold enumByPosition. destruct (Z.ltb_spec (Z.of_nat i) 0); [lia|].
    destruct (Z.leb_spec (Z.of_nat (length names)) (Z.of_nat i)); [lia|]. cbn [orb]. by rewrite Nat2Z.id. }
  unfold Converter.FromDatabase, handler_Parse, toEnum. cbn [ft_elem type_key].
  assert (He : IsEnumType (TyOther type zero') = true) by (apply bool_decide_eq_true; by exists names).
  assert (Hn' : EnumNamesOf (TyOther type zero') = names) by (cbn; by rewrite Hnames).
  assert (Hn'' : EnumNamesOf (TyOther type "") = names) by (cbn; by rewrite Hnames).
  destruct Hct as [-> | ->].
  - rewrite bool_decide_false by done. cbn [is_nil]. rewrite Hnone. cbn [mbind option_bind].
    rewrite He, Hn'. cbn [negb]. by rewrite Hi.
  - rewrite bool_decide_true by done. rewrite Hn'', Hi. cbn [is_nil default]. rewrite Hnone. cbn [mbind option_bind].
    rewrite He, Hn'. cbn [negb]. exact Hpos.
Qed.

(** A token that does not go with the type. *)
Ltac misfit Hfit := exfalso; cbn in Hfit;
  first [done | by destruct Hfit as [? ?] | by destruct Hfit as [?|?] | by destruct Hfit as [?|[?|?]]].

Definition whole_minutes (v : Value) : Prop :=
  match v with VTime _ offset => offset mod 60 = 0 /\ Z.abs offset < 86400 | _ => True end.

Lemma stored_time nanos offset ct ptr context :
  whole_minutes (VTime nanos offset) -> handlers TyTime = None -> fits TyTime ct ->
  FromDatabase (formatTemporal bindsTemporalsNatively (nanos, offset) (Some ct)) (mkField ptr TyTime) ct context =
    read_time (nanos, offset) ct context.
Proof.
  intros [Hm Hz] Hnone Hfit.
  pose proof (offset_reads_back (nanos, offset) context Hm Hz) as H2.
  unfold Converter.FromDatabase, handler_Parse. cbn [ft_elem type_key].
  destruct ct; try (misfit Hfit); unfold formatTemporal, read_time.
  - destruct bindsTemporalsNatively; cbn [is_nil time_value]; rewrite Hnone; cbn [mbind option_bind toTemporal]; [done|].
    rewrite marked_reads_back. destruct (decide (ordinary (UTC (nanos, offset)))); reflexivity.
  - destruct bindsTemporalsNatively; cbn [is_nil time_value]; rewrite Hnone; cbn [mbind option_bind toTemporal]; [done|].
    rewrite H2. destruct (decide (ordinary (nanos, offset))); reflexivity.
  - pose proof (date_reads_back (nanos, offset) context) as H3. destruct (civil_date (nanos, offset)) as [[y m] d].
    destruct bindsTemporalsNatively; cbn [is_nil time_value]; rewrite Hnone; cbn [mbind option_bind toTemporal]; [done|].
    rewrite H3. destruct (decide (ordinary (nanos, offset))); reflexivity.
  - cbn [is_nil time_value]. rewrite Hnone. cbn [mbind option_bind toTemporal]. by rewrite clock_reads_back.
Qed.

Definition enum_token (ct : ColumnType) : Prop := ct = TypeEnumText \/ ct = TypeEnumInt.

(** The read of a stored value of a type without a handler, token by token. *)
Ltac read_stored ct Hnone Hfit Hct :=
  unfold Converter.FromDatabase, handler_Parse; cbn [is_nil ft_elem type_key]; rewrite Hnone;
  cbn [mbind option_bind]; destruct ct; try (misfit Hfit); try (by destruct Hct; unfold enum_token; auto).

Lemma stored_named type text zero' ct ptr context d :
  ~ enum_token ct -> fits (TyOther type zero') ct -> proper (VOther type text) -> handlers (TyOther type "") = None ->
  match nt_kind (named type) with
  | NamedString => Ok (VString text)
  | NamedInt _ => Ok (VInt KInt64 (wrap KInt64 (int_text text)))
  | NamedBool => Ok (VBool (bool_decide (text = "true")))
  | NamedOther => Fail (NewError "MAP-030" context)
  end = Ok d ->
  FromDatabase d (mkField ptr (TyOther type zero')) ct context =
    read_back (VOther type text) (TyOther type zero') ct context.
Proof.
  intros Hct Hfit [_ Hp] Hnone Hd. cbn in Hp. destruct (nt_kind (named type)) as [|k| |] eqn:Ek; try done; injection Hd as <-;
    assert (Hkind : kind_of (TyOther type zero') = Some (nt_kind (named type))) by done; rewrite Ek in Hkind;
    assert (Hint : int_kind (TyOther type zero') = match nt_kind (named type) with NamedInt k => Some k | _ => None end) by done;
    rewrite Ek in Hint; unfold fits in Hfit; rewrite Hkind, Hint in Hfit.
  - read_stored ct Hnone Hfit Hct; [cbn; by rewrite Ek|]. unfold toGUID. by rewrite Ek.
  - destruct Hp as (z & Hk & ->). rewrite int_text_Itoa. read_stored ct Hnone Hfit Hct;
      cbn [parseInt64 read_back int_of]; rewrite int_text_Itoa;
      match goal with |- convertInt _ _ _ ?c _ = _ => rewrite (stored_int z c I _ k context Hint Hk) end;
      by destruct (in_bounds _ _).
  - read_stored ct Hnone Hfit Hct. cbn. rewrite Ek. by destruct Hp as [-> | ->].
Qed.

Lemma stored_basic v d t ct ptr context :
  ~ enum_token ct -> fits t ct -> proper v -> whole_minutes v -> value_type v = Some t -> handlers t = None ->
  match v with
  | VOther _ _ | VNil => False
  | VDecimal text => d = VString (Decimal_String text)
  | VGuid g => d = VString (GUID_String g)
  | VTime nanos offset => d = formatTemporal bindsTemporalsNatively (nanos, offset) (Some ct)
  | VInt _ z => d = VInt KInt64 (wrap KInt64 z)
  | VFloat single f => d = VFloat false (if single then to_float64 f else f)
  | _ => d = v
  end ->
  FromDatabase d (mkField ptr t) ct context = read_back v t ct context.
Proof.
  intros Hct Hfit [Hp _] Hz Hv Hnone Hd.
  destruct v as [|k z|sg f|s|b|s|nanos offset|g|text|vt text]; try done; injection Hv as <-; subst d.
  - read_stored ct Hnone Hfit Hct; cbn [parseInt64 read_back int_of];
      match goal with |- convertInt _ _ _ ?c _ = _ => rewrite (stored_int z c I (TyInt k) k context eq_refl Hp) end;
      by destruct (in_bounds _ _).
  - read_stored ct Hnone Hfit Hct; by destruct sg.
  - read_stored ct Hnone Hfit Hct; done.
  - read_stored ct Hnone Hfit Hct; done.
  - read_stored ct Hnone Hfit Hct; done.
  - rewrite stored_time by done. destruct ct; try (misfit Hfit); done.
  - read_stored ct Hnone Hfit Hct. unfold toGUID. by rewrite GUID_round_trip.
  - apply decimal_literal in Hp. read_stored ct Hnone Hfit Hct. cbn [toDecimal]. by rewrite canonical_read.
Qed.

Lemma stored_reads (v : Value) (t : VType) (ct : ColumnType) (ptr : bool) (context : string) :
  distinct_members -> fits t ct -> (IsEnumType t = true -> enum_token ct) ->
  value_type v = Some (type_key t) -> proper v -> whole_minutes v -> handlers (type_key t) = None ->
  match ToDatabase v (Some ct) context with
  | Ok d => FromDatabase d (mkField ptr t) ct context = read_back v t ct context
  | Fail err => err = NewError "MAP-031" context /\ EnumName named v = None
  end.
Proof.
  intros Hdist Hfit Henum Hv Hp Hz Hnone.
  destruct (decide (ct = TypeEnumText \/ ct = TypeEnumInt)) as [Hct|Hct]; [by apply stored_enum|].
  assert (He : IsEnumType t = false) by (apply not_true_is_false; tauto).
  unfold Converter.ToDatabase, handler_Format. rewrite Hv. cbn [mbind option_bind]. rewrite Hnone. cbn [mbind option_bind].
  destruct v as [|k z|sg f|s|b|s|nanos offset|g|text|vt text]; try done; cbn [is_nil];
    try (apply stored_basic; try done; by destruct t).
  destruct t as [| | | | | | | |type zero']; try done. injection Hv as ->.
  change (Converter.IsEnumType named (TyOther type "")) with (IsEnumType (TyOther type zero')). rewrite He.
  pose proof (stored_named type text zero' ct ptr context) as H. cbn in Hfit |- *.
  destruct (nt_kind (named type)) eqn:Ek; try (by apply H). exfalso.
  destruct ct; try (misfit Hfit); cbn in Hfit; rewrite Ek in Hfit; (by destruct Hfit) || (by destruct Hfit as [|[|]]) || auto.
Qed.

End Laws.

(** ** Witnesses: an order's status *)

Definition status_named (type : string) : NamedType :=
  if bool_decide (type = "Status") then mkNamed NamedString (Some ["Pending"; "Completed"; "Cancelled"]) true
  else mkNamed NamedOther None true.
Definition status_type : VType := TyOther "Status" "".
Definition no_handlers : TypeHandlerRegistry := NewTypeHandlerRegistry.
Definition cut_float (_ : IntKind) (_ : spec_float) : Z := 0.
Definition read_status (v : Value) (target : FieldType) (ct : ColumnType) : result Value :=
  FromDatabase status_named cut_float (fun _ => None) (fun _ => "") (fun _ => "") (fun _ => "") no_handlers v target ct "Order.Status".

Lemma FromDatabase_typed_witness :
  read_status (VInt KInt64 2) (mkField true status_type) TypeEnumInt = Ok (VOther "Status" "Cancelled") /\
  has_type (VOther "Status" "Cancelled") status_type = true.
Proof.
  assert (H : read_status (VInt KInt64 2) (mkField true status_type) TypeEnumInt = Ok (VOther "Status" "Cancelled"))
    by (vm_compute; reflexivity).
  split; [exact H|].
  destruct (FromDatabase_typed status_named cut_float (fun _ => None) (fun _ => "") (fun _ => "") (fun _ => "") no_handlers)
    with (v := VInt KInt64 2) (w := VOther "Status" "Cancelled") (target := mkField true status_type) (ct := TypeEnumInt)
      (context := "Order.Status") as [(_ & _ & Hw)|(_ & Hw & _)].
  - by intros t v w Hp.
  - left. split; [vm_compute; reflexivity|left; reflexivity].
  - exact H.
  - discriminate Hw.
  - exact Hw.
Defined.


(** A [uint64] from 2^63 is written wrapped: it reads back as neither itself nor another number, but refused. *)
Example wrapped_uint64 :
  ToDatabase status_named no_handlers false (VInt KUint64 (2 ^ 63)) (Some TypeInt64) "Row.Id" = Ok (VInt KInt64 (- 2 ^ 63)) /\
  read_status (VInt KInt64 (- 2 ^ 63)) (mkField false (TyInt KUint64)) TypeInt64 = conversionFailed "Order.Status".
Proof. vm_compute. by split. Qed.
