(* ===== verification/Triggers.v ===== *)
(** Trigger declarations (internal/core/trigger.go): timings, event sets, the
    body scanner with its tokens [{new: columns}], [{old: columns}] and
    [{now}], expansion and normalization.

    A problem the scanner describes is a constructor instead of a sentence:
    the program only joins the sentences into a message. *)
From S2P Require Import Prelude GoStrings Core Placeholders.

(** ** Timings and events *)

Inductive TriggerTiming := TimingNone | TimingBefore | TimingAfter | TimingInsteadOf.
#[export] Instance TriggerTiming_eq_dec : EqDecision TriggerTiming.
Proof. solve_decision. Defined.

Definition TriggerTiming_Token (t : TriggerTiming) : string :=
  match t with
  | TimingBefore => "before"
  | TimingAfter => "after"
  | TimingInsteadOf => "instead_of"
  | TimingNone => ""
  end.

Definition ParseTriggerTiming (token : string) : option TriggerTiming :=
  if decide (token = "before") then Some TimingBefore
  else if decide (token = "after") then Some TimingAfter
  else if decide (token = "instead_of") then Some TimingInsteadOf
  else None.

(** A flag set held in an [int]. *)
Definition TriggerEvents := Z.
Definition EventInsert : TriggerEvents := 1%Z.
Definition EventUpdate : TriggerEvents := 2%Z.
Definition EventDelete : TriggerEvents := 4%Z.
Definition triggerEventOrder : list TriggerEvents := [EventInsert; EventUpdate; EventDelete].

Definition Events_Has (t e : TriggerEvents) : bool :=
  negb (e =? 0)%Z && (Z.land t e =? e)%Z.

Definition Events_List (t : TriggerEvents) : list TriggerEvents :=
  List.filter (Events_Has t) triggerEventOrder.

Definition Events_Token (t : TriggerEvents) : string :=
  if (t =? EventInsert)%Z then "insert"
  else if (t =? EventUpdate)%Z then "update"
  else if (t =? EventDelete)%Z then "delete"
  else "".

Definition Events_Tokens (t : TriggerEvents) : list string := Events_Token <$> Events_List t.

Definition Events_String (t : TriggerEvents) : string :=
  if (t =? 0)%Z then "none" else Join (Events_Tokens t) "+".

Fixpoint parse_events (events : TriggerEvents) (tokens : list string) : option TriggerEvents :=
  match tokens with
  | [] => Some events
  | token :: rest =>
      let add event :=
        if Events_Has events event then None else parse_events (Z.lor events event) rest in
      if decide (token = "insert") then add EventInsert
      else if decide (token = "update") then add EventUpdate
      else if decide (token = "delete") then add EventDelete
      else None
  end.
Definition ParseTriggerEvents (tokens : list string) : option TriggerEvents := parse_events 0%Z tokens.

Record TriggerDefinition := mkTrigger {
  tr_Name : string;
  tr_Timing : TriggerTiming;
  tr_Events : TriggerEvents;
  tr_UpdateOf : list string;
  tr_SQL : string }.
#[export] Instance TriggerDefinition_eq_dec : EqDecision TriggerDefinition.
Proof. solve_decision. Defined.

(** ** The body tokens *)

Inductive TriggerTokenKind := TokenNew | TokenOld | TokenNow.

Record TriggerToken := mkToken {
  tok_Kind : TriggerTokenKind;
  tok_Columns : list string;
  tok_Start : nat;
  tok_End : nat }.

Definition Canonical (t : TriggerToken) : string :=
  match tok_Kind t with
  | TokenNew => "{new: " +:+ Join (tok_Columns t) ", " +:+ "}"
  | TokenOld => "{old: " +:+ Join (tok_Columns t) ", " +:+ "}"
  | TokenNow => "{now}"
  end.

Inductive TokenProblem :=
  | LineCommentInBody
  | NowTakesNoColumns (inner : string)
  | UnknownToken (inner : string)
  | NoColumnList (inner : string)
  | EmptyColumnEntry (inner : string).

(** [strings.Cut(inner, ":")] *)
Fixpoint cut_at (sep : ascii) (l : list ascii) : list ascii * option (list ascii) :=
  match l with
  | [] => ([], None)
  | c :: l' =>
      if Ascii.eqb c sep then ([], Some l')
      else let '(before, after) := cut_at sep l' in (c :: before, after)
  end.

Definition colon : ascii := ":"%char.
Definition comma : ascii := ","%char.
Definition open_brace : ascii := "{"%char.
Definition close_brace : ascii := "}"%char.

(** The loop over a row token's column entries. *)
Fixpoint token_columns (parts : list string) : option (list string) :=
  match parts with
  | [] => Some []
  | part :: rest =>
      let column := TrimSpace part in
      if decide (column = "") then None
      else columns ← token_columns rest; Some (column :: columns)
  end.

Definition parseTriggerToken (inner : list ascii) (start end_ : nat)
    : TriggerToken + TokenProblem :=
  let spelled := of_bytes inner in
  let '(before, list) := cut_at colon inner in
  let name := ToLower (TrimSpace (of_bytes before)) in
  let row kind :=
    match list with
    | None => inr (NoColumnList spelled)
    | Some columns =>
        match token_columns (Split (of_bytes columns) comma) with
        | None => inr (EmptyColumnEntry spelled)
        | Some columns => inl (mkToken kind columns start end_)
        end
    end in
  if decide (name = "now") then
    match list with
    | Some _ => inr (NowTakesNoColumns spelled)
    | None => inl (mkToken TokenNow [] start end_)
    end
  else if decide (name = "new") then row TokenNew
  else if decide (name = "old") then row TokenOld
  else inr (UnknownToken spelled).

(** [strings.IndexAny(l, "{}")]: the bytes before the first brace, and which. *)
Fixpoint before_brace (l : list ascii) : option (list ascii * bool) :=
  match l with
  | [] => None
  | c :: l' =>
      if Ascii.eqb c open_brace then Some ([], true)
      else if Ascii.eqb c close_brace then Some ([], false)
      else match before_brace l' with
           | Some (inner, opens) => Some (c :: inner, opens)
           | None => None
           end
  end.

(** The scan.  [i] is the position of the first byte of [l], [skip] the bytes a
    token or an escaped quote already consumed. *)
Fixpoint scan_tokens (i skip : nat) (literal lineComment : bool) (l : list ascii)
    : list TriggerToken * list TokenProblem :=
  match l with
  | [] => ([], [])
  | c :: l' =>
      match skip with
      | S k => scan_tokens (S i) k literal lineComment l'
      | 0 =>
          if literal then
            if Ascii.eqb c quote then
              if head_is quote l' then scan_tokens (S i) 1 true lineComment l'
              else scan_tokens (S i) 0 false lineComment l'
            else scan_tokens (S i) 0 true lineComment l'
          else if Ascii.eqb c quote then scan_tokens (S i) 0 true lineComment l'
          else if Ascii.eqb c dash && head_is dash l' then
            let '(tokens, problems) := scan_tokens (S i) 0 false true l' in
            (tokens, if lineComment then problems else LineCommentInBody :: problems)
          else if Ascii.eqb c open_brace then
            match before_brace l' with
            | None | Some (_, true) => scan_tokens (S i) 0 false lineComment l'
            | Some (inner, false) =>
                let '(tokens, problems) :=
                  scan_tokens (S i) (S (length inner)) false lineComment l' in
                match parseTriggerToken inner i (i + length inner + 2) with
                | inl token => (token :: tokens, problems)
                | inr problem => (tokens, problem :: problems)
                end
            end
          else scan_tokens (S i) 0 false lineComment l'
      end
  end.

Definition ScanTriggerTokens (body : string) : list TriggerToken * list TokenProblem :=
  scan_tokens 0 0 false false (bytes body).

(** The replacement loop: [last] is where the copied text resumes. *)
Fixpoint expand_from (body : string) (expand : TriggerToken -> string)
    (last : nat) (tokens : list TriggerToken) : string :=
  match tokens with
  | [] => slice body last (String.length body)
  | t :: rest =>
      slice body last (tok_Start t) +:+ expand t +:+ expand_from body expand (tok_End t) rest
  end.

Definition ExpandTriggerTokens (body : string) (expand : TriggerToken -> string) : string :=
  match (ScanTriggerTokens body).1 with
  | [] => body
  | tokens => expand_from body expand 0 tokens
  end.

Definition RenderTriggerBody (name body : string) (expand : TriggerToken -> string)
    : result string :=
  let body := TrimSpace body in
  match (ScanTriggerTokens body).2 with
  | [] => Ok (ExpandTriggerTokens body expand)
  | _ => Fail (NewError "MAP-029" name)
  end.

Definition NormalizeTriggerBody (body : string) : string :=
  let collapsed := Join (Fields body) " " in
  match ScanTriggerTokens collapsed with
  | ([], _) | (_, _ :: _) => collapsed
  | (_, []) => ExpandTriggerTokens collapsed Canonical
  end.

Definition SameAs (d other : TriggerDefinition) : bool :=
  bool_decide (tr_Name d = tr_Name other) && bool_decide (tr_Timing d = tr_Timing other) &&
  (tr_Events d =? tr_Events other)%Z && bool_decide (tr_UpdateOf d = tr_UpdateOf other) &&
  bool_decide (NormalizeTriggerBody (tr_SQL d) = NormalizeTriggerBody (tr_SQL other)).
