(* ===== verification/TriggerLaws.v ===== *)
(** What trigger declarations promise (the theorems of [Triggers]): event sets
    read back, and the token scan locates what expansion then replaces. *)
From S2P Require Import Prelude GoStrings Core Placeholders Triggers.

(** * Event sets *)

Definition is_event_set (e : TriggerEvents) : Prop := (0 <= e < 8)%Z.

Lemma event_set_cases e : is_event_set e -> (e ∈ [0; 1; 2; 3; 4; 5; 6; 7])%Z.
Proof. unfold is_event_set. intros H. rewrite !elem_of_cons. lia. Qed.

(** Adding an event that is not there adds its token. *)
Lemma Events_Tokens_add e event :
  is_event_set e -> event ∈ triggerEventOrder -> Events_Has e event = false ->
  is_event_set (Z.lor e event) /\
  Events_Tokens (Z.lor e event) ≡ₚ Events_Token event :: Events_Tokens e.
Proof.
  intros He%event_set_cases Hv Hno.
  rewrite !elem_of_cons, elem_of_nil in He. unfold triggerEventOrder in Hv.
  rewrite !elem_of_cons, elem_of_nil in Hv.
  destruct_or!; subst; try done; vm_compute in Hno; try done;
    (split; [vm_compute; split; congruence|]); vm_compute; solve_Permutation.
Qed.

(** An event that is there is spelled, once. *)
Lemma Events_Has_token e event :
  event ∈ triggerEventOrder -> Events_Has e event = true ->
  Events_Token event ∈ Events_Tokens e.
Proof.
  intros Hv Hhas. apply list_elem_of_fmap. exists event. split; [done|].
  apply list_elem_of_In, filter_In. split; [by apply list_elem_of_In|done].
Qed.

Lemma Events_Tokens_NoDup e : is_event_set e -> NoDup (Events_Tokens e).
Proof.
  intros He%event_set_cases. rewrite !elem_of_cons, elem_of_nil in He.
  destruct_or!; subst; try done; apply (bool_decide_unpack _); by vm_compute.
Qed.

Lemma Events_Tokens_known e token :
  token ∈ Events_Tokens e -> exists event, event ∈ triggerEventOrder /\ token = Events_Token event.
Proof.
  intros (event & -> & Hin)%list_elem_of_fmap. exists event. split; [|done].
  apply list_elem_of_In, filter_In in Hin as [Hin _]. by apply list_elem_of_In.
Qed.

Definition spells (e : TriggerEvents) (event : TriggerEvents) : bool :=
  bool_decide (Events_Token event ∈ Events_Tokens e).

Lemma Events_Tokens_inj e e' :
  is_event_set e -> is_event_set e' -> Events_Tokens e ≡ₚ Events_Tokens e' -> e = e'.
Proof.
  intros He%event_set_cases He'%event_set_cases Hp.
  assert (Hall : forall event, spells e event = spells e' event)
    by (intros event; apply bool_decide_ext; by rewrite Hp).
  pose proof (Hall EventInsert) as H1. pose proof (Hall EventUpdate) as H2.
  pose proof (Hall EventDelete) as H3. clear Hp Hall.
  rewrite !elem_of_cons, elem_of_nil in He, He'.
  destruct_or?; subst; try done; vm_compute in H1, H2, H3; congruence.
Qed.

Lemma parse_events_cons events token tokens :
  parse_events events (token :: tokens) =
  match List.find (fun event => bool_decide (token = Events_Token event)) triggerEventOrder with
  | Some event => if Events_Has events event then None else parse_events (Z.lor events event) tokens
  | None => None
  end.
Proof. simpl. unfold Events_Token. by repeat case_decide; repeat case_bool_decide; simplify_eq. Qed.

Lemma parse_events_spec tokens events e :
  is_event_set events ->
  parse_events events tokens = Some e <->
  is_event_set e /\ tokens ++ Events_Tokens events ≡ₚ Events_Tokens e.
Proof.
  revert events. induction tokens as [|token tokens IH]; intros events Hev.
  { simpl. split; [intros [= ->]; by split|].
    intros [He Hp]. f_equal. by apply Events_Tokens_inj. }
  rewrite parse_events_cons. destruct (List.find _ _) as [event|] eqn:Hfind.
  - apply find_some in Hfind as [Hin%list_elem_of_In ->%bool_decide_eq_true_1].
    destruct (Events_Has events event) eqn:Hhas.
    + split; [done|]. intros [He Hp]. pose proof (Events_Tokens_NoDup e He) as Hnd.
      rewrite <- Hp in Hnd. apply NoDup_cons in Hnd as [Hno _]. destruct Hno.
      apply elem_of_app. right. by apply Events_Has_token.
    + destruct (Events_Tokens_add events event Hev Hin Hhas) as [Hset Hadd].
      rewrite (IH _ Hset). rewrite Hadd. by rewrite <- Permutation_middle.
  - split; [done|]. intros [He Hp].
    destruct (Events_Tokens_known e token) as (event & Hin & ->); [rewrite <- Hp; left|].
    apply list_elem_of_In, (find_none _ _ Hfind) in Hin.
    by rewrite bool_decide_eq_false in Hin.
Qed.

(** A declaration's event list reads back: [ParseTriggerEvents] accepts
    exactly the lists that spell a set of events in some order, each once -
    an unknown or a repeated token is refused - and returns that set. *)
Theorem ParseTriggerEvents_inverse (tokens : list string) (e : TriggerEvents) :
  ParseTriggerEvents tokens = Some e <-> is_event_set e /\ tokens ≡ₚ Events_Tokens e.
Proof.
  unfold ParseTriggerEvents. rewrite parse_events_spec by (by split).
  by rewrite app_nil_r.
Qed.

(** * The token scan *)

Definition is_brace (c : ascii) : bool := Ascii.eqb c open_brace || Ascii.eqb c close_brace.

(** [t] is written at its span of [body]: the text between two braces, with no
    brace inside, that reads as [t]. *)
Definition token_at (body : list ascii) (t : TriggerToken) : Prop :=
  exists before inner after, body = before ++ open_brace :: inner ++ close_brace :: after /\
    tok_Start t = length before /\ tok_End t = length before + length inner + 2 /\
    Forall (fun c => is_brace c = false) inner /\
    parseTriggerToken inner (tok_Start t) (tok_End t) = inl t.

Definition ends_before (t t' : TriggerToken) : Prop := tok_End t <= tok_Start t'.

Lemma parseTriggerToken_span inner i j t :
  parseTriggerToken inner i j = inl t -> tok_Start t = i /\ tok_End t = j.
Proof.
  unfold parseTriggerToken. destruct (cut_at _ _) as [before [columns|]];
    repeat case_decide; try done; try (destruct (token_columns _); [|done]); by intros [= <-].
Qed.

Lemma before_brace_closed l inner :
  before_brace l = Some (inner, false) ->
  Forall (fun c => is_brace c = false) inner /\ exists after, l = inner ++ close_brace :: after.
Proof.
  revert inner. induction l as [|c l IH]; intros inner; [done|]. simpl.
  destruct (Ascii.eqb c open_brace) eqn:Ho; [done|].
  destruct (Ascii.eqb_spec c close_brace) as [->|Hc].
  - intros [= <-]. split; [constructor|]. by exists l.
  - destruct (before_brace l) as [[inner' opens]|]; [|done]. intros [= <- ->].
    destruct (IH _ eq_refl) as (Hall & after & ->). split; [|by exists after].
    constructor; [|done]. unfold is_brace. rewrite Ho. by apply Ascii.eqb_neq in Hc as ->.
Qed.

(** Where the tokens of the bytes from [i] on are. *)
Definition located (body : list ascii) (i : nat) (tokens : list TriggerToken) : Prop :=
  Forall (token_at body) tokens /\ Forall (fun t => i <= tok_Start t) tokens /\
  StronglySorted ends_before tokens.

Lemma located_weaken body i j tokens : j <= i -> located body i tokens -> located body j tokens.
Proof.
  intros Hle (H1 & H2 & H3). split; [done|]. split; [|done].
  eapply Forall_impl; [exact H2|]. simpl. lia.
Qed.

Lemma located_cons body i t tokens :
  token_at body t -> i <= tok_Start t -> located body (tok_End t) tokens ->
  located body i (t :: tokens).
Proof.
  intros Ht Hi (H1 & H2 & H3).
  assert (tok_Start t <= tok_End t) by (destruct Ht as (? & ? & ? & _ & -> & -> & _); lia).
  split; [by constructor|]. split; [|by constructor].
  constructor; [done|]. eapply Forall_impl; [exact H2|]. simpl. lia.
Qed.

Lemma scan_tokens_located l before skip literal lineComment :
  located (before ++ l) (length before + skip)
    (scan_tokens (length before) skip literal lineComment l).1.
Proof.
  revert before skip literal lineComment.
  induction l as [|c l IH]; intros before skip literal lineComment.
  { simpl. repeat constructor. }
  assert (Hnext : forall k lit com j, j <= S (length before) + k ->
      located (before ++ c :: l) j (scan_tokens (S (length before)) k lit com l).1).
  { intros k lit com j Hj. specialize (IH (before ++ [c]) k lit com).
    rewrite length_app, <- app_assoc in IH. simpl in IH.
    replace (length before + 1) with (S (length before)) in IH by lia.
    by eapply located_weaken, IH. }
  cbn [scan_tokens]. destruct skip as [|k]; [|apply Hnext; lia].
  destruct literal; [repeat case_match; apply Hnext; lia|].
  destruct (Ascii.eqb c quote); [apply Hnext; lia|].
  destruct (Ascii.eqb c dash && head_is dash l).
  { pose proof (Hnext 0 false true (length before + 0)) as H.
    destruct (scan_tokens _ _ _ _ _). apply H. lia. }
  destruct (Ascii.eqb_spec c open_brace) as [->|]; [|apply Hnext; lia].
  destruct (before_brace l) as [[inner []]|] eqn:Hb; [apply Hnext; lia| |apply Hnext; lia].
  apply before_brace_closed in Hb as (Hall & after & Hl).
  pose proof (Hnext (S (length inner)) false lineComment (length before + length inner + 2)) as H.
  destruct (scan_tokens _ _ _ _ _) as [tokens problems]. specialize (H ltac:(lia)).
  destruct (parseTriggerToken _ _ _) as [t|] eqn:Ht;
    [|by eapply located_weaken; [|exact H]; lia].
  destruct (parseTriggerToken_span _ _ _ _ Ht) as [Hs He]. cbn [fst].
  apply located_cons; [|lia|by rewrite He]. exists before, inner, after.
  rewrite Hs, He. by rewrite Hl.
Qed.

(** * Expansion *)

(** The fixed parts of a body with its tokens' texts between them. *)
Fixpoint weave (parts tokens : list string) : string :=
  match parts, tokens with
  | part :: parts', token :: tokens' => part +:+ token +:+ weave parts' tokens'
  | part :: _, [] => part
  | [], _ => ""
  end.

Fixpoint fixed_parts (body : string) (last : nat) (tokens : list TriggerToken) : list string :=
  match tokens with
  | [] => [slice body last (String.length body)]
  | t :: rest => slice body last (tok_Start t) :: fixed_parts body (tok_End t) rest
  end.

(** The text a token is written as. *)
Definition spelling (body : string) (t : TriggerToken) : string :=
  slice body (tok_Start t) (tok_End t).

Lemma slice_join s i j k : i <= j <= k -> slice s i j +:+ slice s j k = slice s i k.
Proof.
  intros [Hij Hjk]. unfold slice. rewrite <- of_bytes_app. f_equal.
  replace (drop j (bytes s)) with (drop (j - i) (drop i (bytes s)))
    by (rewrite drop_drop; f_equal; lia).
  rewrite take_take_drop. f_equal. lia.
Qed.

Lemma slice_all s : slice s 0 (String.length s) = s.
Proof. unfold slice. rewrite drop_0, Nat.sub_0_r, <- length_bytes, firstn_all. apply of_bytes_bytes. Qed.

Lemma token_at_span body t :
  token_at (bytes body) t -> tok_Start t <= tok_End t <= String.length body.
Proof.
  intros (before & inner & after & Hb & -> & -> & _). rewrite <- length_bytes, Hb.
  rewrite !length_app. simpl. rewrite length_app. simpl. lia.
Qed.

Lemma weave_fixed_parts body tokens last :
  located (bytes body) last tokens -> last <= String.length body ->
  weave (fixed_parts body last tokens) (spelling body <$> tokens)
  = slice body last (String.length body).
Proof.
  revert last. induction tokens as [|t tokens IH]; intros last (Hat & Hge & Hs) Hlast; [done|].
  inversion Hat as [|? ? Ht Hat']; subst. inversion Hge as [|? ? Hge' _]; subst.
  inversion Hs as [|? ? Hs' Hf]; subst. pose proof (token_at_span _ _ Ht).
  cbn [fixed_parts fmap list_fmap weave]. rewrite IH by (try done; lia).
  unfold spelling. rewrite !slice_join by lia. done.
Qed.

Lemma expand_from_weave body expand tokens last :
  expand_from body expand last tokens = weave (fixed_parts body last tokens) (expand <$> tokens).
Proof.
  revert last. induction tokens as [|t tokens IH]; intros last; [done|].
  cbn [expand_from fixed_parts fmap list_fmap weave]. by rewrite IH.
Qed.

Lemma length_fixed_parts body tokens last :
  length (fixed_parts body last tokens) = S (length tokens).
Proof. revert last. induction tokens as [|t tokens IH]; intros last; simpl; [done|by rewrite IH]. Qed.

(** Expansion replaces the tokens and nothing else: the body is fixed parts
    woven with the tokens' texts, each text one brace pair that reads as its
    token, and the expanded body is the same parts woven with the tokens'
    expansions, whatever the dialect expands them to. *)
Theorem ExpandTriggerTokens_replaces (body : string) :
  let tokens := (ScanTriggerTokens body).1 in
  exists parts, length parts = S (length tokens) /\
    Forall (token_at (bytes body)) tokens /\ StronglySorted ends_before tokens /\
    body = weave parts (spelling body <$> tokens) /\
    forall expand, ExpandTriggerTokens body expand = weave parts (expand <$> tokens).
Proof.
  intros tokens. exists (fixed_parts body 0 tokens).
  destruct (scan_tokens_located (bytes body) [] 0 false false) as (Hat & Hge & Hs).
  split; [apply length_fixed_parts|]. split; [exact Hat|]. split; [exact Hs|]. split.
  - rewrite weave_fixed_parts by (try done; lia). by rewrite slice_all.
  - intros expand. unfold ExpandTriggerTokens. fold tokens. rewrite <- expand_from_weave.
    destruct tokens; [|done]. simpl. by rewrite slice_all.
Qed.
