(* ===== verification/Dialect.v ===== *)
(** The dialect seam (internal/core/dialect.go): a [Record] of the operations
    the provider-neutral code calls, and the rendering steps the three
    implementations share.  The three implementations are [Sqlite.v],
    [Postgres.v] and [SqlServer.v].

    Not in the record: connections, the run lock, statement description and
    [IsTransient] (I/O), the constant introspection queries, and [SelectSQL],
    which every dialect delegates to the renderer of
    internal/render. *)
From S2P Require Import Prelude GoStrings Core Triggers.

Record Dialect := mkDialect {
  DialectName : string;
  QuoteIdentifier : string -> string;
  (** generated DDL and CRUD *)
  CreateTableSQL : EntityMap -> string;
  CreateIndexSQL : EntityMap -> list string;
  CreateViewSQL : EntityMap -> string;
  CreateTableFromSchemaSQL : TableSchema -> string;
  CreateIndexFromSchemaSQL : string -> TableIndex -> string;
  CreateViewFromBodySQL : string -> string -> bool -> string;
  DropViewSQL : string -> bool -> string;
  InsertSQL : EntityMap -> result string;
  UpdateSQL : EntityMap -> string;
  UpdateOnlySQL : EntityMap -> list PropertyMap -> string;
  DeleteSQL : EntityMap -> bool -> string;
  (** criteria *)
  LimitOffsetClause : string -> string -> string;
  PagingRequiresOrderBy : bool;
  SupportsRowValueIn : bool;
  (** capabilities *)
  ReportsAffectedRowsBySelect : bool;
  SupportsStatementBatching : bool;
  MaxParametersPerMessage : Z;
  SupportsArrayParameters : bool;
  BindsTemporalsNatively : bool;
  SupportsMaterializedViews : bool;
  SupportsProcedures : bool;
  SupportsTransactionalDDL : bool;
  ViewDefinitionIsVerbatim : bool;
  (** types *)
  IsDeclaredTypeCompatible : string -> ColumnType -> bool;
  StorageType : option EntityMap -> PropertyMap -> string;
  (** migrations *)
  VersionTableSQL : string;
  RenameTableSQL : string -> string -> string;
  RenameColumnSQL : string -> string -> string -> string;
  AddColumnSQL : string -> string -> string -> bool -> string -> string;
  DropColumnSQL : string -> string -> string;
  DropTableSQL : string -> string;
  CreateTriggerSQL : string -> bool -> TriggerDefinition -> result (list string);
  DropTriggerSQL : string -> string -> list string;
  DropIndexSQL : string -> string -> string }.

(** ** Characters Rocq strings cannot spell readably *)

Definition nl : string := String "010"%char "".
Definition dquote : string := String "034"%char "".

(** ** Shared rendering steps *)

(** The column loop's [first] flag: each entry on a line of its own. *)
Definition column_lines (lines : list string) : string :=
  match lines with
  | [] => ""
  | _ => nl +:+ "    " +:+ Join lines ("," +:+ nl +:+ "    ")
  end.

(** A switch over declared base names, one row per case. *)
Fixpoint type_in_table (table : list (list string * list ColumnType)) (base : string)
    (columnType : ColumnType) : bool :=
  match table with
  | [] => false
  | (names, types) :: rest =>
      if decide (base ∈ names) then bool_decide (columnType ∈ types)
      else type_in_table rest base columnType
  end.

Definition parameter (p : PropertyMap) : string := "@" +:+ ColumnName p.

(** The columns an INSERT lists: those the database does not generate. *)
Definition insert_properties (m : EntityMap) : list PropertyMap :=
  List.filter (fun p => negb (IsGenerated p)) (Properties m).

(** The columns a full-row UPDATE sets. *)
Definition update_properties (m : EntityMap) : list PropertyMap :=
  List.filter (fun p => negb (IsKey p) && negb (IsVersion p) && negb (IsGenerated p))
    (Properties m).

Section Quoted.
Context (quoted : string -> string).

Definition assignment (p : PropertyMap) : string :=
  quoted (ColumnName p) +:+ " = " +:+ parameter p.

Definition key_predicate (m : EntityMap) : string :=
  Join (assignment <$> KeyProperties m) " and ".

Definition insert_into (m : EntityMap) : string :=
  "insert into " +:+ quoted (RelationName m) +:+
  " (" +:+ Join ((fun p => quoted (ColumnName p)) <$> insert_properties m) ", " +:+ ")" +:+
  " values (" +:+ Join (parameter <$> insert_properties m) ", " +:+ ")".

Definition version_bump (m : EntityMap) : list string :=
  match VersionProperty m with
  | Some version =>
      [quoted (ColumnName version) +:+ " = " +:+ quoted (ColumnName version) +:+ " + 1"]
  | None => []
  end.

Definition version_check (m : EntityMap) : string :=
  match VersionProperty m with
  | Some version => " and " +:+ assignment version
  | None => ""
  end.

Definition render_update (m : EntityMap) (set : list PropertyMap) : string :=
  "update " +:+ quoted (RelationName m) +:+
  " set " +:+ Join ((assignment <$> set) ++ version_bump m) ", " +:+
  " where " +:+ key_predicate m +:+ version_check m.

Definition render_delete (m : EntityMap) (checkVersion : bool) : string :=
  "delete from " +:+ quoted (RelationName m) +:+ " where " +:+ key_predicate m +:+
  (if checkVersion then version_check m else "").

(** An index's columns, and the table-level key constraint. *)
Definition index_columns (columns : list (string * bool)) : string :=
  Join ((fun c : string * bool => quoted c.1 +:+ (if c.2 then " desc" else "")) <$> columns) ", ".

Definition unique_word (unique : bool) : string := if unique then "unique " else "".

Definition key_constraint (names : list string) : string :=
  "," +:+ nl +:+ "    primary key (" +:+ Join (quoted <$> names) ", " +:+ ")".

End Quoted.

Definition map_index_columns (index : EntityIndex) : list (string * bool) :=
  (fun c => (ic_ColumnName c, ic_Descending c)) <$> ei_Columns index.
Definition schema_index_columns (index : TableIndex) : list (string * bool) :=
  (fun c => (ip_ColumnName c, ip_Descending c)) <$> ti_Columns index.

(** The natural key's trailing constraint of [CreateTableSQL]. *)
Definition natural_key (quoted : string -> string) (m : EntityMap) : string :=
  if bool_decide (KeyStrategy_ m = KeyNatural) then
    match KeyProperties m with
    | [] => ""
    | keys => key_constraint quoted (ColumnName <$> keys)
    end
  else "".

(** The plain keys' trailing constraint of [CreateTableFromSchemaSQL]. *)
Definition generated_key (c : TableColumn) : bool := tc_Key c && tc_Generated c.

Definition plain_keys (schema : TableSchema) : list string :=
  tc_Name <$> List.filter (fun c => tc_Key c && negb (tc_Generated c)) (ts_Columns schema).

Definition schema_key (quoted : string -> string) (schema : TableSchema) : string :=
  match plain_keys schema with
  | [] => ""
  | keys =>
      if existsb generated_key (ts_Columns schema) then ""
      else key_constraint quoted keys
  end.

(** [m.KeyProperties[0]] panics when the map has no key. *)
Definition first_key (m : EntityMap) : result PropertyMap :=
  match KeyProperties m with
  | key :: _ => Ok key
  | [] => Fail (NewError "panic" "index out of range")
  end.
