(* ===== verification/Sqlite.v ===== *)
(** The SQLite dialect (sqlite/dialect.go, sqlite/trigger.go): names unquoted,
    STRICT tables, the rowid alias for a generated key, one row-level trigger
    per event. *)
From S2P Require Import Prelude GoStrings Core Triggers Dialect.

Definition QuoteIdentifier (identifier : string) : string := identifier.

Definition LimitOffsetClause (limitParameter offsetParameter : string) : string :=
  if bool_decide (limitParameter <> "") && bool_decide (offsetParameter <> "")
  then "limit " +:+ limitParameter +:+ " offset " +:+ offsetParameter
  else if bool_decide (limitParameter <> "") then "limit " +:+ limitParameter
  else if bool_decide (offsetParameter <> "") then "limit -1 offset " +:+ offsetParameter
  else "".

Definition IsDeclaredTypeCompatible (declaredType : string) (columnType : ColumnType) : bool :=
  let declared := ToUpper (TrimSpace declaredType) in
  if bool_decide (declared = "") || bool_decide (declared = "ANY") then true else
  match columnType with
  | TypeEnumInt => bool_decide (declared = "INT") || bool_decide (declared = "INTEGER")
  | TypeEnumText => bool_decide (declared = "TEXT")
  | _ =>
      if bool_decide (declared = "INT") || bool_decide (declared = "INTEGER")
      then IsInteger columnType || bool_decide (columnType = TypeBool)
      else if bool_decide (declared = "REAL")
      then bool_decide (columnType = TypeDouble) || bool_decide (columnType = TypeFloat)
      else if bool_decide (declared = "BLOB")
      then bool_decide (columnType = TypeBytes) || bool_decide (columnType = TypeGUID)
      else if bool_decide (declared = "TEXT")
      then bool_decide (columnType = TypeString) || bool_decide (columnType = TypeDecimal) ||
           bool_decide (columnType = TypeGUID) || IsTemporal columnType
      else false
  end.

Definition StorageType (_ : option EntityMap) (property : PropertyMap) : string :=
  match ColumnType_ property with
  | TypeEnumInt | TypeInt16 | TypeInt32 | TypeInt64 | TypeBool => "INTEGER"
  | TypeDouble | TypeFloat => "REAL"
  | TypeBytes => "BLOB"
  | _ => "TEXT"
  end.

Definition VersionTableSQL : string :=
  "create table if not exists schema_version (" +:+ nl +:+
  "    version      INTEGER NOT NULL," +:+ nl +:+
  "    object       TEXT NOT NULL," +:+ nl +:+
  "    description  TEXT NOT NULL," +:+ nl +:+
  "    checksum     TEXT NOT NULL," +:+ nl +:+
  "    applied_at   TEXT NOT NULL," +:+ nl +:+
  "    execution_ms INTEGER NOT NULL," +:+ nl +:+
  "    primary key (version, object)" +:+ nl +:+
  ") STRICT".

(** ** Migration actions *)

Definition RenameTableSQL (fromName toName : string) : string :=
  "alter table " +:+ fromName +:+ " rename to " +:+ toName.

Definition RenameColumnSQL (table fromName toName : string) : string :=
  "alter table " +:+ table +:+ " rename column " +:+ fromName +:+ " to " +:+ toName.

Definition AddColumnSQL (table column storageType : string) (nullable : bool)
    (defaultSQL : string) : string :=
  "alter table " +:+ table +:+ " add column " +:+ column +:+ " " +:+ storageType +:+
  (if nullable then "" else " not null") +:+
  (if bool_decide (defaultSQL <> "") then " default " +:+ defaultSQL else "").

Definition DropColumnSQL (table column : string) : string :=
  "alter table " +:+ table +:+ " drop column " +:+ column.
Definition DropTableSQL (table : string) : string := "drop table " +:+ table.
Definition DropIndexSQL (table index : string) : string := "drop index " +:+ index.

(** ** Generated DDL *)

Definition CreateViewFromBodySQL (view body : string) (_ : bool) : string :=
  "create view if not exists " +:+ view +:+ " as" +:+ nl +:+ body.

Definition CreateViewSQL (m : EntityMap) : string :=
  "create view if not exists " +:+ RelationName m +:+ " as" +:+ nl +:+ DefiningSQL m.

Definition DropViewSQL (view : string) (_ : bool) : string := "drop view if exists " +:+ view.

Definition column_line (m : EntityMap) (property : PropertyMap) : string :=
  ColumnName property +:+ " " +:+
  if bool_decide (KeyStrategy_ m = KeyDatabaseGenerated) && IsKey property
  then "INTEGER PRIMARY KEY"
  else StorageType (Some m) property +:+
       (if IsNullable property then "" else " NOT NULL") +:+
       (if bool_decide (KeyStrategy_ m = KeyClientGuid) && IsKey property
        then " PRIMARY KEY" else "").

Definition CreateTableSQL (m : EntityMap) : string :=
  "create table if not exists " +:+ RelationName m +:+ " (" +:+
  column_lines (column_line m <$> Properties m) +:+ natural_key QuoteIdentifier m +:+
  nl +:+ ") STRICT".

Definition schema_column_line (column : TableColumn) : string :=
  tc_Name column +:+ " " +:+
  if generated_key column then "INTEGER PRIMARY KEY"
  else tc_StorageType column +:+ (if tc_Nullable column then "" else " NOT NULL").

Definition CreateTableFromSchemaSQL (schema : TableSchema) : string :=
  "create table if not exists " +:+ ts_Name schema +:+ " (" +:+
  column_lines (schema_column_line <$> ts_Columns schema) +:+
  schema_key QuoteIdentifier schema +:+ nl +:+ ") STRICT".

Definition create_index (unique : bool) (name table : string) (columns : list (string * bool)) : string :=
  "create " +:+ unique_word unique +:+ "index if not exists " +:+ name +:+ " on " +:+ table +:+
  " (" +:+ index_columns QuoteIdentifier columns +:+ ")".

Definition CreateIndexSQL (m : EntityMap) : list string :=
  (fun index => create_index (ei_Unique index) (ei_Name index) (RelationName m)
                  (map_index_columns index)) <$> Indexes m.

Definition CreateIndexFromSchemaSQL (table : string) (index : TableIndex) : string :=
  create_index (ti_Unique index) (ti_Name index) table (schema_index_columns index).

(** ** Generated CRUD *)

Definition InsertSQL (m : EntityMap) : result string :=
  let sql := insert_into QuoteIdentifier m in
  if bool_decide (KeyStrategy_ m = KeyDatabaseGenerated)
  then let* key := first_key m in Ok (sql +:+ " returning " +:+ ColumnName key)
  else Ok sql.

Definition UpdateSQL (m : EntityMap) : string :=
  render_update QuoteIdentifier m (update_properties m).
Definition UpdateOnlySQL (m : EntityMap) (properties : list PropertyMap) : string :=
  render_update QuoteIdentifier m properties.
Definition DeleteSQL (m : EntityMap) (checkVersion : bool) : string :=
  render_delete QuoteIdentifier m checkVersion.

(** ** Triggers (sqlite/trigger.go) *)

Definition sqliteNowExpansion : string := "strftime('%Y-%m-%dT%H:%M:%fZ', 'now')".

Definition rowRelation (row : string) (columns : list string) : string :=
  "(select " +:+ Join ((fun c => row +:+ "." +:+ c +:+ " as " +:+ c) <$> columns) ", " +:+ ")".

Definition expandSQLiteToken (token : TriggerToken) : string :=
  match tok_Kind token with
  | TokenNew => rowRelation "new" (tok_Columns token)
  | TokenOld => rowRelation "old" (tok_Columns token)
  | TokenNow => sqliteNowExpansion
  end.

Definition sqliteTimingWord (timing : TriggerTiming) : string :=
  if bool_decide (timing = TimingInsteadOf) then "instead of" else TriggerTiming_Token timing.

Definition event_trigger (relation body : string) (trigger : TriggerDefinition)
    (several : bool) (event : TriggerEvents) : string :=
  let name := tr_Name trigger +:+ (if several then "_" +:+ Events_Token event else "") in
  "create trigger " +:+ QuoteIdentifier name +:+ " " +:+ sqliteTimingWord (tr_Timing trigger) +:+
  " " +:+ Events_Token event +:+
  (if bool_decide (event = EventUpdate) && bool_decide (tr_UpdateOf trigger <> [])
   then " of " +:+ Join (QuoteIdentifier <$> tr_UpdateOf trigger) ", " else "") +:+
  " on " +:+ QuoteIdentifier relation +:+ " for each row" +:+
  nl +:+ "begin" +:+ nl +:+ body +:+ nl +:+ "end".

Definition CreateTriggerSQL (relation : string) (onView : bool) (trigger : TriggerDefinition)
    : result (list string) :=
  if bool_decide (tr_Timing trigger = TimingInsteadOf) && negb onView
  then Fail (NewError "DDL-005" (tr_Name trigger))
  else
    let* body := RenderTriggerBody (tr_Name trigger) (tr_SQL trigger) expandSQLiteToken in
    let events := Events_List (tr_Events trigger) in
    Ok (event_trigger relation body trigger (1 <? length events)%nat <$> events).

Definition DropTriggerSQL (relation name : string) : list string :=
  ("drop trigger if exists " +:+ QuoteIdentifier name) ::
  ((fun event => "drop trigger if exists " +:+ QuoteIdentifier (name +:+ "_" +:+ Events_Token event))
     <$> [EventInsert; EventUpdate; EventDelete]).

Definition dialect : Dialect := mkDialect "sqlite"
  QuoteIdentifier CreateTableSQL CreateIndexSQL CreateViewSQL
  CreateTableFromSchemaSQL CreateIndexFromSchemaSQL CreateViewFromBodySQL DropViewSQL
  InsertSQL UpdateSQL UpdateOnlySQL DeleteSQL
  LimitOffsetClause false true
  false false 0%Z false false false false true true
  IsDeclaredTypeCompatible StorageType
  VersionTableSQL RenameTableSQL RenameColumnSQL AddColumnSQL DropColumnSQL DropTableSQL
  CreateTriggerSQL DropTriggerSQL DropIndexSQL.
