(* ===== verification/Postgres.v ===== *)
(** The PostgreSQL dialect (postgres/dialect.go, postgres/trigger.go):
    double-quoted identifiers, identity keys with [returning], a function and a
    row-level trigger per declaration. *)
From S2P Require Import Prelude GoStrings Core Triggers Dialect.

Definition QuoteIdentifier (identifier : string) : string :=
  dquote +:+ ReplaceAll identifier "034"%char (dquote +:+ dquote) +:+ dquote.

Definition LimitOffsetClause (limitParameter offsetParameter : string) : string :=
  if bool_decide (limitParameter <> "") && bool_decide (offsetParameter <> "")
  then "limit " +:+ limitParameter +:+ " offset " +:+ offsetParameter
  else if bool_decide (limitParameter <> "") then "limit " +:+ limitParameter
  else if bool_decide (offsetParameter <> "") then "offset " +:+ offsetParameter
  else "".

(** The base name: everything inside parentheses dropped, white space collapsed. *)
Fixpoint outside_parens (depth : nat) (l : list ascii) : list ascii :=
  match l with
  | [] => []
  | c :: l' =>
      if Ascii.eqb c "("%char then outside_parens (S depth) l'
      else if Ascii.eqb c ")"%char then outside_parens (pred depth) l'
      else match depth with
           | 0 => c :: outside_parens 0 l'
           | S _ => outside_parens depth l'
           end
  end.

Definition baseTypeName (declaredType : string) : string :=
  Join (Fields (of_bytes (outside_parens 0 (bytes (ToLower (TrimSpace declaredType)))))) " ".

(** The rows of the table (spec/dialects.md, VAL-011): declared base names and the tokens
    they hold. *)
Definition compatible_types : list (list string * list ColumnType) :=
  [ (["integer"; "int4"], [TypeInt32; TypeInt64; TypeInt16; TypeEnumInt]);
    (["bigint"; "int8"], [TypeInt64; TypeEnumInt]);
    (["smallint"; "int2"], [TypeInt16; TypeInt32; TypeInt64; TypeEnumInt]);
    (["boolean"; "bool"], [TypeBool]);
    (["numeric"; "decimal"; "money"], [TypeDecimal]);
    (["double precision"; "float8"], [TypeDouble]);
    (["real"; "float4"], [TypeFloat]);
    (["text"; "character varying"; "varchar"; "character"; "char"], [TypeString; TypeEnumText]);
    (["name"], [TypeString]);
    (["bytea"], [TypeBytes]);
    (["uuid"], [TypeGUID]);
    (["timestamp with time zone"; "timestamptz"], [TypeDateTime; TypeDateTimeOffset]);
    (["timestamp without time zone"; "timestamp"], [TypeDateTime]);
    (["date"], [TypeDateTime; TypeDate]);
    (["time without time zone"; "time"], [TypeTime]) ].

Definition IsDeclaredTypeCompatible (declaredType : string) (columnType : ColumnType) : bool :=
  type_in_table compatible_types (baseTypeName declaredType) columnType.

Definition StorageType (_ : option EntityMap) (property : PropertyMap) : string :=
  match ColumnType_ property with
  | TypeInt16 => "smallint"
  | TypeInt32 | TypeEnumInt => "integer"
  | TypeInt64 => "bigint"
  | TypeBool => "boolean"
  | TypeDecimal =>
      if (0 <? Precision property)%Z
      then "numeric(" +:+ Itoa (Precision property) +:+ "," +:+ Itoa (Scale property) +:+ ")"
      else "numeric"
  | TypeDouble => "double precision"
  | TypeFloat => "real"
  | TypeGUID => "uuid"
  | TypeBytes => "bytea"
  | TypeDateTime | TypeDateTimeOffset => "timestamp with time zone"
  | TypeDate => "date"
  | TypeTime => "time without time zone"
  | TypeString =>
      if (0 <? Length property)%Z
      then "character varying(" +:+ Itoa (Length property) +:+ ")"
      else "text"
  | _ => "text"
  end.

Definition VersionTableSQL : string :=
  "create table if not exists schema_version (" +:+ nl +:+
  "    version      bigint not null," +:+ nl +:+
  "    object       text not null," +:+ nl +:+
  "    description  text not null," +:+ nl +:+
  "    checksum     text not null," +:+ nl +:+
  "    applied_at   text not null," +:+ nl +:+
  "    execution_ms bigint not null," +:+ nl +:+
  "    primary key (version, object)" +:+ nl +:+
  ")".

(** ** Migration actions *)

Definition RenameTableSQL (fromName toName : string) : string :=
  "alter table " +:+ QuoteIdentifier fromName +:+ " rename to " +:+ QuoteIdentifier toName.

Definition RenameColumnSQL (table fromName toName : string) : string :=
  "alter table " +:+ QuoteIdentifier table +:+ " rename column " +:+ QuoteIdentifier fromName +:+
  " to " +:+ QuoteIdentifier toName.

Definition AddColumnSQL (table column storageType : string) (nullable : bool)
    (defaultSQL : string) : string :=
  "alter table " +:+ QuoteIdentifier table +:+ " add column " +:+ QuoteIdentifier column +:+
  " " +:+ storageType +:+
  (if nullable then "" else " not null") +:+
  (if bool_decide (defaultSQL <> "") then " default " +:+ defaultSQL else "").

Definition DropColumnSQL (table column : string) : string :=
  "alter table " +:+ QuoteIdentifier table +:+ " drop column " +:+ QuoteIdentifier column.
Definition DropTableSQL (table : string) : string := "drop table " +:+ QuoteIdentifier table.
Definition DropIndexSQL (table index : string) : string := "drop index " +:+ QuoteIdentifier index.

(** ** Generated DDL *)

Definition CreateViewFromBodySQL (view body : string) (materialized : bool) : string :=
  if materialized
  then "create materialized view if not exists " +:+ QuoteIdentifier view +:+ " as" +:+ nl +:+ body
  else "create or replace view " +:+ QuoteIdentifier view +:+ " as" +:+ nl +:+ body.

Definition CreateViewSQL (m : EntityMap) : string :=
  CreateViewFromBodySQL (RelationName m) (DefiningSQL m)
    (bool_decide (Kind m = RelationMaterializedView)).

Definition DropViewSQL (view : string) (materialized : bool) : string :=
  if materialized then "drop materialized view if exists " +:+ QuoteIdentifier view
  else "drop view if exists " +:+ QuoteIdentifier view.

Definition column_line (m : EntityMap) (property : PropertyMap) : string :=
  QuoteIdentifier (ColumnName property) +:+ " " +:+ StorageType (Some m) property +:+
  if bool_decide (KeyStrategy_ m = KeyDatabaseGenerated) && IsKey property
  then " generated by default as identity primary key"
  else (if IsNullable property then "" else " not null") +:+
       (if bool_decide (KeyStrategy_ m = KeyClientGuid) && IsKey property
        then " primary key" else "").

Definition CreateTableSQL (m : EntityMap) : string :=
  "create table if not exists " +:+ QuoteIdentifier (RelationName m) +:+ " (" +:+
  column_lines (column_line m <$> Properties m) +:+ natural_key QuoteIdentifier m +:+
  nl +:+ ")".

Definition schema_column_line (column : TableColumn) : string :=
  QuoteIdentifier (tc_Name column) +:+ " " +:+ tc_StorageType column +:+
  if generated_key column then " generated by default as identity primary key"
  else if tc_Nullable column then "" else " not null".

Definition CreateTableFromSchemaSQL (schema : TableSchema) : string :=
  "create table if not exists " +:+ QuoteIdentifier (ts_Name schema) +:+ " (" +:+
  column_lines (schema_column_line <$> ts_Columns schema) +:+
  schema_key QuoteIdentifier schema +:+ nl +:+ ")".

Definition create_index (unique : bool) (name table : string) (columns : list (string * bool)) : string :=
  "create " +:+ unique_word unique +:+ "index if not exists " +:+ QuoteIdentifier name +:+ " on " +:+
  QuoteIdentifier table +:+ " (" +:+ index_columns QuoteIdentifier columns +:+ ")".

Definition CreateIndexSQL (m : EntityMap) : list string :=
  (fun index => create_index (ei_Unique index) (ei_Name index) (RelationName m)
                  (map_index_columns index)) <$> Indexes m.

Definition CreateIndexFromSchemaSQL (table : string) (index : TableIndex) : string :=
  create_index (ti_Unique index) (ti_Name index) table (schema_index_columns index).

(** ** Generated CRUD *)

Definition InsertSQL (m : EntityMap) : result string :=
  let sql := insert_into QuoteIdentifier m in
  if bool_decide (KeyStrategy_ m = KeyDatabaseGenerated)
  then let* key := first_key m in Ok (sql +:+ " returning " +:+ QuoteIdentifier (ColumnName key))
  else Ok sql.

Definition UpdateSQL (m : EntityMap) : string :=
  render_update QuoteIdentifier m (update_properties m).
Definition UpdateOnlySQL (m : EntityMap) (properties : list PropertyMap) : string :=
  render_update QuoteIdentifier m properties.
Definition DeleteSQL (m : EntityMap) (checkVersion : bool) : string :=
  render_delete QuoteIdentifier m checkVersion.

(** ** Triggers (postgres/trigger.go) *)

Definition pgNowExpansion : string := "now()".

Definition rowRelation (row : string) (columns : list string) : string :=
  "(select " +:+
  Join ((fun c => row +:+ "." +:+ QuoteIdentifier c +:+ " as " +:+ QuoteIdentifier c) <$> columns) ", " +:+
  ")".

Definition expandToken (token : TriggerToken) : string :=
  match tok_Kind token with
  | TokenNew => rowRelation "new" (tok_Columns token)
  | TokenOld => rowRelation "old" (tok_Columns token)
  | TokenNow => pgNowExpansion
  end.

Definition event_word (trigger : TriggerDefinition) (event : TriggerEvents) : string :=
  Events_Token event +:+
  (if bool_decide (event = EventUpdate) && bool_decide (tr_UpdateOf trigger <> [])
   then " of " +:+ Join (QuoteIdentifier <$> tr_UpdateOf trigger) ", " else "").

Definition function_tail (timing : TriggerTiming) : string :=
  if bool_decide (timing <> TimingAfter)
  then nl +:+ "    if tg_op = 'DELETE' then return old; end if;" +:+ nl +:+
       "    return new;" +:+ nl +:+ "end" +:+ nl
  else nl +:+ "    return null;" +:+ nl +:+ "end" +:+ nl.

Definition CreateTriggerSQL (relation : string) (onView : bool) (trigger : TriggerDefinition)
    : result (list string) :=
  if bool_decide (tr_Timing trigger = TimingInsteadOf) && negb onView
  then Fail (NewError "DDL-005" (tr_Name trigger))
  else
    let function := QuoteIdentifier (tr_Name trigger +:+ "_fn") in
    let* body := RenderTriggerBody (tr_Name trigger) (tr_SQL trigger) expandToken in
    let events := event_word trigger <$> Events_List (tr_Events trigger) in
    let timing :=
      if bool_decide (tr_Timing trigger = TimingInsteadOf) then "instead of"
      else TriggerTiming_Token (tr_Timing trigger) in
    Ok [ "create or replace function " +:+ function +:+ "() returns trigger language plpgsql as $$" +:+
           nl +:+ "begin" +:+ nl +:+ body +:+ function_tail (tr_Timing trigger) +:+ "$$";
         "create trigger " +:+ QuoteIdentifier (tr_Name trigger) +:+ " " +:+ timing +:+ " " +:+
           Join events " or " +:+ " on " +:+ QuoteIdentifier relation +:+
           " for each row execute function " +:+ function +:+ "()" ].

Definition DropTriggerSQL (relation name : string) : list string :=
  [ "drop trigger if exists " +:+ QuoteIdentifier name +:+ " on " +:+ QuoteIdentifier relation;
    "drop function if exists " +:+ QuoteIdentifier (name +:+ "_fn") +:+ "()" ].

Definition dialect : Dialect := mkDialect "postgres"
  QuoteIdentifier CreateTableSQL CreateIndexSQL CreateViewSQL
  CreateTableFromSchemaSQL CreateIndexFromSchemaSQL CreateViewFromBodySQL DropViewSQL
  InsertSQL UpdateSQL UpdateOnlySQL DeleteSQL
  LimitOffsetClause false true
  false true 0%Z true true true true true false
  IsDeclaredTypeCompatible StorageType
  VersionTableSQL RenameTableSQL RenameColumnSQL AddColumnSQL DropColumnSQL DropTableSQL
  CreateTriggerSQL DropTriggerSQL DropIndexSQL.
