(* ===== verification/SqlServer.v ===== *)
(** The SQL Server dialect (sqlserver/dialect.go, sqlserver/trigger.go):
    bracketed identifiers, OFFSET/FETCH paging, guarded DDL, [scope_identity()]
    keys, statement counts read with [@@rowcount]. *)
From S2P Require Import Prelude GoStrings Core Triggers Dialect.

Definition QuoteIdentifier (identifier : string) : string :=
  "[" +:+ ReplaceAll identifier "]"%char "]]" +:+ "]".

(** A Unicode string literal, doubling any single quote. *)
Definition nLiteral (text : string) : string :=
  "N'" +:+ ReplaceAll text "'"%char "''" +:+ "'".

Definition LimitOffsetClause (limitParameter offsetParameter : string) : string :=
  if bool_decide (limitParameter <> "") && bool_decide (offsetParameter <> "")
  then "offset " +:+ offsetParameter +:+ " rows fetch next " +:+ limitParameter +:+ " rows only"
  else if bool_decide (limitParameter <> "")
  then "offset 0 rows fetch next " +:+ limitParameter +:+ " rows only"
  else if bool_decide (offsetParameter <> "") then "offset " +:+ offsetParameter +:+ " rows"
  else "".

(** The base name: the text before the first parenthesis. *)
Definition baseTypeName (declaredType : string) : string :=
  let name := ToLower (TrimSpace declaredType) in
  match cut_at "("%char (bytes name) with
  | (before, Some _) => TrimSpace (of_bytes before)
  | (_, None) => name
  end.

Definition compatible_types : list (list string * list ColumnType) :=
  [ (["int"; "tinyint"], [TypeInt32; TypeInt64; TypeInt16; TypeEnumInt]);
    (["bigint"], [TypeInt64; TypeEnumInt]);
    (["smallint"], [TypeInt16; TypeInt32; TypeInt64; TypeEnumInt]);
    (["bit"], [TypeBool]);
    (["decimal"; "numeric"; "money"; "smallmoney"], [TypeDecimal]);
    (["float"], [TypeDouble]);
    (["real"], [TypeFloat]);
    (["nvarchar"; "varchar"; "nchar"; "char"], [TypeString; TypeEnumText]);
    (["ntext"; "text"], [TypeString]);
    (["varbinary"; "binary"; "image"], [TypeBytes]);
    (["uniqueidentifier"], [TypeGUID]);
    (["datetime"; "datetime2"; "smalldatetime"], [TypeDateTime]);
    (["datetimeoffset"], [TypeDateTime; TypeDateTimeOffset]);
    (["date"], [TypeDateTime; TypeDate]);
    (["time"], [TypeTime]) ].

Definition IsDeclaredTypeCompatible (declaredType : string) (columnType : ColumnType) : bool :=
  type_in_table compatible_types (baseTypeName declaredType) columnType.

(** A key column, or one of a declared index: no [(max)] type there. *)
Definition isIndexable (m : option EntityMap) (property : PropertyMap) : bool :=
  if IsKey property then true else
  match m with
  | None => false
  | Some m =>
      existsb (fun index =>
        existsb (fun column => bool_decide (ic_ColumnName column = ColumnName property))
          (ei_Columns index)) (Indexes m)
  end.

Definition sizedType (name : string) (property : PropertyMap) (indexable : bool) : string :=
  if (0 <? Length property)%Z then name +:+ "(" +:+ Itoa (Length property) +:+ ")"
  else if indexable then name +:+ "(450)"
  else name +:+ "(max)".

Definition StorageType (m : option EntityMap) (property : PropertyMap) : string :=
  match ColumnType_ property with
  | TypeInt16 => "smallint"
  | TypeInt32 | TypeEnumInt => "int"
  | TypeInt64 => "bigint"
  | TypeBool => "bit"
  | TypeDecimal =>
      if (0 <? Precision property)%Z
      then "decimal(" +:+ Itoa (Precision property) +:+ "," +:+ Itoa (Scale property) +:+ ")"
      else "decimal(38,9)"
  | TypeDouble => "float"
  | TypeFloat => "real"
  | TypeGUID => "uniqueidentifier"
  | TypeBytes => sizedType "varbinary" property (isIndexable m property)
  | TypeDateTime | TypeDateTimeOffset => "datetimeoffset"
  | TypeDate => "date"
  | TypeTime => "time"
  | TypeEnumText => "nvarchar(100)"
  | TypeString | TypeCustom => sizedType "nvarchar" property (isIndexable m property)
  end.

Definition VersionTableSQL : string :=
  "if object_id(N'schema_version', N'U') is null" +:+ nl +:+
  "create table schema_version (" +:+ nl +:+
  "    version      bigint        not null," +:+ nl +:+
  "    object       nvarchar(200) not null," +:+ nl +:+
  "    description  nvarchar(400) not null," +:+ nl +:+
  "    checksum     nvarchar(64)  not null," +:+ nl +:+
  "    applied_at   nvarchar(40)  not null," +:+ nl +:+
  "    execution_ms bigint        not null," +:+ nl +:+
  "    primary key (version, object)" +:+ nl +:+
  ")".

(** ** Migration actions *)

Definition RenameTableSQL (fromName toName : string) : string :=
  "exec sp_rename " +:+ nLiteral fromName +:+ ", " +:+ nLiteral toName.

Definition RenameColumnSQL (table fromName toName : string) : string :=
  "exec sp_rename " +:+ nLiteral (table +:+ "." +:+ fromName) +:+ ", " +:+ nLiteral toName +:+
  ", 'COLUMN'".

Definition AddColumnSQL (table column storageType : string) (nullable : bool)
    (defaultSQL : string) : string :=
  "alter table " +:+ QuoteIdentifier table +:+ " add " +:+ QuoteIdentifier column +:+
  " " +:+ storageType +:+
  (if nullable then "" else " not null") +:+
  (if bool_decide (defaultSQL <> "") then " default " +:+ defaultSQL else "").

Definition DropColumnSQL (table column : string) : string :=
  let quotedTable := QuoteIdentifier table in
  "declare @df sysname = (select dc.name from sys.default_constraints dc " +:+
  "join sys.columns c on c.object_id = dc.parent_object_id and c.column_id = dc.parent_column_id " +:+
  "where dc.parent_object_id = object_id(" +:+ nLiteral table +:+ ") and c.name = " +:+
  nLiteral column +:+ "); " +:+
  "if @df is not null exec(N'alter table " +:+ ReplaceAll quotedTable "'"%char "''" +:+
  " drop constraint ' + quotename(@df)); " +:+
  "alter table " +:+ quotedTable +:+ " drop column " +:+ QuoteIdentifier column.

Definition DropTableSQL (table : string) : string := "drop table " +:+ QuoteIdentifier table.
Definition DropIndexSQL (table index : string) : string :=
  "drop index " +:+ QuoteIdentifier index +:+ " on " +:+ QuoteIdentifier table.

(** ** Generated DDL *)

Definition CreateViewFromBodySQL (view body : string) (_ : bool) : string :=
  "create or alter view " +:+ QuoteIdentifier view +:+ " as" +:+ nl +:+ body.

Definition CreateViewSQL (m : EntityMap) : string :=
  "create or alter view " +:+ QuoteIdentifier (RelationName m) +:+ " as" +:+ nl +:+ DefiningSQL m.

Definition DropViewSQL (view : string) (_ : bool) : string :=
  "drop view if exists " +:+ QuoteIdentifier view.

Definition column_line (m : EntityMap) (property : PropertyMap) : string :=
  QuoteIdentifier (ColumnName property) +:+ " " +:+ StorageType (Some m) property +:+
  if bool_decide (KeyStrategy_ m = KeyDatabaseGenerated) && IsKey property
  then " identity(1,1) primary key"
  else (if IsNullable property then "" else " not null") +:+
       (if bool_decide (KeyStrategy_ m = KeyClientGuid) && IsKey property
        then " primary key" else "").

Definition CreateTableSQL (m : EntityMap) : string :=
  "if object_id(" +:+ nLiteral (RelationName m) +:+ ", N'U') is null" +:+ nl +:+
  "create table " +:+ QuoteIdentifier (RelationName m) +:+ " (" +:+
  column_lines (column_line m <$> Properties m) +:+ natural_key QuoteIdentifier m +:+
  nl +:+ ")".

Definition schema_column_line (column : TableColumn) : string :=
  QuoteIdentifier (tc_Name column) +:+ " " +:+ tc_StorageType column +:+
  if generated_key column then " identity(1,1) primary key"
  else if tc_Nullable column then "" else " not null".

Definition CreateTableFromSchemaSQL (schema : TableSchema) : string :=
  "if object_id(" +:+ nLiteral (ts_Name schema) +:+ ", N'U') is null" +:+ nl +:+
  "create table " +:+ QuoteIdentifier (ts_Name schema) +:+ " (" +:+
  column_lines (schema_column_line <$> ts_Columns schema) +:+
  schema_key QuoteIdentifier schema +:+ nl +:+ ")".

Definition create_index (unique : bool) (name table : string) (columns : list (string * bool)) : string :=
  "if not exists (select 1 from sys.indexes where name = " +:+ nLiteral name +:+
  " and object_id = object_id(" +:+ nLiteral table +:+ "))" +:+ nl +:+
  "create " +:+ unique_word unique +:+ "index " +:+ QuoteIdentifier name +:+ " on " +:+
  QuoteIdentifier table +:+ " (" +:+ index_columns QuoteIdentifier columns +:+ ")".

Definition CreateIndexSQL (m : EntityMap) : list string :=
  (fun index => create_index (ei_Unique index) (ei_Name index) (RelationName m)
                  (map_index_columns index)) <$> Indexes m.

Definition CreateIndexFromSchemaSQL (table : string) (index : TableIndex) : string :=
  create_index (ti_Unique index) (ti_Name index) table (schema_index_columns index).

(** ** Generated CRUD *)

Definition reportingCount (statement : string) : string :=
  "set nocount on; " +:+ statement +:+ "; select @@rowcount; set nocount off".

Definition InsertSQL (m : EntityMap) : result string :=
  let sql := insert_into QuoteIdentifier m in
  Ok (if bool_decide (KeyStrategy_ m = KeyDatabaseGenerated)
      then sql +:+ "; select cast(scope_identity() as bigint)"
      else sql).

Definition UpdateSQL (m : EntityMap) : string :=
  reportingCount (render_update QuoteIdentifier m (update_properties m)).
Definition UpdateOnlySQL (m : EntityMap) (properties : list PropertyMap) : string :=
  reportingCount (render_update QuoteIdentifier m properties).
Definition DeleteSQL (m : EntityMap) (checkVersion : bool) : string :=
  reportingCount (render_delete QuoteIdentifier m checkVersion).

(** ** Triggers (sqlserver/trigger.go) *)

Definition expandToken (token : TriggerToken) : string :=
  match tok_Kind token with
  | TokenNew => "inserted"
  | TokenOld => "deleted"
  | TokenNow => "todatetimeoffset(sysutcdatetime(), 0)"
  end.

Definition update_prologue (trigger : TriggerDefinition) : string :=
  match tr_UpdateOf trigger with
  | [] => ""
  | columns =>
      "    if " +:+
      (if Events_Has (tr_Events trigger) EventDelete then "exists (select 1 from inserted) and " else "") +:+
      "not (" +:+ Join ((fun c => "update(" +:+ QuoteIdentifier c +:+ ")") <$> columns) " or " +:+
      ") return;" +:+ nl
  end.

Definition CreateTriggerSQL (relation : string) (onView : bool) (trigger : TriggerDefinition)
    : result (list string) :=
  if bool_decide (tr_Timing trigger = TimingBefore)
  then Fail (NewError "DDL-005" (tr_Name trigger))
  else
    let timing := if bool_decide (tr_Timing trigger = TimingInsteadOf) then "instead of" else "after" in
    let prologue := update_prologue trigger in
    let* body := RenderTriggerBody (tr_Name trigger) (tr_SQL trigger) expandToken in
    Ok [ "create trigger " +:+ QuoteIdentifier (tr_Name trigger) +:+ " on " +:+
           QuoteIdentifier relation +:+ " " +:+ timing +:+ " " +:+
           Join (Events_Tokens (tr_Events trigger)) ", " +:+ " as" +:+ nl +:+ "begin" +:+ nl +:+
           "    set nocount on;" +:+ nl +:+ prologue +:+ body +:+ nl +:+ "end" ].

Definition DropTriggerSQL (relation name : string) : list string :=
  [ "if object_id(" +:+ nLiteral name +:+ ", N'TR') is not null drop trigger " +:+
    QuoteIdentifier name ].

Definition dialect : Dialect := mkDialect "sqlserver"
  QuoteIdentifier CreateTableSQL CreateIndexSQL CreateViewSQL
  CreateTableFromSchemaSQL CreateIndexFromSchemaSQL CreateViewFromBodySQL DropViewSQL
  InsertSQL UpdateSQL UpdateOnlySQL DeleteSQL
  LimitOffsetClause true false
  true true 2098%Z false false false true true true
  IsDeclaredTypeCompatible StorageType
  VersionTableSQL RenameTableSQL RenameColumnSQL AddColumnSQL DropColumnSQL DropTableSQL
  CreateTriggerSQL DropTriggerSQL DropIndexSQL.
