(* ===== verification/DialectLaws.v ===== *)
(** What a dialect promises its clients ([DialectLaws]), and the proof that the
    three dialects keep it: the placeholders of the generated INSERT, UPDATE
    and DELETE are exactly the bound columns, and the storage type a column is
    created with is one the schema guard accepts for its token.

    The placeholder laws are about identifier names (letters, digits,
    underscores): a quoted exotic column name has no [@name] form. *)
From S2P Require Import Prelude GoStrings Values Core Placeholders Params Triggers Dialect.
From S2P Require Sqlite Postgres SqlServer.

(** ** Reading placeholders off concatenated text *)

Definition silent_char (c : ascii) : bool :=
  negb (Ascii.eqb c quote || Ascii.eqb c dash || Ascii.eqb c slash || Ascii.eqb c star ||
        Ascii.eqb c newline || Ascii.eqb c at_sign).

(** Text with neither placeholders nor literals nor comments. *)
Definition silent (t : string) : bool := forallb silent_char (bytes t).

Definition opens_plain (l : list ascii) : Prop :=
  Forall (fun c => name_char c = false) (take 1 l).

(** [phrase t ns]: wherever [t] stands before a non-name byte, its placeholders
    are [ns] and the mask leaves it alone. *)
Definition unmasked (t : string) : Prop :=
  forall k, mask Text (bytes t ++ k) = bytes t ++ mask Text k.

Record phrase (t : string) (ns : list string) : Prop := {
  ph_unmasked : unmasked t;
  ph_names : forall k, opens_plain k ->
    scan_names false (bytes t ++ k) = (bytes <$> ns) ++ scan_names false k }.

Lemma silent_char_spec c : silent_char c = true -> neutral c /\ c <> at_sign.
Proof.
  unfold silent_char. rewrite negb_true_iff. intros H.
  repeat (apply orb_false_elim in H as [H ?]). unfold neutral.
  repeat match goal with E : Ascii.eqb _ _ = false |- _ => apply Ascii.eqb_neq in E end. tauto.
Qed.

Lemma scan_no_at l k i :
  Forall (fun c => c <> at_sign) l ->
  m_name <$> scan_from i false (l ++ k) = scan_names false k.
Proof.
  intros H. revert i. induction H as [|c l Hc H IH]; intros i; [apply scan_names_index|].
  change ((c :: l) ++ k) with (c :: (l ++ k)). rewrite scan_cons.
  destruct (Ascii.eqb_spec c at_sign); [done|apply IH].
Qed.

Lemma silent_spec t :
  silent t = true -> Forall neutral (bytes t) /\ Forall (fun c => c <> at_sign) (bytes t).
Proof.
  unfold silent. rewrite forallb_forall. intros H. split; apply Forall_forall;
    intros c Hc%list_elem_of_In; by apply silent_char_spec, H.
Qed.

Lemma silent_app s t : silent (s +:+ t) = silent s && silent t.
Proof. unfold silent. by rewrite bytes_app, forallb_app. Qed.

Lemma unmasked_neutral t : Forall neutral (bytes t) -> unmasked t.
Proof. intros H k. by rewrite mask_neutral_word. Qed.

Lemma unmasked_app s t : unmasked s -> unmasked t -> unmasked (s +:+ t).
Proof. intros Hs Ht k. rewrite bytes_app, <- app_assoc, Hs, Ht. by rewrite app_assoc. Qed.

Lemma phrase_before s t ns : silent s = true -> phrase t ns -> phrase (s +:+ t) ns.
Proof.
  intros [Hn Hat]%silent_spec [Ht Hk]. split.
  - apply unmasked_app; [by apply unmasked_neutral|done].
  - intros k Hopen. rewrite bytes_app, <- app_assoc. unfold scan_names at 1.
    rewrite scan_no_at by done. by apply Hk.
Qed.

Lemma phrase_empty : phrase "" [].
Proof. by split. Qed.

Lemma phrase_silent s : silent s = true -> phrase s [].
Proof. intros H. rewrite <- (app_empty_r s). apply phrase_before; [done|apply phrase_empty]. Qed.

Lemma phrase_at n : good_name (bytes n) -> phrase (at_name n) [n].
Proof.
  intros Hn. split; [by apply unmasked_neutral, good_name_neutral|]. intros k Hk. unfold scan_names at 1.
  change (bytes (at_name n) ++ k) with (at_sign :: bytes n ++ k).
  rewrite scan_name by done. rewrite fmap_cons, scan_names_index. done.
Qed.

(** A phrase may be followed by one that opens with a non-name byte. *)
Lemma phrase_app s ns t ms :
  phrase s ns -> phrase t ms -> t <> "" -> opens_plain (bytes t) ->
  phrase (s +:+ t) (ns ++ ms).
Proof.
  intros [Hs Hks] [Ht Hkt] Hne Hopen. split.
  - by apply unmasked_app.
  - intros k Hk. rewrite bytes_app, <- app_assoc, Hks.
    + rewrite Hkt by done. by rewrite fmap_app, <- app_assoc.
    + destruct t as [|c t]; [done|exact Hopen].
Qed.

Lemma phrase_then s ns t :
  phrase s ns -> silent t = true -> t <> "" -> opens_plain (bytes t) -> phrase (s +:+ t) ns.
Proof.
  intros Hs Ht Hne Hopen. rewrite <- (app_nil_r ns).
  apply phrase_app; [done|by apply phrase_silent|done|done].
Qed.

Lemma phrase_join ts nss sep :
  Forall2 phrase ts nss -> silent sep = true -> sep <> "" -> opens_plain (bytes sep) ->
  phrase (Join ts sep) (concat nss).
Proof.
  intros H Hsil Hne Hopen. induction H as [|t ns ts nss Ht H IH]; [apply phrase_empty|].
  destruct H as [|t2 ns2 ts nss Ht2 H].
  - simpl. by rewrite app_nil_r.
  - rewrite Join_cons by done. cbn [concat] in IH |- *. apply phrase_app; [done| | |].
    + by apply phrase_before.
    + by destruct sep.
    + destruct sep; [done|]. exact Hopen.
Qed.

Lemma unmasked_mask t : unmasked t -> mask Text (bytes t) = bytes t.
Proof. intros H. specialize (H []). by rewrite !app_nil_r in H. Qed.

Lemma phrase_names_in t ns : phrase t ns -> names_in t = ns.
Proof.
  intros [Hn Hk]. rewrite names_in_scan, unmasked_mask by done.
  specialize (Hk [] (Forall_nil_2 _)). rewrite app_nil_r in Hk. rewrite Hk. simpl.
  rewrite app_nil_r, <- list_fmap_compose. rewrite <- (list_fmap_id ns) at 2.
  apply list_fmap_ext. intros. apply of_bytes_bytes.
Qed.

Lemma good_name_silent n : good_name (bytes n) -> silent n = true.
Proof.
  intros [_ H]. apply forallb_forall. intros c Hc%list_elem_of_In.
  rewrite Forall_forall in H. apply H in Hc. clear H.
  unfold silent_char. apply negb_true_iff.
  repeat (apply orb_false_intro); apply Ascii.eqb_neq; by intros ->.
Qed.

(** Side conditions on fixed separators. *)
Ltac plain := first [done | by repeat constructor].

(** ** The generated CRUD text of a quoting *)

(** A map whose names are identifiers, as the naming conventions produce. *)
Record ident_map (m : EntityMap) : Prop := {
  im_relation : good_name (bytes (RelationName m));
  im_columns : Forall (fun p => good_name (bytes (ColumnName p))) (Properties m);
  im_derived : map_derived m }.

Definition ident_properties (ps : list PropertyMap) : Prop :=
  Forall (fun p => good_name (bytes (ColumnName p))) ps.

Definition version_list (m : EntityMap) : list PropertyMap :=
  match VersionProperty m with Some v => [v] | None => [] end.

Lemma ident_keys m : ident_map m -> ident_properties (KeyProperties m).
Proof.
  intros [_ Hc Hd]. unfold ident_properties. rewrite (md_keys m Hd).
  rewrite Forall_forall in Hc |- *. intros p Hp%list_elem_of_In.
  apply filter_In in Hp as [Hp _]. by apply Hc, list_elem_of_In.
Qed.

Lemma ident_version m : ident_map m -> ident_properties (version_list m).
Proof.
  intros [_ Hc Hd]. unfold ident_properties, version_list. rewrite (md_version m Hd).
  destruct (List.find IsVersion (Properties m)) as [v|] eqn:Ev; [|constructor].
  apply find_some in Ev as [Hv _]. apply Forall_singleton.
  rewrite Forall_forall in Hc. by apply Hc, list_elem_of_In.
Qed.

Lemma ident_filter m f : ident_map m -> ident_properties (List.filter f (Properties m)).
Proof.
  intros [_ Hc _]. unfold ident_properties. rewrite Forall_forall in Hc |- *.
  intros p Hp%list_elem_of_In. apply filter_In in Hp as [Hp _]. by apply Hc, list_elem_of_In.
Qed.

Lemma concat_singletons {A B} (f : A -> B) l : concat ((fun x => [f x]) <$> l) = f <$> l.
Proof. induction l as [|x l IH]; [done|]. rewrite !fmap_cons. cbn [concat app]. by rewrite IH. Qed.

Section QuotedText.
Context (quoted : string -> string).
Context (quoted_silent : forall n, good_name (bytes n) -> silent (quoted n) = true).

Lemma phrase_assignment p :
  good_name (bytes (ColumnName p)) -> phrase (assignment quoted p) [ColumnName p].
Proof.
  intros Hp. unfold assignment. apply phrase_before; [by apply quoted_silent|].
  apply phrase_before; [done|]. by apply phrase_at.
Qed.

Lemma phrase_assignments ps sep :
  ident_properties ps -> silent sep = true -> sep <> "" -> opens_plain (bytes sep) ->
  phrase (Join (assignment quoted <$> ps) sep) (ColumnName <$> ps).
Proof.
  intros Hps H1 H2 H3.
  rewrite <- (concat_singletons ColumnName).
  apply phrase_join; [|plain..]. induction Hps; constructor; [by apply phrase_assignment|done].
Qed.

Lemma phrase_set m set :
  ident_map m -> ident_properties set ->
  phrase (Join ((assignment quoted <$> set) ++ version_bump quoted m) ", ") (ColumnName <$> set).
Proof.
  intros Hm Hset. pose proof (ident_version m Hm) as Hv.
  unfold version_list, version_bump in *. destruct (VersionProperty m) as [v|];
    [|rewrite app_nil_r; apply phrase_assignments; plain].
  replace (ColumnName <$> set) with (concat (((fun p => [ColumnName p]) <$> set) ++ [[]]))
    by (rewrite concat_app, (concat_singletons ColumnName); cbn [concat app]; by rewrite app_nil_r).
  apply phrase_join; [|plain..]. apply Forall2_app.
  - induction Hset; constructor; [by apply phrase_assignment|done].
  - apply Forall2_cons. split; [|by constructor].
    apply phrase_silent. rewrite !silent_app, quoted_silent; [done|].
    by inversion Hv.
Qed.

Lemma phrase_keys m :
  ident_map m -> phrase (key_predicate quoted m) (ColumnName <$> KeyProperties m).
Proof. intros Hm. apply phrase_assignments; [by apply ident_keys|plain..]. Qed.

(** The predicate on the key, with the version when it is checked. *)
Lemma phrase_where m (check : bool) :
  ident_map m ->
  phrase (" where " +:+ key_predicate quoted m +:+
          (if check then version_check quoted m else ""))
    (ColumnName <$> (KeyProperties m ++ if check then version_list m else [])).
Proof.
  intros Hm. apply phrase_before; [done|]. pose proof (ident_version m Hm) as Hv.
  unfold version_list, version_check in *. pose proof (phrase_keys m Hm) as Hk.
  destruct check; [|by rewrite app_empty_r, app_nil_r].
  destruct (VersionProperty m) as [v|]; [|by rewrite app_empty_r, app_nil_r].
  rewrite fmap_app. apply phrase_app; [done| |done|by repeat constructor].
  apply phrase_before; [done|]. apply phrase_assignment. by inversion Hv.
Qed.

Lemma phrase_update m set :
  ident_map m -> ident_properties set ->
  phrase (render_update quoted m set)
    (ColumnName <$> (set ++ KeyProperties m ++ version_list m)).
Proof.
  intros Hm Hset. unfold render_update. apply phrase_before; [done|].
  apply phrase_before; [apply quoted_silent, Hm|]. apply phrase_before; [done|].
  rewrite fmap_app. apply phrase_app; [by apply phrase_set| |done|by repeat constructor].
  exact (phrase_where m true Hm).
Qed.

Lemma phrase_delete m check :
  ident_map m ->
  phrase (render_delete quoted m check)
    (ColumnName <$> (KeyProperties m ++ if check : bool then version_list m else [])).
Proof.
  intros Hm. unfold render_delete. apply phrase_before; [done|].
  apply phrase_before; [apply quoted_silent, Hm|]. by apply phrase_where.
Qed.

Lemma silent_join ts sep :
  Forall (fun t => silent t = true) ts -> silent sep = true -> silent (Join ts sep) = true.
Proof.
  intros H Hs. induction H as [|t ts Ht H IH]; [done|]. destruct ts as [|t2 ts]; [done|].
  rewrite Join_cons by done. by rewrite !silent_app, Ht, Hs, IH.
Qed.

Lemma phrase_insert m :
  ident_map m -> phrase (insert_into quoted m) (ColumnName <$> insert_properties m).
Proof.
  intros Hm. pose proof (ident_filter m (fun p => negb (IsGenerated p)) Hm) as Hi.
  unfold insert_into. apply phrase_before; [done|].
  apply phrase_before; [apply quoted_silent, Hm|]. apply phrase_before; [done|].
  apply phrase_before.
  { apply silent_join; [|done]. apply Forall_fmap. eapply Forall_impl; [exact Hi|].
    intros p Hp. by apply quoted_silent. }
  apply phrase_before; [done|]. apply phrase_before; [done|].
  apply phrase_then; [|done|done|by repeat constructor].
  rewrite <- (concat_singletons ColumnName).
  apply phrase_join; [|plain..]. unfold insert_properties. induction Hi; constructor; [|done].
  by apply phrase_at.
Qed.

End QuotedText.

(** ** The laws *)

Class DialectLaws (d : Dialect) : Prop := {
  insert_placeholders m sql :
    ident_map m -> InsertSQL d m = Ok sql ->
    names_in sql = ColumnName <$> insert_properties m;
  update_placeholders m set :
    ident_map m -> ident_properties set ->
    names_in (UpdateOnlySQL d m set) = ColumnName <$> (set ++ KeyProperties m ++ version_list m);
  update_full m : UpdateSQL d m = UpdateOnlySQL d m (update_properties m);
  delete_placeholders m check :
    ident_map m ->
    names_in (DeleteSQL d m check)
    = ColumnName <$> (KeyProperties m ++ if check : bool then version_list m else []);
  insert_total m :
    (KeyStrategy_ m = KeyDatabaseGenerated -> KeyProperties m <> []) ->
    is_ok (InsertSQL d m) = true;
  storage_compatible m p :
    ColumnType_ p <> TypeCustom ->
    IsDeclaredTypeCompatible d (StorageType d m p) (ColumnType_ p) = true }.

Lemma first_key_ident m key :
  ident_map m -> first_key m = Ok key -> good_name (bytes (ColumnName key)).
Proof.
  intros Hm%ident_keys. unfold first_key. destruct (KeyProperties m); [done|].
  intros [= <-]. by inversion Hm.
Qed.

Lemma first_key_total m : KeyProperties m <> [] -> is_ok (first_key m) = true.
Proof. unfold first_key. by destruct (KeyProperties m). Qed.

(** ** SQLite *)

#[export] Instance sqlite_laws : DialectLaws Sqlite.dialect.
Proof.
  split; cbn [InsertSQL UpdateOnlySQL UpdateSQL DeleteSQL IsDeclaredTypeCompatible StorageType
              Sqlite.dialect].
  - intros m sql Hm H. apply phrase_names_in. unfold Sqlite.InsertSQL in H.
    pose proof (phrase_insert Sqlite.QuoteIdentifier good_name_silent m Hm) as Hp.
    case_bool_decide; [|by apply Ok_inj in H as <-].
    apply bind_Ok in H as (key & Hk & H). apply Ok_inj in H as <-. apply phrase_then; [done| |done|by repeat constructor].
    rewrite silent_app. apply good_name_silent. by eapply first_key_ident.
  - intros m set Hm Hset. apply phrase_names_in, phrase_update; [apply good_name_silent|done..].
  - done.
  - intros m check Hm. apply phrase_names_in, phrase_delete; [apply good_name_silent|done].
  - intros m Hk. unfold Sqlite.InsertSQL. case_bool_decide as Hs; [|done].
    apply Hk, first_key_total in Hs. by destruct (first_key m).
  - intros m p Hp. unfold Sqlite.StorageType. by destruct (ColumnType_ p).
Qed.

(** ** PostgreSQL *)

(** A quoting that only doubles one byte keeps silent names silent. *)
Lemma ReplaceAll_absent s c new :
  Forall (fun x => x <> c) (bytes s) -> ReplaceAll s c new = s.
Proof.
  induction s as [|x s IH]; intros H; [done|]. simpl in *. inversion H; subst.
  destruct (Ascii.eqb_spec x c); [done|]. by rewrite IH.
Qed.

Lemma good_name_absent n c :
  good_name (bytes n) -> name_char c = false -> Forall (fun x => x <> c) (bytes n).
Proof.
  intros [_ H] Hc. eapply Forall_impl; [exact H|]. intros x Hx ->. by rewrite Hc in Hx.
Qed.

Lemma postgres_silent n :
  good_name (bytes n) -> silent (Postgres.QuoteIdentifier n) = true.
Proof.
  intros Hn. unfold Postgres.QuoteIdentifier.
  rewrite ReplaceAll_absent by by apply good_name_absent.
  rewrite !silent_app. by rewrite (good_name_silent n).
Qed.

Lemma fields_word w l :
  Forall (fun c => is_space c = false) l ->
  fields_from w l = match rev w ++ l with [] => [] | x => [of_bytes x] end.
Proof.
  revert w. induction l as [|c l IH]; intros w H; simpl.
  - rewrite app_nil_r. destruct w as [|c w]; [done|]. simpl. by destruct (rev w).
  - inversion H as [|? ? Hc Hl]; subst. rewrite Hc, IH by done. simpl. by rewrite <- app_assoc.
Qed.

(** ** Parenthesized lengths *)

Definition paren_free (l : list ascii) : Prop :=
  Forall (fun c => c <> "("%char /\ c <> ")"%char) l.

Lemma Itoa_paren_free z : paren_free (bytes (Itoa z)).
Proof.
  eapply Forall_impl; [apply Itoa_chars|]. intros c [Hc| ->]; [|done]. split; by intros ->.
Qed.

Lemma to_lower_paren d c :
  d = "("%char \/ d = ")"%char -> Ascii.eqb (to_lower c) d = Ascii.eqb c d.
Proof. intros [-> | ->]; all_ascii c. Qed.

Lemma to_lower_paren_free l : paren_free l -> paren_free (to_lower <$> l).
Proof.
  intros H. apply Forall_fmap. eapply Forall_impl; [exact H|]. intros c [Ho Hc]. simpl.
  split; apply Ascii.eqb_neq; rewrite to_lower_paren by auto; by apply Ascii.eqb_neq.
Qed.

Lemma outside_parens_plain l k :
  paren_free l -> Postgres.outside_parens 0 (l ++ k) = l ++ Postgres.outside_parens 0 k.
Proof.
  induction 1 as [|c l [Ho Hc] H IH]; [done|]. simpl.
  apply Ascii.eqb_neq in Ho, Hc. by rewrite Ho, Hc, IH.
Qed.

Lemma outside_parens_inside l k d :
  paren_free l -> Postgres.outside_parens (S d) (l ++ k) = Postgres.outside_parens (S d) k.
Proof.
  induction 1 as [|c l [Ho Hc] H IH]; [done|]. simpl.
  apply Ascii.eqb_neq in Ho, Hc. by rewrite Ho, Hc, IH.
Qed.

Lemma cut_at_absent sep l k :
  Forall (fun c => c <> sep) l -> cut_at sep (l ++ sep :: k) = (l, Some k).
Proof.
  induction 1 as [|c l Hc H IH]; simpl; [by rewrite Ascii.eqb_refl|].
  apply Ascii.eqb_neq in Hc. by rewrite Hc, IH.
Qed.

(** [w(x)]: trimmed and lowercased, then split at the parenthesis. *)
Definition sized (w : string) (x : list ascii) : string :=
  of_bytes (bytes w ++ "("%char :: x ++ [")"%char]).

Lemma sized_lower w x :
  (exists c w', w = String c w' /\ is_space c = false) ->
  ToLower (TrimSpace (sized w x)) = sized (ToLower w) (to_lower <$> x).
Proof.
  intros (c & w' & -> & Hc). unfold sized.
  change (bytes (String c w') ++ "("%char :: x ++ [")"%char])
    with (c :: bytes w' ++ (("("%char :: x) ++ [")"%char])).
  rewrite (app_assoc (bytes w')), TrimSpace_solid by done.
  unfold ToLower, map_bytes. rewrite !bytes_of_bytes. f_equal.
  rewrite fmap_cons, !fmap_app. simpl. by rewrite <- app_assoc.
Qed.

Lemma postgres_base w x :
  (exists c w', w = String c w' /\ is_space c = false) -> paren_free (bytes (ToLower w)) ->
  paren_free x ->
  Postgres.baseTypeName (sized w x) = Join (Fields (ToLower w)) " ".
Proof.
  intros Hw Hp Hx. unfold Postgres.baseTypeName. rewrite sized_lower by done.
  unfold sized. rewrite bytes_of_bytes, outside_parens_plain by done.
  change (Postgres.outside_parens 0 ("("%char :: (to_lower <$> x) ++ [")"%char]))
    with (Postgres.outside_parens 1 ((to_lower <$> x) ++ [")"%char])).
  rewrite outside_parens_inside by by apply to_lower_paren_free.
  simpl. by rewrite app_nil_r, of_bytes_bytes.
Qed.

Lemma sqlserver_base w x :
  (exists c w', w = String c w' /\ is_space c = false) -> paren_free (bytes (ToLower w)) ->
  SqlServer.baseTypeName (sized w x) = TrimSpace (ToLower w).
Proof.
  intros Hw Hp. unfold SqlServer.baseTypeName. rewrite sized_lower by done.
  unfold sized at 1. rewrite bytes_of_bytes, cut_at_absent by
    (eapply Forall_impl; [exact Hp|]; by intros ? []).
  by rewrite of_bytes_bytes.
Qed.

Lemma sized_spec w x : w +:+ "(" +:+ x +:+ ")" = sized w (bytes x).
Proof. apply (inj bytes). unfold sized. rewrite !bytes_app, bytes_of_bytes. done. Qed.

Lemma sized_spec2 w x y :
  w +:+ "(" +:+ x +:+ "," +:+ y +:+ ")" = sized w (bytes x ++ ","%char :: bytes y).
Proof.
  apply (inj bytes). unfold sized. rewrite !bytes_app, bytes_of_bytes. simpl.
  by rewrite <- app_assoc.
Qed.

Lemma paren_free_pair x y :
  paren_free (bytes (Itoa x) ++ ","%char :: bytes (Itoa y)).
Proof.
  apply Forall_app; split; [apply Itoa_paren_free|].
  constructor; [done|apply Itoa_paren_free].
Qed.

Ltac word := first [by eexists _, _ | by repeat constructor].

#[export] Instance postgres_laws : DialectLaws Postgres.dialect.
Proof.
  split; cbn [InsertSQL UpdateOnlySQL UpdateSQL DeleteSQL IsDeclaredTypeCompatible StorageType
              Postgres.dialect].
  - intros m sql Hm H. apply phrase_names_in. unfold Postgres.InsertSQL in H.
    pose proof (phrase_insert Postgres.QuoteIdentifier postgres_silent m Hm) as Hp.
    case_bool_decide; [|by apply Ok_inj in H as <-].
    apply bind_Ok in H as (key & Hk & H). apply Ok_inj in H as <-.
    apply phrase_then; [done| |done|by repeat constructor].
    rewrite silent_app. apply postgres_silent. by eapply first_key_ident.
  - intros m set Hm Hset. apply phrase_names_in, phrase_update; [apply postgres_silent|done..].
  - done.
  - intros m check Hm. apply phrase_names_in, phrase_delete; [apply postgres_silent|done].
  - intros m Hk. unfold Postgres.InsertSQL. case_bool_decide as Hs; [|done].
    apply Hk, first_key_total in Hs. by destruct (first_key m).
  - intros m p Hp. unfold Postgres.StorageType, Postgres.IsDeclaredTypeCompatible.
    destruct (ColumnType_ p); try reflexivity; try done.
    + destruct (0 <? Precision p)%Z; [|reflexivity].
      change ("numeric(" +:+ ?x) with ("numeric" +:+ "(" +:+ x).
      rewrite sized_spec2, postgres_base; [reflexivity|word|word|apply paren_free_pair].
    + destruct (0 <? Length p)%Z; [|reflexivity].
      change ("character varying(" +:+ ?x) with ("character varying" +:+ "(" +:+ x).
      rewrite sized_spec, postgres_base; [reflexivity|word|word|apply Itoa_paren_free].
Qed.

(** ** SQL Server *)

Lemma sqlserver_silent n :
  good_name (bytes n) -> silent (SqlServer.QuoteIdentifier n) = true.
Proof.
  intros Hn. unfold SqlServer.QuoteIdentifier.
  rewrite ReplaceAll_absent by by apply good_name_absent.
  rewrite !silent_app. by rewrite (good_name_silent n).
Qed.

(** [@@rowcount] is no placeholder. *)
Lemma phrase_counted s ns : phrase s ns -> phrase (SqlServer.reportingCount s) ns.
Proof.
  intros Hs. unfold SqlServer.reportingCount. apply phrase_before; [done|].
  rewrite <- (app_nil_r ns). apply phrase_app; [done| |done|by repeat constructor].
  split; [by apply unmasked_neutral; repeat constructor|]. intros k Hk. unfold scan_names at 1. simpl.
  apply scan_names_index.
Qed.

Lemma sqlserver_sized m p name ct :
  (exists c w, name = String c w /\ is_space c = false) -> paren_free (bytes (ToLower name)) ->
  type_in_table SqlServer.compatible_types (TrimSpace (ToLower name)) ct = true ->
  SqlServer.IsDeclaredTypeCompatible (SqlServer.sizedType name p (SqlServer.isIndexable m p)) ct
  = true.
Proof.
  intros Hn Hp Ht. unfold SqlServer.IsDeclaredTypeCompatible, SqlServer.sizedType.
  destruct (0 <? Length p)%Z; [|destruct (SqlServer.isIndexable m p)].
  - by rewrite sized_spec, sqlserver_base.
  - change "(450)" with ("(" +:+ "450" +:+ ")"). by rewrite sized_spec, sqlserver_base.
  - change "(max)" with ("(" +:+ "max" +:+ ")"). by rewrite sized_spec, sqlserver_base.
Qed.

#[export] Instance sqlserver_laws : DialectLaws SqlServer.dialect.
Proof.
  split; cbn [InsertSQL UpdateOnlySQL UpdateSQL DeleteSQL IsDeclaredTypeCompatible StorageType
              SqlServer.dialect].
  - intros m sql Hm H. apply phrase_names_in. unfold SqlServer.InsertSQL in H.
    pose proof (phrase_insert SqlServer.QuoteIdentifier sqlserver_silent m Hm) as Hp.
    apply Ok_inj in H as <-. case_bool_decide; [|done].
    apply phrase_then; [done|done|done|by repeat constructor].
  - intros m set Hm Hset.
    apply phrase_names_in, phrase_counted, phrase_update; [apply sqlserver_silent|done..].
  - done.
  - intros m check Hm.
    apply phrase_names_in, phrase_counted, phrase_delete; [apply sqlserver_silent|done].
  - done.
  - intros m p Hp. unfold SqlServer.StorageType.
    destruct (ColumnType_ p); try reflexivity; try done.
    + unfold SqlServer.IsDeclaredTypeCompatible. destruct (0 <? Precision p)%Z; [|reflexivity].
      change ("decimal(" +:+ ?x) with ("decimal" +:+ "(" +:+ x).
      rewrite sized_spec2, sqlserver_base; [reflexivity|word|word].
    + apply sqlserver_sized; [word|word|reflexivity].
    + apply sqlserver_sized; [word|word|reflexivity].
Qed.

(** The dialects the library ships. *)
Definition dialects : list Dialect := [Sqlite.dialect; Postgres.dialect; SqlServer.dialect].

Lemma dialects_laws d : d ∈ dialects -> DialectLaws d.
Proof.
  unfold dialects.
  rewrite !elem_of_cons. intros [->|[->|[->|H%not_elem_of_nil]]]; [apply _..|done].
Qed.

(** A created column validates: on every dialect the storage type a
    column is created with is one the schema guard accepts for the column's
    type, whatever the column's length, precision, keys and indexes (a custom
    column type declares its own storage). *)
Theorem created_columns_validate (d : Dialect) (m : option EntityMap) (p : PropertyMap) :
  d ∈ dialects -> ColumnType_ p <> TypeCustom ->
  IsDeclaredTypeCompatible d (StorageType d m p) (ColumnType_ p) = true.
Proof. intros Hd%dialects_laws Hp. by apply storage_compatible. Qed.

(** A priced thing: a decimal with its precision. *)
Definition price_property : PropertyMap :=
  mkProperty None "Price" "price" (mkField false TyDecimal) TypeDecimal false false false false AuditNone false None 0 10 2
    None None.
Definition price_map : EntityMap :=
  NewEntityMap (mkGoType "sample" "Thing") RelationTable "things" "" "" [price_property]
    KeyNatural [] [].

Lemma created_columns_validate_witness :
  StorageType SqlServer.dialect (Some price_map) price_property = "decimal(10,2)" /\
  IsDeclaredTypeCompatible SqlServer.dialect
    (StorageType SqlServer.dialect (Some price_map) price_property) TypeDecimal = true.
Proof.
  split; [by vm_compute|].
  apply (created_columns_validate SqlServer.dialect (Some price_map) price_property); [|done].
  right. right. left.
Defined.
