(* ===== verification/GeneratedSql.v ===== *)
(** The session's generated statements (generated_sql.go, db_crud.go): the text
    of each CRUD statement with the properties it binds and the label of each
    bind.  The caches of generated_sql.go memoize these pure functions under
    the identity of the map; the column-list cache, whose key is computed, is
    modelled, the others are one optional value per map.

    The client side of [DialectLaws]: every theorem is about an arbitrary
    dialect that keeps the laws. *)
From S2P Require Import Prelude GoStrings Core Values Placeholders Params Triggers Dialect DialectLaws.

Record boundText := mkBoundText {
  bt_sql : string;
  bt_bound : list PropertyMap;
  bt_labels : list string;
  bt_keyLabel : string }.

(** [generatedSQL.bind]: a property's label is the entity and the property. *)
Definition property_label (m : EntityMap) (p : PropertyMap) : string :=
  EntityName m +:+ "." +:+ PropertyName p.

Definition bind (m : EntityMap) (sqlText : string) (properties : list PropertyMap) : boundText :=
  mkBoundText sqlText properties (property_label m <$> properties) "".

(** ** The texts *)

Definition insertText (d : Dialect) (m : EntityMap) : result boundText :=
  let* sql := InsertSQL d m in
  let t := bind m sql (insert_properties m) in
  Ok (mkBoundText (bt_sql t) (bt_bound t) (bt_labels t)
        match KeyProperties m with
        | [] => ""
        | key :: _ => EntityName m +:+ "." +:+ PropertyName key
        end).

Definition insertNoRow (m : EntityMap) : string :=
  "insert into " +:+ RelationName m +:+ ": RETURNING produced no row".

Definition updateText (d : Dialect) (m : EntityMap) : boundText :=
  bind m (UpdateSQL d m)
    (List.filter (fun p => IsKey p || IsVersion p || negb (IsGenerated p)) (Properties m)).

Definition versionOf (m : EntityMap) : list PropertyMap :=
  match VersionProperty m with Some version => [version] | None => [] end.

Definition updateOnlyBindings (m : EntityMap) (set : list PropertyMap) : list PropertyMap :=
  set ++ KeyProperties m ++ versionOf m.

Definition updateOnlyText (d : Dialect) (m : EntityMap) (set : list PropertyMap) : boundText :=
  bind m (UpdateOnlySQL d m set) (updateOnlyBindings m set).

(** The column-list cache of one map: two bytes per column of the ordered set. *)
Definition maxColumnLists : nat := 256.

Definition position_bytes (at_ : nat) : list Z :=
  [(Z.shiftr (Z.of_nat at_) 8) mod 256; Z.of_nat at_ mod 256]%Z.

Fixpoint list_key (m : EntityMap) (set : list PropertyMap) : option (list Z) :=
  match set with
  | [] => Some []
  | p :: set' => at_ ← property_index m p; rest ← list_key m set'; Some (position_bytes at_ ++ rest)
  end.

Definition cachedUpdateOnlyText (d : Dialect) (m : EntityMap) (set : list PropertyMap)
    (columnLists : gmap (list Z) boundText) : boundText * gmap (list Z) boundText :=
  match list_key m set with
  | None => (updateOnlyText d m set, columnLists)
  | Some key =>
      match columnLists !! key with
      | Some cached => (cached, columnLists)
      | None =>
          let text := updateOnlyText d m set in
          (text, if (size columnLists <? maxColumnLists)%nat
                 then <[key := text]> columnLists else columnLists)
      end
  end.

Definition key_labels (m : EntityMap) : list string :=
  imap (fun i _ => EntityName m +:+ " key[" +:+ Itoa (Z.of_nat i) +:+ "]") (KeyProperties m).

Definition deleteByKeyText (d : Dialect) (m : EntityMap) : string * list string :=
  (DeleteSQL d m false, key_labels m).

(** Binding a nil version property would panic; the caller checks the version
    exactly when the map has one. *)
Definition deleteEntityText (d : Dialect) (m : EntityMap) (checkVersion : bool)
    : result boundText :=
  if checkVersion then
    match VersionProperty m with
    | Some version => Ok (bind m (DeleteSQL d m true) (KeyProperties m ++ [version]))
    | None => Panic "nil version property"
    end
  else Ok (bind m (DeleteSQL d m false) (KeyProperties m)).

Definition quotedColumns (d : Dialect) (properties : list PropertyMap) : string :=
  Join ((fun p => QuoteIdentifier d (ColumnName p)) <$> properties) ", ".

Definition key_names (m : EntityMap) : list string :=
  imap (fun i _ => "k" +:+ Itoa (Z.of_nat i)) (KeyProperties m).

Definition key_read_predicates (d : Dialect) (m : EntityMap) : list string :=
  zip_with (fun key name => QuoteIdentifier d (ColumnName key) +:+ " = @" +:+ name)
    (KeyProperties m) (key_names m).

Definition keyReadText (d : Dialect) (m : EntityMap) : string * list string * list string :=
  ("select " +:+ quotedColumns d (Properties m) +:+
   " from " +:+ QuoteIdentifier d (RelationName m) +:+
   " where " +:+ Join (key_read_predicates d m) " and ",
   key_names m, key_labels m).

Definition selectAllText (d : Dialect) (m : EntityMap) : string :=
  "select " +:+ quotedColumns d (Properties m) +:+ " from " +:+ QuoteIdentifier d (RelationName m) +:+
  match KeyProperties m with
  | [] => ""
  | keys => " order by " +:+ quotedColumns d keys
  end.

(** The criteria query's parameter names: a table up to 2100, then built per
    call; both spell [c<i>]. *)
Definition criteriaName (i : nat) : string := "c" +:+ Itoa (Z.of_nat i).
Definition criteriaPlaceholder (i : nat) : string := "@" +:+ criteriaName i.

(** ** The hooks' property tests (db_hooks.go, flush.go) *)

Definition isWritableChange (p : PropertyMap) : bool :=
  negb (IsKey p) && negb (IsVersion p) && negb (IsGenerated p) &&
  negb (bool_decide (Audit p = AuditUpdatedAt)).

Definition hasWritableColumn (changed : list PropertyMap) : bool :=
  existsb isWritableChange changed.

(** [stampSet]'s set: the updated-at column joins after the caller's columns
    unless it is listed.  The program compares property pointers; a map's
    properties have distinct names, so the record is the identity. *)
Definition stamped_set (m : EntityMap) (set : list PropertyMap) : list PropertyMap :=
  match UpdatedAtProperty m with
  | None => set
  | Some property => if decide (property ∈ set) then set else set ++ [property]
  end.

(** ** [resolveUpdateList] (db_crud.go) *)

Definition ownedNavigation (m : EntityMap) (name : string) : option OwnedMap :=
  List.find (fun o => bool_decide (ow_PropertyName o = name)) (OwnedTypes m).

(** An owner's members, in map order. *)
Definition owned_members (m : EntityMap) (o : OwnedMap) : list PropertyMap :=
  List.filter (fun p => bool_decide (Owner p = Some o)) (Properties m).

Definition seen_names (resolved : list PropertyMap) : list string := PropertyName <$> resolved.

(** The member loop: every member of an owned navigation joins the list. *)
Definition add_member (entityName : string) (resolved : list PropertyMap) (member : PropertyMap)
    : result (list PropertyMap) :=
  if decide (PropertyName member ∈ seen_names resolved)
  then Fail (NewError "CRUD-007" (entityName +:+ "." +:+ PropertyName member))
  else Ok (resolved ++ [member]).

Definition add_listed (m : EntityMap) (resolved : list PropertyMap) (propertyName : string)
    : result (list PropertyMap) :=
  let target := EntityName m +:+ "." +:+ propertyName in
  match Property m propertyName with
  | None =>
      match ownedNavigation m propertyName with
      | Some owned => foldR (add_member (EntityName m)) resolved (owned_members m owned)
      | None => Fail (NewError "CRUD-005" target)
      end
  | Some property =>
      if IsKey property || IsVersion property || IsGenerated property
      then Fail (NewError "CRUD-006" target)
      else if decide (propertyName ∈ seen_names resolved) then Fail (NewError "CRUD-007" target)
      else Ok (resolved ++ [property])
  end.

Definition resolveUpdateList (m : EntityMap) (properties : list string)
    : result (list PropertyMap) :=
  match properties with
  | [] => Fail (NewError "CRUD-007" (EntityName m))
  | _ => foldR (add_listed m) [] properties
  end.

(** ** Gates shared by the writes *)

Definition requireWritableKeyed (m : EntityMap) : result EntityMap :=
  if bool_decide (Kind m <> RelationTable) then Fail (NewError "CRUD-003" (EntityName m))
  else match KeyProperties m with
       | [] => Fail (NewError "CRUD-002" (EntityName m))
       | _ => Ok m
       end.

(** * Lemmas: placeholders and bindings agree *)

(** The loader refuses a second version property (MAP-019). *)
Definition single_version (m : EntityMap) : Prop :=
  List.filter IsVersion (Properties m) = versionOf m.

(** A text's placeholders are its bound columns. *)
Definition binds_exactly (t : boundText) : Prop :=
  forall n, n ∈ FindPlaceholders (bt_sql t) <-> n ∈ ColumnName <$> bt_bound t.

Lemma elem_of_filter_b (f : PropertyMap -> bool) l p :
  p ∈ List.filter f l <-> p ∈ l /\ f p = true.
Proof. rewrite !list_elem_of_In. apply filter_In. Qed.

Lemma elem_of_names (ps qs : list PropertyMap) :
  (forall p, p ∈ ps <-> p ∈ qs) ->
  forall n, n ∈ ColumnName <$> ps <-> n ∈ ColumnName <$> qs.
Proof. intros H n. rewrite !list_elem_of_fmap. by setoid_rewrite H. Qed.

Lemma binds_exactly_intro t ps :
  names_in (bt_sql t) = ColumnName <$> ps -> (forall p, p ∈ ps <-> p ∈ bt_bound t) ->
  binds_exactly t.
Proof.
  intros Hn Hps n. rewrite elem_of_FindPlaceholders, Hn. by apply elem_of_names.
Qed.

Section Laws.
Context (d : Dialect) `{!DialectLaws d}.

Lemma insert_binds m t : ident_map m -> insertText d m = Ok t -> binds_exactly t.
Proof.
  intros Hm H. unfold insertText in H. apply bind_Ok in H as (sql & Hs & H).
  apply Ok_inj in H as <-. eapply binds_exactly_intro; [by eapply insert_placeholders|done].
Qed.

Lemma updateOnly_binds m set :
  ident_map m -> ident_properties set -> binds_exactly (updateOnlyText d m set).
Proof. intros Hm Hset. eapply binds_exactly_intro; [by apply update_placeholders|done]. Qed.

Lemma update_bound_elem m p :
  map_derived m -> single_version m ->
  p ∈ update_properties m ++ KeyProperties m ++ version_list m <->
  p ∈ List.filter (fun p => IsKey p || IsVersion p || negb (IsGenerated p)) (Properties m).
Proof.
  intros Hd Hv. change (version_list m) with (versionOf m). rewrite <- Hv, (md_keys m Hd).
  unfold update_properties. rewrite !elem_of_app, !elem_of_filter_b.
  destruct (IsKey p), (IsVersion p), (IsGenerated p); simpl; naive_solver.
Qed.

Lemma update_binds m : ident_map m -> single_version m -> binds_exactly (updateText d m).
Proof.
  intros Hm Hv. unfold updateText. rewrite update_full.
  eapply binds_exactly_intro; [apply update_placeholders; [done|by apply ident_filter]|].
  intros p. apply update_bound_elem; [apply Hm|done].
Qed.

Lemma delete_binds m t :
  ident_map m ->
  deleteEntityText d m (bool_decide (VersionProperty m <> None)) = Ok t -> binds_exactly t.
Proof.
  intros Hm H. unfold deleteEntityText in H.
  destruct (VersionProperty m) as [v|] eqn:Ev.
  - rewrite bool_decide_true in H by done. apply Ok_inj in H as <-.
    eapply binds_exactly_intro; [by apply delete_placeholders|].
    intros p. unfold version_list. by rewrite Ev.
  - rewrite bool_decide_false in H by (intros ?; done). apply Ok_inj in H as <-.
    eapply binds_exactly_intro; [by apply delete_placeholders|].
    intros p. by rewrite app_nil_r.
Qed.

End Laws.

(** ** The column-list cache *)

Lemma position_bytes_inj i j :
  (Z.of_nat i < 65536)%Z -> (Z.of_nat j < 65536)%Z -> position_bytes i = position_bytes j -> i = j.
Proof.
  unfold position_bytes. rewrite !Z.shiftr_div_pow2 by lia. intros Hi Hj [= H1 H2].
  change (2 ^ 8)%Z with 256%Z in *.
  rewrite !(Z.mod_small (_ / 256)) in H1 by
    (split; [apply Z.div_pos; lia|apply Z.div_lt_upper_bound; lia]).
  pose proof (Z_div_mod_eq_full (Z.of_nat i) 256). pose proof (Z_div_mod_eq_full (Z.of_nat j) 256).
  rewrite H1 in *. rewrite H2 in *. lia.
Qed.

Lemma list_key_inj m set set' key :
  (Z.of_nat (length (Properties m)) <= 65536)%Z ->
  list_key m set = Some key -> list_key m set' = Some key -> set = set'.
Proof.
  intros Hlen. revert set' key. induction set as [|p set IH]; intros set' key H H'.
  - injection H as <-. destruct set' as [|p' set']; [done|]. cbn [list_key] in H'.
    destruct (property_index m p'), (list_key m set'); discriminate.
  - destruct set' as [|p' set']; cbn [list_key] in H, H'.
    { injection H' as <-. destruct (property_index m p), (list_key m set); discriminate. }
    unfold property_index in H, H'.
    destruct (list_find (fun q => q = p) (Properties m)) as [[i q]|] eqn:E; [|discriminate].
    destruct (list_find (fun q => q = p') (Properties m)) as [[i' q']|] eqn:E'; [|discriminate].
    destruct (list_key m set) as [rest|] eqn:Er; [|discriminate].
    destruct (list_key m set') as [rest'|] eqn:Er'; [|discriminate].
    apply list_find_Some in E as (Hi & -> & _). apply list_find_Some in E' as (Hi' & -> & _).
    assert (Hkey : position_bytes i ++ rest = position_bytes i' ++ rest')
      by (apply (inj Some); exact (eq_trans H (eq_sym H'))).
    apply app_inj_1 in Hkey as [Hpos <-]; [|done].
    apply position_bytes_inj in Hpos as <-;
      [|apply lookup_lt_Some in Hi; lia|apply lookup_lt_Some in Hi'; lia].
    f_equal; [congruence|by eapply IH].
Qed.

(** Every cached text is the rendering of the set its key spells. *)
Definition columnLists_ok (d : Dialect) (m : EntityMap) (columnLists : gmap (list Z) boundText) : Prop :=
  size columnLists <= maxColumnLists /\
  forall key text, columnLists !! key = Some text ->
    exists set, list_key m set = Some key /\ text = updateOnlyText d m set.

(** The driver's side: one named value per bound property. *)
Definition named_values (t : boundText) (value : PropertyMap -> Bound) : list NamedValue :=
  imap (fun i p => mkNamedValue (ColumnName p) (S i) (value p)) (bt_bound t).

Lemma elem_of_named_values t value a :
  a ∈ named_values t value ->
  exists p, p ∈ bt_bound t /\ nv_Name a = ColumnName p.
Proof.
  unfold named_values. intros Ha. apply elem_of_lookup_imap in Ha as (i & p & -> & Hp).
  exists p. split; [|done]. by eapply list_elem_of_lookup_2.
Qed.

Lemma named_values_of t value p :
  p ∈ bt_bound t -> exists a, a ∈ named_values t value /\ nv_Name a = ColumnName p.
Proof.
  intros [i Hi]%list_elem_of_lookup. exists (mkNamedValue (ColumnName p) (S i) (value p)).
  split; [|done].
  exact (elem_of_lookup_imap_2 (fun i p => mkNamedValue (ColumnName p) (S i) (value p)) _ _ _ Hi).
Qed.

Lemma seen_names_snoc resolved p :
  seen_names (resolved ++ [p]) = seen_names resolved ++ [PropertyName p].
Proof. unfold seen_names. by rewrite fmap_app. Qed.

Lemma update_list_step m resolved name resolved' :
  add_listed m resolved name = Ok resolved' ->
  NoDup (seen_names resolved) -> Forall (fun p => p ∈ Properties m) resolved ->
  NoDup (seen_names resolved') /\ Forall (fun p => p ∈ Properties m) resolved' /\
  exists added, resolved' = resolved ++ added /\
    ((exists p, added = [p] /\ Property m name = Some p /\
       IsKey p = false /\ IsVersion p = false /\ IsGenerated p = false) \/
     (Property m name = None /\
      exists o, ownedNavigation m name = Some o /\ added = owned_members m o)).
Proof.
  intros H Hnd Hin. unfold add_listed in H.
  destruct (Property m name) as [p|] eqn:Ep.
  - destruct (IsKey p) eqn:Ek, (IsVersion p) eqn:Ev, (IsGenerated p) eqn:Eg; try discriminate.
    simpl in H. apply Property_Some in Ep as [Hp Hname].
    case_decide as Hseen; [done|]. apply Ok_inj in H as <-. split; [|split].
    + rewrite seen_names_snoc, Hname. by apply NoDup_snoc.
    + apply Forall_app. split; [done|]. by apply Forall_singleton.
    + exists [p]. split; [done|]. left. exists p. repeat split; done.
  - destruct (ownedNavigation m name) as [o|] eqn:Eo; [|done].
    assert (Hmem : Forall (fun p => p ∈ Properties m) (owned_members m o)).
    { apply Forall_forall. unfold owned_members. intros q Hq. by apply elem_of_filter_b in Hq as [? _]. }
    enough (HH : NoDup (seen_names resolved') /\ resolved' = resolved ++ owned_members m o).
    { destruct HH as [Hnd' ->]. split; [done|]. split; [by apply Forall_app|].
      exists (owned_members m o). split; [done|]. right. split; [done|]. by exists o. }
    clear Hmem Hin Ep Eo. generalize dependent resolved. generalize (owned_members m o).
    intros ms. induction ms as [|q ms IH]; intros resolved H Hnd; simpl in H.
    + apply Ok_inj in H as <-. by rewrite app_nil_r.
    + apply bind_Ok in H as (r1 & H1 & H). unfold add_member in H1.
      case_decide as Hs; [done|]. apply Ok_inj in H1 as <-. apply IH in H as [Hnd2 ->].
      * split; [done|]. by rewrite <- app_assoc.
      * rewrite seen_names_snoc. by apply NoDup_snoc.
Qed.

(** * Theorems *)

(** C38. The generated writes bind exactly what they mention: on every dialect, in
    the INSERT, the full-row UPDATE, the column-list UPDATE and both forms of
    the DELETE, a name is a placeholder of the text when and only when it is
    the column of a bound property. *)
Theorem generated_writes_bind_exactly (d : Dialect) (m : EntityMap)
    (set : list PropertyMap)
    (Hd : d ∈ dialects)
    (Hm : ident_map m) (Hv : single_version m) (Hset : ident_properties set) :
  (forall t, insertText d m = Ok t -> binds_exactly t) /\
  binds_exactly (updateText d m) /\
  binds_exactly (updateOnlyText d m set) /\
  (forall t, deleteEntityText d m (bool_decide (VersionProperty m <> None)) = Ok t ->
     binds_exactly t) /\
  (forall n, n ∈ FindPlaceholders (deleteByKeyText d m).1 <-> n ∈ ColumnName <$> KeyProperties m).
Proof.
  pose proof (dialects_laws d Hd).
  split; [intros t; by apply insert_binds|]. split; [by apply update_binds|].
  split; [by apply updateOnly_binds|]. split; [intros t; by apply delete_binds|].
  intros n. rewrite elem_of_FindPlaceholders. simpl.
  by rewrite delete_placeholders, app_nil_r.
Qed.

(** The column-list cache is transparent (ADR-0048): with at most 65536
    properties - two bytes address them - a cached rendering is the rendering
    of exactly the ordered set asked for, and the cache stays within its cap. *)
Theorem columnLists_transparent (d : Dialect) (m : EntityMap) (set : list PropertyMap)
    (columnLists : gmap (list Z) boundText) :
  (Z.of_nat (length (Properties m)) <= 65536)%Z -> columnLists_ok d m columnLists ->
  (cachedUpdateOnlyText d m set columnLists).1 = updateOnlyText d m set /\
  columnLists_ok d m (cachedUpdateOnlyText d m set columnLists).2.
Proof.
  intros Hlen [Hsize Hok]. unfold cachedUpdateOnlyText.
  destruct (list_key m set) as [key|] eqn:Ekey; [|by split].
  destruct (columnLists !! key) as [text|] eqn:Et; cbn [fst snd].
  - destruct (Hok key text Et) as (set' & Hk & ->). split; [|by split].
    by rewrite (list_key_inj _ _ _ _ Hlen Ekey Hk).
  - split; [done|]. destruct (Nat.ltb_spec (size columnLists) maxColumnLists); [|by split]. split.
    + rewrite map_size_insert_None by done. lia.
    + intros key' text [[<- <-]|[_ ?]]%lookup_insert_Some; [by exists set|by apply Hok].
Qed.

(** A versioned user with a generated key. *)
Definition sample_property (name column : string) (ct : ColumnType) (key generated version : bool) :=
  mkProperty None name column (mkField false TyString) ct false key generated version AuditNone false None 0 0 0 None None.
Definition sample_map : EntityMap :=
  NewEntityMap (mkGoType "sample" "User") RelationTable "users" "" ""
    [sample_property "ID" "id" TypeInt64 true true false;
     sample_property "Name" "name" TypeString false false false;
     sample_property "Version" "version" TypeInt64 false false true]
    KeyDatabaseGenerated [] [].

Lemma generated_writes_bind_exactly_witness :
  FindPlaceholders (UpdateSQL SqlServer.dialect sample_map) = ["name"; "id"; "version"] /\
  binds_exactly (updateText SqlServer.dialect sample_map).
Proof.
  split; [vm_compute; reflexivity|].
  refine (proj1 (proj2 (generated_writes_bind_exactly SqlServer.dialect sample_map [] _ _ _ _))).
  - right. right. left.
  - split; [repeat constructor; by eexists _, _| |].
    + repeat constructor; by eexists _, _.
    + apply NewEntityMap_derived.
  - reflexivity.
  - constructor.
Defined.

Lemma resolve_list_members m names (resolved set : list PropertyMap) :
  foldR (add_listed m) resolved names = Ok set ->
  NoDup (seen_names resolved) -> Forall (fun p => p ∈ Properties m) resolved ->
  NoDup (seen_names set) /\ Forall (fun p => p ∈ Properties m) set /\
  forall p, p ∈ set -> p ∈ resolved \/
    (PropertyName p ∈ names /\ IsKey p = false /\ IsVersion p = false /\ IsGenerated p = false) \/
    (exists o, ow_PropertyName o ∈ names /\ Owner p = Some o).
Proof.
  revert resolved. induction names as [|name names IH]; intros resolved H Hnd Hin.
  - apply Ok_inj in H as <-. auto.
  - cbn [foldR] in H. apply bind_Ok in H as (r1 & H1 & H).
    destruct (update_list_step _ _ _ _ H1 Hnd Hin) as (Hnd1 & Hin1 & added & -> & Hadd).
    destruct (IH _ H Hnd1 Hin1) as (Hnd2 & Hin2 & Hmem). split; [done|]. split; [done|].
    intros p Hp. destruct (Hmem p Hp) as [Hr|[(Hn & Hf)|(o & Ho & How)]].
    + apply elem_of_app in Hr as [Hr|Hr]; [by left|]. right.
      destruct Hadd as [(q & -> & Hq & Hk & Hv & Hg)|(_ & o & Ho & ->)].
      * left. apply list_elem_of_singleton in Hr as ->. apply Property_Some in Hq as [_ <-].
        split; [by left|done].
      * right. exists o. apply elem_of_filter_b in Hr as [_ Hr].
        apply bool_decide_eq_true in Hr. unfold ownedNavigation in Ho.
        apply find_some in Ho as [_ Ho]. apply bool_decide_eq_true in Ho as <-.
        split; [by left|done].
    + right. left. split; [by right|done].
    + right. right. exists o. split; [by right|done].
Qed.

(** [resolveUpdateList] (ADR-0028) lets through only writable lists: an
    accepted list is non-empty and holds mapped properties, each once; each is
    a listed property that is no key, version or generated column, or a member
    of a listed owned navigation.  The empty list is CRUD-007. *)
Theorem resolveUpdateList_sound (m : EntityMap) (names : list string) :
  resolveUpdateList m [] = Fail (NewError "CRUD-007" (EntityName m)) /\
  forall set, resolveUpdateList m names = Ok set ->
    names <> [] /\ NoDup (PropertyName <$> set) /\
    forall p, p ∈ set -> p ∈ Properties m /\
      ((PropertyName p ∈ names /\ IsKey p = false /\ IsVersion p = false /\ IsGenerated p = false) \/
       (exists o, ow_PropertyName o ∈ names /\ Owner p = Some o)).
Proof.
  split; [done|]. intros set H. destruct names as [|n names]; [done|]. split; [done|].
  destruct (resolve_list_members m (n :: names) [] set H) as (Hnd & Hin & Hmem);
    [constructor|constructor|].
  split; [done|]. intros p Hp. rewrite Forall_forall in Hin. split; [by apply Hin|].
  destruct (Hmem p Hp) as [[]%not_elem_of_nil|Hc]; exact Hc.
Qed.

(** The text and the driver agree on PostgreSQL: for every generated write,
    [arrange] accepts the named values the session binds, so no generated
    statement is refused before it is sent. *)
Theorem generated_writes_arrange (m : EntityMap) (t : boundText) (value : PropertyMap -> Bound)
    (Hm : ident_map m) (Hv : single_version m) :
  insertText Postgres.dialect m = Ok t \/ t = updateText Postgres.dialect m \/
    deleteEntityText Postgres.dialect m (bool_decide (VersionProperty m <> None)) = Ok t ->
  is_ok (arrange (rewritePlaceholders (bt_sql t)) (named_values t value)) = true.
Proof.
  intros Ht.
  assert (Hb : binds_exactly t).
  { destruct Ht as [Ht|[->|Ht]].
    - by apply (insert_binds Postgres.dialect m).
    - by apply (update_binds Postgres.dialect m).
    - by apply (delete_binds Postgres.dialect m). }
  clear Ht. set (r := rewritePlaceholders (bt_sql t)).
  assert (Hnames : forall key, key ∈ rw_names r <->
            exists n, n ∈ FindPlaceholders (bt_sql t) /\ ToLower n = key).
  { intros key. destruct (pieces_exist 0 false Text (bytes (bt_sql t))) as (ps & tail & H).
    destruct (rewritePlaceholders_pieces _ _ _ H) as [Hr _]. fold r in Hr. rewrite Hr.
    rewrite first_seen_elem. setoid_rewrite elem_of_FindPlaceholders.
    rewrite (names_in_pieces _ _ _ H), list_elem_of_fmap. split.
    - intros [(p & -> & Hp) _]. exists (of_bytes p.2). split; [|done].
      apply list_elem_of_fmap. eauto.
    - intros (n & Hn & <-). apply list_elem_of_fmap in Hn as (p & -> & Hp).
      split; [eauto|apply not_elem_of_nil]. }
  destruct (decide (rw_names r = [])) as [Hr|Hr].
  { unfold arrange. by rewrite Hr. }
  apply arrange_accepts; [done|]. split.
  - apply Forall_forall. intros a Ha. apply elem_of_named_values in Ha as (p & Hp & ->).
    assert (Hf : ColumnName p ∈ FindPlaceholders (bt_sql t))
      by (apply Hb, list_elem_of_fmap; eauto).
    split; [|apply Hnames; eauto]. pose proof (placeholders_nonempty (bt_sql t)) as Hne.
    rewrite Forall_forall in Hne. by apply Hne.
  - intros key Hkey. apply Hnames in Hkey as (n & Hn & <-). apply Hb in Hn.
    apply list_elem_of_fmap in Hn as (p & -> & Hp).
    destruct (named_values_of t value p Hp) as (a & Ha & Hn).
    apply argument_Some. exists a. by rewrite Hn.
Qed.

Lemma generated_writes_arrange_witness :
  ident_map sample_map /\
  is_ok (arrange (rewritePlaceholders (bt_sql (updateText Postgres.dialect sample_map)))
    (named_values (updateText Postgres.dialect sample_map) (fun _ => BoundValue VNil))) = true.
Proof.
  assert (Hm : ident_map sample_map).
  { split; [repeat constructor; by eexists _, _| |].
    + repeat constructor; by eexists _, _.
    + apply NewEntityMap_derived. }
  split; [exact Hm|].
  exact (generated_writes_arrange sample_map (updateText Postgres.dialect sample_map) _ Hm
    eq_refl (or_intror (or_introl eq_refl))).
Defined.

Lemma resolveUpdateList_sound_witness :
  exists set, resolveUpdateList sample_map ["Name"] = Ok set /\ NoDup (PropertyName <$> set).
Proof.
  eexists. split; [vm_compute; reflexivity|].
  apply (resolveUpdateList_sound sample_map ["Name"]). vm_compute. reflexivity.
Defined.

Lemma columnLists_transparent_witness :
  let name := nth 1 (Properties sample_map) (sample_property "" "" TypeString false false false) in
  let cache := (cachedUpdateOnlyText Sqlite.dialect sample_map [name] ∅).2 in
  size cache = 1 /\
  (cachedUpdateOnlyText Sqlite.dialect sample_map [name] cache).1
  = updateOnlyText Sqlite.dialect sample_map [name].
Proof.
  intros name cache.
  assert (Hlen : (Z.of_nat (length (Properties sample_map)) <= 65536)%Z) by (simpl; lia).
  assert (Hempty : columnLists_ok Sqlite.dialect sample_map ∅).
  { split; [rewrite map_size_empty; lia|]. intros key text. by rewrite lookup_empty. }
  destruct (columnLists_transparent Sqlite.dialect sample_map [name] ∅ Hlen Hempty) as [_ Hc].
  split; [reflexivity|].
  exact (proj1 (columnLists_transparent Sqlite.dialect sample_map [name] cache Hlen Hc)).
Defined.
