(* ===== verification/Query.v ===== *)
(** The criteria query as data: the AST (internal/core/query_ast.go) with its
    factories, and the session-first chain that builds it (criteria_query.go).

    A value of Go type [any] is an [option Value]: [None] is the untyped nil the
    renderer tests with [== nil]; a nil pointer inside the interface is
    [Some VNil].  [NilCriteria] is the nil interface, the one value of type
    [Criteria] that is none of the nodes. *)
From S2P Require Import Prelude GoStrings Values Core.

(** * The AST (query_ast.go) *)

Inductive SortOrder := Asc | Desc.
#[export] Instance SortOrder_eq_dec : EqDecision SortOrder.
Proof. solve_decision. Defined.

Definition SortOrder_Token (o : SortOrder) : string :=
  match o with Desc => "desc" | Asc => "asc" end.

Record Ordering := mkOrdering { or_Property : string; or_Order : SortOrder }.

Record JoinPair := mkJoinPair { ParentProperty : string; TargetProperty : string }.

Record SelectJoin := mkSelectJoin {
  sj_Target : EntityMap;
  sj_Alias : string;
  sj_ParentAlias : string;
  sj_On : list JoinPair;
  sj_Project : bool }.

Inductive Criteria :=
  | Comparison (property operator : string) (value : option Value)
  | InList (property : string) (values : list (option Value))
  | NullCheck (property : string) (negated : bool)
  | Composite (operator : string) (children : list Criteria)
  | Negation (inner : Criteria)
  | SubqueryMembership (properties : list string) (subquery : SelectAst)
  | NilCriteria
with SelectAst := mkSelect
  (Map_ : EntityMap) (Where_ : list Criteria) (Orderings_ : list Ordering)
  (Limit_ Offset_ : option Z)
  (Projection_ : option (list PropertyMap)) (Joins_ : list SelectJoin).

Definition sa_Map (ast : SelectAst) := let '(mkSelect m _ _ _ _ _ _) := ast in m.
Definition sa_Where (ast : SelectAst) := let '(mkSelect _ w _ _ _ _ _) := ast in w.
Definition sa_Orderings (ast : SelectAst) := let '(mkSelect _ _ o _ _ _ _) := ast in o.
Definition sa_Limit (ast : SelectAst) := let '(mkSelect _ _ _ l _ _ _) := ast in l.
Definition sa_Offset (ast : SelectAst) := let '(mkSelect _ _ _ _ o _ _) := ast in o.
Definition sa_Projection (ast : SelectAst) := let '(mkSelect _ _ _ _ _ p _) := ast in p.
Definition sa_Joins (ast : SelectAst) := let '(mkSelect _ _ _ _ _ _ j) := ast in j.

(** ** The factories *)

Definition InSelect (properties : list string) (subquery : SelectAst) : Criteria :=
  SubqueryMembership properties subquery.
Definition Eq (property : string) (value : option Value) : Criteria := Comparison property "=" value.
Definition Ne (property : string) (value : option Value) : Criteria := Comparison property "<>" value.
Definition Gt (property : string) (value : option Value) : Criteria := Comparison property ">" value.
Definition Ge (property : string) (value : option Value) : Criteria := Comparison property ">=" value.
Definition Lt (property : string) (value : option Value) : Criteria := Comparison property "<" value.
Definition Le (property : string) (value : option Value) : Criteria := Comparison property "<=" value.
Definition Like (property pattern : string) : Criteria :=
  Comparison property "like" (Some (VString pattern)).
Definition In_ (property : string) (values : list (option Value)) : Criteria := InList property values.
Definition IsNull (property : string) : Criteria := NullCheck property false.
Definition IsNotNull (property : string) : Criteria := NullCheck property true.
Definition And (criteria : list Criteria) : Criteria := Composite "and" criteria.
Definition Or (criteria : list Criteria) : Criteria := Composite "or" criteria.
Definition Not (criteria : Criteria) : Criteria := Negation criteria.

(** ** Induction over a criteria tree

    The principle the nested lists need: a list of children carries the
    hypothesis for each, and a membership the one for its subquery's own
    predicates. *)
Section CriteriaInd.
Context (P : Criteria -> Prop) (Q : SelectAst -> Prop).
Hypothesis Hcomparison : forall p op v, P (Comparison p op v).
Hypothesis Hin : forall p vs, P (InList p vs).
Hypothesis Hnull : forall p n, P (NullCheck p n).
Hypothesis Hcomposite : forall op cs, Forall P cs -> P (Composite op cs).
Hypothesis Hnegation : forall c, P c -> P (Negation c).
Hypothesis Hmember : forall ps ast, Q ast -> P (SubqueryMembership ps ast).
Hypothesis Hnil : P NilCriteria.
Hypothesis Hselect : forall m w o l f p j, Forall P w -> Q (mkSelect m w o l f p j).

Fixpoint Criteria_tree_ind (c : Criteria) : P c :=
  match c with
  | Comparison p op v => Hcomparison p op v
  | InList p vs => Hin p vs
  | NullCheck p n => Hnull p n
  | Composite op cs =>
      Hcomposite op cs
        ((fix all l : Forall P l :=
            match l with
            | [] => @Forall_nil_2 _ P
            | x :: l' => Forall_cons_2 P x l' (Criteria_tree_ind x) (all l')
            end) cs)
  | Negation inner => Hnegation inner (Criteria_tree_ind inner)
  | SubqueryMembership ps ast => Hmember ps ast (SelectAst_tree_ind ast)
  | NilCriteria => Hnil
  end
with SelectAst_tree_ind (ast : SelectAst) : Q ast :=
  match ast with
  | mkSelect m w o l f p j =>
      Hselect m w o l f p j
        ((fix all l : Forall P l :=
            match l with
            | [] => @Forall_nil_2 _ P
            | x :: l' => Forall_cons_2 P x l' (Criteria_tree_ind x) (all l')
            end) w)
  end.

Lemma Criteria_SelectAst_ind : (forall c, P c) /\ (forall ast, Q ast).
Proof. split; [exact Criteria_tree_ind|exact SelectAst_tree_ind]. Qed.
End CriteriaInd.

(** * The chain (criteria_query.go) *)

Inductive FetchMode := FetchMultiQuery | FetchSubSelect | FetchJoin.
#[export] Instance FetchMode_eq_dec : EqDecision FetchMode.
Proof. solve_decision. Defined.

Record CriteriaQuery := mkQuery {
  cq_where : list Criteria;
  cq_orderings : list Ordering;
  cq_limit : option Z;
  cq_offset : option Z;
  cq_includes : list string;
  cq_fetch : FetchMode }.

(** [From]: the chain starts empty. *)
Definition From_ : CriteriaQuery := mkQuery [] [] None None [] FetchMultiQuery.

Definition Include (navigations : list string) (q : CriteriaQuery) : CriteriaQuery :=
  mkQuery (cq_where q) (cq_orderings q) (cq_limit q) (cq_offset q)
    (cq_includes q ++ navigations) (cq_fetch q).
Definition Fetch (mode : FetchMode) (q : CriteriaQuery) : CriteriaQuery :=
  mkQuery (cq_where q) (cq_orderings q) (cq_limit q) (cq_offset q) (cq_includes q) mode.
Definition Where (criteria : list Criteria) (q : CriteriaQuery) : CriteriaQuery :=
  mkQuery (cq_where q ++ criteria) (cq_orderings q) (cq_limit q) (cq_offset q)
    (cq_includes q) (cq_fetch q).
Definition OrderBy (property : string) (order : list SortOrder) (q : CriteriaQuery) : CriteriaQuery :=
  mkQuery (cq_where q)
    (cq_orderings q ++ [mkOrdering property match order with o :: _ => o | [] => Asc end])
    (cq_limit q) (cq_offset q) (cq_includes q) (cq_fetch q).
Definition Limit (limit : Z) (q : CriteriaQuery) : CriteriaQuery :=
  mkQuery (cq_where q) (cq_orderings q) (Some limit) (cq_offset q) (cq_includes q) (cq_fetch q).
Definition Offset (offset : Z) (q : CriteriaQuery) : CriteriaQuery :=
  mkQuery (cq_where q) (cq_orderings q) (cq_limit q) (Some offset) (cq_includes q) (cq_fetch q).

Definition queryName (m : EntityMap) : string := EntityName m +:+ " criteria".

(** QRY-005: a statement-backed entity has no relation to query. *)
Definition requireNamedRelation (m : EntityMap) (entityType : GoType) : result unit :=
  if bool_decide (Kind m = RelationStatement) || bool_decide (Kind m = RelationProcedure)
  then Fail (NewError "QRY-005" (TypeShortName entityType)) else Ok tt.

(** One turn of [keyTiebrokenOrderings]' loop over the key. *)
Definition tiebreak (result : list Ordering) (key : PropertyMap) : list Ordering :=
  if existsb (fun o => EqualFold (or_Property o) (PropertyName key)) result then result
  else result ++ [mkOrdering (PropertyName key) Asc].

Definition keyTiebrokenOrderings (m : EntityMap) (orderings : list Ordering) : list Ordering :=
  fold_left tiebreak (KeyProperties m) orderings.

(** The AST [List] renders: the paged root of a SubSelect query is ordered down
    to its key. *)
Definition paged (q : CriteriaQuery) : bool :=
  match cq_limit q, cq_offset q with None, None => false | _, _ => true end.

Definition query_ast (m : EntityMap) (q : CriteriaQuery) : SelectAst :=
  mkSelect m (cq_where q)
    (match cq_includes q with
     | _ :: _ =>
         if bool_decide (cq_fetch q = FetchSubSelect) && paged q
         then keyTiebrokenOrderings m (cq_orderings q) else cq_orderings q
     | [] => cq_orderings q
     end)
    (cq_limit q) (cq_offset q) None [].

(** [Single] and [SingleOrDefault] over the rows of [List]. *)
Definition Single {T} (m : EntityMap) (list : result (list T)) : result T :=
  let* rows := list in
  match rows with
  | [row] => Ok row
  | [] => Fail (NewError "QRY-001" (queryName m))
  | _ => Fail (NewError "QRY-002" (queryName m))
  end.

Definition SingleOrDefault {T} (m : EntityMap) (list : result (list T)) : result (option T) :=
  let* rows := list in
  match rows with
  | [] => Ok None
  | [row] => Ok (Some row)
  | _ => Fail (NewError "QRY-002" (queryName m))
  end.
