(* ===== verification/Render.v ===== *)
(** The reference rendering of a criteria query
    (internal/render/ansi_select_renderer.go), over a dialect and a [bind]
    function, and the session's [bind] (db.go, [renderAndRunSelect]; the label
    cache of generated_sql.go).

    [bind] gives a value a placeholder and is a computation on a state of its
    own, so the order of its calls is the order of the placeholders. *)
From S2P Require Import Prelude GoStrings Values Core Placeholders Params Dialect GeneratedSql Query.

(** * Resolution *)

Definition Resolve (m : EntityMap) (property queryName : string) : result PropertyMap :=
  match List.find (fun p => bool_decide (PropertyName p = property)) (Properties m) with
  | Some p => Ok p
  | None =>
      match List.filter (fun p => EqualFold (PropertyName p) property) (Properties m) with
      | [p] => Ok p
      | _ => Fail (NewError "QRY-006" queryName)
      end
  end.

(** * The renderer *)

Section Renderer.
Context {St : Type}.
Context (dialect : Dialect).
Context (bind : Value -> option PropertyMap -> SM St string).

Definition aliasQualifiedColumn (alias columnName : string) : string :=
  let col := QuoteIdentifier dialect columnName in
  if decide (alias = "") then col else alias +:+ "." +:+ col.

Definition column (m : EntityMap) (property queryName rootAlias : string) : result string :=
  let* p := Resolve m property queryName in
  Ok (aliasQualifiedColumn rootAlias (ColumnName p)).

(** ** Joins *)

(** The map of an alias: a later join of the same alias replaces an earlier. *)
Definition aliasMaps (joins : list SelectJoin) : gmap string EntityMap :=
  fold_left (fun maps j => <[sj_Alias j := sj_Target j]> maps) joins ∅.

Definition join_parent (root : EntityMap) (joins : list SelectJoin) (queryName : string)
    (j : SelectJoin) : result (string * EntityMap) :=
  if decide (sj_ParentAlias j = "") then Ok ("t", root)
  else match aliasMaps joins !! sj_ParentAlias j with
       | Some m => Ok (sj_ParentAlias j, m)
       | None => Fail (NewError "QRY-006" queryName)
       end.

Definition join_pair (parentAlias : string) (parentMap : EntityMap) (queryName : string)
    (j : SelectJoin) (pair : JoinPair) : result string :=
  let* parentProperty := Resolve parentMap (ParentProperty pair) queryName in
  let* targetProperty := Resolve (sj_Target j) (TargetProperty pair) queryName in
  Ok (sj_Alias j +:+ "." +:+ QuoteIdentifier dialect (ColumnName targetProperty) +:+
      " = " +:+ parentAlias +:+ "." +:+ QuoteIdentifier dialect (ColumnName parentProperty)).

Definition join_clause (root : EntityMap) (joins : list SelectJoin) (queryName : string)
    (j : SelectJoin) : result string :=
  let* (parentAlias, parentMap) := join_parent root joins queryName j in
  let* pairs := mapR (join_pair parentAlias parentMap queryName j) (sj_On j) in
  Ok (QuoteIdentifier dialect (RelationName (sj_Target j)) +:+ " " +:+ sj_Alias j +:+
      " on " +:+ Join pairs " and ").

Definition renderJoins (root : EntityMap) (joins : list SelectJoin) (queryName : string)
    : result (list string) :=
  mapR (join_clause root joins queryName) joins.

(** ** The select list and FROM *)

Fixpoint requiresExistsRewriteNode (criteria : Criteria) : bool :=
  match criteria with
  | SubqueryMembership properties _ => (1 <? length properties) && negb (SupportsRowValueIn dialect)
  | Composite _ children => existsb requiresExistsRewriteNode children
  | Negation inner => requiresExistsRewriteNode inner
  | _ => false
  end.

Definition requiresExistsRewrite (where_ : list Criteria) : bool :=
  existsb requiresExistsRewriteNode where_.

Definition needsRootAlias (where_ : list Criteria) (joins : list SelectJoin) : bool :=
  bool_decide (joins <> []) || requiresExistsRewrite where_.

Definition rootAlias (where_ : list Criteria) (joins : list SelectJoin) : string :=
  if needsRootAlias where_ joins then "t" else "".

Definition root_column (alias : string) (hasJoins : bool) (p : PropertyMap) : string :=
  aliasQualifiedColumn alias (ColumnName p) +:+
  (if hasJoins then " as " +:+ QuoteIdentifier dialect (alias +:+ "_" +:+ ColumnName p) else "").

Definition join_column (j : SelectJoin) (p : PropertyMap) : string :=
  sj_Alias j +:+ "." +:+ QuoteIdentifier dialect (ColumnName p) +:+ " as " +:+
  QuoteIdentifier dialect (sj_Alias j +:+ "_" +:+ ColumnName p).

Definition join_columns (j : SelectJoin) : list string :=
  if sj_Project j then join_column j <$> Properties (sj_Target j) else [].

Definition select_columns (alias : string) (rootProperties : list PropertyMap)
    (joins : list SelectJoin) : list string :=
  (root_column alias (bool_decide (joins <> [])) <$> rootProperties) ++ concat (join_columns <$> joins).

Definition projected (m : EntityMap) (projection : option (list PropertyMap)) : list PropertyMap :=
  match projection with Some ps => ps | None => Properties m end.

(** [select … from <relation> [t] [left join …]…] *)
Definition select_from (m : EntityMap) (alias : string) (projection : option (list PropertyMap))
    (joins : list SelectJoin) (joinClauses : list string) : string :=
  "select " +:+ Join (select_columns alias (projected m projection) joins) ", " +:+
  " from " +:+ QuoteIdentifier dialect (RelationName m) +:+
  (if decide (alias = "") then "" else " " +:+ alias) +:+
  Join ((fun clause => " left join " +:+ clause) <$> joinClauses) "".

(** ** ORDER BY and paging *)

Definition order_part (m : EntityMap) (queryName alias : string) (o : Ordering) : result string :=
  let* property := Resolve m (or_Property o) queryName in
  Ok (aliasQualifiedColumn alias (ColumnName property) +:+
      match or_Order o with Desc => " desc" | Asc => "" end).

Definition order_by (m : EntityMap) (queryName alias : string) (orderings : list Ordering)
    : result string :=
  match orderings with
  | [] => Ok ""
  | _ =>
      let* parts := mapR (order_part m queryName alias) orderings in
      Ok (" order by " +:+ Join parts ", ")
  end.

Definition bind_opt (limit : option Z) : SM St string :=
  match limit with
  | Some n => bind (VInt KInt64 n) None
  | None => sret ""
  end.

Definition paging (orderings : list Ordering) (limit offset : option Z) : SM St string :=
  match limit, offset with
  | None, None => sret ""
  | _, _ =>
      do! limitParameter <- bind_opt limit in
      do! offsetParameter <- bind_opt offset in
      let clause := LimitOffsetClause dialect limitParameter offsetParameter in
      sret ((if bool_decide (orderings = []) && PagingRequiresOrderBy dialect
             then " order by (select null)" else "") +:+
            (if decide (clause = "") then "" else " " +:+ clause))
  end.

Definition negative (n : option Z) : bool :=
  match n with Some z => (z <? 0)%Z | None => false end.

(** An unpaged subquery's ordering, dropped where the dialect refuses one. *)
Definition subquery_orderings (subquery : SelectAst) : list Ordering :=
  match sa_Limit subquery, sa_Offset subquery with
  | None, None => if PagingRequiresOrderBy dialect then [] else sa_Orderings subquery
  | _, _ => sa_Orderings subquery
  end.

(** The correlations of the EXISTS rewrite: compared column by column. *)
Definition correlation (alias : string) (sub root : PropertyMap) : string :=
  "s." +:+ QuoteIdentifier dialect (ColumnName sub) +:+ " = " +:+
  alias +:+ "." +:+ QuoteIdentifier dialect (ColumnName root).

(** ** Predicates and the whole SELECT *)

Definition membership_text (queryName rootAlias : string) (properties : list PropertyMap)
    (subquery : SelectAst) (subquerySQL : string) : result string :=
  let columns := (fun p => aliasQualifiedColumn rootAlias (ColumnName p)) <$> properties in
  match columns with
  | [col] => Ok (col +:+ " in (" +:+ subquerySQL +:+ ")")
  | _ =>
      if SupportsRowValueIn dialect
      then Ok ("(" +:+ Join columns ", " +:+ ") in (" +:+ subquerySQL +:+ ")")
      else
        let alias := if decide (rootAlias = "") then "t" else rootAlias in
        let selected := projected (sa_Map subquery) (sa_Projection subquery) in
        if decide (length selected = length properties)
        then Ok ("exists (select 1 from (" +:+ subquerySQL +:+ ") s where " +:+
                 Join (zip_with (correlation alias) selected properties) " and " +:+ ")")
        else Fail (NewError "QRY-006" queryName)
  end.

Fixpoint renderCriteria (criteria : Criteria) (m : EntityMap) (queryName rootAlias : string)
    {struct criteria} : SM St string :=
  match criteria with
  | Comparison property operator None =>
      do! col <- slift (column m property queryName rootAlias) in
      slift (if decide (operator = "=") then Ok (col +:+ " is null")
             else if decide (operator = "<>") then Ok (col +:+ " is not null")
             else Fail (NewError "QRY-007" queryName))
  | Comparison property operator (Some value) =>
      do! p <- slift (Resolve m property queryName) in
      do! col <- slift (column m property queryName rootAlias) in
      do! placeholder <- bind value (Some p) in
      sret (col +:+ " " +:+ operator +:+ " " +:+ placeholder)
  | InList property [] =>
      do! _ <- slift (Resolve m property queryName) in sret "1 = 0"
  | InList property values =>
      if existsb (fun v => bool_decide (v = None)) values
      then sthrow (NewError "QRY-007" queryName)
      else
        do! p <- slift (Resolve m property queryName) in
        do! col <- slift (column m property queryName rootAlias) in
        do! placeholders <- mapS (fun value => bind value (Some p)) (omap id values) in
        sret (col +:+ " in (" +:+ Join placeholders ", " +:+ ")")
  | NullCheck property negated =>
      do! col <- slift (column m property queryName rootAlias) in
      sret (if negated then col +:+ " is not null" else col +:+ " is null")
  | Composite operator [] =>
      sret (if decide (operator = "and") then "1 = 1" else "1 = 0")
  | Composite operator children =>
      do! parts <- mapS (fun child => renderCriteria child m queryName rootAlias) children in
      sret ("(" +:+ Join parts (" " +:+ operator +:+ " ") +:+ ")")
  | Negation inner =>
      do! inner <- renderCriteria inner m queryName rootAlias in
      sret ("not " +:+ inner)
  | SubqueryMembership names subquery =>
      do! properties <- slift (mapR (fun name => Resolve m name queryName) names) in
      do! subquerySQL <- render_select (subquery_orderings subquery) subquery in
      slift (membership_text queryName rootAlias properties subquery subquerySQL)
  | NilCriteria => sthrow (NewError "QRY-006" queryName)
  end
with render_select (orderings : list Ordering) (ast : SelectAst) {struct ast} : SM St string :=
  match ast with
  | mkSelect m where_ _ limit offset projection joins =>
      let queryName := queryName m in
      if negative limit || negative offset then sthrow (NewError "QRY-008" queryName) else
      let alias := rootAlias where_ joins in
      do! joinClauses <- slift (renderJoins m joins queryName) in
      do! where_text <-
        match where_ with
        | [] => sret ""
        | [predicate] =>
            do! rendered <- renderCriteria predicate m queryName alias in
            sret (" where " +:+ rendered)
        | _ =>
            do! parts <- mapS (fun child => renderCriteria child m queryName alias) where_ in
            sret (" where (" +:+ Join parts " and " +:+ ")")
        end in
      do! order <- slift (order_by m queryName alias orderings) in
      do! page <- paging orderings limit offset in
      sret (select_from m alias projection joins joinClauses +:+ where_text +:+ order +:+ page)
  end.

Definition SelectSQL (ast : SelectAst) : SM St string := render_select (sa_Orderings ast) ast.

End Renderer.

(** * The session's binding (db.go, generated_sql.go) *)

(** The session's label cache, by query name. *)
Abbreviation label_cache := (gmap string (list string)).

Section Session.
Context (dialect : Dialect).
Context (ToDatabase : Value -> option ColumnType -> string -> result Value).

(** [ToParameter] (internal/mapping/typed_null.go); no property is the token
    of no column, whose NULL is untyped. *)
Definition ToParameter (value : Value) (columnType : option ColumnType) (context : string)
    : result Bound :=
  let* bound := ToDatabase value columnType context in
  Ok (if is_nil bound
      then BoundNull match columnType with Some ct => TypedNull ct | None => UntypedNil end
      else BoundValue bound).

(** The labels of a query name rendered so far, and what one rendering has
    bound and labelled. *)
Record criteria_binding := mkBinding {
  cb_bound : list NamedArg;
  cb_labels : list string }.

Definition label_at (queryName : string) (labels : list string) (at_ : nat) : list string :=
  if decide (at_ = length labels)
  then labels ++ [queryName +:+ " @" +:+ criteriaName at_] else labels.

Definition bind_criteria (queryName : string) (value : Value) (property : option PropertyMap)
    : SM criteria_binding string := fun b =>
  let at_ := length (cb_bound b) in
  let labels := label_at queryName (cb_labels b) at_ in
  let b := mkBinding (cb_bound b) labels in
  match labels !! at_ with
  | None => (b, Panic "index out of range")
  | Some label =>
      match ToParameter value (ColumnType_ <$> property) label with
      | Fail e => (b, Fail e)
      | Ok converted =>
          (mkBinding (cb_bound b ++ [mkNamedArg (criteriaName at_) converted]) labels,
           Ok (criteriaPlaceholder at_))
      end
  end.

Definition maxLabelSets : nat := 1024.

Definition criteriaLabels (cache : label_cache) (queryName : string) : list string :=
  default [] (cache !! queryName).

Definition keepCriteriaLabels (cache : label_cache) (queryName : string) (labels : list string)
    : label_cache :=
  if decide (length labels <= length (criteriaLabels cache queryName)) then cache
  else match cache !! queryName with
       | None => if decide (maxLabelSets <= size cache) then cache else <[queryName := labels]> cache
       | Some _ => <[queryName := labels]> cache
       end.

Definition selectLogName (ast : SelectAst) : string :=
  match sa_Joins ast with
  | _ :: _ => EntityName (sa_Map ast) +:+ ".include"
  | [] => EntityName (sa_Map ast) +:+ ".criteria"
  end.

(** [renderAndRunSelect] up to the driver: the cache left, and the statement
    with its arguments. *)
Definition renderSelect (cache : label_cache) (ast : SelectAst) (queryName : string)
    : label_cache * result (string * list NamedArg) :=
  let labels := criteriaLabels cache queryName in
  let '(b, sqlText) := SelectSQL dialect (bind_criteria queryName) ast (mkBinding [] labels) in
  let cache :=
    if decide (length labels < length (cb_labels b))
    then keepCriteriaLabels cache queryName (cb_labels b) else cache in
  (cache, let* text := sqlText in Ok (text, cb_bound b)).

End Session.
