(* ===== verification/RenderLaws.v ===== *)
(** What a rendered criteria query binds: its placeholders are exactly the
    arguments the session binds, each once, on every dialect; the label cache
    changes nothing.  Proved against what a dialect promises the renderer
    ([CriteriaLaws]). *)
From S2P Require Import Prelude GoStrings Values Core Placeholders Params Dialect DialectLaws.
From S2P Require Import GeneratedSql Query Render.
From S2P Require Sqlite Postgres SqlServer.

(** * What a dialect promises the renderer *)

(** A paging argument: absent, or the placeholder of a name. *)
Definition page_arg (t : string) (ns : list string) : Prop :=
  (t = "" /\ ns = []) \/ exists n, good_name (bytes n) /\ t = at_name n /\ ns = [n].

(** Text whose placeholders are [ns] in some order. *)
Definition phrase_of (t : string) (ns : list string) : Prop :=
  exists ns', ns' ≡ₚ ns /\ phrase t ns'.

Class CriteriaLaws (d : Dialect) : Prop := {
  quoted_silent n : good_name (bytes n) -> silent (QuoteIdentifier d n) = true;
  paging_phrase l o lns ons :
    page_arg l lns -> page_arg o ons -> phrase_of (LimitOffsetClause d l o) (lns ++ ons) }.

Lemma at_name_nonempty n : at_name n <> "".
Proof. done. Qed.

(** The clause [open l mid o close] of two placeholders. *)
Lemma phrase_two a x b y c :
  silent a = true -> silent b = true -> silent c = true ->
  good_name (bytes x) -> good_name (bytes y) ->
  b <> "" -> opens_plain (bytes b) -> opens_plain (bytes c) ->
  phrase (a +:+ at_name x +:+ b +:+ at_name y +:+ c) [x; y].
Proof.
  intros Ha Hb Hc Hx Hy Hbn Hbo Hco. apply phrase_before; [done|].
  change [x; y] with ([x] ++ [y])%list. apply phrase_app.
  - by apply phrase_at.
  - apply phrase_before; [done|]. destruct (decide (c = "")) as [->|Hne].
    + rewrite app_empty_r. by apply phrase_at.
    + apply phrase_then; [by apply phrase_at|done..].
  - by destruct b.
  - by destruct b.
Qed.

Lemma phrase_one a x c :
  silent a = true -> silent c = true -> good_name (bytes x) -> opens_plain (bytes c) ->
  phrase (a +:+ at_name x +:+ c) [x].
Proof.
  intros Ha Hc Hx Hco. apply phrase_before; [done|]. destruct (decide (c = "")) as [->|Hne].
  - rewrite app_empty_r. by apply phrase_at.
  - apply phrase_then; [by apply phrase_at|done..].
Qed.

Ltac page_cases :=
  intros l o lns ons [[-> ->]|(x & Hx & -> & ->)] [[-> ->]|(y & Hy & -> & ->)].

Lemma limit_then_offset (offset_alone : string) clause :
  (forall t ns, phrase t ns -> phrase (offset_alone +:+ t) ns) ->
  (forall l o, clause l o =
    if bool_decide (l <> "") && bool_decide (o <> "") then "limit " +:+ l +:+ " offset " +:+ o
    else if bool_decide (l <> "") then "limit " +:+ l
    else if bool_decide (o <> "") then offset_alone +:+ o else "") ->
  forall l o lns ons, page_arg l lns -> page_arg o ons -> phrase_of (clause l o) (lns ++ ons).
Proof.
  intros Hs Hc. page_cases; rewrite Hc; eexists; (split; [reflexivity|]); simpl.
  - apply phrase_empty.
  - by apply Hs, phrase_at.
  - apply (phrase_before "limit "); [done|by apply phrase_at].
  - pose proof (phrase_two "limit " x " offset " y "") as H. rewrite app_empty_r in H.
    apply H; plain.
Qed.

#[export] Instance sqlite_criteria : CriteriaLaws Sqlite.dialect.
Proof.
  split; [exact good_name_silent|].
  intros l o lns ons. apply (limit_then_offset "limit -1 offset "); [|done].
  intros t ns [Hu Hn]. split.
  - by apply (unmasked_app "limit -1 offset ").
  - intros k Hk. rewrite bytes_app, <- app_assoc. unfold scan_names at 1.
    rewrite scan_no_at by by repeat constructor. by apply Hn.
Qed.

#[export] Instance postgres_criteria : CriteriaLaws Postgres.dialect.
Proof.
  split; [exact postgres_silent|].
  intros l o lns ons. apply (limit_then_offset "offset "); [|done].
  intros t ns. by apply phrase_before.
Qed.

#[export] Instance sqlserver_criteria : CriteriaLaws SqlServer.dialect.
Proof.
  split; [exact sqlserver_silent|]. page_cases; cbn [LimitOffsetClause SqlServer.dialect].
  - exists []. split; [done|apply phrase_empty].
  - exists [y]. split; [done|]. apply (phrase_one "offset " y " rows"); plain.
  - exists [x]. split; [done|].
    apply (phrase_one "offset 0 rows fetch next " x " rows only"); plain.
  - exists [y; x]. split; [apply Permutation_swap|].
    apply (phrase_two "offset " y " rows fetch next " x " rows only"); plain.
Qed.

(** * Clean queries

    The names and operators a query spells contain no placeholder, literal or
    comment: mapped names are identifiers, aliases too. *)

Record clean_join (j : SelectJoin) : Prop := {
  cj_target : ident_map (sj_Target j);
  cj_alias : good_name (bytes (sj_Alias j)) }.

Inductive clean : Criteria -> Prop :=
  | clean_comparison p op v : silent op = true -> clean (Comparison p op v)
  | clean_in p vs : clean (InList p vs)
  | clean_null p n : clean (NullCheck p n)
  | clean_composite op cs : silent op = true -> Forall clean cs -> clean (Composite op cs)
  | clean_negation c : clean c -> clean (Negation c)
  | clean_member ps ast : clean_select ast -> clean (SubqueryMembership ps ast)
  | clean_nil : clean NilCriteria
with clean_select : SelectAst -> Prop :=
  | clean_ast m w o l f p j :
      ident_map m -> Forall clean w -> ident_properties (default [] p) ->
      Forall clean_join j -> clean_select (mkSelect m w o l f p j).

(** ** Silent pieces *)

Lemma phrase_end ns : phrase "" ns -> ns = [].
Proof.
  intros [_ H]. specialize (H [] (Forall_nil_2 _)). simpl in H. rewrite app_nil_r in H.
  by destruct ns.
Qed.

(** A phrase goes on with any phrase that opens with a non-name byte, or with nothing. *)
Lemma phrase_more s ns t ms :
  phrase s ns -> phrase t ms -> opens_plain (bytes t) -> phrase (s +:+ t) (ns ++ ms).
Proof.
  intros Hs Ht Ho. destruct (decide (t = "")) as [->|Hne].
  - apply phrase_end in Ht as ->. by rewrite app_empty_r, app_nil_r.
  - by apply phrase_app.
Qed.

Lemma phrase_close s ns t :
  phrase s ns -> silent t = true -> opens_plain (bytes t) -> phrase (s +:+ t) ns.
Proof.
  intros Hs Ht Ho. rewrite <- (app_nil_r ns). apply phrase_more; [done|by apply phrase_silent|done].
Qed.

Lemma good_name_join a b :
  good_name (bytes a) -> good_name (bytes b) -> good_name (bytes (a +:+ "_" +:+ b)).
Proof.
  intros [(c & k & Hk & Hc) Ha] [_ Hb]. rewrite !bytes_app. split.
  - rewrite Hk. by eexists _, _.
  - apply Forall_app. split; [done|]. apply Forall_app. split; [by repeat constructor|done].
Qed.

Lemma good_t : good_name (bytes "t").
Proof. split; [by eexists _, _|by repeat constructor]. Qed.

Lemma Resolve_mapped m property q p : Resolve m property q = Ok p -> p ∈ Properties m.
Proof.
  unfold Resolve. destruct (List.find _ (Properties m)) as [x|] eqn:Ef.
  - intros [= <-]. apply List.find_some in Ef as [Hin _]. by apply list_elem_of_In.
  - destruct (List.filter _ _) as [|x [|]] eqn:Efl; try done. intros [= <-].
    assert (Hin : In x [x]) by (by left). rewrite <- Efl in Hin.
    apply List.filter_In in Hin as [Hin _]. by apply list_elem_of_In.
Qed.

Lemma silent_map_join {A} (f : A -> string) l sep :
  (forall x, x ∈ l -> silent (f x) = true) -> silent sep = true -> silent (Join (f <$> l) sep) = true.
Proof.
  intros Hf Hs. apply silent_join; [|done]. apply Forall_fmap, Forall_forall. exact Hf.
Qed.

Section Silent.
Context (d : Dialect) `{!CriteriaLaws d}.

Lemma silent_column alias p m :
  ident_map m -> p ∈ Properties m -> silent alias = true ->
  silent (aliasQualifiedColumn d alias (ColumnName p)) = true.
Proof.
  intros Hm Hp Ha. unfold aliasQualifiedColumn.
  assert (Hq : silent (QuoteIdentifier d (ColumnName p)) = true).
  { apply quoted_silent. pose proof (im_columns m Hm) as H. rewrite Forall_forall in H. by apply H. }
  destruct (decide (alias = "")); [done|]. by rewrite !silent_app, Ha, Hq.
Qed.

Lemma silent_resolved_column m property q alias col :
  ident_map m -> silent alias = true -> column d m property q alias = Ok col -> silent col = true.
Proof.
  intros Hm Ha H. apply bind_Ok in H as (p & Hp & [= <-]).
  by apply (silent_column _ _ m), Ha; [|eapply Resolve_mapped].
Qed.

Lemma ident_mapped m p : ident_map m -> p ∈ Properties m -> good_name (bytes (ColumnName p)).
Proof. intros Hm Hp. pose proof (im_columns m Hm) as H. rewrite Forall_forall in H. by apply H. Qed.

Lemma silent_root_alias w j : silent (rootAlias d w j) = true.
Proof. unfold rootAlias. by destruct (needsRootAlias d w j). Qed.

Lemma silent_order m q alias os t :
  ident_map m -> silent alias = true -> order_by d m q alias os = Ok t ->
  silent t = true /\ opens_plain (bytes t).
Proof.
  intros Hm Ha. unfold order_by. destruct os as [|o os]; [intros [= <-]; split; plain|].
  intros (parts & Hp & H)%bind_Ok. apply Ok_inj in H as <-. split; [|by repeat constructor].
  rewrite silent_app. apply silent_join; [|done]. apply mapR_Ok in Hp.
  apply Forall_forall. intros s Hs. apply list_elem_of_lookup in Hs as [i Hi].
  destruct (Forall2_lookup_r _ _ _ _ _ Hp Hi) as (o' & _ & Ho).
  apply bind_Ok in Ho as (p & Hr & H). apply Ok_inj in H as <-. rewrite silent_app.
  rewrite (silent_column _ _ m) by eauto using Resolve_mapped. by destruct (or_Order o').
Qed.

Lemma ident_relation m : ident_map m -> silent (QuoteIdentifier d (RelationName m)) = true.
Proof. intros Hm. by apply quoted_silent, im_relation. Qed.

Lemma aliasMaps_clean l (acc : gmap string EntityMap) :
  Forall clean_join l ->
  (forall a x, acc !! a = Some x -> good_name (bytes a) /\ ident_map x) ->
  forall a x, fold_left (fun maps j => <[sj_Alias j := sj_Target j]> maps) l acc !! a = Some x ->
  good_name (bytes a) /\ ident_map x.
Proof.
  revert acc. induction l as [|j l IH]; intros acc Hl Hacc; [exact Hacc|].
  apply Forall_cons in Hl as [[Ht Ha] Hl]. simpl. apply IH; [done|].
  intros a x. rewrite lookup_insert_Some. intros [[<- <-]|[_ H]]; [done|by eapply Hacc].
Qed.

Lemma silent_join_clause root joins q j t :
  ident_map root -> Forall clean_join joins -> j ∈ joins ->
  join_clause d root joins q j = Ok t -> silent t = true.
Proof.
  intros Hroot Hall Hj H. pose proof Hall as Hj'. rewrite Forall_forall in Hj'.
  destruct (Hj' j Hj) as [Ht Ha]. unfold join_clause in H.
  apply bind_Ok in H as ([pa pm] & Hparent & H). apply bind_Ok in H as (pairs & Hpairs & H). apply Ok_inj in H as <-.
  assert (Hpa : silent pa = true /\ ident_map pm).
  { unfold join_parent in Hparent. case_decide as E; [by injection Hparent as <- <-|].
    destruct (aliasMaps joins !! sj_ParentAlias j) as [m|] eqn:Em; [|done].
    injection Hparent as <- <-. unfold aliasMaps in Em.
    destruct (aliasMaps_clean joins ∅ Hall) with (a := sj_ParentAlias j) (x := m) as [H1 H2];
      [by intros ??; rewrite lookup_empty|done|]. split; [by apply good_name_silent|done]. }
  destruct Hpa as [Hpa Hpm].
  rewrite !silent_app, ident_relation, (good_name_silent (sj_Alias j)) by done. simpl.
  apply silent_join; [|done]. apply mapR_Ok in Hpairs. apply Forall_forall. intros s Hs.
  apply list_elem_of_lookup in Hs as [i Hi].
  destruct (Forall2_lookup_r _ _ _ _ _ Hpairs Hi) as (pair & _ & Hp).
  apply bind_Ok in Hp as (pp & Hpp & Hp). apply bind_Ok in Hp as (tp & Htp & H). apply Ok_inj in H as <-.
  apply Resolve_mapped in Hpp, Htp.
  by rewrite !silent_app, Hpa, !quoted_silent, (good_name_silent (sj_Alias j))
    by eauto using ident_mapped.
Qed.

Lemma silent_select_from m alias projection joins clauses :
  ident_map m -> ident_properties (default [] projection) -> Forall clean_join joins ->
  alias = "" \/ alias = "t" -> Forall (fun c => silent c = true) clauses ->
  (alias = "" -> joins = []) ->
  silent (select_from d m alias projection joins clauses) = true.
Proof.
  intros Hm Hp Hj Halias Hc Hno. unfold select_from.
  assert (Hsa : silent alias = true) by by destruct Halias as [-> | ->].
  assert (Hps : ident_properties (projected m projection)).
  { destruct projection; [done|]. apply (im_columns m Hm). }
  rewrite !silent_app, ident_relation by done. simpl.
  assert (Hcols : silent (Join (select_columns d alias (projected m projection) joins) ", ") = true).
  { apply silent_join; [|done]. apply Forall_app. split.
    - apply Forall_fmap, Forall_forall. intros p Hin. unfold compose, root_column.
      rewrite silent_app. unfold ident_properties in Hps. rewrite Forall_forall in Hps.
      apply Hps in Hin. apply andb_true_iff. split.
      + unfold aliasQualifiedColumn. destruct (decide (alias = "")); [by apply quoted_silent|].
        by rewrite !silent_app, Hsa, quoted_silent.
      + case_bool_decide as Hjn; [|done]. destruct Halias as [-> | ->]; [by specialize (Hno eq_refl)|].
        rewrite silent_app, quoted_silent; [done|]. by apply (good_name_join "t"); [apply good_t|].
    - apply Forall_concat, Forall_fmap, Forall_forall. intros j Hin. unfold compose, join_columns.
      rewrite Forall_forall in Hj. destruct (Hj j Hin) as [Ht Ha].
      destruct (sj_Project j); [|constructor]. apply Forall_fmap, Forall_forall.
      intros p Hpin. unfold compose, join_column. apply (ident_mapped _ _ Ht) in Hpin.
      by rewrite !silent_app, !quoted_silent, (good_name_silent (sj_Alias j)) by (done || by apply good_name_join). }
  rewrite Hcols. simpl. apply andb_true_iff. split; [by destruct Halias as [-> | ->]|].
  apply silent_join; [|done]. apply Forall_fmap. eapply Forall_impl; [exact Hc|].
  intros c Hcs. exact Hcs.
Qed.

End Silent.

(** * What a computation binds *)

(** [b'] extends [b] by arguments with the next names, [names]. *)
Definition extends (b b' : criteria_binding) (names : list string) : Prop :=
  exists args, cb_bound b' = cb_bound b ++ args /\ names = arg_Name <$> args /\
    names = criteriaName <$> seq (length (cb_bound b)) (length args).

Lemma binding_extends_refl b : extends b b [].
Proof. exists []. by rewrite app_nil_r. Qed.

Lemma binding_extends_trans b1 b2 b3 n1 n2 :
  extends b1 b2 n1 -> extends b2 b3 n2 -> extends b1 b3 (n1 ++ n2).
Proof.
  intros (a1 & H1 & -> & N1) (a2 & H2 & -> & N2). exists (a1 ++ a2).
  rewrite H2, H1, fmap_app. split; [by rewrite app_assoc|]. split; [done|].
  rewrite length_app, seq_app, fmap_app, <- N1. f_equal. rewrite N2. by rewrite H1, length_app.
Qed.

(** [draws m F]: when [m] returns [a], it has bound the next names, and [F a]
    holds of them in some order. *)
Definition draws {A} (m : SM criteria_binding A) (F : A -> list string -> Prop) : Prop :=
  forall b b' a, m b = (b', Ok a) ->
    exists ns names, extends b b' names /\ ns ≡ₚ names /\ F a ns.

Lemma draws_lift {A} (r : result A) (F : A -> list string -> Prop) :
  (forall a, r = Ok a -> F a []) -> draws (slift r) F.
Proof.
  intros H b b' a [= <- ->]. exists [], []. split; [apply binding_extends_refl|]. auto.
Qed.

Lemma draws_ret {A} (a : A) (F : A -> list string -> Prop) : F a [] -> draws (sret a) F.
Proof. intros H. apply (draws_lift (Ok a)). by intros a' [= <-]. Qed.

Lemma draws_throw {A} e (F : A -> list string -> Prop) : draws (sthrow e) F.
Proof. by intros b b' a [= ]. Qed.

Lemma draws_bind {A B} (m : SM criteria_binding A) (k : A -> SM criteria_binding B) F G :
  draws m F -> (forall a ns1, F a ns1 -> draws (k a) (fun c ns2 => G c (ns1 ++ ns2))) ->
  draws (sbind m k) G.
Proof.
  intros Hm Hk b b' c H. apply sbind_Ok in H as (b1 & a & H1 & H2).
  destruct (Hm _ _ _ H1) as (ns1 & n1 & E1 & P1 & F1).
  destruct (Hk a ns1 F1 _ _ _ H2) as (ns2 & n2 & E2 & P2 & G2).
  exists (ns1 ++ ns2), (n1 ++ n2). split; [by eapply binding_extends_trans|].
  split; [by rewrite P1, P2|done].
Qed.

(** Nothing bound before: the common first step. *)
Lemma draws_lift_bind {A B} (r : result A) (k : A -> SM criteria_binding B) G :
  (forall a, r = Ok a -> draws (k a) G) -> draws (sbind (slift r) k) G.
Proof.
  intros H. apply (draws_bind _ _ (fun a ns => r = Ok a /\ ns = [])).
  - by apply draws_lift.
  - intros a ns [Ha ->]. by apply H.
Qed.

Lemma draws_reorder {A} (m : SM criteria_binding A) (F : A -> list string -> Prop) :
  draws m (fun a ns => exists ns', ns' ≡ₚ ns /\ F a ns') -> draws m F.
Proof.
  intros H b b' a Hm. destruct (H _ _ _ Hm) as (ns & names & E & P & ns' & P' & HF).
  exists ns', names. split; [done|]. split; [by rewrite P'|done].
Qed.

Lemma draws_weaken {A} (m : SM criteria_binding A) (F G : A -> list string -> Prop) :
  (forall a ns, F a ns -> G a ns) -> draws m F -> draws m G.
Proof. intros H Hm b b' a E. destruct (Hm _ _ _ E) as (ns & names & ? & ? & ?). eauto 6. Qed.

Lemma draws_mapS {X A} (f : X -> SM criteria_binding A) l F :
  Forall (fun x => draws (f x) F) l ->
  draws (mapS f l) (fun ts ns => exists nss, ns = concat nss /\ Forall2 F ts nss).
Proof.
  induction 1 as [|x l Hx Hl IH].
  - apply draws_ret. by exists [].
  - eapply draws_bind; [exact Hx|]. intros t ns1 Ht.
    eapply draws_bind; [exact IH|]. intros ts ns2 (nss & -> & Hts).
    apply draws_ret. exists (ns1 :: nss). rewrite app_nil_r. split; [done|by constructor].
Qed.

(** ** The session's bind *)

Lemma criteriaName_good i : good_name (bytes (criteriaName i)).
Proof.
  unfold criteriaName. rewrite bytes_app. split; [by eexists _, _|].
  apply Forall_app. split; [by repeat constructor|].
  eapply Forall_impl; [apply Itoa_digits; lia|]. intros c Hc. unfold name_char.
  by rewrite Hc, orb_true_r.
Qed.

Lemma draws_bind_criteria TD q v p :
  draws (bind_criteria TD q v p) (fun t ns => exists n, good_name (bytes n) /\ t = at_name n /\ ns = [n]).
Proof.
  intros b b' t H. unfold bind_criteria in H. cbv zeta in H.
  destruct (_ !! _) as [label|]; [|done].
  destruct (ToParameter _ _ _ _) as [bv|]; [|done]. injection H as <- <-.
  set (n := criteriaName (length (cb_bound b))). exists [n], [n]. split.
  - by exists [mkNamedArg n bv].
  - split; [done|]. exists n. split; [apply criteriaName_good|done].
Qed.

(** ** The renderer *)

Section Draws.
Context (d : Dialect) `{!CriteriaLaws d}.
Context (TD : Value -> option ColumnType -> string -> result Value) (q : string).

Abbreviation bind := (bind_criteria TD q).

Lemma draws_bind_opt l : draws (bind_opt bind l) page_arg.
Proof.
  destruct l as [n|]; simpl.
  - eapply draws_weaken; [|apply draws_bind_criteria]. intros t ns H. by right.
  - apply draws_ret. by left.
Qed.

Definition opening (t : string) (ns : list string) : Prop := phrase t ns /\ opens_plain (bytes t).

Lemma draws_paging os l o : draws (paging d bind os l o) opening.
Proof.
  assert (H : draws (do! limitParameter <- bind_opt bind l in
      do! offsetParameter <- bind_opt bind o in
      let clause := LimitOffsetClause d limitParameter offsetParameter in
      sret ((if bool_decide (os = []) && PagingRequiresOrderBy d
             then " order by (select null)" else "") +:+
            (if decide (clause = "") then "" else " " +:+ clause))) opening).
  { apply draws_reorder. eapply draws_bind; [apply draws_bind_opt|]. intros lp ns1 Hl.
    eapply draws_bind; [apply draws_bind_opt|]. intros op ns2 Ho. apply draws_ret.
    rewrite app_nil_r. destruct (paging_phrase lp op ns1 ns2 Hl Ho) as (ns' & Hp & Hph).
    exists ns'. split; [done|]. set (clause := LimitOffsetClause d lp op) in *.
    assert (Hc : opening (if decide (clause = "") then "" else " " +:+ clause) ns').
    { destruct (decide (clause = "")) as [E|E].
      - rewrite E in Hph. apply phrase_end in Hph as ->. split; [apply phrase_empty|plain].
      - split; [by apply phrase_before|plain]. }
    destruct (bool_decide (os = []) && PagingRequiresOrderBy d); [|done].
    destruct Hc. split; [by apply phrase_before|plain]. }
  destruct l, o; try exact H. apply draws_ret. split; [apply phrase_empty|plain].
Qed.

Lemma draws_column_word m property qn alias (k : string -> SM criteria_binding string) F :
  ident_map m -> silent alias = true ->
  (forall col, silent col = true -> draws (k col) F) ->
  draws (do! col <- slift (column d m property qn alias) in k col) F.
Proof.
  intros Hm Ha H. apply draws_lift_bind. intros col Hcol.
  by eapply H, silent_resolved_column.
Qed.

Lemma phrase_parts ts nss op :
  Forall2 phrase ts nss -> silent op = true ->
  phrase ("(" +:+ Join ts (" " +:+ op +:+ " ") +:+ ")") (concat nss).
Proof.
  intros Hts Hop. apply (phrase_before "("); [done|]. apply phrase_close; [|plain..].
  apply phrase_join; [done| |done|plain]. by rewrite !silent_app, Hop.
Qed.

Lemma silent_correlations alias selected ps :
  silent alias = true -> ident_properties selected ->
  ident_properties ps ->
  silent (Join (zip_with (correlation d alias) selected ps) " and ") = true.
Proof.
  intros Ha Hs Hp. apply silent_join; [|done]. apply Forall_forall. intros s Hin.
  apply list_elem_of_lookup in Hin as [i Hi].
  apply lookup_zip_with_Some in Hi as (x & y & -> & Hx%list_elem_of_lookup_2 & Hy%list_elem_of_lookup_2).
  unfold ident_properties in Hs, Hp. rewrite Forall_forall in Hs, Hp. unfold correlation.
  by rewrite !silent_app, Ha, !quoted_silent by auto.
Qed.

Lemma membership_phrase qn alias ps ast text t ns :
  silent alias = true -> ident_properties ps ->
  ident_properties (projected (sa_Map ast) (sa_Projection ast)) ->
  phrase text ns -> membership_text d qn alias ps ast text = Ok t -> phrase t ns.
Proof.
  intros Ha Hps Hproj Hns H.
  assert (Hcols : Forall (fun s => silent s = true)
                    ((fun p => aliasQualifiedColumn d alias (ColumnName p)) <$> ps)).
  { apply Forall_fmap. eapply Forall_impl; [exact Hps|]. intros p Hp. unfold compose, aliasQualifiedColumn.
    destruct (decide (alias = "")); [by apply quoted_silent|]. by rewrite !silent_app, Ha, quoted_silent. }
  assert (Hclose : forall a, silent a = true -> phrase (a +:+ text +:+ ")") ns).
  { intros a Hsa. apply phrase_before; [done|]. by apply phrase_close; [|plain..]. }
  unfold membership_text in H. set (cols := _ <$> ps) in *.
  set (row := if SupportsRowValueIn d then _ else _) in H.
  assert (Hrow : row = Ok t -> phrase t ns).
  { clear H. intros H. subst row. destruct (SupportsRowValueIn d).
    - apply Ok_inj in H as <-. apply (phrase_before "("); [done|].
      apply phrase_before; [by apply silent_join|]. by apply (Hclose ") in (").
    - cbv zeta in H. case_decide; [|done]. apply Ok_inj in H as <-.
      apply (phrase_before "exists (select 1 from ("); [done|].
      apply phrase_close; [done| |plain]. rewrite !silent_app, silent_correlations; try done.
      by destruct (decide (alias = "")). }
  destruct cols as [|col [|? ?]]; [by apply Hrow| |by apply Hrow].
  apply Ok_inj in H as <-. apply Forall_cons in Hcols as [Hc _].
  apply phrase_before; [done|]. by apply (Hclose " in (").
Qed.

Lemma mapR_resolved m qn names ps :
  ident_map m -> mapR (fun name => Resolve m name qn) names = Ok ps -> ident_properties ps.
Proof.
  intros Hm Hp%mapR_Ok. apply Forall_forall. intros p Hin.
  apply list_elem_of_lookup in Hin as [i Hi].
  destruct (Forall2_lookup_r _ _ _ _ _ Hp Hi) as (name & _ & Hr).
  by eapply ident_mapped, Resolve_mapped.
Qed.

Lemma draws_render :
  (forall c, clean c -> forall m qn alias, ident_map m -> silent alias = true ->
     draws (renderCriteria d bind c m qn alias) phrase) /\
  (forall ast, clean_select ast -> forall os, draws (render_select d bind os ast) phrase).
Proof.
  apply (Criteria_SelectAst_ind
    (fun c => clean c -> forall m qn alias, ident_map m -> silent alias = true ->
       draws (renderCriteria d bind c m qn alias) phrase)
    (fun ast => clean_select ast -> forall os, draws (render_select d bind os ast) phrase)).
  - intros p op [v|] Hc m qn alias Hm Ha; inversion Hc; subst; cbn [renderCriteria].
    + apply draws_lift_bind. intros pm Hpm. apply draws_column_word; [done..|]. intros col Hcol.
      eapply draws_bind; [apply draws_bind_criteria|]. intros t ns (n & Hn & -> & ->).
      apply draws_ret. apply phrase_before; [done|]. apply (phrase_before " "); [done|].
      apply phrase_before; [done|]. apply (phrase_before " "); [done|]. by apply phrase_at.
    + apply draws_column_word; [done..|]. intros col Hcol. apply draws_lift. intros t Ht.
      repeat case_decide; try done; apply Ok_inj in Ht as <-; apply phrase_silent;
        by rewrite silent_app, Hcol.
  - intros p vs _ m qn alias Hm Ha. cbn [renderCriteria]. destruct vs as [|v vs].
    { apply draws_lift_bind. intros pm _. apply draws_ret. by apply phrase_silent. }
    destruct (existsb _ _); [apply draws_throw|].
    apply draws_lift_bind. intros pm Hpm. apply draws_column_word; [done..|]. intros col Hcol.
    eapply draws_bind.
    { apply draws_mapS. apply Forall_forall. intros x _. apply draws_bind_criteria. }
    intros ts ns (nss & -> & Hts). apply draws_ret. rewrite app_nil_r.
    apply phrase_before; [done|]. apply (phrase_before " in ("); [done|].
    apply phrase_close; [|plain..]. apply phrase_join; [|plain..].
    eapply Forall2_impl; [exact Hts|]. intros t ns (n & Hn & -> & ->). by apply phrase_at.
  - intros p n _ m qn alias Hm Ha. cbn [renderCriteria]. apply draws_column_word; [done..|].
    intros col Hcol. apply draws_ret. apply phrase_silent. by destruct n; rewrite silent_app, Hcol.
  - intros op cs IH Hc m qn alias Hm Ha. inversion Hc as [| | |? ? Hop Hcs| | |]; subst.
    destruct cs as [|c cs]; cbn [renderCriteria].
    { apply draws_ret. apply phrase_silent. by destruct (decide (op = "and")). }
    eapply draws_bind.
    { apply draws_mapS. apply Forall_forall. intros x Hx. rewrite Forall_forall in IH, Hcs. by apply IH, Ha; auto. }
    intros ts ns (nss & -> & Hts). apply draws_ret. rewrite app_nil_r. by apply phrase_parts.
  - intros c IH Hc m qn alias Hm Ha. inversion Hc; subst. cbn [renderCriteria].
    eapply draws_bind; [by apply IH|]. intros t ns Ht. apply draws_ret. rewrite app_nil_r.
    by apply (phrase_before "not ").
  - intros names ast IH Hc m qn alias Hm Ha. inversion Hc as [| | | | |? ? Hast|]; subst.
    cbn [renderCriteria]. apply draws_lift_bind. intros ps Hps.
    eapply draws_bind; [by apply IH|]. intros text ns Htext. apply draws_lift. intros t Ht.
    rewrite app_nil_r. eapply membership_phrase; [..|exact Ht]; [done|by eapply mapR_resolved| |done].
    inversion Hast; subst. cbn [sa_Map sa_Projection]. destruct p; [done|]. by apply im_columns.
  - intros _ m qn alias _ _. apply draws_throw.
  - intros m w o l f p j IH Hc os. inversion Hc as [? ? ? ? ? ? ? Hm Hw Hp Hj]; subst.
    cbn [render_select]. destruct (negative l || negative f); [apply draws_throw|].
    apply draws_lift_bind. intros clauses Hcl. set (alias := rootAlias d w j).
    assert (Hsa : silent alias = true) by apply silent_root_alias.
    eapply (draws_bind _ _ opening).
    { rewrite Forall_forall in IH, Hw. destruct w as [|c [|c2 w]].
      - apply draws_ret. split; [apply phrase_empty|plain].
      - eapply draws_bind; [apply IH; try done; [by left|apply Hw; by left]|]. intros t ns Ht.
        apply draws_ret. rewrite app_nil_r. split; [by apply (phrase_before " where ")|plain].
      - eapply draws_bind.
        { apply draws_mapS. apply Forall_forall. intros x Hx. apply IH; auto. }
        intros ts ns (nss & -> & Hts). apply draws_ret. rewrite app_nil_r. split; [|plain].
        apply (phrase_before " where "); [done|]. by apply (phrase_parts ts nss "and"). }
    intros wt ns1 [Hwt Hwo]. apply draws_lift_bind. intros order Hord.
    apply (silent_order d) in Hord as [Ho1 Ho2]; [|done..].
    eapply draws_bind; [apply draws_paging|]. intros page ns2 [Hpt Hpo]. apply draws_ret.
    rewrite app_nil_r. apply phrase_before.
    + apply silent_select_from; try done.
      * subst alias. unfold rootAlias. destruct (needsRootAlias d w j); auto.
      * unfold renderJoins in Hcl. apply mapR_Ok in Hcl. apply Forall_forall. intros s Hs.
        apply list_elem_of_lookup in Hs as [i Hi].
        destruct (Forall2_lookup_r _ _ _ _ _ Hcl Hi) as (x & Hx%list_elem_of_lookup_2 & Hjc).
        by eapply silent_join_clause.
      * intros Hal. destruct j; [done|]. exfalso. revert Hal. subst alias. unfold rootAlias, needsRootAlias.
        by rewrite bool_decide_true.
    + apply phrase_more; [done| |by destruct order].
      by apply phrase_before.
Qed.

End Draws.

(** * Renderings that differ only in what they carry along *)

(** Two computations take related states to related states and agree on the
    result. *)
Definition sim {S T A} (R : S -> T -> Prop) (m : SM S A) (n : SM T A) : Prop :=
  forall s t, R s t -> R (m s).1 (n t).1 /\ (m s).2 = (n t).2.

Lemma sim_lift {S T A} (R : S -> T -> Prop) (r : result A) : sim R (slift r) (slift r).
Proof. by intros s t H. Qed.

Lemma sim_ret {S T A} (R : S -> T -> Prop) (a : A) : sim R (sret a) (sret a).
Proof. by intros s t H. Qed.

Lemma sim_throw {S T A} (R : S -> T -> Prop) e : sim R (sthrow (A := A) e) (sthrow e).
Proof. by intros s t H. Qed.

Lemma sim_bind {S T A B} (R : S -> T -> Prop) (m : SM S A) (n : SM T A)
    (k : A -> SM S B) (l : A -> SM T B) :
  sim R m n -> (forall a, sim R (k a) (l a)) -> sim R (sbind m k) (sbind n l).
Proof.
  intros Hm Hk s t Hst. unfold sbind. destruct (Hm s t Hst) as [H1 H2].
  destruct (m s) as [s1 [a|e]], (n t) as [t1 [b|e']]; simpl in *; try done;
    injection H2 as <-; [by apply Hk|done].
Qed.

Lemma sim_mapS {S T X A} (R : S -> T -> Prop) (f : X -> SM S A) (g : X -> SM T A) l :
  Forall (fun x => sim R (f x) (g x)) l -> sim R (mapS f l) (mapS g l).
Proof.
  induction 1; [apply sim_ret|]. apply sim_bind; [done|]. intros a.
  apply sim_bind; [done|]. intros b. apply sim_ret.
Qed.

Create HintDb sim discriminated.
#[export] Hint Resolve sim_lift sim_ret sim_throw : sim.
Ltac sim_steps :=
  repeat first
    [ solve [eauto with sim]
    | lazymatch goal with |- sim _ (sbind _ _) (sbind _ _) => apply sim_bind; [|intros ?] end ].

Section Sim.
Context (d : Dialect) {S T : Type} (R : S -> T -> Prop).
Context (bind1 : Value -> option PropertyMap -> SM S string).
Context (bind2 : Value -> option PropertyMap -> SM T string).
Hypothesis Hbind : forall v p, sim R (bind1 v p) (bind2 v p).

Lemma sim_bind_opt l : sim R (bind_opt bind1 l) (bind_opt bind2 l).
Proof. destruct l; simpl; [apply Hbind|apply sim_ret]. Qed.

Lemma sim_paging os l o : sim R (paging d bind1 os l o) (paging d bind2 os l o).
Proof. destruct l, o; simpl; sim_steps; apply sim_bind_opt || apply Hbind. Qed.

Lemma sim_render :
  (forall c m qn alias, sim R (renderCriteria d bind1 c m qn alias) (renderCriteria d bind2 c m qn alias)) /\
  (forall ast os, sim R (render_select d bind1 os ast) (render_select d bind2 os ast)).
Proof.
  apply (Criteria_SelectAst_ind
    (fun c => forall m qn alias, sim R (renderCriteria d bind1 c m qn alias) (renderCriteria d bind2 c m qn alias))
    (fun ast => forall os, sim R (render_select d bind1 os ast) (render_select d bind2 os ast)));
    intros; cbn [renderCriteria render_select]; try solve [sim_steps].
  - destruct v; sim_steps.
  - destruct vs; [sim_steps|]. destruct (existsb _ _); sim_steps.
    apply sim_mapS, Forall_forall. intros x _. apply Hbind.
  - destruct cs; sim_steps. apply sim_mapS. eapply Forall_impl; [eassumption|]. auto.
  - destruct (_ || _); sim_steps; [|apply sim_paging].
    destruct w as [|c [|c2 w]]; sim_steps.
    + inversion H; auto.
    + apply sim_mapS. eapply Forall_impl; [eassumption|]. auto.
Qed.

End Sim.

(** ** The label cache *)

Definition label (q : string) (i : nat) : string := q +:+ " @" +:+ criteriaName i.
Definition labels (q : string) (n : nat) : list string := label q <$> seq 0 n.

Lemma labels_S q n : labels q (S n) = labels q n ++ [label q n].
Proof. unfold labels. by rewrite seq_S, fmap_app. Qed.

Lemma labels_length q n : length (labels q n) = n.
Proof. unfold labels. by rewrite length_fmap, length_seq. Qed.

Lemma labels_lookup q n i : i < n -> labels q n !! i = Some (label q i).
Proof. intros H. unfold labels. by rewrite list_lookup_fmap, lookup_seq_lt. Qed.

Section Cache.
Context (d : Dialect) (TD : Value -> option ColumnType -> string -> result Value).

(** The rendering without a cache: each label is spelled when it is needed. *)
Definition plain_bind (q : string) (value : Value) (property : option PropertyMap)
    : SM (list NamedArg) string := fun bound =>
  match ToParameter TD value (ColumnType_ <$> property) (label q (length bound)) with
  | Fail e => (bound, Fail e)
  | Ok converted =>
      (bound ++ [mkNamedArg (criteriaName (length bound)) converted],
       Ok (criteriaPlaceholder (length bound)))
  end.

Definition plain_render (ast : SelectAst) (q : string) : result (string * list NamedArg) :=
  let '(bound, sqlText) := SelectSQL d (plain_bind q) ast [] in
  let* text := sqlText in Ok (text, bound).

(** Every label list the cache holds is the query name's own, from the start. *)
Definition cache_ok (cache : label_cache) : Prop :=
  forall q ls, cache !! q = Some ls -> exists n, ls = labels q n.

Definition carries (q : string) (b : criteria_binding) (bound : list NamedArg) : Prop :=
  cb_bound b = bound /\ exists n, cb_labels b = labels q n /\ length bound <= n.

Lemma bind_carries q v p : sim (carries q) (bind_criteria TD q v p) (plain_bind q v p).
Proof.
  intros b bound [<- (n & Hl & Hn)]. unfold bind_criteria, plain_bind. cbv zeta.
  set (i := length (cb_bound b)) in *.
  assert (Hlab : exists k, label_at q (cb_labels b) i = labels q k /\ i < k).
  { unfold label_at. rewrite Hl, labels_length. case_decide as E.
    - exists (S n). split; [by rewrite labels_S, E|lia].
    - exists n. split; [done|lia]. }
  destruct Hlab as (k & -> & Hk). rewrite labels_lookup by done.
  destruct (ToParameter _ _ _ _); simpl; (split; [|done]); (split; [done|]);
    exists k; (split; [done|]); rewrite ?length_app; simpl; lia.
Qed.

Lemma cache_ok_labels cache q : cache_ok cache -> exists n, criteriaLabels cache q = labels q n.
Proof.
  intros H. unfold criteriaLabels. destruct (cache !! q) as [ls|] eqn:E; simpl; [by apply H|by exists 0].
Qed.

Lemma keep_ok cache q n : cache_ok cache -> cache_ok (keepCriteriaLabels cache q (labels q n)).
Proof.
  intros H. assert (Hi : cache_ok (<[q := labels q n]> cache)).
  { intros q' ls [[<- <-]|[_ Hq]]%lookup_insert_Some; eauto. }
  unfold keepCriteriaLabels. case_decide; [done|]. destruct (cache !! q); [done|by case_decide].
Qed.

Lemma keep_size cache q ls :
  size cache <= maxLabelSets -> size (keepCriteriaLabels cache q ls) <= maxLabelSets.
Proof.
  intros H. unfold keepCriteriaLabels. case_decide; [done|].
  pose proof (map_size_insert q ls cache) as Hs.
  destruct (cache !! q) as [l|]; [|case_decide; [done|]]; simpl in Hs; unfold id in Hs;
    rewrite Hs; lia.
Qed.

End Cache.

(** * Theorems *)

(** C2. A rendered criteria query binds exactly what it says: on every dialect
    that keeps [CriteriaLaws] - all three do - the arguments are named [c0],
    [c1], ... in the order they are bound, and the text's placeholders are those
    names, each once: through nested composites, IN lists, subqueries, joins and
    the paging clause, whatever order the dialect writes it in. *)
Theorem rendered_select_binds_exactly (d : Dialect) `{!CriteriaLaws d} TD cache ast q cache' sql args :
  clean_select ast ->
  renderSelect d TD cache ast q = (cache', Ok (sql, args)) ->
  arg_Name <$> args = criteriaName <$> seq 0 (length args) /\
  names_in sql ≡ₚ arg_Name <$> args.
Proof.
  intros Hc H. unfold renderSelect in H.
  destruct (SelectSQL _ _ _ _) as [b sqlText] eqn:E. injection H as _ H.
  apply bind_Ok in H as (text & -> & H). injection H as <- <-.
  destruct (draws_render d TD q) as [_ Hd].
  destruct (Hd ast Hc (sa_Orderings ast) _ _ _ E) as (ns & names & (new & Hb & Hn & Hnames) & P & Hph).
  simpl in Hb, Hnames. rewrite Hb. subst names. split; [by rewrite Hnames|].
  by rewrite (phrase_names_in _ _ Hph).
Qed.

(** The cache of bind labels is invisible: from any cache whose lists are the
    labels of their names, a rendering gives the text, the arguments and the
    error the rendering without a cache gives (every conversion sees the same
    label), leaves such a cache, and never grows it past its bound. *)
Theorem label_cache_transparent (d : Dialect) TD cache ast q :
  cache_ok cache ->
  (renderSelect d TD cache ast q).2 = plain_render d TD ast q /\
  cache_ok (renderSelect d TD cache ast q).1 /\
  (size cache <= maxLabelSets -> size (renderSelect d TD cache ast q).1 <= maxLabelSets).
Proof.
  intros Hok. unfold renderSelect, plain_render.
  destruct (cache_ok_labels cache q Hok) as [n Hn].
  destruct (sim_render d (carries q) _ _ (bind_carries TD q)) as [_ Hs].
  destruct (Hs ast (sa_Orderings ast) (mkBinding [] (criteriaLabels cache q)) []) as [[H1 (k & Hk & _)] H2].
  { split; [done|]. exists n. split; [done|]. simpl. lia. }
  unfold SelectSQL. destruct (render_select _ _ _ _ (mkBinding _ _)) as [b r1].
  destruct (render_select _ _ _ _ []) as [bound r2]. simpl in *. subst r2 bound.
  split; [done|]. case_decide; [|done]. rewrite Hk. split; [by apply keep_ok|apply keep_size].
Qed.

(** ** A query that has everything *)

Definition echo_value (v : Value) (_ : option ColumnType) (_ : string) : result Value := Ok v.

Lemma sample_map_ident : ident_map sample_map.
Proof.
  split; [repeat constructor; by eexists _, _| |].
  - repeat constructor; by eexists _, _.
  - apply NewEntityMap_derived.
Qed.

(** Two compared columns, so SQL Server's EXISTS, under a paged, joined root. *)
Definition sample_select : SelectAst :=
  mkSelect sample_map
    [Or [Eq "Name" (Some (VString "Ada")); Not (In_ "name" [Some (VInt KInt64 1); Some (VInt KInt64 2)])];
     InSelect ["ID"; "Name"]
       (mkSelect sample_map [Ne "Name" None] [mkOrdering "Name" Desc] (Some 5%Z) None
          (Some (take 2 (Properties sample_map))) [])]
    [] (Some 10%Z) (Some 20%Z) None
    [mkSelectJoin sample_map "r0" "" [mkJoinPair "ID" "ID"] true].

Lemma sample_select_clean : clean_select sample_select.
Proof.
  constructor; [apply sample_map_ident| |constructor|].
  - constructor; [|constructor; [|constructor]].
    + constructor; [done|]. constructor; [by constructor|]. constructor; [|constructor].
      constructor. constructor.
    + constructor. constructor; [apply sample_map_ident| | |constructor].
      * constructor; [by constructor|constructor].
      * repeat constructor; by eexists _, _.
  - constructor; [|constructor]. split; [apply sample_map_ident|]. split; [by eexists _, _|by repeat constructor].
Qed.

Lemma rendered_select_binds_exactly_witness :
  exists cache' sql args,
    renderSelect SqlServer.dialect echo_value ∅ sample_select "User criteria" = (cache', Ok (sql, args)) /\
    length args = 6 /\ names_in sql <> arg_Name <$> args /\ names_in sql ≡ₚ arg_Name <$> args.
Proof.
  destruct (renderSelect SqlServer.dialect echo_value ∅ sample_select "User criteria") as [c r] eqn:E.
  pose proof E as E'. vm_compute in E'. injection E' as Hc Hr. subst r.
  eexists c, _, _. split; [reflexivity|]. split; [reflexivity|]. split; [by vm_compute|].
  exact (proj2 (rendered_select_binds_exactly SqlServer.dialect echo_value ∅ sample_select
    "User criteria" c _ _ sample_select_clean E)).
Defined.

Lemma label_cache_transparent_witness :
  cache_ok (<["User criteria" := labels "User criteria" 2]> ∅) /\
  (renderSelect Sqlite.dialect echo_value (<["User criteria" := labels "User criteria" 2]> ∅)
    sample_select "User criteria").2 = plain_render Sqlite.dialect echo_value sample_select "User criteria".
Proof.
  assert (H : cache_ok (<["User criteria" := labels "User criteria" 2]> ∅)).
  { intros q ls Hl. apply lookup_insert_Some in Hl as [[<- <-]|[_ Hl]]; [by exists 2|].
    by rewrite lookup_empty in Hl. }
  split; [exact H|].
  exact (proj1 (label_cache_transparent Sqlite.dialect echo_value _ sample_select "User criteria" H)).
Defined.
