(* ===== verification/Reading.v ===== *)
(** How SQL reads a rendered WHERE clause: a lexer and a recursive-descent
    parser with SQL's precedence (not, then and, then or), and the three-valued
    evaluation of what they read.  Nothing here is in the program: this is the
    specification the renderer is judged against ([CriteriaMeaning]).

    The reader knows the fragment the renderer writes without subqueries: a
    word is a run of bytes without blanks, parentheses or commas (quoted
    identifiers of good names are words), a keyword is a word of the list
    below in any case. *)
From S2P Require Import Prelude GoStrings Values Params Query.

(** * Tokens *)

Inductive token := TKey (k : string) | TWord (w : string) | TOpen | TClose | TComma.
#[export] Instance token_eq_dec : EqDecision token.
Proof. solve_decision. Defined.

Definition keywords : list string :=
  ["select"; "from"; "left"; "join"; "on"; "as"; "where"; "and"; "or"; "not"; "is"; "null";
   "in"; "like"; "exists"; "order"; "by"; "limit"; "offset"; "desc"].

Definition classify (w : string) : token :=
  if decide (ToLower w ∈ keywords) then TKey (ToLower w) else TWord w.

Definition flush (word : list ascii) : list token :=
  match word with [] => [] | _ => [classify (of_bytes (rev word))] end.

Definition delimiter (c : ascii) : bool :=
  is_space c || Ascii.eqb c "("%char || Ascii.eqb c ")"%char || Ascii.eqb c ","%char.

Definition delimiter_token (c : ascii) : list token :=
  if Ascii.eqb c "("%char then [TOpen]
  else if Ascii.eqb c ")"%char then [TClose]
  else if Ascii.eqb c ","%char then [TComma] else [].

(** [word] is the word being read, last byte first. *)
Fixpoint lex (word : list ascii) (l : list ascii) : list token :=
  match l with
  | [] => flush word
  | c :: l' =>
      if delimiter c then flush word ++ delimiter_token c ++ lex [] l'
      else lex (c :: word) l'
  end.

(** * Expressions *)

Inductive SqlExpr :=
  | EConst (b : bool)
  | ECompare (operator left right : string)
  | EIsNull (operand : string) (negated : bool)
  | EIn (operand : string) (items : list string)
  | ENot (e : SqlExpr)
  | EAnd (e1 e2 : SqlExpr)
  | EOr (e1 e2 : SqlExpr).

Definition operators : list string := ["="; "<>"; ">"; ">="; "<"; "<="].

(** The items of an IN list, up to its closing parenthesis. *)
Fixpoint parse_items (ts : list token) : option (list string * list token) :=
  match ts with
  | TWord w :: TClose :: rest => Some ([w], rest)
  | TWord w :: TComma :: rest =>
      '(ws, rest') ← parse_items rest; Some (w :: ws, rest')
  | _ => None
  end.

(** [1 = 1] and [1 = 0], the constants the renderer writes. *)
Definition comparison (operator a b : string) : SqlExpr :=
  if decide (a = "1" /\ operator = "=" /\ b = "1") then EConst true
  else if decide (a = "1" /\ operator = "=" /\ b = "0") then EConst false
  else ECompare operator a b.

Definition parse_atom (ts : list token) : option (SqlExpr * list token) :=
  match ts with
  | TWord a :: TKey k :: rest =>
      if decide (k = "is") then
        match rest with
        | TKey n :: rest' =>
            if decide (n = "null") then Some (EIsNull a false, rest')
            else if decide (n = "not") then
              match rest' with
              | TKey n' :: rest'' =>
                  if decide (n' = "null") then Some (EIsNull a true, rest'') else None
              | _ => None
              end
            else None
        | _ => None
        end
      else if decide (k = "in") then
        match rest with
        | TOpen :: rest' => '(ws, rest'') ← parse_items rest'; Some (EIn a ws, rest'')
        | _ => None
        end
      else if decide (k = "like") then
        match rest with
        | TWord b :: rest' => Some (ECompare "like" a b, rest')
        | _ => None
        end
      else None
  | TWord a :: TWord operator :: TWord b :: rest =>
      if decide (operator ∈ operators) then Some (comparison operator a b, rest) else None
  | _ => None
  end.

Inductive level := LOr | LAnd | LNot.

(** The rest after a keyword, when it comes next. *)
Definition next_key (k : string) (ts : list token) : option (list token) :=
  match ts with
  | TKey k' :: rest => if decide (k' = k) then Some rest else None
  | _ => None
  end.

(** Chains of [and] and [or] associate to the right; the connectives are
    associative. *)
Fixpoint parse (n : nat) (l : level) (ts : list token) : option (SqlExpr * list token) :=
  match n with
  | O => None
  | S n =>
      match l with
      | LOr =>
          '(e, rest) ← parse n LAnd ts;
          match next_key "or" rest with
          | Some rest' => '(e', rest'') ← parse n LOr rest'; Some (EOr e e', rest'')
          | None => Some (e, rest)
          end
      | LAnd =>
          '(e, rest) ← parse n LNot ts;
          match next_key "and" rest with
          | Some rest' => '(e', rest'') ← parse n LAnd rest'; Some (EAnd e e', rest'')
          | None => Some (e, rest)
          end
      | LNot =>
          match next_key "not" ts with
          | Some rest => '(e, rest') ← parse n LNot rest; Some (ENot e, rest')
          | None =>
              match ts with
              | TOpen :: rest =>
                  '(e, rest') ← parse n LOr rest;
                  match rest' with TClose :: rest'' => Some (e, rest'') | _ => None end
              | _ => parse_atom ts
              end
          end
      end
  end.

(** * The WHERE clause of a statement *)

Fixpoint after_where (ts : list token) : option (list token) :=
  match ts with
  | [] => None
  | t :: ts' => if decide (t = TKey "where") then Some ts' else after_where ts'
  end.

Definition ends_clause (ts : list token) : bool :=
  match ts with
  | [] => true
  | TKey k :: _ => bool_decide (k ∈ ["order"; "limit"; "offset"])
  | _ => false
  end.

(** The predicate of a statement; one without a WHERE clause keeps every row. *)
Definition read_where (sql : string) : option SqlExpr :=
  let ts := lex [] (bytes sql) in
  match after_where ts with
  | None => Some (EConst true)
  | Some ts =>
      '(e, rest) ← parse (3 * length ts + 2) LOr ts;
      if ends_clause rest then Some e else None
  end.

(** * Three-valued evaluation *)

Definition not3 (x : option bool) : option bool := negb <$> x.
Definition and3 (x y : option bool) : option bool :=
  match x, y with
  | Some false, _ | _, Some false => Some false
  | Some true, Some true => Some true
  | _, _ => None
  end.
Definition or3 (x y : option bool) : option bool :=
  match x, y with
  | Some true, _ | _, Some true => Some true
  | Some false, Some false => Some false
  | _, _ => None
  end.

Section Eval.
(** The database's values and what its operators say of two of them; [None] is
    NULL, and the unknown truth value. *)
Context {V : Type}.
Context (compare : string -> V -> V -> option bool).
(** the value a bound argument has there *)
Context (read : Bound -> option V).

Definition compare3 (operator : string) (x y : option V) : option bool :=
  match x, y with Some x, Some y => compare operator x y | _, _ => None end.

(** An argument by name; a placeholder is [@] and a name. *)
Definition bound_at (args : list NamedArg) (name : string) : option Bound :=
  arg_Value <$> List.find (fun a => bool_decide (arg_Name a = name)) args.

(** What an operand stands for in a row: a placeholder its argument, any other
    word a column. *)
Definition operand (row : string -> option V) (args : list NamedArg) (w : string) : option V :=
  match w with
  | String c name =>
      if Ascii.eqb c "@"%char then bound_at args name ≫= read else row w
  | "" => None
  end.

Fixpoint eval (row : string -> option V) (args : list NamedArg) (e : SqlExpr) : option bool :=
  match e with
  | EConst b => Some b
  | ECompare operator a b => compare3 operator (operand row args a) (operand row args b)
  | EIsNull a negated =>
      Some (xorb negated match operand row args a with Some _ => false | None => true end)
  | EIn a items =>
      fold_right (fun i => or3 (compare3 "=" (operand row args a) (operand row args i)))
        (Some false) items
  | ENot e => not3 (eval row args e)
  | EAnd e1 e2 => and3 (eval row args e1) (eval row args e2)
  | EOr e1 e2 => or3 (eval row args e1) (eval row args e2)
  end.

End Eval.
