(* ===== verification/CriteriaMeaning.v ===== *)
(** A rendered WHERE clause means what the criteria say: SQL's reading of the
    text ([Reading]) keeps a row exactly when the criteria, taken in SQL's
    three-valued logic, hold of it.  The subject is criteria queries without
    subqueries and without nil pointers among the values (the renderer takes
    only the untyped nil for a null: [nil_pointer_is_not_is_null]); the joins of
    a join-mode query may be there. *)
From S2P Require Import Prelude GoStrings Values Core Placeholders Params Dialect DialectLaws.
From S2P Require Import GeneratedSql Query Render RenderLaws Reading.
From S2P Require Sqlite Postgres SqlServer.

(** * What criteria mean *)

(** Criteria without subqueries whose values are no nil pointers. *)
Inductive plain : Criteria -> Prop :=
  | plain_comparison p op v :
      op ∈ "like" :: operators -> v <> Some VNil -> plain (Comparison p op v)
  | plain_in p vs : Some VNil ∉ vs -> plain (InList p vs)
  | plain_null p n : plain (NullCheck p n)
  | plain_composite op cs : op = "and" \/ op = "or" -> Forall plain cs -> plain (Composite op cs)
  | plain_negation c : plain c -> plain (Negation c)
  | plain_nil : plain NilCriteria.

Section Meaning.
Context {V : Type}.
Context (compare : string -> V -> V -> option bool).
Context (read : Bound -> option V).
(** what the session binds for a value compared with a column of that type *)
Context (stored : Value -> option ColumnType -> Bound).
Context (m : EntityMap) (cell : PropertyMap -> option V).

Definition is_null (x : option V) : bool := match x with Some _ => false | None => true end.

Definition value_of (property : string) : option V :=
  match Resolve m property "" with Ok p => cell p | Fail _ => None end.

Definition param_of (property : string) (v : Value) : option V :=
  match Resolve m property "" with Ok p => read (stored v (Some (ColumnType_ p))) | Fail _ => None end.

(** A null among the values: the untyped nil, or a nil pointer. *)
Definition null_value (v : option Value) : bool := match v with Some v => is_nil v | None => true end.

(** What the criteria say (spec/query-ast.md): a null compared for equality asks
    whether the column is null, and never is a comparison with NULL; any other
    comparison with a null has no truth value. *)
Fixpoint meaning (c : Criteria) : option bool :=
  match c with
  | Comparison p op v =>
      if null_value v then
        if decide (op = "=") then Some (is_null (value_of p))
        else if decide (op = "<>") then Some (negb (is_null (value_of p))) else None
      else compare3 compare op (value_of p) (v ≫= param_of p)
  | InList p vs =>
      fold_right (fun v => or3 (compare3 compare "=" (value_of p) (param_of p v))) (Some false)
        (omap id vs)
  | NullCheck p negated => Some (xorb negated (is_null (value_of p)))
  | Composite op cs =>
      if decide (op = "and") then fold_right and3 (Some true) (map meaning cs)
      else fold_right or3 (Some false) (map meaning cs)
  | Negation c => not3 (meaning c)
  | SubqueryMembership _ _ | NilCriteria => None
  end.

(** A WHERE list is the conjunction of its predicates. *)
Definition meaning_all (where_ : list Criteria) : option bool :=
  fold_right and3 (Some true) (map meaning where_).

End Meaning.

(** * Lexing concatenated text *)

Definition boundary (k : list ascii) : Prop :=
  match k with [] => True | c :: _ => delimiter c = true end.

(** [lexed s ts]: before a delimiter, [s] reads as the tokens [ts]; [opens s ts]:
    before anything. *)
Definition lexed (s : string) (ts : list token) : Prop :=
  forall k, boundary k -> lex [] (bytes s ++ k) = ts ++ lex [] k.
Definition opens (s : string) (ts : list token) : Prop :=
  forall k, lex [] (bytes s ++ k) = ts ++ lex [] k.

Lemma opens_lexed s ts : opens s ts -> lexed s ts.
Proof. intros H k _. apply H. Qed.

Lemma lexed_empty : lexed "" [].
Proof. by intros k _. Qed.

Lemma lexed_app s ts t us :
  lexed s ts -> lexed t us -> boundary (bytes t) -> lexed (s +:+ t) (ts ++ us).
Proof.
  intros Hs Ht Hb k Hk. rewrite bytes_app, <- app_assoc, Hs, Ht, <- app_assoc; [done|done|].
  by destruct (bytes t).
Qed.

Lemma opens_app s ts t us : opens s ts -> lexed t us -> lexed (s +:+ t) (ts ++ us).
Proof. intros Hs Ht k Hk. by rewrite bytes_app, <- app_assoc, Hs, Ht, <- app_assoc. Qed.

Lemma opens_opens s ts t us : opens s ts -> opens t us -> opens (s +:+ t) (ts ++ us).
Proof. intros Hs Ht k. by rewrite bytes_app, <- app_assoc, Hs, Ht, <- app_assoc. Qed.

Definition solid (w : list ascii) : Prop := Forall (fun c => delimiter c = false) w.

Lemma lex_solid acc w k :
  solid w -> boundary k -> lex acc (w ++ k) = flush (rev w ++ acc) ++ lex [] k.
Proof.
  intros Hw Hk. revert acc. induction Hw as [|c w Hc Hw IH]; intros acc; simpl.
  - destruct k as [|c k]; simpl; [by rewrite app_nil_r|]. simpl in Hk. rewrite Hk. simpl. done.
  - rewrite Hc, IH. by rewrite <- app_assoc.
Qed.

Record word (w : string) : Prop := {
  wd_head : exists c k, bytes w = c :: k;
  wd_solid : solid (bytes w);
  wd_plain : ToLower w ∉ keywords }.

Lemma word_lexed w : word w -> lexed w [TWord w].
Proof.
  intros [(c & l & Hb) Hs Hk] k Hbk. rewrite lex_solid by done. rewrite app_nil_r.
  assert (Hf : flush (rev (bytes w)) = [classify w]).
  { unfold flush. rewrite rev_involutive, of_bytes_bytes.
    destruct (rev (bytes w)) eqn:E; [|done].
    apply (f_equal length) in E. rewrite length_rev, Hb in E. done. }
  rewrite Hf. unfold classify. by rewrite decide_False.
Qed.

(** The tokens of a joined text. *)
Fixpoint join_tokens (sep : list token) (tss : list (list token)) : list token :=
  match tss with
  | [] => []
  | [ts] => ts
  | ts :: tss' => ts ++ sep ++ join_tokens sep tss'
  end.

Lemma join_tokens_cons sep ts tss :
  tss <> [] -> join_tokens sep (ts :: tss) = ts ++ sep ++ join_tokens sep tss.
Proof. by destruct tss. Qed.

Lemma lexed_join ss tss sep seps :
  Forall2 lexed ss tss -> opens sep seps -> boundary (bytes sep) -> sep <> "" ->
  lexed (Join ss sep) (join_tokens seps tss).
Proof.
  intros H Hsep Hb Hne. induction H as [|s ts ss tss Hs H IH]; [apply lexed_empty|].
  destruct H as [|s2 ts2 ss tss Hs2 H]; [done|].
  rewrite Join_cons, join_tokens_cons by done. apply lexed_app; [done| |].
  - by apply opens_app.
  - by destruct sep.
Qed.

(** * Parsing tokens *)

(** [reads ts e]: a predicate's tokens read as [e], whatever follows. *)
Definition reads (ts : list token) (e : SqlExpr) : Prop :=
  forall n rest, 3 * length ts <= n -> parse n LNot (ts ++ rest) = Some (e, rest).

Fixpoint chain (f : SqlExpr -> SqlExpr -> SqlExpr) (es : list SqlExpr) : SqlExpr :=
  match es with
  | [] => EConst true
  | [e] => e
  | e :: es' => f e (chain f es')
  end.

Lemma chain_cons f e es : es <> [] -> chain f (e :: es) = f e (chain f es).
Proof. by destruct es. Qed.

Lemma length_join_cons sep ts tss :
  length ts <= length (join_tokens sep (ts :: tss)).
Proof. destruct tss; [done|]. rewrite join_tokens_cons, length_app by done. lia. Qed.

Lemma parse_and n tss es rest :
  Forall2 reads tss es -> tss <> [] -> next_key "and" rest = None ->
  3 * length (join_tokens [TKey "and"] tss) < n ->
  parse n LAnd (join_tokens [TKey "and"] tss ++ rest) = Some (chain EAnd es, rest).
Proof.
  intros H Hne Hrest. revert n. induction H as [|ts e tss es He H IH]; [done|].
  intros [|n] Hn; [lia|]. destruct H as [|ts2 e2 tss es He2 H]; cbn [parse].
  - cbn [join_tokens] in *. rewrite He by lia. simpl. by rewrite Hrest.
  - rewrite join_tokens_cons in * by done. rewrite chain_cons by done.
    rewrite !length_app in Hn. cbn [length] in Hn.
    rewrite <- app_assoc, He by lia. cbn [app mbind option_bind next_key].
    rewrite decide_True by done.
    rewrite IH by (done || lia). done.
Qed.

Lemma parse_and_one n ts e rest :
  reads ts e -> next_key "and" rest = None -> 3 * length ts < n ->
  parse n LAnd (ts ++ rest) = Some (e, rest).
Proof.
  intros H Hr Hn. destruct n as [|n]; [lia|]. cbn [parse]. rewrite H by lia. simpl. by rewrite Hr.
Qed.

Lemma parse_or n tss es rest :
  Forall2 reads tss es -> tss <> [] -> next_key "and" rest = None -> next_key "or" rest = None ->
  3 * length (join_tokens [TKey "or"] tss) + 1 < n ->
  parse n LOr (join_tokens [TKey "or"] tss ++ rest) = Some (chain EOr es, rest).
Proof.
  intros H Hne Hand Hor. revert n. induction H as [|ts e tss es He H IH]; [done|].
  intros [|n] Hn; [lia|]. destruct H as [|ts2 e2 tss es He2 H]; cbn [parse].
  - cbn [join_tokens] in *. rewrite (parse_and_one _ _ e) by (done || lia). simpl. by rewrite Hor.
  - rewrite join_tokens_cons in * by done. rewrite chain_cons by done.
    rewrite !length_app in Hn. cbn [length] in Hn.
    rewrite <- app_assoc, (parse_and_one _ _ e) by (done || lia). cbn [app mbind option_bind next_key].
    rewrite decide_True by done.
    rewrite IH by (done || lia). done.
Qed.

Lemma parse_or_and n tss es rest :
  Forall2 reads tss es -> tss <> [] -> next_key "and" rest = None -> next_key "or" rest = None ->
  3 * length (join_tokens [TKey "and"] tss) + 1 < n ->
  parse n LOr (join_tokens [TKey "and"] tss ++ rest) = Some (chain EAnd es, rest).
Proof.
  intros H Hne Hand Hor Hn. destruct n as [|n]; [lia|]. cbn [parse].
  rewrite (parse_and n tss es) by (done || lia). simpl. by rewrite Hor.
Qed.

(** A parenthesised chain is read as a predicate. *)
Lemma reads_composite op tss es :
  op = "and" \/ op = "or" -> Forall2 reads tss es -> tss <> [] ->
  reads (TOpen :: join_tokens [TKey op] tss ++ [TClose])
    (chain (if decide (op = "and") then EAnd else EOr) es).
Proof.
  intros Hop H Hne n rest Hn. rewrite length_cons, length_app in Hn. simpl in Hn.
  destruct n as [|n]; [lia|]. cbn [parse next_key app]. rewrite <- app_assoc.
  destruct Hop as [-> | ->]; rewrite ?decide_True, ?decide_False by done.
  - rewrite (parse_or_and n tss es) by (done || simpl; lia). done.
  - rewrite (parse_or n tss es) by (done || simpl; lia). done.
Qed.

Lemma reads_not ts e : reads ts e -> reads (TKey "not" :: ts) (ENot e).
Proof.
  intros H n rest Hn. simpl in Hn. destruct n as [|n]; [lia|]. cbn [parse next_key app].
  rewrite ?decide_True by done. rewrite H by lia. done.
Qed.

(** Atoms need no recursion. *)
Lemma reads_atom ts e :
  ts <> [] -> next_key "not" ts = None -> (forall r, ts <> TOpen :: r) ->
  (forall rest, parse_atom (ts ++ rest) = Some (e, rest)) -> reads ts e.
Proof.
  intros Hne Hnot Hopen Ha n rest Hn. destruct ts as [|t ts]; [done|].
  destruct n as [|n]; [simpl in Hn; lia|]. cbn [parse].
  assert (Hnk : next_key "not" ((t :: ts) ++ rest) = None).
  { simpl in *. destruct t; [by destruct (decide _)|done..]. }
  rewrite Hnk. specialize (Ha rest). destruct t; try exact Ha. by destruct (Hopen ts).
Qed.

(** * Words *)

(** A word that stands for a column. *)
Record column_word (w : string) : Prop := {
  cw_word : word w;
  cw_head : Forall (fun c => c <> "@"%char) (take 1 (bytes w));
  cw_one : w <> "1" }.

Lemma not_keyword w : existsb (fun c => negb (is_lower c)) (bytes (ToLower w)) = true -> ToLower w ∉ keywords.
Proof.
  intros H Hin.
  assert (Hall : Forall (fun k => forallb is_lower (bytes k) = true) keywords) by by repeat constructor.
  rewrite Forall_forall in Hall. apply Hall in Hin. clear Hall.
  apply existsb_exists in H as (c & Hc & Hn). rewrite forallb_forall in Hin.
  by rewrite (Hin c Hc) in Hn.
Qed.

Lemma not_keyword_byte w c :
  c ∈ bytes w -> is_lower (to_lower c) = false -> ToLower w ∉ keywords.
Proof.
  intros Hc Hl. apply not_keyword, existsb_exists. exists (to_lower c). split; [|by rewrite Hl].
  apply list_elem_of_In. unfold ToLower, map_bytes. rewrite bytes_of_bytes.
  apply list_elem_of_fmap. eauto.
Qed.

Lemma name_char_solid c : name_char c = true -> delimiter c = false.
Proof. by destruct c as [[] [] [] [] [] [] [] []]. Qed.

Lemma name_start_not c : name_start c = true -> c <> "@"%char /\ c <> "1"%char.
Proof. intros H. split; intros ->; discriminate. Qed.

Lemma good_solid w : good_name w -> solid w.
Proof. intros [_ H]. eapply Forall_impl; [exact H|]. apply name_char_solid. Qed.

(** A name the reader takes for a column where it is not quoted. *)
Record sql_name (n : string) : Prop := {
  sn_good : good_name (bytes n);
  sn_plain : ToLower n ∉ keywords }.

Lemma sql_name_word n : sql_name n -> column_word n.
Proof.
  intros [Hg Hk]. pose proof (good_solid _ Hg) as Hs. destruct Hg as [(c & k & Hb & Hc) _].
  destruct (name_start_not _ Hc) as [H1 H2]. split.
  - split; [eauto|done|done].
  - rewrite Hb. by repeat constructor.
  - intros ->. simpl in Hb. by injection Hb as <- _.
Qed.

(** A word made of solid pieces that opens with [c] and has a byte no keyword has. *)
Lemma marked_word w c k x :
  bytes w = c :: k -> c <> "@"%char -> k <> [] -> solid (c :: k) ->
  x ∈ c :: k -> is_lower (to_lower x) = false -> column_word w.
Proof.
  intros Hb H1 H2 Hs Hx Hl. split.
  - split; [eauto|by rewrite Hb|]. eapply not_keyword_byte; [|exact Hl]. by rewrite Hb.
  - rewrite Hb. by repeat constructor.
  - intros ->. simpl in Hb. injection Hb as _ <-. done.
Qed.

Class QuotedWords (d : Dialect) : Prop :=
  quoted_word n : sql_name n -> column_word (QuoteIdentifier d n).

#[export] Instance sqlite_words : QuotedWords Sqlite.dialect.
Proof. exact sql_name_word. Qed.

#[export] Instance postgres_words : QuotedWords Postgres.dialect.
Proof.
  intros n [Hg _]. cbn [QuoteIdentifier Postgres.dialect]. unfold Postgres.QuoteIdentifier.
  rewrite ReplaceAll_absent by by apply good_name_absent.
  pose proof (good_solid _ Hg) as Hs.
  apply (marked_word _ "034"%char (bytes n ++ ["034"%char]) "034"%char); try done.
  - by rewrite !bytes_app.
  - by destruct (bytes n).
  - constructor; [done|]. apply Forall_app. split; [done|by repeat constructor].
  - by left.
Qed.

#[export] Instance sqlserver_words : QuotedWords SqlServer.dialect.
Proof.
  intros n [Hg _]. cbn [QuoteIdentifier SqlServer.dialect]. unfold SqlServer.QuoteIdentifier.
  rewrite ReplaceAll_absent by by apply good_name_absent.
  pose proof (good_solid _ Hg) as Hs.
  apply (marked_word _ "["%char (bytes n ++ ["]"%char]) "["%char); try done.
  - by rewrite !bytes_app.
  - by destruct (bytes n).
  - constructor; [done|]. apply Forall_app. split; [done|by repeat constructor].
  - by left.
Qed.

Lemma qualified_word a w :
  good_name (bytes a) -> column_word w -> column_word (a +:+ "." +:+ w).
Proof.
  intros Ha [[_ Hs _] _ _]. pose proof (good_solid _ Ha) as Hsa.
  destruct Ha as [(c & k & Hb & Hc) _]. destruct (name_start_not _ Hc) as [H1 _].
  apply (marked_word _ c (k ++ "."%char :: bytes w) "."%char); try done.
  - by rewrite !bytes_app, Hb.
  - by destruct k.
  - change (solid ((c :: k) ++ "."%char :: bytes w)). rewrite <- Hb. apply Forall_app.
    split; [done|]. by constructor.
  - right. apply elem_of_app. right. by left.
Qed.

Lemma joined_name a b : sql_name a -> sql_name b -> sql_name (a +:+ "_" +:+ b).
Proof.
  intros [Ha _] [Hb _]. split; [by apply good_name_join|].
  apply (not_keyword_byte _ "_"%char); [|done]. rewrite !bytes_app.
  apply elem_of_app. right. by left.
Qed.

Lemma t_name : sql_name "t".
Proof. split; [apply good_t|]. vm_compute. by repeat (apply not_elem_of_cons; split; [done|]); apply not_elem_of_nil. Qed.

Lemma placeholder_word i : word (criteriaPlaceholder i).
Proof.
  assert (Hg : good_name (bytes (criteriaName i))) by apply criteriaName_good.
  unfold criteriaPlaceholder. split.
  - by eexists _, _.
  - constructor; [done|]. by apply good_solid.
  - apply (not_keyword_byte _ "@"%char); [by left|done].
Qed.

Section Columns.
Context (d : Dialect) `{!QuotedWords d}.

Record sql_map (m : EntityMap) : Prop := {
  sm_relation : sql_name (RelationName m);
  sm_columns : Forall (fun p => sql_name (ColumnName p)) (Properties m) }.

Definition sql_properties (ps : list PropertyMap) : Prop :=
  Forall (fun p => sql_name (ColumnName p)) ps.

Lemma sql_mapped m p : sql_map m -> p ∈ Properties m -> sql_name (ColumnName p).
Proof. intros [_ H] Hp. rewrite Forall_forall in H. by apply H. Qed.

Definition root_alias (a : string) : Prop := a = "" \/ a = "t".

Lemma column_text alias n : root_alias alias -> sql_name n -> column_word (aliasQualifiedColumn d alias n).
Proof.
  intros [-> | ->] Hn; unfold aliasQualifiedColumn; simpl; [by apply quoted_word|].
  apply (qualified_word "t"); [apply good_t|by apply quoted_word].
Qed.

End Columns.

(** * The text before the WHERE clause holds no [where] *)

Definition quiet (ts : list token) : Prop := TKey "where" ∉ ts.
Definition calm (s : string) : Prop := exists ts, lexed s ts /\ quiet ts.
Definition calm_opens (s : string) : Prop := exists ts, opens s ts /\ quiet ts.

Lemma quiet_app ts us : quiet ts -> quiet us -> quiet (ts ++ us).
Proof. unfold quiet. rewrite elem_of_app. tauto. Qed.

Lemma calm_empty : calm "".
Proof. exists []. split; [apply lexed_empty|apply not_elem_of_nil]. Qed.

Lemma calm_word w : word w -> calm w.
Proof.
  intros Hw. exists [TWord w]. split; [by apply word_lexed|].
  intros [H|H%not_elem_of_nil]%elem_of_cons; done.
Qed.

Lemma calm_app s t : calm s -> calm t -> boundary (bytes t) -> calm (s +:+ t).
Proof.
  intros (ts & Hs & Qs) (us & Ht & Qt) Hb. exists (ts ++ us).
  split; [by apply lexed_app|by apply quiet_app].
Qed.

Lemma calm_after s t : calm_opens s -> calm t -> calm (s +:+ t).
Proof.
  intros (ts & Hs & Qs) (us & Ht & Qt). exists (ts ++ us).
  split; [by apply opens_app|by apply quiet_app].
Qed.

Lemma calm_join ss sep :
  Forall calm ss -> calm_opens sep -> boundary (bytes sep) -> sep <> "" -> calm (Join ss sep).
Proof.
  intros H Hsep Hb Hne. induction H as [|s ss Hs H IH]; [apply calm_empty|].
  destruct ss as [|s2 ss]; [done|]. rewrite Join_cons by done.
  apply calm_app; [done|by apply calm_after|by destruct sep].
Qed.

(** Pieces that open with a delimiter are simply concatenated. *)
Lemma calm_concat ss :
  Forall (fun s => calm s /\ boundary (bytes s)) ss -> calm (Join ss "") /\ boundary (bytes (Join ss "")).
Proof.
  induction 1 as [|s ss [Hs Hb] H [IH1 IH2]]; [by split; [apply calm_empty|]|].
  destruct ss as [|s2 ss]; [done|]. rewrite Join_cons by done. split.
  - by apply calm_app.
  - rewrite bytes_app. by destruct s.
Qed.

(** Fixed text, by computation. *)
Ltac calm_quiet :=
  unfold quiet; vm_compute; repeat (apply not_elem_of_cons; split; [done|]); apply not_elem_of_nil.
Ltac calm_text :=
  match goal with |- calm_opens ?s => exists (lex [] (bytes s)) end;
  split; [intros k; reflexivity|calm_quiet].

Section SelectFrom.
Context (d : Dialect) `{!QuotedWords d}.

Record sql_join (j : SelectJoin) : Prop := {
  sj_map : sql_map (sj_Target j);
  sj_name : sql_name (sj_Alias j) }.

Lemma calm_column alias n : root_alias alias -> sql_name n -> calm (aliasQualifiedColumn d alias n).
Proof. intros Ha Hn. by apply calm_word, column_text. Qed.

Lemma calm_quoted n : sql_name n -> calm (QuoteIdentifier d n).
Proof. intros Hn. by apply calm_word, quoted_word. Qed.

Lemma calm_qualified a n : sql_name a -> sql_name n -> calm (a +:+ "." +:+ QuoteIdentifier d n).
Proof. intros [Ha _] Hn. by apply calm_word, qualified_word, quoted_word. Qed.

Lemma calm_renamed t n : calm t -> sql_name n -> calm (t +:+ " as " +:+ QuoteIdentifier d n).
Proof.
  intros Ht Hn. apply calm_app; [done| |done]. apply (calm_after " as "); [calm_text|by apply calm_quoted].
Qed.

Lemma calm_columns alias ps joins :
  root_alias alias -> (alias = "" -> joins = []) -> sql_properties ps -> Forall sql_join joins ->
  Forall calm (select_columns d alias ps joins).
Proof.
  intros Ha Hno Hps Hj. apply Forall_app. split.
  - apply Forall_fmap. eapply Forall_impl; [exact Hps|]. intros p Hp. unfold compose, root_column.
    case_bool_decide as Hjn.
    + destruct Ha as [-> | ->]; [by specialize (Hno eq_refl)|].
      apply calm_renamed; [apply calm_column; [by right|done]|].
      apply (joined_name "t"); [apply t_name|done].
    + rewrite app_empty_r. by apply calm_column.
  - apply Forall_concat, Forall_fmap. eapply Forall_impl; [exact Hj|]. intros j [Hm Hn].
    unfold compose, join_columns. destruct (sj_Project j); [|constructor].
    apply Forall_fmap. eapply Forall_impl; [apply (sm_columns _ Hm)|]. intros p Hp.
    unfold compose, join_column.
    pose proof (calm_renamed (sj_Alias j +:+ "." +:+ QuoteIdentifier d (ColumnName p))
      (sj_Alias j +:+ "_" +:+ ColumnName p)) as H. rewrite !app_assoc_s in H.
    apply H; [by apply calm_qualified|by apply joined_name].
Qed.

Lemma aliasMaps_sql l (acc : gmap string EntityMap) :
  Forall sql_join l ->
  (forall a x, acc !! a = Some x -> sql_name a /\ sql_map x) ->
  forall a x, fold_left (fun maps j => <[sj_Alias j := sj_Target j]> maps) l acc !! a = Some x ->
  sql_name a /\ sql_map x.
Proof.
  revert acc. induction l as [|j l IH]; intros acc Hl Hacc; [exact Hacc|].
  apply Forall_cons in Hl as [[Ht Ha] Hl]. simpl. apply IH; [done|].
  intros a x. rewrite lookup_insert_Some. intros [[<- <-]|[_ H]]; [done|by eapply Hacc].
Qed.

Lemma sql_join_parent root joins q j pa pm :
  sql_map root -> Forall sql_join joins -> join_parent root joins q j = Ok (pa, pm) ->
  sql_name pa /\ sql_map pm.
Proof.
  intros Hroot Hall. unfold join_parent. case_decide as E.
  - intros [= <- <-]. split; [apply t_name|done].
  - destruct (aliasMaps joins !! sj_ParentAlias j) as [m|] eqn:Em; [|done]. intros [= <- <-].
    eapply (aliasMaps_sql joins ∅ Hall); [|exact Em]. intros ??. by rewrite lookup_empty.
Qed.

Lemma calm_join_clause root joins q j t :
  sql_map root -> Forall sql_join joins -> j ∈ joins ->
  join_clause d root joins q j = Ok t -> calm t.
Proof.
  intros Hroot Hall Hj H. pose proof Hall as Hj'. rewrite Forall_forall in Hj'.
  destruct (Hj' j Hj) as [Ht Ha]. unfold join_clause in H.
  apply bind_Ok in H as ([pa pm] & Hparent & H). apply bind_Ok in H as (pairs & Hpairs & H).
  apply Ok_inj in H as <-.
  destruct (sql_join_parent _ _ _ _ _ _ Hroot Hall Hparent) as [Hpa Hpm].
  apply calm_app; [by apply calm_quoted, sm_relation| |done].
  apply (calm_after " "); [calm_text|].
  apply calm_app; [by apply calm_word, cw_word, sql_name_word| |done].
  apply (calm_after " on "); [calm_text|]. apply calm_join; [|calm_text|done|done].
  apply mapR_Ok in Hpairs. apply Forall_forall. intros s Hs.
  apply list_elem_of_lookup in Hs as [i Hi].
  destruct (Forall2_lookup_r _ _ _ _ _ Hpairs Hi) as (pair & _ & Hp).
  apply bind_Ok in Hp as (pp & Hpp & Hp). apply bind_Ok in Hp as (tp & Htp & H). apply Ok_inj in H as <-.
  apply Resolve_mapped in Hpp, Htp. apply (sql_mapped _ _ Hpm) in Hpp. apply (sql_mapped _ _ Ht) in Htp.
  assert (Hr : calm ((sj_Alias j +:+ "." +:+ QuoteIdentifier d (ColumnName tp)) +:+
                 " = " +:+ (pa +:+ "." +:+ QuoteIdentifier d (ColumnName pp)))).
  { apply calm_app; [by apply calm_qualified| |done].
    apply (calm_after " = "); [calm_text|by apply calm_qualified]. }
  by rewrite !app_assoc_s in Hr.
Qed.

Lemma calm_select_from m where_ ps joins q clauses :
  sql_map m -> sql_properties (default [] ps) -> Forall sql_join joins ->
  renderJoins d m joins q = Ok clauses ->
  calm (select_from d m (rootAlias d where_ joins) ps joins clauses).
Proof.
  intros Hm Hp Hj Hcl. set (alias := rootAlias d where_ joins).
  assert (Hps : sql_properties (projected m ps)) by (destruct ps; [done|apply (sm_columns _ Hm)]).
  assert (Ha : root_alias alias /\ (alias = "" -> joins = [])).
  { subst alias. unfold rootAlias, needsRootAlias. destruct joins as [|j joins].
    - destruct (_ || _); split; [by right|done|by left|done].
    - split; [by right|done]. }
  destruct Ha as [Ha Hno]. unfold select_from.
  apply (calm_after "select "); [calm_text|].
  apply calm_app; [apply calm_join; [by apply calm_columns|calm_text|done|done]| |done].
  apply (calm_after " from "); [calm_text|].
  apply mapR_Ok in Hcl.
  destruct (calm_concat ((fun clause => " left join " +:+ clause) <$> clauses)) as [C1 C2].
  { apply Forall_fmap, Forall_forall. intros s Hs. apply list_elem_of_lookup in Hs as [i Hi].
    destruct (Forall2_lookup_r _ _ _ _ _ Hcl Hi) as (x & Hx%list_elem_of_lookup_2 & Hjc).
    unfold compose. split; [|done].
    apply (calm_after " left join "); [calm_text|by eapply calm_join_clause]. }
  apply calm_app; [by apply calm_quoted, sm_relation| |].
  - set (rest := Join _ "") in *. destruct Ha as [-> | ->]; simpl; [done|].
    change (calm ((" " +:+ "t") +:+ rest)). apply calm_app; [|done|done]. apply (calm_after " "); [calm_text|].
    by apply calm_word, cw_word, sql_name_word, t_name.
  - destruct Ha as [-> | ->]; simpl; [done|done].
Qed.

End SelectFrom.

(** * What follows the WHERE clause *)

(** Text after the predicate: nothing, or text that opens with a keyword that
    ends the clause. *)
Definition closing (s : string) : Prop :=
  s = "" \/ boundary (bytes s) /\ exists k ts,
    lexed s (TKey k :: ts) /\ k ∈ ["order"; "limit"; "offset"] /\ quiet (TKey k :: ts).

Lemma closing_app s t : closing s -> closing t -> closing (s +:+ t).
Proof.
  intros [-> | (Hb & k & ts & Hs & Hk & Hq)] Ht; [done|].
  destruct Ht as [-> | (Hb2 & k2 & us & Ht & _ & Hq2)].
  - rewrite app_empty_r. right. eauto 8.
  - right. split; [rewrite bytes_app; by destruct (bytes s)|]. exists k, (ts ++ TKey k2 :: us).
    split; [|split; [done|]].
    + by apply (lexed_app _ (TKey k :: ts)).
    + by apply (quiet_app (TKey k :: ts)).
Qed.

Lemma closing_opens s k ts t :
  boundary (bytes s) -> s <> "" -> opens s (TKey k :: ts) -> k ∈ ["order"; "limit"; "offset"] -> quiet (TKey k :: ts) ->
  calm t -> closing (s +:+ t).
Proof.
  intros Hb Hne Hs Hk Hq (us & Ht & Hq2). right. split; [by destruct s|].
  exists k, (ts ++ us). split; [|split; [done|]].
  - by apply (opens_app _ (TKey k :: ts)).
  - by apply (quiet_app (TKey k :: ts)).
Qed.

Ltac closing_text :=
  match goal with |- closing (?s +:+ _) =>
    let ts := eval vm_compute in (lex [] (bytes s)) in
    match ts with TKey ?k :: ?us => apply (closing_opens s k us) end;
    [done|done|intros ?; reflexivity|
     by repeat (apply elem_of_cons; first [left; reflexivity|right])|
     unfold quiet; by repeat (apply not_elem_of_cons; split; [done|]); apply not_elem_of_nil|]
  end.

Definition page_word (t : string) : Prop := t = "" \/ exists i, t = criteriaPlaceholder i.

(** What a dialect promises the reader. *)
Class ReadingLaws (d : Dialect) : Prop := {
  rl_words :: QuotedWords d;
  rl_paging l o : page_word l -> page_word o ->
    LimitOffsetClause d l o = "" \/ closing (" " +:+ LimitOffsetClause d l o) }.

Lemma calm_placeholder i : calm (criteriaPlaceholder i).
Proof. apply calm_word, placeholder_word. Qed.

Lemma limit_clause (offset_alone : string) (clause : string -> string -> string) :
  (forall i, closing (" " +:+ offset_alone +:+ criteriaPlaceholder i)) ->
  (forall l o, clause l o =
    if bool_decide (l <> "") && bool_decide (o <> "") then "limit " +:+ l +:+ " offset " +:+ o
    else if bool_decide (l <> "") then "limit " +:+ l
    else if bool_decide (o <> "") then offset_alone +:+ o else "") ->
  forall l o, page_word l -> page_word o -> clause l o = "" \/ closing (" " +:+ clause l o).
Proof.
  intros Hoff Hc l o [-> | [i ->]] [-> | [j ->]]; rewrite Hc; [by left|right..].
  - apply Hoff.
  - change (closing (" limit " +:+ criteriaPlaceholder i)). closing_text. apply calm_placeholder.
  - change (closing (" limit " +:+ (criteriaPlaceholder i +:+ " offset " +:+ criteriaPlaceholder j))).
    closing_text. apply calm_app; [apply calm_placeholder| |done].
    apply (calm_after " offset "); [calm_text|apply calm_placeholder].
Qed.

#[export] Instance sqlite_reading : ReadingLaws Sqlite.dialect.
Proof.
  split; [apply _|]. intros l o. apply (limit_clause "limit -1 offset "); [|done].
  intros i. change (closing (" limit -1 offset " +:+ criteriaPlaceholder i)). closing_text.
  apply calm_placeholder.
Qed.

#[export] Instance postgres_reading : ReadingLaws Postgres.dialect.
Proof.
  split; [apply _|]. intros l o. apply (limit_clause "offset "); [|done].
  intros i. change (closing (" offset " +:+ criteriaPlaceholder i)). closing_text.
  apply calm_placeholder.
Qed.

#[export] Instance sqlserver_reading : ReadingLaws SqlServer.dialect.
Proof.
  split; [apply _|]. intros l o Hl Ho.
  assert (Hrows : forall s, s = " rows" \/ s = " rows only" -> calm s).
  { intros s [-> | ->].
    - apply (calm_after " " "rows"); [calm_text|apply calm_word]. split; [by eexists _, _|by repeat constructor|].
      intros H. by repeat (apply elem_of_cons in H as [H|H]; [discriminate|]); apply not_elem_of_nil in H.
    - apply (calm_after " rows " "only"); [calm_text|apply calm_word]. split; [by eexists _, _|by repeat constructor|].
      intros H. by repeat (apply elem_of_cons in H as [H|H]; [discriminate|]); apply not_elem_of_nil in H. }
  destruct Hl as [-> | [i ->]], Ho as [-> | [j ->]]; cbn [LimitOffsetClause SqlServer.dialect];
    [by left|right..].
  - change (closing (" offset " +:+ (criteriaPlaceholder j +:+ " rows"))). closing_text.
    apply calm_app; [apply calm_placeholder|apply Hrows; auto|done].
  - change (closing (" offset 0 rows fetch next " +:+ (criteriaPlaceholder i +:+ " rows only"))).
    closing_text. apply calm_app; [apply calm_placeholder|apply Hrows; auto|done].
  - change (closing (" offset " +:+ (criteriaPlaceholder j +:+ (" rows fetch next " +:+
      (criteriaPlaceholder i +:+ " rows only"))))). closing_text.
    apply calm_app; [apply calm_placeholder| |done].
    apply (calm_after " rows fetch next "); [calm_text|].
    apply calm_app; [apply calm_placeholder|apply Hrows; auto|done].
Qed.

(** * What a computation leaves bound, and what its text denotes *)

Definition named (bound : list NamedArg) : Prop :=
  arg_Name <$> bound = criteriaName <$> seq 0 (length bound).

(** [leaves m Q]: [m] only adds arguments, under the next names, and [Q] holds of
    all that is bound and the result. *)
Definition leaves {A} (m : SM criteria_binding A) (Q : list NamedArg -> A -> Prop) : Prop :=
  forall b b' a, m b = (b', Ok a) -> named (cb_bound b) ->
    (exists new, cb_bound b' = cb_bound b ++ new) /\ named (cb_bound b') /\ Q (cb_bound b') a.

(** What holds still holds when more is bound. *)
Definition stable {A} (Q : list NamedArg -> A -> Prop) : Prop :=
  forall bound more a, Q bound a -> Q (bound ++ more) a.

Lemma leaves_lift {A} (r : result A) (Q : list NamedArg -> A -> Prop) :
  (forall a bound, r = Ok a -> Q bound a) -> leaves (slift r) Q.
Proof.
  intros H b b' a [= <- ->] Hn. split; [exists []; by rewrite app_nil_r|]. auto.
Qed.

Lemma leaves_ret {A} (a : A) (Q : list NamedArg -> A -> Prop) :
  (forall bound, Q bound a) -> leaves (sret a) Q.
Proof. intros H. apply (leaves_lift (Ok a)). intros a' bound [= <-]. apply H. Qed.

Lemma leaves_throw {A} e (Q : list NamedArg -> A -> Prop) : leaves (sthrow e) Q.
Proof. by intros b b' a [= ]. Qed.

Lemma leaves_bind {A B} (m : SM criteria_binding A) (k : A -> SM criteria_binding B) Q R :
  leaves m Q -> stable Q -> (forall a, leaves (k a) (fun bound c => Q bound a -> R bound c)) ->
  leaves (sbind m k) R.
Proof.
  intros Hm Hq Hk b b' c H Hn. apply sbind_Ok in H as (b1 & a & H1 & H2).
  destruct (Hm _ _ _ H1 Hn) as ((n1 & E1) & N1 & Q1).
  destruct (Hk a _ _ _ H2 N1) as ((n2 & E2) & N2 & R2).
  split; [exists (n1 ++ n2); by rewrite E2, E1, app_assoc|]. split; [done|].
  apply R2. rewrite E2. by apply Hq.
Qed.

Lemma leaves_lift_bind {A B} (r : result A) (k : A -> SM criteria_binding B) R :
  (forall a, r = Ok a -> leaves (k a) R) -> leaves (sbind (slift r) k) R.
Proof.
  intros H. destruct r as [a|e]; [exact (H a eq_refl)|by intros b b' c [= ]].
Qed.

Lemma leaves_weaken {A} (m : SM criteria_binding A) (Q R : list NamedArg -> A -> Prop) :
  (forall bound a, Q bound a -> R bound a) -> leaves m Q -> leaves m R.
Proof. intros H Hm b b' a E Hn. destruct (Hm _ _ _ E Hn) as (? & ? & ?). auto. Qed.

Lemma leaves_mapS {X A} (f : X -> SM criteria_binding A) l (Q : X -> list NamedArg -> A -> Prop) :
  (forall x, stable (Q x)) -> Forall (fun x => leaves (f x) (Q x)) l ->
  leaves (mapS f l) (fun bound ys => Forall2 (fun x y => Q x bound y) l ys).
Proof.
  intros Hq. induction 1 as [|x l Hx Hl IH]; [apply leaves_ret; constructor|].
  eapply leaves_bind; [exact Hx|apply Hq|]. intros a.
  eapply leaves_bind; [exact IH| |].
  - intros bound more ys H. eapply Forall2_impl; [exact H|]. intros; by apply Hq.
  - intros ys. apply leaves_ret. intros bound Hys Ha. by constructor.
Qed.

(** ** The session's arguments by name *)

Lemma criteriaName_inj i j : criteriaName i = criteriaName j -> i = j.
Proof. intros H. apply app_inj_l, Itoa_inj in H. lia. Qed.

Lemma bound_at_next bound bv more :
  named bound ->
  bound_at (bound ++ mkNamedArg (criteriaName (length bound)) bv :: more)
    (criteriaName (length bound)) = Some bv.
Proof.
  intros Hn. unfold bound_at. set (n := criteriaName (length bound)).
  assert (Hf : forall a, a ∈ bound -> arg_Name a <> n).
  { intros a Ha. apply (list_elem_of_fmap_2 arg_Name) in Ha. unfold named in Hn. rewrite Hn in Ha.
    apply list_elem_of_fmap in Ha as (i & -> & Hi%elem_of_seq). intros H%criteriaName_inj. lia. }
  clearbody n. clear Hn. induction bound as [|a bound IH]; simpl.
  - by rewrite bool_decide_true.
  - rewrite bool_decide_false by (apply Hf; by left). apply IH. intros x Hx. apply Hf. by right.
Qed.

Lemma operand_column {V} (read : Bound -> option V) row args w : column_word w -> operand read row args w = row w.
Proof.
  intros [Hw Hh _]. destruct Hw as [(c & k & Hb) _ _]. destruct w as [|x w]; [done|].
  injection Hb as -> <-. simpl in *. inversion Hh; subst. destruct (Ascii.eqb_spec c "@"%char); done.
Qed.

(** ** Operators *)

Lemma operator_lexed op : op ∈ operators -> lexed op [TWord op].
Proof.
  intros H. apply word_lexed.
  repeat (apply elem_of_cons in H as [->|H];
    [split; [by eexists _, _|by repeat constructor|apply not_keyword; reflexivity]|]).
  by apply not_elem_of_nil in H.
Qed.

Lemma like_lexed : lexed "like" [TKey "like"].
Proof. intros k Hk. rewrite lex_solid by (done || by repeat constructor). reflexivity. Qed.

(** * The renderer's text denotes the criteria's meaning *)

Section Denotes.
Context (d : Dialect) `{!QuotedWords d}.
Context {V : Type} (compare : string -> V -> V -> option bool) (read : Bound -> option V).
Context (TD : Value -> option ColumnType -> string -> result Value) (q : string).
Context (stored : Value -> option ColumnType -> Bound).
(** The label a conversion is given appears in its errors only. *)
Hypothesis Hstored : forall v ct label b, ToParameter TD v ct label = Ok b -> b = stored v ct.
Context (row : string -> option V).

Abbreviation bind := (bind_criteria TD q).

Definition denotes (bound : list NamedArg) (text : string) (truth : option bool) : Prop :=
  exists ts e, lexed text ts /\ reads ts e /\
    forall more, eval compare read row (bound ++ more) e = truth.

Lemma denotes_stable truth : stable (fun bound text => denotes bound text truth).
Proof.
  intros bound more text (ts & e & H1 & H2 & H3). exists ts, e. split; [done|]. split; [done|].
  intros more'. by rewrite <- app_assoc.
Qed.

(** A placeholder that stands for [x] whatever is bound later. *)
Definition stands (x : option V) (bound : list NamedArg) (w : string) : Prop :=
  word w /\ forall more, operand read row (bound ++ more) w = x.

Lemma stands_stable x : stable (stands x).
Proof. intros bound more w [H1 H2]. split; [done|]. intros more'. by rewrite <- app_assoc. Qed.

Lemma leaves_bind_criteria v p :
  leaves (bind v (Some p)) (stands (read (stored v (Some (ColumnType_ p))))).
Proof.
  intros b b' t H Hn. unfold bind_criteria in H. cbv zeta in H.
  destruct (_ !! _) as [label|]; [|done].
  destruct (ToParameter _ _ _ _) as [bv|] eqn:Eb; [|done]. injection H as <- <-. cbn [cb_bound].
  split; [by eexists|]. split.
  { unfold named in *. rewrite fmap_app, Hn, length_app, seq_app, fmap_app. done. }
  split; [apply placeholder_word|]. intros more.
  change (operand read row ?a (criteriaPlaceholder ?i)) with (bound_at a (criteriaName i) ≫= read).
  rewrite <- app_assoc. cbn [app]. rewrite bound_at_next by done.
  apply Hstored in Eb as ->. done.
Qed.

(** Paging binds too, and says nothing. *)
Lemma leaves_bind_any v p : leaves (bind v p) (fun _ _ => True).
Proof.
  intros b b' t H Hn. unfold bind_criteria in H. cbv zeta in H.
  destruct (_ !! _) as [label|]; [|done].
  destruct (ToParameter _ _ _ _) as [bv|] eqn:Eb; [|done]. injection H as <- <-. cbn [cb_bound].
  split; [by eexists|]. split; [|done].
  unfold named in *. by rewrite fmap_app, Hn, length_app, seq_app, fmap_app.
Qed.

Section Predicate.
Context (m : EntityMap) (qn alias : string).
Hypothesis Hm : sql_map m.
Hypothesis Ha : root_alias alias.

Definition cell (p : PropertyMap) : option V := row (aliasQualifiedColumn d alias (ColumnName p)).

Abbreviation mean := (meaning compare read stored m cell).

Lemma Resolve_name property q' p : Resolve m property qn = Ok p -> Resolve m property q' = Ok p.
Proof.
  unfold Resolve. destruct (List.find _ _); [done|]. by destruct (List.filter _ _) as [|? [|]].
Qed.

Lemma resolved_value property p : Resolve m property qn = Ok p -> value_of m cell property = cell p.
Proof. intros H. unfold value_of. by rewrite (Resolve_name _ _ _ H). Qed.

Lemma resolved_param property p v :
  Resolve m property qn = Ok p ->
  param_of read stored m property v = read (stored v (Some (ColumnType_ p))).
Proof. intros H. unfold param_of. by rewrite (Resolve_name _ _ _ H). Qed.

Lemma resolved_column property col :
  column d m property qn alias = Ok col ->
  column_word col /\ forall args, operand read row args col = value_of m cell property.
Proof.
  intros H. apply bind_Ok in H as (p & Hp & H). apply Ok_inj in H as <-.
  assert (Hw : column_word (aliasQualifiedColumn d alias (ColumnName p))).
  { apply column_text; [done..|]. by eapply sql_mapped, Resolve_mapped. }
  split; [done|]. intros args. rewrite operand_column by done. by erewrite resolved_value.
Qed.

Lemma denotes_null bound col property negated :
  column d m property qn alias = Ok col ->
  denotes bound (if negated : bool then col +:+ " is not null" else col +:+ " is null")
    (Some (xorb negated (is_null (value_of m cell property)))).
Proof.
  intros [[Hw _ _] Hv]%resolved_column. exists (TWord col :: if negated then [TKey "is"; TKey "not"; TKey "null"]
    else [TKey "is"; TKey "null"]), (EIsNull col negated).
  split; [|split].
  - pose proof (word_lexed _ Hw) as Hl. destruct negated; apply (lexed_app _ [TWord col]); try done.
    + intros k Hk. change (bytes " is not null") with (bytes " is not " ++ bytes "null").
      rewrite <- app_assoc. change (lex [] (bytes " is not " ++ ?x)) with (TKey "is" :: TKey "not" :: lex [] x).
      rewrite lex_solid by (done || by repeat constructor). done.
    + intros k Hk. change (bytes " is null") with (bytes " is " ++ bytes "null").
      rewrite <- app_assoc. change (lex [] (bytes " is " ++ ?x)) with (TKey "is" :: lex [] x).
      rewrite lex_solid by (done || by repeat constructor). done.
  - apply reads_atom; [done|done|done|]. by destruct negated.
  - intros more. simpl. rewrite Hv. by destruct (value_of m cell property), negated.
Qed.

Lemma denotes_compare bound col property op x w :
  op ∈ "like" :: operators -> column d m property qn alias = Ok col -> stands x bound w ->
  denotes bound (col +:+ " " +:+ op +:+ " " +:+ w) (compare3 compare op (value_of m cell property) x).
Proof.
  intros Hop [[Hw _ Hone] Hv]%resolved_column [Hww Hx].
  set (t := if decide (op = "like") then TKey "like" else TWord op).
  exists [TWord col; t; TWord w], (ECompare op col w).
  assert (Ht : lexed op [t]).
  { subst t. apply elem_of_cons in Hop as [-> | Hop]; [apply like_lexed|].
    destruct (decide (op = "like")) as [->|]; [apply like_lexed|by apply operator_lexed]. }
  split; [|split].
  - apply (lexed_app _ [TWord col]); [by apply word_lexed| |done].
    apply (opens_app " " []); [done|]. apply (lexed_app _ [t]); [done| |done].
    apply (opens_app " " []); [done|by apply word_lexed].
  - apply reads_atom; [done|done|done|]. intros rest. subst t.
    destruct (decide (op = "like")) as [->|Hl].
    + reflexivity.
    + cbn [app parse_atom]. rewrite decide_True.
      * unfold comparison. rewrite !decide_False by tauto. done.
      * by apply elem_of_cons in Hop as [?|?].
  - intros more. simpl. by rewrite Hv, Hx.
Qed.

Lemma parse_items_words ws rest :
  ws <> [] -> parse_items (join_tokens [TComma] ((fun w => [TWord w]) <$> ws) ++ TClose :: rest) = Some (ws, rest).
Proof.
  induction ws as [|w ws IH]; [done|]. intros _. destruct ws as [|w2 ws]; [done|].
  rewrite fmap_cons, join_tokens_cons by done.
  change (([TWord w] ++ [TComma] ++ ?x) ++ TClose :: rest) with (TWord w :: TComma :: (x ++ TClose :: rest)).
  cbn [parse_items]. by rewrite IH.
Qed.

Lemma denotes_in bound col property xs ws :
  column d m property qn alias = Ok col -> ws <> [] -> Forall2 (fun x w => stands x bound w) xs ws ->
  denotes bound (col +:+ " in (" +:+ Join ws ", " +:+ ")")
    (fold_right (fun x => or3 (compare3 compare "=" (value_of m cell property) x)) (Some false) xs).
Proof.
  intros [[Hw _ _] Hv]%resolved_column Hne Hws.
  set (items := join_tokens [TComma] ((fun w => [TWord w]) <$> ws)).
  exists (TWord col :: TKey "in" :: TOpen :: items ++ [TClose]), (EIn col ws).
  split; [|split].
  - apply (lexed_app _ [TWord col]); [by apply word_lexed| |done].
    apply (opens_app " in (" [TKey "in"; TOpen]); [done|].
    apply lexed_app; [|by apply opens_lexed|done]. subst items.
    apply (lexed_join _ _ ", " [TComma]); [|done|done|done].
    apply Forall2_fmap_r. clear Hne Hv. induction Hws as [|x w xs ws [Hww _] Hws IH]; constructor;
      [by apply word_lexed|done].
  - apply reads_atom; [done|done|done|]. intros rest. cbn [app]. rewrite <- app_assoc. cbn [app].
    unfold parse_atom. rewrite decide_False, decide_True by done. subst items.
    by rewrite parse_items_words.
  - intros more. cbn [eval]. rewrite Hv. clear Hne.
    induction Hws as [|x w xs ws [_ Hx] Hws IH]; [done|]. simpl. by rewrite Hx, IH.
Qed.

Lemma eval_chain (conj : bool) es truths args :
  es <> [] -> Forall2 (fun e t => eval compare read row args e = t) es truths ->
  eval compare read row args (chain (if conj then EAnd else EOr) es)
  = if conj then fold_right and3 (Some true) truths else fold_right or3 (Some false) truths.
Proof.
  intros Hne H. induction H as [|e t es truths He H IH]; [done|].
  destruct H as [|e2 t2 es truths He2 H].
  - simpl. rewrite He. by destruct conj, t as [[]|].
  - rewrite chain_cons by done. specialize (IH ltac:(done)).
    destruct conj; cbn [eval]; rewrite IH, He; done.
Qed.

Lemma denotes_composite bound op texts truths :
  op = "and" \/ op = "or" -> texts <> [] -> Forall2 (fun t text => denotes bound text t) truths texts ->
  exists ts e, lexed ("(" +:+ Join texts (" " +:+ op +:+ " ") +:+ ")") ts /\ reads ts e /\
    forall more, eval compare read row (bound ++ more) e
      = if decide (op = "and") then fold_right and3 (Some true) truths else fold_right or3 (Some false) truths.
Proof.
  intros Hop Hne H.
  assert (Hall : exists tss es, Forall2 lexed texts tss /\ Forall2 reads tss es /\
            forall more, Forall2 (fun e t => eval compare read row (bound ++ more) e = t) es truths).
  { clear Hne. induction H as [|t text truths texts (ts & e & H1 & H2 & H3) H IH].
    - exists [], []. repeat split; constructor.
    - destruct IH as (tss & es & I1 & I2 & I3). exists (ts :: tss), (e :: es).
      split; [by constructor|]. split; [by constructor|]. intros more. by constructor. }
  destruct Hall as (tss & es & H1 & H2 & H3).
  assert (Htss : tss <> []) by by intros ->; inversion H1; subst.
  assert (Hes : es <> []) by by intros ->; inversion H2; subst.
  exists (TOpen :: join_tokens [TKey op] tss ++ [TClose]),
    (chain (if decide (op = "and") then EAnd else EOr) es).
  split; [|split; [by apply reads_composite|]].
  - apply (opens_app "(" [TOpen]); [done|].
    apply lexed_app; [|by apply opens_lexed|done].
    apply lexed_join; [done| |by destruct op|by destruct op].
    by destruct Hop as [-> | ->].
  - intros more. specialize (H3 more). destruct (decide (op = "and")).
    + by apply (eval_chain true).
    + by apply (eval_chain false).
Qed.

Lemma leaves_column property (k : string -> SM criteria_binding string) Q :
  (forall col, column d m property qn alias = Ok col -> leaves (k col) Q) ->
  leaves (do! col <- slift (column d m property qn alias) in k col) Q.
Proof. apply leaves_lift_bind. Qed.

Lemma leaves_texts cs :
  Forall (fun c => leaves (renderCriteria d bind c m qn alias) (fun bound text => denotes bound text (mean c))) cs ->
  leaves (mapS (fun c => renderCriteria d bind c m qn alias) cs)
    (fun bound texts => Forall2 (fun t text => denotes bound text t) (map mean cs) texts).
Proof.
  intros H. eapply leaves_weaken; [|apply (leaves_mapS _ _ (fun c bound text => denotes bound text (mean c)))].
  - intros bound texts Ht. by apply Forall2_fmap_l.
  - intros c. apply denotes_stable.
  - exact H.
Qed.

Lemma denotes_const bound (b : bool) : denotes bound (if b then "1 = 1" else "1 = 0") (Some b).
Proof.
  exists [TWord "1"; TWord "="; TWord (if b then "1" else "0")], (EConst b). split; [|split; [|done]].
  - intros k Hk. destruct b.
    + change (bytes "1 = 1") with (bytes "1 = " ++ bytes "1").
      rewrite <- app_assoc. change (lex [] (bytes "1 = " ++ ?x)) with (TWord "1" :: TWord "=" :: lex [] x).
      rewrite lex_solid by (done || by repeat constructor). done.
    + change (bytes "1 = 0") with (bytes "1 = " ++ bytes "0").
      rewrite <- app_assoc. change (lex [] (bytes "1 = " ++ ?x)) with (TWord "1" :: TWord "=" :: lex [] x).
      rewrite lex_solid by (done || by repeat constructor). done.
  - apply reads_atom; [done|done|done|]. by destruct b.
Qed.

Lemma denotes_not bound text truth : denotes bound text truth -> denotes bound ("not " +:+ text) (not3 truth).
Proof.
  intros (ts & e & H1 & H2 & H3). exists (TKey "not" :: ts), (ENot e). split; [|split].
  - by apply (opens_app "not " [TKey "not"]).
  - by apply reads_not.
  - intros more. simpl. by rewrite H3.
Qed.

Lemma leaves_in property v vs :
  leaves (renderCriteria d bind (InList property (Some v :: vs)) m qn alias)
    (fun bound text => denotes bound text (mean (InList property (Some v :: vs)))).
Proof.
  cbn [renderCriteria]. destruct (existsb _ _); [apply leaves_throw|]. cbn [meaning].
  apply leaves_lift_bind. intros pm Hpm. apply leaves_column. intros col Hcol.
  change (omap id (Some v :: vs)) with (v :: omap id vs). set (xs := v :: omap id vs).
  eapply leaves_bind.
  - apply (leaves_mapS _ _ (fun v => stands (read (stored v (Some (ColumnType_ pm)))))).
    + intros x. apply stands_stable.
    + apply Forall_forall. intros x _. apply leaves_bind_criteria.
  - intros bound more ws H. eapply Forall2_impl; [exact H|]. intros; by apply stands_stable.
  - intros ws. apply leaves_ret. intros bound Hws.
    assert (Hne : ws <> []) by by intros ->; inversion Hws.
    pose proof (denotes_in bound col property ((fun v => read (stored v (Some (ColumnType_ pm)))) <$> xs) ws Hcol Hne) as H.
    rewrite foldr_fmap in H. erewrite foldr_ext; [apply H| |done|done].
    + by apply Forall2_fmap_l.
    + intros x acc. by erewrite resolved_param by exact Hpm.
Qed.

Lemma leaves_render c :
  plain c -> leaves (renderCriteria d bind c m qn alias) (fun bound text => denotes bound text (mean c)).
Proof.
  induction c as [p op v|p vs|p n|op cs IH|c IH|ps ast _| |? ? ? ? ? ? ? _]
    using Criteria_tree_ind with (Q := fun _ => True); try done; intros Hc.
  - inversion Hc as [? ? ? Hop Hnil| | | | |]; subst. cbn [renderCriteria]. destruct v as [v|].
    + apply leaves_lift_bind. intros pm Hpm. apply leaves_column. intros col Hcol.
      eapply leaves_bind; [apply leaves_bind_criteria|apply stands_stable|]. intros w.
      apply leaves_ret. intros bound Hw. cbn [meaning null_value mbind option_bind].
      assert (Hv : is_nil v = false) by by destruct v. rewrite Hv.
      erewrite resolved_param by exact Hpm. by apply denotes_compare.
    + apply leaves_column. intros col Hcol. apply leaves_lift. intros t bound Ht.
      cbn [meaning null_value]. destruct (decide (op = "=")) as [->|].
      { apply Ok_inj in Ht as <-. pose proof (denotes_null bound col p false Hcol) as H.
        by rewrite xorb_false_l in H. }
      destruct (decide (op = "<>")) as [->|]; [|done].
      apply Ok_inj in Ht as <-. by apply (denotes_null bound col p true).
  - destruct vs as [|[v|] vs]; [|apply leaves_in|intros b b' t; done].
    apply leaves_lift_bind. intros _ _. apply leaves_ret. intros bound. apply (denotes_const bound false).
  - cbn [renderCriteria]. apply leaves_column. intros col Hcol. apply leaves_ret. intros bound.
    by apply denotes_null.
  - inversion Hc as [| | |? ? Hop Hcs| |]; subst. destruct cs as [|c cs]; cbn [renderCriteria meaning].
    { apply leaves_ret. intros bound. destruct (decide (op = "and"));
        [apply (denotes_const bound true)|apply (denotes_const bound false)]. }
    eapply leaves_bind; [apply leaves_texts| |].
    + rewrite !Forall_forall in *. auto.
    + intros bound more texts H. eapply Forall2_impl; [exact H|]. intros ??. apply denotes_stable.
    + intros texts. apply leaves_ret. intros bound H. apply denotes_composite; [done| |done].
      by intros ->; inversion H.
  - inversion Hc; subst. cbn [renderCriteria meaning]. eapply leaves_bind; [by apply IH|apply denotes_stable|].
    intros text. apply leaves_ret. intros bound. apply denotes_not.
  - inversion Hc.
Qed.

Lemma closing_order os t : order_by d m qn alias os = Ok t -> closing t.
Proof.
  unfold order_by. destruct os as [|o os]; [intros [= <-]; by left|].
  intros (parts & Hp & H)%bind_Ok. apply Ok_inj in H as <-. closing_text.
  apply calm_join; [|calm_text|done|done]. apply mapR_Ok in Hp. apply Forall_forall. intros s Hs.
  apply list_elem_of_lookup in Hs as [i Hi].
  destruct (Forall2_lookup_r _ _ _ _ _ Hp Hi) as (o' & _ & Ho).
  apply bind_Ok in Ho as (p & Hr & H). apply Ok_inj in H as <-.
  assert (Hc : calm (aliasQualifiedColumn d alias (ColumnName p))).
  { apply calm_column; [done..|]. by eapply sql_mapped, Resolve_mapped. }
  destruct (or_Order o'); [by rewrite app_empty_r|].
  apply calm_app; [done| |done]. apply (calm_after " " "desc"); [calm_text|].
  exists [TKey "desc"]. split; [|calm_quiet].
  intros k Hk. rewrite lex_solid by (done || by repeat constructor). done.
Qed.

End Predicate.

(** ** A whole statement *)

Lemma reads_or ts e rest :
  reads ts e -> next_key "and" rest = None -> next_key "or" rest = None ->
  parse (3 * length (ts ++ rest) + 2) LOr (ts ++ rest) = Some (e, rest).
Proof.
  intros He Hand Hor. rewrite length_app.
  pose proof (parse_or (3 * (length ts + length rest) + 2) [ts] [e] rest) as H. apply H; try done.
  - by repeat constructor.
  - cbn [join_tokens]. lia.
Qed.

Lemma quiet_after ts us : quiet ts -> after_where (ts ++ us) = after_where us.
Proof.
  induction ts as [|t ts IH]; intros H; [done|]. simpl.
  apply not_elem_of_cons in H as [Ht H]. rewrite decide_False by done. by apply IH.
Qed.

(** Calm text, a predicate and closing text are read as the predicate. *)
Lemma read_statement pre ts e text post :
  calm pre -> boundary (bytes post) -> lexed text ts -> reads ts e -> closing post ->
  read_where (pre +:+ " where " +:+ text +:+ post) = Some e.
Proof.
  intros (pts & Hpre & Hq) Hb Ht He Hpost. unfold read_where.
  assert (Hend : next_key "and" (lex [] (bytes post)) = None /\ next_key "or" (lex [] (bytes post)) = None /\
            ends_clause (lex [] (bytes post)) = true).
  { destruct Hpost as [-> | (_ & k & us & Hl & Hk & _)]; [done|].
    specialize (Hl [] I). rewrite !app_nil_r in Hl. rewrite Hl. simpl.
    rewrite !decide_False, bool_decide_true; [done|done|..]; intros ->; by repeat
      (apply elem_of_cons in Hk as [Hk|Hk]; [discriminate|]); apply not_elem_of_nil in Hk. }
  destruct Hend as (E1 & E2 & E3).
  assert (Hlex : lex [] (bytes (pre +:+ " where " +:+ text +:+ post))
            = pts ++ TKey "where" :: ts ++ lex [] (bytes post)).
  { rewrite bytes_app, Hpre by done. f_equal.
    change (bytes (" where " +:+ (text +:+ post))) with (bytes " where " ++ bytes (text +:+ post)).
    change (lex [] (bytes " where " ++ ?x)) with (TKey "where" :: lex [] x). f_equal.
    rewrite bytes_app, Ht by done. done. }
  rewrite Hlex, quiet_after by done. cbn [after_where]. rewrite decide_True by done.
  rewrite (reads_or ts e) by done. simpl. by rewrite E3.
Qed.

Lemma read_no_where pre post :
  calm pre -> boundary (bytes post) -> closing post -> read_where (pre +:+ post) = Some (EConst true).
Proof.
  intros (pts & Hpre & Hq) Hb Hpost. unfold read_where. rewrite bytes_app, Hpre, quiet_after by done.
  destruct Hpost as [-> | (_ & k & us & Hl & _ & Hq2)]; [done|].
  specialize (Hl [] I). rewrite !app_nil_r in Hl. rewrite Hl.
  rewrite <- (app_nil_r (TKey k :: us)), quiet_after by done. done.
Qed.

End Denotes.

Lemma closing_boundary s : closing s -> boundary (bytes s).
Proof. by intros [-> | [? _]]. Qed.

Lemma leaves_paging (d : Dialect) `{!ReadingLaws d} TD q os l o :
  leaves (paging d (bind_criteria TD q) os l o) (fun _ t => closing t).
Proof.
  assert (Hopt : forall x, leaves (bind_opt (bind_criteria TD q) x) (fun _ t => page_word t)).
  { intros [x|]; simpl; [|apply leaves_ret; by left]. intros b b' t H Hn.
    destruct (leaves_bind_any TD q _ _ _ _ _ H Hn) as (H1 & H2 & _). split; [done|]. split; [done|].
    right. unfold bind_criteria in H. cbv zeta in H.
    destruct (_ !! _) as [label|]; [|done]. destruct (ToParameter _ _ _ _) as [bv|]; [|done].
    injection H as _ <-. by eexists. }
  assert (H : leaves (do! limitParameter <- bind_opt (bind_criteria TD q) l in
      do! offsetParameter <- bind_opt (bind_criteria TD q) o in
      let clause := LimitOffsetClause d limitParameter offsetParameter in
      sret ((if bool_decide (os = []) && PagingRequiresOrderBy d
             then " order by (select null)" else "") +:+
            (if decide (clause = "") then "" else " " +:+ clause))) (fun _ t => closing t)).
  { eapply leaves_bind; [apply Hopt|by intros bound more t|]. intros lp. eapply leaves_bind; [apply Hopt|by intros bound more t|].
    intros op. apply leaves_ret. intros _ Ho Hl. cbv zeta. apply closing_app.
    - destruct (_ && _); [|by left]. right. split; [done|].
      exists "order", (tail (lex [] (bytes " order by (select null)"))).
      split; [by apply opens_lexed|]. split; [by left|]. calm_quiet.
    - destruct (decide _); [by left|]. by destruct (rl_paging lp op Hl Ho). }
  destruct l, o; try exact H. apply leaves_ret. by left.
Qed.

(** * The theorem *)

(** A query the reader can follow: names that are identifiers and not keywords,
    the operators of the factories, no subquery, no nil pointer. *)
Record sql_query (ast : SelectAst) : Prop := {
  sq_map : sql_map (sa_Map ast);
  sq_projection : sql_properties (default [] (sa_Projection ast));
  sq_joins : Forall sql_join (sa_Joins ast);
  sq_where : Forall plain (sa_Where ast) }.

Lemma root_alias_ok d where_ joins : root_alias (rootAlias d where_ joins).
Proof. unfold rootAlias. destruct (needsRootAlias _ _ _); [by right|by left]. Qed.

(** The rendering of a whole statement, with whatever it has bound. *)
Lemma leaves_select (d : Dialect) `{!ReadingLaws d} TD
    (stored : Value -> option ColumnType -> Bound) ast q
    {V : Type} (compare : string -> V -> V -> option bool) (read : Bound -> option V) (row : string -> option V) :
  (forall v ct label b, ToParameter TD v ct label = Ok b -> b = stored v ct) ->
  sql_query ast ->
  leaves (SelectSQL d (bind_criteria TD q) ast)
    (fun bound sql => eval compare read row bound <$> read_where sql
      = Some (meaning_all compare read stored (sa_Map ast)
                (cell d row (rootAlias d (sa_Where ast) (sa_Joins ast))) (sa_Where ast))).
Proof.
  intros Hstored [Hm Hp Hj Hw].
  destruct ast as [m w os l o proj joins]. cbn [sa_Map sa_Projection sa_Joins sa_Where] in *.
  set (alias := rootAlias d w joins). pose proof (root_alias_ok d w joins : root_alias alias) as Ha.
  unfold SelectSQL. cbn [sa_Orderings render_select].
  destruct (negative l || negative o); [apply leaves_throw|].
  apply leaves_lift_bind. intros clauses Hcl. fold alias.
  pose proof (calm_select_from d m w proj joins _ clauses Hm Hp Hj Hcl) as Hcalm. fold alias in Hcalm.
  set (sf := select_from d m alias proj joins clauses) in *.
  (* the text of the WHERE clause *)
  set (Q := fun bound wt => exists e, (forall more, eval compare read row (bound ++ more) e
              = meaning_all compare read stored m (cell d row alias) w) /\
            forall post, closing post -> read_where (sf +:+ wt +:+ post) = Some e).
  assert (Hdenoted : forall bound text,
            denotes compare read row bound text (meaning_all compare read stored m (cell d row alias) w) ->
            Q bound (" where " +:+ text)).
  { intros bound text (ts & e & H1 & H2 & H3). exists e. split; [done|]. intros post Hpost.
    change (read_where (sf +:+ " where " +:+ (text +:+ post)) = Some e).
    eapply read_statement; eauto. by apply closing_boundary. }
  pose proof (leaves_render d compare read TD q stored Hstored row m (queryName m) alias Hm Ha) as Hleaves.
  eapply (leaves_bind _ _ Q).
  - destruct w as [|c [|c2 w]].
    + apply leaves_ret. intros bound. exists (EConst true). split; [done|]. intros post Hpost.
      apply read_no_where; [done|by apply closing_boundary|done].
    + inversion Hw; subst. eapply leaves_bind; [by apply Hleaves|apply denotes_stable|].
      intros text. apply leaves_ret. intros bound Hd. apply Hdenoted. unfold meaning_all. simpl.
      destruct Hd as (ts & e & D1 & D2 & D3). exists ts, e. split; [done|]. split; [done|].
      intros more. rewrite D3. by destruct (meaning _ _ _ _ _ c) as [[]|].
    + eapply leaves_bind; [eapply leaves_texts| |].
      * eapply Forall_impl; [exact Hw|]. exact Hleaves.
      * intros bound more texts H. eapply Forall2_impl; [exact H|]. intros ??. apply denotes_stable.
      * intros texts. apply leaves_ret. intros bound H. apply (Hdenoted bound ("(" +:+ Join texts " and " +:+ ")")).
        apply (denotes_composite compare read row bound "and"); [by left| |done]. by intros ->; inversion H.
  - intros bound more wt (e & H1 & H2). exists e. split; [|done]. intros more'. by rewrite <- app_assoc.
  - intros wt. apply leaves_lift_bind. intros order Hord.
    apply (closing_order d m _ alias Hm Ha) in Hord.
    eapply (leaves_bind _ _ (fun _ t => closing t)); [by apply leaves_paging|by intros bound more t|]. intros page. apply leaves_ret.
    intros bound Hpage (e & H1 & H2). specialize (H1 []). rewrite app_nil_r in H1.
    rewrite H2 by by apply closing_app. simpl. by rewrite H1.
Qed.

(** C1. A rendered query whose criteria hold no subquery and no nil pointer means
    what its criteria say: SQL's reading of the statement's WHERE clause - [not] over [and] over [or], parentheses, three
    truth values - is, on every row and with the arguments the session bound,
    the truth value the criteria have when each comparison is taken between the
    row's column and the value given, and an equality with null asks whether the
    column is null.  So composition cannot be misread, no
    value reaches the text, and every placeholder stands for its own value.  The
    conversion may look at the value and the column's type, not at the label it
    puts in its errors. *)
Theorem rendered_where_means (d : Dialect) `{!ReadingLaws d} TD
    (stored : Value -> option ColumnType -> Bound) cache ast q cache' sql args
    {V : Type} (compare : string -> V -> V -> option bool) (read : Bound -> option V) (row : string -> option V) :
  (forall v ct label b, ToParameter TD v ct label = Ok b -> b = stored v ct) ->
  sql_query ast ->
  renderSelect d TD cache ast q = (cache', Ok (sql, args)) ->
  eval compare read row args <$> read_where sql
  = Some (meaning_all compare read stored (sa_Map ast)
            (cell d row (rootAlias d (sa_Where ast) (sa_Joins ast))) (sa_Where ast)).
Proof.
  intros Hstored Hq H. unfold renderSelect in H.
  destruct (SelectSQL _ _ _ _) as [b sqlText] eqn:E. injection H as _ H.
  apply bind_Ok in H as (text & -> & H). injection H as <- <-.
  by destruct (leaves_select d TD stored ast q compare read row Hstored Hq _ _ _ E) as (_ & _ & HQ).
Qed.

(** A query on SQL Server with a join and a page, its values integers. *)
Definition reading_select : SelectAst :=
  mkSelect sample_map
    [Or [Eq "Name" (Some (VInt KInt64 7)); Not (And [Gt "ID" (Some (VInt KInt64 1)); IsNull "Name"])];
     In_ "ID" [Some (VInt KInt64 3); Some (VInt KInt64 4)]]
    [mkOrdering "Name" Desc] (Some 10%Z) None None
    [mkSelectJoin sample_map "r0" "" [mkJoinPair "ID" "ID"] true].

Definition stored_plain (v : Value) (ct : option ColumnType) : Bound :=
  if is_nil v then BoundNull match ct with Some c => TypedNull c | None => UntypedNil end
  else BoundValue v.

Definition compare_integers (op : string) (x y : Z) : option bool :=
  if decide (op = "=") then Some (x =? y)%Z else if decide (op = ">") then Some (y <? x)%Z else None.
Definition read_integer (b : Bound) : option Z :=
  match b with BoundValue (VInt _ z) => Some z | _ => None end.
(** the row with id 3 and no name *)
Definition sample_row (column : string) : option Z :=
  if decide (column = "t.[id]") then Some 3%Z else None.

Lemma sample_sql_map : sql_map sample_map.
Proof.
  assert (H : forall n, n ∈ ["users"; "id"; "name"; "version"] -> sql_name n).
  { intros n Hn. repeat (apply elem_of_cons in Hn as [->|Hn];
      [split; [split; [by eexists _, _|by repeat constructor]|];
       intros H; by repeat (apply elem_of_cons in H as [H|H]; [discriminate|]); apply not_elem_of_nil in H|]).
    by apply not_elem_of_nil in Hn. }
  split; [apply H; by left|]. repeat constructor; apply H; set_solver.
Qed.

Lemma rendered_where_means_witness :
  exists cache' sql args,
    renderSelect SqlServer.dialect echo_value ∅ reading_select "User criteria" = (cache', Ok (sql, args)) /\
    eval compare_integers read_integer sample_row args <$> read_where sql = Some None /\
    meaning_all compare_integers read_integer stored_plain sample_map
      (cell SqlServer.dialect sample_row "t") (sa_Where reading_select) = None.
Proof.
  destruct (renderSelect SqlServer.dialect echo_value ∅ reading_select "User criteria") as [c r] eqn:E.
  pose proof E as E'. vm_compute in E'. injection E' as Hc Hr. subst r.
  eexists c, _, _. split; [reflexivity|]. split; [|by vm_compute].
  refine (eq_trans (rendered_where_means SqlServer.dialect echo_value stored_plain ∅ reading_select
    "User criteria" c _ _ compare_integers read_integer sample_row _ _ E) _).
  - intros v ct l b. unfold ToParameter, echo_value. simpl. intros [= <-]. by destruct v.
  - split; [apply sample_sql_map|constructor| |].
    + constructor; [|constructor]. split; [apply sample_sql_map|].
      split; [split; [by eexists _, _|by repeat constructor]|].
      intros H. by repeat (apply elem_of_cons in H as [H|H]; [discriminate|]); apply not_elem_of_nil in H.
    + assert (Hop : forall op, op = "=" \/ op = ">" -> op ∈ "like" :: operators).
      { intros op [-> | ->]; do 2 (try (left; reflexivity); right); repeat (try (left; reflexivity); right). }
      constructor; [|constructor; [apply plain_in|constructor]].
      * apply plain_composite; [by right|]. constructor; [apply plain_comparison; [by apply Hop; left|done]|].
        constructor; [|constructor]. apply plain_negation, plain_composite; [by left|].
        constructor; [apply plain_comparison; [by apply Hop; right|done]|].
        constructor; [apply plain_null|constructor].
      * by intros [H|[H|H%not_elem_of_nil]%elem_of_cons]%elem_of_cons.
  - vm_compute. reflexivity.
Defined.

(** A nil pointer given as a value is not taken for a null: the renderer binds it,
    so that [Eq] on a null column is unknown where the criteria ask for [is null]. *)
Definition nil_pointer_select : SelectAst :=
  mkSelect sample_map [Eq "Name" (Some VNil)] [] None None None [].

Lemma nil_pointer_is_not_is_null :
  exists cache' sql args,
    renderSelect Sqlite.dialect echo_value ∅ nil_pointer_select "User criteria" = (cache', Ok (sql, args)) /\
    eval compare_integers read_integer (fun _ => None) args <$> read_where sql = Some None /\
    meaning_all compare_integers read_integer stored_plain sample_map
      (cell Sqlite.dialect (fun _ => None) "") (sa_Where nil_pointer_select) = Some true.
Proof. eexists _, _, _. split; [by vm_compute|]. by vm_compute. Qed.
