(* ===== verification/Tracker.v ===== *)
(** The identity map of a tracked session (tracker.go): one instance per entity
    type and key, one key per instance.

    A tracked entry is a shared mutable object: the map's lists, the pointer
    index and the undo journal hold the same entry.  Its registration number is
    its identity, so the lists and the index hold numbers and [objects] is the
    store of entries, forgotten ones included (a rollback restores them).
    A Go index out of range or failed assertion is [Panic]; the theorems show
    that none happens.

    Snapshots are computed in [Instances.v], which has the instances; an entry
    carries its own. *)
From S2P Require Import Prelude GoStrings Core Values.

Definition Ptr := nat.

Record trackedEntry := mkEntry {
  te_ptr : Ptr;
  te_m : EntityMap;
  te_key : KeyTuple;
  te_snapshot : list Value;
  te_seq : nat }.

Definition te_type (e : trackedEntry) : GoType := Type_ (te_m e).

Record tracker := mkTracker {
  types : gmap GoType (list nat);
  byPtr : gmap Ptr nat;
  objects : gmap nat trackedEntry;
  nextSeq : nat }.

Definition newTracker : tracker := mkTracker ∅ ∅ ∅ 0.

(** [sort.Search(n, f)]: the loop of the standard library. *)
Fixpoint search_loop (fuel i j : nat) (f : nat -> result bool) : result nat :=
  match fuel with
  | 0 => Ok i
  | S fuel' =>
      if (i <? j)%nat then
        let h := ((i + j) / 2)%nat in
        let* b := f h in
        if (b : bool) then search_loop fuel' i h f else search_loop fuel' (S h) j f
      else Ok i
  end.
(** The interval shrinks at each turn, so [n + 1] turns are enough. *)
Definition sort_Search (n : nat) (f : nat -> result bool) : result nat :=
  search_loop (S n) 0 n f.

Section Operations.
Context (tr : tracker).

Definition entries_of (t : GoType) : list nat := default [] (types tr !! t).

Definition object (id : nat) : result trackedEntry :=
  match objects tr !! id with Some e => Ok e | None => Panic "nil entry" end.

Definition entry_at (ids : list nat) (i : nat) : result trackedEntry :=
  match ids !! i with Some id => object id | None => Panic "index out of range" end.

Definition compare_at (ids : list nat) (key : KeyTuple) (i : nat) : result Z :=
  let* e := entry_at ids i in KeyTuple_Compare (te_key e) key.

Definition search (t : GoType) (key : KeyTuple) : result (nat * bool) :=
  let ids := entries_of t in
  let* i := sort_Search (length ids) (fun i => let* c := compare_at ids key i in Ok (0 <=? c)%Z) in
  if (i <? length ids)%nat then let* c := compare_at ids key i in Ok (i, (c =? 0)%Z)
  else Ok (i, false).

Definition find (t : GoType) (key : KeyTuple) : result (option trackedEntry) :=
  let* (i, found) := search t key in
  if (found : bool) then let* e := entry_at (entries_of t) i in Ok (Some e) else Ok None.

(** [delete(tr.byPtr, ...)] comes first and is unconditional. *)
Definition forget (e : trackedEntry) : result tracker :=
  let byPtr' := delete (te_ptr e) (byPtr tr) in
  let* (i, found) := search (te_type e) (te_key e) in
  let ids := entries_of (te_type e) in
  if (found : bool) && bool_decide (ids !! i = Some (te_seq e))
  then Ok (mkTracker (<[te_type e := take i ids ++ drop (S i) ids]> (types tr)) byPtr'
             (objects tr) (nextSeq tr))
  else Ok (mkTracker (types tr) byPtr' (objects tr) (nextSeq tr)).

Definition insertEntry (e : trackedEntry) : result tracker :=
  let* (i, _) := search (te_type e) (te_key e) in
  let ids := entries_of (te_type e) in
  Ok (mkTracker (<[te_type e := take i ids ++ te_seq e :: drop i ids]> (types tr))
        (<[te_ptr e := te_seq e]> (byPtr tr)) (<[te_seq e := e]> (objects tr)) (nextSeq tr)).

(** The entry of exactly this instance. *)
Definition entryOf (p : Ptr) : option trackedEntry :=
  id ← byPtr tr !! p; objects tr !! id.

End Operations.

Definition forget_opt (tr : tracker) (e : option trackedEntry) : result tracker :=
  match e with Some e => forget tr e | None => Ok tr end.

Definition register (tr : tracker) (m : EntityMap) (p : Ptr) (key : KeyTuple)
    (snapshot : list Value) : result (tracker * trackedEntry) :=
  let* tr := forget_opt tr (entryOf tr p) in
  let* holder := find tr (Type_ m) key in
  let* tr := forget_opt tr holder in
  let seq := S (nextSeq tr) in
  let e := mkEntry p m key snapshot seq in
  let* tr := insertEntry (mkTracker (types tr) (byPtr tr) (objects tr) seq) e in
  Ok (tr, e).

Definition restore (tr : tracker) (e : trackedEntry) : result tracker :=
  let* holder := find tr (te_type e) (te_key e) in
  let* tr :=
    match holder with
    | Some h => if decide (te_seq h <> te_seq e) then forget tr h else Ok tr
    | None => Ok tr
    end in
  if decide (byPtr tr !! te_ptr e = Some (te_seq e)) then Ok tr else insertEntry tr e.

(** [all]: the live entries in registration order. *)
Definition by_seq (a b : trackedEntry) : Prop := te_seq a <= te_seq b.
#[export] Instance by_seq_dec a b : Decision (by_seq a b).
Proof. unfold by_seq. apply _. Defined.

Definition all (tr : tracker) : list trackedEntry :=
  merge_sort by_seq (omap (fun pid => objects tr !! pid.2) (map_to_list (byPtr tr))).

(** * Lemmas: binary search *)

Lemma search_loop_spec f g n fuel i j :
  (forall k, k < n -> f k = Ok (g k)) ->
  (forall a b, a <= b -> b < n -> g a = true -> g b = true) ->
  i <= j <= n -> j - i < fuel ->
  (forall k, k < i -> g k = false) -> (forall k, j <= k < n -> g k = true) ->
  exists r, search_loop fuel i j f = Ok r /\ r <= n /\
    (forall k, k < r -> g k = false) /\ (forall k, r <= k < n -> g k = true).
Proof.
  intros Hf Hm. revert i j. induction fuel as [|fuel IH]; intros i j Hij Hfuel Hlo Hhi; [lia|].
  simpl. destruct (Nat.ltb_spec i j) as [Hlt|Hge]; [|exists i; repeat split; try lia; auto].
  2:{ intros k Hk. apply Hhi. lia. }
  set (h := (i + j) / 2).
  assert (Hh : i <= h < j).
  { subst h. split; [apply Nat.div_le_lower_bound; lia|apply Nat.Div0.div_lt_upper_bound; lia]. }
  change (fst (Nat.divmod (i + j) 1 0 1)) with h.
  rewrite Hf by lia. simpl. destruct (g h) eqn:Eg.
  - apply IH; [lia|lia|done|]. intros k Hk. destruct (decide (j <= k)); [apply Hhi; lia|].
    apply (Hm h); [lia|lia|done].
  - apply IH; [lia|lia| |done]. intros k Hk. destruct (g k) eqn:Ek; [|done].
    rewrite <- Eg. symmetry. apply (Hm k); [lia|lia|done].
Qed.

Lemma sort_Search_spec f g n :
  (forall k, k < n -> f k = Ok (g k)) ->
  (forall a b, a <= b -> b < n -> g a = true -> g b = true) ->
  exists r, sort_Search n f = Ok r /\ r <= n /\
    (forall k, k < r -> g k = false) /\ (forall k, r <= k < n -> g k = true).
Proof. intros Hf Hm. apply (search_loop_spec f g n); [done|done|lia|lia|lia|lia]. Qed.

(** * The identity-map invariant *)

Section Invariant.
(** The key types of each entity type: what makes its tuples comparable. *)
Context (key_types : GoType -> list KeyType).

Definition typed (t : GoType) (key : KeyTuple) : Prop := tuple_of (key_types t) key.

(** The answer of a comparison that cannot panic. *)
Definition key_cmp (a b : KeyTuple) : Z :=
  match KeyTuple_Compare a b with Ok c => c | Fail _ => 0%Z end.

Lemma key_cmp_Ok t a b : typed t a -> typed t b -> KeyTuple_Compare a b = Ok (key_cmp a b).
Proof.
  intros Ha Hb. destruct (tuple_compare_total _ _ _ Ha Hb) as [c Hc]. unfold key_cmp. by rewrite Hc.
Qed.

Lemma key_cmp_refl t a : typed t a -> key_cmp a a = 0%Z.
Proof. intros Ha. unfold key_cmp. by rewrite (ord_refl _ _ (KeyTuple_order _) a Ha). Qed.

Lemma key_cmp_anti t a b : typed t a -> typed t b -> key_cmp b a = (- key_cmp a b)%Z.
Proof.
  intros Ha Hb. pose proof (key_cmp_Ok _ _ _ Ha Hb) as Hc.
  apply (ord_anti _ _ (KeyTuple_order _) a b _ Ha Hb) in Hc. unfold key_cmp at 1. by rewrite Hc.
Qed.

Lemma key_cmp_trans t a b c :
  typed t a -> typed t b -> typed t c ->
  (key_cmp a b <= 0 -> key_cmp b c <= 0 ->
   key_cmp a c <= 0 /\ (key_cmp a b < 0 \/ key_cmp b c < 0 -> key_cmp a c < 0))%Z.
Proof.
  intros Ha Hb Hc H1 H2.
  destruct (ord_trans _ _ (KeyTuple_order _) a b c _ _ Ha Hb Hc
    (key_cmp_Ok _ _ _ Ha Hb) (key_cmp_Ok _ _ _ Hb Hc) H1 H2) as (e & He & Hle & Hlt).
  replace (key_cmp a c) with e by (unfold key_cmp; by rewrite He). auto.
Qed.

Definition entry_lt (e1 e2 : trackedEntry) : Prop := (key_cmp (te_key e1) (te_key e2) < 0)%Z.

(** [e] is the live entry of its instance. *)
Definition live (tr : tracker) (e : trackedEntry) : Prop :=
  objects tr !! te_seq e = Some e /\ byPtr tr !! te_ptr e = Some (te_seq e).

Definition well_keyed (e : trackedEntry) : Prop := typed (te_type e) (te_key e).

(** The list of a type holds its live entries in strict key order. *)
Record listed (tr : tracker) (t : GoType) (es : list trackedEntry) : Prop := {
  li_ids : entries_of tr t = te_seq <$> es;
  li_live : Forall (fun e => live tr e /\ te_type e = t /\ well_keyed e) es;
  li_sorted : StronglySorted entry_lt es }.

Record tracker_ok (tr : tracker) : Prop := {
  tk_listed : forall t, exists es, listed tr t es;
  tk_ptr : forall p id, byPtr tr !! p = Some id ->
    exists e, objects tr !! id = Some e /\ te_ptr e = p /\ id ∈ entries_of tr (te_type e);
  tk_seq : forall id e, objects tr !! id = Some e -> te_seq e = id /\ id <= nextSeq tr }.

Lemma newTracker_ok : tracker_ok newTracker.
Proof.
  split.
  - intros t. exists []. split; [|constructor..]. unfold entries_of. simpl. by rewrite lookup_empty.
  - intros p id. simpl. by rewrite lookup_empty.
  - intros id e. simpl. by rewrite lookup_empty.
Qed.

(** ** Search and find *)

Lemma listed_entry tr t es i e :
  listed tr t es -> es !! i = Some e -> live tr e /\ te_type e = t /\ typed t (te_key e).
Proof.
  intros H He. pose proof (li_live _ _ _ H) as Hl. rewrite Forall_forall in Hl.
  destruct (Hl e) as (? & <- & ?); [by eapply list_elem_of_lookup_2|]. auto.
Qed.

Lemma entry_at_listed tr t es i e :
  listed tr t es -> es !! i = Some e -> entry_at tr (entries_of tr t) i = Ok e.
Proof.
  intros H He. destruct (listed_entry _ _ _ _ _ H He) as ([Ho _] & _ & _).
  unfold entry_at. rewrite (li_ids _ _ _ H), list_lookup_fmap, He. simpl.
  unfold object. by rewrite Ho.
Qed.

Lemma compare_at_listed tr t es i e key :
  listed tr t es -> typed t key -> es !! i = Some e ->
  compare_at tr (entries_of tr t) key i = Ok (key_cmp (te_key e) key).
Proof.
  intros H Hk He. unfold compare_at. rewrite (entry_at_listed _ _ _ _ _ H He). simpl.
  apply (key_cmp_Ok t); [|done]. by eapply listed_entry.
Qed.

Lemma sorted_lookup es i j e1 e2 :
  StronglySorted entry_lt es -> i < j -> es !! i = Some e1 -> es !! j = Some e2 -> entry_lt e1 e2.
Proof.
  intros H. revert i j. induction H as [|e es Hs IH Hf]; intros i j Hij H1 H2; [done|].
  destruct j as [|j]; [lia|]. destruct i as [|i]; simpl in *.
  - injection H1 as ->. rewrite Forall_forall in Hf. apply Hf. by eapply list_elem_of_lookup_2.
  - apply (IH i j); [lia|done|done].
Qed.

Lemma search_spec tr t es key :
  listed tr t es -> typed t key ->
  exists r found, search tr t key = Ok (r, found) /\ r <= length es /\
    (forall k e, k < r -> es !! k = Some e -> (key_cmp (te_key e) key < 0)%Z) /\
    (forall k e, (if found then r < k else r <= k) -> es !! k = Some e ->
       (0 < key_cmp (te_key e) key)%Z) /\
    (found = true -> exists e, es !! r = Some e /\ key_cmp (te_key e) key = 0%Z).
Proof.
  intros H Hk.
  assert (Hlen : length (entries_of tr t) = length es)
    by (rewrite (li_ids _ _ _ H); apply length_fmap).
  set (g := fun i => match es !! i with Some e => (0 <=? key_cmp (te_key e) key)%Z | None => true end).
  assert (Hmono : forall i j e1 e2, i < j -> es !! i = Some e1 -> es !! j = Some e2 ->
            (0 <= key_cmp (te_key e1) key -> 0 < key_cmp (te_key e2) key)%Z).
  { intros i j e1 e2 Hij H1 H2 Hge.
    pose proof (sorted_lookup _ _ _ _ _ (li_sorted _ _ _ H) Hij H1 H2) as Hlt.
    destruct (listed_entry _ _ _ _ _ H H1) as (_ & _ & T1).
    destruct (listed_entry _ _ _ _ _ H H2) as (_ & _ & T2).
    pose proof (key_cmp_anti t _ _ T1 Hk) as A1. pose proof (key_cmp_anti t _ _ T2 Hk) as A2.
    unfold entry_lt in Hlt.
    destruct (key_cmp_trans t key (te_key e1) (te_key e2) Hk T1 T2) as [_ Hs]; [lia|lia|].
    specialize (Hs (or_intror Hlt)). lia. }
  destruct (sort_Search_spec
    (fun i => let* c := compare_at tr (entries_of tr t) key i in Ok (0 <=? c)%Z) g (length es))
    as (r & Hr & Hle & Hlo & Hhi).
  - intros k Hlt. apply lookup_lt_is_Some in Hlt as [e He].
    rewrite (compare_at_listed _ _ _ _ _ _ H Hk He). simpl. unfold g. by rewrite He.
  - intros a b Hab Hb Hga. apply lookup_lt_is_Some in Hb as [e2 H2].
    destruct (decide (a = b)) as [->|Hne]; [done|].
    destruct (lookup_lt_is_Some_2 es a) as [e1 H1];
      [apply lookup_lt_Some in H2; lia|].
    unfold g in *. rewrite H1 in Hga. rewrite H2. apply Z.leb_le in Hga. apply Z.leb_le.
    assert (a < b) as Hlt by lia. pose proof (Hmono a b e1 e2 Hlt H1 H2 Hga). lia.
  - unfold search. rewrite Hlen, Hr. cbn [mbind result_bind].
    assert (Hlo' : forall k e, k < r -> es !! k = Some e -> (key_cmp (te_key e) key < 0)%Z).
    { intros k e Hk1 He. specialize (Hlo k Hk1). unfold g in Hlo. rewrite He in Hlo. lia. }
    destruct (Nat.ltb_spec r (length es)) as [Hlt|Hge].
    + apply lookup_lt_is_Some in Hlt as [e He].
      rewrite (compare_at_listed _ _ _ _ _ _ H Hk He). cbn [mbind result_bind].
      assert (Hge : (0 <= key_cmp (te_key e) key)%Z).
      { assert (Hg : g r = true) by (apply Hhi; split; [lia|by eapply lookup_lt_Some]).
        unfold g in Hg. rewrite He in Hg. lia. }
      eexists r, _. split; [reflexivity|]. split; [done|]. split; [done|].
      destruct (Z.eqb_spec (key_cmp (te_key e) key) 0) as [Heq|Hne].
      * split; [|intros _; by exists e]. intros k e2 Hk2 He2. by apply (Hmono r k e e2).
      * split; [|done]. intros k e2 Hk2 He2. destruct (decide (k = r)) as [->|].
        { rewrite He in He2. injection He2 as <-. lia. }
        apply (Hmono r k e e2); [lia|done|done|done].
    + exists r, false. split; [done|]. split; [done|]. split; [done|]. split; [|done].
      intros k e2 Hk2 He2. apply lookup_lt_Some in He2. lia.
Qed.

Lemma find_listed tr t es key :
  listed tr t es -> typed t key ->
  (exists e, find tr t key = Ok (Some e) /\ e ∈ es /\ key_cmp (te_key e) key = 0%Z) \/
  (find tr t key = Ok None /\ forall e, e ∈ es -> key_cmp (te_key e) key <> 0%Z).
Proof.
  intros H Hk. destruct (search_spec tr t es key H Hk) as (r & found & Hs & Hle & Hlo & Hhi & Hf).
  unfold find. rewrite Hs. cbn [mbind result_bind]. destruct found.
  - left. destruct (Hf eq_refl) as (e & He & Hc). exists e.
    rewrite (entry_at_listed _ _ _ _ _ H He). split; [done|].
    split; [by eapply list_elem_of_lookup_2|done].
  - right. split; [done|]. intros e [k Hk2]%list_elem_of_lookup.
    destruct (Nat.lt_ge_cases k r) as [Hlt|Hge].
    + specialize (Hlo k e Hlt Hk2). lia.
    + specialize (Hhi k e Hge Hk2). lia.
Qed.

Lemma live_listed tr t es e :
  tracker_ok tr -> listed tr t es -> live tr e -> te_type e = t -> e ∈ es.
Proof.
  intros Hok H [Ho Hp] Ht. destruct (tk_ptr tr Hok _ _ Hp) as (e' & Ho' & _ & Hin).
  rewrite Ho in Ho'. injection Ho' as <-. rewrite Ht, (li_ids _ _ _ H) in Hin.
  apply list_elem_of_fmap in Hin as (e2 & Heq & He2).
  apply list_elem_of_lookup in He2 as Hi. destruct Hi as [i Hi].
  destruct (listed_entry _ _ _ _ _ H Hi) as ([Ho2 _] & _ & _).
  rewrite <- Heq, Ho in Ho2. by injection Ho2 as ->.
Qed.

(** ** Forgetting an entry *)

Lemma entries_of_insert tr t ids t' p o n :
  entries_of (mkTracker (<[t := ids]> (types tr)) p o n) t'
  = if decide (t = t') then ids else entries_of tr t'.
Proof.
  unfold entries_of. cbn [types]. case_decide as Ht.
  - subst. by rewrite lookup_insert_eq.
  - by rewrite lookup_insert_ne.
Qed.

Lemma StronglySorted_app_inv (es1 es2 : list trackedEntry) e :
  StronglySorted entry_lt (es1 ++ e :: es2) ->
  StronglySorted entry_lt (es1 ++ es2) /\
  Forall (fun x => entry_lt x e) es1 /\ Forall (entry_lt e) es2.
Proof.
  induction es1 as [|x es1 IH]; simpl; intros H; inversion H as [|? ? Hs Hf]; subst.
  - done.
  - destruct (IH Hs) as (H1 & H2 & H3). apply Forall_app in Hf as [Hf1 Hf2].
    inversion Hf2; subst. split; [|split; [by constructor|done]].
    constructor; [done|]. by apply Forall_app.
Qed.

Lemma live_ptr_inj tr e1 e2 : live tr e1 -> live tr e2 -> te_ptr e1 = te_ptr e2 -> e1 = e2.
Proof. intros [H1 P1] [H2 P2] E. rewrite E in P1. congruence. Qed.

Lemma listed_split tr t es e :
  listed tr t es -> e ∈ es -> exists es1 es2, es = es1 ++ e :: es2 /\
    e ∉ es1 ++ es2 /\ search tr t (te_key e) = Ok (length es1, true).
Proof.
  intros H He. apply list_elem_of_split in He as (es1 & es2 & ->). exists es1, es2.
  assert (Hi : (es1 ++ e :: es2) !! length es1 = Some e) by (by apply list_lookup_middle).
  destruct (listed_entry _ _ _ _ _ H Hi) as (Hl & Ht & Hk).
  destruct (StronglySorted_app_inv _ _ _ (li_sorted _ _ _ H)) as (_ & Hlt & Hgt).
  pose proof (key_cmp_refl _ _ Hk) as Hr. split; [done|]. split.
  - intros Hin%elem_of_app. rewrite Forall_forall in Hlt, Hgt.
    unfold entry_lt in Hlt, Hgt. destruct Hin as [Hin|Hin].
    + specialize (Hlt e Hin). lia.
    + specialize (Hgt e Hin). lia.
  - destruct (search_spec tr t _ _ H Hk) as (r & found & -> & Hle & Hlo & Hhi & Hf).
    destruct (Nat.lt_trichotomy r (length es1)) as [Hc|[->|Hc]].
    + destruct found; [specialize (Hhi _ e Hc Hi); lia|].
      specialize (Hhi _ e (Nat.lt_le_incl _ _ Hc) Hi). lia.
    + destruct found; [done|]. specialize (Hhi _ e (Nat.le_refl _) Hi). lia.
    + specialize (Hlo _ e Hc Hi). lia.
Qed.

(** Everything but the forgotten entry stays as it was. *)
Record without (tr tr' : tracker) (e : trackedEntry) : Prop := {
  wo_byPtr : byPtr tr' = delete (te_ptr e) (byPtr tr);
  wo_objects : objects tr' = objects tr;
  wo_seq : nextSeq tr' = nextSeq tr }.

Lemma forget_spec tr e :
  tracker_ok tr -> live tr e ->
  exists tr', forget tr e = Ok tr' /\ tracker_ok tr' /\ without tr tr' e.
Proof.
  intros Hok Hlive. destruct (tk_listed tr Hok (te_type e)) as [es Hes].
  pose proof (live_listed _ _ _ _ Hok Hes Hlive eq_refl) as Hin.
  destruct (listed_split _ _ _ _ Hes Hin) as (es1 & es2 & -> & Hnot & Hs).
  unfold forget. rewrite Hs. cbn [mbind result_bind]. rewrite (li_ids _ _ _ Hes).
  assert (Hids : te_seq <$> es1 ++ e :: es2 = (te_seq <$> es1) ++ te_seq e :: (te_seq <$> es2))
    by (by rewrite fmap_app).
  rewrite Hids, bool_decide_true by (rewrite <- (length_fmap te_seq es1); by apply list_lookup_middle).
  cbn [andb]. rewrite <- (length_fmap te_seq es1), take_app_length.
  replace (drop (S (length (te_seq <$> es1))) _) with (te_seq <$> es2).
  2:{ rewrite cons_middle, app_assoc. replace (S _) with (length ((te_seq <$> es1) ++ [te_seq e]))
        by (rewrite length_app; simpl; lia). by rewrite drop_app_length. }
  eexists. split; [reflexivity|]. split; [|by split]. split.
  - intros t. destruct (decide (te_type e = t)) as [<-|Hne].
    + exists (es1 ++ es2). destruct (StronglySorted_app_inv _ _ _ (li_sorted _ _ _ Hes)) as (Hss & _).
      split; [|apply Forall_forall|done].
      { rewrite entries_of_insert, decide_True by done. by rewrite fmap_app. }
      intros x Hx. pose proof (li_live _ _ _ Hes) as Hl. rewrite Forall_forall in Hl.
      destruct (Hl x) as (Hlx & Htx & Hkx); [rewrite elem_of_app in *; set_solver|].
      split; [|done]. destruct Hlx as [Hxo Hxp]. split; [done|]. cbn [byPtr].
      rewrite lookup_delete_ne; [done|]. intros Hp. apply Hnot.
      rewrite (live_ptr_inj tr e x); done.
    + destruct (tk_listed tr Hok t) as [es' Hes']. exists es'.
      split; [|apply Forall_forall|apply Hes'].
      { rewrite entries_of_insert, decide_False by done. apply Hes'. }
      intros x Hx. pose proof (li_live _ _ _ Hes') as Hl. rewrite Forall_forall in Hl.
      destruct (Hl x Hx) as ([Hxo Hxp] & Htx & Hkx). split; [|done]. split; [done|]. cbn [byPtr].
      rewrite lookup_delete_ne; [done|]. intros Hp. apply Hne.
      rewrite <- Htx. f_equal. by apply (live_ptr_inj tr).
  - intros p id. cbn [byPtr objects]. intros [Hp Hid]%lookup_delete_Some.
    destruct (tk_ptr tr Hok p id Hid) as (x & Hx & <- & Hin'). exists x.
    split; [done|]. split; [done|]. rewrite entries_of_insert. case_decide as Ht; [|done].
    rewrite <- Ht, (li_ids _ _ _ Hes), Hids in Hin'.
    apply elem_of_app in Hin' as [Hi|Hi]; [by apply elem_of_app; left|].
    apply elem_of_cons in Hi as [->|Hi]; [|by apply elem_of_app; right].
    destruct Hlive as [Ho _]. rewrite Ho in Hx. by injection Hx as ->.
  - intros id x Hx. by apply (tk_seq tr Hok).
Qed.

(** ** Inserting an entry *)

Lemma StronglySorted_insert (es1 es2 : list trackedEntry) e :
  StronglySorted entry_lt (es1 ++ es2) ->
  Forall (fun x => entry_lt x e) es1 -> Forall (entry_lt e) es2 ->
  StronglySorted entry_lt (es1 ++ e :: es2).
Proof.
  induction es1 as [|x es1 IH]; simpl; intros Hs H1 H2; [by constructor|].
  inversion Hs as [|? ? Hs' Hf]; subst. inversion H1; subst. constructor; [by apply IH|].
  apply Forall_app in Hf as [Hf1 Hf2]. apply Forall_app. split; [done|]. by constructor.
Qed.

(** [e] can join the map: its instance and its key are free. *)
Record insertable (tr : tracker) (e : trackedEntry) : Prop := {
  in_keyed : well_keyed e;
  in_seq : te_seq e <= nextSeq tr;
  in_ptr : byPtr tr !! te_ptr e = None;
  in_object : objects tr !! te_seq e = None \/ objects tr !! te_seq e = Some e;
  in_key : forall x, live tr x -> te_type x = te_type e ->
    key_cmp (te_key x) (te_key e) <> 0%Z }.

Record with_entry (tr tr' : tracker) (e : trackedEntry) : Prop := {
  we_byPtr : byPtr tr' = <[te_ptr e := te_seq e]> (byPtr tr);
  we_objects : objects tr' = <[te_seq e := e]> (objects tr);
  we_seq : nextSeq tr' = nextSeq tr }.

Lemma live_insert tr e x p types' n :
  insertable tr e -> live tr x ->
  p = <[te_ptr e := te_seq e]> (byPtr tr) ->
  live (mkTracker types' p (<[te_seq e := e]> (objects tr)) n) x.
Proof.
  intros Hi [Ho Hp] ->.
  assert (Hne : te_seq x <> te_seq e).
  { intros E. destruct (in_object _ _ Hi) as [Hn|Hn]; rewrite <- E, Ho in Hn; [done|].
    injection Hn as ->. by rewrite (in_ptr _ _ Hi) in Hp. }
  split; cbn [objects byPtr].
  - by rewrite lookup_insert_ne by congruence.
  - rewrite lookup_insert_ne; [done|]. intros E. by rewrite <- E, (in_ptr _ _ Hi) in Hp.
Qed.

Lemma insertEntry_spec tr e :
  tracker_ok tr -> insertable tr e ->
  exists tr', insertEntry tr e = Ok tr' /\ tracker_ok tr' /\ with_entry tr tr' e /\ live tr' e.
Proof.
  intros Hok Hi. pose proof (in_keyed _ _ Hi) as Hk.
  destruct (tk_listed tr Hok (te_type e)) as [es Hes].
  destruct (search_spec tr _ _ _ Hes Hk) as (r & found & Hs & Hle & Hlo & Hhi & Hf).
  assert (found = false) as ->.
  { destruct found; [|done]. destruct (Hf eq_refl) as (x & Hx & Hc).
    destruct (listed_entry _ _ _ _ _ Hes Hx) as (Hl & Ht & _). by destruct (in_key _ _ Hi x Hl Ht). }
  unfold insertEntry. rewrite Hs. cbn [mbind result_bind].
  rewrite (li_ids _ _ _ Hes), <- fmap_take, <- fmap_drop.
  assert (Hnew : forall t n, live (mkTracker t (<[te_ptr e:=te_seq e]> (byPtr tr))
            (<[te_seq e:=e]> (objects tr)) n) e)
    by (intros; split; cbn [objects byPtr]; by rewrite lookup_insert_eq).
  eexists. split; [reflexivity|]. split; [|by split]. split.
  - intros t. destruct (decide (te_type e = t)) as [<-|Hne].
    + exists (take r es ++ e :: drop r es). split.
      { rewrite entries_of_insert, decide_True by done. by rewrite fmap_app. }
      { apply Forall_app. split; [|constructor; [split; [apply Hnew|done]|]];
          apply Forall_forall; intros x Hx;
          pose proof (li_live _ _ _ Hes) as Hl; rewrite Forall_forall in Hl;
          (destruct (Hl x) as (Hlx & Htx & Hkx);
            [first [by eapply elem_of_take_in | by eapply elem_of_drop_in]|]);
          (split; [by eapply live_insert|done]). }
      { apply StronglySorted_insert; [rewrite take_drop; apply Hes| |]; apply Forall_lookup.
        - intros i x Hx. apply lookup_take_Some in Hx as [Hx Hlt]. by apply (Hlo i).
        - intros i x Hx. rewrite lookup_drop in Hx.
          pose proof (Hhi (r + i) x (Nat.le_add_r _ _) Hx) as Hpos.
          destruct (listed_entry _ _ _ _ _ Hes Hx) as (_ & _ & Hkx).
          unfold entry_lt. rewrite (key_cmp_anti (te_type e) (te_key x)) by done. lia. }
    + destruct (tk_listed tr Hok t) as [es' Hes']. exists es'.
      split; [|apply Forall_forall|apply Hes'].
      { rewrite entries_of_insert, decide_False by done. apply Hes'. }
      intros x Hx. pose proof (li_live _ _ _ Hes') as Hl. rewrite Forall_forall in Hl.
      destruct (Hl x Hx) as (Hlx & Htx & Hkx). split; [by eapply live_insert|done].
  - intros p id. cbn [byPtr objects]. intros Hp. destruct (decide (p = te_ptr e)) as [->|Hne].
    + rewrite lookup_insert_eq in Hp. injection Hp as <-. exists e.
      rewrite lookup_insert_eq, entries_of_insert, decide_True by done.
      split; [done|]. split; [done|]. apply elem_of_app. right. by left.
    + rewrite lookup_insert_ne in Hp by done.
      destruct (tk_ptr tr Hok p id Hp) as (x & Hx & <- & Hin). exists x.
      destruct (tk_seq tr Hok id x Hx) as [<- _].
      destruct (live_insert tr e x _ (types tr) 0 Hi (conj Hx Hp) eq_refl) as [Hx' _].
      split; [exact Hx'|]. split; [done|]. rewrite entries_of_insert. case_decide as Ht; [|done].
      rewrite <- Ht, (li_ids _ _ _ Hes) in Hin. rewrite <- (take_drop r es), fmap_app in Hin.
      rewrite elem_of_app, elem_of_cons. apply elem_of_app in Hin. tauto.
  - intros id x. cbn [objects nextSeq]. intros Hx. destruct (decide (id = te_seq e)) as [->|Hne].
    + rewrite lookup_insert_eq in Hx. injection Hx as <-. split; [done|apply Hi].
    + rewrite lookup_insert_ne in Hx by done. by apply (tk_seq tr Hok).
Qed.

(** ** The operations *)

Lemma find_spec tr t key :
  tracker_ok tr -> typed t key ->
  (exists e, find tr t key = Ok (Some e) /\ live tr e /\ te_type e = t /\
     key_cmp (te_key e) key = 0%Z) \/
  (find tr t key = Ok None /\
     forall x, live tr x -> te_type x = t -> key_cmp (te_key x) key <> 0%Z).
Proof.
  intros Hok Hk. destruct (tk_listed tr Hok t) as [es Hes].
  destruct (find_listed _ _ _ _ Hes Hk) as [(e & Hf & Hin & Hc)|(Hf & Hno)].
  - left. exists e. apply list_elem_of_lookup in Hin as [i Hi].
    destruct (listed_entry _ _ _ _ _ Hes Hi) as (Hl & Ht & _). auto.
  - right. split; [done|]. intros x Hx Ht. apply Hno. by eapply live_listed.
Qed.

Lemma entryOf_live tr p e :
  tracker_ok tr -> entryOf tr p = Some e <-> live tr e /\ te_ptr e = p.
Proof.
  intros Hok. unfold entryOf. split.
  - destruct (byPtr tr !! p) as [id|] eqn:Ep; [|done]. cbn. intros Ho.
    destruct (tk_ptr tr Hok p id Ep) as (x & Hx & Hxp & _). rewrite Ho in Hx.
    injection Hx as <-. destruct (tk_seq tr Hok id e Ho) as [Hs _]. subst.
    split; [|done]. by split.
  - intros [[Ho Hp] <-]. rewrite Hp. exact Ho.
Qed.

Lemma without_live tr tr' e x :
  without tr tr' e -> live tr' x <-> live tr x /\ te_ptr x <> te_ptr e.
Proof.
  intros [Hp Ho _]. unfold live. rewrite Hp, Ho. rewrite lookup_delete_Some. naive_solver.
Qed.

Lemma with_live tr tr' e x :
  insertable tr e -> with_entry tr tr' e -> live tr' x <-> x = e \/ live tr x.
Proof.
  intros Hi [Hp Ho _]. unfold live. rewrite Hp, Ho. split.
  - intros [H1 H2]. destruct (decide (te_seq x = te_seq e)) as [E|E].
    + rewrite E, lookup_insert_eq in H1. left. congruence.
    + rewrite lookup_insert_ne in H1 by congruence. right. split; [done|].
      destruct (decide (te_ptr x = te_ptr e)) as [E2|E2].
      * rewrite E2, lookup_insert_eq in H2. congruence.
      * by rewrite lookup_insert_ne in H2 by congruence.
  - intros [->|Hx]; [by rewrite !lookup_insert_eq|].
    rewrite <- Ho, <- Hp.
    destruct (live_insert tr e x (byPtr tr') (types tr) 0 Hi Hx Hp) as [H1 H2].
    rewrite Ho. split; [exact H1|exact H2].
Qed.

Lemma forget_opt_spec tr oe :
  tracker_ok tr -> (forall e, oe = Some e -> live tr e) ->
  exists tr', forget_opt tr oe = Ok tr' /\ tracker_ok tr' /\ nextSeq tr' = nextSeq tr /\
    objects tr' = objects tr /\
    forall x, live tr' x <-> live tr x /\ forall e, oe = Some e -> te_ptr x <> te_ptr e.
Proof.
  intros Hok Hl. destruct oe as [e|]; simpl.
  - destruct (forget_spec tr e Hok (Hl e eq_refl)) as (tr' & -> & Hok' & Hw).
    exists tr'. split; [done|]. split; [done|]. split; [apply Hw|]. split; [apply Hw|].
    intros x. rewrite (without_live _ _ _ _ Hw). naive_solver.
  - exists tr. do 4 (split; [done|]). intros x. split; [by intros Hx|by intros [Hx _]].
Qed.

Lemma bump_ok tr n :
  tracker_ok tr -> nextSeq tr <= n -> tracker_ok (mkTracker (types tr) (byPtr tr) (objects tr) n).
Proof.
  intros [H1 H2 H3] Hn. split.
  - intros t. destruct (H1 t) as [es [Ha Hb Hc]]. exists es. by split.
  - exact H2.
  - intros id e He. destruct (H3 id e He). split; [done|]. simpl. lia.
Qed.

(** One instance per key: two live entries of a type with the same key are one. *)
Lemma same_key_same_entry tr x y key :
  tracker_ok tr -> live tr x -> live tr y -> te_type x = te_type y -> typed (te_type y) key ->
  key_cmp (te_key x) key = 0%Z -> key_cmp (te_key y) key = 0%Z -> x = y.
Proof.
  intros Hok Hx Hy Ht Hk Hcx Hcy. destruct (tk_listed tr Hok (te_type y)) as [es Hes].
  pose proof (live_listed _ _ _ _ Hok Hes Hx Ht) as Hxi.
  pose proof (live_listed _ _ _ _ Hok Hes Hy eq_refl) as Hyi.
  apply list_elem_of_lookup in Hxi as [i Hi]. apply list_elem_of_lookup in Hyi as [j Hj].
  destruct (search_spec tr _ _ _ Hes Hk) as (r & found & _ & _ & Hlo & Hhi & _).
  assert (Hat : forall k e, es !! k = Some e -> key_cmp (te_key e) key = 0%Z -> k = r).
  { intros k e He Hc. destruct (Nat.lt_trichotomy k r) as [Hlt|[->|Hgt]]; [|done|].
    - specialize (Hlo k e Hlt He). lia.
    - assert ((if found then r < k else r <= k)) as Hle by (destruct found; lia).
      specialize (Hhi k e Hle He). lia. }
  rewrite (Hat i x Hi Hcx) in Hi. rewrite (Hat j y Hj Hcy) in Hj. congruence.
Qed.

(** A new registration's entry can join once its instance and key are free. *)
Lemma insertable_new tr m p key snapshot :
  tracker_ok tr -> typed (Type_ m) key ->
  (forall x, live tr x -> te_ptr x <> p) ->
  (forall x, live tr x -> te_type x = Type_ m -> key_cmp (te_key x) key <> 0%Z) ->
  insertable (mkTracker (types tr) (byPtr tr) (objects tr) (S (nextSeq tr)))
    (mkEntry p m key snapshot (S (nextSeq tr))).
Proof.
  intros Hok Hk Hp Hkey. split; cbn [te_seq nextSeq byPtr te_ptr objects].
  - exact Hk.
  - done.
  - destruct (byPtr tr !! p) as [id|] eqn:E; [|done].
    destruct (tk_ptr tr Hok p id E) as (x & Hx & Hxp & _).
    destruct (tk_seq tr Hok id x Hx) as [Hs _]. subst.
    destruct (Hp x); [by split|done].
  - left. destruct (objects tr !! S (nextSeq tr)) as [x|] eqn:E; [|done].
    destruct (tk_seq tr Hok _ x E). lia.
  - intros x Hx Ht. by apply Hkey.
Qed.

Lemma register_spec tr m p key snapshot :
  tracker_ok tr -> typed (Type_ m) key ->
  exists tr', register tr m p key snapshot
      = Ok (tr', mkEntry p m key snapshot (S (nextSeq tr))) /\
    tracker_ok tr' /\
    forall x, live tr' x <->
      x = mkEntry p m key snapshot (S (nextSeq tr)) \/
      (live tr x /\ te_ptr x <> p /\
       ~ (te_type x = Type_ m /\ key_cmp (te_key x) key = 0%Z)).
Proof.
  intros Hok Hk. unfold register.
  destruct (forget_opt_spec tr (entryOf tr p) Hok) as (tr1 & -> & Hok1 & Hs1 & Ho1 & Hl1).
  { intros e He. by apply (entryOf_live tr p e Hok). }
  cbn [mbind result_bind].
  assert (Hl1' : forall x, live tr1 x <-> live tr x /\ te_ptr x <> p).
  { intros x. rewrite Hl1. split.
    - intros [Hx Hne]. split; [done|]. intros <-. destruct (entryOf tr (te_ptr x)) as [e|] eqn:Ee.
      + apply (entryOf_live tr _ e Hok) in Ee as [_ Ee]. by apply (Hne e).
      + assert (entryOf tr (te_ptr x) = Some x) by (by apply entryOf_live). congruence.
    - intros [Hx Hne]. split; [done|]. intros e He. by apply (entryOf_live tr p e Hok) in He as [_ ->]. }
  destruct (find_spec tr1 (Type_ m) key Hok1 Hk) as [(h & -> & Hh & Hth & Hch)|(-> & Hno)];
    cbn [mbind result_bind].
  - destruct (forget_opt_spec tr1 (Some h) Hok1) as (tr2 & -> & Hok2 & Hs2 & Ho2 & Hl2);
      [by intros ? [= <-]|].
    cbn [mbind result_bind].
    assert (Hins : insertable (mkTracker (types tr2) (byPtr tr2) (objects tr2) (S (nextSeq tr2)))
              (mkEntry p m key snapshot (S (nextSeq tr2)))).
    { apply insertable_new; [done|done| |].
      - intros x Hx. apply Hl2 in Hx as [Hx _]. by apply Hl1' in Hx as [_ Hx].
      - intros x Hx Htx Hcx. apply Hl2 in Hx as [Hx Hne]. apply (Hne h eq_refl). f_equal.
        apply (same_key_same_entry tr1 x h key Hok1); [done|done|by rewrite Hth|by rewrite Hth|done|done]. }
    destruct (insertEntry_spec _ _ (bump_ok tr2 _ Hok2 (Nat.le_succ_diag_r _)) Hins)
      as (tr3 & -> & Hok3 & Hw3 & _).
    cbn [mbind result_bind]. rewrite Hs2, Hs1 in *. exists tr3. split; [done|]. split; [done|].
    intros x. rewrite (with_live _ _ _ _ Hins Hw3).
    assert (Hlx : live (mkTracker (types tr2) (byPtr tr2) (objects tr2) (S (nextSeq tr))) x
              <-> live tr2 x) by done.
    rewrite Hlx, Hl2, Hl1'. split.
    2:{ intros [->|(Hx & Hp & Hno)]; [by left|]. right. split; [done|]. intros ? [= <-] E.
        apply Hno. rewrite (live_ptr_inj tr1 x h); [done|by apply Hl1'|done|done]. }
    intros [->|((Hx & Hp) & Hne)]; [by left|]. right. split; [done|]. split; [done|].
    intros [Htx Hcx]. apply (Hne h eq_refl). f_equal.
    apply (same_key_same_entry tr1 x h key Hok1);
      [by apply Hl1'|done|by rewrite Hth|by rewrite Hth|done|done].
  - cbn [forget_opt mbind result_bind].
    assert (Hins : insertable (mkTracker (types tr1) (byPtr tr1) (objects tr1) (S (nextSeq tr1)))
              (mkEntry p m key snapshot (S (nextSeq tr1)))).
    { apply insertable_new; [done|done| |].
      - intros x Hx. by apply Hl1' in Hx as [_ Hx].
      - intros x Hx Htx. by apply Hno. }
    destruct (insertEntry_spec _ _ (bump_ok tr1 _ Hok1 (Nat.le_succ_diag_r _)) Hins)
      as (tr3 & -> & Hok3 & Hw3 & _).
    cbn [mbind result_bind]. rewrite Hs1 in *. exists tr3. split; [done|]. split; [done|].
    intros x. rewrite (with_live _ _ _ _ Hins Hw3).
    assert (Hlx : live (mkTracker (types tr1) (byPtr tr1) (objects tr1) (S (nextSeq tr))) x
              <-> live tr1 x) by done.
    rewrite Hlx, Hl1'. split; [|intros [->|(Hx & Hp & _)]; [by left|by right]].
    intros [->|(Hx & Hp)]; [by left|]. right. split; [done|]. split; [done|].
    intros [Htx Hcx]. apply (Hno x); [by apply Hl1'|done..].
Qed.

(** A forgotten (or still live) entry coming back: what a rollback restores. *)
Record restorable (tr : tracker) (e : trackedEntry) : Prop := {
  re_keyed : well_keyed e;
  re_object : objects tr !! te_seq e = Some e;
  re_ptr : byPtr tr !! te_ptr e = None \/ byPtr tr !! te_ptr e = Some (te_seq e) }.

Lemma restore_spec tr e :
  tracker_ok tr -> restorable tr e ->
  exists tr', restore tr e = Ok tr' /\ tracker_ok tr' /\
    forall x, live tr' x <-> x = e \/
      (live tr x /\ ~ (te_type x = te_type e /\ key_cmp (te_key x) (te_key e) = 0%Z)).
Proof.
  intros Hok [Hk Ho Hp]. unfold restore.
  destruct (find_spec tr (te_type e) (te_key e) Hok Hk) as [(h & -> & Hh & Hth & Hch)|(-> & Hno)];
    cbn [mbind result_bind].
  - destruct (decide (te_seq h <> te_seq e)) as [Hne|Heq].
    + destruct (forget_spec tr h Hok Hh) as (tr1 & -> & Hok1 & Hw). cbn [mbind result_bind].
      assert (Hdead : ~ live tr e).
      { intros He. apply Hne. f_equal. apply (same_key_same_entry tr h e (te_key e)); try done.
        by eapply key_cmp_refl. }
      assert (Hnone : byPtr tr !! te_ptr e = None) by (destruct Hp; [done|by destruct Hdead]).
      assert (Hnone1 : byPtr tr1 !! te_ptr e = None).
      { rewrite (wo_byPtr _ _ _ Hw). by apply lookup_delete_None; right. }
      rewrite decide_False by (rewrite Hnone1; done).
      assert (Hins : insertable tr1 e).
      { split; [done| |done| |].
        - rewrite (wo_seq _ _ _ Hw). by eapply tk_seq.
        - right. by rewrite (wo_objects _ _ _ Hw).
        - intros x Hx Htx Hcx. apply (without_live _ _ _ _ Hw) in Hx as [Hx Hxp].
          apply Hxp. f_equal. by apply (same_key_same_entry tr x h (te_key e)); try rewrite Hth. }
      destruct (insertEntry_spec tr1 e Hok1 Hins) as (tr2 & -> & Hok2 & Hw2 & _).
      exists tr2. split; [done|]. split; [done|]. intros x.
      rewrite (with_live _ _ _ _ Hins Hw2), (without_live _ _ _ _ Hw). split.
      * intros [->|[Hx Hxp]]; [by left|]. right. split; [done|]. intros [Htx Hcx]. apply Hxp. f_equal.
        by apply (same_key_same_entry tr x h (te_key e)); try rewrite Hth.
      * intros [->|[Hx Hnk]]; [by left|]. right. split; [done|]. intros E. apply Hnk.
        by rewrite (live_ptr_inj tr x h).
    + assert (te_seq h = te_seq e) as Es by (destruct (decide (te_seq h = te_seq e)); tauto).
      assert (h = e) as -> by (destruct Hh as [Hh _]; rewrite Es, Ho in Hh; congruence).
      cbn [mbind result_bind]. rewrite decide_True by apply Hh.
      exists tr. split; [done|]. split; [done|]. intros x. split.
      * intros Hx. destruct (decide (te_type x = te_type e /\ key_cmp (te_key x) (te_key e) = 0%Z))
          as [[Htx Hcx]|Hnk]; [left|by right].
        by apply (same_key_same_entry tr x e (te_key e)).
      * by intros [->|[Hx _]].
  - assert (Hnone : byPtr tr !! te_ptr e = None).
    { destruct Hp as [|Hp]; [done|]. destruct (Hno e); [by split|done|by eapply key_cmp_refl]. }
    rewrite decide_False by (rewrite Hnone; done).
    assert (Hins : insertable tr e).
    { split; [done|by eapply tk_seq|done|by right|done]. }
    destruct (insertEntry_spec tr e Hok Hins) as (tr2 & -> & Hok2 & Hw2 & _).
    exists tr2. split; [done|]. split; [done|]. intros x.
    rewrite (with_live _ _ _ _ Hins Hw2). split.
    + intros [->|Hx]; [by left|]. right. split; [done|]. intros [Htx Hcx]. by apply (Hno x).
    + by intros [->|[Hx _]]; [left|right].
Qed.

(** [all] lists the live entries, each once. *)
Lemma elem_of_all tr e : tracker_ok tr -> e ∈ all tr <-> live tr e.
Proof.
  intros Hok. unfold all. rewrite merge_sort_Permutation, list_elem_of_omap. split.
  - intros ([p id] & Hin & Ho). apply elem_of_map_to_list in Hin. simpl in Ho.
    destruct (tk_ptr tr Hok p id Hin) as (x & Hx & <- & _). rewrite Ho in Hx. injection Hx as ->.
    destruct (tk_seq tr Hok id x Ho) as [<- _]. by split.
  - intros [Ho Hp]. exists (te_ptr e, te_seq e). split; [by apply elem_of_map_to_list|done].
Qed.

Lemma all_NoDup tr : tracker_ok tr -> NoDup (all tr).
Proof.
  intros Hok. unfold all. rewrite merge_sort_Permutation.
  assert (H : NoDup (map_to_list (byPtr tr)).*1) by apply NoDup_fst_map_to_list.
  assert (Hin : forall pid, pid ∈ map_to_list (byPtr tr) -> byPtr tr !! pid.1 = Some pid.2)
    by (intros [p id] Hp; by apply elem_of_map_to_list).
  revert H Hin. generalize (map_to_list (byPtr tr)) as l.
  induction l as [|[p id] l IH]; intros Hnd Hin; [constructor|].
  apply NoDup_cons in Hnd as [Hp Hnd]. specialize (IH Hnd (fun x Hx => Hin x (list_elem_of_further _ _ _ Hx))).
  simpl. destruct (objects tr !! id) as [e|] eqn:Eo; [|done].
  constructor; [|done]. intros ([p2 id2] & Hin2 & Ho)%list_elem_of_omap. simpl in Ho.
  apply Hp. apply list_elem_of_fmap. exists (p2, id2). split; [|done]. simpl.
  pose proof (Hin (p2, id2) (list_elem_of_further _ _ _ Hin2)) as H2.
  pose proof (Hin (p, id) (list_elem_of_here _ _)) as H1. simpl in H1, H2.
  destruct (tk_ptr tr Hok _ _ H1) as (e1 & He1 & <- & _).
  destruct (tk_ptr tr Hok _ _ H2) as (e2 & He2 & <- & _). congruence.
Qed.

#[export] Instance by_seq_trans : Transitive by_seq.
Proof. unfold by_seq. intros a b c. lia. Qed.
#[export] Instance by_seq_total : Total by_seq.
Proof. unfold by_seq. intros a b. lia. Qed.

Lemma all_sorted tr : Sorted by_seq (all tr).
Proof. apply Sorted_merge_sort, _. Qed.

End Invariant.

(** * Theorems *)

(** C8. The identity map keeps one instance per key and one key per instance.
    Registering an instance under a well-typed key never panics and keeps the
    invariant; the new entry is found by its key and by its instance, and the
    entries that stay tracked are exactly those of other instances with other
    keys. *)
Theorem register_one_instance_per_key (key_types : GoType -> list KeyType) (tr : tracker)
    (m : EntityMap) (p : Ptr) (key : KeyTuple) (snapshot : list Value)
    (Hok : tracker_ok key_types tr) (Hk : tuple_of (key_types (Type_ m)) key) :
  exists tr' e, register tr m p key snapshot = Ok (tr', e) /\ tracker_ok key_types tr' /\
    te_ptr e = p /\ te_key e = key /\ te_snapshot e = snapshot /\
    find tr' (Type_ m) key = Ok (Some e) /\ entryOf tr' p = Some e /\
    forall x, live tr' x <-> x = e \/
      (live tr x /\ te_ptr x <> p /\
       ~ (te_type x = Type_ m /\ KeyTuple_Compare (te_key x) key = Ok 0%Z)).
Proof.
  destruct (register_spec key_types tr m p key snapshot Hok Hk) as (tr' & Hr & Hok' & Hl).
  exists tr', (mkEntry p m key snapshot (S (nextSeq tr))). split; [done|]. split; [done|].
  do 3 (split; [done|]).
  assert (Hlive : live tr' (mkEntry p m key snapshot (S (nextSeq tr)))) by (apply Hl; by left).
  split; [|split; [by apply (entryOf_live key_types)|]].
  - destruct (find_spec key_types tr' (Type_ m) key Hok' Hk) as [(h & -> & Hh & Hth & Hch)|(_ & Hno)].
    + do 2 f_equal. apply (same_key_same_entry key_types tr' h _ key); try done.
      by eapply key_cmp_refl.
    + destruct (Hno _ Hlive eq_refl). by eapply key_cmp_refl.
  - intros x. rewrite Hl. split.
    + intros [->|(Hx & Hp & Hn)]; [by left|]. right. split; [done|]. split; [done|].
      intros [Ht Hc]. apply Hn. split; [done|]. unfold key_cmp. by rewrite Hc.
    + intros [->|(Hx & Hp & Hn)]; [by left|]. right. split; [done|]. split; [done|].
      intros [Ht Hc]. apply Hn. split; [done|]. rewrite (key_cmp_Ok key_types (Type_ m)); [congruence| |done].
      destruct (tk_listed _ tr Hok (te_type x)) as [es Hes].
      pose proof (live_listed _ _ _ _ _ Hok Hes Hx eq_refl) as Hin.
      apply list_elem_of_lookup in Hin as [i Hi].
      rewrite <- Ht. by eapply listed_entry.
Qed.

(** [find] refines lookup in the set of tracked entries: it never panics, and
    answers the one tracked entry of the type with that key, or none when
    there is none. *)
Theorem find_refines_lookup (key_types : GoType -> list KeyType) (tr : tracker)
    (t : GoType) (key : KeyTuple)
    (Hok : tracker_ok key_types tr) (Hk : tuple_of (key_types t) key) :
  exists answer, find tr t key = Ok answer /\
    forall e, answer = Some e <->
      live tr e /\ te_type e = t /\ KeyTuple_Compare (te_key e) key = Ok 0%Z.
Proof.
  assert (Hcmp : forall e, live tr e -> te_type e = t ->
            KeyTuple_Compare (te_key e) key = Ok (key_cmp (te_key e) key)).
  { intros e He <-. destruct (tk_listed _ tr Hok (te_type e)) as [es Hes].
    pose proof (live_listed _ _ _ _ _ Hok Hes He eq_refl) as Hin.
    apply list_elem_of_lookup in Hin as [i Hi].
    apply (key_cmp_Ok key_types (te_type e)); [by eapply listed_entry|done]. }
  destruct (find_spec key_types tr t key Hok Hk) as [(h & Hf & Hh & Hth & Hch)|(Hf & Hno)].
  - exists (Some h). split; [done|]. intros e. split.
    + intros [= <-]. split; [done|]. split; [done|]. by rewrite Hcmp, Hch.
    + intros (He & Hte & Hce). rewrite Hcmp in Hce by done. injection Hce as Hce. f_equal.
      apply (same_key_same_entry key_types tr h e key); try done; [congruence|by rewrite Hte].
  - exists None. split; [done|]. intros e. split; [done|]. intros (He & Hte & Hce).
    rewrite Hcmp in Hce by done. injection Hce as Hce. by destruct (Hno e He Hte).
Qed.

(** [restore] undoes [forget]: a tracked entry that a flush forgot and its
    rollback restores leaves the map with exactly the entries it had, found
    under the same keys, with their snapshots and registration order. *)
Theorem forget_restore_round_trip (key_types : GoType -> list KeyType) (tr : tracker)
    (e : trackedEntry) (Hok : tracker_ok key_types tr) (He : live tr e) :
  exists tr1 tr2, forget tr e = Ok tr1 /\ tracker_ok key_types tr1 /\ entryOf tr1 (te_ptr e) = None /\
    restore tr1 e = Ok tr2 /\ tracker_ok key_types tr2 /\
    (forall x, live tr2 x <-> live tr x) /\
    (forall p, entryOf tr2 p = entryOf tr p) /\ all tr2 ≡ₚ all tr.
Proof.
  destruct (forget_spec key_types tr e Hok He) as (tr1 & Hf & Hok1 & Hw).
  assert (Hk : well_keyed key_types e).
  { destruct (tk_listed _ tr Hok (te_type e)) as [es Hes].
    pose proof (live_listed _ _ _ _ _ Hok Hes He eq_refl) as Hin.
    apply list_elem_of_lookup in Hin as [i Hi]. by eapply listed_entry. }
  assert (Hre : restorable key_types tr1 e).
  { split; [done| |].
    - rewrite (wo_objects _ _ _ Hw). apply He.
    - left. rewrite (wo_byPtr _ _ _ Hw). apply lookup_delete_eq. }
  destruct (restore_spec key_types tr1 e Hok1 Hre) as (tr2 & Hr & Hok2 & Hl).
  assert (Hlive : forall x, live tr2 x <-> live tr x).
  { intros x. rewrite Hl, (without_live _ _ _ _ Hw). split.
    - by intros [->|[[Hx _] _]].
    - intros Hx. destruct (decide (te_ptr x = te_ptr e)) as [E|E].
      + left. by apply (live_ptr_inj tr).
      + right. split; [done|]. intros [Ht Hc]. apply E. f_equal.
        apply (same_key_same_entry key_types tr x e (te_key e)); try done. by eapply key_cmp_refl. }
  exists tr1, tr2. split; [done|]. split; [done|]. split.
  { destruct (entryOf tr1 (te_ptr e)) as [x|] eqn:Ex; [|done].
    apply (entryOf_live key_types tr1 _ x Hok1) in Ex as [Hx Hp].
    apply (without_live _ _ _ _ Hw) in Hx as [_ Hx]. by rewrite Hp in Hx. }
  split; [done|]. split; [done|]. split; [done|].
  assert (Hentry : forall p, entryOf tr2 p = entryOf tr p).
  { intros p. apply option_eq. intros x.
    rewrite (entryOf_live key_types tr2), (entryOf_live key_types tr) by done. by rewrite Hlive. }
  split; [done|]. apply NoDup_Permutation.
  - apply (all_NoDup key_types tr2 Hok2).
  - apply (all_NoDup key_types tr Hok).
  - intros x. by rewrite (elem_of_all key_types tr2), (elem_of_all key_types tr), Hlive.
Qed.

(** * A concrete session: two users *)

Definition user_type : GoType := mkGoType "sample" "User".
Definition user_map : EntityMap :=
  NewEntityMap user_type RelationTable "users" "" ""
    [mkProperty None "ID" "id" (mkField false (TyInt KInt64)) TypeInt64 false true false false AuditNone false None 0 0 0 None None]
    KeyNatural [] [].
Definition int_key (_ : GoType) : list KeyType := [KTInt KInt64].

Lemma int_key_typed z :
  in_bounds KInt64 z = true -> tuple_of (int_key user_type) [VInt KInt64 z].
Proof. intros Hz. by repeat constructor. Qed.

Definition one_user : tracker :=
  match register newTracker user_map 1 [VInt KInt64 7] [VInt KInt64 7] with
  | Ok (tr, _) => tr
  | Fail _ => newTracker
  end.
Definition user_entry : trackedEntry := mkEntry 1 user_map [VInt KInt64 7] [VInt KInt64 7] 1.

Lemma one_user_ok : tracker_ok int_key one_user.
Proof.
  destruct (register_spec int_key newTracker user_map 1 [VInt KInt64 7] [VInt KInt64 7])
    as (tr & Hr & Hok & _); [apply newTracker_ok|by apply int_key_typed|].
  unfold one_user. rewrite Hr. exact Hok.
Qed.

Lemma user_entry_live : live one_user user_entry.
Proof. split; vm_compute; reflexivity. Qed.

Lemma register_one_instance_per_key_witness :
  exists tr' e, register one_user user_map 2 [VInt KInt64 7] [VInt KInt64 7] = Ok (tr', e) /\
    find tr' user_type [VInt KInt64 7] = Ok (Some e) /\ te_ptr e = 2 /\ entryOf tr' 1 = None.
Proof.
  destruct (register_one_instance_per_key int_key one_user user_map 2 [VInt KInt64 7]
    [VInt KInt64 7] one_user_ok (int_key_typed 7 eq_refl)) as (tr' & e & Hr & _ & Hp & _ & _ & Hf & _).
  exists tr', e. split; [exact Hr|]. split; [exact Hf|]. split; [exact Hp|].
  assert (E : Ok (tr', e) = register one_user user_map 2 [VInt KInt64 7] [VInt KInt64 7]) by done.
  vm_compute in E. injection E as -> _. vm_compute. reflexivity.
Defined.

Lemma find_refines_lookup_witness :
  find one_user user_type [VInt KInt64 7] = Ok (Some user_entry) /\
  exists answer, find one_user user_type [VInt KInt64 8] = Ok answer /\
    forall e, answer = Some e <-> live one_user e /\ te_type e = user_type /\
      KeyTuple_Compare (te_key e) [VInt KInt64 8] = Ok 0%Z.
Proof.
  split; [vm_compute; reflexivity|].
  apply (find_refines_lookup int_key one_user user_type [VInt KInt64 8] one_user_ok).
  by apply int_key_typed.
Defined.

Lemma forget_restore_round_trip_witness :
  exists tr1 tr2, forget one_user user_entry = Ok tr1 /\ restore tr1 user_entry = Ok tr2 /\
    entryOf tr1 1 = None /\ entryOf tr2 1 = Some user_entry.
Proof.
  destruct (forget_restore_round_trip int_key one_user user_entry one_user_ok user_entry_live)
    as (tr1 & tr2 & Hf & _ & Hn & Hr & _ & _ & He & _).
  exists tr1, tr2. split; [exact Hf|]. split; [exact Hr|]. split; [exact Hn|].
  rewrite He. vm_compute. reflexivity.
Defined.
