(* ===== verification/DependencyOrder.v ===== *)
(** [dependencyOrder] (flush.go): the one ordering both phases of a flush use - a
    topological order that takes the smallest ready node at each step.

    [container/heap] is modelled by what its documentation promises, [Pop]
    removes a minimal element of the ready nodes: the first minimal one of the
    list here.  Under the total order the callers pass, the minimum is unique,
    so the choice is the heap's. *)
From S2P Require Import Prelude.

Section Order.
Context (n : nat) (dependencies : nat -> list nat) (less : nat -> nat -> bool).

(** The [seen] loop: each distinct dependency other than the node itself. *)
Fixpoint distinct_from (i : nat) (seen : list nat) (l : list nat) : list nat :=
  match l with
  | [] => []
  | d :: l' =>
      if decide (d = i \/ d ∈ seen) then distinct_from i seen l'
      else d :: distinct_from i (d :: seen) l'
  end.
Definition waits_for (i : nat) : list nat := distinct_from i [] (dependencies i).

Definition waiting0 : list nat := (fun i => length (waits_for i)) <$> seq 0 n.

(** [dependents[d]], in the order the outer loop appends. *)
Definition dependents (d : nat) : list nat :=
  List.filter (fun i => bool_decide (d ∈ waits_for i)) (seq 0 n).

Definition ready0 : list nat := List.filter (fun i => bool_decide (waits_for i = [])) (seq 0 n).

(** [heap.Pop]: a minimal ready node and the others. *)
Fixpoint pop_min (x : nat) (rest : list nat) : nat * list nat :=
  match rest with
  | [] => (x, [])
  | y :: rest' =>
      if less y x then let '(m, others) := pop_min y rest' in (m, x :: others)
      else let '(m, others) := pop_min x rest' in (m, y :: others)
  end.

(** The inner loop: a dependent whose last dependency this was becomes ready. *)
Definition release (st : list nat * list nat) (dependent : nat) : list nat * list nat :=
  let '(waiting, ready) := st in
  let left_ := pred (default 0 (waiting !! dependent)) in
  (<[dependent := left_]> waiting,
   if decide (left_ = 0) then ready ++ [dependent] else ready).

Fixpoint drain (fuel : nat) (waiting ready : list nat) : list nat :=
  match fuel, ready with
  | S fuel', x :: rest =>
      let '(node, others) := pop_min x rest in
      let '(waiting', ready') := fold_left release (dependents node) (waiting, others) in
      node :: drain fuel' waiting' ready'
  | _, _ => []
  end.

(** Every turn orders one more node, so [n + 1] turns are enough: [drain_spec]
    has every node whose dependencies are ordered in the order. *)
Definition dependencyOrder : list nat * bool :=
  let order := drain (S n) waiting0 ready0 in
  (order, bool_decide (length order = n)).

(** * Lemmas *)

Lemma distinct_from_elem i seen l d :
  d ∈ distinct_from i seen l <-> d ∈ l /\ d <> i /\ d ∉ seen.
Proof.
  revert seen. induction l as [|x l IH]; intros seen; simpl; [set_solver|].
  case_decide as Hx; rewrite ?elem_of_cons, IH, ?elem_of_cons, ?not_elem_of_cons.
  - split; [tauto|]. intros ([->|Hl] & H1 & H2); [|tauto]. destruct Hx; [done|done].
  - destruct (decide (d = x)) as [->|]; [|tauto].
    split; [|tauto]. intros _. split; [by left|]. split; tauto.
Qed.

Lemma distinct_from_nodup i seen l : NoDup (distinct_from i seen l).
Proof.
  revert seen. induction l as [|x l IH]; intros seen; simpl; [constructor|].
  case_decide; [done|]. constructor; [|done]. rewrite distinct_from_elem.
  intros (_ & _ & H2). apply H2. by left.
Qed.

Lemma waits_for_elem i d : d ∈ waits_for i <-> d ∈ dependencies i /\ d <> i.
Proof.
  unfold waits_for. rewrite distinct_from_elem. pose proof (not_elem_of_nil d). tauto.
Qed.

Lemma dependents_elem d i : i ∈ dependents d <-> i < n /\ d ∈ waits_for i.
Proof.
  unfold dependents. rewrite list_elem_of_In, filter_In, in_seq, bool_decide_eq_true.
  split; intros [H1 H2]; (split; [lia|done]).
Qed.

Lemma seq_filter_nodup f : NoDup (List.filter f (seq 0 n)).
Proof. apply NoDup_ListNoDup, List.NoDup_filter, List.seq_NoDup. Qed.

(** How many dependencies of [i] are not done. *)
Definition pending (done : list nat) (i : nat) : list nat :=
  List.filter (fun d => bool_decide (d ∉ done)) (waits_for i).

Lemma pending_elem done i d : d ∈ pending done i <-> d ∈ waits_for i /\ d ∉ done.
Proof. unfold pending. by rewrite list_elem_of_In, filter_In, <- list_elem_of_In, bool_decide_eq_true. Qed.

Lemma filter_drop_one (l : list nat) x done :
  NoDup l -> x ∈ l -> x ∉ done ->
  length (List.filter (fun d => bool_decide (d ∉ done)) l)
  = S (length (List.filter (fun d => bool_decide (d ∉ x :: done)) l)).
Proof.
  induction 1 as [|y l Hy Hnd IH]; intros Hx Hd; [by apply not_elem_of_nil in Hx|]. simpl.
  destruct (decide (x = y)) as [<-|Hne].
  - rewrite bool_decide_true, bool_decide_false by (rewrite ?not_elem_of_cons; tauto). simpl.
    do 2 f_equal. clear IH Hnd Hx. induction l as [|z l IH]; [done|]. simpl.
    apply not_elem_of_cons in Hy as [Hz Hy]. rewrite IH by done.
    rewrite (bool_decide_ext (z ∉ x :: done) (z ∉ done)); [done|].
    rewrite not_elem_of_cons. intuition congruence.
  - apply elem_of_cons in Hx as [?|Hx]; [congruence|]. specialize (IH Hx Hd).
    rewrite (bool_decide_ext (y ∉ x :: done) (y ∉ done)) by (rewrite not_elem_of_cons; intuition congruence).
    destruct (bool_decide (y ∉ done)); simpl; lia.
Qed.

Lemma filter_drop_none (l : list nat) x done :
  x ∉ l ->
  length (List.filter (fun d => bool_decide (d ∉ x :: done)) l)
  = length (List.filter (fun d => bool_decide (d ∉ done)) l).
Proof.
  induction l as [|y l IH]; [done|]. rewrite not_elem_of_cons. intros [Hxy Hx]. simpl.
  rewrite (bool_decide_ext (y ∉ x :: done) (y ∉ done)) by (rewrite not_elem_of_cons; intuition congruence).
  destruct (bool_decide (y ∉ done)); simpl; by rewrite IH.
Qed.

(** ** Pop *)

Lemma pop_min_perm x rest m others : pop_min x rest = (m, others) -> x :: rest ≡ₚ m :: others.
Proof.
  revert x m others. induction rest as [|y rest IH]; intros x m others; simpl; [by intros [= <- <-]|].
  destruct (less y x).
  - destruct (pop_min y rest) as [m' o'] eqn:E. intros [= <- <-]. rewrite (IH _ _ _ E). constructor.
  - destruct (pop_min x rest) as [m' o'] eqn:E. intros [= <- <-].
    rewrite (Permutation_swap y x), (IH _ _ _ E). constructor.
Qed.

(** The order the heap compares with. *)
Class StrictOrder : Prop := {
  less_irrefl a : less a a = false;
  less_trans a b c : less a b = true -> less b c = true -> less a c = true }.

Lemma pop_min_le `{!StrictOrder} x rest m others :
  pop_min x rest = (m, others) -> m = x \/ less m x = true.
Proof.
  revert x m others. induction rest as [|z rest IH]; intros x m others; simpl.
  - intros [= <- <-]. by left.
  - destruct (less z x) eqn:Ez.
    + destruct (pop_min z rest) as [m' o'] eqn:E. intros [= <- <-].
      destruct (IH _ _ _ E) as [->|Hl]; [by right|]. right. by eapply less_trans.
    + destruct (pop_min x rest) as [m' o'] eqn:E. intros [= <- <-]. by eapply IH.
Qed.

Lemma pop_min_least `{!StrictOrder} x rest m others :
  pop_min x rest = (m, others) -> forall y, y ∈ x :: rest -> less y m = false.
Proof.
  revert x m others. induction rest as [|z rest IH]; intros x m others; simpl.
  - intros [= <- <-] y ->%list_elem_of_singleton. apply less_irrefl.
  - destruct (less z x) eqn:Ez.
    + destruct (pop_min z rest) as [m' o'] eqn:E. intros [= <- <-] y [->|Hy]%elem_of_cons.
      * destruct (less x m') eqn:Ex; [|done].
        pose proof (less_trans _ _ _ Ez Ex) as Hz.
        by rewrite (IH _ _ _ E z (list_elem_of_here _ _)) in Hz.
      * by apply (IH _ _ _ E).
    + destruct (pop_min x rest) as [m' o'] eqn:E.
      intros [= <- <-] y [->|[->|Hy]%elem_of_cons]%elem_of_cons.
      * apply (IH _ _ _ E). by left.
      * destruct (less z m') eqn:Hz; [|done].
        destruct (pop_min_le _ _ _ _ E) as [->|Hm]; [congruence|].
        pose proof (less_trans _ _ _ Hz Hm). congruence.
      * apply (IH _ _ _ E). by right.
Qed.

(** ** The loop invariant *)

Lemma pending_snoc done node i :
  node ∉ done ->
  length (pending (done ++ [node]) i)
  = if decide (node ∈ waits_for i) then pred (length (pending done i))
    else length (pending done i).
Proof.
  intros Hnode. unfold pending.
  rewrite (filter_ext _ (fun d => bool_decide (d ∉ node :: done))).
  2:{ intros d. apply bool_decide_ext.
      rewrite not_elem_of_app, !not_elem_of_cons. pose proof (not_elem_of_nil d). tauto. }
  case_decide as Hin.
  - by rewrite (filter_drop_one _ node done); [|apply distinct_from_nodup| |].
  - by apply filter_drop_none.
Qed.

Lemma nodup_range_length l : NoDup l -> Forall (fun i => i < n) l -> length l <= n.
Proof.
  intros Hnd Hr. rewrite <- (length_seq n 0). apply submseteq_length, NoDup_submseteq; [done|].
  intros i Hi. rewrite Forall_forall in Hr. apply elem_of_seq. specialize (Hr i Hi). lia.
Qed.

(** Having ordered [done], the counters count what each node still waits for,
    and the ready nodes are those that wait for nothing. *)
Record loop_inv (done waiting ready : list nat) : Prop := {
  lv_nodup : NoDup (done ++ ready);
  lv_range : Forall (fun i => i < n) (done ++ ready);
  lv_waiting : forall i, i < n -> waiting !! i = Some (length (pending done i));
  lv_length : length waiting = n;
  lv_ready : forall i, i < n -> (i ∈ done ++ ready <-> pending done i = []) }.

Lemma fold_release ds waiting ready :
  NoDup ds -> (forall d, d ∈ ds -> d < length waiting) ->
  let '(waiting', ready') := fold_left release ds (waiting, ready) in
  length waiting' = length waiting /\
  (forall i, waiting' !! i = if decide (i ∈ ds) then pred <$> waiting !! i else waiting !! i) /\
  ready' = ready ++ List.filter (fun d => bool_decide (waiting' !! d = Some 0)) ds.
Proof.
  intros Hnd. revert waiting ready. induction Hnd as [|d ds Hd Hnd IH]; intros waiting ready Hlt.
  - split; [done|]. split; [done|]. by rewrite app_nil_r.
  - assert (Hd' : d < length waiting) by (apply Hlt; by left).
    apply lookup_lt_is_Some in Hd' as [w Hw].
    set (waiting1 := <[d:=pred w]> waiting).
    set (ready1 := if decide (pred w = 0) then ready ++ [d] else ready).
    assert (Hstep : fold_left release (d :: ds) (waiting, ready) = fold_left release ds (waiting1, ready1))
      by (cbn [fold_left]; unfold release at 2; by rewrite Hw).
    rewrite Hstep. clear Hstep.
    specialize (IH waiting1 ready1).
    destruct (fold_left release ds (waiting1, ready1)) as [waiting' ready'].
    destruct IH as (Hlen & Hat & Hready).
    { intros x Hx. subst waiting1. rewrite length_insert. apply Hlt. by right. }
    subst waiting1. rewrite length_insert in Hlen. cbv beta iota.
    assert (Hd1 : waiting' !! d = Some (pred w)).
    { rewrite Hat, decide_False by done. apply list_lookup_insert_eq. by eapply lookup_lt_Some. }
    split; [done|].
    split.
    + intros i. destruct (decide (i = d)) as [->|Hne].
      * rewrite decide_True by left. by rewrite Hd1, Hw.
      * rewrite Hat, list_lookup_insert_ne by done.
        rewrite (decide_ext (i ∈ ds) (i ∈ d :: ds)); [done|]. rewrite elem_of_cons. tauto.
    + rewrite Hready. subst ready1. cbn [List.filter]. rewrite Hd1.
      destruct (decide (pred w = 0)) as [E|E].
      * rewrite E, bool_decide_true by done. by rewrite <- app_assoc.
      * rewrite bool_decide_false by congruence. done.
Qed.

Lemma loop_step done waiting x rest node others :
  loop_inv done waiting (x :: rest) -> pop_min x rest = (node, others) ->
  let '(waiting', ready') := fold_left release (dependents node) (waiting, others) in
  loop_inv (done ++ [node]) waiting' ready' /\
  node ∉ done /\ node < n /\ pending done node = [].
Proof.
  intros [Hnd Hr Hw Hl Hrd] Hpop. pose proof (pop_min_perm _ _ _ _ Hpop) as Hperm.
  rewrite Hperm in Hnd, Hr.
  assert (Hnode : node ∉ done /\ node < n).
  { split; [|rewrite Forall_forall in Hr; apply Hr; rewrite elem_of_app, elem_of_cons; tauto].
    apply NoDup_app in Hnd as (_ & Hno & _). intros Hin. apply (Hno node Hin). by left. }
  assert (Hready : forall i, i < n -> (i ∈ done ++ node :: others <-> pending done i = []))
    by (intros i Hi; rewrite <- Hperm; by apply Hrd).
  assert (Hpn : pending done node = [])
    by (apply Hready; [apply Hnode|rewrite elem_of_app, elem_of_cons; tauto]).
  pose proof (fold_release (dependents node) waiting others (seq_filter_nodup _)) as Hf.
  destruct (fold_left release (dependents node) (waiting, others)) as [waiting' ready'].
  destruct Hf as (Hlen & Hat & ->).
  { intros d Hd. apply dependents_elem in Hd. lia. }
  assert (Hwait : forall i, i < n -> waiting' !! i = Some (length (pending (done ++ [node]) i))).
  { intros i Hi. rewrite Hat, Hw, pending_snoc by (done || apply Hnode).
    rewrite (decide_ext (i ∈ dependents node) (node ∈ waits_for i))
      by (rewrite dependents_elem; tauto). by case_decide. }
  split; [|split; [apply Hnode|split; [apply Hnode|done]]].
  set (fresh := List.filter _ (dependents node)).
  assert (Hfresh : forall d, d ∈ fresh <-> d < n /\ node ∈ waits_for d /\ pending (done ++ [node]) d = []).
  { intros d. subst fresh. rewrite list_elem_of_In, filter_In, <- list_elem_of_In, bool_decide_eq_true,
      dependents_elem. split.
    - intros [[H1 H2] H3]. rewrite Hwait in H3 by done. injection H3 as H3.
      split; [done|]. split; [done|]. by apply length_zero_iff_nil.
    - intros (H1 & H2 & H3). rewrite Hwait, H3 by done. auto. }
  assert (Hold : forall i, i ∈ done ++ node :: others -> i ∉ fresh).
  { intros i Hi Hin. apply Hfresh in Hin as (Hlt & Hwt & _). apply Hready in Hi; [|done].
    apply (not_elem_of_nil node). rewrite <- Hi. apply pending_elem. split; [done|apply Hnode]. }
  assert (Hshape : (done ++ [node]) ++ others ++ fresh = (done ++ node :: others) ++ fresh)
    by (by rewrite <- !app_assoc).
  split.
  - rewrite Hshape. apply NoDup_app. split; [done|]. split; [exact Hold|].
    apply NoDup_ListNoDup, List.NoDup_filter, NoDup_ListNoDup, seq_filter_nodup.
  - rewrite Hshape. apply Forall_app. split; [done|]. apply Forall_forall. intros i Hi.
    by apply Hfresh in Hi as [? _].
  - done.
  - congruence.
  - intros i Hi. rewrite Hshape, elem_of_app, Hready, Hfresh by done.
    pose proof (pending_snoc done node i (proj1 Hnode)) as Hp. split.
    + intros [H1|(_ & _ & H1)]; [|done]. rewrite H1 in Hp. apply length_zero_iff_nil.
      rewrite Hp. by case_decide.
    + intros H1. rewrite H1 in Hp. simpl in Hp. case_decide as Hin; [by right|]. left.
      by apply length_zero_iff_nil.
Qed.

Lemma initial_inv : loop_inv [] waiting0 ready0.
Proof.
  assert (Hp : forall i, pending [] i = waits_for i).
  { intros i. unfold pending. rewrite (filter_ext _ (fun _ => true)).
    - induction (waits_for i) as [|x l IH]; [done|]. simpl. by rewrite IH.
    - intros d. apply bool_decide_true, not_elem_of_nil. }
  assert (Hr : forall i, i ∈ ready0 <-> i < n /\ waits_for i = []).
  { intros i. unfold ready0. rewrite list_elem_of_In, filter_In, in_seq, bool_decide_eq_true.
    split; intros [H1 H2]; (split; [lia|done]). }
  split.
  - apply seq_filter_nodup.
  - apply Forall_forall. intros i Hi. by apply Hr in Hi as [? _].
  - intros i Hi. unfold waiting0. rewrite list_lookup_fmap, lookup_seq_lt by done. simpl.
    by rewrite Hp.
  - unfold waiting0. by rewrite length_fmap, length_seq.
  - intros i Hi. simpl. rewrite Hr, Hp. tauto.
Qed.

(** ** The whole order *)

(** [order] respects the dependencies when it follows [done]. *)
Inductive respects : list nat -> list nat -> Prop :=
  | respects_nil done : respects done []
  | respects_cons done i order :
      i ∉ done -> i < n -> (forall d, d ∈ waits_for i -> d ∈ done) ->
      respects (done ++ [i]) order -> respects done (i :: order).

(** Each node taken is minimal among the nodes that could be taken then. *)
Inductive greedy : list nat -> list nat -> Prop :=
  | greedy_nil done : greedy done []
  | greedy_cons done i order :
      (forall j, j < n -> j ∉ done -> (forall d, d ∈ waits_for j -> d ∈ done) -> less j i = false) ->
      greedy (done ++ [i]) order -> greedy done (i :: order).

Lemma pending_nil done i : pending done i = [] <-> forall d, d ∈ waits_for i -> d ∈ done.
Proof.
  split.
  - intros H d Hd. destruct (decide (d ∈ done)) as [|Hn]; [done|].
    exfalso. apply (not_elem_of_nil d). rewrite <- H. by apply pending_elem.
  - intros H. destruct (pending done i) as [|d l] eqn:E; [done|].
    assert (Hd : d ∈ pending done i) by (rewrite E; left).
    apply pending_elem in Hd as [Hd Hn]. by destruct (Hn (H d Hd)).
Qed.

Lemma drain_spec `{!StrictOrder} fuel done waiting ready :
  loop_inv done waiting ready -> n < length done + fuel ->
  respects done (drain fuel waiting ready) /\ greedy done (drain fuel waiting ready) /\
  (forall i, i < n -> pending (done ++ drain fuel waiting ready) i = [] ->
     i ∈ done ++ drain fuel waiting ready).
Proof.
  revert done waiting ready. induction fuel as [|fuel IH]; intros done waiting ready Hinv Hf.
  { exfalso. pose proof (lv_nodup _ _ _ Hinv) as Hnd. apply NoDup_app in Hnd as (Hnd & _ & _).
    pose proof (lv_range _ _ _ Hinv) as Hr. apply Forall_app in Hr as [Hr _].
    pose proof (nodup_range_length done Hnd Hr). lia. }
  destruct ready as [|x rest].
  { simpl. split; [constructor|]. split; [constructor|]. intros i Hi Hp. rewrite app_nil_r in *.
    apply (lv_ready _ _ _ Hinv i Hi) in Hp. by rewrite app_nil_r in Hp. }
  cbn [drain]. destruct (pop_min x rest) as [node others] eqn:Epop.
  pose proof (loop_step _ _ _ _ _ _ Hinv Epop) as Hstep.
  destruct (fold_left release (dependents node) (waiting, others)) as [waiting' ready'].
  destruct Hstep as (Hinv' & Hnode & Hlt & Hpn).
  destruct (IH _ _ _ Hinv') as (Hres & Hgr & Hcomp); [rewrite length_app; simpl; lia|].
  split; [|split].
  - constructor; [done|done|by apply pending_nil|done].
  - constructor; [|done]. intros j Hj Hjd Hjw.
    apply (pop_min_least x rest node others Epop).
    apply pending_nil, (lv_ready _ _ _ Hinv j Hj) in Hjw.
    apply elem_of_app in Hjw as [?|?]; [done|done].
  - intros i Hi. rewrite cons_middle, app_assoc. apply Hcomp. done.
Qed.

Fixpoint position (i : nat) (order : list nat) : nat :=
  match order with
  | [] => 0
  | x :: order' => if decide (i = x) then 0 else S (position i order')
  end.

Lemma respects_position done order i d :
  respects done order -> i ∈ order -> d ∈ waits_for i ->
  d ∈ done \/ position d order < position i order.
Proof.
  induction 1 as [|done x order Hx Hlt Hw _ IH]; intros Hi Hd; [by apply not_elem_of_nil in Hi|].
  cbn [position]. destruct (decide (i = x)) as [->|Hix]; [left; auto|].
  apply elem_of_cons in Hi as [?|Hi]; [done|].
  case_decide as Hdx; [right; lia|].
  destruct (IH Hi Hd) as [Hdone|Hpos]; [|right; lia].
  apply elem_of_app in Hdone as [?|?%list_elem_of_singleton]; [by left|done].
Qed.

Lemma respects_valid done order :
  respects done order ->
  NoDup order /\ Forall (fun i => i < n) order /\ forall i, i ∈ order -> i ∉ done.
Proof.
  induction 1 as [|done x order Hx Hlt Hw _ (IH1 & IH2 & IH3)].
  { split; [constructor|]. split; [constructor|]. intros i Hi. by apply not_elem_of_nil in Hi. }
  split; [constructor; [|done]|split; [by constructor|]].
  - intros Hin. apply (IH3 x Hin). rewrite elem_of_app, list_elem_of_singleton. by right.
  - intros i [->|Hi]%elem_of_cons; [done|]. intros Hd. apply (IH3 i Hi).
    rewrite elem_of_app. by left.
Qed.

(** The dependencies can be ranked: they form no cycle. *)
Definition acyclic : Prop :=
  exists rank : nat -> nat, forall i d, i < n -> d ∈ dependencies i -> d <> i -> rank d < rank i.

Lemma full_order order :
  NoDup order -> Forall (fun i => i < n) order -> length order = n -> forall i, i < n -> i ∈ order.
Proof.
  intros Hnd Hr Hlen i Hi. destruct (decide (i ∈ order)) as [|Hn]; [done|].
  assert (Hl : length (i :: order) <= n)
    by (apply nodup_range_length; [by constructor|by constructor]).
  simpl in Hl. lia.
Qed.

Lemma acyclic_all_ordered order :
  acyclic -> (forall i d, i < n -> d ∈ dependencies i -> d < n) ->
  (forall i, i < n -> pending order i = [] -> i ∈ order) ->
  forall i, i < n -> i ∈ order.
Proof.
  intros [rank Hrank] Hrange Hcomp i. remember (rank i) as r eqn:Er. revert i Er.
  induction r as [r IH] using lt_wf_ind. intros i -> Hi. apply Hcomp; [done|].
  apply pending_nil. intros d [Hd Hne]%waits_for_elem.
  eapply (IH (rank d)); [by apply Hrank|done|by eapply Hrange].
Qed.

Lemma dependencyOrder_facts `{!StrictOrder} :
  (forall i d, i < n -> d ∈ dependencies i -> d < n) ->
  respects [] dependencyOrder.1 /\ greedy [] dependencyOrder.1 /\
  NoDup dependencyOrder.1 /\ Forall (fun i => i < n) dependencyOrder.1 /\
  (dependencyOrder.2 = true <-> acyclic) /\
  (dependencyOrder.2 = true <-> length dependencyOrder.1 = n).
Proof.
  intros Hrange. unfold dependencyOrder. cbn [fst snd].
  destruct (drain_spec (S n) [] waiting0 ready0 initial_inv) as (Hres & Hgr & Hcomp); [simpl; lia|].
  destruct (respects_valid _ _ Hres) as (Hnd & Hr & _).
  do 4 (split; [done|]). rewrite bool_decide_eq_true. split; [|done]. split.
  - intros Hlen. exists (fun i => position i (drain (S n) waiting0 ready0)). intros i d Hi Hd Hne.
    destruct (respects_position _ _ i d Hres) as [Hin|Hin]; [by apply full_order| |by apply not_elem_of_nil in Hin|done].
    by apply waits_for_elem.
  - intros Hac. apply Nat.le_antisymm; [by apply nodup_range_length|].
    rewrite <- (length_seq n 0) at 1. apply submseteq_length, NoDup_submseteq; [apply NoDup_seq|].
    intros i Hi%elem_of_seq. apply (acyclic_all_ordered _ Hac Hrange Hcomp). lia.
Qed.

(** [dependencyOrder] orders distinct nodes, each one after every node it
    depends on, each time the least node that could go next; and it orders them
    all, reporting [ok], exactly when the dependencies have no cycle. *)
Theorem dependencyOrder_correct `{!StrictOrder} :
  (forall i d, i < n -> d ∈ dependencies i -> d < n) ->
  respects [] dependencyOrder.1 /\ greedy [] dependencyOrder.1 /\
  NoDup dependencyOrder.1 /\ Forall (fun i => i < n) dependencyOrder.1 /\
  (dependencyOrder.2 = true <-> acyclic).
Proof. intros Hrange. by destruct (dependencyOrder_facts Hrange) as (? & ? & ? & ? & ? & _). Qed.

End Order.

(** * Ordering items

    The callers order a list of scheduled instances by its positions. *)

Section Items.
Context {A : Type} (items : list A) (dependencies : nat -> list nat) (less : nat -> nat -> bool).

(** [ordered[i] = items[index]] *)
Definition pick (order : list nat) : list A := omap (fun i => items !! i) order.

Definition precedes (l : list A) (x y : A) : Prop :=
  exists i j, i < j /\ l !! i = Some x /\ l !! j = Some y.

Lemma pick_lookup order j :
  Forall (fun i => i < length items) order ->
  pick order !! j = (order !! j) ≫= (fun i => items !! i).
Proof.
  intros H. revert j. induction H as [|i order Hi H IH]; intros j; [done|]. cbn.
  apply lookup_lt_is_Some in Hi as [x Hx]. rewrite Hx. destruct j as [|j]; cbn; [done|apply IH].
Qed.

Lemma pick_length order : Forall (fun i => i < length items) order -> length (pick order) = length order.
Proof.
  induction 1 as [|i order Hi H IH]; [done|]. cbn.
  apply lookup_lt_is_Some in Hi as [x Hx]. rewrite Hx. cbn. f_equal. exact IH.
Qed.

Lemma pick_seq_from (before : list A) (after : list A) :
  items = before ++ after -> pick (seq (length before) (length after)) = after.
Proof.
  revert before. induction after as [|x after IH]; intros before E; [done|]. cbn.
  rewrite E, list_lookup_middle by done. cbn. f_equal. rewrite <- E.
  specialize (IH (before ++ [x])). rewrite length_app in IH. cbn in IH.
  rewrite Nat.add_1_r in IH. apply IH. by rewrite E, <- app_assoc.
Qed.

Lemma pick_perm order :
  NoDup order -> Forall (fun i => i < length items) order -> length order = length items ->
  pick order ≡ₚ items.
Proof.
  intros Hnd Hr Hlen.
  assert (Hp : order ≡ₚ seq 0 (length items)).
  { apply NoDup_Permutation; [done|apply NoDup_seq|]. intros i. rewrite elem_of_seq. split.
    - intros Hi. rewrite Forall_forall in Hr. specialize (Hr i Hi). lia.
    - intros Hi. apply (full_order (length items)); [done|done|done|lia]. }
  unfold pick. rewrite Hp. apply Permutation_refl'. exact (pick_seq_from [] items eq_refl).
Qed.

Lemma respects_prefix n done order j i d :
  respects n dependencies done order -> order !! j = Some i -> d ∈ waits_for dependencies i ->
  d ∈ done \/ exists k, k < j /\ order !! k = Some d.
Proof.
  intros H. revert j. induction H as [|done x order Hx Hlt Hw _ IH]; intros j Hj Hd; [done|].
  destruct j as [|j]; cbn in Hj.
  - injection Hj as ->. left. auto.
  - destruct (IH j Hj Hd) as [Hin|(k & Hk & Hkd)].
    + apply elem_of_app in Hin as [?| ->%list_elem_of_singleton]; [by left|]. right. exists 0. split; [lia|done].
    + right. exists (S k). split; [lia|done].
Qed.

Lemma greedy_prefix n done order j i k :
  greedy n dependencies less done order -> order !! j = Some i ->
  k < n -> k ∉ done -> k ∉ take j order ->
  (forall d, d ∈ waits_for dependencies k -> d ∈ done \/ d ∈ take j order) -> less k i = false.
Proof.
  intros H. revert j. induction H as [|done x order Hx _ IH]; intros j Hj Hk Hnd Hnt Hw; [done|].
  destruct j as [|j]; cbn in *.
  - injection Hj as ->. apply Hx; [done|done|]. intros d Hd. destruct (Hw d Hd) as [?|[]%not_elem_of_nil]. done.
  - apply not_elem_of_cons in Hnt as [Hkx Hnt].
    apply (IH j Hj Hk); [|done|].
    + rewrite elem_of_app, list_elem_of_singleton. tauto.
    + intros d Hd. rewrite elem_of_app, list_elem_of_singleton. destruct (Hw d Hd) as [?|Hin]; [tauto|].
      apply elem_of_cons in Hin. tauto.
Qed.

(** What a successful order gives: the items themselves, an item after each one
    it waits for, and at each place the least of the items that could stand
    there. *)
Lemma ordered_items `{!StrictOrder less} :
  (forall i d, i < length items -> d ∈ dependencies i -> d < length items) ->
  let result := dependencyOrder (length items) dependencies less in
  (result.2 = true <-> acyclic (length items) dependencies) /\
  (result.2 = true ->
    let ordered := pick result.1 in
    ordered ≡ₚ items /\
    (forall i d x y, i <> d -> d ∈ dependencies i -> items !! i = Some x -> items !! d = Some y ->
       precedes ordered y x) /\
    (forall j x k y, ordered !! j = Some x -> items !! k = Some y ->
       (exists j', j <= j' /\ ordered !! j' = Some y /\ result.1 !! j' = Some k) ->
       (forall d z, d ∈ dependencies k -> d <> k -> items !! d = Some z -> z ∈ take j ordered) ->
       NoDup items -> exists i, items !! i = Some x /\ less k i = false)).
Proof.
  intros Hrange result. subst result.
  destruct (dependencyOrder_facts (length items) dependencies less Hrange)
    as (Hres & Hgr & Hnd & Hr & Hac & Hlen).
  set (order := (dependencyOrder (length items) dependencies less).1) in *.
  split; [done|]. intros Hok. apply Hlen in Hok. split; [by apply pick_perm|]. split.
  - intros i d x y Hne Hd Hi Hdy.
    assert (Hin : i ∈ order) by (apply (full_order (length items)); [done|done|done|by eapply lookup_lt_Some]).
    apply list_elem_of_lookup in Hin as [j Hj].
    assert (Hw : d ∈ waits_for dependencies i) by (apply (waits_for_elem 0 _ less); split; [done|congruence]).
    destruct (respects_prefix _ _ _ j i d Hres Hj Hw) as [[]%not_elem_of_nil|(k & Hk & Hkd)].
    exists k, j. split; [done|]. rewrite !pick_lookup, Hkd, Hj by done. done.
  - intros j x k y Hj Hk (j' & Hjj & _ & Hj') Hdeps Hitems.
    rewrite pick_lookup in Hj by done. destruct (order !! j) as [i|] eqn:Ei; [|done]. cbn in Hj.
    exists i. split; [done|]. apply (greedy_prefix _ [] order j i k Hgr Ei).
    + by eapply lookup_lt_Some.
    + apply not_elem_of_nil.
    + intros Ht. apply elem_of_take in Ht as (j2 & Hj2 & Hlt).
      pose proof (NoDup_lookup _ _ _ _ Hnd Hj' Hj2). lia.
    + intros d [Hd Hne]%(waits_for_elem 0 _ less). right.
      assert (Hdn : d < length items) by (eapply Hrange; [by eapply lookup_lt_Some|done]).
      apply lookup_lt_is_Some in Hdn as [z Hz]. specialize (Hdeps d z Hd Hne Hz).
      apply elem_of_take in Hdeps as (j2 & Hj2 & Hlt). rewrite pick_lookup in Hj2 by done.
      destruct (order !! j2) as [d'|] eqn:Ed; [|done]. cbn in Hj2.
      assert (d' = d) as -> by (by eapply NoDup_lookup). apply elem_of_take. eauto.
Qed.

End Items.

Lemma dependencyOrder_correct_witness :
  let deps := fun i => nth i [[2; 1]; [1]; [1; 1]; [0]] [] in
  dependencyOrder 4 deps Nat.ltb = ([1; 2; 0; 3], true) /\
  respects 4 deps [] [1; 2; 0; 3] /\ acyclic 4 deps.
Proof.
  intros deps.
  assert (Hs : StrictOrder Nat.ltb).
  { split; [apply Nat.ltb_irrefl|]. intros a b c. rewrite !Nat.ltb_lt. lia. }
  assert (Hr : forall i d, i < 4 -> d ∈ deps i -> d < 4).
  { intros i d Hi Hd. do 4 (destruct i as [|i]; [set_unfold in Hd; lia|]). lia. }
  assert (He : dependencyOrder 4 deps Nat.ltb = ([1; 2; 0; 3], true)) by reflexivity.
  destruct (dependencyOrder_correct 4 deps Nat.ltb Hr) as (H1 & _ & _ & _ & H2).
  rewrite He in H1, H2. split; [exact He|]. split; [exact H1|]. by apply H2.
Defined.
