(* ===== verification/Instances.v ===== *)
(** The program's objects (internal/core/metadata.go, owned.go, unit_of_work.go,
    tracker.go): entity instances behind pointers, the accessors [Get] and [Set],
    keys, the targets of a navigation, and the snapshots taken of an instance.

    Go reads and writes the instance by reflection; here it is a record of field
    values by property name, of the owned navigations that are allocated, and of
    the relationship navigations.  A field without a value holds its type's
    zero.  Every pointer the program holds is allocated. *)
From S2P Require Import Prelude GoStrings Values Core Tracker.

Inductive Navigation :=
  | NavSingle (target : option Ptr)
  (** a slice of pointers; of structs, the pointers to its elements *)
  | NavMany (targets : option (list (option Ptr))).

Record Instance := mkInstance {
  in_type : GoType;
  in_fields : gmap string Value;
  in_owned : gset string;
  in_navs : gmap string Navigation }.

Notation heap := (gmap Ptr Instance).

Definition new_instance : Instance := mkInstance (mkGoType "" "") ∅ ∅ ∅.
Definition deref (h : heap) (p : Ptr) : Instance := default new_instance (h !! p).

(** ** [PropertyMap.Get] and [PropertyMap.Set] *)

(** What a new field, or a nil assigned to it, holds. *)
Definition zero_field (p : PropertyMap) : Value :=
  if ft_pointer (PropertyType p) then VNil else zero_value (ft_elem (PropertyType p)).

(** [OwnedMap.navigation]: a struct, or a pointer that may be nil. *)
Definition navigation (o : OwnedMap) (i : Instance) : bool :=
  negb (ow_IsNullable o) || bool_decide (ow_PropertyName o ∈ in_owned i).

Definition allocate (o : OwnedMap) (i : Instance) : Instance :=
  if navigation o i then i
  else mkInstance (in_type i) (in_fields i) ({[ow_PropertyName o]} ∪ in_owned i) (in_navs i).

Definition field_value (p : PropertyMap) (i : Instance) : Value :=
  default (zero_field p) (in_fields i !! PropertyName p).

Definition Get (p : PropertyMap) (i : Instance) : Value :=
  match Owner p with
  | Some o => if navigation o i then field_value p i else VNil
  | None => field_value p i
  end.

Definition Target_ (p : PropertyMap) : string :=
  match DeclaringType p with
  | Some t => TypeShortName t +:+ "." +:+ PropertyName p
  | None => PropertyName p
  end.

Definition set_field (p : PropertyMap) (v : Value) (i : Instance) : Instance :=
  mkInstance (in_type i) (<[PropertyName p := v]> (in_fields i)) (in_owned i) (in_navs i).

(** The allocation of an owned navigation precedes the type check.  Assigning
    needs the value's type to be the field's ([AssignableTo]; a value of an
    unnamed type is a byte slice, whose field is one). *)
Definition Set_ (p : PropertyMap) (v : Value) : SM Instance unit :=
  smodify (fun i => match Owner p with Some o => allocate o i | None => i end) ;!
  if decide (v = VNil) then smodify (set_field p (zero_field p))
  else if has_type v (ft_elem (PropertyType p)) then smodify (set_field p v)
  else sthrow (NewError "MAP-030" (Target_ p)).

(** ** Keys *)

Definition extractTuple (properties : list PropertyMap) (i : Instance) : KeyTuple :=
  (fun p => Get p i) <$> properties.

Definition KeyValues (m : EntityMap) (i : Instance) : result (list Value) :=
  match KeyProperties m with
  | [] => Fail (NewError "CRUD-002" (EntityName m))
  | keys => Ok ((fun p => Get p i) <$> keys)
  end.

(** The second result is false when a key part is null. *)
Definition keyOf (m : EntityMap) (i : Instance) : KeyTuple * bool :=
  let tuple := extractTuple (KeyProperties m) i in (tuple, negb (HasNull tuple)).

(** [reflect.Value.IsZero] of a value that is not nil.  A byte slice of the
    model is never the nil slice; another named type is an integer, a string
    or a boolean (a struct's zero is not recognised). *)
Definition IsZero (v : Value) : bool :=
  match v with
  | VNil => false
  | VInt _ z => bool_decide (z = 0%Z)
  | VFloat _ f => match f with SpecFloat.S754_zero _ => true | _ => false end
  | VString s | VDecimal s => bool_decide (s = "")
  | VBool b => negb b
  | VBytes _ => false
  | VTime _ _ => bool_decide (v = zero_value TyTime)
  | VGuid _ => bool_decide (v = zero_value TyGuid)
  | VOther _ text => bool_decide (text ∈ [""; "0"; "false"])
  end.

(** batching.go *)
Definition unsetKeyPart (m : EntityMap) (v : Value) : bool :=
  is_nil v || (negb (bool_decide (KeyStrategy_ m = KeyNatural)) && IsZero v).

Definition setKey (m : EntityMap) (values : list Value) : option KeyTuple :=
  match values with
  | [] => None
  | _ => if existsb (unsetKeyPart m) values then None else Some values
  end.

(** ** Navigations *)

Definition navigationTargets (i : Instance) (r : RelationshipMap) : list Ptr * bool :=
  match in_navs i !! rel_PropertyName r with
  | None | Some (NavSingle None) | Some (NavMany None) => ([], false)
  | Some (NavSingle (Some p)) => ([p], true)
  | Some (NavMany (Some l)) => (omap id l, true)
  end.

Definition m2oTargets (m : EntityMap) (i : Instance) : list Ptr :=
  concat ((fun r => (navigationTargets i r).1) <$>
    List.filter (fun r => bool_decide (rel_Kind r = RelationshipManyToOne)) (Relationships m)).

(** ** Snapshots (tracker.go) *)

Section Snapshots.
(** The session's type converter: the value the database receives. *)
Context (ToDatabase : Value -> ColumnType -> string -> result Value).

Definition bound (m : EntityMap) (i : Instance) (p : PropertyMap) : result Value :=
  let value := Get p i in
  let* b := ToDatabase value (ColumnType_ p) (EntityName m +:+ "." +:+ PropertyName p) in
  Ok match b, value with
     | VString s, VDecimal d => if decide (s = Decimal_String d) then value else b
     | _, _ => b
     end.

Definition snapshotOf (m : EntityMap) (i : Instance) : result (list Value) :=
  mapR (bound m i) (Properties m).

Definition sameBound (a b : Value) : result bool :=
  if is_nil a || is_nil b then Ok (is_nil a && is_nil b)
  else match a with
       | VBytes x => Ok match b with VBytes y => bool_decide (x = y) | _ => false end
       | VDecimal _ =>
           match b with
           | VDecimal _ => let* c := CompareValues a b in Ok (c =? 0)%Z
           | _ => Ok false
           end
       | VTime x _ => Ok match b with VTime y _ => bool_decide (x = y) | _ => false end
       | _ => Ok (DeepEqual a b)
       end.

(** The snapshot is parallel to the map's properties. *)
Fixpoint changed_loop (m : EntityMap) (i : Instance) (ps : list PropertyMap) (snapshot : list Value)
    : result (list PropertyMap) :=
  match ps with
  | [] => Ok []
  | p :: ps' =>
      let* current := bound m i p in
      match snapshot with
      | [] => Panic "index out of range"
      | old :: snapshot' =>
          let* same := sameBound old current in
          let* rest := changed_loop m i ps' snapshot' in
          Ok (if (same : bool) then rest else p :: rest)
      end
  end.
Definition changed (m : EntityMap) (i : Instance) (snapshot : list Value) : result (list PropertyMap) :=
  changed_loop m i (Properties m) snapshot.

(** The listed properties' snapshots move to their current values. *)
Definition resnapshot_one (m : EntityMap) (i : Instance) (p : PropertyMap) : SM (list Value) unit :=
  match property_index m p with
  | None => sret tt
  | Some k =>
      do! b <- slift (bound m i p) in
      do! snapshot <- sget in
      if decide (k < length snapshot) then smodify (fun s => <[k := b]> s)
      else slift (Panic "index out of range")
  end.
Definition resnapshot (m : EntityMap) (i : Instance) (properties : list PropertyMap)
    : SM (list Value) unit := forS (resnapshot_one m i) properties.

(** * Lemmas *)

(** A value equal to itself: not a NaN, and a decimal that parses. *)
Definition reflexive_bound (m : EntityMap) (i : Instance) (p : PropertyMap) : Prop :=
  forall b, bound m i p = Ok b -> sameBound b b = Ok true.

Lemma index_of_Some m p k : property_index m p = Some k -> Properties m !! k = Some p.
Proof.
  unfold property_index. destruct (list_find _ _) as [[k' q]|] eqn:E; [|done]. intros [= <-].
  by apply list_find_Some in E as (? & -> & _).
Qed.

Lemma resnapshot_one_Ok m i p s s' :
  resnapshot_one m i p s = (s', Ok tt) ->
  length s' = length s /\
  forall k, s' !! k = if decide (property_index m p = Some k) then
                        match bound m i p with Ok b => Some b | Fail _ => None end
                      else s !! k.
Proof.
  unfold resnapshot_one. destruct (property_index m p) as [k0|] eqn:Ek.
  2:{ intros [= <-]. done. }
  unfold sbind, slift. destruct (bound m i p) as [b|e] eqn:Eb; [|discriminate]. cbn.
  case_decide as Hlt; [|discriminate]. intros [= <-]. split; [apply length_insert|].
  intros k. case_decide as Hk.
  - injection Hk as <-. by apply list_lookup_insert_eq.
  - apply list_lookup_insert_ne. congruence.
Qed.

Lemma resnapshot_Ok m i ps s s' :
  NoDup (Properties m) -> resnapshot m i ps s = (s', Ok tt) ->
  length s' = length s /\
  forall k q, Properties m !! k = Some q ->
    (q ∉ ps -> s' !! k = s !! k) /\ (q ∈ ps -> exists b, bound m i q = Ok b /\ s' !! k = Some b).
Proof.
  intros Hnd. unfold resnapshot. revert s. induction ps as [|p ps IH]; intros s H; cbn [forS] in H.
  { injection H as <-. split; [done|]. intros k q _. split; [done|]. by intros []%not_elem_of_nil. }
  apply sbind_Ok in H as (s1 & [] & H1 & H). destruct (IH _ H) as [Hlen Hat].
  pose proof H1 as Hraw. apply resnapshot_one_Ok in H1 as [Hlen1 Hat1]. split; [congruence|].
  intros k q Hq. destruct (Hat k q Hq) as [Hn Hy]. split.
  - intros [Hne Hnp]%not_elem_of_cons. rewrite Hn, Hat1 by done. rewrite decide_False; [done|].
    intros Hk%index_of_Some. congruence.
  - intros Hin. destruct (decide (q ∈ ps)) as [|Hnp]; [auto|].
    apply elem_of_cons in Hin as [->|]; [|done]. rewrite Hn, Hat1 by done.
    assert (Hk : property_index m p = Some k).
    { unfold property_index. destruct (list_find (fun q => q = p) (Properties m)) as [[k' q']|] eqn:E.
      - apply list_find_Some in E as (Hk' & -> & _). simpl. f_equal.
        by eapply NoDup_lookup.
      - apply list_find_None in E. rewrite Forall_forall in E.
        by destruct (E p (list_elem_of_lookup_2 _ _ _ Hq)). }
    rewrite decide_True by done. unfold resnapshot_one in Hraw. rewrite Hk in Hraw.
    unfold sbind, slift in Hraw. destruct (bound m i p) as [b|]; [by exists b|discriminate].
Qed.

Lemma changed_loop_replace m i ps qs s s' l :
  Forall (reflexive_bound m i) ps -> length s' = length s ->
  (forall k q, qs !! k = Some q ->
    (q ∉ ps -> s' !! k = s !! k) /\ (q ∈ ps -> exists b, bound m i q = Ok b /\ s' !! k = Some b)) ->
  changed_loop m i qs s = Ok l ->
  changed_loop m i qs s' = Ok (List.filter (fun q => bool_decide (q ∉ ps)) l).
Proof.
  intros Hr. revert s s' l. induction qs as [|q qs IH]; intros s s' l Hlen Hat H; cbn [changed_loop] in *.
  { by apply Ok_inj in H as <-. }
  apply bind_Ok in H as (b & Hb & H). destruct s as [|old s]; [discriminate|].
  apply bind_Ok in H as (same & Hsame & H). apply bind_Ok in H as (rest & Hrest & H).
  destruct s' as [|old' s']; [discriminate|]. injection Hlen as Hlen.
  rewrite Hb. cbn [mbind result_bind].
  assert (IH' : changed_loop m i qs s' = Ok (List.filter (fun q => bool_decide (q ∉ ps)) rest))
    by (eapply IH; [done| |exact Hrest]; intros k; exact (Hat (S k))).
  destruct (Hat 0 q eq_refl) as [Hn Hy].
  assert (Hnew : sameBound old' b = Ok (bool_decide (q ∈ ps) || same)).
  { destruct (decide (q ∈ ps)) as [Hin|Hin].
    - destruct (Hy Hin) as (b' & Hb' & Ho). injection Ho as ->. rewrite Hb in Hb'.
      injection Hb' as <-. rewrite bool_decide_true by done.
      rewrite Forall_forall in Hr. by apply (Hr q Hin).
    - specialize (Hn Hin). injection Hn as ->. by rewrite bool_decide_false. }
  rewrite Hnew. cbn [mbind result_bind]. rewrite IH'. cbn [mbind result_bind].
  f_equal. apply Ok_inj in H as <-. destruct (decide (q ∈ ps)) as [Hin|Hin].
  - rewrite bool_decide_true by done. simpl. destruct same; [done|].
    simpl. by rewrite bool_decide_false by (intros Hf; by apply Hf).
  - rewrite bool_decide_false by done. simpl. destruct same; [done|].
    simpl. by rewrite bool_decide_true.
Qed.

(** ** Theorems *)

(** A write moves exactly the written columns: after [resnapshot] with the
    columns a write stored, the instance's changed columns are those that were
    changed and not written, in the same order; the others stay dirty. *)
Theorem resnapshot_changed (m : EntityMap) (i : Instance) (written : list PropertyMap)
    (s s' : list Value) (l : list PropertyMap) :
  NoDup (Properties m) -> Forall (reflexive_bound m i) written ->
  changed m i s = Ok l -> resnapshot m i written s = (s', Ok tt) ->
  changed m i s' = Ok (List.filter (fun p => bool_decide (p ∉ written)) l).
Proof.
  intros Hnd Hr Hc Hs. destruct (resnapshot_Ok _ _ _ _ _ Hnd Hs) as [Hlen Hat].
  by eapply changed_loop_replace.
Qed.

(** An instance is clean when it is registered: against the snapshot just
    taken of it, no column is changed. *)
Theorem snapshot_is_clean (m : EntityMap) (i : Instance) (s : list Value) :
  Forall (reflexive_bound m i) (Properties m) -> snapshotOf m i = Ok s -> changed m i s = Ok [].
Proof.
  unfold snapshotOf, changed. generalize (Properties m) as ps. intros ps. revert s.
  induction ps as [|p ps IH]; intros s Hr H; [done|]. cbn [mapR] in H.
  apply bind_Ok in H as (b & Hb & H). apply bind_Ok in H as (bs & Hbs & H). apply Ok_inj in H as <-.
  apply Forall_cons in Hr as [Hp Hr]. cbn [changed_loop]. rewrite Hb. cbn [mbind result_bind].
  rewrite (Hp _ Hb). cbn [mbind result_bind]. by rewrite (IH bs Hr Hbs).
Qed.

End Snapshots.

(** ** The accessors *)

(** A field holds values of its type, nil only behind a pointer. *)
Definition field_typed (p : PropertyMap) (v : Value) : Prop :=
  (v = VNil /\ ft_pointer (PropertyType p) = true) \/
  (v <> VNil /\ has_type v (ft_elem (PropertyType p)) = true).

Definition instance_typed (ps : list PropertyMap) (i : Instance) : Prop :=
  forall p v, p ∈ ps -> in_fields i !! PropertyName p = Some v -> field_typed p v.

Lemma zero_field_typed p : field_typed p (zero_field p).
Proof.
  unfold field_typed, zero_field. destruct (ft_pointer (PropertyType p)); [by left|]. right.
  split; [|apply zero_has_type]. by destruct (ft_elem (PropertyType p)).
Qed.

Lemma field_value_typed ps p i : instance_typed ps i -> p ∈ ps -> field_typed p (field_value p i).
Proof.
  intros Hi Hp. unfold field_value. destruct (in_fields i !! PropertyName p) as [v|] eqn:E.
  - by apply (Hi p v).
  - apply zero_field_typed.
Qed.

Lemma Set_eq p v i :
  field_typed p v \/ v = VNil ->
  let i' := match Owner p with Some o => allocate o i | None => i end in
  Set_ p v i = (set_field p (if decide (v = VNil) then zero_field p else v) i', Ok tt).
Proof.
  intros Hv i'. subst i'. unfold Set_, sbind, smodify. destruct (decide (v = VNil)) as [->|Hn]; [done|].
  destruct Hv as [[[? _]|[_ ->]]|?]; done.
Qed.

Lemma navigation_allocate_mono o o' i : navigation o i = true -> navigation o (allocate o' i) = true.
Proof.
  unfold allocate. destruct (navigation o' i); [done|]. unfold navigation. cbn.
  rewrite !orb_true_iff, !bool_decide_eq_true. set_solver.
Qed.

Lemma navigation_allocate_same o i : navigation o (allocate o i) = true.
Proof.
  unfold allocate. destruct (navigation o i) eqn:E; [done|]. unfold navigation. cbn.
  rewrite orb_true_iff, bool_decide_eq_true. set_solver.
Qed.

Lemma allocate_fields o i : in_fields (allocate o i) = in_fields i.
Proof. unfold allocate. by destruct (navigation o i). Qed.

(** The navigation to [p]'s struct is there. *)
Definition reachable_field (p : PropertyMap) (i : Instance) : Prop :=
  match Owner p with Some o => navigation o i = true | None => True end.

Lemma Get_reachable p i : reachable_field p i -> Get p i = field_value p i.
Proof. unfold reachable_field, Get. destruct (Owner p); [by intros ->|done]. Qed.

(** What a field holds after being assigned. *)
Definition stored (p : PropertyMap) (v : Value) : Value := if decide (v = VNil) then zero_field p else v.

Definition accepts (p : PropertyMap) (v : Value) : Prop :=
  v = VNil \/ has_type v (ft_elem (PropertyType p)) = true.

Lemma Set_stores p v i :
  accepts p v ->
  exists i', Set_ p v i = (i', Ok tt) /\ Get p i' = stored p v /\ reachable_field p i' /\
    (forall q, reachable_field q i -> reachable_field q i') /\
    forall q, PropertyName q <> PropertyName p -> reachable_field q i -> Get q i' = Get q i.
Proof.
  set (i1 := match Owner p with Some o => allocate o i | None => i end).
  assert (Hf : in_fields i1 = in_fields i)
    by (subst i1; destruct (Owner p); [apply allocate_fields|done]).
  intros Hv. exists (set_field p (stored p v) i1).
  assert (Hself : reachable_field p (set_field p (stored p v) i1)).
  { unfold reachable_field. subst i1. destruct (Owner p) as [o|]; [|done].
    exact (navigation_allocate_same o i). }
  assert (Hmono : forall q, reachable_field q i -> reachable_field q (set_field p (stored p v) i1)).
  { intros q Hr. unfold reachable_field in *. subst i1. destruct (Owner q) as [o|]; [|done].
    destruct (Owner p) as [o'|]; [|done]. exact (navigation_allocate_mono o o' i Hr). }
  split; [|split; [|split; [done|split; [done|]]]].
  - unfold Set_, sbind, smodify, stored. fold i1.
    destruct (decide (v = VNil)); [done|]. destruct Hv as [?| ->]; done.
  - rewrite Get_reachable by done. unfold field_value. cbn [in_fields set_field].
    by rewrite lookup_insert_eq.
  - intros q Hq Hr. rewrite (Get_reachable q i), Get_reachable by auto.
    unfold field_value. cbn [in_fields set_field]. by rewrite lookup_insert_ne, Hf.
Qed.

(** [Set] then [Get]: a value of the field's type (or nil, which stands for
    the field's zero) is stored and read back, a nil owned navigation being
    allocated on the way; every other field that could be read reads the same.
    A value of another type is MAP-030 and changes no field. *)
Theorem Set_Get (p : PropertyMap) (v : Value) (i : Instance) :
  (v <> VNil /\ has_type v (ft_elem (PropertyType p)) = false ->
     exists i', Set_ p v i = (i', Fail (NewError "MAP-030" (Target_ p))) /\
       in_fields i' = in_fields i) /\
  (v = VNil \/ has_type v (ft_elem (PropertyType p)) = true ->
     exists i', Set_ p v i = (i', Ok tt) /\
       Get p i' = (if decide (v = VNil) then zero_field p else v) /\
       forall q, PropertyName q <> PropertyName p -> reachable_field q i -> Get q i' = Get q i).
Proof.
  split.
  - intros [Hn Ht]. unfold Set_, sbind, smodify. rewrite decide_False, Ht by done.
    eexists. split; [done|]. destruct (Owner p); [apply allocate_fields|done].
  - intros Hv. destruct (Set_stores p v i Hv) as (i' & H & Hg & _ & _ & Hframe). by exists i'.
Qed.

(** What [Get] read assigns back: on a typed instance, [Set] of the value
    [Get] returns succeeds and leaves every readable field as it was - what the
    undo journal relies on. *)
Theorem Set_Get_restores (ps : list PropertyMap) (p : PropertyMap) (i : Instance) :
  instance_typed ps i -> p ∈ ps -> Owner p = None ->
  exists i', Set_ p (Get p i) i = (i', Ok tt) /\
    forall q, (q = p \/ PropertyName q <> PropertyName p) -> Get q i' = Get q i.
Proof.
  intros Hi Hp Ho. pose proof (field_value_typed ps p i Hi Hp) as Ht.
  assert (Hg : Get p i = field_value p i) by (unfold Get; by rewrite Ho). rewrite Hg.
  rewrite Set_eq by (by left). rewrite Ho. eexists. split; [done|]. intros q Hq.
  unfold Get. destruct Hq as [->|Hq].
  - rewrite Ho. unfold field_value at 1. cbn [in_fields set_field]. rewrite lookup_insert_eq. simpl.
    case_decide as Hn; [|done]. unfold zero_field. destruct Ht as [[_ ->]|[Hn' _]]; [done|done].
  - destruct (Owner q) as [o|]; [|unfold field_value; cbn [in_fields set_field]; by rewrite lookup_insert_ne].
    change (navigation o (set_field p _ i)) with (navigation o i).
    destruct (navigation o i); [|done]. unfold field_value. cbn [in_fields set_field].
    by rewrite lookup_insert_ne.
Qed.

(** ** Witnesses *)

(** A product with a name and a nullable note. *)
Definition product_type : GoType := mkGoType "sample" "Product".
Definition product_property (name : string) (ty : FieldType) (ct : ColumnType) (key : bool) :=
  mkProperty (Some product_type) name name ty ct false key false false AuditNone false None 0 0 0 None None.
Definition product_id := product_property "ID" (mkField false (TyInt KInt64)) TypeInt64 true.
Definition product_name := product_property "Name" (mkField false TyString) TypeString false.
Definition product_note := product_property "Note" (mkField true TyString) TypeString false.
Definition product_map : EntityMap :=
  NewEntityMap product_type RelationTable "products" "" "" [product_id; product_name; product_note]
    KeyNatural [] [].
Definition product : Instance :=
  mkInstance product_type (<["ID" := VInt KInt64 7]> (<["Name" := VString "lamp"]> ∅)) ∅ ∅.

Definition bind_as_is (v : Value) (_ : ColumnType) (_ : string) : result Value := Ok v.

Lemma resnapshot_changed_witness :
  let snapshot := [VInt KInt64 7; VString "lamb"; VString "new"] in
  changed bind_as_is product_map product snapshot = Ok [product_name; product_note] /\
  exists s', resnapshot bind_as_is product_map product [product_name] snapshot = (s', Ok tt) /\
    changed bind_as_is product_map product s' = Ok [product_note].
Proof.
  intros snapshot. split; [reflexivity|]. eexists. split; [reflexivity|].
  assert (Hnd : NoDup (Properties product_map)) by (vm_compute; repeat constructor; set_solver).
  assert (Hr : Forall (reflexive_bound bind_as_is product_map product) [product_name])
    by (constructor; [by intros b [= <-]|constructor]).
  exact (resnapshot_changed bind_as_is product_map product [product_name] snapshot _
    [product_name; product_note] Hnd Hr eq_refl eq_refl).
Defined.

Lemma snapshot_is_clean_witness :
  exists s, snapshotOf bind_as_is product_map product = Ok s /\
    changed bind_as_is product_map product s = Ok [].
Proof.
  eexists. split; [reflexivity|]. apply snapshot_is_clean; [|reflexivity].
  repeat constructor; by intros b [= <-].
Defined.

Lemma Set_Get_witness :
  (exists i', Set_ product_name (VString "desk") product = (i', Ok tt) /\
     Get product_name i' = VString "desk") /\
  exists i', Set_ product_name (VBool true) product = (i', Fail (NewError "MAP-030" "Product.Name")).
Proof.
  split.
  - destruct (proj2 (Set_Get product_name (VString "desk") product)) as (i' & H & Hg & _);
      [by right|]. exists i'. by split.
  - destruct (proj1 (Set_Get product_name (VBool true) product)) as (i' & H & _); [by split|].
    by exists i'.
Defined.

Lemma Set_Get_restores_witness :
  exists i', Set_ product_note (Get product_note product) product = (i', Ok tt) /\
    Get product_note i' = VNil.
Proof.
  destruct (Set_Get_restores (Properties product_map) product_note product) as (i' & H & Hg).
  - intros p v Hp Hv. change (Properties product_map) with [product_id; product_name; product_note] in Hp.
    rewrite !elem_of_cons, elem_of_nil in Hp.
    destruct Hp as [H|[H|[H|[]]]]; rewrite H in Hv |- *; vm_compute in Hv; try discriminate;
      injection Hv as <-; right; by split.
  - change (Properties product_map) with [product_id; product_name; product_note]. set_solver.
  - reflexivity.
  - exists i'. split; [exact H|]. rewrite Hg by (by left). reflexivity.
Defined.
