(* ===== verification/Session.v ===== *)
(** Tracking in a session (tracking.go): the identity resolution every read goes
    through, the identity gate every write goes through, and the questions a
    caller may ask about an instance.

    A session is its objects and, in tracked mode, its identity map. *)
From S2P Require Import Prelude GoStrings Values Core Tracker Instances.

Record Session := mkSession {
  se_heap : heap;
  se_tracker : option tracker }.

Definition with_tracker (s : Session) (tr : tracker) : Session := mkSession (se_heap s) (Some tr).

(** ** Questions *)

Definition entryOf (s : Session) (p : Ptr) : option trackedEntry :=
  match se_tracker s with
  | Some tr => Tracker.entryOf tr p
  | None => None
  end.

Definition IsTracking (s : Session) : bool := bool_decide (is_Some (se_tracker s)).
Definition IsTracked (s : Session) (p : Ptr) : bool := bool_decide (is_Some (entryOf s p)).

Definition requireTracked (s : Session) (p : Ptr) (entityType : GoType) : result trackedEntry :=
  match se_tracker s with
  | None => Fail (NewError "UOW-001" (TypeShortName entityType))
  | Some _ =>
      match entryOf s p with
      | Some entry => Ok entry
      | None => Fail (NewError "UOW-001" (TypeShortName entityType))
      end
  end.

(** Reads of [m] are tracked in this session. *)
Definition tracking (s : Session) (m : EntityMap) : bool :=
  match se_tracker s, KeyProperties m with
  | Some _, _ :: _ => true
  | _, _ => false
  end.

Section Converter.
Context (ToDatabase : Value -> ColumnType -> string -> result Value).

Definition entry_changed (s : Session) (e : trackedEntry) : result (list PropertyMap) :=
  changed ToDatabase (te_m e) (deref (se_heap s) (te_ptr e)) (te_snapshot e).

Definition ChangesOf (s : Session) (p : Ptr) (entityType : GoType) : result (list string) :=
  let* entry := requireTracked s p entityType in
  let* l := entry_changed s entry in
  Ok (PropertyName <$> l).

Definition IsDirty (s : Session) (p : Ptr) (entityType : GoType) : result bool :=
  let* entry := requireTracked s p entityType in
  let* l := entry_changed s entry in
  Ok match l with [] => false | _ => true end.

(** [tracker.register]: the snapshot is taken before anything changes. *)
Definition register_ (tr : tracker) (h : heap) (m : EntityMap) (p : Ptr) (key : KeyTuple)
    : result tracker :=
  let* snapshot := snapshotOf ToDatabase m (deref h p) in
  let* (tr', _) := register tr m p key snapshot in
  Ok tr'.

(** ** Reads *)

(** A materialized row: a pointer to a new instance, or a struct by value. *)
Inductive Row :=
  | RowPointer (p : Ptr)
  | RowValue (i : Instance).

Definition row_instance (h : heap) (r : Row) : Instance :=
  match r with RowPointer p => deref h p | RowValue i => i end.

(** [m] is a tracking map, so the session has an identity map. *)
Definition resolveRow (tr : tracker) (h : heap) (m : EntityMap) (fresh : Row) : result (tracker * Row) :=
  let '(key, ok) := keyOf m (row_instance h fresh) in
  if negb ok then Ok (tr, fresh)
  else
    let* found := find tr (Type_ m) key in
    match found, fresh with
    | Some entry, RowPointer _ => Ok (tr, RowPointer (te_ptr entry))
    | Some entry, RowValue _ => Ok (tr, RowValue (deref h (te_ptr entry)))
    | None, RowPointer p => let* tr' := register_ tr h m p key in Ok (tr', fresh)
    | None, RowValue _ => Ok (tr, fresh)
    end.

Definition resolveAny (s : Session) (m : EntityMap) (value : Row) : result (Session * Row) :=
  match se_tracker s with
  | Some tr =>
      if tracking s m then
        let* (tr', row) := resolveRow tr (se_heap s) m value in Ok (with_tracker s tr', row)
      else Ok (s, value)
  | None => Ok (s, value)
  end.

(** ** Writes *)

Definition writeIdentity (s : Session) (m : EntityMap) (p : Ptr) : result (option trackedEntry) :=
  match se_tracker s with
  | None => Ok None
  | Some tr =>
      let '(current, hasKey) := keyOf m (deref (se_heap s) p) in
      match entryOf s p with
      | Some entry =>
          if negb hasKey then Fail (NewError "UOW-002" (EntityName m))
          else
            let* c := KeyTuple_Compare (te_key entry) current in
            if negb (c =? 0)%Z then Fail (NewError "UOW-002" (EntityName m)) else Ok (Some entry)
      | None =>
          if negb hasKey then Ok None
          else
            let* holder := find tr (Type_ m) current in
            match holder with
            | Some _ => Fail (NewError "UOW-002" (EntityName m))
            | None => Ok None
            end
      end
  end.

Definition track (s : Session) (m : EntityMap) (p : Ptr) : result Session :=
  match se_tracker s with
  | Some tr =>
      if tracking s m then
        let '(key, ok) := keyOf m (deref (se_heap s) p) in
        if ok then let* tr' := register_ tr (se_heap s) m p key in Ok (with_tracker s tr')
        else Ok s
      else Ok s
  | None => Ok s
  end.

Definition forgetKey (s : Session) (m : EntityMap) (key : KeyTuple) : result Session :=
  match se_tracker s with
  | None => Ok s
  | Some tr =>
      let* found := find tr (Type_ m) key in
      match found with
      | Some entry => let* tr' := forget tr entry in Ok (with_tracker s tr')
      | None => Ok s
      end
  end.

(** * The session invariant *)

Context (key_types : GoType -> list KeyType).

(** The identity map is well formed, and the key a row of a type carries is
    null in some part or has the type's key types. *)
Definition keyed_instance (m : EntityMap) (i : Instance) : Prop :=
  (keyOf m i).2 = true -> typed key_types (Type_ m) (keyOf m i).1.

Definition session_ok (s : Session) : Prop :=
  forall tr, se_tracker s = Some tr -> tracker_ok key_types tr.

Lemma register_session tr h m p key :
  tracker_ok key_types tr -> typed key_types (Type_ m) key ->
  (exists e, register_ tr h m p key = Fail e /\ snapshotOf ToDatabase m (deref h p) = Fail e) \/
  (exists tr' e, register_ tr h m p key = Ok tr' /\ tracker_ok key_types tr' /\
     te_ptr e = p /\ te_m e = m /\ te_key e = key /\
     snapshotOf ToDatabase m (deref h p) = Ok (te_snapshot e) /\
     forall x, live tr' x <-> x = e \/
       (live tr x /\ te_ptr x <> p /\ ~ (te_type x = Type_ m /\ key_cmp (te_key x) key = 0%Z))).
Proof.
  intros Hok Hk. unfold register_.
  destruct (snapshotOf ToDatabase m (deref h p)) as [snapshot|e] eqn:Es; cbn [mbind result_bind].
  2:{ left. by exists e. }
  right. destruct (register_spec key_types tr m p key snapshot Hok Hk) as (tr' & Hr & Hok' & Hl).
  exists tr', (mkEntry p m key snapshot (S (nextSeq tr))). rewrite Hr. cbn [mbind result_bind]. by split_and!.
Qed.

Lemma resolveRow_ok tr tr' h m row r :
  tracker_ok key_types tr -> keyed_instance m (row_instance h row) ->
  resolveRow tr h m row = Ok (tr', r) -> tracker_ok key_types tr'.
Proof.
  unfold keyed_instance, resolveRow. destruct (keyOf m (row_instance h row)) as [key ok].
  cbn [fst snd]. intros Hok Hk H. destruct ok; cbn [negb] in H; [|by injection H as <- _].
  specialize (Hk eq_refl).
  apply bind_Ok in H as (found & _ & H).
  destruct found as [e|], row as [p|i]; try (by injection H as <- _).
  apply bind_Ok in H as (tr1 & Hr & H). injection H as <- _.
  destruct (register_session tr h m p key Hok Hk) as [(e & Hf & _)|(tr2 & e & Hr2 & Hok2 & _)].
  - rewrite Hf in Hr. discriminate.
  - rewrite Hr2 in Hr. by injection Hr as <-.
Qed.

Lemma key_cmp_self t key : typed key_types t key -> key_cmp key key = 0%Z.
Proof. apply key_cmp_refl. Qed.

(** ** Theorems *)

(** Every read of a row yields the session's one instance for its key: after
    a row behind a pointer is resolved, a later row with the same key resolves
    to the same pointer - for a struct by value, to a copy of that instance as
    it now is - and the identity map no longer changes. *)
Theorem resolveRow_one_instance (tr tr' : tracker) (h h' : heap) (m : EntityMap) (p : Ptr) (r : Row)
    (row : Row) (Hok : tracker_ok key_types tr) (Hk : keyed_instance m (deref h p)) :
  (keyOf m (deref h p)).2 = true ->
  resolveRow tr h m (RowPointer p) = Ok (tr', r) ->
  keyOf m (row_instance h' row) = keyOf m (deref h p) ->
  exists q, r = RowPointer q /\ tracker_ok key_types tr' /\
    (exists e, find tr' (Type_ m) (keyOf m (deref h p)).1 = Ok (Some e) /\ te_ptr e = q) /\
    resolveRow tr' h' m row
    = Ok (tr', match row with RowPointer _ => RowPointer q | RowValue _ => RowValue (deref h' q) end).
Proof.
  intros Hkey H Hrow. specialize (Hk Hkey).
  assert (Hfind : exists q, r = RowPointer q /\ tracker_ok key_types tr' /\
    exists e, find tr' (Type_ m) (keyOf m (deref h p)).1 = Ok (Some e) /\ te_ptr e = q).
  { unfold resolveRow in H. cbn [row_instance] in H.
    destruct (keyOf m (deref h p)) as [key ok] eqn:Ek. cbn [fst snd] in *. subst ok. cbn [negb] in H.
    destruct (find_spec key_types tr (Type_ m) key Hok Hk) as [(e & Hf & _ & _ & _)|[Hf Hno]];
      rewrite Hf in H; cbn [mbind result_bind] in H.
    - injection H as <- <-. exists (te_ptr e). split; [done|]. split; [done|]. by exists e.
    - destruct (register_session tr h m p key Hok Hk)
        as [(e & Hr & _)|(tr1 & e & Hr & Hok1 & Hp & Hm & Hek & _ & Hl)];
        rewrite Hr in H; cbn [mbind result_bind] in H; [discriminate|].
      injection H as <- <-. exists p. split; [done|]. split; [done|].
      assert (He : live tr1 e) by (apply Hl; by left).
      destruct (find_spec key_types tr1 (Type_ m) key Hok1 Hk) as [(x & Hf1 & Hx & Ht & Hc)|[_ Hno1]].
      + exists x. split; [done|]. apply Hl in Hx as [->|(_ & _ & Hne)]; [done|]. by destruct Hne.
      + exfalso. apply (Hno1 e He); [unfold te_type; by rewrite Hm|].
        rewrite Hek. by apply (key_cmp_self (Type_ m)). }
  destruct Hfind as (q & -> & Hok' & e & Hf & Hq). exists q.
  split; [done|]. split; [done|]. split; [by exists e|].
  unfold resolveRow. rewrite Hrow. destruct (keyOf m (deref h p)) as [key ok].
  cbn [fst snd] in *. subst ok. cbn [negb]. rewrite Hf. cbn [mbind result_bind].
  destruct row; by rewrite Hq.
Qed.

(** C23. The identity gate (UOW-002) is exact.  In a tracked session, a write of
    instance [p] passes if and only if no other tracked instance of the type
    has its key and, when [p] is tracked, its key is the one it was registered
    with; it then returns [p]'s entry, or none for an instance the session does
    not know.  Any other write is UOW-002, and no write panics. *)
Theorem writeIdentity_exact (s : Session) (tr : tracker) (m : EntityMap) (p : Ptr)
    (Htr : se_tracker s = Some tr) (Hok : tracker_ok key_types tr)
    (Hk : keyed_instance m (deref (se_heap s) p))
    (Hm : forall e, entryOf s p = Some e -> te_type e = Type_ m) :
  let '(key, hasKey) := keyOf m (deref (se_heap s) p) in
  let mine := forall e, entryOf s p = Some e ->
    hasKey = true /\ KeyTuple_Compare (te_key e) key = Ok 0%Z in
  let others := forall e, live tr e -> te_type e = Type_ m -> hasKey = true ->
    KeyTuple_Compare (te_key e) key = Ok 0%Z -> te_ptr e = p in
  (mine /\ others /\ writeIdentity s m p = Ok (entryOf s p)) \/
  (~ (mine /\ others) /\ writeIdentity s m p = Fail (NewError "UOW-002" (EntityName m))).
Proof.
  unfold keyed_instance in Hk. unfold writeIdentity. rewrite Htr.
  destruct (keyOf m (deref (se_heap s) p)) as [key hasKey] eqn:Ek. cbn [fst snd] in Hk.
  assert (Hentry : entryOf s p = Tracker.entryOf tr p) by (unfold entryOf; by rewrite Htr).
  assert (Hcmp : hasKey = true -> forall e, live tr e -> te_type e = Type_ m ->
            KeyTuple_Compare (te_key e) key = Ok (key_cmp (te_key e) key)).
  { intros Hh e He Ht. destruct (tk_listed _ tr Hok (te_type e)) as [es Hes].
    pose proof (live_listed _ _ _ _ _ Hok Hes He eq_refl) as Hin.
    apply list_elem_of_lookup in Hin as [i Hi].
    destruct (listed_entry _ _ _ _ _ _ Hes Hi) as (_ & _ & Hke).
    apply (key_cmp_Ok key_types (Type_ m)); [by rewrite <- Ht|auto]. }
  destruct (entryOf s p) as [e|] eqn:Ee.
  - pose proof (Hm e eq_refl) as Ht. symmetry in Hentry.
    apply (entryOf_live key_types) in Hentry as [He Hp]; [|done].
    destruct hasKey; cbn [negb].
    + rewrite (Hcmp eq_refl e He Ht). cbn [mbind result_bind].
      destruct (Z.eqb_spec (key_cmp (te_key e) key) 0) as [H0|H0]; cbn [negb].
      * left. split; [|split; [|done]].
        { intros x [= <-]. split; [done|]. by rewrite (Hcmp eq_refl e He Ht), H0. }
        intros x Hx Htx _ Hcx. rewrite (Hcmp eq_refl x Hx Htx) in Hcx. injection Hcx as Hcx.
        assert (x = e) as ->; [|done].
        eapply (same_key_same_entry key_types tr x e key); try done; [congruence|].
        rewrite Ht. auto.
      * right. split; [|done]. intros [Hmine _]. destruct (Hmine e eq_refl) as [_ Hc].
        rewrite (Hcmp eq_refl e He Ht) in Hc. congruence.
    + right. split; [|done]. intros [Hmine _]. by destruct (Hmine e eq_refl).
  - destruct hasKey; cbn [negb].
    + destruct (find_spec key_types tr (Type_ m) key Hok (Hk eq_refl))
        as [(x & -> & Hx & Htx & Hcx)|[-> Hno]]; cbn [mbind result_bind].
      * right. split; [|done]. intros [_ Ho].
        assert (Hpx : te_ptr x = p).
        { apply Ho; [done|done|done|]. by rewrite (Hcmp eq_refl x Hx Htx), Hcx. }
        assert (Some x = None) by (rewrite Hentry; symmetry; by apply (entryOf_live key_types)).
        done.
      * left. split; [done|]. split; [|done]. intros x Hx Htx _ Hcx.
        rewrite (Hcmp eq_refl x Hx Htx) in Hcx. injection Hcx as Hcx. by destruct (Hno x Hx Htx).
    + left. split; [done|]. split; [|done]. done.
Qed.

End Converter.

(** ** Witnesses: two copies of one product row *)

Definition product_keys (_ : GoType) : list KeyType := [KTInt KInt64].
Definition two_copies : heap := <[1 := product]> (<[2 := product]> ∅).

Lemma product_keyed h p :
  deref h p = product -> keyed_instance product_keys product_map (deref h p).
Proof. intros -> _. vm_compute. by repeat constructor. Qed.

Definition first_copy : tracker :=
  match resolveRow bind_as_is newTracker two_copies product_map (RowPointer 1) with
  | Ok (tr, _) => tr
  | Fail _ => newTracker
  end.

Lemma first_copy_resolved :
  resolveRow bind_as_is newTracker two_copies product_map (RowPointer 1)
  = Ok (first_copy, RowPointer 1).
Proof. vm_compute. reflexivity. Qed.

Lemma first_copy_ok : tracker_ok product_keys first_copy.
Proof.
  eapply resolveRow_ok; [apply newTracker_ok| |exact first_copy_resolved]. by apply product_keyed.
Qed.

Lemma resolveRow_one_instance_witness :
  tracker_ok product_keys first_copy /\
  resolveRow bind_as_is first_copy two_copies product_map (RowPointer 2)
  = Ok (first_copy, RowPointer 1).
Proof.
  destruct (resolveRow_one_instance bind_as_is product_keys newTracker first_copy two_copies two_copies
    product_map 1 (RowPointer 1) (RowPointer 2) (newTracker_ok product_keys)
    (product_keyed two_copies 1 eq_refl) eq_refl first_copy_resolved eq_refl)
    as (q & Hq & Hok & _ & Hr).
  injection Hq as <-. split; [exact Hok|exact Hr].
Defined.

Lemma writeIdentity_exact_witness :
  let s := mkSession two_copies (Some first_copy) in
  writeIdentity s product_map 2 = Fail (NewError "UOW-002" "Product") /\
  exists e, writeIdentity s product_map 1 = Ok (Some e).
Proof.
  intros s. pose proof first_copy_ok as Hok.
  assert (Hm : forall e, entryOf s 2 = Some e -> te_type e = Type_ product_map)
    by (intros e He; vm_compute in He; discriminate).
  pose proof (writeIdentity_exact product_keys s first_copy product_map 2 eq_refl Hok
    (product_keyed two_copies 2 eq_refl) Hm) as H.
  split; [|eexists; vm_compute; reflexivity].
  change (keyOf product_map (deref (se_heap s) 2)) with ([VInt KInt64 7], true) in H.
  destruct H as [(_ & _ & H)|[_ H]]; [vm_compute in H; discriminate|exact H].
Defined.
