(* ===== verification/UnitOfWork.v ===== *)
(** The unit of work's schedule (unit_of_work.go, db_detach_merge.go): what
    [Persist], [Remove] and [Detach] schedule and cancel.

    A scheduled insert is a shared mutable object - the schedule's list and
    index, and a plan in progress, hold the same one - so the list and the
    index hold its schedule order, which is its identity, and [uw_objects] is
    the store.  Scheduled removals never change and are plain records.  The
    order counter is a [uint64]; it is a [nat] here and never wraps. *)
From S2P Require Import Prelude GoStrings Values Core Tracker Instances Session.

Record cascadeLink := mkLink {
  cl_owner : Ptr;
  cl_ownerMap : EntityMap;
  cl_relationship : RelationshipMap }.

Record scheduledInsert := mkInsert {
  si_ptr : Ptr;
  si_m : EntityMap;
  si_direct : bool;
  si_links : list cascadeLink;
  si_order : nat }.

Record scheduledRemove := mkRemove {
  sr_ptr : Ptr;
  sr_m : EntityMap;
  sr_order : nat }.

Record unitOfWork := mkUow {
  uw_inserts : list nat;
  uw_insertOf : gmap Ptr nat;
  uw_objects : gmap nat scheduledInsert;
  uw_removes : list scheduledRemove;
  uw_removeOf : gmap Ptr scheduledRemove;
  uw_counter : nat }.

Definition newUnitOfWork : unitOfWork := mkUow [] ∅ ∅ [] ∅ 0.

(** A schedule not created yet is empty. *)
Definition HasPendingWork (u : unitOfWork) : bool :=
  match uw_inserts u, uw_removes u with [], [] => false | _, _ => true end.

Definition clear (u : unitOfWork) : unitOfWork := mkUow [] ∅ (uw_objects u) [] ∅ (uw_counter u).

Definition with_counter (u : unitOfWork) (n : nat) : unitOfWork :=
  mkUow (uw_inserts u) (uw_insertOf u) (uw_objects u) (uw_removes u) (uw_removeOf u) n.

Definition set_direct (o : scheduledInsert) : scheduledInsert :=
  mkInsert (si_ptr o) (si_m o) true (si_links o) (si_order o).
Definition set_links (o : scheduledInsert) (links : list cascadeLink) : scheduledInsert :=
  mkInsert (si_ptr o) (si_m o) (si_direct o) links (si_order o).

(** ** Cancelling *)

Section Cancel.
Context (u : unitOfWork).

(** The link's owner is scheduled, and cancelled. *)
Definition owner_cancelled (cancelled : gset nat) (l : cascadeLink) : bool :=
  match uw_insertOf u !! cl_owner l with
  | Some owner => bool_decide (owner ∈ cancelled)
  | None => false
  end.

Definition kept_links (cancelled : gset nat) (links : list cascadeLink) : list cascadeLink :=
  List.filter (fun l => negb (owner_cancelled cancelled l)) links.

Definition cancel_state := (gmap nat scheduledInsert * gset nat * bool)%type.

Definition cancel_one (st : cancel_state) (id : nat) : cancel_state :=
  let '(objects, cancelled, changed) := st in
  if decide (id ∈ cancelled) then st
  else match objects !! id with
       | None => st (* every scheduled insert is an object *)
       | Some o =>
           let kept := kept_links cancelled (si_links o) in
           let dropped := negb (length kept =? length (si_links o))%nat in
           let objects' := <[id := set_links o kept]> objects in
           if dropped && negb (si_direct o) && (length kept =? 0)%nat
           then (objects', {[id]} ∪ cancelled, true)
           else (objects', cancelled, changed)
       end.

Fixpoint cancel_loop (fuel : nat) (objects : gmap nat scheduledInsert) (cancelled : gset nat)
    : gmap nat scheduledInsert * gset nat :=
  match fuel with
  | 0 => (objects, cancelled)
  | S fuel' =>
      let '(objects', cancelled', changed) :=
        fold_left cancel_one (uw_inserts u) (objects, cancelled, false) in
      if (changed : bool) then cancel_loop fuel' objects' cancelled' else (objects', cancelled')
  end.

Definition forget_cancelled (objects : gmap nat scheduledInsert) (cancelled : gset nat)
    (insertOf : gmap Ptr nat) (id : nat) : gmap Ptr nat :=
  if decide (id ∈ cancelled) then
    match objects !! id with Some o => delete (si_ptr o) insertOf | None => insertOf end
  else insertOf.

(** Each further pass cancelled one more insert, so one pass per scheduled
    insert and one more are enough ([cancel_loop_spec]). *)
Definition cancel (initial : list nat) : unitOfWork :=
  let '(objects, cancelled) :=
    match initial with
    | [] => (uw_objects u, ∅)
    | _ => cancel_loop (S (length (uw_inserts u))) (uw_objects u) (list_to_set initial)
    end in
  mkUow (List.filter (fun id => negb (bool_decide (id ∈ cancelled))) (uw_inserts u))
    (fold_left (forget_cancelled objects cancelled) (uw_inserts u) (uw_insertOf u))
    objects (uw_removes u) (uw_removeOf u) (uw_counter u).
End Cancel.

(** ** [Persist] *)

Record persistPlan := mkPersistPlan {
  pp_counter : nat;
  pp_visited : gset Ptr;
  pp_adds : list scheduledInsert;
  pp_added : gmap Ptr nat;
  pp_links : list (Ptr * cascadeLink);
  pp_directs : list nat }.

Definition pp_visit (p : Ptr) (plan : persistPlan) : persistPlan :=
  mkPersistPlan (pp_counter plan) ({[p]} ∪ pp_visited plan) (pp_adds plan) (pp_added plan)
    (pp_links plan) (pp_directs plan).

(** A new scheduled insert, with the next order. *)
Definition pp_add (m : EntityMap) (p : Ptr) (plan : persistPlan) : persistPlan :=
  let order := S (pp_counter plan) in
  mkPersistPlan order (pp_visited plan) (pp_adds plan ++ [mkInsert p m false [] order])
    (<[p := order]> (pp_added plan)) (pp_links plan) (pp_directs plan).

Definition note (p : Ptr) (scheduled : option nat) (via : option cascadeLink) (plan : persistPlan)
    : persistPlan :=
  match scheduled, via with
  | None, _ => plan
  | Some id, None =>
      mkPersistPlan (pp_counter plan) (pp_visited plan) (pp_adds plan) (pp_added plan)
        (pp_links plan) (pp_directs plan ++ [id])
  | Some _, Some link =>
      mkPersistPlan (pp_counter plan) (pp_visited plan) (pp_adds plan) (pp_added plan)
        (pp_links plan ++ [(p, link)]) (pp_directs plan)
  end.

Section Walks.
(** The loader's maps, and the session whose instances are walked: a walk reads
    navigations and the identity map, and changes neither. *)
Context (load : GoType -> result EntityMap) (s : Session).

Definition requireWritableKeyedType (t : GoType) : result EntityMap :=
  let* m := load t in
  if bool_decide (Kind m <> RelationTable) then Fail (NewError "CRUD-003" (TypeShortName t))
  else match KeyProperties m with
       | [] => Fail (NewError "CRUD-002" (TypeShortName t))
       | _ => Ok m
       end.

Definition targets_of (p : Ptr) (r : RelationshipMap) : list Ptr * bool :=
  navigationTargets (deref (se_heap s) p) r.

Section Persist.
Context (u : unitOfWork).

Definition scheduled_as (plan : persistPlan) (p : Ptr) : option nat :=
  match uw_insertOf u !! p with
  | Some id => Some id
  | None => pp_added plan !! p
  end.

(** The instance's own part of the visit: the refusals, then its insert unless
    it is scheduled or tracked, then the note. *)
Definition persist_enter (t : GoType) (p : Ptr) (via : option cascadeLink) : SM persistPlan EntityMap :=
  do! plan <- sget in
  let scheduled := scheduled_as plan p in
  do! m <- slift (requireWritableKeyedType t) in
  match uw_removeOf u !! p with
  | Some _ => sthrow (NewError "UOW-006" (EntityName m))
  | None =>
      (if decide (scheduled = None /\ entryOf s p = None)
       then smodify (fun plan => note p (Some (S (pp_counter plan))) via (pp_add m p plan))
       else smodify (note p scheduled via)) ;!
      sret m
  end.

Fixpoint persist_visit (fuel : nat) (t : GoType) (p : Ptr) (via : option cascadeLink)
    : SM persistPlan unit :=
  match fuel with
  | 0 => slift (Panic "out of fuel")
  | S fuel' =>
      do! plan <- sget in
      if decide (p ∈ pp_visited plan) then smodify (note p (scheduled_as plan p) via)
      else
        smodify (pp_visit p) ;!
        do! m <- persist_enter t p via in
        forS (fun r =>
          if Cascade_Has (rel_Cascade r) CascadePersist then
            forS (fun target => persist_visit fuel' (rel_TargetType r) target (Some (mkLink p m r)))
              (targets_of p r).1
          else sret tt) (Relationships m)
  end.

(** *** [commit] *)

Definition commit_add (u : unitOfWork) (add : scheduledInsert) : unitOfWork :=
  mkUow (uw_inserts u ++ [si_order add]) (<[si_ptr add := si_order add]> (uw_insertOf u))
    (<[si_order add := add]> (uw_objects u)) (uw_removes u) (uw_removeOf u) (uw_counter u).

Definition update_object (f : scheduledInsert -> scheduledInsert) (id : nat) (u : unitOfWork) : unitOfWork :=
  mkUow (uw_inserts u) (uw_insertOf u) (alter f id (uw_objects u)) (uw_removes u) (uw_removeOf u)
    (uw_counter u).

Definition commit_direct (u : unitOfWork) (id : nat) : unitOfWork := update_object set_direct id u.

(** Two links are one when they agree on the owner and the relationship. *)
Definition add_link (link : cascadeLink) (child : scheduledInsert) : scheduledInsert :=
  if existsb (fun existing => bool_decide (cl_owner existing = cl_owner link /\
                                cl_relationship existing = cl_relationship link)) (si_links child)
  then child
  else set_links child (si_links child ++ [link]).

Definition commit_link (u : unitOfWork) (planned : Ptr * cascadeLink) : unitOfWork :=
  match uw_insertOf u !! planned.1 with
  | Some id => update_object (add_link planned.2) id u
  | None => u
  end.

Definition persist_commit (plan : persistPlan) : unitOfWork :=
  let u := fold_left commit_add (pp_adds plan) u in
  let u := fold_left commit_direct (pp_directs plan) u in
  fold_left commit_link (pp_links plan) u.

Definition newPersistPlan : persistPlan := mkPersistPlan (uw_counter u) ∅ [] ∅ [] [].
End Persist.

(** A refusal keeps the orders it took and nothing else.  A walk visits an
    instance once, so the number of instances bounds its depth
    ([persist_fuel_enough]). *)
Definition walk_fuel : nat := S (S (size (se_heap s))).

Definition requireUnitOfWork : result unit :=
  match se_tracker s with
  | None => Fail (NewError "UOW-003" "session")
  | Some _ => Ok tt
  end.

Definition Persist_ (fuel : nat) (t : GoType) (p : Ptr) : SM unitOfWork unit := fun u =>
  match requireUnitOfWork with
  | Fail e => (u, Fail e)
  | Ok _ =>
      match persist_visit u fuel t p None (newPersistPlan u) with
      | (plan, Ok _) => (persist_commit (with_counter u (pp_counter plan)) plan, Ok tt)
      | (plan, Fail e) => (with_counter u (pp_counter plan), Fail e)
      end
  end.
Definition Persist (t : GoType) (p : Ptr) : SM unitOfWork unit := Persist_ walk_fuel t p.

(** ** [Remove] *)

Record removePlan := mkRemovePlan {
  rp_counter : nat;
  rp_visited : gset Ptr;
  rp_adds : list scheduledRemove;
  rp_cancels : list nat }.

Definition rp_visit (p : Ptr) (plan : removePlan) : removePlan :=
  mkRemovePlan (rp_counter plan) ({[p]} ∪ rp_visited plan) (rp_adds plan) (rp_cancels plan).
Definition rp_cancel (id : nat) (plan : removePlan) : removePlan :=
  mkRemovePlan (rp_counter plan) (rp_visited plan) (rp_adds plan) (rp_cancels plan ++ [id]).
Definition rp_add (m : EntityMap) (p : Ptr) (plan : removePlan) : removePlan :=
  let order := S (rp_counter plan) in
  mkRemovePlan order (rp_visited plan) (rp_adds plan ++ [mkRemove p m order]) (rp_cancels plan).

Section Remove.
Context (u : unitOfWork).

(** The instance's own part of the visit; the walk goes on below the map it
    returns, if any. *)
Definition remove_enter (t : GoType) (p : Ptr) : SM removePlan (option EntityMap) :=
  match uw_insertOf u !! p with
  | Some id => smodify (rp_cancel id) ;! sret None
  | None =>
      match uw_removeOf u !! p with
      | Some _ => sret None
      | None =>
          do! m <- slift (requireWritableKeyedType t) in
          match entryOf s p with
          | None => sthrow (NewError "UOW-001" (EntityName m))
          | Some _ => smodify (rp_add m p) ;! sret (Some m)
          end
      end
  end.

Fixpoint remove_visit (fuel : nat) (t : GoType) (p : Ptr) : SM removePlan unit :=
  match fuel with
  | 0 => slift (Panic "out of fuel")
  | S fuel' =>
      do! plan <- sget in
      if decide (p ∈ rp_visited plan) then sret tt
      else
        smodify (rp_visit p) ;!
        do! entered <- remove_enter t p in
        match entered with
        | None => sret tt
        | Some m =>
            forS (fun r =>
              if Cascade_Has (rel_Cascade r) CascadeRemove then
                if negb (targets_of p r).2 && bool_decide (rel_Kind r = RelationshipOneToMany)
                then sthrow (NewError "UOW-005" (EntityName m +:+ "." +:+ rel_PropertyName r))
                else forS (fun target => remove_visit fuel' (rel_TargetType r) target) (targets_of p r).1
              else sret tt) (Relationships m)
        end
  end.

Definition commit_remove (u : unitOfWork) (add : scheduledRemove) : unitOfWork :=
  mkUow (uw_inserts u) (uw_insertOf u) (uw_objects u) (uw_removes u ++ [add])
    (<[sr_ptr add := add]> (uw_removeOf u)) (uw_counter u).

Definition remove_commit (plan : removePlan) : unitOfWork :=
  cancel (fold_left commit_remove (rp_adds plan) u) (rp_cancels plan).

Definition newRemovePlan : removePlan := mkRemovePlan (uw_counter u) ∅ [] [].
End Remove.

Definition Remove_ (fuel : nat) (t : GoType) (p : Ptr) : SM unitOfWork unit := fun u =>
  match requireUnitOfWork with
  | Fail e => (u, Fail e)
  | Ok _ =>
      match remove_visit u fuel t p (newRemovePlan u) with
      | (plan, Ok _) => (remove_commit (with_counter u (rp_counter plan)) plan, Ok tt)
      | (plan, Fail e) => (with_counter u (rp_counter plan), Fail e)
      end
  end.
Definition Remove (t : GoType) (p : Ptr) : SM unitOfWork unit := Remove_ walk_fuel t p.

(** ** [Detach] (db_detach_merge.go) *)

Definition dropRemove (u : unitOfWork) (scheduled : scheduledRemove) : unitOfWork :=
  mkUow (uw_inserts u) (uw_insertOf u) (uw_objects u)
    (List.filter (fun candidate => negb (bool_decide (sr_order candidate = sr_order scheduled))) (uw_removes u))
    (delete (sr_ptr scheduled) (uw_removeOf u)) (uw_counter u).

(** Returns the session too: a tracked instance is forgotten. *)
Definition Detach (t : GoType) (p : Ptr) (u : unitOfWork) : result (unitOfWork * Session) :=
  match se_tracker s with
  | None => Fail (NewError "UOW-003" "session")
  | Some tr =>
      let entry := entryOf s p in
      let insert := uw_insertOf u !! p in
      let remove := uw_removeOf u !! p in
      if decide (entry = None /\ insert = None /\ remove = None)
      then Fail (NewError "UOW-001" (TypeShortName t))
      else
        let u := match insert with Some id => cancel u [id] | None => u end in
        let u := match remove with Some r => dropRemove u r | None => u end in
        match entry with
        | Some e => let* tr' := forget tr e in Ok (u, with_tracker s tr')
        | None => Ok (u, s)
        end
  end.

(** ** [pendingWork] (flush.go): work already done immediately is dropped *)

Definition insert_objects (u : unitOfWork) : list scheduledInsert :=
  omap (fun id => uw_objects u !! id) (uw_inserts u).

Definition pendingWork (u : unitOfWork) : list scheduledInsert * list scheduledRemove :=
  (List.filter (fun scheduled => negb (IsTracked s (si_ptr scheduled))) (insert_objects u),
   List.filter (fun scheduled => IsTracked s (sr_ptr scheduled)) (uw_removes u)).
End Walks.
