(* ===== verification/Loading.v ===== *)
(** Relationship loading (db_eager.go, db_loading.go, loading_keys.go): the one
    loading engine behind explicit loads, batch loads and the MultiQuery and
    SubSelect modes of eager loading.  Its theorems are in [LoadingLaws].

    The engine works on the session's heap: an owner and a loaded target are
    pointers, so owners that share a target share its pointer.  Running a
    rendered SELECT and building an instance from each row are the driver's and
    the result mapper's ([read_rows]); rendering, binding, identity resolution,
    correlation and attachment are here. *)
From S2P Require Import Prelude GoStrings Values Core Params Dialect Tracker Instances Session.
From S2P Require Import Query Render.

(** * Sorting with a comparator that may panic

    [slices.SortStableFunc]: elements that compare equal keep their order. *)
Section Sort.
Context {A : Type} (cmp : A -> A -> result Z).

Fixpoint insertR (x : A) (l : list A) : result (list A) :=
  match l with
  | [] => Ok [x]
  | y :: l' =>
      let* c := cmp x y in
      if (c <=? 0)%Z then Ok (x :: y :: l')
      else let* r := insertR x l' in Ok (y :: r)
  end.

Fixpoint sortR (l : list A) : result (list A) :=
  match l with
  | [] => Ok []
  | x :: l' => let* r := sortR l' in insertR x r
  end.
End Sort.

(** * Key fast paths (loading_keys.go) *)

(** The builtin integer types whose whole range an [int64] holds. *)
Definition integerKeyTypes (t : VType) : bool :=
  match t with TyInt KUint | TyInt KUint64 => false | TyInt _ => true | _ => false end.

Definition ValueType (p : PropertyMap) : VType := ft_elem (PropertyType p).

Definition integerKey (properties : list PropertyMap) : bool :=
  match properties with
  | [p] => bool_decide (Owner p = None) && integerKeyTypes (ValueType p)
  | _ => false
  end.

Definition sameIntegerKey (left right : list PropertyMap) : bool :=
  integerKey left && integerKey right &&
  bool_decide (ValueType <$> left = ValueType <$> right).

(** The two properties of the fast path. *)
Definition integer_pair (left right : list PropertyMap) : option (PropertyMap * PropertyMap) :=
  match left, right with
  | [l], [r] => if sameIntegerKey left right then Some (l, r) else None
  | _, _ => None
  end.

(** [None] is the null that excludes an owner. *)
Definition readIntegerKey (p : PropertyMap) (i : Instance) : option Z :=
  match field_value p i with VInt _ z => Some z | _ => None end.

Definition exactNumericStorage : list string :=
  ["integer"; "bigint"; "int"; "smallint"; "tinyint"; "numeric"; "decimal"].

Definition storage_name (storage : string) : string :=
  let storage := ToLower (TrimSpace storage) in
  match list_find (fun c => c = "("%char) (bytes storage) with
  | Some (i, _) => TrimSpace (slice storage 0 i)
  | None => storage
  end.

Definition orders_as_number (dialect : Dialect) (m : EntityMap) (p : PropertyMap) : bool :=
  bool_decide (Owner p = None) &&
  (integerKeyTypes (ValueType p) || bool_decide (ValueType p = TyDecimal)) &&
  bool_decide (storage_name (StorageType dialect (Some m) p) ∈ exactNumericStorage).

Definition keyOrderIsValueOrder (dialect : Dialect) (m : EntityMap) (properties : list PropertyMap) : bool :=
  match properties with
  | [] => false
  | _ => forallb (orders_as_number dialect m) properties
  end.

(** Every row's integer key, or nothing when one has none. *)
Definition integer_rows (p : PropertyMap) (h : heap) (values : list Ptr) : option (list (Z * Ptr)) :=
  mapM (fun v => (fun k => (k, v)) <$> readIntegerKey p (deref h v)) values.

Definition compare_integer (a b : Z * Ptr) : result Z :=
  Ok (if (a.1 <? b.1)%Z then -1 else if (b.1 <? a.1)%Z then 1 else 0)%Z.

Definition compare_tuple (a b : KeyTuple * Ptr) : result Z := KeyTuple_Compare a.1 b.1.

Definition sort_by_tuple (properties : list PropertyMap) (h : heap) (values : list Ptr)
    : result (list Ptr) :=
  let* sorted := sortR compare_tuple ((fun v => (extractTuple properties (deref h v), v)) <$> values) in
  Ok (snd <$> sorted).

Definition sortByProperties (properties : list PropertyMap) (h : heap) (values : list Ptr)
    : result (list Ptr) :=
  match properties with
  | [p] =>
      if integerKey properties then
        match integer_rows p h values with
        | Some rows => let* sorted := sortR compare_integer rows in Ok (snd <$> sorted)
        | None => sort_by_tuple properties h values
        end
      else sort_by_tuple properties h values
  | _ => sort_by_tuple properties h values
  end.

(** One owner of [integerOwners]: its key, and the distinct keys seen so far
    with the tuple of each. *)
Definition integer_owner (p : PropertyMap) (needDistinct : bool) (h : heap)
    (st : gset Z * list KeyTuple) (e : Ptr) : gset Z * list KeyTuple :=
  match readIntegerKey p (deref h e) with
  | Some k =>
      if needDistinct && negb (bool_decide (k ∈ st.1))
      then ({[k]} ∪ st.1, st.2 ++ [[Get p (deref h e)]]) else st
  | None => st
  end.

Definition integerOwners (h : heap) (entities : list Ptr) (p : PropertyMap) (needDistinct : bool)
    : list (option Z) * list KeyTuple :=
  ((fun e => readIntegerKey p (deref h e)) <$> entities,
   (fold_left (integer_owner p needDistinct h) entities (∅, [])).2).

(** * Resolution and shape (db_eager.go) *)

Definition relationshipNamed (m : EntityMap) (navigation : string) : option RelationshipMap :=
  List.find (fun r => bool_decide (rel_PropertyName r = navigation)) (Relationships m).

Definition resolve_property (m : EntityMap) (navigationTarget : string) (name : string)
    : result PropertyMap :=
  match Property m name with
  | Some p => Ok p
  | None => Fail (NewError "REL-003" navigationTarget)
  end.

Definition resolveProperties (m : EntityMap) (names : list string) (navigationTarget : string)
    : result (list PropertyMap) := mapR (resolve_property m navigationTarget) names.

Definition checkArity (navigationTarget : string) (have want : nat) : result unit :=
  if decide (have = want) then Ok tt else Fail (NewError "REL-003" navigationTarget).

Definition propertyNames (properties : list PropertyMap) : list string := PropertyName <$> properties.

(** * Tuples *)

Definition has_tuple (tuples : list KeyTuple) (t : KeyTuple) : bool :=
  existsb (fun existing => KeyTuple_Equal existing t) tuples.

Definition distinctTuples (tuples : list KeyTuple) : list KeyTuple :=
  fold_left (fun result t => if has_tuple result t then result else result ++ [t]) tuples [].

(** An owner's tuple, [None] when a part is null. *)
Definition owner_tuple (properties : list PropertyMap) (h : heap) (e : Ptr) : option KeyTuple :=
  let t := extractTuple properties (deref h e) in if HasNull t then None else Some t.

Definition correlate (h : heap) (entities : list Ptr) (properties : list PropertyMap)
    (needDistinct : bool) : list (option KeyTuple) * list KeyTuple :=
  let owners := owner_tuple properties h <$> entities in
  (owners, if needDistinct then distinctTuples (omap id owners) else []).

Definition LoadChunkSize : nat := 500.

Fixpoint chunks_from (fuel : nat) (size : nat) (tuples : list KeyTuple) : list (list KeyTuple) :=
  match fuel, tuples with
  | _, [] => []
  | O, _ => []
  | S fuel, _ => take size tuples :: chunks_from fuel size (drop size tuples)
  end.
Definition chunkTuples (tuples : list KeyTuple) (size : nat) : list (list KeyTuple) :=
  chunks_from (length tuples) size tuples.

(** A key part as a criteria value: a null is Go's untyped nil. *)
Definition criteria_value (v : Value) : option Value := if is_nil v then None else Some v.

(** [t[0]] and [t[j]] panic on a shorter tuple. *)
Definition part (t : KeyTuple) (j : nat) : result (option Value) :=
  match t !! j with
  | Some v => Ok (criteria_value v)
  | None => Panic "index out of range"
  end.

Fixpoint tuple_equalities (j : nat) (names : list string) (t : KeyTuple) : result (list Criteria) :=
  match names with
  | [] => Ok []
  | name :: names' =>
      let* v := part t j in
      let* rest := tuple_equalities (S j) names' t in Ok (Eq name v :: rest)
  end.

Definition membershipCriteria (propertyNames : list string) (tuples : list KeyTuple) : result Criteria :=
  match propertyNames with
  | [name] => let* values := mapR (fun t => part t 0) tuples in Ok (InList name values)
  | _ =>
      let* children := mapR (fun t => let* parts := tuple_equalities 0 propertyNames t in Ok (And parts)) tuples in
      Ok (Or children)
  end.

(** * Queries *)

Section Loading.
Context {D : Type}.
Context (load : GoType -> result EntityMap).
Context (dialect : Dialect).
Context (ToDatabase : Value -> option ColumnType -> string -> result Value).
(** The driver and the result mapper: the rows of a statement as the instances
    built from them, and the error that stopped reading, if one did. *)
Context (read_rows : EntityMap -> string -> list NamedArg -> string ->
           D -> D * result (list Instance * option Error)).
(** the element type of a collection navigation is a pointer *)
Context (pointer_elem : GoType -> string -> bool).

Record load_env := mkLoadEnv {
  le_session : Session;
  le_labels : label_cache;
  le_db : D }.

Definition le_heap (e : load_env) : heap := se_heap (le_session e).
Definition with_session (e : load_env) (s : Session) : load_env := mkLoadEnv s (le_labels e) (le_db e).
Definition with_heap (e : load_env) (h : heap) : load_env :=
  with_session e (mkSession h (se_tracker (le_session e))).

Abbreviation M A := (SM load_env A).

(** A new instance behind a new pointer. *)
Definition alloc (i : Instance) : M Ptr := fun e =>
  let p := fresh (dom (le_heap e)) in (with_heap e (<[p := i]> (le_heap e)), Ok p).

Definition resolve_target (m : EntityMap) (p : Ptr) : M Ptr := fun e =>
  match resolveAny (fun v ct => ToDatabase v (Some ct)) (le_session e) m (RowPointer p) with
  | Ok (s, RowPointer q) => (with_session e s, Ok q)
  | Ok (s, RowValue _) => (with_session e s, Panic "interface conversion")
  | Fail err => (e, Fail err)
  end.

Definition read_row (m : EntityMap) (i : Instance) : M Ptr :=
  do! p <- alloc i in resolve_target m p.

Definition run_select (ast : SelectAst) (queryName : string) : M (list Instance * option Error) := fun e =>
  let '(labels, rendered) := renderSelect dialect ToDatabase (le_labels e) ast queryName in
  match rendered with
  | Fail err => (mkLoadEnv (le_session e) labels (le_db e), Fail err)
  | Ok (sql, args) =>
      let '(db, r) := read_rows (sa_Map ast) sql args queryName (le_db e) in
      (mkLoadEnv (le_session e) labels db, r)
  end.

Definition selectRows (ast : SelectAst) (queryName : string) : M (list Ptr) :=
  do! rows <- run_select ast queryName in
  do! targets <- mapS (read_row (sa_Map ast)) rows.1 in
  match rows.2 with
  | Some err => sthrow err
  | None => sret targets
  end.

(** Whether rows ordered by the properties come in value order. *)
Definition valueOrdered (m : EntityMap) (orderProperties : list PropertyMap) : bool :=
  keyOrderIsValueOrder dialect m orderProperties.

Definition sort_targets (properties : list PropertyMap) (targets : list Ptr) : M (list Ptr) := fun e =>
  (e, sortByProperties properties (le_heap e) targets).

Definition with_projection (ast : SelectAst) (projection : option (list PropertyMap)) : SelectAst :=
  mkSelect (sa_Map ast) (sa_Where ast) (sa_Orderings ast) (sa_Limit ast) (sa_Offset ast)
    projection (sa_Joins ast).

Definition membership_ast (m : EntityMap) (predicate : Criteria) (orderProperties : list PropertyMap)
    : SelectAst :=
  mkSelect m [predicate] ((fun p => mkOrdering (PropertyName p) Asc) <$> orderProperties)
    None None None [].

Definition queryMembership (m : EntityMap) (matchProperties : list string) (tuples : list KeyTuple)
    (ownerSubquery : option SelectAst) (subqueryProjection : option (list PropertyMap))
    (orderProperties : list PropertyMap) (queryName : string) : M (list Ptr) :=
  match ownerSubquery with
  | Some root =>
      let ast := membership_ast m (InSelect matchProperties (with_projection root subqueryProjection))
                   orderProperties in
      do! rows <- selectRows ast queryName in
      if bool_decide (orderProperties <> []) && negb (valueOrdered m orderProperties)
      then sort_targets orderProperties rows else sret rows
  | None =>
      match tuples with
      | [] => sret []
      | _ =>
          let chunks := chunkTuples tuples LoadChunkSize in
          do! all <- mapS (fun chunk =>
            do! predicate <- slift (membershipCriteria matchProperties chunk) in
            selectRows (membership_ast m predicate orderProperties) queryName) chunks in
          let all := concat all in
          if bool_decide (orderProperties <> []) &&
             ((1 <? length chunks) || negb (valueOrdered m orderProperties))
          then sort_targets orderProperties all else sret all
      end
  end.

(** * Attaching *)

Definition set_navigation (name : string) (n : Navigation) (i : Instance) : Instance :=
  mkInstance (in_type i) (in_fields i) (in_owned i) (<[name := n]> (in_navs i)).

Definition set_field_of (e : Ptr) (name : string) (n : Navigation) : M unit :=
  smodify (fun env => with_heap env (<[e := set_navigation name n (deref (le_heap env) e)]> (le_heap env))).

Definition setPointerField (e : Ptr) (name : string) (value : option Ptr) : M unit :=
  set_field_of e name (NavSingle value).

(** An element of a collection: the target itself, or a copy of it. *)
Definition appendTarget (pointerElem : bool) (target : Ptr) : M (option Ptr) := fun env =>
  if pointerElem then (env, Ok (Some target))
  else (do! p <- alloc (deref (le_heap env) target) in sret (Some p)) env.

Definition setSliceField (e : Ptr) (name : string) (pointerElem : bool) (targets : list Ptr) : M unit :=
  do! elements <- mapS (appendTarget pointerElem) targets in
  set_field_of e name (NavMany (Some elements)).

Definition find_by_tuple (properties : list PropertyMap) (h : heap) (tuple : KeyTuple) (values : list Ptr)
    : option Ptr :=
  List.find (fun v => KeyTuple_Equal (extractTuple properties (deref h v)) tuple) values.

(** Owners and what was read of each, in step. *)
Definition for_owners {K} (entities : list Ptr) (keys : list K) (f : Ptr -> K -> M unit) : M unit :=
  forS (fun ek => f ek.1 ek.2) (zip entities keys).

Definition get_heap : M heap := fun e => (e, Ok (le_heap e)).

(** * The kinds *)

Definition navigation_target (ownerMap : EntityMap) (rel : RelationshipMap) : string :=
  EntityName ownerMap +:+ "." +:+ rel_PropertyName rel.

Definition is_none {A} (o : option A) : bool := match o with None => true | Some _ => false end.

(** The first target of each key. *)
Definition first_by_key (p : PropertyMap) (h : heap) (targets : list Ptr) : gmap Z Ptr :=
  fold_left (fun byKey v =>
    match readIntegerKey p (deref h v) with
    | Some k => match byKey !! k with Some _ => byKey | None => <[k := v]> byKey end
    | None => byKey
    end) targets ∅.

Definition loadManyToOne (ownerMap targetMap : EntityMap) (rel : RelationshipMap)
    (entities : list Ptr) (ownerSubquery : option SelectAst) : M unit :=
  let target := navigation_target ownerMap rel in
  let name := rel_PropertyName rel in
  let queryName := target +:+ " (many-to-one)" in
  let keys := KeyProperties targetMap in
  do! fks <- slift (resolveProperties ownerMap (rel_ForeignKeyProperties rel) target) in
  slift (checkArity target (length fks) (length keys)) ;!
  let projection := match ownerSubquery with Some _ => Some fks | None => None end in
  do! h <- get_heap in
  match integer_pair fks keys with
  | Some (fk, key) =>
      let '(owners, distinct) := integerOwners h entities fk (is_none ownerSubquery) in
      do! targets <- queryMembership targetMap (propertyNames keys) distinct ownerSubquery projection keys queryName in
      do! h <- get_heap in
      let byKey := first_by_key key h targets in
      for_owners entities owners (fun e k => setPointerField e name (k ≫= fun k => byKey !! k))
  | None =>
      let '(owners, distinct) := correlate h entities fks (is_none ownerSubquery) in
      do! targets <- queryMembership targetMap (propertyNames keys) distinct ownerSubquery projection keys queryName in
      for_owners entities owners (fun e o =>
        do! h <- get_heap in
        setPointerField e name (o ≫= fun t => find_by_tuple keys h t targets))
  end.

(** REL-002 on the integer path: a foreign key seen before, or a second null. *)
Fixpoint unique_by_key (p : PropertyMap) (h : heap) (navigationTarget : string) (byKey : gmap Z Ptr)
    (nullSeen : bool) (targets : list Ptr) : result (gmap Z Ptr) :=
  match targets with
  | [] => Ok byKey
  | v :: rest =>
      match readIntegerKey p (deref h v) with
      | Some k =>
          match byKey !! k with
          | Some _ => Fail (NewError "REL-002" navigationTarget)
          | None => unique_by_key p h navigationTarget (<[k := v]> byKey) nullSeen rest
          end
      | None =>
          if nullSeen then Fail (NewError "REL-002" navigationTarget)
          else unique_by_key p h navigationTarget byKey true rest
      end
  end.

Fixpoint refuse_duplicates (navigationTarget : string) (seen tuples : list KeyTuple) : result unit :=
  match tuples with
  | [] => Ok tt
  | t :: rest =>
      if has_tuple seen t then Fail (NewError "REL-002" navigationTarget)
      else refuse_duplicates navigationTarget (seen ++ [t]) rest
  end.

Definition refuseDuplicateOneToOne (h : heap) (targets : list Ptr) (targetFKProps : list PropertyMap)
    (navigationTarget : string) : result unit :=
  refuse_duplicates navigationTarget []
    ((fun v => extractTuple targetFKProps (deref h v)) <$> targets).

Definition loadOneToOne (ownerMap targetMap : EntityMap) (rel : RelationshipMap)
    (entities : list Ptr) (ownerSubquery : option SelectAst) : M unit :=
  let target := navigation_target ownerMap rel in
  let name := rel_PropertyName rel in
  let queryName := target +:+ " (one-to-one)" in
  let ownerKeys := KeyProperties ownerMap in
  do! fks <- slift (resolveProperties targetMap (rel_ForeignKeyProperties rel) target) in
  slift (checkArity target (length fks) (length ownerKeys)) ;!
  let projection := match ownerSubquery with Some _ => Some ownerKeys | None => None end in
  do! h <- get_heap in
  match integer_pair ownerKeys fks with
  | Some (key, fk) =>
      let '(owners, distinct) := integerOwners h entities key (is_none ownerSubquery) in
      do! targets <- queryMembership targetMap (propertyNames fks) distinct ownerSubquery projection
                       (KeyProperties targetMap) queryName in
      do! h <- get_heap in
      do! byKey <- slift (unique_by_key fk h target ∅ false targets) in
      for_owners entities owners (fun e k => setPointerField e name (k ≫= fun k => byKey !! k))
  | None =>
      let '(owners, distinct) := correlate h entities ownerKeys (is_none ownerSubquery) in
      do! targets <- queryMembership targetMap (propertyNames fks) distinct ownerSubquery projection
                       (KeyProperties targetMap) queryName in
      do! h <- get_heap in
      slift (refuseDuplicateOneToOne h targets fks target) ;!
      for_owners entities owners (fun e o =>
        do! h <- get_heap in
        setPointerField e name (o ≫= fun t => find_by_tuple fks h t targets))
  end.

(** The targets of each foreign key, in their sequence. *)
Definition group_by_key (p : PropertyMap) (h : heap) (targets : list Ptr) : gmap Z (list Ptr) :=
  fold_left (fun groups v =>
    match readIntegerKey p (deref h v) with
    | Some k => <[k := default [] (groups !! k) ++ [v]]> groups
    | None => groups
    end) targets ∅.

(** The targets whose tuple, read once, is the owner's. *)
Definition matching (targets : list (KeyTuple * Ptr)) (tuple : KeyTuple) : list Ptr :=
  snd <$> List.filter (fun tv : KeyTuple * Ptr => KeyTuple_Equal tv.1 tuple) targets.

Definition keyed (properties : list PropertyMap) (h : heap) (targets : list Ptr) : list (KeyTuple * Ptr) :=
  (fun v => (extractTuple properties (deref h v), v)) <$> targets.

Definition loadOneToMany (ownerMap targetMap : EntityMap) (rel : RelationshipMap)
    (entities : list Ptr) (ownerSubquery : option SelectAst) : M unit :=
  let target := navigation_target ownerMap rel in
  let name := rel_PropertyName rel in
  let queryName := target +:+ " (one-to-many)" in
  let ownerKeys := KeyProperties ownerMap in
  do! fks <- slift (resolveProperties targetMap (rel_ForeignKeyProperties rel) target) in
  slift (checkArity target (length fks) (length ownerKeys)) ;!
  let projection := match ownerSubquery with Some _ => Some ownerKeys | None => None end in
  let pointerElem := pointer_elem (Type_ ownerMap) name in
  do! h <- get_heap in
  match integer_pair ownerKeys fks with
  | Some (key, fk) =>
      let '(owners, distinct) := integerOwners h entities key (is_none ownerSubquery) in
      do! targets <- queryMembership targetMap (propertyNames fks) distinct ownerSubquery projection
                       (KeyProperties targetMap) queryName in
      do! h <- get_heap in
      let groups := group_by_key fk h targets in
      for_owners entities owners (fun e k =>
        setSliceField e name pointerElem (default [] (k ≫= fun k => groups !! k)))
  | None =>
      let '(owners, distinct) := correlate h entities ownerKeys (is_none ownerSubquery) in
      do! targets <- queryMembership targetMap (propertyNames fks) distinct ownerSubquery projection
                       (KeyProperties targetMap) queryName in
      do! h <- get_heap in
      let targets := keyed fks h targets in
      for_owners entities owners (fun e o =>
        setSliceField e name pointerElem match o with Some t => matching targets t | None => [] end)
  end.

(** ** Links *)

Record linkGroup := mkLinkGroup { lg_owner : KeyTuple; lg_targets : list KeyTuple }.

Definition findLinkGroup (groups : list linkGroup) (owner : KeyTuple) : option linkGroup :=
  List.find (fun g => KeyTuple_Equal (lg_owner g) owner) groups.

Definition add_target (t : KeyTuple) (g : linkGroup) : linkGroup :=
  if has_tuple (lg_targets g) t then g else mkLinkGroup (lg_owner g) (lg_targets g ++ [t]).

(** The group found is the first of its owner; it is changed in place. *)
Fixpoint add_link (owner t : KeyTuple) (groups : list linkGroup) : list linkGroup :=
  match groups with
  | [] => [mkLinkGroup owner [t]]
  | g :: groups' =>
      if KeyTuple_Equal (lg_owner g) owner then add_target t g :: groups'
      else g :: add_link owner t groups'
  end.

(** A link row's two tuples, when neither has a null part. *)
Definition link_tuples (linkOwnerProps linkTargetProps : list PropertyMap) (i : Instance)
    : option (KeyTuple * KeyTuple) :=
  let o := extractTuple linkOwnerProps i in
  let t := extractTuple linkTargetProps i in
  if HasNull o || HasNull t then None else Some (o, t).

Definition groupLinkRows (links : list (KeyTuple * KeyTuple)) : list linkGroup * list KeyTuple :=
  (fold_left (fun groups ot => add_link ot.1 ot.2 groups) links [],
   distinctTuples (snd <$> links)).

Definition loadManyToMany (ownerMap targetMap linkMap : EntityMap) (rel : RelationshipMap)
    (entities : list Ptr) (ownerSubquery : option SelectAst) : M unit :=
  let target := navigation_target ownerMap rel in
  let name := rel_PropertyName rel in
  let ownerKeys := KeyProperties ownerMap in
  let targetKeys := KeyProperties targetMap in
  do! linkOwner <- slift (resolveProperties linkMap (rel_LinkForeignKeysToOwner rel) target) in
  do! linkTarget <- slift (resolveProperties linkMap (rel_LinkForeignKeysToTarget rel) target) in
  slift (checkArity target (length linkOwner) (length ownerKeys)) ;!
  slift (checkArity target (length linkTarget) (length targetKeys)) ;!
  do! h <- get_heap in
  let '(owners, distinctOwners) := correlate h entities ownerKeys (is_none ownerSubquery) in
  let projection := match ownerSubquery with Some _ => Some ownerKeys | None => None end in
  do! linkRows <- queryMembership linkMap (propertyNames linkOwner) distinctOwners ownerSubquery projection []
                    (target +:+ " (many-to-many link)") in
  do! h <- get_heap in
  let '(groups, allTargetTuples) :=
    groupLinkRows (omap (fun v => link_tuples linkOwner linkTarget (deref h v)) linkRows) in
  do! targets <- queryMembership targetMap (propertyNames targetKeys) allTargetTuples None None targetKeys
                   (target +:+ " (many-to-many target)") in
  do! h <- get_heap in
  let targets := keyed targetKeys h targets in
  let pointerElem := pointer_elem (Type_ ownerMap) name in
  for_owners entities owners (fun e o =>
    setSliceField e name pointerElem
      match o ≫= findLinkGroup groups with
      | Some g => snd <$> List.filter (fun tv : KeyTuple * Ptr => has_tuple (lg_targets g) tv.1) targets
      | None => []
      end).

(** * The engine *)

Definition loadEachOf (ownerType : GoType) (entities : list Ptr) (navigation : string)
    (ownerSubquery : option SelectAst) : M unit :=
  do! ownerMap <- slift (load ownerType) in
  match relationshipNamed ownerMap navigation with
  | None => sthrow (NewError "REL-001" (EntityName ownerMap +:+ "." +:+ navigation))
  | Some rel =>
      do! targetMap <- slift (load (rel_TargetType rel)) in
      match rel_Kind rel with
      | RelationshipManyToOne => loadManyToOne ownerMap targetMap rel entities ownerSubquery
      | RelationshipOneToOne => loadOneToOne ownerMap targetMap rel entities ownerSubquery
      | RelationshipOneToMany => loadOneToMany ownerMap targetMap rel entities ownerSubquery
      | RelationshipManyToMany =>
          do! linkMap <- slift (load (default (mkGoType "" "") (rel_LinkType rel))) in
          loadManyToMany ownerMap targetMap linkMap rel entities ownerSubquery
      end
  end.

(** [LoadEach] and [Load] (db_loading.go). *)
Definition LoadEach (ownerType : GoType) (entities : list Ptr) (navigation : string) : M unit :=
  loadEachOf ownerType entities navigation None.
Definition Load (ownerType : GoType) (entity : Ptr) (navigation : string) : M unit :=
  LoadEach ownerType [entity] navigation.

Definition eagerLoad (m : EntityMap) (rows : list Ptr) (includes : list string)
    (ownerSubquery : option SelectAst) : M unit :=
  forS (fun navigation => loadEachOf (Type_ m) rows navigation ownerSubquery) includes.

End Loading.
