(* ===== verification/JoinMode.v ===== *)
(** Join-mode eager loading (db_eager_join.go): one SELECT with a LEFT JOIN for
    each included navigation, whose rows are folded back by key into roots and
    shared targets; and [List] (criteria_query.go), which chooses the mode.  Its
    theorems are in [JoinLaws].

    A raw row is the driver's values in column order.  Running the statement
    ([raw_rows]) and building an instance from a segment of a row ([Plan]) are
    the driver's and the result mapper's; the shape of a navigation field is
    reflection's ([field_shape]). *)
From S2P Require Import Prelude GoStrings Values Core Params Dialect Tracker Instances Session.
From S2P Require Import Query Render Loading.

(** * The joins of a request *)

(** [fmt.Sprintf("j%d", n)] and its link twin. *)
Definition join_alias (n : nat) : string := "j" +:+ Itoa (Z.of_nat n).
Definition link_alias (n : nat) : string := "l" +:+ Itoa (Z.of_nat n).

Record joinNavigation := mkJoinNavigation {
  jn_relationship : RelationshipMap;
  jn_targetMap : EntityMap;
  (** many-to-many only: the link's map and alias *)
  jn_link : option (EntityMap * string);
  jn_alias : string;
  jn_isCollection : bool }.

Definition is_collection (kind : RelationshipKind) : bool :=
  match kind with RelationshipOneToMany | RelationshipManyToMany => true | _ => false end.

Section Navigations.
Context (load : GoType -> result EntityMap).

(** [resolveJoinNavigations]' loop, with its two counters. *)
Fixpoint resolve_navigations (m : EntityMap) (jIndex lIndex : nat) (includes : list string)
    : result (list joinNavigation) :=
  match includes with
  | [] => Ok []
  | name :: includes =>
      match relationshipNamed m name with
      | None => Fail (NewError "REL-001" (EntityName m +:+ "." +:+ name))
      | Some rel =>
          let* targetMap := load (rel_TargetType rel) in
          let nav link := mkJoinNavigation rel targetMap link (join_alias jIndex) (is_collection (rel_Kind rel)) in
          if decide (rel_Kind rel = RelationshipManyToMany) then
            let* linkMap := load (default (mkGoType "" "") (rel_LinkType rel)) in
            let* rest := resolve_navigations m (S jIndex) (S lIndex) includes in
            Ok (nav (Some (linkMap, link_alias lIndex)) :: rest)
          else
            let* rest := resolve_navigations m (S jIndex) lIndex includes in
            Ok (nav None :: rest)
      end
  end.

Definition resolveJoinNavigations (m : EntityMap) (includes : list string) : result (list joinNavigation) :=
  resolve_navigations m 0 0 includes.
End Navigations.

(** The four pair builders share this loop: foreign-key names beside the key they
    stand for, each of which must be a mapped property of [fkMap]. *)
Fixpoint key_pairs (fkMap : EntityMap) (queryName : string) (pair : string -> PropertyMap -> JoinPair)
    (fks : list string) (keys : list PropertyMap) : result (list JoinPair) :=
  match fks, keys with
  | fk :: fks, key :: keys =>
      match Property fkMap fk with
      | None => Fail (NewError "REL-003" queryName)
      | Some _ => let* rest := key_pairs fkMap queryName pair fks keys in Ok (pair fk key :: rest)
      end
  | _, _ => Ok []
  end.

Definition checked_pairs (fkMap : EntityMap) (queryName : string) (pair : string -> PropertyMap -> JoinPair)
    (fks : list string) (keys : list PropertyMap) : result (list JoinPair) :=
  if decide (length fks = length keys) then key_pairs fkMap queryName pair fks keys
  else Fail (NewError "REL-003" queryName).

(** The foreign key is the parent's, or the target's. *)
Definition parent_fk (fk : string) (key : PropertyMap) : JoinPair := mkJoinPair fk (PropertyName key).
Definition target_fk (fk : string) (key : PropertyMap) : JoinPair := mkJoinPair (PropertyName key) fk.

Definition fkOnOwnerPairs (owner target : EntityMap) (rel : RelationshipMap) (queryName : string) :=
  checked_pairs owner queryName parent_fk (rel_ForeignKeyProperties rel) (KeyProperties target).
Definition fkOnTargetPairs (owner target : EntityMap) (rel : RelationshipMap) (queryName : string) :=
  checked_pairs target queryName target_fk (rel_ForeignKeyProperties rel) (KeyProperties owner).
Definition linkPairsToOwner (owner link : EntityMap) (rel : RelationshipMap) (queryName : string) :=
  checked_pairs link queryName target_fk (rel_LinkForeignKeysToOwner rel) (KeyProperties owner).
Definition linkPairsToTarget (link target : EntityMap) (rel : RelationshipMap) (queryName : string) :=
  checked_pairs link queryName parent_fk (rel_LinkForeignKeysToTarget rel) (KeyProperties target).

Definition keyless (m : EntityMap) : bool := match KeyProperties m with [] => true | _ => false end.

Definition navigation_joins (m : EntityMap) (queryName : string) (nav : joinNavigation)
    : result (list SelectJoin) :=
  let rel := jn_relationship nav in
  let target := jn_targetMap nav in
  if keyless target then Fail (NewError "REL-003" queryName)
  else
    match rel_Kind rel with
    | RelationshipManyToOne =>
        let* pairs := fkOnOwnerPairs m target rel queryName in
        Ok [mkSelectJoin target (jn_alias nav) "" pairs true]
    | RelationshipOneToOne | RelationshipOneToMany =>
        let* pairs := fkOnTargetPairs m target rel queryName in
        Ok [mkSelectJoin target (jn_alias nav) "" pairs true]
    | RelationshipManyToMany =>
        match jn_link nav with
        | None => Panic "nil pointer dereference"
        | Some (link, linkAlias) =>
            let* linkPairs := linkPairsToOwner m link rel queryName in
            let* targetPairs := linkPairsToTarget link target rel queryName in
            Ok [mkSelectJoin link linkAlias "" linkPairs false;
                mkSelectJoin target (jn_alias nav) linkAlias targetPairs true]
        end
    end.

Definition collectionCount (navs : list joinNavigation) : nat := length (List.filter jn_isCollection navs).

Definition buildJoins (m : EntityMap) (navs : list joinNavigation) (ast : SelectAst) (queryName : string)
    : result (list SelectJoin) :=
  if (0 <? collectionCount navs) && negb (bool_decide (sa_Limit ast = None) && bool_decide (sa_Offset ast = None))
  then Fail (NewError "REL-005" queryName)
  else if 1 <? collectionCount navs then Fail (NewError "REL-006" queryName)
  else if keyless m then Fail (NewError "REL-003" queryName)
  else let* joins := mapR (navigation_joins m queryName) navs in Ok (concat joins).

(** * The segments of a row *)

Definition RawRow := list Value.

(** [strings.TrimPrefix] *)
Definition TrimPrefix (s prefix : string) : string :=
  if HasPrefix s prefix then of_bytes (drop (String.length prefix) (bytes s)) else s.

Definition segmentColumns (columns : list string) (prefix : string) : list nat * list string :=
  let own := List.filter (fun ic : nat * string => HasPrefix ic.2 prefix) (imap pair columns) in
  (fst <$> own, (fun ic : nat * string => TrimPrefix ic.2 prefix) <$> own).

(** A segment of a row; the positions are the row's own. *)
Definition pick (values : RawRow) (indices : list nat) : RawRow := (fun i => default VNil (values !! i)) <$> indices.

Definition allNilAt (values : RawRow) (indices : list nat) : bool :=
  forallb (fun i => is_nil (default VNil (values !! i))) indices.

(** ** Keys *)

(** [rr_integer] is the integer key property; [rr_column] the key column's
    position in the row. *)
Record rowKeyReader := mkRowKeyReader { rr_integer : option PropertyMap; rr_column : option nat }.

Definition newRowKeyReader (m : EntityMap) (indices : list nat) (stripped : list string) : rowKeyReader :=
  match KeyProperties m with
  | [p] =>
      if integerKey [p] && negb (ft_pointer (PropertyType p)) then
        mkRowKeyReader (Some p)
          (snd <$> List.find (fun ni : string * nat => EqualFold ni.1 (ColumnName p)) (zip stripped indices))
      else mkRowKeyReader None None
  | _ => mkRowKeyReader None None
  end.

Definition fromRow (r : rowKeyReader) (raw : RawRow) : option Z :=
  match rr_integer r, rr_column r with
  | Some _, Some c => match raw !! c with Some (VInt KInt64 z) => Some z | _ => None end
  | _, _ => None
  end.

(** A materialized instance's key, by the reader's path. *)
Inductive rowKey := IntegerRowKey (z : Z) | TupleRowKey (t : KeyTuple).

Definition key_of_instance (r : rowKeyReader) (m : EntityMap) (i : Instance) : result rowKey :=
  match rr_integer r with
  | Some p =>
      match readIntegerKey p i with
      | Some z => Ok (IntegerRowKey z)
      | None => Fail (NewError "REL-003" (EntityName m))
      end
  | None => let* values := KeyValues m i in Ok (TupleRowKey values)
  end.

Definition rowKey_equal (a b : rowKey) : bool :=
  match a, b with
  | IntegerRowKey x, IntegerRowKey y => bool_decide (x = y)
  | TupleRowKey t, TupleRowKey u => KeyTuple_Equal t u
  | _, _ => false
  end.

Definition rowKey_compare (a b : rowKey) : result Z :=
  match a, b with
  | IntegerRowKey x, IntegerRowKey y => Ok (compare_Z x y)
  | TupleRowKey t, TupleRowKey u => KeyTuple_Compare t u
  | _, _ => Panic "mixed keys"
  end.

(** [instanceIndex]: a map on the integer path, a list in the order added
    otherwise. *)
Record instanceIndex (V : Type) := mkIndex { ix_int : gmap Z V; ix_entries : list (KeyTuple * V) }.
Arguments mkIndex {V} ix_int ix_entries.
Arguments ix_int {V} _.
Arguments ix_entries {V} _.

Definition empty_index {V} : instanceIndex V := mkIndex ∅ [].

Definition index_find {V} (x : instanceIndex V) (key : rowKey) : option V :=
  match key with
  | IntegerRowKey z => ix_int x !! z
  | TupleRowKey t => snd <$> List.find (fun e : KeyTuple * V => KeyTuple_Equal e.1 t) (ix_entries x)
  end.

Definition index_add {V} (x : instanceIndex V) (key : rowKey) (value : V) : instanceIndex V :=
  match key with
  | IntegerRowKey z => mkIndex (<[z := value]> (ix_int x)) (ix_entries x)
  | TupleRowKey t => mkIndex (ix_int x) (ix_entries x ++ [(t, value)])
  end.

(** * Reading the joined rows *)

(** The field a navigation names on its owner. *)
Inductive FieldShape := NoField | PointerField | SliceField (pointerElem : bool) | OtherField.

(** One navigation's reading plan. *)
Record navReadState := mkNavReadState {
  ns_nav : joinNavigation;
  ns_indices : list nat;
  ns_read : RawRow -> result Instance;
  (** the segment is read into a pointer, not a struct *)
  ns_pointer : bool;
  ns_pointerElem : bool;
  ns_keys : rowKeyReader }.

(** What the fold has of one root. *)
Record ownerRecord := mkOwnerRecord {
  or_ptr : Ptr;
  or_collections : list (list (rowKey * Row));
  or_singular : list (option rowKey) }.

(** The fold's own state: the roots in the order they appeared, their index, and
    each navigation's shared targets. *)
Record join_state := mkJoinState {
  js_order : list ownerRecord;
  js_owners : instanceIndex nat;
  js_targets : list (instanceIndex (rowKey * Row)) }.

Definition update_owner (j : nat) (f : ownerRecord -> ownerRecord) (st : join_state) : join_state :=
  mkJoinState (alter f j (js_order st)) (js_owners st) (js_targets st).

Definition hasCollectionEntry (entries : list (rowKey * Row)) (key : rowKey) : bool :=
  existsb (fun e : rowKey * Row => rowKey_equal e.1 key) entries.

Section Reading.
Context {D : Type}.
Context (load : GoType -> result EntityMap).
Context (dialect : Dialect).
Context (ToDatabase : Value -> option ColumnType -> string -> result Value).
(** the columns of a statement's rows, the rows, and the error that stopped reading *)
Context (raw_rows : EntityMap -> string -> list NamedArg -> string ->
           D -> D * result (list string * list RawRow * option Error)).
(** the result mapper's plan for a type, pointer or struct, over a segment's columns *)
Context (Plan : EntityMap -> bool -> list string -> string -> result (RawRow -> result Instance)).
Context (field_shape : GoType -> string -> FieldShape).

Abbreviation M A := (SM (@load_env D) A).

Definition run_join (ast : SelectAst) (queryName : string)
    : M (list string * list RawRow * option Error) := fun e =>
  let '(labels, rendered) := renderSelect dialect ToDatabase (le_labels e) ast queryName in
  match rendered with
  | Fail err => (mkLoadEnv (le_session e) labels (le_db e), Fail err)
  | Ok (sql, args) =>
      let '(db, r) := raw_rows (sa_Map ast) sql args queryName (le_db e) in
      (mkLoadEnv (le_session e) labels db, r)
  end.

(** [nav]'s field and its plan. *)
Definition nav_state (m : EntityMap) (columns : list string) (queryName : string) (nav : joinNavigation)
    : result navReadState :=
  let rel := jn_relationship nav in
  let wrong := Fail (NewError "REL-003" queryName) in
  let state pointer pointerElem :=
    let '(indices, stripped) := segmentColumns columns (jn_alias nav +:+ "_") in
    let* read := Plan (jn_targetMap nav) pointer stripped queryName in
    Ok (mkNavReadState nav indices read pointer pointerElem (newRowKeyReader (jn_targetMap nav) indices stripped)) in
  match field_shape (Type_ m) (rel_PropertyName rel), jn_isCollection nav with
  | SliceField pointerElem, true => state pointerElem pointerElem
  | PointerField, false => state true true
  | _, _ => wrong
  end.

(** Resolves a value read from a row, as a pointer or by value. *)
Definition resolve_value (m : EntityMap) (pointer : bool) (i : Instance) : M Row :=
  if pointer then do! p <- read_row ToDatabase m i in sret (RowPointer p)
  else fun e =>
    match resolveAny (fun v ct => ToDatabase v (Some ct)) (le_session e) m (RowValue i) with
    | Ok (s, row) => (with_session e s, Ok row)
    | Fail err => (e, Fail err)
    end.

(** A root's own pointer: the resolved one, or a new copy of the resolved value. *)
Definition root_pointer (row : Row) : M Ptr :=
  match row with RowPointer p => sret p | RowValue i => alloc i end.

Definition empty_collections (m : EntityMap) (p : Ptr) (states : list navReadState) : M unit :=
  forS (fun s => if jn_isCollection (ns_nav s)
                 then set_field_of p (rel_PropertyName (jn_relationship (ns_nav s))) (NavMany (Some []))
                 else sret tt) states.

(** The root of a row: found by the key in the row, or by the key of the instance
    built, or new. *)
Definition root_of_row (m : EntityMap) (pointer : bool) (indices : list nat) (read : RawRow -> result Instance)
    (keys : rowKeyReader) (states : list navReadState) (raw : RawRow) (st : join_state)
    : M (nat * join_state) :=
  match fromRow keys raw ≫= (fun z => index_find (js_owners st) (IntegerRowKey z)) with
  | Some j => sret (j, st)
  | None =>
      do! i <- slift (read (pick raw indices)) in
      do! key <- slift (key_of_instance keys m i) in
      match index_find (js_owners st) key with
      | Some j => sret (j, st)
      | None =>
          do! row <- resolve_value m pointer i in
          do! p <- root_pointer row in
          empty_collections m p states ;!
          let owner := mkOwnerRecord p (replicate (length states) []) (replicate (length states) None) in
          let j := length (js_order st) in
          sret (j, mkJoinState (js_order st ++ [owner]) (index_add (js_owners st) key j) (js_targets st))
      end
  end.

(** The shared target of a segment. *)
Definition target_of_row (n : nat) (s : navReadState) (raw : RawRow) (st : join_state)
    : M (rowKey * Row * join_state) :=
  let index := default empty_index (js_targets st !! n) in
  let m := jn_targetMap (ns_nav s) in
  match fromRow (ns_keys s) raw ≫= (fun z => index_find index (IntegerRowKey z)) with
  | Some target => sret (target, st)
  | None =>
      do! i <- slift (ns_read s (pick raw (ns_indices s))) in
      do! key <- slift (key_of_instance (ns_keys s) m i) in
      match index_find index key with
      | Some target => sret ((key, target.2), st)
      | None =>
          do! row <- resolve_value m (ns_pointer s) i in
          sret ((key, row),
                mkJoinState (js_order st) (js_owners st)
                  (<[n := index_add index key (key, row)]> (js_targets st)))
      end
  end.

Definition add_entry (n : nat) (entry : rowKey * Row) (o : ownerRecord) : ownerRecord :=
  mkOwnerRecord (or_ptr o) (alter (fun entries => entries ++ [entry]) n (or_collections o)) (or_singular o).
Definition assign_singular (n : nat) (key : rowKey) (o : ownerRecord) : ownerRecord :=
  mkOwnerRecord (or_ptr o) (or_collections o) (<[n := Some key]> (or_singular o)).

Definition row_pointer (r : Row) : option Ptr := match r with RowPointer p => Some p | RowValue _ => None end.

(** One navigation of one row. *)
Definition fold_navigation (queryName : string) (j : nat) (raw : RawRow) (n : nat) (s : navReadState)
    (st : join_state) : M join_state :=
  if allNilAt raw (ns_indices s) then sret st
  else
    do! (target, st) <- target_of_row n s raw st in
    match js_order st !! j with
    | None => slift (Panic "index out of range")
    | Some owner =>
        if jn_isCollection (ns_nav s) then
          if hasCollectionEntry (default [] (or_collections owner !! n)) target.1 then sret st
          else sret (update_owner j (add_entry n target) st)
        else
          match default None (or_singular owner !! n) with
          | Some key =>
              if rowKey_equal key target.1 then sret st
              else sthrow (NewError "REL-002" queryName)
          | None =>
              setPointerField (or_ptr owner) (rel_PropertyName (jn_relationship (ns_nav s))) (row_pointer target.2) ;!
              sret (update_owner j (assign_singular n target.1) st)
          end
    end.

Fixpoint fold_navigations (queryName : string) (j : nat) (raw : RawRow) (n : nat) (states : list navReadState)
    (st : join_state) : M join_state :=
  match states with
  | [] => sret st
  | s :: states =>
      do! st <- fold_navigation queryName j raw n s st in
      fold_navigations queryName j raw (S n) states st
  end.

Definition fold_row (m : EntityMap) (pointer : bool) (indices : list nat) (read : RawRow -> result Instance)
    (keys : rowKeyReader) (states : list navReadState) (queryName : string) (raw : RawRow) (st : join_state)
    : M join_state :=
  do! (j, st) <- root_of_row m pointer indices read keys states raw st in
  fold_navigations queryName j raw 0 states st.

Fixpoint fold_rows (m : EntityMap) (pointer : bool) (indices : list nat) (read : RawRow -> result Instance)
    (keys : rowKeyReader) (states : list navReadState) (queryName : string) (raws : list RawRow) (st : join_state)
    : M join_state :=
  match raws with
  | [] => sret st
  | raw :: raws =>
      do! st <- fold_row m pointer indices read keys states queryName raw st in
      fold_rows m pointer indices read keys states queryName raws st
  end.

(** An element of a collection; a struct element is a copy of its own. *)
Definition element (r : Row) : M (option Ptr) :=
  match r with
  | RowPointer p => sret (Some p)
  | RowValue i => do! p <- alloc i in sret (Some p)
  end.

(** A root's collection in key order. *)
Definition sort_collection (o : ownerRecord) (n : nat) (s : navReadState) : M unit :=
  if jn_isCollection (ns_nav s) then
    do! entries <- slift (sortR (fun a b : rowKey * Row => rowKey_compare a.1 b.1)
                           (default [] (or_collections o !! n))) in
    do! elements <- mapS (fun e : rowKey * Row => element e.2) entries in
    set_field_of (or_ptr o) (rel_PropertyName (jn_relationship (ns_nav s))) (NavMany (Some elements))
  else sret tt.

Definition finish_owner (states : list navReadState) (o : ownerRecord) : M unit :=
  forS (fun ns : nat * navReadState => sort_collection o ns.1 ns.2) (imap pair states).

Definition readJoinedRows (m : EntityMap) (pointer : bool) (navs : list joinNavigation)
    (columns : list string) (raws : list RawRow) (stopped : option Error) (queryName : string) : M (list Ptr) :=
  let '(indices, stripped) := segmentColumns columns "t_" in
  do! read <- slift (Plan m true stripped queryName) in
  do! states <- slift (mapR (nav_state m columns queryName) navs) in
  do! st <- fold_rows m pointer indices read (newRowKeyReader m indices stripped) states queryName raws
              (mkJoinState [] empty_index (replicate (length states) empty_index)) in
  match stopped with
  | Some err => sthrow err
  | None =>
      forS (finish_owner states) (js_order st) ;!
      sret (or_ptr <$> js_order st)
  end.

Definition with_joins (ast : SelectAst) (joins : list SelectJoin) : SelectAst :=
  mkSelect (sa_Map ast) (sa_Where ast) (sa_Orderings ast) (sa_Limit ast) (sa_Offset ast) (sa_Projection ast) joins.

Definition listWithJoins (m : EntityMap) (pointer : bool) (includes : list string) (ast : SelectAst)
    (queryName : string) : M (list Ptr) :=
  do! navs <- slift (resolveJoinNavigations load m includes) in
  do! joins <- slift (buildJoins m navs ast queryName) in
  do! (columns, raws, stopped) <- run_join (with_joins ast joins) queryName in
  readJoinedRows m pointer navs columns raws stopped queryName.

(** * [List] (criteria_query.go) *)

Context (read_rows : EntityMap -> string -> list NamedArg -> string ->
           D -> D * result (list Instance * option Error)).
Context (pointer_elem : GoType -> string -> bool).

(** The root rows, behind the caller's pointers or in the caller's slice. *)
Definition execute (pointer : bool) (ast : SelectAst) (queryName : string) : M (list Ptr) :=
  do! rows <- run_select dialect ToDatabase read_rows ast queryName in
  do! roots <- mapS (fun i => do! row <- resolve_value (sa_Map ast) pointer i in root_pointer row) rows.1 in
  match rows.2 with
  | Some err => sthrow err
  | None => sret roots
  end.

Definition List_ (entityType : GoType) (pointer : bool) (q : CriteriaQuery) : M (list Ptr) :=
  do! m <- slift (load entityType) in
  slift (requireNamedRelation m entityType) ;!
  let queryName := queryName m in
  let ast := query_ast m q in
  match cq_includes q, cq_fetch q with
  | _ :: _, FetchJoin => listWithJoins m pointer (cq_includes q) ast queryName
  | includes, fetch =>
      do! rows <- execute pointer ast queryName in
      eagerLoad load dialect ToDatabase read_rows pointer_elem m rows includes
        (if bool_decide (fetch = FetchSubSelect) then Some ast else None) ;!
      sret rows
  end.

End Reading.
