(* ===== verification/LoadingLaws.v ===== *)
(** What relationship loading promises ([Loading]): its sort is the stable
    value-wise one, the integer fast path is the tuple path, and a load attaches
    to every owner exactly the related rows of the table. *)
From S2P Require Import Prelude GoStrings Values Core Params Dialect Tracker Instances Session.
From S2P Require Import Query Render Loading.
From S2P Require Sqlite.

(** * The sort *)

Section SortLaws.
Context {A : Type} (cmp : A -> A -> result Z).

Lemma insertR_perm x l l' : insertR cmp x l = Ok l' -> l' ≡ₚ x :: l.
Proof.
  revert l'. induction l as [|y l IH]; intros l' H; cbn [insertR] in H; [by apply Ok_inj in H as <-|].
  apply bind_Ok in H as (c & _ & H). destruct (c <=? 0)%Z; [by apply Ok_inj in H as <-|].
  apply bind_Ok in H as (r & Hr & H). apply Ok_inj in H as <-. rewrite (IH _ Hr). apply Permutation_swap.
Qed.

Lemma sortR_perm l l' : sortR cmp l = Ok l' -> l' ≡ₚ l.
Proof.
  revert l'. induction l as [|x l IH]; intros l' H; cbn [sortR] in H; [by apply Ok_inj in H as <-|].
  apply bind_Ok in H as (r & Hr & H). rewrite (insertR_perm _ _ _ H). by rewrite (IH _ Hr).
Qed.

Context (P : A -> Prop) (Hcmp : ordering_on P cmp).

Definition in_order (a b : A) : Prop := exists c, cmp a b = Ok c /\ (c <= 0)%Z.

Lemma in_order_trans a b c : P a -> P b -> P c -> in_order a b -> in_order b c -> in_order a c.
Proof.
  intros Ha Hb Hc (x & Hx & Lx) (y & Hy & Ly).
  destruct (ord_trans _ _ Hcmp a b c x y) as (z & Hz & Lz & _); try done. by exists z.
Qed.

Lemma insertR_sorted x l :
  P x -> Forall P l -> StronglySorted in_order l ->
  exists l', insertR cmp x l = Ok l' /\ StronglySorted in_order l'.
Proof.
  intros Hx Hl Hs. induction Hs as [|y l Hs IH Hy]; [exists [x]; split; [done|repeat constructor]|].
  apply Forall_cons in Hl as [Py Hl]. cbn [insertR].
  destruct (ord_total _ _ Hcmp x y Hx Py) as (c & Hc & _). rewrite Hc. cbn [mbind result_bind].
  destruct (Z.leb_spec c 0) as [Hle|Hgt].
  - exists (x :: y :: l). split; [done|]. constructor; [by constructor|].
    assert (Hxy : in_order x y) by (by exists c). constructor; [done|].
    rewrite Forall_forall in Hy, Hl. apply Forall_forall. intros z Hz.
    apply (in_order_trans x y z); auto.
  - destruct (IH Hl) as (l' & Hl' & Hs'). rewrite Hl'. cbn [mbind result_bind].
    exists (y :: l'). split; [done|]. constructor; [done|].
    rewrite Forall_forall in Hy. apply Forall_forall. intros z Hz.
    rewrite (insertR_perm _ _ _ Hl') in Hz. apply elem_of_cons in Hz as [->|Hz]; [|auto].
    exists (- c)%Z. split; [by apply (ord_anti _ _ Hcmp x y)|lia].
Qed.

Lemma sortR_sorted l :
  Forall P l -> exists l', sortR cmp l = Ok l' /\ l' ≡ₚ l /\ StronglySorted in_order l'.
Proof.
  induction 1 as [|x l Hx Hl IH]; [exists []; split_and!; [done|done|constructor]|].
  destruct IH as (r & Hr & Hp & Hs). cbn [sortR]. rewrite Hr. cbn [mbind result_bind].
  destruct (insertR_sorted x r Hx) as (l' & Hl' & Hs'); [by rewrite Hp|done|].
  exists l'. split; [done|]. split; [|done]. by rewrite (insertR_perm _ _ _ Hl'), Hp.
Qed.

End SortLaws.

(** Sorting an image is the image of sorting. *)
Lemma insertR_fmap {A B} (cmpA : A -> A -> result Z) (cmpB : B -> B -> result Z) (f : A -> B)
    (x : A) (l : list A) :
  (forall a b, cmpB (f a) (f b) = cmpA a b) ->
  insertR cmpB (f x) (f <$> l) = (let* r := insertR cmpA x l in Ok (f <$> r)).
Proof.
  intros H. induction l as [|y l IH]; [done|]. rewrite fmap_cons. cbn [insertR]. rewrite H, IH.
  destruct (cmpA x y) as [c|e]; [|done]. cbn [mbind result_bind].
  destruct (c <=? 0)%Z; [done|]. by destruct (insertR cmpA x l).
Qed.

Lemma sortR_fmap {A B} (cmpA : A -> A -> result Z) (cmpB : B -> B -> result Z) (f : A -> B)
    (l : list A) :
  (forall a b, cmpB (f a) (f b) = cmpA a b) ->
  sortR cmpB (f <$> l) = (let* r := sortR cmpA l in Ok (f <$> r)).
Proof.
  intros H. induction l as [|x l IH]; [done|]. rewrite fmap_cons. cbn [sortR]. rewrite IH.
  destruct (sortR cmpA l) as [r|e]; [|done]. cbn [mbind result_bind]. by apply insertR_fmap.
Qed.

(** * The integer fast path *)

(** The field of an integer property: its own kind, or null. *)
Definition reads_integer (p : PropertyMap) (i : Instance) : Prop :=
  field_value p i = VNil \/ exists k z, ValueType p = TyInt k /\ field_value p i = VInt k z.

Definition integer_tuple (p : PropertyMap) (z : Z) : KeyTuple :=
  [VInt match ValueType p with TyInt k => k | _ => KInt64 end z].

Lemma read_tuple p i :
  integerKey [p] = true -> reads_integer p i ->
  extractTuple [p] i = match readIntegerKey p i with Some z => integer_tuple p z | None => [VNil] end.
Proof.
  intros Hk Hr. cbn [integerKey] in Hk. apply andb_true_iff in Hk as [Ho%bool_decide_eq_true _].
  unfold extractTuple, readIntegerKey, Get, integer_tuple. simpl. rewrite Ho.
  destruct Hr as [->|(k & z & -> & ->)]; done.
Qed.

Lemma integer_tuple_null p z : HasNull (integer_tuple p z) = false.
Proof. done. Qed.

Lemma integer_tuple_equal p q x y :
  ValueType p = ValueType q -> KeyTuple_Equal (integer_tuple p x) (integer_tuple q y) = bool_decide (x = y).
Proof.
  intros H. unfold integer_tuple. rewrite H. simpl. rewrite andb_true_r.
  apply bool_decide_ext. split; [by intros [= ->]|by intros ->].
Qed.

Lemma null_tuple_equal p x : KeyTuple_Equal [VNil] (integer_tuple p x) = false.
Proof. done. Qed.

Section Fast.
Context (p q : PropertyMap) (Hp : integerKey [p] = true) (Hq : integerKey [q] = true).
Context (Hpq : ValueType p = ValueType q).
Context (h : heap).

Lemma owner_tuple_integer e :
  reads_integer p (deref h e) -> owner_tuple [p] h e = integer_tuple p <$> readIntegerKey p (deref h e).
Proof.
  intros He. unfold owner_tuple. rewrite read_tuple by done. by destruct (readIntegerKey p (deref h e)).
Qed.

(** The owners and the distinct tuples of the two paths. *)
Lemma integer_distinct entities seen result :
  Forall (fun e => reads_integer p (deref h e)) entities ->
  (forall z, z ∈ seen <-> integer_tuple p z ∈ result) ->
  Forall (fun t => exists z, t = integer_tuple p z) result ->
  (fold_left (integer_owner p true h) entities (seen, result)).2
  = fold_left (fun result t => if has_tuple result t then result else result ++ [t])
      (omap id (owner_tuple [p] h <$> entities)) result.
Proof.
  intros He. revert seen result. induction He as [|e entities He Hes IH]; intros seen result Hs Hr; [done|].
  cbn [fmap list_fmap fold_left]. cbn [omap list_omap]. unfold id at 1.
  rewrite owner_tuple_integer by done. unfold integer_owner at 2.
  pose proof (read_tuple p (deref h e) Hp He) as Ht.
  destruct (readIntegerKey p (deref h e)) as [z|]; cbn [fmap option_fmap option_map]; [|by apply IH].
  cbn [fold_left fst snd]. 
  assert (Hhas : has_tuple result (integer_tuple p z) = bool_decide (z ∈ seen)).
  { unfold has_tuple. apply eq_bool_prop_intro. rewrite !Is_true_true, bool_decide_eq_true, Hs.
    rewrite existsb_exists. split.
    - intros (t & Hin & He2). apply list_elem_of_In in Hin.
      rewrite Forall_forall in Hr. destruct (Hr t Hin) as [x ->].
      rewrite integer_tuple_equal in He2 by done. apply bool_decide_eq_true in He2 as ->. done.
    - intros Hin. exists (integer_tuple p z). split; [by apply list_elem_of_In|].
      rewrite integer_tuple_equal by done. by apply bool_decide_eq_true. }
  rewrite Hhas. destruct (decide (z ∈ seen)) as [Hz|Hz].
  - rewrite bool_decide_true by done. cbn [negb andb]. by apply IH.
  - rewrite bool_decide_false by done. cbn [negb andb].
    assert (Hget : [Get p (deref h e)] = integer_tuple p z).
    { change [Get p (deref h e)] with (extractTuple [p] (deref h e)). exact Ht. }
    rewrite Hget. apply IH.
    + intros x. rewrite elem_of_union, elem_of_singleton, elem_of_app, list_elem_of_singleton, Hs.
      split; [intros [->|?]; auto|]. intros [?|E]; [auto|]. left. by injection E.
    + apply Forall_app. split; [done|]. constructor; [by eexists|constructor].
Qed.

Lemma integerOwners_correlate entities need :
  Forall (fun e => reads_integer p (deref h e)) entities ->
  (integerOwners h entities p need).2 = (correlate h entities [p] need).2 /\
  (correlate h entities [p] need).1
  = (fun k : option Z => integer_tuple p <$> k) <$> (integerOwners h entities p need).1.
Proof.
  intros He. unfold integerOwners, correlate. cbn [fst snd]. split.
  - destruct need.
    + apply integer_distinct; [done| |constructor]. intros z. split; [set_solver|by intros ?%not_elem_of_nil].
    + assert (Hno : forall st, (fold_left (integer_owner p false h) entities st) = st).
      { clear. induction entities as [|e l IH]; intros st; [done|]. cbn [fold_left].
        unfold integer_owner at 2. destruct (readIntegerKey p (deref h e)); apply IH. }
      by rewrite Hno.
  - rewrite <- list_fmap_compose. apply list_fmap_ext. intros i e Hi. unfold compose.
    rewrite Forall_forall in He. apply owner_tuple_integer, He. by eapply list_elem_of_lookup_2.
Qed.

(** A target's tuple against an owner's. *)
Lemma target_equal v k :
  reads_integer q (deref h v) ->
  KeyTuple_Equal (extractTuple [q] (deref h v)) (integer_tuple p k)
  = bool_decide (readIntegerKey q (deref h v) = Some k).
Proof.
  intros Hv. rewrite read_tuple by done. destruct (readIntegerKey q (deref h v)) as [z|].
  - rewrite integer_tuple_equal by done. apply bool_decide_ext. split; [by intros ->|by intros [= ->]].
  - by rewrite null_tuple_equal, bool_decide_false.
Qed.

Context (targets : list Ptr) (Ht : Forall (fun v => reads_integer q (deref h v)) targets).

Lemma first_by_key_spec k :
  first_by_key q h targets !! k = find_by_tuple [q] h (integer_tuple p k) targets.
Proof.
  unfold first_by_key, find_by_tuple.
  assert (H : forall m : gmap Z Ptr,
    fold_left (fun byKey v => match readIntegerKey q (deref h v) with
      | Some k => match byKey !! k with Some _ => byKey | None => <[k := v]> byKey end
      | None => byKey end) targets m !! k
    = match m !! k with
      | Some v => Some v
      | None => List.find (fun v => KeyTuple_Equal (extractTuple [q] (deref h v)) (integer_tuple p k)) targets
      end); [|by rewrite H, lookup_empty].
  induction Ht as [|v l Hv Hl IH]; intros m; cbn [fold_left List.find]; [by destruct (m !! k)|].
  rewrite IH by done. rewrite (target_equal v k Hv).
  destruct (readIntegerKey q (deref h v)) as [z|]; [|by rewrite bool_decide_false].
  destruct (decide (z = k)) as [->|Hz].
  - rewrite bool_decide_true by done. destruct (m !! k) eqn:E; [by rewrite E|by rewrite lookup_insert_eq].
  - rewrite bool_decide_false by congruence. destruct (m !! z); [done|by rewrite lookup_insert_ne].
Qed.

Lemma group_by_key_spec k :
  default [] (group_by_key q h targets !! k) = matching (keyed [q] h targets) (integer_tuple p k).
Proof.
  unfold group_by_key.
  assert (H : forall m : gmap Z (list Ptr),
    default [] (fold_left (fun groups v => match readIntegerKey q (deref h v) with
      | Some k => <[k := default [] (groups !! k) ++ [v]]> groups | None => groups end) targets m !! k)
    = default [] (m !! k) ++ matching (keyed [q] h targets) (integer_tuple p k));
    [|by rewrite H, lookup_empty].
  unfold matching, keyed.
  induction Ht as [|v l Hv Hl IH]; intros m; [by rewrite app_nil_r|].
  rewrite fmap_cons. cbn [fold_left List.filter fst]. rewrite IH by done. rewrite (target_equal v k Hv).
  destruct (readIntegerKey q (deref h v)) as [z|]; [|by rewrite bool_decide_false].
  destruct (decide (z = k)) as [->|Hz].
  - rewrite bool_decide_true, lookup_insert_eq by done. cbn [from_option id]. rewrite fmap_cons. by rewrite <- app_assoc.
  - by rewrite bool_decide_false, lookup_insert_ne by congruence.
Qed.

Lemma unique_by_key_spec target :
  match unique_by_key q h target ∅ false targets, refuseDuplicateOneToOne h targets [q] target with
  | Ok byKey, Ok _ => byKey = first_by_key q h targets
  | Fail e, Fail e' => e = e'
  | _, _ => False
  end.
Proof.
  unfold refuseDuplicateOneToOne, first_by_key.
  assert (H : forall m nullSeen seen,
    (forall k, has_tuple seen (integer_tuple q k) = bool_decide (is_Some (m !! k))) ->
    has_tuple seen [VNil] = nullSeen ->
    match unique_by_key q h target m nullSeen targets,
          refuse_duplicates target seen ((fun v => extractTuple [q] (deref h v)) <$> targets) with
    | Ok byKey, Ok _ => byKey = fold_left (fun byKey v => match readIntegerKey q (deref h v) with
        | Some k => match byKey !! k with Some _ => byKey | None => <[k := v]> byKey end
        | None => byKey end) targets m
    | Fail e, Fail e' => e = e'
    | _, _ => False
    end).
  2: { apply H; [|done]. intros k. by rewrite bool_decide_false by (rewrite lookup_empty; by intros []). }
  induction Ht as [|v l Hv Hl IH]; intros m nullSeen seen Hs Hn; [done|].
  rewrite fmap_cons. cbn [unique_by_key refuse_duplicates fold_left]. rewrite read_tuple by done.
  assert (Happ : forall t u, has_tuple (seen ++ [t]) u = has_tuple seen u || KeyTuple_Equal t u).
  { intros t u. unfold has_tuple. rewrite existsb_app. cbn [existsb]. by rewrite orb_false_r. }
  destruct (readIntegerKey q (deref h v)) as [z|].
  - rewrite Hs. destruct (m !! z) eqn:E; [by rewrite bool_decide_true by (by eexists)|].
    rewrite bool_decide_false by (by intros []). apply IH; [done| |].
    + intros k. rewrite Happ, Hs, integer_tuple_equal by done.
      destruct (decide (z = k)) as [->|Hz].
      * rewrite lookup_insert_eq, (bool_decide_true (k = k)) by done.
        by rewrite orb_true_r, bool_decide_true by (by eexists).
      * by rewrite lookup_insert_ne, (bool_decide_false (z = k)), orb_false_r.
    + by rewrite Happ, Hn, orb_false_r.
  - rewrite Hn. destruct nullSeen; [done|]. apply IH; [done| |].
    + intros k. by rewrite Happ, Hs, null_tuple_equal, orb_false_r.
    + by rewrite Happ, orb_true_r.
Qed.

End Fast.

(** Sorting by an integer key is sorting by its tuple. *)
Lemma sort_by_integer p h targets :
  integerKey [p] = true -> Forall (fun v => reads_integer p (deref h v)) targets ->
  sortByProperties [p] h targets = sort_by_tuple [p] h targets.
Proof.
  intros Hp Ht. unfold sortByProperties. rewrite Hp.
  destruct (integer_rows p h targets) as [rows|] eqn:Hrows; [|done]. unfold sort_by_tuple.
  assert (Hmap : (fun v => (extractTuple [p] (deref h v), v)) <$> targets
                 = (fun kv : Z * Ptr => (integer_tuple p kv.1, kv.2)) <$> rows).
  { revert rows Hrows. unfold integer_rows. induction Ht as [|v l Hv Hl IH]; intros rows Hrows.
    { by injection Hrows as <-. }
    cbn [mapM] in Hrows. destruct (readIntegerKey p (deref h v)) as [z|] eqn:Hz; [|done].
    cbn [fmap option_fmap option_map mbind option_bind] in Hrows.
    destruct (mapM _ l) as [rest|] eqn:Hrest; [|done]. injection Hrows as <-.
    rewrite !fmap_cons, (IH rest) by done. cbn [fst snd]. by rewrite read_tuple, Hz. }
  rewrite Hmap, (sortR_fmap compare_integer).
  - destruct (sortR compare_integer rows) as [r|e]; [|done]. cbn [mbind result_bind].
    f_equal. rewrite <- list_fmap_compose. by apply list_fmap_ext.
  - intros [x v] [y w]. unfold compare_tuple, compare_integer, integer_tuple. cbn [fst snd].
    cbn [KeyTuple_Compare CompareValues mbind result_bind]. rewrite decide_True by done.
    cbn [mbind result_bind]. unfold compare_Z.
    destruct (Z.compare_spec x y) as [->|H|H]; cbn [Zsign_of Z.eqb].
    + by rewrite Z.ltb_irrefl.
    + by rewrite (proj2 (Z.ltb_lt x y)).
    + rewrite (proj2 (Z.ltb_ge x y)) by lia. by rewrite (proj2 (Z.ltb_lt y x)).
Qed.

(** C6. The integer fast path of every loader is the tuple path.  Where the
    owners and targets carry the key as a builtin integer of one type, nulls
    allowed, the two paths send the same distinct keys; find for every owner the
    same target of a many-to-one or a one-to-one and the same targets, in the
    same sequence, of a one-to-many; refuse the same duplicates of a one-to-one
    with the same error; and sort rows the same. *)
Theorem integer_path_is_tuple_path (h : heap) (owners targets : list Ptr) (l r : PropertyMap)
    (need : bool) (navigation : string) :
  integer_pair [l] [r] = Some (l, r) ->
  Forall (fun e => reads_integer l (deref h e)) owners ->
  Forall (fun v => reads_integer r (deref h v)) targets ->
  (integerOwners h owners l need).2 = (correlate h owners [l] need).2 /\
  Forall2 (fun k o =>
      (k ≫= fun k => first_by_key r h targets !! k) = (o ≫= fun t => find_by_tuple [r] h t targets) /\
      default [] (k ≫= fun k => group_by_key r h targets !! k)
      = match o with Some t => matching (keyed [r] h targets) t | None => [] end)
    (integerOwners h owners l need).1 (correlate h owners [l] need).1 /\
  match unique_by_key r h navigation ∅ false targets, refuseDuplicateOneToOne h targets [r] navigation with
  | Ok byKey, Ok _ => byKey = first_by_key r h targets
  | Fail e, Fail e' => e = e'
  | _, _ => False
  end /\
  sortByProperties [r] h targets = sort_by_tuple [r] h targets.
Proof.
  intros Hpair Ho Ht. unfold integer_pair in Hpair.
  destruct (sameIntegerKey [l] [r]) eqn:Hs; [|done].
  apply andb_true_iff in Hs as [[Hl Hr]%andb_true_iff E%bool_decide_eq_true].
  assert (Hlr : ValueType l = ValueType r) by (by injection E).
  assert (H := integerOwners_correlate l). edestruct H as [Hd Hc]; [done..|exact Ho|].
  split_and!; [done| |by apply unique_by_key_spec|by apply sort_by_integer].
  rewrite Hc, Forall2_fmap_r. apply Forall_Forall2_diag, Forall_forall. intros [k|] _; [|done]. cbn [fmap option_fmap option_map mbind option_bind].
  split; [by apply first_by_key_spec|by apply group_by_key_spec].
Qed.

(** Two owners and three targets, one with a null key. *)
Definition key_of_owner : PropertyMap :=
  mkProperty None "ID" "id" (mkField false (TyInt KInt64)) TypeInt64 false true false false AuditNone false None 0 0 0 None None.
Definition key_of_target : PropertyMap :=
  mkProperty None "OwnerID" "owner_id" (mkField true (TyInt KInt64)) TypeInt64 true false false false AuditNone false None 0 0 0 None None.
Definition fast_heap : heap :=
  {[0 := mkInstance (mkGoType "" "O") {["ID" := VInt KInt64 1]} ∅ ∅;
    1 := mkInstance (mkGoType "" "O") {["ID" := VInt KInt64 2]} ∅ ∅;
    2 := mkInstance (mkGoType "" "T") {["OwnerID" := VInt KInt64 2]} ∅ ∅;
    3 := mkInstance (mkGoType "" "T") {["OwnerID" := VNil]} ∅ ∅;
    4 := mkInstance (mkGoType "" "T") {["OwnerID" := VInt KInt64 2]} ∅ ∅]}.

Lemma integer_path_is_tuple_path_witness :
  (integerOwners fast_heap [0; 1; 1] key_of_owner true).2 = (correlate fast_heap [0; 1; 1] [key_of_owner] true).2 /\
  sortByProperties [key_of_target] fast_heap [4; 2] = sort_by_tuple [key_of_target] fast_heap [4; 2].
Proof.
  split.
  - apply (integer_path_is_tuple_path fast_heap [0; 1; 1] [2; 3; 4] key_of_owner key_of_target true "O.Ts").
    + reflexivity.
    + repeat (apply Forall_cons; split; [by right; exists KInt64; eexists|]). constructor.
    + repeat (apply Forall_cons; split; [first [by left|by right; exists KInt64; eexists]|]). constructor.
  - apply (integer_path_is_tuple_path fast_heap [0; 1; 1] [4; 2] key_of_owner key_of_target true "O.Ts").
    + reflexivity.
    + repeat (apply Forall_cons; split; [by right; exists KInt64; eexists|]). constructor.
    + repeat (apply Forall_cons; split; [by right; exists KInt64; eexists|]). constructor.
Defined.

(** * A mapping that does not hold together *)

(** What a load resolves and counts before it reads: the map, the properties
    named on it, and the key they stand for. *)
Definition shape (ownerMap targetMap linkMap : EntityMap) (rel : RelationshipMap)
    : list (EntityMap * list string * nat) :=
  match rel_Kind rel with
  | RelationshipManyToOne => [(ownerMap, rel_ForeignKeyProperties rel, length (KeyProperties targetMap))]
  | RelationshipOneToOne | RelationshipOneToMany =>
      [(targetMap, rel_ForeignKeyProperties rel, length (KeyProperties ownerMap))]
  | RelationshipManyToMany =>
      [(linkMap, rel_LinkForeignKeysToOwner rel, length (KeyProperties ownerMap));
       (linkMap, rel_LinkForeignKeysToTarget rel, length (KeyProperties targetMap))]
  end.

Definition broken (s : EntityMap * list string * nat) : Prop :=
  let '(m, names, want) := s in Exists (fun name => Property m name = None) names \/ length names <> want.

Lemma resolveProperties_total m names target :
  match resolveProperties m names target with
  | Ok ps => Forall (fun name => Property m name <> None) names /\ length ps = length names
  | Fail e => e = NewError "REL-003" target /\ Exists (fun name => Property m name = None) names
  end.
Proof.
  unfold resolveProperties. induction names as [|name names IH]; [done|]. cbn [mapR].
  assert (Hp : resolve_property m target name = match Property m name with Some p => Ok p | None => Fail (NewError "REL-003" target) end) by done.
  rewrite Hp. destruct (Property m name) as [p|] eqn:E; cbn [mbind result_bind]; [|split; [done|by apply Exists_cons; left]].
  destruct (mapR _ names) as [ps|e]; cbn [mbind result_bind].
  - destruct IH as [IH1 IH2]. split; [constructor; [by rewrite E|done]|]. simpl. by rewrite IH2.
  - destruct IH as [-> IH]. split; [done|by apply Exists_cons; right].
Qed.

(** What a broken side of a relationship stops with. *)
Lemma broken_resolution m names want target :
  broken (m, names, want) ->
  resolveProperties m names target = Fail (NewError "REL-003" target) \/
  exists ps, resolveProperties m names target = Ok ps /\ checkArity target (length ps) want = Fail (NewError "REL-003" target).
Proof.
  intros Hb. pose proof (resolveProperties_total m names target) as H.
  destruct (resolveProperties m names target) as [ps|e]; [right|destruct H as [-> _]; by left].
  destruct H as [H1 H2]. exists ps. split; [done|]. unfold checkArity. rewrite decide_False; [done|]. intros E.
  destruct Hb as [Hb|Hb]; [|by rewrite H2 in E].
  apply Exists_exists in Hb as (name & Hin & Hn). rewrite Forall_forall in H1. by apply (H1 name).
Qed.

(** A load of a navigation the mapping does not describe touches nothing.
    An unknown navigation is REL-001; a foreign key or a link key that names a
    property its map does not have, or has not as many parts as the key it
    stands for, is REL-003: no statement is sent, no object changes, and the
    error is that of the relationship whatever its kind. *)
Theorem broken_relationship_is_refused {D : Type} load dialect ToDatabase read_rows pointer_elem ownerType
    owners navigation ownerMap (e : @load_env D) :
  load ownerType = Ok ownerMap ->
  match relationshipNamed ownerMap navigation with
  | None =>
      LoadEach load dialect ToDatabase read_rows pointer_elem ownerType owners navigation e
      = (e, Fail (NewError "REL-001" (EntityName ownerMap +:+ "." +:+ navigation)))
  | Some rel =>
      forall targetMap linkMap,
        load (rel_TargetType rel) = Ok targetMap ->
        (rel_Kind rel = RelationshipManyToMany -> load (default (mkGoType "" "") (rel_LinkType rel)) = Ok linkMap) ->
        Exists broken (shape ownerMap targetMap linkMap rel) ->
        LoadEach load dialect ToDatabase read_rows pointer_elem ownerType owners navigation e
        = (e, Fail (NewError "REL-003" (navigation_target ownerMap rel)))
  end.
Proof.
  intros Hload. unfold LoadEach, loadEachOf. rewrite Hload, (sbind_step (slift (Ok ownerMap)) _ _ _ _ eq_refl).
  destruct (relationshipNamed ownerMap navigation) as [rel|]; [|done].
  intros targetMap linkMap Ht Hl Hb. rewrite Ht, (sbind_step (slift (Ok targetMap)) _ _ _ _ eq_refl).
  set (target := navigation_target ownerMap rel). unfold shape in Hb.
  destruct (rel_Kind rel).
  all: try (apply Exists_cons in Hb as [Hb|Hb]; [|by apply Exists_nil in Hb];
    destruct (broken_resolution _ _ _ target Hb) as [Hr|(ps & Hr & Hc)];
    unfold loadManyToOne, loadOneToMany, loadOneToOne; fold target; rewrite Hr; unfold sbind; cbn [slift];
    [done|by rewrite Hc]).
  rewrite Hl, (sbind_step (slift (Ok linkMap)) _ _ _ _ eq_refl) by done.
  unfold loadManyToMany. fold target. unfold sbind. cbn [slift].
  pose proof (resolveProperties_total linkMap (rel_LinkForeignKeysToOwner rel) target) as H1.
  pose proof (resolveProperties_total linkMap (rel_LinkForeignKeysToTarget rel) target) as H2.
  apply Exists_cons in Hb as [Hb|Hb]; [|apply Exists_cons in Hb as [Hb|Hb]; [|by apply Exists_nil in Hb]];
    destruct (broken_resolution _ _ _ target Hb) as [Hr|(ps & Hr & Hc)]; rewrite Hr in *; try done.
  - destruct (resolveProperties linkMap (rel_LinkForeignKeysToTarget rel) target) as [qs|err];
      [by rewrite Hc|destruct H2 as [-> _]; done].
  - destruct (resolveProperties linkMap (rel_LinkForeignKeysToOwner rel) target) as [qs|err]; [done|by destruct H1 as [-> _]].
  - destruct (resolveProperties linkMap (rel_LinkForeignKeysToOwner rel) target) as [qs|err]; [|by destruct H1 as [-> _]].
    unfold checkArity at 1. destruct (decide _); [by rewrite Hc|done].
Qed.

(** A foreign key that names no property. *)
Definition stray_map : EntityMap :=
  NewEntityMap (mkGoType "" "T") RelationTable "ts" "" "" [key_of_target] KeyNatural []
    [mkRelationship "Owner" RelationshipManyToOne (mkGoType "" "T") ["Owner"] None [] [] 0%Z].

Lemma broken_relationship_is_refused_witness :
  let session := mkLoadEnv (mkSession fast_heap None) ∅ tt in
  let run := LoadEach (fun _ => Ok stray_map) Sqlite.dialect (fun v _ _ => Ok v)
    (fun _ _ _ _ db => (db, Ok ([], None))) (fun _ _ => true) (mkGoType "" "T") [2] in
  run "Nobody" session = (session, Fail (NewError "REL-001" "T.Nobody")) /\
  run "Owner" session = (session, Fail (NewError "REL-003" "T.Owner")).
Proof.
  split.
  - refine (broken_relationship_is_refused (fun _ => Ok stray_map) Sqlite.dialect (fun v _ _ => Ok v)
      (fun _ _ _ _ db => (db, Ok ([], None))) (fun _ _ => true) (mkGoType "" "T") [2] "Nobody" stray_map _ eq_refl).
  - refine (broken_relationship_is_refused (fun _ => Ok stray_map) Sqlite.dialect (fun v _ _ => Ok v)
      (fun _ _ _ _ db => (db, Ok ([], None))) (fun _ _ => true) (mkGoType "" "T") [2] "Owner" stray_map _ eq_refl
      stray_map stray_map eq_refl _ _); [done|].
    apply Exists_cons. left. left. apply Exists_cons. left. reflexivity.
Defined.
