(* ===== verification/Membership.v ===== *)
(** The membership query of a relationship load ([Loading]): how key tuples
    match, the distinct tuples and their chunks, the predicate a chunk renders,
    what it means in a row ([CriteriaMeaning]), that it renders, and the rows it
    keeps.  [Loaded] builds the loaders' theorems on it. *)
From Stdlib Require Import SpecFloat.
From S2P Require Import Prelude GoStrings Values Core Params Dialect Tracker Instances Session.
From S2P Require Import Query Render RenderLaws Reading CriteriaMeaning Loading LoadingLaws.

(** * Key tuples that match

    [KeyTuple_Equal] is symmetric and transitive; a NaN equals nothing. *)

Lemma SFeqb_spec x y :
  SFeqb x y = true <-> (x = y /\ x <> S754_nan) \/ (exists a b, x = S754_zero a /\ y = S754_zero b).
Proof.
  assert (Hfin : forall a m e b n f, SFeqb (S754_finite a m e) (S754_finite b n f) = true <->
            S754_finite a m e = S754_finite b n f).
  { intros a m e b n f. unfold SFeqb. cbn [SFcompare]. split.
    - destruct a, b; try discriminate; destruct (Z.compare_spec e f) as [->|?|?]; try discriminate;
        change (Pos.compare_cont Datatypes.Eq m n) with (m ?= n)%positive;
        destruct (Pos.compare_spec m n) as [->|?|?]; try discriminate; done.
    - intros [= -> -> ->]. rewrite Z.compare_refl.
      change (Pos.compare_cont Datatypes.Eq n n) with (n ?= n)%positive. rewrite Pos.compare_refl. by destruct b. }
  destruct x as [a|a| |a m e], y as [b|b| |b n f].
  16: { rewrite Hfin. split; [by left|]. by intros [[H _]|(? & ? & [=] & [=])]. }
  all: split; intros H; first
    [ done | by destruct H as [[[=] ?]|(? & ? & [=] & [=])] | by destruct H as [[? []]|(? & ? & [=] & [=])]
    | by right; eexists _, _ | by destruct a | by destruct b
    | by destruct a, b; left | done | idtac ].
  all: destruct H as [[[= ->] _]|(? & ? & [=] & [=])]; by destruct b.
Qed.

Lemma SFeqb_sym x y : SFeqb x y = true -> SFeqb y x = true.
Proof. rewrite !SFeqb_spec. intros [[-> H]|(a & b & -> & ->)]; [by left|right; by eexists _, _]. Qed.

Lemma SFeqb_trans x y z : SFeqb x y = true -> SFeqb y z = true -> SFeqb x z = true.
Proof.
  rewrite !SFeqb_spec. intros [[-> H]|(a & b & -> & ->)] Hyz; [done|].
  destruct Hyz as [[<- _]|(c & e & _ & ->)]; right; by eexists _, _.
Qed.

(** Floats compare by [==], every other value by equality. *)
Lemma DeepEqual_spec a b :
  DeepEqual a b = true <->
  match a with VFloat s x => exists y, b = VFloat s y /\ SFeqb x y = true | _ => a = b end.
Proof.
  destruct a as [| |s x| | | | | | |]; try apply bool_decide_eq_true.
  destruct b as [| |s' y| | | | | | |]; cbn [DeepEqual]; try by (split; [intros ?%bool_decide_eq_true|intros (? & ? & ?)]).
  rewrite andb_true_iff, eqb_true_iff. split; [intros [-> H]; by exists y|by intros (? & [= -> ->] & H)].
Qed.

Lemma DeepEqual_sym a b : DeepEqual a b = true -> DeepEqual b a = true.
Proof.
  intros H%DeepEqual_spec. apply DeepEqual_spec. destruct a; try by subst.
  destruct H as (y & -> & H). exists f. by split; [|apply SFeqb_sym].
Qed.

Lemma DeepEqual_trans a b c : DeepEqual a b = true -> DeepEqual b c = true -> DeepEqual a c = true.
Proof.
  intros H%DeepEqual_spec H'%DeepEqual_spec. apply DeepEqual_spec. destruct a; try by subst.
  destruct H as (y & -> & H). destruct H' as (z & -> & H'). exists z. by split; [|eapply SFeqb_trans].
Qed.

Lemma KeyTuple_Equal_spec t u : KeyTuple_Equal t u = true <-> Forall2 (fun a b => DeepEqual a b = true) t u.
Proof.
  revert u. induction t as [|a t IH]; intros [|b u]; cbn [KeyTuple_Equal]; try by (split; [|inversion 1]).
  rewrite andb_true_iff, IH. split; [by intros [? ?]; constructor|by inversion 1].
Qed.

Lemma KeyTuple_Equal_sym t u : KeyTuple_Equal t u = true -> KeyTuple_Equal u t = true.
Proof. rewrite !KeyTuple_Equal_spec. intros H. apply Forall2_flip. eapply Forall2_impl; [exact H|]. intros ??. apply DeepEqual_sym. Qed.

Lemma KeyTuple_Equal_trans t u v :
  KeyTuple_Equal t u = true -> KeyTuple_Equal u v = true -> KeyTuple_Equal t v = true.
Proof.
  rewrite !KeyTuple_Equal_spec. intros H1 H2. revert v H2. induction H1 as [|a b t u Hab H1 IH]; intros v H2; inversion H2; subst; constructor;
    [by eapply DeepEqual_trans|by apply IH].
Qed.

(** ** The distinct tuples of a load *)

Definition differ (t u : KeyTuple) : Prop := KeyTuple_Equal t u = false.

Lemma has_tuple_spec ts t : has_tuple ts t = true <-> exists u, u ∈ ts /\ KeyTuple_Equal u t = true.
Proof.
  unfold has_tuple. rewrite existsb_exists. by setoid_rewrite list_elem_of_In.
Qed.

Lemma distinctTuples_step seen ts :
  StronglySorted differ seen ->
  let all := fold_left (fun result t => if has_tuple result t then result else result ++ [t]) ts seen in
  StronglySorted differ all /\ (forall t, t ∈ all -> t ∈ seen \/ t ∈ ts) /\
  (forall t, t ∈ seen -> t ∈ all) /\
  (forall x t, t ∈ ts -> KeyTuple_Equal x t = true -> exists u, u ∈ all /\ KeyTuple_Equal x u = true).
Proof.
  revert seen. induction ts as [|t ts IH]; intros seen Hs; cbn zeta; cbn [fold_left].
  { split_and!; [done|by left|done|]. by intros x t []%not_elem_of_nil. }
  set (next := if has_tuple seen t then seen else seen ++ [t]).
  assert (Hnext : StronglySorted differ next /\ (forall u, u ∈ seen -> u ∈ next) /\
            (forall u, u ∈ next -> u ∈ seen \/ u = t) /\
            (forall x, KeyTuple_Equal x t = true -> exists u, u ∈ next /\ KeyTuple_Equal x u = true)).
  { unfold next. destruct (has_tuple seen t) eqn:E.
    - split_and!; [done|done|by left|]. intros x Hx. apply has_tuple_spec in E as (u & Hu & E).
      exists u. split; [done|]. eapply KeyTuple_Equal_trans; [exact Hx|]. by apply KeyTuple_Equal_sym.
    - split_and!.
      + assert (Hd : forall u, u ∈ seen -> differ u t).
        { intros u Hu. destruct (KeyTuple_Equal u t) eqn:Eu; [|done].
          assert (has_tuple seen t = true) by (apply has_tuple_spec; eauto). congruence. }
        clear -Hs Hd. induction Hs as [|y l Hl IH Hy]; [repeat constructor|].
        cbn [app]. constructor; [apply IH; intros u Hu; apply Hd; by right|].
        apply Forall_app. split; [done|]. constructor; [apply Hd; by left|constructor].
      + intros u Hu. apply elem_of_app. by left.
      + intros u [?| ->%list_elem_of_singleton]%elem_of_app; auto.
      + intros x Hx. exists t. split; [apply elem_of_app; right; by apply list_elem_of_singleton|done]. }
  destruct Hnext as (H1 & H2 & H3 & H4). destruct (IH next H1) as (J1 & J2 & J3 & J4).
  split_and!; [done| | |].
  - intros u [Hu|Hu]%J2; [|right; by right]. destruct (H3 u Hu) as [?| ->]; [by left|right; by left].
  - auto.
  - intros x u [->|Hu]%elem_of_cons Hx; [|by eapply J4].
    destruct (H4 x Hx) as (w & Hw & E). exists w. auto.
Qed.

Lemma distinctTuples_spec ts :
  StronglySorted differ (distinctTuples ts) /\ (forall t, t ∈ distinctTuples ts -> t ∈ ts) /\
  (forall x t, t ∈ ts -> KeyTuple_Equal x t = true ->
     exists u, u ∈ distinctTuples ts /\ KeyTuple_Equal x u = true).
Proof.
  destruct (distinctTuples_step [] ts) as (H1 & H2 & _ & H4); [constructor|].
  split_and!; [done| |done]. intros t [[]%not_elem_of_nil|?]%H2; done.
Qed.

(** ** The chunks of a load *)

Lemma chunks_from_spec fuel size ts :
  0 < size -> length ts <= fuel ->
  concat (chunks_from fuel size ts) = ts /\
  Forall (fun c => c <> [] /\ length c <= size) (chunks_from fuel size ts).
Proof.
  intros Hs. revert ts. induction fuel as [|fuel IH]; intros [|t ts] Hl; simpl in Hl; try lia.
  1-2: split; [done|constructor].
  cbn [chunks_from concat]. destruct size as [|size]; [lia|].
  destruct (IH (drop (S size) (t :: ts))) as [Hc Hf]; [rewrite length_drop; simpl; lia|].
  split; [by rewrite Hc, take_drop|]. constructor; [|done].
  split; [done|]. rewrite length_take. lia.
Qed.

Lemma chunkTuples_spec ts :
  concat (chunkTuples ts LoadChunkSize) = ts /\
  Forall (fun c => c <> [] /\ length c <= LoadChunkSize) (chunkTuples ts LoadChunkSize).
Proof. apply chunks_from_spec; [unfold LoadChunkSize; lia|done]. Qed.

(** * The membership predicate *)

Definition equality (p : PropertyMap) (v : Value) : Criteria := Eq (PropertyName p) (Some v).

Lemma single_or {A} (l : list A) : (exists x, l = [x]) \/ (forall x, l <> [x]).
Proof. destruct l as [|x [|]]; [by right|left; exists x; reflexivity|by right]. Qed.

(** The predicate a chunk of tuples of the key's width renders. *)
Definition membership (ps : list PropertyMap) (tuples : list KeyTuple) : Criteria :=
  match ps with
  | [p] => InList (PropertyName p) (Some <$> omap head tuples)
  | _ => Or ((fun t => And (zip_with equality ps t)) <$> tuples)
  end.

(** A tuple of a key of [n] parts, none of them null. *)
Record full (n : nat) (t : KeyTuple) : Prop := {
  fu_length : length t = n;
  fu_null : Forall (fun v => is_nil v = false) t }.

Lemma HasNull_spec t : HasNull t = false <-> Forall (fun v => is_nil v = false) t.
Proof.
  unfold HasNull. induction t as [|v t IH]; [done|]. cbn [existsb]. by rewrite Forall_cons, orb_false_iff, IH.
Qed.

Lemma tuple_equalities_ok ps j t :
  full (j + length ps) t ->
  tuple_equalities j (propertyNames ps) t = Ok (zip_with equality ps (drop j t)).
Proof.
  intros [Hl Hn]. revert j Hl. induction ps as [|p ps IH]; intros j Hl; [done|].
  cbn [propertyNames fmap list_fmap tuple_equalities]. simpl in Hl.
  unfold part.
  destruct (t !! j) as [v|] eqn:Hv; [|apply lookup_ge_None in Hv; unfold KeyTuple in *; lia]. cbn [mbind result_bind].
  change (PropertyName <$> ps) with (propertyNames ps). rewrite (IH (S j)) by lia. cbn [mbind result_bind].
  rewrite (drop_S t v j Hv). cbn [zip_with]. unfold criteria_value.
  rewrite Forall_forall in Hn. by rewrite (Hn v) by (by eapply list_elem_of_lookup_2).
Qed.

Lemma membership_ok ps tuples :
  Forall (full (length ps)) tuples ->
  membershipCriteria (propertyNames ps) tuples = Ok (membership ps tuples).
Proof.
  intros H. rewrite Forall_forall in H.
  destruct (single_or ps) as [[p ->]|Hps].
  - cbn [propertyNames fmap list_fmap membershipCriteria membership].
    assert (Hparts : mapR (fun t => part t 0) tuples = Ok (Some <$> omap head tuples)).
    { induction tuples as [|t ts IH]; [done|]. cbn [mapR omap list_omap].
      destruct (H t) as [Hl Hn]; [by left|]. destruct t as [|v [|]]; try done.
      apply Forall_cons in Hn as [Hv _].
      assert (Hpart : part [v] 0 = Ok (Some v)) by (unfold part, criteria_value; simpl; by rewrite Hv).
      rewrite Hpart, IH by (intros u Hu; apply H; by right). done. }
    by rewrite Hparts.
  - assert (Hm : mapR (fun t => let* parts := tuple_equalities 0 (propertyNames ps) t in Ok (And parts)) tuples
                 = Ok ((fun t => And (zip_with equality ps t)) <$> tuples)).
    { apply mapR_pure. intros t Ht. by rewrite tuple_equalities_ok by auto. }
    assert (Hmany : membershipCriteria (propertyNames ps) tuples
        = let* children := mapR (fun t => let* parts := tuple_equalities 0 (propertyNames ps) t in Ok (And parts)) tuples in
          Ok (Or children)) by by destruct ps as [|p [|]]; [|destruct (Hps p)|].
    rewrite Hmany, Hm. by destruct ps as [|p [|]]; [|destruct (Hps p)|].
Qed.

Lemma equalities_plain ps t : Forall (fun v => is_nil v = false) t -> Forall plain (zip_with equality ps t).
Proof.
  intros H. revert ps. induction H as [|v t Hv H IH]; intros [|p ps]; constructor; [|apply IH].
  constructor; [set_solver|]. by intros [= ->].
Qed.

Lemma membership_plain ps tuples n : Forall (full n) tuples -> plain (membership ps tuples).
Proof.
  intros Hf. rewrite Forall_forall in Hf.
  assert (H : plain (Or ((fun t => And (zip_with equality ps t)) <$> tuples))).
  { constructor; [by right|]. apply Forall_fmap, Forall_forall. intros t Ht. constructor; [by left|].
    by apply equalities_plain, (fu_null n), Hf. }
  destruct ps as [|p [|]]; [exact H| |exact H]. constructor.
  intros (v & [= <-] & (t & Ht & Hh)%list_elem_of_omap)%list_elem_of_fmap.
  pose proof (fu_null n t (Hf t Ht)) as Hn. destruct t as [|w t]; [done|]. injection Hh as ->.
  by apply Forall_cons in Hn as [? _].
Qed.

(** ** What it means in a row *)

Lemma fold_or3_true l : fold_right or3 (Some false) l = Some true <-> Some true ∈ l.
Proof.
  induction l as [|x l IH]; [by split; [|intros ?%not_elem_of_nil]|]. cbn [fold_right].
  rewrite elem_of_cons, <- IH. destruct x as [[]|], (fold_right or3 (Some false) l) as [[]|]; simpl; naive_solver.
Qed.

Lemma fold_and3_true l : fold_right and3 (Some true) l = Some true <-> Forall (eq (Some true)) l.
Proof.
  induction l as [|x l IH]; [done|]. cbn [fold_right].
  rewrite Forall_cons, <- IH. destruct x as [[]|], (fold_right and3 (Some true) l) as [[]|]; simpl; naive_solver.
Qed.

Lemma fold_right_fmap {A B C} (f : A -> B) (g : B -> C -> C) z l :
  fold_right (fun x => g (f x)) z l = fold_right g z (f <$> l).
Proof. induction l as [|x l IH]; [done|]. rewrite fmap_cons. cbn [fold_right]. by rewrite IH. Qed.

Section Membership.
Context {V : Type} (compare : string -> V -> V -> option bool) (read : Bound -> option V).
Context (stored : Value -> option ColumnType -> Bound).
Context (m : EntityMap) (Hnd : NoDup (PropertyName <$> Properties m)).
Context (ps : list PropertyMap) (Hps : forall p, p ∈ ps -> p ∈ Properties m) (Hne : ps <> []).

Lemma Resolve_own p qn : p ∈ Properties m -> Resolve m (PropertyName p) qn = Ok p.
Proof.
  intros Hp. unfold Resolve.
  assert (H : List.find (fun p' => bool_decide (PropertyName p' = PropertyName p)) (Properties m) = Some p);
    [|by rewrite H].
  revert Hnd Hp. generalize (Properties m). induction l as [|x l IH]; [by intros _ ?%not_elem_of_nil|].
  rewrite fmap_cons. intros [Hx Hl]%NoDup_cons Hp. cbn [List.find].
  apply elem_of_cons in Hp as [->|Hp]; [by rewrite bool_decide_true|].
  rewrite bool_decide_false; [by apply IH|]. intros E. apply Hx. rewrite E. by apply list_elem_of_fmap_2.
Qed.

Context (cell : PropertyMap -> option V) (i : Instance).

(** The database's equality on a key column is the value's. *)
Definition column_agrees (p : PropertyMap) (v : Value) : Prop :=
  compare3 compare "=" (cell p) (read (stored v (Some (ColumnType_ p)))) = Some true
  <-> DeepEqual (Get p i) v = true.

Definition agrees (t : KeyTuple) : Prop := Forall2 column_agrees ps t.

Abbreviation mean := (meaning compare read stored m cell).

Lemma equality_means p v :
  p ∈ Properties m -> is_nil v = false -> column_agrees p v ->
  mean (equality p v) = Some true <-> DeepEqual (Get p i) v = true.
Proof.
  intros Hp Hv Hc. unfold equality, Eq. cbn [meaning null_value mbind option_bind]. rewrite Hv. unfold value_of, param_of. rewrite !Resolve_own by done. exact Hc.
Qed.

Lemma equalities_mean qs t :
  (forall p, p ∈ qs -> p ∈ Properties m) -> Forall (fun v => is_nil v = false) t -> Forall2 column_agrees qs t ->
  Forall (eq (Some true)) (map mean (zip_with equality qs t)) <-> KeyTuple_Equal (extractTuple qs i) t = true.
Proof.
  intros Hqs Hn H. induction H as [|p v qs t Hp H IH]; [done|]. apply Forall_cons in Hn as [Hv Hn].
  cbn [zip_with map extractTuple fmap list_fmap KeyTuple_Equal]. rewrite Forall_cons, andb_true_iff.
  rewrite <- (equality_means p v) by (done || apply Hqs; by left).
  fold (extractTuple qs i). rewrite IH by (done || (intros ??; apply Hqs; by right)). naive_solver.
Qed.

Lemma membership_means tuples :
  Forall (full (length ps)) tuples -> Forall agrees tuples ->
  mean (membership ps tuples) = Some true <->
  exists t, t ∈ tuples /\ KeyTuple_Equal (extractTuple ps i) t = true.
Proof.
  intros Hf H. rewrite Forall_forall in Hf, H.
  destruct (single_or ps) as [[p E]|Hmany].
  - unfold membership. rewrite E. cbn [meaning]. rewrite fold_right_fmap, fold_or3_true, list_elem_of_fmap.
    assert (Hid : omap id (Some <$> omap head tuples) = omap head tuples).
    { generalize (omap head tuples). induction l as [|x l IH]; [done|]. cbn. by f_equal. }
    rewrite Hid. unfold agrees in H. rewrite E in H.
    assert (Hp : p ∈ Properties m) by (apply Hps; rewrite E; by left).
    unfold value_of, param_of. rewrite Resolve_own by done. split.
    + intros (v & Hv & Hin). apply list_elem_of_omap in Hin as (t & Ht & Hh). exists t. split; [done|].
      specialize (H t Ht). inversion H as [|? v' ? t' Hc Hnil]; subst. inversion Hnil; subst.
      injection Hh as ->. cbn. rewrite andb_true_r. by apply Hc.
    + intros (t & Ht & Heq). specialize (H t Ht). inversion H as [|? v' ? t' Hc Hnil]; subst. inversion Hnil; subst.
      exists v'. cbn in Heq. rewrite andb_true_r in Heq. split; [symmetry; by apply Hc|].
      apply list_elem_of_omap. by exists [v'].
  - assert (Hor : mean (Or ((fun t => And (zip_with equality ps t)) <$> tuples)) = Some true <->
              exists t, t ∈ tuples /\ KeyTuple_Equal (extractTuple ps i) t = true).
    { cbn [Or meaning]. rewrite decide_False by done. rewrite fold_or3_true.
      change (map ?f ?l) with (f <$> l). rewrite <- list_fmap_compose, list_elem_of_fmap. unfold compose.
      split.
      - intros (t & Hv & Ht). exists t. split; [done|]. cbn [And meaning] in Hv. rewrite decide_True in Hv by done.
        symmetry in Hv. apply fold_and3_true in Hv. apply equalities_mean in Hv; [done|done|by eapply fu_null, Hf|by apply H].
      - intros (t & Ht & Heq). exists t. split; [|done]. cbn [And meaning]. rewrite decide_True by done.
        symmetry. apply fold_and3_true. apply equalities_mean; auto; [by eapply fu_null, Hf|by apply H]. }
    unfold membership. destruct ps as [|p [|p2 qs]]; [done|by destruct (Hmany p)|exact Hor].
Qed.

End Membership.

(** * The membership query renders *)

Definition ready (b : criteria_binding) : Prop := length (cb_bound b) <= length (cb_labels b).

(** A rendering step that cannot fail. *)
Definition succeeds {A} (c : SM criteria_binding A) : Prop :=
  forall b, ready b -> exists b' a, c b = (b', Ok a) /\ ready b'.

Lemma succeeds_ret {A} (a : A) : succeeds (sret a).
Proof. intros b Hb. by exists b, a. Qed.

Lemma succeeds_bind {A B} (c : SM criteria_binding A) (k : A -> SM criteria_binding B) :
  succeeds c -> (forall a, succeeds (k a)) -> succeeds (sbind c k).
Proof.
  intros Hc Hk b Hb. destruct (Hc b Hb) as (b1 & a & E & H1). destruct (Hk a b1 H1) as (b2 & x & E2 & H2).
  exists b2, x. unfold sbind. by rewrite E.
Qed.

Lemma succeeds_lift_bind {A B} (r : result A) a (k : A -> SM criteria_binding B) :
  r = Ok a -> succeeds (k a) -> succeeds (do! x <- slift r in k x).
Proof. intros -> H. exact H. Qed.

Lemma succeeds_mapS {A B} (f : A -> SM criteria_binding B) l :
  Forall (fun x => succeeds (f x)) l -> succeeds (mapS f l).
Proof.
  induction 1 as [|x l Hx H IH]; [apply succeeds_ret|].
  apply succeeds_bind; [done|]. intros y. apply succeeds_bind; [done|]. intros ys. apply succeeds_ret.
Qed.

#[export] Hint Resolve succeeds_ret succeeds_bind : go.

Section Renders.
Context (d : Dialect) (TD : Value -> option ColumnType -> string -> result Value) (q qn : string).
Context (m : EntityMap) (Hnd : NoDup (PropertyName <$> Properties m)).

(** The session's converter takes the value. *)
Definition converts (v : Value) : Prop := forall ct label, exists x, TD v ct label = Ok x.

Lemma succeeds_bind_criteria v p : converts v -> succeeds (bind_criteria TD q v p).
Proof.
  intros Hv b Hb. unfold bind_criteria. cbv zeta.
  set (labels := label_at q (cb_labels b) (length (cb_bound b))). cbn [cb_labels].
  assert (Hl : length (cb_bound b) < length labels).
  { unfold labels, label_at, ready in *. destruct (decide _) as [E|E]; [rewrite length_app; simpl; lia|lia]. }
  destruct (lookup_lt_is_Some_2 labels _ Hl) as [label ->].
  unfold ToParameter. destruct (Hv (ColumnType_ <$> p) label) as [x ->]. cbn [mbind result_bind].
  eexists _, _. split; [done|]. unfold ready. cbn [cb_bound cb_labels]. rewrite length_app. simpl. lia.
Qed.

Lemma column_ok p alias : p ∈ Properties m -> column d m (PropertyName p) qn alias = Ok (aliasQualifiedColumn d alias (ColumnName p)).
Proof. intros Hp. unfold column. by rewrite (Resolve_own m Hnd) by done. Qed.

Abbreviation render := (fun c alias => renderCriteria d (bind_criteria TD q) c m qn alias).

Lemma succeeds_equality p v alias :
  p ∈ Properties m -> converts v -> succeeds (render (equality p v) alias).
Proof.
  intros Hp Hv. cbn [equality Eq renderCriteria].
  eapply succeeds_lift_bind; [by apply Resolve_own|]. eapply succeeds_lift_bind; [by apply column_ok|].
  apply succeeds_bind; [by apply succeeds_bind_criteria|]. intros w. apply succeeds_ret.
Qed.

Lemma succeeds_composite op cs alias :
  Forall (fun c => succeeds (render c alias)) cs -> succeeds (render (Composite op cs) alias).
Proof.
  intros H. destruct cs as [|c cs]; cbn [renderCriteria]; [apply succeeds_ret|].
  apply succeeds_bind; [by apply (succeeds_mapS (fun c => render c alias))|]. intros parts. apply succeeds_ret.
Qed.

Lemma succeeds_membership ps tuples alias :
  (forall p, p ∈ ps -> p ∈ Properties m) -> Forall (Forall converts) tuples ->
  succeeds (render (membership ps tuples) alias).
Proof.
  intros Hps Ht. rewrite Forall_forall in Ht.
  assert (Hor : succeeds (render (Or ((fun t => And (zip_with equality ps t)) <$> tuples)) alias)).
  { apply succeeds_composite, Forall_fmap, Forall_forall. intros t Hin. apply succeeds_composite.
    specialize (Ht t Hin). clear Hin. revert Hps t Ht.
    induction ps as [|p ps IH]; intros Hps [|v t] Ht; constructor.
    - apply Forall_cons in Ht as [Hv _]. apply succeeds_equality; [apply Hps; by left|done].
    - apply IH; [intros ??; apply Hps; by right|]. by apply Forall_cons in Ht as [_ Ht]. }
  destruct ps as [|p [|p2 ps]]; [exact Hor| |exact Hor]. unfold membership.
  assert (Hid : omap id (Some <$> omap head tuples) = omap head tuples).
  { generalize (omap head tuples). induction l as [|x l IH]; [done|]. cbn. by f_equal. }
  assert (Hno : existsb (fun v : option Value => bool_decide (v = None)) (Some <$> omap head tuples) = false).
  { generalize (omap head tuples). induction l as [|x l IH]; [done|]. exact IH. }
  assert (Hp : p ∈ Properties m) by (apply Hps; by left).
  destruct (omap head tuples) as [|v vs] eqn:E; cbn [fmap list_fmap renderCriteria].
  { eapply succeeds_lift_bind; [by apply Resolve_own|]. apply succeeds_ret. }
  cbn [fmap list_fmap] in Hno, Hid. rewrite Hno, Hid.
  eapply succeeds_lift_bind; [by apply Resolve_own|]. eapply succeeds_lift_bind; [by apply column_ok|].
  apply succeeds_bind; [|intros ws; apply succeeds_ret]. apply succeeds_mapS, Forall_forall. intros x Hx.
  apply succeeds_bind_criteria. rewrite <- E in Hx. apply list_elem_of_omap in Hx as (t & Hin & Hh).
  specialize (Ht t Hin). destruct t as [|y t]; [done|]. injection Hh as ->. by apply Forall_cons in Ht as [? _].
Qed.

(** The whole statement, ordered by properties of the map. *)
Lemma succeeds_select predicate order :
  (forall alias, succeeds (render predicate alias)) -> qn = queryName m ->
  (forall p, p ∈ order -> p ∈ Properties m) ->
  succeeds (SelectSQL d (bind_criteria TD q) (membership_ast m predicate order)).
Proof.
  intros Hr Hq Ho. unfold SelectSQL, membership_ast. cbn [sa_Orderings render_select negative orb].
  rewrite <- Hq. eapply succeeds_lift_bind; [reflexivity|].
  apply succeeds_bind; [apply succeeds_bind; [apply Hr|intros; apply succeeds_ret]|]. intros where_text.
  set (alias := rootAlias d [predicate] []).
  assert (Horder : exists t, order_by d m qn alias ((fun p => mkOrdering (PropertyName p) Asc) <$> order) = Ok t).
  { unfold order_by. destruct order as [|o order]; [by eexists|].
    destruct (mapR_total (order_part d m qn alias) ((fun p => mkOrdering (PropertyName p) Asc) <$> o :: order)) as [ts Hts].
    { intros x (p & -> & Hp)%list_elem_of_fmap. unfold order_part. cbn [or_Property or_Order].
      rewrite (Resolve_own m Hnd) by auto. by eexists. }
    rewrite fmap_cons in *. rewrite Hts. by eexists. }
  destruct Horder as [t Ht]. eapply succeeds_lift_bind; [exact Ht|].
  apply succeeds_bind; [apply succeeds_ret|]. intros page. apply succeeds_ret.
Qed.

End Renders.

(** * What is read *)

Definition matches (ps : list PropertyMap) (tuples : list KeyTuple) (i : Instance) : bool :=
  existsb (fun t => KeyTuple_Equal (extractTuple ps i) t) tuples.

Definition key_le (ps : list PropertyMap) (a b : Instance) : Prop :=
  in_order KeyTuple_Compare (extractTuple ps a) (extractTuple ps b).

(** A field holds its property's type, or null. *)
Definition typed (p : PropertyMap) (i : Instance) : Prop :=
  field_value p i = VNil \/ has_type (field_value p i) (ValueType p) = true.

Lemma typed_integer p i : integerKey [p] = true -> typed p i -> reads_integer p i.
Proof.
  intros Hk [H|H]; [by left|right]. cbn [integerKey] in Hk. apply andb_true_iff in Hk as [_ Hk].
  destruct (ValueType p) as [k| | | | | | | |]; try done. destruct (field_value p i) as [|k' z| | | | | | | |]; try done.
  apply bool_decide_eq_true in H as ->. by exists k, z.
Qed.

Lemma filter_split {A} (f g : A -> bool) l :
  (forall x, f x && g x = false) ->
  List.filter f l ++ List.filter g l ≡ₚ List.filter (fun x => f x || g x) l.
Proof.
  intros H. induction l as [|x l IH]; [done|]. cbn [List.filter]. specialize (H x).
  destruct (f x), (g x); try done; cbn [orb app]; [by rewrite IH|].
  rewrite <- Permutation_middle. by rewrite IH.
Qed.

(** Tuples of different chunks match different rows. *)
Lemma matches_chunks ps (chunks : list (list KeyTuple)) (table : list Instance) :
  StronglySorted differ (concat chunks) ->
  concat ((fun c => List.filter (matches ps c) table) <$> chunks)
  ≡ₚ List.filter (matches ps (concat chunks)) table.
Proof.
  induction chunks as [|c cs IH]; intros Hd; [by induction table|].
  cbn [fmap list_fmap concat] in *.
  assert (Htail : StronglySorted differ (concat cs) /\ forall t u, t ∈ c -> u ∈ concat cs -> differ t u).
  { clear IH. induction c as [|t c IHc]; [split; [done|by intros ?? []%not_elem_of_nil]|].
    cbn [app] in Hd. inversion Hd as [|? ? Hs Hf]; subst. destruct (IHc Hs) as [H1 H2]. split; [done|].
    intros t' u [->|Ht]%elem_of_cons Hu; [|by apply H2]. rewrite Forall_forall in Hf. apply Hf, elem_of_app. by right. }
  destruct Htail as [Hs Hcd]. rewrite (IH Hs), filter_split.
  - erewrite List.filter_ext; [done|]. intros i. unfold matches. by rewrite existsb_app.
  - intros i. destruct (matches ps c i && matches ps (concat cs) i) eqn:E; [|done].
    apply andb_true_iff in E as [(t & Ht & Et)%existsb_exists (u & Hu & Eu)%existsb_exists].
    apply list_elem_of_In in Ht, Hu. assert (Ed := Hcd t u Ht Hu). unfold differ in Ed.
    rewrite <- Ed. symmetry. eapply KeyTuple_Equal_trans; [apply KeyTuple_Equal_sym; exact Et|exact Eu].
Qed.

Section Sorting.
Context (ps : list PropertyMap) (h : heap) (tys : list KeyType) (targets : list Ptr).
Context (Htys : Forall (fun v => tuple_of tys (extractTuple ps (deref h v))) targets).
Context (Htyped : Forall (fun v => Forall (fun p => typed p (deref h v)) ps) targets).

Lemma sort_by_tuple_sorted :
  exists sorted, sort_by_tuple ps h targets = Ok sorted /\ sorted ≡ₚ targets /\
    StronglySorted (fun a b => key_le ps (deref h a) (deref h b)) sorted.
Proof.
  unfold sort_by_tuple.
  assert (Hord : ordering_on (fun kv : KeyTuple * Ptr => tuple_of tys kv.1) compare_tuple).
  { eapply ordering_on_image; [exact (KeyTuple_order tys)|by intros x Hx; exact Hx|done]. }
  destruct (sortR_sorted compare_tuple _ Hord ((fun v => (extractTuple ps (deref h v), v)) <$> targets))
    as (l & Hl & Hp & Hs); [by apply Forall_fmap|].
  rewrite Hl. cbn [mbind result_bind]. exists (snd <$> l). split; [done|]. split.
  - rewrite Hp, <- list_fmap_compose. unfold compose. cbn [snd]. by rewrite list_fmap_id.
  - assert (Hshape : Forall (fun kv => kv.1 = extractTuple ps (deref h kv.2)) l).
    { rewrite Hp. by apply Forall_fmap, Forall_forall. }
    clear Hl Hp. induction Hs as [|x l Hs IH Hx]; [constructor|].
    apply Forall_cons in Hshape as [Ex Hshape]. rewrite fmap_cons. constructor; [by apply IH|].
    apply Forall_fmap. rewrite Forall_forall in Hx, Hshape. apply Forall_forall. intros y Hy.
    unfold key_le, compose. rewrite <- Ex, <- (Hshape y Hy). exact (Hx y Hy).
Qed.

Lemma sortByProperties_sorted :
  exists sorted, sortByProperties ps h targets = Ok sorted /\ sorted ≡ₚ targets /\
    StronglySorted (fun a b => key_le ps (deref h a) (deref h b)) sorted.
Proof.
  assert (H : sortByProperties ps h targets = sort_by_tuple ps h targets); [|rewrite H; apply sort_by_tuple_sorted].
  destruct ps as [|p [|]]; try done. destruct (integerKey [p]) eqn:Hk; [|unfold sortByProperties; by rewrite Hk].
  apply sort_by_integer; [done|]. eapply Forall_impl; [exact Htyped|].
  intros v Hv. apply typed_integer; [done|]. by apply Forall_cons in Hv as [? _].
Qed.

End Sorting.
