(* ===== verification/Loaded.v ===== *)
(** What a load leaves in memory ([Loading]), over a database that runs the
    statements it is sent as SQL reads them ([Reading]): the owners' membership
    query returns exactly the related rows of the table, and the loader gives
    every owner its own.  The subject is an untracked session, where a row read
    is an instance of its own. *)
From S2P Require Import Prelude GoStrings Values Core Params Dialect Tracker Instances Session.
From S2P Require Import Query Render RenderLaws Reading CriteriaMeaning Loading LoadingLaws Membership.
From S2P Require SqlServer.

(** * A database that runs what it is sent *)

Section Loads.
Context (d : Dialect) `{!ReadingLaws d}.
Context (TD : Value -> option ColumnType -> string -> result Value).
Context (stored : Value -> option ColumnType -> Bound).
Context {V : Type} (compare : string -> V -> V -> option bool) (read : Bound -> option V).
(** what a row's columns hold *)
Context (row : Instance -> string -> option V).
Context {D : Type} (read_rows : EntityMap -> string -> list NamedArg -> string ->
  D -> D * result (list Instance * option Error)).

(** The row satisfies the statement's WHERE clause, as SQL reads it. *)
Definition keeps (sql : string) (args : list NamedArg) (i : Instance) : bool :=
  bool_decide (eval compare read (row i) args <$> read_where sql = Some (Some true)).

Definition key_order (m : EntityMap) : list Ordering :=
  (fun p => mkOrdering (PropertyName p) Asc) <$> KeyProperties m.

(** The database answers an unpaged statement over one relation with the rows of
    the table its WHERE clause keeps; in key order when the statement orders by
    a key whose columns compare as numbers. *)
Definition runs (m : EntityMap) (table : list Instance) (db : D) : Prop :=
  forall predicate order cache cache' q sql args,
    let ast := membership_ast m predicate order in
    sql_query ast -> renderSelect d TD cache ast q = (cache', Ok (sql, args)) ->
    exists rows, read_rows m sql args q db = (db, Ok (rows, None)) /\
      rows ≡ₚ List.filter (keeps sql args) table /\
      (order = KeyProperties m -> keyOrderIsValueOrder d m (KeyProperties m) = true ->
       StronglySorted (key_le (KeyProperties m)) rows).

(** The mapping of an entity is one the reader can follow. *)
Record mapped (m : EntityMap) : Prop := {
  mp_sql : sql_map m;
  mp_names : NoDup (PropertyName <$> Properties m);
  mp_keys : forall p, p ∈ KeyProperties m -> p ∈ Properties m;
  mp_keyed : KeyProperties m <> [] }.

(** The key rows of a table have values of the key's types. *)
Record key_table (m : EntityMap) (tys : list KeyType) (table : list Instance) : Prop := {
  kt_tuples : Forall (fun i => tuple_of tys (extractTuple (KeyProperties m) i)) table;
  kt_typed : Forall (fun i => Forall (fun p => typed p i) (KeyProperties m)) table }.

(** A lookup of rows by the tuples [ts] of the properties [ps]: full tuples the
    converter takes, whose values the database compares as the program does. *)
Record lookup_by (m : EntityMap) (ps : list PropertyMap) (ts : list KeyTuple) (table : list Instance) : Prop := {
  lb_properties : forall p, p ∈ ps -> p ∈ Properties m;
  lb_nonempty : ps <> [];
  lb_full : Forall (full (length ps)) ts;
  lb_converts : Forall (Forall (converts TD)) ts;
  lb_agrees : forall i t, i ∈ table -> t ∈ ts ->
    agrees compare read stored ps (fun p => row i (QuoteIdentifier d (ColumnName p))) i t }.

Lemma lookup_by_subset m ps ts us table :
  (forall t, t ∈ us -> t ∈ ts) -> lookup_by m ps ts table -> lookup_by m ps us table.
Proof.
  intros H [H1 H2 H3 H4 H5]. split; [done|done| | |by auto]; rewrite Forall_forall in *; auto.
Qed.

Abbreviation env := (@load_env D).

Definition untracked (e : env) : Prop := se_tracker (le_session e) = None.

(** What reading does to the state: the database and the session's mode stay,
    every object stays, and new ones appear. *)
Record grown (e e' : env) : Prop := {
  gr_db : le_db e' = le_db e;
  gr_untracked : untracked e -> untracked e';
  gr_heap : le_heap e ⊆ le_heap e' }.

Lemma reading_refl e : grown e e.
Proof. by split. Qed.
Lemma reading_trans e1 e2 e3 : grown e1 e2 -> grown e2 e3 -> grown e1 e3.
Proof. intros [A1 B1 C1] [A2 B2 C2]. split; [by rewrite A2|auto|by transitivity (le_heap e2)]. Qed.

(** New objects, holding these instances. *)
Record holds (e e' : env) (targets : list Ptr) (rows : list Instance) : Prop := {
  ho_grown : grown e e';
  ho_new : forall v, v ∈ targets -> le_heap e !! v = None;
  ho_rows : Forall2 (fun v i => le_heap e' !! v = Some i) targets rows }.

Lemma holds_app e1 e2 e3 vs ws rows more :
  holds e1 e2 vs rows -> holds e2 e3 ws more -> holds e1 e3 (vs ++ ws) (rows ++ more).
Proof.
  intros [G1 N1 R1] [G2 N2 R2]. split; [by eapply reading_trans| |].
  - intros v [Hv|Hv]%elem_of_app; [auto|]. specialize (N2 v Hv).
    destruct (le_heap e1 !! v) eqn:E; [|done]. by rewrite (lookup_weaken _ _ _ _ E (gr_heap _ _ G1)) in N2.
  - apply Forall2_app; [|done]. eapply Forall2_impl; [exact R1|].
    intros v i Hv. by eapply lookup_weaken; [|apply (gr_heap _ _ G2)].
Qed.

Lemma holds_nil e : holds e e [] [].
Proof. split; [apply reading_refl|by intros v []%not_elem_of_nil|constructor]. Qed.

Lemma read_row_holds m i e :
  untracked e -> exists e' v, read_row TD m i e = (e', Ok v) /\ holds e e' [v] [i].
Proof.
  intros Hu. unfold read_row, alloc, resolve_target, sbind.
  set (v := fresh (dom (le_heap e))). assert (Hv : le_heap e !! v = None) by (apply not_elem_of_dom, is_fresh).
  unfold resolveAny. cbn [le_session with_heap with_session se_tracker].
  rewrite Hu. eexists _, v. split; [reflexivity|].
  split; [split|by intros w ->%list_elem_of_singleton|]; cbn [le_db with_heap with_session].
  - done.
  - done.
  - by apply insert_subseteq.
  - constructor; [|constructor]. apply lookup_insert_eq.
Qed.

Lemma read_rows_hold m rows e :
  untracked e -> exists e' vs, mapS (read_row TD m) rows e = (e', Ok vs) /\ holds e e' vs rows.
Proof.
  revert e. induction rows as [|i rows IH]; intros e Hu; [exists e, []; by split; [|apply holds_nil]|].
  destruct (read_row_holds m i e Hu) as (e1 & v & E1 & H1).
  destruct (IH e1 (gr_untracked _ _ (ho_grown _ _ _ _ H1) Hu)) as (e2 & vs & E2 & H2).
  exists e2, (v :: vs). split; [|by apply (holds_app e e1 e2 [v] vs [i] rows)].
  cbn [mapS]. unfold sbind. by rewrite E1, E2.
Qed.

(** ** One membership statement *)

Hypothesis Hstored : forall v ct label b, ToParameter TD v ct label = Ok b -> b = stored v ct.

Lemma no_alias predicate : plain predicate -> rootAlias d [predicate] [] = "".
Proof.
  intros Hp. unfold rootAlias, needsRootAlias.
  assert (H : requiresExistsRewriteNode d predicate = false); [|unfold requiresExistsRewrite; simpl; by rewrite H].
  apply (Criteria_tree_ind (fun c => plain c -> requiresExistsRewriteNode d c = false) (fun _ => True)); try done.
  - intros op cs IH Hc. inversion Hc as [| | |? ? _ Hcs| |]; subst. cbn [requiresExistsRewriteNode].
    apply not_true_iff_false. rewrite existsb_exists. intros (c & Hin%list_elem_of_In & E).
    rewrite Forall_forall in *. by rewrite IH in E by auto.
  - intros c IH Hc. inversion Hc; subst. by apply IH.
  - intros ps ast _ Hc. inversion Hc.
Qed.

Lemma selectRows_membership m ps ts table order q e :
  mapped m -> lookup_by m ps ts table -> (forall p, p ∈ order -> p ∈ Properties m) ->
  runs m table (le_db e) -> untracked e ->
  exists e' vs rows, selectRows d TD read_rows (membership_ast m (membership ps ts) order) q e = (e', Ok vs) /\
    holds e e' vs rows /\ rows ≡ₚ List.filter (matches ps ts) table /\
    (order = KeyProperties m -> keyOrderIsValueOrder d m (KeyProperties m) = true ->
     StronglySorted (key_le (KeyProperties m)) rows).
Proof.
  intros Hm [L1 L2 L3 L4 L5] Ho Hruns Hu. set (ast := membership_ast m (membership ps ts) order).
  assert (Hsql : sql_query ast).
  { split; [apply Hm|constructor|constructor|]. constructor; [by eapply membership_plain|constructor]. }
  (* it renders *)
  destruct (succeeds_select d TD q (queryName m) m (mp_names _ Hm) (membership ps ts) order) with
    (b := mkBinding [] (criteriaLabels (le_labels e) q)) as (b' & sql & Hsel & _); [| done | done | |].
  { intros alias. apply succeeds_membership; [apply Hm|done|done]. }
  { unfold ready. simpl. lia. }
  assert (Hrender : exists cache', renderSelect d TD (le_labels e) ast q = (cache', Ok (sql, cb_bound b'))).
  { unfold renderSelect. fold ast in Hsel. rewrite Hsel. by eexists. }
  destruct Hrender as [cache' Hrender].
  destruct (Hruns _ _ _ _ _ _ _ Hsql Hrender) as (rows & Hread & Hrows & Hsorted).
  (* the rows it keeps are the related ones *)
  assert (Hkeeps : List.filter (keeps sql (cb_bound b')) table = List.filter (matches ps ts) table).
  { apply List.filter_ext_in. intros i Hi%list_elem_of_In. unfold keeps.
    destruct (leaves_select d TD stored ast q compare read (row i) Hstored Hsql _ _ _ Hsel) as (_ & _ & Hmean);
      [by constructor|].
    rewrite Hmean. change (sa_Joins ast) with (@nil SelectJoin).
    change (sa_Where ast) with [membership ps ts]. change (sa_Map ast) with m. rewrite no_alias by by eapply membership_plain.
    apply eq_bool_prop_intro. rewrite !Is_true_true, bool_decide_eq_true. unfold matches. rewrite existsb_exists.
    assert (Hall : Forall (agrees compare read stored ps (cell d (row i) "") i) ts).
    { apply Forall_forall. intros t Ht. by apply L5. }
    pose proof (membership_means compare read stored m (mp_names _ Hm) ps L1 L2 _ i ts L3 Hall) as Hmm.
    split.
    - intros E. assert (E' : meaning compare read stored m (cell d (row i) "") (membership ps ts) = Some true).
      { injection E as E. unfold meaning_all in E. simpl in E. by destruct (meaning _ _ _ _ _ _) as [[]|]. }
      apply Hmm in E' as (t & Ht & E'). exists t. split; [by apply list_elem_of_In|done].
    - intros (t & Ht%list_elem_of_In & E). unfold meaning_all. simpl.
      rewrite (proj2 Hmm); [done|]. by exists t. }
  destruct (read_rows_hold m rows (mkLoadEnv (le_session e) cache' (le_db e)) Hu) as (e' & vs & Hvs & Hh).
  exists e', vs, rows. split_and!; [| |by rewrite Hrows, Hkeeps|done].
  - unfold selectRows, run_select, sbind. rewrite Hrender. change (sa_Map ast) with m. rewrite Hread. cbn [fst snd]. by rewrite Hvs.
  - destruct Hh as [[G1 G2 G3] N R]. split; [by split|done|done].
Qed.

(** ** All the chunks *)

Lemma chunks_membership m ps table order q chunks e :
  mapped m -> (forall c, c ∈ chunks -> lookup_by m ps c table) -> (forall p, p ∈ order -> p ∈ Properties m) ->
  runs m table (le_db e) -> untracked e ->
  exists e' vss rowss,
    mapS (fun chunk => do! predicate <- slift (membershipCriteria (propertyNames ps) chunk) in
                       selectRows d TD read_rows (membership_ast m predicate order) q) chunks e = (e', Ok vss) /\
    holds e e' (concat vss) (concat rowss) /\
    Forall2 (fun c rows => rows ≡ₚ List.filter (matches ps c) table /\
      (order = KeyProperties m -> keyOrderIsValueOrder d m (KeyProperties m) = true ->
       StronglySorted (key_le (KeyProperties m)) rows)) chunks rowss.
Proof.
  intros Hm Hc Ho. revert e. induction chunks as [|c cs IH]; intros e Hruns Hu.
  { exists e, [], []. split; [done|]. split; [apply holds_nil|constructor]. }
  pose proof (Hc c (list_elem_of_here _ _)) as Hl.
  destruct (selectRows_membership m ps c table order q e Hm Hl Ho Hruns Hu) as (e1 & vs & rows & E1 & H1 & R1 & S1).
  destruct (ho_grown _ _ _ _ H1) as [Gd Gu _].
  destruct (IH ltac:(intros c' Hc'; apply Hc; by right) e1) as (e2 & vss & rowss & E2 & H2 & R2);
    [by rewrite Gd|auto|].
  exists e2, (vs :: vss), (rows :: rowss). split_and!; [|by eapply holds_app|by constructor].
  cbn [mapS]. rewrite membership_ok by apply Hl. rewrite (sbind_step _ _ _ e1 vs) by exact E1.
  by rewrite (sbind_step _ _ _ e2 vss) by exact E2.
Qed.

Definition read_in_order (m : EntityMap) (h : heap) (vs : list Ptr) : Prop :=
  StronglySorted (fun a b => key_le (KeyProperties m) (deref h a) (deref h b)) vs.

Lemma Forall2_deref h (vs : list Ptr) rows :
  Forall2 (fun v i => h !! v = Some i) vs rows -> deref h <$> vs = rows.
Proof.
  induction 1 as [|v i vs rows H1 H IH]; [done|]. rewrite fmap_cons, IH. unfold deref at 1. by rewrite H1.
Qed.

Lemma sorted_deref h (vs : list Ptr) ps :
  StronglySorted (key_le ps) (deref h <$> vs) -> StronglySorted (fun a b => key_le ps (deref h a) (deref h b)) vs.
Proof.
  induction vs as [|v vs IH]; [constructor|]. rewrite fmap_cons. inversion 1 as [|? ? Hs Hf]; subst.
  constructor; [by apply IH|]. exact (proj1 (Forall_fmap _ _ _) Hf).
Qed.

Lemma loaded_rows (P : Instance -> Prop) h (vs : list Ptr) rows f table :
  Forall P table -> deref h <$> vs = rows -> rows ≡ₚ List.filter f table -> Forall (fun v => P (deref h v)) vs.
Proof.
  intros HP <- Hp. rewrite Forall_forall in HP. apply Forall_forall. intros v Hv. apply HP.
  assert (Hin : deref h v ∈ List.filter f table) by (rewrite <- Hp; by apply list_elem_of_fmap_2).
  apply list_elem_of_In, List.filter_In in Hin as [Hin _]. by apply list_elem_of_In.
Qed.

(** A membership query on distinct tuples: the related rows of the table, each
    as one new object, in key order. *)
Lemma queryMembership_spec m ps ts tys table q e :
  mapped m -> lookup_by m ps ts table -> key_table m tys table -> StronglySorted differ ts ->
  runs m table (le_db e) -> untracked e ->
  exists e' vs rows,
    queryMembership d TD read_rows m (propertyNames ps) ts None None (KeyProperties m) q e = (e', Ok vs) /\
    holds e e' vs rows /\ rows ≡ₚ List.filter (matches ps ts) table /\ read_in_order m (le_heap e') vs.
Proof.
  intros Hm Hl [Ht1 Ht2] Hd Hruns Hu. destruct ts as [|t ts'].
  { exists e, [], []. split; [done|]. split; [apply holds_nil|]. split; [|constructor].
    clear. by induction table. }
  set (ts := t :: ts') in *. destruct (chunkTuples_spec ts) as [Hcat Hsizes].
  set (chunks := chunkTuples ts LoadChunkSize) in *.
  destruct (chunks_membership m ps table (KeyProperties m) q chunks e Hm) as (e' & vss & rowss & E & Hh & Hrows);
    [|apply Hm|done|done|].
  { intros c Hc. apply (lookup_by_subset m ps ts); [|done]. intros u Hcu. rewrite <- Hcat.
    apply elem_of_concat. eauto. }
  assert (Hperm : concat rowss ≡ₚ List.filter (matches ps ts) table).
  { transitivity (concat ((fun c => List.filter (matches ps c) table) <$> chunks)).
    - clear -Hrows. induction Hrows as [|c rows cs rowss [Hr _] H IH]; [done|].
      cbn [concat fmap list_fmap]. by rewrite Hr, IH.
    - replace (matches ps ts) with (matches ps (concat chunks)) by by rewrite Hcat.
      rewrite <- Hcat in Hd. by apply matches_chunks. }
  assert (Hderef := Forall2_deref _ _ _ (ho_rows _ _ _ _ Hh)).
  unfold queryMembership. fold ts chunks. change ts with (t :: ts') at 1. cbv iota zeta. fold ts.
  rewrite (sbind_step _ _ _ _ _ E). unfold valueOrdered.
  rewrite (bool_decide_true (KeyProperties m <> [])) by apply Hm. cbn [andb].
  destruct ((1 <? length chunks) || negb (keyOrderIsValueOrder d m (KeyProperties m))) eqn:Esort.
  - destruct (sortByProperties_sorted (KeyProperties m) (le_heap e') tys (concat vss)) as (sorted & Es & Ep & Eo).
    + by eapply (loaded_rows (fun i => tuple_of tys (extractTuple (KeyProperties m) i))).
    + by eapply (loaded_rows (fun i => Forall (fun p => typed p i) (KeyProperties m))).
    + exists e', sorted, (deref (le_heap e') <$> sorted). unfold sort_targets. rewrite Es. split; [done|].
      split; [|split; [by rewrite Ep, Hderef, Hperm|done]].
      destruct Hh as [G N R]. split; [done| |].
      * intros v Hv. apply N. by rewrite <- Ep.
      * apply Forall2_fmap_r, Forall_Forall2_diag, Forall_forall. intros v Hv. rewrite Ep in Hv.
        apply list_elem_of_lookup in Hv as [k Hk]. destruct (Forall2_lookup_l _ _ _ _ _ R Hk) as (i & _ & Hi).
        unfold deref, compose. by rewrite Hi.
  - apply orb_false_iff in Esort as [Hone%Nat.ltb_ge Hvo%negb_false_iff].
    exists e', (concat vss), (concat rowss). split; [done|]. split; [done|]. split; [done|].
    apply sorted_deref. rewrite Hderef.
    clearbody chunks. destruct chunks as [|c [|]]; [done| |simpl in Hone; lia].
    inversion Hrows as [|? ? ? ? [_ Hs] Hnil]; subst. inversion Hnil; subst. cbn [concat]. rewrite app_nil_r. by apply Hs.
Qed.

(** * Attaching *)

(** All of an instance but one navigation. *)
Record same_but (name : string) (i i' : Instance) : Prop := {
  sb_type : in_type i' = in_type i;
  sb_fields : in_fields i' = in_fields i;
  sb_owned : in_owned i' = in_owned i;
  sb_navs : forall k, k <> name -> in_navs i' !! k = in_navs i !! k }.

Lemma same_but_refl name i : same_but name i i.
Proof. by split. Qed.

(** What a load does to memory: objects appear, and of the objects that were
    there only the owners change, in the one navigation. *)
Record kept (name : string) (owners : list Ptr) (e e' : env) : Prop := {
  kp_db : le_db e' = le_db e;
  kp_untracked : untracked e -> untracked e';
  kp_other : forall v i, v ∉ owners -> le_heap e !! v = Some i -> le_heap e' !! v = Some i;
  kp_owner : forall o i, o ∈ owners -> le_heap e !! o = Some i ->
    exists i', le_heap e' !! o = Some i' /\ same_but name i i' }.

Lemma grown_kept name owners e e' : grown e e' -> kept name owners e e'.
Proof.
  intros [H1 H2 H3]. split; [done|done| |].
  - intros v i _ Hv. by eapply lookup_weaken.
  - intros o i _ Ho. exists i. split; [by eapply lookup_weaken|apply same_but_refl].
Qed.

Lemma kept_trans name owners e1 e2 e3 : kept name owners e1 e2 -> kept name owners e2 e3 -> kept name owners e1 e3.
Proof.
  intros [A1 B1 C1 D1] [A2 B2 C2 D2]. split; [by rewrite A2|auto|eauto|].
  intros o i Ho Hi. destruct (D1 o i Ho Hi) as (i2 & H2 & [S1 S2 S3 S4]).
  destruct (D2 o i2 Ho H2) as (i3 & H3 & [T1 T2 T3 T4]). exists i3. split; [done|].
  split; [by rewrite T1|by rewrite T2|by rewrite T3|]. intros k Hk. by rewrite T4, S4.
Qed.

(** A loop over the owners that attaches to each in turn. *)
Lemma attach_all name owners (act : Ptr -> SM env unit) (Q : Ptr -> env -> Prop) e1 :
  (forall o e, o ∈ owners -> kept name owners e1 e ->
     exists e', act o e = (e', Ok tt) /\ kept name owners e1 e' /\ Q o e' /\
       forall o', o' ∈ owners -> Q o' e -> Q o' e') ->
  exists e', forS act owners e1 = (e', Ok tt) /\ kept name owners e1 e' /\ forall o, o ∈ owners -> Q o e'.
Proof.
  intros Hact.
  assert (H : forall l e, (forall o, o ∈ l -> o ∈ owners) -> kept name owners e1 e ->
    exists e', forS act l e = (e', Ok tt) /\ kept name owners e1 e' /\ (forall o, o ∈ l -> Q o e') /\
      forall o, o ∈ owners -> Q o e -> Q o e').
  { induction l as [|o l IH]; intros e Hl He; [exists e; split_and!; [done|done|by intros o []%not_elem_of_nil|done]|].
    destruct (Hact o e (Hl _ (list_elem_of_here _ _)) He) as (e2 & E2 & K2 & Q2 & M2).
    destruct (IH e2) as (e3 & E3 & K3 & Q3 & M3); [intros o' Ho'; apply Hl; by right|done|].
    exists e3. cbn [forS]. rewrite (sbind_step _ _ _ _ _ E2). split_and!; [done|done| |by auto].
    intros o' [->|Ho']%elem_of_cons; [|by auto]. apply M3; [apply Hl; by left|done]. }
  destruct (H owners e1) as (e' & ? & ? & ? & _); [done|apply grown_kept, reading_refl|]. by exists e'.
Qed.

Lemma set_field_kept name owners e1 e o n :
  o ∈ owners -> kept name owners e1 e -> is_Some (le_heap e1 !! o) ->
  exists e', set_field_of o name n e = (e', Ok tt) /\ kept name owners e1 e' /\
    le_heap e' = <[o := set_navigation name n (deref (le_heap e) o)]> (le_heap e).
Proof.
  intros Ho Hk [i Hi]. eexists. split; [reflexivity|]. split; [|reflexivity].
  eapply kept_trans; [exact Hk|]. split.
  - done.
  - done.
  - intros v j Hv Hj. cbn. unfold le_heap at 1. cbn. rewrite lookup_insert_ne; [done|]. by intros ->.
  - intros o' j Ho' Hj. unfold le_heap at 1. cbn. destruct (decide (o' = o)) as [->|Hne].
    + rewrite lookup_insert_eq. eexists. split; [reflexivity|].
      assert (Hd : deref (le_heap e) o = j) by (unfold deref; by rewrite Hj). rewrite Hd.
      split; [done..|]. intros k Hk'. cbn. by rewrite lookup_insert_ne.
    + rewrite lookup_insert_ne by done. exists j. split; [done|apply same_but_refl].
Qed.

(** ** A collection *)

Lemma append_all (pe : bool) vs e :
  (forall v, v ∈ vs -> is_Some (le_heap e !! v)) ->
  exists e' ws, mapS (appendTarget pe) vs e = (e', Ok (Some <$> ws)) /\ grown e e' /\
    Forall2 (fun v w => le_heap e' !! w = le_heap e !! v /\ (w = v \/ le_heap e !! w = None)) vs ws.
Proof.
  revert e. induction vs as [|v vs IH]; intros e Hv; [exists e, []; split_and!; [done|apply reading_refl|constructor]|].
  assert (H1 : exists e1 w, appendTarget pe v e = (e1, Ok (Some w)) /\ grown e e1 /\
            le_heap e1 !! w = le_heap e !! v /\ (w = v \/ le_heap e !! w = None)).
  { unfold appendTarget. destruct pe; [exists e, v; split_and!; [done|apply reading_refl|done|by left]|].
    unfold alloc, sbind. set (w := fresh (dom (le_heap e))).
    assert (Hw : le_heap e !! w = None) by (apply not_elem_of_dom, is_fresh).
    eexists _, w. split; [reflexivity|]. split; [split; [done|done|by apply insert_subseteq]|]. split; [|by right].
    destruct (Hv v (list_elem_of_here _ _)) as [i Hi]. unfold le_heap at 1. cbn. rewrite lookup_insert_eq.
    unfold deref. rewrite Hi. done. }
  destruct H1 as (e1 & w & E1 & G1 & W1 & F1).
  destruct (IH e1) as (e2 & ws & E2 & G2 & F2).
  { intros v' Hv'. destruct (Hv v' (list_elem_of_further _ _ _ Hv')) as [i Hi]. exists i. by eapply lookup_weaken, G1. }
  exists e2, (w :: ws). cbn [mapS]. rewrite (sbind_step _ _ _ _ _ E1), (sbind_step _ _ _ _ _ E2).
  split; [done|]. split; [by eapply reading_trans|]. constructor.
  - split; [|done]. rewrite <- W1. destruct (Hv v (list_elem_of_here _ _)) as [i Hi].
    rewrite W1, Hi. eapply lookup_weaken; [|apply G2]. by rewrite W1.
  - apply Forall2_same_length_lookup_2; [by eapply Forall2_length|]. intros k v' w' Hv' Hw'.
    destruct (Forall2_lookup_lr _ _ _ _ _ _ F2 Hv' Hw') as [H3 H4].
    destruct (Hv v') as [i Hi]; [right; by eapply list_elem_of_lookup_2|].
    assert (Hi1 : le_heap e1 !! v' = Some i) by (by eapply lookup_weaken, G1).
    split; [by rewrite H3, Hi1, Hi|]. destruct H4 as [->|H4]; [by left|right].
    destruct (le_heap e !! w') eqn:E; [|done]. by rewrite (lookup_weaken _ _ _ _ E (gr_heap _ _ G1)) in H4.
Qed.

(** The collection of an owner: the elements are the targets, or copies. *)
Definition collects (name : string) (owners : list Ptr) (e1 : env) (pick : Ptr -> list Ptr) (o : Ptr) (e : env) : Prop :=
  exists elements, in_navs (deref (le_heap e) o) !! name = Some (NavMany (Some (Some <$> elements))) /\
    Forall2 (fun v w => w ∉ owners /\ is_Some (le_heap e !! w) /\ le_heap e !! w = le_heap e1 !! v) (pick o) elements.

Lemma set_slices name owners pe pick e1 :
  (forall o, o ∈ owners -> is_Some (le_heap e1 !! o)) ->
  (forall o v, o ∈ owners -> v ∈ pick o -> v ∉ owners /\ is_Some (le_heap e1 !! v)) ->
  exists e', forS (fun o => setSliceField o name pe (pick o)) owners e1 = (e', Ok tt) /\
    kept name owners e1 e' /\ forall o, o ∈ owners -> collects name owners e1 pick o e'.
Proof.
  intros Hown Hpick. apply attach_all. intros o e Ho Hk.
  assert (Halloc : forall v, v ∈ pick o -> le_heap e !! v = le_heap e1 !! v).
  { intros v Hv. destruct (Hpick o v Ho Hv) as [Hn [i Hi]]. rewrite Hi. by apply (kp_other _ _ _ _ Hk). }
  destruct (append_all pe (pick o) e) as (e2 & ws & E2 & G2 & F2).
  { intros v Hv. rewrite Halloc by done. by apply (Hpick o). }
  assert (K2 : kept name owners e1 e2) by (eapply kept_trans; [exact Hk|by apply grown_kept]).
  destruct (set_field_kept name owners e1 e2 o (NavMany (Some (Some <$> ws))) Ho K2 (Hown o Ho)) as (e' & E' & K' & Hh).
  exists e'. unfold setSliceField. rewrite (sbind_step _ _ _ _ _ E2). split; [done|]. split; [done|].
  assert (Hother : forall w, w ∉ owners -> le_heap e' !! w = le_heap e2 !! w).
  { intros w Hw. rewrite Hh, lookup_insert_ne; [done|]. by intros ->. }
  assert (Hnav : in_navs (deref (le_heap e') o) !! name = Some (NavMany (Some (Some <$> ws)))).
  { rewrite Hh. unfold deref at 1. rewrite lookup_insert_eq. apply lookup_insert_eq. }
  assert (Hthis : collects name owners e1 pick o e').
  { exists ws. split; [done|].
    apply Forall2_same_length_lookup_2; [by eapply Forall2_length|]. intros k v w Hv Hw.
    destruct (Forall2_lookup_lr _ _ _ _ _ _ F2 Hv Hw) as [H1 H2].
    assert (Hin : v ∈ pick o) by by eapply list_elem_of_lookup_2.
    destruct (Hpick o v Ho Hin) as [Hn [i Hi]].
    assert (Hnw : w ∉ owners).
    { destruct H2 as [->|H2]; [done|]. intros Hw'. destruct (Hown w Hw') as [j Hj].
      destruct (kp_owner _ _ _ _ Hk w j Hw' Hj) as (j' & Hj' & _). congruence. }
    rewrite (Hother w Hnw), H1, Halloc by done. split; [done|]. split; [by eexists|done]. }
  split; [exact Hthis|]. intros o' Ho' (els & Hn & HF).
  destruct (decide (o' = o)) as [->|Hne]; [exact Hthis|].
  destruct (Hown o' Ho') as [j Hj]. destruct (kp_owner _ _ _ _ Hk o' j Ho' Hj) as (j' & Hj' & _).
  exists els. split.
  - rewrite Hh. unfold deref. rewrite lookup_insert_ne by done. rewrite (lookup_weaken _ _ _ _ Hj' (gr_heap _ _ G2)).
    unfold deref in Hn. by rewrite Hj' in Hn.
  - eapply Forall2_impl; [exact HF|]. intros v w (Hw & [i Hi] & Hs).
    assert (Hw' : le_heap e' !! w = Some i) by (rewrite Hother by done; by eapply lookup_weaken, G2).
    split; [done|]. split; [by eexists|]. by rewrite Hw', <- Hs.
Qed.

(** ** The related rows *)

(** What a collection query picks for an owner's tuple. *)
Lemma matching_rows (m : EntityMap) (ps : list PropertyMap) (h : heap) (vs : list Ptr) (rows : list Instance)
    (t : KeyTuple) :
  deref h <$> vs = rows -> read_in_order m h vs ->
  (deref h <$> matching (keyed ps h vs) t) = List.filter (fun i => KeyTuple_Equal (extractTuple ps i) t) rows /\
  read_in_order m h (matching (keyed ps h vs) t) /\
  (forall v, v ∈ matching (keyed ps h vs) t -> v ∈ vs).
Proof.
  intros <- Hs. unfold matching, keyed, read_in_order in *. induction Hs as [|v vs Hs IH Hv].
  { split_and!; [done|constructor|done]. }
  rewrite !fmap_cons. cbn [List.filter fst]. destruct IH as (I1 & I2 & I3).
  destruct (KeyTuple_Equal (extractTuple ps (deref h v)) t).
  - rewrite !fmap_cons. cbn [snd]. split_and!; [by rewrite I1| |].
    + constructor; [done|]. rewrite Forall_forall in *. intros w Hw. apply Hv, I3, Hw.
    + intros w [->|Hw]%elem_of_cons; [by left|right; auto].
  - split_and!; [done|done|]. intros w Hw. right. auto.
Qed.

(** Of the rows read for every tuple, those of one tuple are the table's. *)
Lemma related_rows (ps : list PropertyMap) (ts : list KeyTuple) (table rows : list Instance) (t : KeyTuple) :
  rows ≡ₚ List.filter (matches ps (distinctTuples ts)) table -> t ∈ ts ->
  List.filter (fun i => KeyTuple_Equal (extractTuple ps i) t) rows
  ≡ₚ List.filter (fun i => KeyTuple_Equal (extractTuple ps i) t) table.
Proof.
  intros Hp Ht. transitivity (List.filter (fun i => KeyTuple_Equal (extractTuple ps i) t)
    (List.filter (matches ps (distinctTuples ts)) table)).
  - clear -Hp. induction Hp as [|x l l' Hp IH|x y l|l1 l2 l3 H1 IH1 H2 IH2]; cbn [List.filter]; [done| | |by etransitivity].
    + destruct (KeyTuple_Equal _ t); [by rewrite IH|done].
    + destruct (KeyTuple_Equal (extractTuple ps x) t), (KeyTuple_Equal (extractTuple ps y) t); try done. apply Permutation_swap.
  - clear Hp. destruct (distinctTuples_spec ts) as (_ & _ & Hcover). induction table as [|i table IH]; [done|]. cbn [List.filter].
    destruct (matches ps (distinctTuples ts) i) eqn:E; cbn [List.filter].
    + destruct (KeyTuple_Equal (extractTuple ps i) t); [by rewrite IH|done].
    + destruct (KeyTuple_Equal (extractTuple ps i) t) eqn:E2; [|done]. destruct (Hcover _ t Ht E2) as (u & Hu & E3).
      exfalso. rewrite <- not_true_iff_false in E. apply E. unfold matches. apply existsb_exists. exists u.
      by split; [apply list_elem_of_In|].
Qed.

(** ** A pointer *)

Lemma set_pointers name owners (act : Ptr -> SM env unit) (pick : Ptr -> option Ptr) e1 :
  (forall o, o ∈ owners -> is_Some (le_heap e1 !! o)) ->
  (forall o e2, o ∈ owners -> kept name owners e1 e2 -> act o e2 = setPointerField o name (pick o) e2) ->
  exists e', forS act owners e1 = (e', Ok tt) /\ kept name owners e1 e' /\
    forall o, o ∈ owners -> in_navs (deref (le_heap e') o) !! name = Some (NavSingle (pick o)).
Proof.
  intros Hown Hact. apply (attach_all name owners act
    (fun o e => in_navs (deref (le_heap e) o) !! name = Some (NavSingle (pick o)))).
  intros o e2 Ho Hk. rewrite Hact by done.
  destruct (set_field_kept name owners e1 e2 o (NavSingle (pick o)) Ho Hk (Hown o Ho)) as (e' & E & K & Hh).
  exists e'. split; [done|]. split; [done|].
  assert (Hthis : in_navs (deref (le_heap e') o) !! name = Some (NavSingle (pick o))).
  { rewrite Hh. unfold deref at 1. rewrite lookup_insert_eq. apply lookup_insert_eq. }
  split; [done|]. intros o' _ Hn. destruct (decide (o' = o)) as [->|Hne]; [done|].
  rewrite Hh. unfold deref in *. by rewrite lookup_insert_ne.
Qed.

Lemma find_by_tuple_ext ps h h' t (vs : list Ptr) :
  (forall v, v ∈ vs -> deref h' v = deref h v) -> find_by_tuple ps h' t vs = find_by_tuple ps h t vs.
Proof.
  unfold find_by_tuple. induction vs as [|v vs IH]; intros H; [done|]. cbn [List.find].
  rewrite (H v (list_elem_of_here _ _)), IH; [done|]. intros w Hw. apply H. by right.
Qed.

(** What the search finds: a related row read, or that there is none. *)
Lemma found_target ps h (vs : list Ptr) t :
  match find_by_tuple ps h t vs with
  | Some v => v ∈ vs /\ KeyTuple_Equal (extractTuple ps (deref h v)) t = true
  | None => List.filter (fun i => KeyTuple_Equal (extractTuple ps i) t) (deref h <$> vs) = []
  end.
Proof.
  unfold find_by_tuple. induction vs as [|v vs IH]; [done|]. rewrite fmap_cons. cbn [List.find List.filter].
  destruct (KeyTuple_Equal (extractTuple ps (deref h v)) t) eqn:E; [by split; [left|]|].
  destruct (List.find _ vs); [|done]. destruct IH. by split; [right|].
Qed.

(** The target of each owner. *)
Definition pick_one (left right : list PropertyMap) (e e1 : env) (vs : list Ptr) (o : Ptr) : option Ptr :=
  owner_tuple left (le_heap e) o ≫= fun t => find_by_tuple right (le_heap e1) t vs.

(** ** What a load needs *)

Definition owner_tuples (left : list PropertyMap) (h : heap) (owners : list Ptr) : list KeyTuple :=
  omap id (owner_tuple left h <$> owners).

(** Owners whose properties [left] are looked up in the properties [right] of a
    table of the target. *)
Record loadable (m : EntityMap) (left right : list PropertyMap) (tys : list KeyType) (table : list Instance)
    (owners : list Ptr) (e : env) : Prop := {
  lo_untracked : untracked e;
  lo_owners : forall o, o ∈ owners -> is_Some (le_heap e !! o);
  lo_mapped : mapped m;
  lo_arity : length right = length left;
  lo_right : forall p, p ∈ right -> p ∈ Properties m;
  lo_nonempty : right <> [];
  lo_converts : Forall (Forall (converts TD)) (owner_tuples left (le_heap e) owners);
  lo_agrees : forall i t, i ∈ table -> t ∈ owner_tuples left (le_heap e) owners ->
    agrees compare read stored right (fun p => row i (QuoteIdentifier d (ColumnName p))) i t;
  lo_keys : key_table m tys table;
  lo_left_typed : forall o p, o ∈ owners -> p ∈ left -> typed p (deref (le_heap e) o);
  lo_right_typed : forall i p, i ∈ table -> p ∈ right -> typed p i;
  lo_runs : runs m table (le_db e) }.

(** The row belongs to the owner. *)
Definition related (left right : list PropertyMap) (h : heap) (o : Ptr) (i : Instance) : bool :=
  match owner_tuple left h o with Some t => KeyTuple_Equal (extractTuple right i) t | None => false end.

Section Load.
Context (m : EntityMap) (left right : list PropertyMap) (tys : list KeyType) (table : list Instance).
Context (owners : list Ptr) (e : env) (Hload : loadable m left right tys table owners e).

Lemma loadable_lookup : lookup_by m right (distinctTuples (owner_tuples left (le_heap e) owners)) table.
Proof.
  apply (lookup_by_subset m right (owner_tuples left (le_heap e) owners)); [apply distinctTuples_spec|].
  destruct Hload. split; try done. apply Forall_forall. intros t Ht.
  unfold owner_tuples in Ht. apply list_elem_of_omap in Ht as (x & Hx & Hid). unfold id in Hid. subst x.
  apply list_elem_of_fmap in Hx as (o & Ho & _). unfold owner_tuple in Ho.
  destruct (HasNull _) eqn:E; [done|]. injection Ho as ->. split; [|by apply HasNull_spec].
  unfold extractTuple. by rewrite length_fmap.
Qed.

(** The key query of a load: every related row, once, in key order. *)
Lemma load_query q :
  exists e1 vs rows,
    queryMembership d TD read_rows m (propertyNames right) (distinctTuples (owner_tuples left (le_heap e) owners))
      None None (KeyProperties m) q e = (e1, Ok vs) /\
    holds e e1 vs rows /\
    rows ≡ₚ List.filter (matches right (distinctTuples (owner_tuples left (le_heap e) owners))) table /\
    read_in_order m (le_heap e1) vs.
Proof.
  destruct Hload. eapply queryMembership_spec; try done; [apply loadable_lookup|apply distinctTuples_spec].
Qed.

Context (e1 : env) (vs : list Ptr) (rows : list Instance).
Context (Hheld : holds e e1 vs rows).
Context (Hrows : rows ≡ₚ List.filter (matches right (distinctTuples (owner_tuples left (le_heap e) owners))) table).
Context (Hsorted : read_in_order m (le_heap e1) vs).

Lemma loaded_deref : (deref (le_heap e1) <$> vs) = rows.
Proof. apply Forall2_deref, Hheld. Qed.

Lemma loaded_new v : v ∈ vs -> v ∉ owners /\ is_Some (le_heap e1 !! v).
Proof.
  intros Hv. split.
  - intros Ho. destruct (lo_owners _ _ _ _ _ _ _ Hload v Ho) as [i Hi]. by rewrite (ho_new _ _ _ _ Hheld v Hv) in Hi.
  - apply list_elem_of_lookup in Hv as [k Hk].
    destruct (Forall2_lookup_l _ _ _ _ _ (ho_rows _ _ _ _ Hheld) Hk) as (i & _ & Hi). by exists i.
Qed.

Lemma loaded_owner o : o ∈ owners -> is_Some (le_heap e1 !! o).
Proof.
  intros Ho. destruct (lo_owners _ _ _ _ _ _ _ Hload o Ho) as [i Hi]. exists i.
  by eapply lookup_weaken, (gr_heap _ _ (ho_grown _ _ _ _ Hheld)).
Qed.

Definition pick_many (o : Ptr) : list Ptr :=
  match owner_tuple left (le_heap e) o with
  | Some t => matching (keyed right (le_heap e1) vs) t
  | None => []
  end.

Lemma pick_many_rows o :
  o ∈ owners ->
  (deref (le_heap e1) <$> pick_many o) ≡ₚ List.filter (related left right (le_heap e) o) table /\
  read_in_order m (le_heap e1) (pick_many o) /\ (forall v, v ∈ pick_many o -> v ∈ vs).
Proof.
  intros Ho. unfold pick_many, related. destruct (owner_tuple left (le_heap e) o) as [t|] eqn:E.
  - destruct (matching_rows m right (le_heap e1) vs rows t loaded_deref Hsorted) as (M1 & M2 & M3).
    split_and!; [|done|done]. rewrite M1. apply (related_rows right (owner_tuples left (le_heap e) owners)); [done|].
    apply list_elem_of_omap. exists (Some t). split; [|done]. rewrite <- E. by apply list_elem_of_fmap_2.
  - split_and!; [|constructor|by intros v []%not_elem_of_nil]. clear. by induction table.
Qed.

(** The integer fast path picks the same. *)
Lemma fast_path l r :
  integer_pair left right = Some (l, r) ->
  left = [l] /\ right = [r] /\ integerKey [l] = true /\ integerKey [r] = true /\ ValueType l = ValueType r /\
  Forall (fun o => reads_integer l (deref (le_heap e) o)) owners /\
  Forall (fun v => reads_integer r (deref (le_heap e1) v)) vs.
Proof.
  intros Hp.
  assert (Hshape : left = [l] /\ right = [r] /\ sameIntegerKey [l] [r] = true).
  { clear -Hp. unfold integer_pair in Hp. destruct left as [|x [|]], right as [|y [|]]; try done.
    destruct (sameIntegerKey [x] [y]) eqn:E; [|done]. by injection Hp as -> ->. }
  destruct Hshape as (El & Er & Hs).
  apply andb_true_iff in Hs as [[H1 H2]%andb_true_iff E%bool_decide_eq_true].
  split_and!; [done..|by injection E| |].
  - apply Forall_forall. intros o Ho. apply typed_integer; [done|].
    apply (lo_left_typed _ _ _ _ _ _ _ Hload o l Ho). rewrite El. by apply list_elem_of_singleton.
  - eapply (loaded_rows (fun i => reads_integer r i)); [|exact loaded_deref|exact Hrows].
    apply Forall_forall. intros i Hi. apply typed_integer; [done|].
    apply (lo_right_typed _ _ _ _ _ _ _ Hload i r Hi). rewrite Er. by apply list_elem_of_singleton.
Qed.

(** A collection on the integer fast path. *)
Lemma pick_many_fast l r o :
  integer_pair left right = Some (l, r) -> o ∈ owners ->
  default [] (readIntegerKey l (deref (le_heap e) o) ≫= fun k => group_by_key r (le_heap e1) vs !! k) = pick_many o.
Proof.
  intros Hp Hin. destruct (fast_path l r Hp) as (El & Er & Hl & Hr & Hlr & Ho & Hv).
  unfold pick_many. rewrite El, owner_tuple_integer; [|done|rewrite Forall_forall in Ho; by apply Ho].
  destruct (readIntegerKey l (deref (le_heap e) o)) as [k|]; [|done].
  cbn [fmap option_fmap option_map mbind option_bind]. rewrite Er. by apply group_by_key_spec.
Qed.

(** A pointer on either path. *)
Lemma pick_one_fast l r o :
  integer_pair left right = Some (l, r) -> o ∈ owners ->
  (readIntegerKey l (deref (le_heap e) o) ≫= fun k => first_by_key r (le_heap e1) vs !! k)
  = pick_one left right e e1 vs o.
Proof.
  intros Hp Hin. destruct (fast_path l r Hp) as (El & Er & Hl & Hr & Hlr & Ho & Hv).
  unfold pick_one. rewrite El, owner_tuple_integer; [|done|rewrite Forall_forall in Ho; by apply Ho].
  destruct (readIntegerKey l (deref (le_heap e) o)) as [k|]; [|done].
  cbn [fmap option_fmap option_map mbind option_bind]. rewrite Er. by apply first_by_key_spec.
Qed.

Lemma pick_one_slow name o e2 :
  kept name owners e1 e2 ->
  (do! h <- get_heap in
   setPointerField o name (owner_tuple left (le_heap e) o ≫= fun t => find_by_tuple right h t vs)) e2
  = setPointerField o name (pick_one left right e e1 vs o) e2.
Proof.
  intros Hk. rewrite (sbind_step _ _ _ e2 (le_heap e2)) by done. f_equal. unfold pick_one.
  destruct (owner_tuple left (le_heap e) o) as [t|]; [|done]. cbn [mbind option_bind]. apply find_by_tuple_ext.
  intros v Hv. destruct (loaded_new v Hv) as [Hn [i Hi]]. unfold deref. by rewrite (kp_other _ _ _ _ Hk v i Hn Hi), Hi.
Qed.

(** The pointer of an owner: a related row, or none when there is none. *)
Definition points (e' : env) (o : Ptr) (target : option Ptr) : Prop :=
  match target with
  | Some v => exists i, le_heap e' !! v = Some i /\ i ∈ table /\ related left right (le_heap e) o i = true
  | None => List.filter (related left right (le_heap e) o) table = []
  end.

Lemma pick_one_row o : o ∈ owners -> points e1 o (pick_one left right e e1 vs o) /\
  forall v, pick_one left right e e1 vs o = Some v -> v ∈ vs.
Proof.
  intros Ho. unfold points, pick_one, related.
  destruct (owner_tuple left (le_heap e) o) as [t|] eqn:Et; cbn [mbind option_bind].
  2: { split; [|done]. clear. by induction table. }
  assert (Ht : t ∈ owner_tuples left (le_heap e) owners).
  { apply list_elem_of_omap. exists (Some t). split; [|done]. rewrite <- Et. by apply list_elem_of_fmap_2. }
  pose proof (found_target right (le_heap e1) vs t) as Hf. rewrite loaded_deref in Hf.
  destruct (find_by_tuple right (le_heap e1) t vs) as [v|].
  - destruct Hf as [Hv Heq]. split; [|by intros ? [= <-]]. apply list_elem_of_lookup in Hv as [k Hk].
    destruct (Forall2_lookup_l _ _ _ _ _ (ho_rows _ _ _ _ Hheld) Hk) as (i & Hi & Hh). exists i. split; [done|].
    unfold deref in Heq. rewrite Hh in Heq. split; [|done].
    assert (Hin : i ∈ rows) by by eapply list_elem_of_lookup_2.
    rewrite Hrows in Hin. apply list_elem_of_In, List.filter_In in Hin as [Hin _]. by apply list_elem_of_In.
  - split; [|done]. pose proof (related_rows right _ table rows t Hrows Ht) as Hp. rewrite Hf in Hp.
    by apply Permutation_nil.
Qed.

(** A loop that sets every owner's pointer. *)
Lemma pointers_attached name (act : Ptr -> SM env unit) :
  (forall o e2, o ∈ owners -> kept name owners e1 e2 ->
     act o e2 = setPointerField o name (pick_one left right e e1 vs o) e2) ->
  exists e', forS act owners e1 = (e', Ok tt) /\ kept name owners e e' /\
    forall o, o ∈ owners ->
      in_navs (deref (le_heap e') o) !! name = Some (NavSingle (pick_one left right e e1 vs o)) /\
      points e' o (pick_one left right e e1 vs o).
Proof.
  intros Hact. destruct (set_pointers name owners act (pick_one left right e e1 vs) e1) as (e' & E' & K' & N');
    [by apply loaded_owner|done|].
  exists e'. split; [done|]. split; [eapply kept_trans; [apply grown_kept, Hheld|exact K']|].
  intros o Ho. split; [by apply N'|]. destruct (pick_one_row o Ho) as [Hp Hin]. unfold points in *.
  destruct (pick_one left right e e1 vs o) as [v|]; [|done]. destruct Hp as (i & Hi & Hp). exists i. split; [|done].
  apply (kp_other _ _ _ _ K'); [|done]. by apply loaded_new, Hin.
Qed.

(** A loop that sets every owner's collection. *)
Lemma collections_attached name pe :
  exists e', forS (fun o => setSliceField o name pe (pick_many o)) owners e1 = (e', Ok tt) /\
    kept name owners e e' /\
    forall o, o ∈ owners -> exists elements,
      in_navs (deref (le_heap e') o) !! name = Some (NavMany (Some (Some <$> elements))) /\
      (deref (le_heap e') <$> elements) ≡ₚ List.filter (related left right (le_heap e) o) table /\
      StronglySorted (key_le (KeyProperties m)) (deref (le_heap e') <$> elements).
Proof.
  destruct (set_slices name owners pe pick_many e1) as (e' & E' & K' & C'); [by apply loaded_owner| |].
  { intros o v Ho Hv. apply loaded_new. by apply (pick_many_rows o Ho). }
  exists e'. split; [done|]. split; [eapply kept_trans; [apply grown_kept, Hheld|exact K']|].
  intros o Ho. destruct (C' o Ho) as (els & Hnav & Hels). exists els. split; [done|].
  destruct (pick_many_rows o Ho) as (P1 & P2 & _).
  assert (Hsame : deref (le_heap e') <$> els = deref (le_heap e1) <$> pick_many o).
  { clear -Hels. induction Hels as [|v w l l' (_ & _ & Hw) H IH]; [done|]. rewrite !fmap_cons, IH. f_equal.
    unfold deref. by rewrite Hw. }
  rewrite Hsame. split; [exact P1|]. clear -P2. unfold read_in_order in P2.
  induction P2 as [|v l H IH Hv]; [constructor|]. rewrite fmap_cons. constructor; [done|].
  by apply (proj2 (Forall_fmap _ _ _)).
Qed.

End Load.

(** ** The loaders *)

Context (load : GoType -> result EntityMap) (pointer_elem : GoType -> string -> bool).

Lemma for_owners_map {K} (g : Ptr -> K) (f : Ptr -> K -> SM env unit) l :
  for_owners l (g <$> l) f = forS (fun e => f e (g e)) l.
Proof. unfold for_owners. induction l as [|x l IH]; [done|]. cbn. by rewrite IH. Qed.

Lemma forS_pointwise (f g : Ptr -> SM env unit) l :
  (forall x, x ∈ l -> f x = g x) -> forS f l = forS g l.
Proof.
  induction l as [|x l IH]; intros H; [done|]. cbn [forS]. rewrite (H x (list_elem_of_here _ _)).
  rewrite IH; [done|]. intros y Hy. apply H. by right.
Qed.

Lemma owners_integer l (e : env) owners :
  integerKey [l] = true -> Forall (fun o => reads_integer l (deref (le_heap e) o)) owners ->
  integerOwners (le_heap e) owners l true
  = ((fun o => readIntegerKey l (deref (le_heap e) o)) <$> owners,
     distinctTuples (owner_tuples [l] (le_heap e) owners)).
Proof.
  intros Hk Ho. destruct (integerOwners_correlate l l Hk Hk eq_refl (le_heap e) owners true Ho) as [Hd _].
  rewrite (surjective_pairing (integerOwners (le_heap e) owners l true)). f_equal. exact Hd.
Qed.

(** Unfolds a loader up to its membership query. *)
Ltac enter_loader Hfk Hload :=
  rewrite Hfk; rewrite (sbind_step (slift (Ok _)) _ _ _ _ eq_refl); unfold checkArity;
  rewrite decide_True by (first [apply (lo_arity _ _ _ _ _ _ _ Hload)|symmetry; apply (lo_arity _ _ _ _ _ _ _ Hload)]);
  rewrite (sbind_step (slift (Ok tt)) _ _ _ _ eq_refl); rewrite (sbind_step get_heap _ _ _ _ eq_refl).

(** The collections of a one-to-many load. *)
Lemma loadOneToMany_spec ownerMap targetMap rel fks tys table owners e :
  resolveProperties targetMap (rel_ForeignKeyProperties rel) (navigation_target ownerMap rel) = Ok fks ->
  loadable targetMap (KeyProperties ownerMap) fks tys table owners e ->
  exists e', loadOneToMany d TD read_rows pointer_elem ownerMap targetMap rel owners None e = (e', Ok tt) /\
    kept (rel_PropertyName rel) owners e e' /\
    forall o, o ∈ owners -> exists elements,
      in_navs (deref (le_heap e') o) !! rel_PropertyName rel = Some (NavMany (Some (Some <$> elements))) /\
      (deref (le_heap e') <$> elements) ≡ₚ List.filter (related (KeyProperties ownerMap) fks (le_heap e) o) table /\
      StronglySorted (key_le (KeyProperties targetMap)) (deref (le_heap e') <$> elements).
Proof.
  intros Hfk Hload. destruct (load_query _ _ _ _ _ _ _ Hload (navigation_target ownerMap rel +:+ " (one-to-many)"))
    as (e1 & vs & rows & Eq1 & Hheld & Hrows & Hsorted).
  set (keys := KeyProperties ownerMap) in *. set (name := rel_PropertyName rel). set (pe := pointer_elem (Type_ ownerMap) name).
  destruct (collections_attached _ _ _ _ _ _ _ Hload e1 vs rows Hheld Hrows Hsorted name pe) as (e' & E' & K' & N').
  exists e'. split; [|done]. rewrite <- E'. unfold loadOneToMany. fold keys name pe. enter_loader Hfk Hload.
  destruct (integer_pair keys fks) as [[l r]|] eqn:Hpair; cbn [is_none].
  - destruct (fast_path _ _ _ _ _ _ _ Hload e1 vs rows Hheld Hrows l r Hpair) as (El & _ & Hl & _ & _ & Ho & _).
    rewrite (owners_integer l) by done. rewrite <- El, (sbind_step _ _ _ _ _ Eq1), (sbind_step get_heap _ _ _ _ eq_refl).
    rewrite for_owners_map. apply (f_equal (fun act => act e1)), forS_pointwise. intros o Hin. f_equal.
    by apply (pick_many_fast _ _ _ _ _ _ _ Hload e1 vs rows).
  - unfold correlate. by rewrite (sbind_step _ _ _ _ _ Eq1), (sbind_step get_heap _ _ _ _ eq_refl), for_owners_map.
Qed.

(** The targets of a many-to-one load. *)
Lemma loadManyToOne_spec ownerMap targetMap rel fks tys table owners e :
  resolveProperties ownerMap (rel_ForeignKeyProperties rel) (navigation_target ownerMap rel) = Ok fks ->
  loadable targetMap fks (KeyProperties targetMap) tys table owners e ->
  exists e' (pick : Ptr -> option Ptr),
    loadManyToOne d TD read_rows ownerMap targetMap rel owners None e = (e', Ok tt) /\
    kept (rel_PropertyName rel) owners e e' /\
    (forall o o', owner_tuple fks (le_heap e) o = owner_tuple fks (le_heap e) o' -> pick o = pick o') /\
    forall o, o ∈ owners ->
      in_navs (deref (le_heap e') o) !! rel_PropertyName rel = Some (NavSingle (pick o)) /\
      points fks (KeyProperties targetMap) table e e' o (pick o).
Proof.
  intros Hfk Hload. destruct (load_query _ _ _ _ _ _ _ Hload (navigation_target ownerMap rel +:+ " (many-to-one)"))
    as (e1 & vs & rows & Eq1 & Hheld & Hrows & _).
  set (keys := KeyProperties targetMap) in *. set (name := rel_PropertyName rel).
  assert (Hrun : exists act, loadManyToOne d TD read_rows ownerMap targetMap rel owners None e = forS act owners e1 /\
            forall o e2, o ∈ owners -> kept name owners e1 e2 ->
              act o e2 = setPointerField o name (pick_one fks keys e e1 vs o) e2).
  { unfold loadManyToOne. fold keys name. enter_loader Hfk Hload.
    destruct (integer_pair fks keys) as [[l r]|] eqn:Hpair; cbn [is_none].
    - destruct (fast_path _ _ _ _ _ _ _ Hload e1 vs rows Hheld Hrows l r Hpair) as (El & _ & Hl & _ & _ & Ho & _).
      rewrite (owners_integer l) by done. rewrite <- El, (sbind_step _ _ _ _ _ Eq1), (sbind_step get_heap _ _ _ _ eq_refl).
      rewrite for_owners_map. eexists. split; [done|]. intros o e2 Hin _. cbn beta. f_equal.
      by apply (pick_one_fast _ _ _ _ _ _ _ Hload e1 vs rows).
    - unfold correlate. rewrite (sbind_step _ _ _ _ _ Eq1), for_owners_map. eexists. split; [done|]. intros o e2 _.
      by apply (pick_one_slow _ _ _ _ _ _ _ Hload e1 vs rows). }
  destruct Hrun as (act & Hrun & Hact).
  destruct (pointers_attached _ _ _ _ _ _ _ Hload e1 vs rows Hheld Hrows name act Hact) as (e' & E' & K' & N').
  exists e', (pick_one fks keys e e1 vs). rewrite Hrun. split; [done|]. split; [done|].
  split; [|done]. intros o o' Ho. unfold pick_one. by rewrite Ho.
Qed.

(** ** One-to-one: a duplicate is refused *)

Lemma matches_distinct ps ts i : matches ps (distinctTuples ts) i = matches ps ts i.
Proof.
  apply eq_bool_prop_intro. rewrite !Is_true_true. unfold matches. rewrite !existsb_exists.
  destruct (distinctTuples_spec ts) as (_ & Hin & Hcover). split.
  - intros (t & Ht%list_elem_of_In & E). exists t. by split; [apply list_elem_of_In, Hin|].
  - intros (t & Ht%list_elem_of_In & E). destruct (Hcover _ t Ht E) as (u & Hu & E'). exists u.
    by split; [apply list_elem_of_In|].
Qed.

Lemma differ_sym t u : differ t u -> differ u t.
Proof.
  unfold differ. intros H. destruct (KeyTuple_Equal u t) eqn:E; [|done]. by rewrite (KeyTuple_Equal_sym _ _ E) in H.
Qed.

Lemma differ_perm l l' : l ≡ₚ l' -> StronglySorted differ l -> StronglySorted differ l'.
Proof.
  induction 1 as [|x l l' Hp IH|x y l|l1 l2 l3 _ IH1 _ IH2]; intros Hs; [done| | |auto].
  - inversion Hs as [|? ? Hs' Hf]; subst. constructor; [auto|]. by rewrite <- Hp.
  - inversion Hs as [|? ? Hs' Hf]; subst. inversion Hs' as [|? ? Hs2 Hf2]; subst.
    apply Forall_cons in Hf as [Hxy Hf]. constructor; [by constructor|]. constructor; [by apply differ_sym|done].
Qed.

Lemma refuse_duplicates_spec target seen ts :
  StronglySorted differ seen ->
  match refuse_duplicates target seen ts with
  | Ok _ => StronglySorted differ (seen ++ ts)
  | Fail e => e = NewError "REL-002" target /\ ~ StronglySorted differ (seen ++ ts)
  end.
Proof.
  revert seen. induction ts as [|t ts IH]; intros seen Hs; [by rewrite app_nil_r|]. cbn [refuse_duplicates].
  destruct (has_tuple seen t) eqn:E.
  - split; [done|]. apply has_tuple_spec in E as (u & Hu & E). intros Hall. clear Hs IH.
    induction seen as [|x seen IH]; [by apply not_elem_of_nil in Hu|]. cbn [app] in Hall.
    inversion Hall as [|? ? Hall' Hf]; subst. apply elem_of_cons in Hu as [->|Hu]; [|auto].
    apply Forall_app in Hf as [_ Hf]. apply Forall_cons in Hf as [Hf _]. unfold differ in Hf. congruence.
  - replace (seen ++ t :: ts) with ((seen ++ [t]) ++ ts) by by rewrite <- app_assoc.
    apply IH. destruct (distinctTuples_step seen [t] Hs) as (H & _). cbn [fold_left] in H. by rewrite E in H.
Qed.

(** The tuples of the related rows are pairwise different. *)
Definition one_each (right : list PropertyMap) (ts : list KeyTuple) (table : list Instance) : Prop :=
  StronglySorted differ (extractTuple right <$> List.filter (matches right ts) table).

Lemma one_each_read right ts table e e1 vs rows :
  holds e e1 vs rows -> rows ≡ₚ List.filter (matches right (distinctTuples ts)) table ->
  StronglySorted differ ((fun v => extractTuple right (deref (le_heap e1) v)) <$> vs) <-> one_each right ts table.
Proof.
  intros Hheld Hrows.
  assert (Hp : ((fun v => extractTuple right (deref (le_heap e1) v)) <$> vs)
               ≡ₚ (extractTuple right <$> List.filter (matches right ts) table)).
  { rewrite (list_fmap_compose (deref (le_heap e1)) (extractTuple right)), (loaded_deref e e1 vs rows Hheld), Hrows.
    erewrite List.filter_ext; [done|]. intros i. apply matches_distinct. }
  split; apply differ_perm; [done|by symmetry].
Qed.

Lemma loadOneToOne_spec ownerMap targetMap rel fks tys table owners e :
  resolveProperties targetMap (rel_ForeignKeyProperties rel) (navigation_target ownerMap rel) = Ok fks ->
  loadable targetMap (KeyProperties ownerMap) fks tys table owners e ->
  let ts := owner_tuples (KeyProperties ownerMap) (le_heap e) owners in
  exists e' result, loadOneToOne d TD read_rows ownerMap targetMap rel owners None e = (e', result) /\
  match result with
  | Fail err => err = NewError "REL-002" (navigation_target ownerMap rel) /\ ~ one_each fks ts table /\ grown e e'
  | Ok _ =>
      one_each fks ts table /\ kept (rel_PropertyName rel) owners e e' /\
      forall o, o ∈ owners -> exists target,
        in_navs (deref (le_heap e') o) !! rel_PropertyName rel = Some (NavSingle target) /\
        points (KeyProperties ownerMap) fks table e e' o target
  end.
Proof.
  intros Hfk Hload ts. set (target := navigation_target ownerMap rel) in *.
  destruct (load_query _ _ _ _ _ _ _ Hload (target +:+ " (one-to-one)")) as (e1 & vs & rows & Eq1 & Hheld & Hrows & _).
  set (keys := KeyProperties ownerMap) in *. set (name := rel_PropertyName rel).
  assert (Hrun : exists act,
    loadOneToOne d TD read_rows ownerMap targetMap rel owners None e
    = match refuseDuplicateOneToOne (le_heap e1) vs fks target with
      | Ok _ => forS act owners e1
      | Fail err => (e1, Fail err)
      end /\
    forall o e2, o ∈ owners -> kept name owners e1 e2 ->
      act o e2 = setPointerField o name (pick_one keys fks e e1 vs o) e2).
  { unfold loadOneToOne. fold target keys name. enter_loader Hfk Hload.
    destruct (integer_pair keys fks) as [[l r]|] eqn:Hpair; cbn [is_none].
    - destruct (fast_path _ _ _ _ _ _ _ Hload e1 vs rows Hheld Hrows l r Hpair) as (El & Er & Hl & Hr & _ & Ho & Hv).
      rewrite (owners_integer l) by done. rewrite <- El, (sbind_step _ _ _ _ _ Eq1), (sbind_step get_heap _ _ _ _ eq_refl).
      pose proof (unique_by_key_spec r Hr (le_heap e1) vs Hv target) as Hu. rewrite <- Er in Hu.
      exists (fun o => setPointerField o name (readIntegerKey l (deref (le_heap e) o) ≫= fun k => first_by_key r (le_heap e1) vs !! k)).
      split.
      + destruct (unique_by_key r (le_heap e1) target ∅ false vs) as [byKey|err];
          destruct (refuseDuplicateOneToOne (le_heap e1) vs fks target) as [[]|err']; try done; [|by subst].
        rewrite (sbind_step (slift (Ok byKey)) _ _ _ _ eq_refl), for_owners_map. by rewrite Hu.
      + intros o e2 Hin _. f_equal. by apply (pick_one_fast _ _ _ _ _ _ _ Hload e1 vs rows).
    - unfold correlate. rewrite (sbind_step _ _ _ _ _ Eq1), (sbind_step get_heap _ _ _ _ eq_refl), for_owners_map.
      eexists. split; [by destruct (refuseDuplicateOneToOne (le_heap e1) vs fks target) as [[]|]|].
      intros o e2 _. by apply (pick_one_slow _ _ _ _ _ _ _ Hload e1 vs rows). }
  destruct Hrun as (act & Hrun & Hact). rewrite Hrun.
  pose proof (refuse_duplicates_spec target [] ((fun v => extractTuple fks (deref (le_heap e1) v)) <$> vs)
    (SSorted_nil _)) as Hdup. cbn [app] in Hdup. fold (refuseDuplicateOneToOne (le_heap e1) vs fks target) in Hdup.
  pose proof (one_each_read fks ts table e e1 vs rows Hheld Hrows) as Hone.
  destruct (refuseDuplicateOneToOne (le_heap e1) vs fks target) as [[]|err].
  - destruct (pointers_attached _ _ _ _ _ _ _ Hload e1 vs rows Hheld Hrows name act Hact) as (e' & E' & K' & N').
    exists e', (Ok tt). split; [done|]. split; [by apply Hone|]. split; [done|]. intros o Ho. eexists. by apply N'.
  - exists e1, (Fail err). split; [done|]. destruct Hdup as [-> Hdup]. split; [done|]. split; [by rewrite <- Hone|apply Hheld].
Qed.

End Loads.

(** * Theorems *)

(** C3. A one-to-many load attaches exactly the related rows.  In an untracked
    session, over a database
    that runs the statements it is sent as SQL reads them and compares key
    columns as the program compares keys, loading a collection for any number of
    owners, in as many chunks as that takes, succeeds and leaves in each owner a
    collection whose elements are the table's rows that carry the owner's key -
    each row once, none missing - in the order of the targets' keys; of the
    objects in memory before, only the owners change, in that one navigation. *)
Theorem one_to_many_attaches_the_related (d : Dialect) `{!ReadingLaws d} TD stored {V : Type} compare
    (read : Bound -> option V) row {D : Type} read_rows load pointer_elem ownerType navigation ownerMap
    targetMap rel fks tys table owners (e : @load_env D) :
  (forall v ct label b, ToParameter TD v ct label = Ok b -> b = stored v ct) ->
  load ownerType = Ok ownerMap -> relationshipNamed ownerMap navigation = Some rel ->
  rel_Kind rel = RelationshipOneToMany -> load (rel_TargetType rel) = Ok targetMap ->
  resolveProperties targetMap (rel_ForeignKeyProperties rel) (navigation_target ownerMap rel) = Ok fks ->
  loadable d TD stored compare read row read_rows targetMap (KeyProperties ownerMap) fks tys table owners e ->
  exists e', LoadEach load d TD read_rows pointer_elem ownerType owners navigation e = (e', Ok tt) /\
    kept (rel_PropertyName rel) owners e e' /\
    forall o, o ∈ owners -> exists elements,
      in_navs (deref (le_heap e') o) !! rel_PropertyName rel = Some (NavMany (Some (Some <$> elements))) /\
      (deref (le_heap e') <$> elements) ≡ₚ List.filter (related (KeyProperties ownerMap) fks (le_heap e) o) table /\
      StronglySorted (key_le (KeyProperties targetMap)) (deref (le_heap e') <$> elements).
Proof.
  intros Hst H1 H2 H3 H4 Hfk Hload. unfold LoadEach, loadEachOf.
  rewrite H1, (sbind_step (slift (Ok ownerMap)) _ _ _ _ eq_refl), H2, H4,
    (sbind_step (slift (Ok targetMap)) _ _ _ _ eq_refl), H3.
  by eapply loadOneToMany_spec.
Qed.

(** C4. A many-to-one load points every owner at its target.  Untracked, and under
    the same reading of the database, each owner's navigation is a row of the table that
    its foreign key names, or nil when the key is null or no row has it; owners
    with one foreign key share one object. *)
Theorem many_to_one_points_at_the_target (d : Dialect) `{!ReadingLaws d} TD stored {V : Type} compare
    (read : Bound -> option V) row {D : Type} read_rows load pointer_elem ownerType navigation ownerMap
    targetMap rel fks tys table owners (e : @load_env D) :
  (forall v ct label b, ToParameter TD v ct label = Ok b -> b = stored v ct) ->
  load ownerType = Ok ownerMap -> relationshipNamed ownerMap navigation = Some rel ->
  rel_Kind rel = RelationshipManyToOne -> load (rel_TargetType rel) = Ok targetMap ->
  resolveProperties ownerMap (rel_ForeignKeyProperties rel) (navigation_target ownerMap rel) = Ok fks ->
  loadable d TD stored compare read row read_rows targetMap fks (KeyProperties targetMap) tys table owners e ->
  exists e' (pick : Ptr -> option Ptr),
    LoadEach load d TD read_rows pointer_elem ownerType owners navigation e = (e', Ok tt) /\
    kept (rel_PropertyName rel) owners e e' /\
    (forall o o', owner_tuple fks (le_heap e) o = owner_tuple fks (le_heap e) o' -> pick o = pick o') /\
    forall o, o ∈ owners ->
      in_navs (deref (le_heap e') o) !! rel_PropertyName rel = Some (NavSingle (pick o)) /\
      points fks (KeyProperties targetMap) table e e' o (pick o).
Proof.
  intros Hst H1 H2 H3 H4 Hfk Hload. unfold LoadEach, loadEachOf.
  rewrite H1, (sbind_step (slift (Ok ownerMap)) _ _ _ _ eq_refl), H2, H4,
    (sbind_step (slift (Ok targetMap)) _ _ _ _ eq_refl), H3.
  by eapply loadManyToOne_spec.
Qed.

(** C5. A one-to-one load refuses a duplicate and nothing else.  Under the same
    conditions, it fails with REL-002, every object that was there unchanged, exactly when two of the rows
    related to the owners carry one foreign key; otherwise every owner points at
    its row, or at nil when it has none. *)
Theorem one_to_one_refuses_exactly_duplicates (d : Dialect) `{!ReadingLaws d} TD stored {V : Type} compare
    (read : Bound -> option V) row {D : Type} read_rows load pointer_elem ownerType navigation ownerMap
    targetMap rel fks tys table owners (e : @load_env D) :
  (forall v ct label b, ToParameter TD v ct label = Ok b -> b = stored v ct) ->
  load ownerType = Ok ownerMap -> relationshipNamed ownerMap navigation = Some rel ->
  rel_Kind rel = RelationshipOneToOne -> load (rel_TargetType rel) = Ok targetMap ->
  resolveProperties targetMap (rel_ForeignKeyProperties rel) (navigation_target ownerMap rel) = Ok fks ->
  loadable d TD stored compare read row read_rows targetMap (KeyProperties ownerMap) fks tys table owners e ->
  let ts := owner_tuples (KeyProperties ownerMap) (le_heap e) owners in
  exists e' result, LoadEach load d TD read_rows pointer_elem ownerType owners navigation e = (e', result) /\
  match result with
  | Fail err => err = NewError "REL-002" (navigation_target ownerMap rel) /\ ~ one_each fks ts table /\ grown e e'
  | Ok _ =>
      one_each fks ts table /\ kept (rel_PropertyName rel) owners e e' /\
      forall o, o ∈ owners -> exists target,
        in_navs (deref (le_heap e') o) !! rel_PropertyName rel = Some (NavSingle target) /\
        points (KeyProperties ownerMap) fks table e e' o target
  end.
Proof.
  intros Hst H1 H2 H3 H4 Hfk Hload ts. unfold LoadEach, loadEachOf.
  rewrite H1, (sbind_step (slift (Ok ownerMap)) _ _ _ _ eq_refl), H2, H4,
    (sbind_step (slift (Ok targetMap)) _ _ _ _ eq_refl), H3.
  by eapply loadOneToOne_spec.
Qed.

(** ** A library on SQL Server: authors, and books that may name one *)

Definition author_type : GoType := mkGoType "library" "Author".
Definition book_type : GoType := mkGoType "library" "Book".
Definition integer_property (name column : string) (nullable key : bool) : PropertyMap :=
  mkProperty None name column (mkField nullable (TyInt KInt64)) TypeInt64 nullable key false false AuditNone false
    None 0 0 0 None None.
Definition library_navigation (name : string) (kind : RelationshipKind) (target : GoType) : RelationshipMap :=
  mkRelationship name kind target ["AuthorID"] None [] [] 0%Z.
Definition author_map : EntityMap :=
  NewEntityMap author_type RelationTable "authors" "" "" [integer_property "ID" "id" false true] KeyNatural []
    [library_navigation "Books" RelationshipOneToMany book_type;
     library_navigation "Debut" RelationshipOneToOne book_type].
Definition book_map : EntityMap :=
  NewEntityMap book_type RelationTable "books" "" ""
    [integer_property "ID" "id" false true; integer_property "AuthorID" "author_id" true false] KeyNatural []
    [library_navigation "Author" RelationshipManyToOne author_type].
Definition library_load (t : GoType) : result EntityMap :=
  if decide (t = author_type) then Ok author_map else Ok book_map.

Definition author (id : Z) : Instance := mkInstance author_type {["ID" := VInt KInt64 id]} ∅ ∅.
Definition book (id : Z) (by_ : Value) : Instance :=
  mkInstance book_type {["ID" := VInt KInt64 id; "AuthorID" := by_]} ∅ ∅.

Definition library_row (i : Instance) (column : string) : option Z :=
  let name := if decide (column = "[id]") then "ID" else if decide (column = "[author_id]") then "AuthorID" else "" in
  match in_fields i !! name with Some (VInt _ z) => Some z | _ => None end.
Definition library_db (table : list Instance) (_ : EntityMap) (sql : string) (args : list NamedArg) (_ : string)
    (db : unit) : unit * result (list Instance * option Error) :=
  (db, Ok (List.filter (keeps compare_integers read_integer library_row sql args) table, None)).

Lemma filter_in_order {A} (R : A -> A -> Prop) f (l : list A) :
  StronglySorted R l -> StronglySorted R (List.filter f l).
Proof.
  induction 1 as [|x l Hs IH Hx]; [constructor|]. cbn [List.filter]. destruct (f x); [|done]. constructor; [done|].
  rewrite Forall_forall in Hx. apply Forall_forall. intros y [Hy _]%list_elem_of_In%List.filter_In.
  by apply Hx, list_elem_of_In.
Qed.

Lemma library_runs m table :
  StronglySorted (key_le (KeyProperties m)) table ->
  runs SqlServer.dialect echo_value compare_integers read_integer library_row (library_db table) m table tt.
Proof.
  intros Hs predicate order cache cache' q sql args ast _ _. eexists. split; [reflexivity|]. split; [done|].
  intros _ _. by apply filter_in_order.
Qed.

Lemma library_stored v ct label b : ToParameter echo_value v ct label = Ok b -> b = stored_plain v ct.
Proof. unfold ToParameter, echo_value. simpl. intros [= <-]. by destruct v. Qed.

Lemma library_name n : n ∈ ["authors"; "books"; "id"; "author_id"] -> sql_name n.
Proof.
  intros Hn. repeat (apply elem_of_cons in Hn as [->|Hn];
    [split; [split; [by eexists _, _|by repeat constructor]|];
     intros H; by repeat (apply elem_of_cons in H as [H|H]; [discriminate|]); apply not_elem_of_nil in H|]).
  by apply not_elem_of_nil in Hn.
Qed.

Lemma library_mapped m : m = author_map \/ m = book_map -> mapped m.
Proof.
  intros [-> | ->]; (split; [split; [apply library_name; set_solver|repeat constructor; apply library_name; set_solver]
    | | |done]).
  - apply NoDup_singleton.
  - intros p Hp. exact Hp.
  - repeat constructor; [|by intros []%not_elem_of_nil]. intros [H|[]%not_elem_of_nil]%elem_of_cons. discriminate.
  - intros p [->|[]%not_elem_of_nil]%elem_of_cons. by left.
Qed.

Definition library_books : list Instance :=
  [book 10 (VInt KInt64 1); book 11 VNil; book 12 (VInt KInt64 2); book 13 (VInt KInt64 1)].
Definition library_env (objects : list Instance) : @load_env unit :=
  mkLoadEnv (mkSession (list_to_map (zip (seq 0 (length objects)) objects)) None) ∅ tt.

Abbreviation library_loadable :=
  (loadable SqlServer.dialect echo_value stored_plain compare_integers read_integer library_row).
Definition two_authors : @load_env unit := library_env [author 1; author 2].
Definition four_books : @load_env unit := library_env library_books.

Definition author_key : PropertyMap := integer_property "AuthorID" "author_id" true false.

Ltac each_member H := repeat (apply elem_of_cons in H as [->|H]; [|]); [..|by apply not_elem_of_nil in H].

Lemma library_keys m table :
  KeyProperties m = [integer_property "ID" "id" false true] ->
  Forall (fun i => exists z, field_value (integer_property "ID" "id" false true) i = VInt KInt64 z /\ in_bounds KInt64 z = true) table ->
  key_table m [KTInt KInt64] table.
Proof.
  intros Hk Ht. split; rewrite Hk; (eapply Forall_impl; [exact Ht|]); intros i (z & Hz & Hb); cbn beta.
  - unfold extractTuple, Get. cbn [fmap list_fmap Owner integer_property]. rewrite Hz. by repeat constructor.
  - constructor; [|constructor]. right. by rewrite Hz.
Qed.

Lemma authors_loadable :
  library_loadable (library_db library_books) book_map [integer_property "ID" "id" false true] [author_key]
    [KTInt KInt64] library_books [0; 1] two_authors.
Proof.
  assert (Hts : owner_tuples [integer_property "ID" "id" false true] (le_heap two_authors) [0; 1]
                = [[VInt KInt64 1]; [VInt KInt64 2]]) by (vm_compute; reflexivity).
  split; try done.
  - intros o Ho. each_member Ho; by eexists.
  - apply library_mapped. by right.
  - intros p Hp. each_member Hp. right. left.
  - rewrite Hts. repeat constructor; intros ct label; by eexists.
  - intros i t Hi Ht. rewrite Hts in Ht. each_member Ht; each_member Hi; by repeat constructor; vm_compute.
  - apply library_keys; [done|]. repeat constructor; by eexists.
  - intros o p Ho Hp. each_member Hp. each_member Ho; by right.
  - intros i p Hi Hp. each_member Hp. each_member Hi; first [by right|by left].
  - apply library_runs. repeat constructor; by eexists.
Qed.

Lemma books_loadable :
  library_loadable (library_db [author 1; author 2]) author_map [author_key] [integer_property "ID" "id" false true]
    [KTInt KInt64] [author 1; author 2] [0; 1; 2; 3] four_books.
Proof.
  assert (Hts : owner_tuples [author_key] (le_heap four_books) [0; 1; 2; 3]
                = [[VInt KInt64 1]; [VInt KInt64 2]; [VInt KInt64 1]]) by (vm_compute; reflexivity).
  split; try done.
  - intros o Ho. each_member Ho; by eexists.
  - apply library_mapped. by left.
  - rewrite Hts. repeat constructor; intros ct label; by eexists.
  - intros i t Hi Ht. rewrite Hts in Ht. each_member Ht; each_member Hi; by repeat constructor; vm_compute.
  - apply library_keys; [done|]. repeat constructor; by eexists.
  - intros o p Ho Hp. each_member Hp. each_member Ho; first [by right|by left].
  - intros i p Hi Hp. each_member Hp. each_member Hi; by right.
  - apply library_runs. repeat constructor; by eexists.
Qed.

(** Author 1 gets books 10 and 13, in that order. *)
Lemma one_to_many_attaches_the_related_witness :
  exists e', LoadEach library_load SqlServer.dialect echo_value (library_db library_books) (fun _ _ => true)
    author_type [0; 1] "Books" two_authors = (e', Ok tt) /\
  exists elements, in_navs (deref (le_heap e') 0) !! "Books" = Some (NavMany (Some (Some <$> elements))) /\
    (deref (le_heap e') <$> elements) ≡ₚ [book 10 (VInt KInt64 1); book 13 (VInt KInt64 1)].
Proof.
  destruct (one_to_many_attaches_the_related SqlServer.dialect echo_value stored_plain compare_integers read_integer
    library_row (library_db library_books) library_load (fun _ _ => true) author_type "Books" author_map book_map
    (library_navigation "Books" RelationshipOneToMany book_type) [author_key] [KTInt KInt64] library_books [0; 1] two_authors
    library_stored eq_refl eq_refl eq_refl eq_refl eq_refl authors_loadable) as (e' & H & _ & Hall).
  exists e'. split; [exact H|]. destruct (Hall 0 ltac:(left)) as (els & Hn & Hp & _). exists els. split; [exact Hn|].
  etransitivity; [exact Hp|]. vm_compute. reflexivity.
Defined.

(** Books 10 and 13 share their author; book 11 has none. *)
Lemma many_to_one_points_at_the_target_witness :
  exists e' (pick : Ptr -> option Ptr),
    LoadEach library_load SqlServer.dialect echo_value (library_db [author 1; author 2]) (fun _ _ => true)
      book_type [0; 1; 2; 3] "Author" four_books = (e', Ok tt) /\
    pick 0 = pick 3 /\ in_navs (deref (le_heap e') 0) !! "Author" = Some (NavSingle (pick 0)).
Proof.
  destruct (many_to_one_points_at_the_target SqlServer.dialect echo_value stored_plain compare_integers read_integer
    library_row (library_db [author 1; author 2]) library_load (fun _ _ => true) book_type "Author" book_map author_map
    (library_navigation "Author" RelationshipManyToOne author_type) [author_key] [KTInt KInt64] [author 1; author 2]
    [0; 1; 2; 3] four_books library_stored eq_refl eq_refl eq_refl eq_refl eq_refl books_loadable)
    as (e' & pick & H & _ & Hshare & Hall).
  exists e', pick. split; [exact H|]. split; [apply Hshare; vm_compute; reflexivity|]. apply (Hall 0 ltac:(left)).
Defined.

(** Author 1 has two books, so no book is its debut. *)
Lemma one_to_one_refuses_exactly_duplicates_witness :
  exists e', LoadEach library_load SqlServer.dialect echo_value (library_db library_books) (fun _ _ => true)
    author_type [0; 1] "Debut" two_authors = (e', Fail (NewError "REL-002" "Author.Debut")).
Proof.
  destruct (one_to_one_refuses_exactly_duplicates SqlServer.dialect echo_value stored_plain compare_integers read_integer
    library_row (library_db library_books) library_load (fun _ _ => true) author_type "Debut" author_map book_map
    (library_navigation "Debut" RelationshipOneToOne book_type) [author_key] [KTInt KInt64] library_books [0; 1] two_authors
    library_stored eq_refl eq_refl eq_refl eq_refl eq_refl authors_loadable) as (e' & [[]|err] & H & Hr).
  - exfalso. destruct Hr as (Hone & _). vm_compute in Hone. inversion Hone as [|? ? _ Hf]; subst.
    apply Forall_cons in Hf as [_ Hf]. by apply Forall_cons in Hf as [Hf _].
  - exists e'. destruct Hr as [-> _]. exact H.
Defined.
