(* ===== verification/JoinLaws.v ===== *)
(** What join-mode eager loading promises ([JoinMode]): a request is refused
    exactly when its shape or its mapping is wrong, and its joins always render;
    the rows are folded into the roots in their first-appearance order, each with
    every one of its targets once. *)
From S2P Require Import Prelude GoStrings Values Core Params Dialect Tracker Instances Session.
From S2P Require Import Query Render RenderLaws Loading LoadingLaws JoinMode Loaded.
From S2P Require SqlServer.

(** * Requests *)

(** A map keyed by its own properties, as every assembled map is. *)
Definition well_keyed (m : EntityMap) : Prop := forall p, p ∈ KeyProperties m -> p ∈ Properties m.

(** The navigation's mapping holds together, and its target has a key. *)
Definition sound_navigation (m : EntityMap) (nav : joinNavigation) : Prop :=
  keyless (jn_targetMap nav) = false /\
  ~ Exists broken (shape m (jn_targetMap nav) (default m (fst <$> jn_link nav)) (jn_relationship nav)).

Definition sound_request (m : EntityMap) (navs : list joinNavigation) : Prop :=
  keyless m = false /\ Forall (sound_navigation m) navs.

(** ** The pairs *)

Lemma key_pairs_total fkMap q pair fks keys :
  length fks = length keys ->
  match key_pairs fkMap q pair fks keys with
  | Ok pairs => Forall (fun fk => Property fkMap fk <> None) fks /\ pairs = zip_with pair fks keys
  | Fail e => e = NewError "REL-003" q /\ Exists (fun fk => Property fkMap fk = None) fks
  end.
Proof.
  revert keys. induction fks as [|fk fks IH]; intros [|key keys] Hl; try done.
  cbn [key_pairs]. destruct (Property fkMap fk) as [p|] eqn:E; [|split; [done|by apply Exists_cons; left]].
  injection Hl as Hl. specialize (IH keys Hl). destruct (key_pairs fkMap q pair fks keys) as [pairs|e]; cbn [mbind result_bind].
  - destruct IH as [H ->]. split; [|done]. constructor; [by rewrite E|done].
  - destruct IH as [-> H]. split; [done|by apply Exists_cons; right].
Qed.

Lemma checked_pairs_exact fkMap q pair fks keys :
  match checked_pairs fkMap q pair fks keys with
  | Ok pairs => ~ broken (fkMap, fks, length keys) /\ pairs = zip_with pair fks keys /\
      Forall (fun fk => Property fkMap fk <> None) fks
  | Fail e => e = NewError "REL-003" q /\ broken (fkMap, fks, length keys)
  end.
Proof.
  unfold checked_pairs, broken. destruct (decide (length fks = length keys)) as [Hl|Hl]; [|split; [done|by right]].
  pose proof (key_pairs_total fkMap q pair fks keys Hl) as H.
  destruct (key_pairs fkMap q pair fks keys) as [pairs|e].
  - destruct H as [H ->]. split; [|done]. intros [Hb|Hb]; [|done]. apply Exists_exists in Hb as (fk & Hin & Hn).
    rewrite Forall_forall in H. by apply (H fk).
  - destruct H as [-> H]. split; [done|by left].
Qed.

(** ** Names that resolve *)

Definition resolves (m : EntityMap) (name : string) : Prop := forall q, exists p, Resolve m name q = Ok p.

Lemma resolves_property m name : Property m name <> None -> resolves m name.
Proof.
  intros H q. unfold Resolve. unfold Property in H. destruct (List.find _ _) as [p|]; [by exists p|done].
Qed.

Lemma resolves_member m p : p ∈ Properties m -> resolves m (PropertyName p).
Proof.
  intros Hp. apply resolves_property. unfold Property. intros H.
  assert (Hn : bool_decide (PropertyName p = PropertyName p) = false)
    by exact (List.find_none _ _ H p (proj1 (list_elem_of_In _ _) Hp)).
  by rewrite bool_decide_true in Hn.
Qed.

(** A join whose names resolve in its two maps. *)
Definition join_resolves (parent : EntityMap) (j : SelectJoin) : Prop :=
  Forall (fun pair => resolves parent (ParentProperty pair) /\ resolves (sj_Target j) (TargetProperty pair)) (sj_On j).

Lemma pairs_resolve (fkMap keyMap : EntityMap) fks :
  well_keyed keyMap -> Forall (fun fk => Property fkMap fk <> None) fks ->
  Forall (fun pair => resolves fkMap (ParentProperty pair) /\ resolves keyMap (TargetProperty pair))
    (zip_with parent_fk fks (KeyProperties keyMap)) /\
  Forall (fun pair => resolves keyMap (ParentProperty pair) /\ resolves fkMap (TargetProperty pair))
    (zip_with target_fk fks (KeyProperties keyMap)).
Proof.
  unfold well_keyed. generalize (KeyProperties keyMap). intros keys Hk Hf. revert keys Hk.
  induction Hf as [|fk fks Hfk Hf IH]; intros [|key keys] Hk; [by split; constructor..|].
  destruct (IH keys) as [I1 I2]; [intros p Hp; apply Hk; by right|].
  pose proof (resolves_property _ _ Hfk). pose proof (resolves_member keyMap key (Hk key (list_elem_of_here _ _))).
  split; by constructor.
Qed.

(** ** One navigation *)

(** The aliases a navigation brings. *)
Definition navigation_aliases (nav : joinNavigation) : list string :=
  match jn_link nav with Some (_, link) => [link; jn_alias nav] | None => [jn_alias nav] end.

(** A navigation as it is resolved: a link exactly for a many-to-many. *)
Definition linked (nav : joinNavigation) : Prop :=
  is_Some (jn_link nav) <-> rel_Kind (jn_relationship nav) = RelationshipManyToMany.

Definition nav_keyed (nav : joinNavigation) : Prop :=
  well_keyed (jn_targetMap nav) /\ forall link alias, jn_link nav = Some (link, alias) -> well_keyed link.

(** The joins of a navigation hang off the root, or off its own link before them. *)
Inductive joins_of (m : EntityMap) : list SelectJoin -> Prop :=
  | joins_direct target alias pairs :
      join_resolves m (mkSelectJoin target alias "" pairs true) ->
      joins_of m [mkSelectJoin target alias "" pairs true]
  | joins_linked link linkAlias linkPairs target alias pairs :
      join_resolves m (mkSelectJoin link linkAlias "" linkPairs false) -> linkAlias <> "" ->
      join_resolves link (mkSelectJoin target alias linkAlias pairs true) ->
      joins_of m [mkSelectJoin link linkAlias "" linkPairs false; mkSelectJoin target alias linkAlias pairs true].

Lemma navigation_joins_exact m q nav :
  well_keyed m -> linked nav -> nav_keyed nav -> (forall link alias, jn_link nav = Some (link, alias) -> alias <> "") ->
  match navigation_joins m q nav with
  | Ok joins => sound_navigation m nav /\ joins_of m joins /\ (sj_Alias <$> joins) = navigation_aliases nav
  | Fail e => e = NewError "REL-003" q /\ ~ sound_navigation m nav
  end.
Proof.
  intros Hm Hl [Ht Hk] Ha. unfold navigation_joins, sound_navigation, navigation_aliases, linked in *.
  destruct (keyless (jn_targetMap nav)); [split; [done|by intros [? _]]|]. unfold shape.
  destruct (rel_Kind (jn_relationship nav)) eqn:Ek.
  all: try (assert (Hnone : jn_link nav = None) by (apply eq_None_not_Some; intros HS; by apply Hl in HS)).
  1: unfold fkOnOwnerPairs; pose proof (checked_pairs_exact m q parent_fk (rel_ForeignKeyProperties (jn_relationship nav))
       (KeyProperties (jn_targetMap nav))) as H.
  2, 4: unfold fkOnTargetPairs; pose proof (checked_pairs_exact (jn_targetMap nav) q target_fk
       (rel_ForeignKeyProperties (jn_relationship nav)) (KeyProperties m)) as H.
  1, 2, 3: destruct (checked_pairs _ _ _ _ _) as [pairs|e]; cbn [mbind result_bind]; rewrite ?Hnone;
    [destruct H as (Hb & -> & Hf); split; [split; [done|by intros [?|?%Exists_nil]%Exists_cons]|];
       split; [apply joins_direct; first
         [exact (proj1 (pairs_resolve m (jn_targetMap nav) _ Ht Hf))|exact (proj2 (pairs_resolve (jn_targetMap nav) m _ Hm Hf))]|done]
    |destruct H as (-> & Hb); split; [done|intros [_ Hs]; apply Hs; by apply Exists_cons; left]].
  destruct (jn_link nav) as [[link alias]|] eqn:El; [|by destruct (proj2 Hl eq_refl)].
  cbn [fmap option_fmap option_map fst default from_option id].
  unfold linkPairsToOwner, linkPairsToTarget.
  pose proof (checked_pairs_exact link q target_fk (rel_LinkForeignKeysToOwner (jn_relationship nav)) (KeyProperties m)) as H1.
  pose proof (checked_pairs_exact link q parent_fk (rel_LinkForeignKeysToTarget (jn_relationship nav))
    (KeyProperties (jn_targetMap nav))) as H2.
  destruct (checked_pairs _ _ target_fk _ _) as [p1|e]; cbn [mbind result_bind].
  2: { destruct H1 as (-> & Hb). split; [done|]. intros [_ Hs]. apply Hs. by apply Exists_cons; left. }
  destruct (checked_pairs _ _ parent_fk _ _) as [p2|e]; cbn [mbind result_bind].
  2: { destruct H2 as (-> & Hb). split; [done|]. intros [_ Hs]. apply Hs. apply Exists_cons; right. by apply Exists_cons; left. }
  destruct H1 as (B1 & -> & F1), H2 as (B2 & -> & F2).
  split; [split; [done|by intros [?|[?|?%Exists_nil]%Exists_cons]%Exists_cons]|]. split; [|done].
  apply joins_linked; [exact (proj2 (pairs_resolve link m _ Hm F1))|by eapply Ha|exact (proj1 (pairs_resolve link (jn_targetMap nav) _ Ht F2))].
Qed.

(** ** The navigations of a request *)

Lemma join_alias_inj n k : join_alias n = join_alias k -> n = k.
Proof. intros [= H%Itoa_inj]. lia. Qed.
Lemma link_alias_inj n k : link_alias n = link_alias k -> n = k.
Proof. intros [= H%Itoa_inj]. lia. Qed.

(** Every map the loader gives is keyed by its own properties. *)
Definition keyed_loader (load : GoType -> result EntityMap) : Prop :=
  forall t m, load t = Ok m -> well_keyed m.

Definition aliases_of (navs : list joinNavigation) : list string := concat (navigation_aliases <$> navs).

Lemma resolve_navigations_sound load m j l includes navs :
  keyed_loader load -> resolve_navigations load m j l includes = Ok navs ->
  Forall (fun nav => linked nav /\ nav_keyed nav /\ forall link alias, jn_link nav = Some (link, alias) -> alias <> "") navs /\
  Forall (fun a => (exists n, j <= n /\ a = join_alias n) \/ (exists n, l <= n /\ a = link_alias n)) (aliases_of navs) /\
  NoDup (aliases_of navs).
Proof.
  intros Hload. revert j l navs. induction includes as [|name includes IH]; intros j l navs H; cbn [resolve_navigations] in H.
  { apply Ok_inj in H as <-. split_and!; constructor. }
  destruct (relationshipNamed m name) as [rel|]; [|done].
  apply bind_Ok in H as (target & Ht & H).
  assert (Hweak : forall j' l' rest, j <= j' -> l <= l' ->
    Forall (fun a => (exists n, j' <= n /\ a = join_alias n) \/ (exists n, l' <= n /\ a = link_alias n)) rest ->
    Forall (fun a => (exists n, j <= n /\ a = join_alias n) \/ (exists n, l <= n /\ a = link_alias n)) rest).
  { intros j' l' rest Hj Hl Hr. eapply Forall_impl; [exact Hr|]. intros a [(n & ? & ->)|(n & ? & ->)];
      [left|right]; exists n; (split; [lia|done]). }
  destruct (decide (rel_Kind rel = RelationshipManyToMany)) as [Hk|Hk].
  - apply bind_Ok in H as (link & Hl & H). apply bind_Ok in H as (rest & Hr & H). apply Ok_inj in H as <-.
    destruct (IH _ _ _ Hr) as (I1 & I2 & I3). split_and!.
    + constructor; [|done]. split; [by split; [|by eexists]|]. split; [|by intros ?? [= <- <-]].
      split; [by eapply Hload|]. intros ?? [= <- <-]. by eapply Hload.
    + change (aliases_of (?nav :: rest)) with (navigation_aliases nav ++ aliases_of rest). cbn [navigation_aliases jn_link app].
      constructor; [right; by exists l|]. constructor; [left; by exists j|]. by eapply Hweak; [..|exact I2]; lia.
    + change (aliases_of (?nav :: rest)) with (navigation_aliases nav ++ aliases_of rest). cbn [navigation_aliases jn_link jn_alias app].
      rewrite Forall_forall in I2. apply NoDup_cons. split; [|apply NoDup_cons; split; [|done]].
      * intros [E|Hin]%elem_of_cons; [discriminate|]. destruct (I2 _ Hin) as [(n & _ & E)|(n & Hn & E)]; [discriminate|].
        apply link_alias_inj in E. lia.
      * intros Hin. destruct (I2 _ Hin) as [(n & Hn & E)|(n & _ & E)]; [|discriminate]. apply join_alias_inj in E. lia.
  - apply bind_Ok in H as (rest & Hr & H). apply Ok_inj in H as <-.
    destruct (IH _ _ _ Hr) as (I1 & I2 & I3). split_and!.
    + constructor; [|done]. split; [split; [by intros []|by intros]|]. split; [|done].
      split; [by eapply Hload|]. done.
    + change (aliases_of (?nav :: rest)) with (navigation_aliases nav ++ aliases_of rest). cbn [navigation_aliases jn_link app].
      constructor; [left; by exists j|]. by eapply Hweak; [..|exact I2]; lia.
    + change (aliases_of (?nav :: rest)) with (navigation_aliases nav ++ aliases_of rest). cbn [navigation_aliases jn_link jn_alias app].
      rewrite Forall_forall in I2. apply NoDup_cons. split; [|done].
      intros Hin. destruct (I2 _ Hin) as [(n & Hn & E)|(n & _ & E)]; [|discriminate]. apply join_alias_inj in E. lia.
Qed.

(** ** Rendering the joins *)

Lemma aliasMaps_lookup joins a m :
  NoDup (sj_Alias <$> joins) -> (a, m) ∈ ((fun j => (sj_Alias j, sj_Target j)) <$> joins) -> aliasMaps joins !! a = Some m.
Proof.
  unfold aliasMaps.
  assert (H : forall acc : gmap string EntityMap, NoDup (sj_Alias <$> joins) ->
    ((a, m) ∈ ((fun j => (sj_Alias j, sj_Target j)) <$> joins) \/ (a ∉ (sj_Alias <$> joins) /\ acc !! a = Some m)) ->
    fold_left (fun maps j => <[sj_Alias j := sj_Target j]> maps) joins acc !! a = Some m); [|intros Hn Hin; apply H; [done|by left]].
  induction joins as [|j joins IH]; intros acc Hn Hin.
  { destruct Hin as [[]%not_elem_of_nil|[_ H]]. exact H. }
  cbn [fold_left]. rewrite fmap_cons in Hn. apply NoDup_cons in Hn as [Hj Hn]. apply IH; [done|].
  destruct Hin as [Hin|[Hnot Hacc]].
  - rewrite fmap_cons in Hin. apply elem_of_cons in Hin as [[= -> ->]|Hin]; [|by left].
    right. by rewrite lookup_insert_eq.
  - right. rewrite fmap_cons in Hnot. apply not_elem_of_cons in Hnot as [Hne Hnot]. split; [done|].
    by rewrite lookup_insert_ne.
Qed.

Lemma join_pairs_render d parentAlias parent q j :
  join_resolves parent j -> exists pairs, mapR (join_pair d parentAlias parent q j) (sj_On j) = Ok pairs.
Proof.
  unfold join_resolves. rewrite Forall_forall. intros H. apply mapR_total. intros pair Hp.
  destruct (H pair Hp) as [H1 H2]. destruct (H1 q) as [p E1], (H2 q) as [t E2].
  unfold join_pair. rewrite E1, E2. by eexists.
Qed.

Lemma joins_render d m q joinss :
  Forall (joins_of m) joinss -> NoDup (sj_Alias <$> concat joinss) ->
  exists clauses, renderJoins d m (concat joinss) q = Ok clauses.
Proof.
  intros H Hn. unfold renderJoins.
  assert (Hall : forall j, j ∈ concat joinss -> exists clause, join_clause d m (concat joinss) q j = Ok clause).
  { intros j Hj. apply elem_of_concat in Hj as (js & Hjs & Hj). rewrite Forall_forall in H.
    assert (Hdirect : forall target alias pairs project,
      join_resolves m (mkSelectJoin target alias "" pairs project) ->
      exists clause, join_clause d m (concat joinss) q (mkSelectJoin target alias "" pairs project) = Ok clause).
    { intros target alias pairs project Hr. unfold join_clause, join_parent. cbn [sj_ParentAlias].
      rewrite decide_True by done. cbn [mbind result_bind].
      destruct (join_pairs_render d "t" m q _ Hr) as [ps Hps]. rewrite Hps. by eexists. }
    destruct (H js Hjs) as [target alias pairs Hr|link linkAlias linkPairs target alias pairs H1 Ha H2].
    - apply list_elem_of_singleton in Hj as ->. by apply Hdirect.
    - apply elem_of_cons in Hj as [->|Hj]; [by apply Hdirect|]. apply list_elem_of_singleton in Hj as ->.
      unfold join_clause, join_parent. cbn [sj_ParentAlias]. rewrite decide_False by done.
      rewrite (aliasMaps_lookup _ linkAlias link) by
        (done || (apply list_elem_of_fmap; exists (mkSelectJoin link linkAlias "" linkPairs false); split; [done|];
                  apply elem_of_concat; eexists; split; [exact Hjs|by left])).
      cbn [mbind result_bind]. destruct (join_pairs_render d linkAlias link q _ H2) as [ps Hps]. rewrite Hps. by eexists. }
  exact (mapR_total _ _ Hall).
Qed.

(** ** The theorem *)

Definition paged_collection (navs : list joinNavigation) (ast : SelectAst) : bool :=
  (0 <? collectionCount navs) && negb (bool_decide (sa_Limit ast = None) && bool_decide (sa_Offset ast = None)).

(** The code spec/loading.md ("Refusal precedence") asks for when a request is
    refused: several collections, then a page over one, then the mappings. *)
Definition spec_refusal (navs : list joinNavigation) (ast : SelectAst) : string :=
  if 1 <? collectionCount navs then "REL-006" else if paged_collection navs ast then "REL-005" else "REL-003".

(** C7. A join-mode request is refused exactly when it must be, and an accepted
    one renders.  With the navigations resolved, building the joins fails exactly
    when two collections are included, when a collection is paged, or when the
    root or a target has no key or a mapping does not hold together in the sense
    the other modes refuse too; the error carries the code of the documented
    precedence - REL-006, then REL-005, then REL-003 - for every request but a
    page over several collections, which [page_refused_before_the_count] is
    about.  Otherwise the joins have distinct aliases and the renderer resolves
    every name in them on every dialect, so QRY-006 stays for the caller's own
    criteria. *)
Theorem join_request_exact (d : Dialect) load m includes navs ast q :
  keyed_loader load -> well_keyed m -> resolveJoinNavigations load m includes = Ok navs ->
  match buildJoins m navs ast q with
  | Ok joins =>
      sound_request m navs /\ collectionCount navs <= 1 /\ paged_collection navs ast = false /\
      NoDup (sj_Alias <$> joins) /\ forall name, exists clauses, renderJoins d m joins name = Ok clauses
  | Fail e =>
      (1 < collectionCount navs \/ paged_collection navs ast = true \/ ~ sound_request m navs) /\
      exists code, e = NewError code q /\
        (code = spec_refusal navs ast \/ 1 < collectionCount navs /\ paged_collection navs ast = true)
  end.
Proof.
  intros Hload Hm Hnavs. destruct (resolve_navigations_sound load m 0 0 includes navs Hload Hnavs) as (H1 & _ & H3).
  unfold buildJoins, spec_refusal, sound_request. fold (paged_collection navs ast).
  destruct (Nat.ltb_spec 1 (collectionCount navs)) as [Hc|Hc], (paged_collection navs ast) eqn:Ep;
    [split; [by left|by eexists; split; [done|right]]
    |split; [by left|by eexists; split; [|left]]
    |split; [by right; left|by eexists; split; [|left]]|].
  destruct (keyless m) eqn:Ek; [split; [right; right; by intros [? _]|by eexists; split; [|left]]|].
  assert (Hall : match mapR (navigation_joins m q) navs with
    | Ok joinss => Forall (sound_navigation m) navs /\ Forall (joins_of m) joinss /\
        (sj_Alias <$> concat joinss) = aliases_of navs
    | Fail e => e = NewError "REL-003" q /\ ~ Forall (sound_navigation m) navs
    end).
  { clear -H1 Hm. induction H1 as [|nav navs (Hl & Hk & Ha) H IH]; [by split_and!|]. cbn [mapR].
    pose proof (navigation_joins_exact m q nav Hm Hl Hk Ha) as Hn.
    destruct (navigation_joins m q nav) as [js|e]; cbn [mbind result_bind].
    2: { destruct Hn as [-> Hn]. split; [done|]. by intros [? _]%Forall_cons. }
    destruct (mapR (navigation_joins m q) navs) as [jss|e]; cbn [mbind result_bind].
    2: { destruct IH as [-> IH]. split; [done|]. by intros [_ ?]%Forall_cons. }
    destruct Hn as (N1 & N2 & N3), IH as (I1 & I2 & I3). split; [by constructor|]. split; [by constructor|].
    cbn [concat]. rewrite fmap_app, N3, I3. done. }
  destruct (mapR (navigation_joins m q) navs) as [joinss|e]; cbn [mbind result_bind].
  - destruct Hall as (A1 & A2 & A3). rewrite A3. split_and!; [done|done|lia|done|done|].
    intros name. apply joins_render; [done|by rewrite A3].
  - destruct Hall as [-> Hall]. split; [right; right; by intros [_ ?]|by eexists; split; [|left]].
Qed.

(** Of a page over several collections the program names the page: REL-005,
    where the documented precedence names the collections. *)
Lemma page_refused_before_the_count m navs ast q :
  1 < collectionCount navs -> paged_collection navs ast = true ->
  buildJoins m navs ast q = Fail (NewError "REL-005" q) /\ spec_refusal navs ast = "REL-006".
Proof.
  intros Hc Hp. unfold buildJoins, spec_refusal. fold (paged_collection navs ast). rewrite Hp.
  split; [done|]. by destruct (Nat.ltb_spec 1 (collectionCount navs)); [|lia].
Qed.

Lemma library_keyed : keyed_loader library_load.
Proof.
  intros t m H p Hp. unfold library_load in H. destruct (decide (t = author_type)); apply Ok_inj in H as <-.
  - exact Hp.
  - apply list_elem_of_singleton in Hp as ->. left.
Qed.

(** One collection joins; with a page it is refused. *)
Lemma join_request_exact_witness :
  exists navs joins clauses,
    resolveJoinNavigations library_load author_map ["Books"; "Debut"] = Ok navs /\
    buildJoins author_map navs (mkSelect author_map [] [] None None None []) "Author criteria" = Ok joins /\
    renderJoins SqlServer.dialect author_map joins "Author criteria" = Ok clauses /\
    buildJoins author_map navs (mkSelect author_map [] [] (Some 10%Z) None None []) "Author criteria"
    = Fail (NewError "REL-005" "Author criteria").
Proof.
  destruct (resolveJoinNavigations library_load author_map ["Books"; "Debut"]) as [navs|] eqn:En; [|done].
  assert (Hkey : well_keyed author_map) by (intros p Hp; exact Hp).
  pose proof (join_request_exact SqlServer.dialect library_load author_map ["Books"; "Debut"] navs
    (mkSelect author_map [] [] None None None []) "Author criteria" library_keyed Hkey En) as H.
  vm_compute in En. injection En as <-. vm_compute buildJoins in H. destruct H as (_ & _ & _ & _ & H).
  destruct (H "Author criteria") as [clauses Hc]. eexists _, _, clauses. split; [reflexivity|].
  split; [vm_compute; reflexivity|]. split; [exact Hc|]. vm_compute. reflexivity.
Defined.
