(* ===== verification/ScheduleLaws.v ===== *)
(** What the unit of work's schedule keeps (the theorems of [UnitOfWork]):
    cancelling is the least set its links close, [Persist] schedules exactly the
    new instances its cascades reach, the walks terminate, and every operation
    keeps the schedule well formed. *)
From S2P Require Import Prelude GoStrings Values Core Tracker Instances Session UnitOfWork.

(** * The schedule invariant *)

(** The lists are in schedule order, the indexes are the lists by instance, and
    no instance is in both. *)
Record uow_wf (u : unitOfWork) : Prop := {
  uo_inserts : StronglySorted lt (uw_inserts u);
  uo_bound : Forall (fun id => id <= uw_counter u) (uw_inserts u);
  uo_object : forall id, id ∈ uw_inserts u -> exists o,
    uw_objects u !! id = Some o /\ si_order o = id /\ uw_insertOf u !! si_ptr o = Some id;
  uo_insertOf : forall p id, uw_insertOf u !! p = Some id ->
    id ∈ uw_inserts u /\ exists o, uw_objects u !! id = Some o /\ si_ptr o = p;
  uo_removes : StronglySorted lt (sr_order <$> uw_removes u);
  uo_rbound : Forall (fun r => sr_order r <= uw_counter u) (uw_removes u);
  uo_removeOf : forall p r, uw_removeOf u !! p = Some r <-> r ∈ uw_removes u /\ sr_ptr r = p;
  uo_disjoint : forall p, uw_insertOf u !! p = None \/ uw_removeOf u !! p = None }.

(** Something asked for each scheduled insert: its caller, or an owner. *)
Definition supported (o : scheduledInsert) : Prop := si_direct o = true \/ si_links o <> [].
Definition all_supported (u : unitOfWork) : Prop :=
  forall id o, id ∈ uw_inserts u -> uw_objects u !! id = Some o -> supported o.

Definition uow_ok (u : unitOfWork) : Prop := uow_wf u /\ all_supported u.

Lemma empty_wf objects n : uow_ok (mkUow [] ∅ objects [] ∅ n).
Proof.
  split; [|by intros id o []%not_elem_of_nil]. split; cbn.
  - constructor.
  - constructor.
  - by intros id []%not_elem_of_nil.
  - intros p id. by rewrite lookup_empty.
  - constructor.
  - constructor.
  - intros p r. rewrite lookup_empty. split; [done|]. by intros [[]%not_elem_of_nil _].
  - intros p. rewrite lookup_empty. by left.
Qed.

Lemma newUnitOfWork_ok : uow_ok newUnitOfWork.
Proof. apply empty_wf. Qed.

Lemma clear_ok u : uow_ok (clear u).
Proof. apply empty_wf. Qed.

Lemma sorted_lt_NoDup (l : list nat) : StronglySorted lt l -> NoDup l.
Proof.
  induction 1 as [|x l _ IH Hf]; constructor; [|done]. intros Hin.
  rewrite Forall_forall in Hf. specialize (Hf x Hin). lia.
Qed.

Lemma sorted_filter {A} (R : relation A) (f : A -> bool) l :
  StronglySorted R l -> StronglySorted R (List.filter f l).
Proof.
  induction 1 as [|x l _ IH Hf]; simpl; [constructor|]. destruct (f x); [|done]. constructor; [done|].
  rewrite Forall_forall in *. intros y Hy. apply Hf. rewrite list_elem_of_In in *.
  by apply filter_In in Hy as [? _].
Qed.

Lemma sorted_snoc (l : list nat) n :
  StronglySorted lt l -> Forall (fun x => x < n) l -> StronglySorted lt (l ++ [n]).
Proof.
  induction 1 as [|x l _ IH Hf]; intros Hn; simpl; [repeat constructor|].
  apply Forall_cons in Hn as [Hx Hn]. constructor; [by apply IH|].
  apply Forall_app. split; [done|]. by constructor.
Qed.

Lemma elem_filter {A} (f : A -> bool) l x : x ∈ List.filter f l <-> x ∈ l /\ f x = true.
Proof. rewrite !list_elem_of_In. apply filter_In. Qed.

(** * Cancelling *)

Section Cancel.
Context (u : unitOfWork) (initial : list nat).

(** What cancelling means: the initial inserts, and every insert the caller did
    not persist all of whose owners are cancelled. *)
Inductive cancelled_by : nat -> Prop :=
  | cancelled_initial id : id ∈ initial -> cancelled_by id
  | cancelled_cascade id o :
      id ∈ uw_inserts u -> uw_objects u !! id = Some o -> si_direct o = false -> si_links o <> [] ->
      (forall l, l ∈ si_links o -> is_Some (uw_insertOf u !! cl_owner l)) ->
      (forall l owner, l ∈ si_links o -> uw_insertOf u !! cl_owner l = Some owner ->
         cancelled_by owner) ->
      cancelled_by id.

(** An object in the course of cancelling: the links to some cancelled owners
    are gone, and an insert left without any is cancelled. *)
Definition trimmed (cancelled : gset nat) (o0 o : scheduledInsert) : Prop :=
  exists gone, gone ⊆ cancelled /\ o = set_links o0 (kept_links u gone (si_links o0)).

Definition untrimmed_support (o0 o : scheduledInsert) : Prop :=
  si_direct o0 = true \/ si_links o0 = [] \/ si_links o <> [].

Record cancel_inv (objects : gmap nat scheduledInsert) (cancelled : gset nat) : Prop := {
  ci_sound : forall id, id ∈ cancelled -> cancelled_by id;
  ci_initial : forall id, id ∈ initial -> id ∈ cancelled;
  ci_objects : forall id o0, uw_objects u !! id = Some o0 ->
    exists o, objects !! id = Some o /\ trimmed cancelled o0 o /\
      (id ∉ cancelled -> untrimmed_support o0 o);
  ci_none : forall id, uw_objects u !! id = None -> objects !! id = None }.

Lemma kept_links_kept c1 c2 links :
  c1 ⊆ c2 -> kept_links u c2 (kept_links u c1 links) = kept_links u c2 links.
Proof.
  intros Hsub. unfold kept_links. induction links as [|l links IH]; [done|]. simpl.
  unfold owner_cancelled in *. destruct (uw_insertOf u !! cl_owner l) as [owner|] eqn:E; simpl.
  - destruct (decide (owner ∈ c1)) as [H1|H1].
    + rewrite !bool_decide_true by set_solver. simpl. exact IH.
    + rewrite (bool_decide_false (owner ∈ c1)) by done. simpl. rewrite E.
      destruct (bool_decide (owner ∈ c2)); simpl; by rewrite IH.
  - rewrite E. simpl. by rewrite IH.
Qed.

Lemma kept_links_elem c links l :
  l ∈ kept_links u c links <-> l ∈ links /\ owner_cancelled u c l = false.
Proof. unfold kept_links. by rewrite elem_filter, negb_true_iff. Qed.

Lemma filter_length_le {A} (f : A -> bool) l : length (List.filter f l) <= length l.
Proof. induction l as [|x l IH]; simpl; [done|]. destruct (f x); simpl; lia. Qed.

Lemma kept_links_all c links :
  length (kept_links u c links) = length links -> kept_links u c links = links.
Proof.
  unfold kept_links. induction links as [|l links IH]; simpl; [done|].
  pose proof (filter_length_le (fun l => negb (owner_cancelled u c l)) links).
  destruct (negb (owner_cancelled u c l)); simpl; intros H1; [|lia]. f_equal. apply IH. lia.
Qed.

Lemma trimmed_kept cancelled o0 o :
  trimmed cancelled o0 o -> kept_links u cancelled (si_links o) = kept_links u cancelled (si_links o0).
Proof. intros (gone & Hsub & ->). simpl. by apply kept_links_kept. Qed.

Lemma trimmed_trim cancelled o0 o :
  trimmed cancelled o0 o ->
  set_links o (kept_links u cancelled (si_links o)) = set_links o0 (kept_links u cancelled (si_links o0)).
Proof. intros Ht. rewrite (trimmed_kept _ _ _ Ht). by destruct Ht as (gone & _ & ->). Qed.

Lemma trimmed_mono c1 c2 o0 o : c1 ⊆ c2 -> trimmed c1 o0 o -> trimmed c2 o0 o.
Proof. intros Hsub (gone & Hg & ->). exists gone. split; [set_solver|done]. Qed.

(** One turn of the inner loop. *)
Lemma cancel_one_inv objects cancelled changed id :
  cancel_inv objects cancelled -> id ∈ uw_inserts u ->
  let '(objects', cancelled', changed') := cancel_one u (objects, cancelled, changed) id in
  cancel_inv objects' cancelled' /\ cancelled ⊆ cancelled' /\
  (changed' = changed /\ cancelled' = cancelled \/
   changed' = true /\ id ∉ cancelled /\ cancelled' = {[id]} ∪ cancelled) /\
  (id ∉ cancelled' -> forall o0, uw_objects u !! id = Some o0 ->
     objects' !! id = Some (set_links o0 (kept_links u cancelled (si_links o0)))) /\
  (forall id', id' <> id -> objects' !! id' = objects !! id').
Proof.
  intros [Hs Hi Ho Hn] Hid. unfold cancel_one. case_decide as Hc.
  { split; [by split|]. split; [done|]. split; [by left|]. done. }
  destruct (objects !! id) as [o|] eqn:Eo.
  2:{ split; [by split|]. split; [done|]. split; [by left|]. split; [|done]. intros _ o0 H0.
      destruct (Ho id o0 H0) as (o & ? & _). congruence. }
  destruct (uw_objects u !! id) as [o0|] eqn:E0; [|by rewrite (Hn id E0) in Eo].
  destruct (Ho id o0 E0) as (o' & Eo' & Ht & Hsup). rewrite Eo in Eo'. injection Eo' as <-.
  specialize (Hsup Hc). set (kept := kept_links u cancelled (si_links o)).
  assert (Hkept : kept = kept_links u cancelled (si_links o0)) by (by apply trimmed_kept).
  assert (Hnew : set_links o kept = set_links o0 (kept_links u cancelled (si_links o0)))
    by (by apply trimmed_trim).
  assert (Hdir : si_direct o = si_direct o0) by (by destruct Ht as (gone & _ & ->)).
  assert (Hobj : forall c', cancelled ⊆ c' -> (untrimmed_support o0 (set_links o kept) \/ id ∈ c') ->
    forall id' x0, uw_objects u !! id' = Some x0 ->
    exists x, <[id := set_links o kept]> objects !! id' = Some x /\ trimmed c' x0 x /\
      (id' ∉ c' -> untrimmed_support x0 x)).
  { intros c' Hsub Hsup' id' x0 Hx0. destruct (decide (id' = id)) as [->|Hne].
    - exists (set_links o kept). rewrite lookup_insert_eq. split; [done|].
      rewrite E0 in Hx0. injection Hx0 as <-. split; [|by intros ?; destruct Hsup'].
      rewrite Hnew. exists cancelled. by split.
    - rewrite lookup_insert_ne by done. destruct (Ho id' x0 Hx0) as (x & Hx & Htx & Hsx).
      exists x. split; [done|]. split; [by eapply trimmed_mono|]. intros Hni. apply Hsx. set_solver. }
  assert (Hnone : forall id', uw_objects u !! id' = None -> <[id := set_links o kept]> objects !! id' = None).
  { intros id' Hx. rewrite lookup_insert_ne by congruence. by apply Hn. }
  destruct (negb (length kept =? length (si_links o)) && negb (si_direct o) && (length kept =? 0)) eqn:Eb.
  - apply andb_true_iff in Eb as [Eb E3]. apply andb_true_iff in Eb as [E1 E2].
    apply Nat.eqb_eq, length_zero_iff_nil in E3. rewrite negb_true_iff in E1, E2.
    assert (Hne : si_links o0 <> []).
    { intros E. apply Nat.eqb_neq in E1. apply E1. destruct Ht as (gone & _ & ->). simpl in *.
      rewrite E in *. simpl in *. by rewrite E3. }
    split; [|split; [set_solver|split; [right; by split|split; [set_solver|]]]].
    2:{ intros id' Hne'. by apply lookup_insert_ne. }
    split.
    + intros x [->%elem_of_singleton|Hx]%elem_of_union; [|auto].
      assert (Hall : forall l, l ∈ si_links o0 -> owner_cancelled u cancelled l = true).
      { intros l Hl. destruct (owner_cancelled u cancelled l) eqn:Eoc; [done|]. exfalso.
        apply (not_elem_of_nil l). rewrite <- E3, Hkept. by apply kept_links_elem. }
      unfold owner_cancelled in Hall.
      eapply cancelled_cascade; [done|done|congruence|done| |].
      * intros l Hl. specialize (Hall l Hl). destruct (uw_insertOf u !! cl_owner l); [by eexists|done].
      * intros l w Hl Hw. specialize (Hall l Hl). rewrite Hw in Hall.
        apply bool_decide_eq_true in Hall. auto.
    + intros x Hx. apply elem_of_union. right. auto.
    + apply Hobj; [set_solver|]. right. set_solver.
    + exact Hnone.
  - split; [|split; [done|split; [by left|]]].
    + split; [done|done| |exact Hnone]. apply Hobj; [done|]. left.
      unfold untrimmed_support in *. destruct Hsup as [?|[?|Hne]]; [by left|by right; left|].
      destruct (si_direct o0) eqn:Ed; [by left|]. right. right. simpl. intros Hk.
      rewrite Hk, Hdir in Eb. simpl in Eb. rewrite andb_true_r, andb_true_r in Eb.
      apply negb_false_iff in Eb. destruct (si_links o); [done|discriminate].
    + split; [|intros id' Hne'; by apply lookup_insert_ne].
      intros _ x0 Hx0. rewrite lookup_insert_eq, Hnew. congruence.
Qed.

Definition uncancelled (cancelled : gset nat) : list nat :=
  List.filter (fun id => negb (bool_decide (id ∈ cancelled))) (uw_inserts u).

(** [id] is done with: cancelled, or trimmed to the cancelled set. *)
Definition settled (objects : gmap nat scheduledInsert) (cancelled : gset nat) (id : nat) : Prop :=
  id ∉ cancelled -> forall o0, uw_objects u !! id = Some o0 ->
    objects !! id = Some (set_links o0 (kept_links u cancelled (si_links o0))).

Lemma uncancelled_mono c1 c2 :
  c1 ⊆ c2 -> length (uncancelled c2) <= length (uncancelled c1) /\
  ((exists id, id ∈ uw_inserts u /\ id ∉ c1 /\ id ∈ c2) -> length (uncancelled c2) < length (uncancelled c1)).
Proof.
  intros Hsub. unfold uncancelled. induction (uw_inserts u) as [|x l [IH1 IH2]]; simpl.
  - split; [done|]. by intros (id & []%not_elem_of_nil & _).
  - destruct (decide (x ∈ c1)) as [H1|H1].
    + rewrite !bool_decide_true by set_solver. simpl. split; [done|].
      intros (id & Hid & Hn1 & Hy2). apply IH2. exists id. set_solver.
    + rewrite (bool_decide_false (x ∈ c1)) by done. destruct (decide (x ∈ c2)) as [H2|H2].
      * rewrite bool_decide_true by done. simpl. split; lia.
      * rewrite bool_decide_false by done. simpl. split; [lia|]. intros (id & Hid & Hn1 & Hy2).
        apply -> Nat.succ_lt_mono. apply IH2. exists id. set_solver.
Qed.

(** One pass over the scheduled inserts. *)
Lemma cancel_pass ids objects cancelled changed :
  cancel_inv objects cancelled -> (forall id, id ∈ ids -> id ∈ uw_inserts u) ->
  let '(objects', cancelled', changed') := fold_left (cancel_one u) ids (objects, cancelled, changed) in
  cancel_inv objects' cancelled' /\ cancelled ⊆ cancelled' /\
  (changed' = false -> changed = false /\ cancelled' = cancelled /\
     forall id, id ∈ ids -> settled objects' cancelled' id) /\
  (changed = false -> changed' = true ->
     exists id, id ∈ uw_inserts u /\ id ∉ cancelled /\ id ∈ cancelled') /\
  (forall id, id ∉ ids -> objects' !! id = objects !! id).
Proof.
  revert objects cancelled changed. induction ids as [|x ids IH]; intros objects cancelled changed Hinv Hids.
  { simpl. split; [done|]. split; [done|]. split; [|split; [congruence|done]].
    intros ->. split; [done|]. split; [done|]. by intros id []%not_elem_of_nil. }
  cbn [fold_left]. pose proof (Hids x (list_elem_of_here _ _)) as Hx.
  pose proof (cancel_one_inv objects cancelled changed x Hinv Hx) as Hone.
  destruct (cancel_one u (objects, cancelled, changed) x) as [[o1 c1] ch1].
  destruct Hone as (Hinv1 & Hsub1 & Hch1 & Hset1 & Hframe1).
  pose proof (IH o1 c1 ch1 Hinv1 (fun id Hid => Hids id (list_elem_of_further _ _ _ Hid))) as Hrest.
  destruct (fold_left (cancel_one u) ids (o1, c1, ch1)) as [[o2 c2] ch2].
  destruct Hrest as (Hinv2 & Hsub2 & Hno2 & Hyes2 & Hframe2).
  split; [done|]. split; [set_solver|]. split; [|split].
  - intros Hf. destruct (Hno2 Hf) as (-> & -> & Hsettled).
    destruct Hch1 as [[<- ->]|[? _]]; [|done]. split; [done|]. split; [done|].
    intros id [->|Hid]%elem_of_cons; [|auto].
    destruct (decide (x ∈ ids)) as [|Hnx]; [auto|]. intros Hn o0 H0.
    rewrite Hframe2 by done. by apply Hset1.
  - intros -> Ht. destruct Hch1 as [[-> ->]|(-> & Hnx & ->)].
    + by apply Hyes2.
    + exists x. split; [done|]. split; [done|]. set_solver.
  - intros id [Hne Hni]%not_elem_of_cons. rewrite Hframe2, Hframe1 by done. done.
Qed.

Lemma cancel_loop_spec fuel objects cancelled :
  cancel_inv objects cancelled -> length (uncancelled cancelled) < fuel ->
  let '(objects', cancelled') := cancel_loop u fuel objects cancelled in
  cancel_inv objects' cancelled' /\ forall id, id ∈ uw_inserts u -> settled objects' cancelled' id.
Proof.
  revert objects cancelled. induction fuel as [|fuel IH]; intros objects cancelled Hinv Hf; [lia|].
  cbn [cancel_loop].
  pose proof (cancel_pass (uw_inserts u) objects cancelled false Hinv (fun _ H => H)) as Hpass.
  destruct (fold_left (cancel_one u) (uw_inserts u) (objects, cancelled, false)) as [[o1 c1] ch].
  destruct Hpass as (Hinv1 & Hsub & Hno & Hyes & _). destruct ch.
  - apply IH; [done|]. destruct (uncancelled_mono _ _ Hsub) as [_ Hlt].
    specialize (Hlt (Hyes eq_refl eq_refl)). lia.
  - split; [done|]. by apply Hno.
Qed.

(** An insert that is settled and not cancelled is not to be cancelled. *)
Lemma settled_complete objects cancelled :
  cancel_inv objects cancelled -> (forall id, id ∈ uw_inserts u -> settled objects cancelled id) ->
  forall id, cancelled_by id -> id ∈ cancelled.
Proof.
  intros [Hs Hi Ho Hn] Hset id H.
  induction H as [id Hid|id o Hid Hobj Hdir Hlinks Hsome Hown IH]; [auto|].
  destruct (decide (id ∈ cancelled)) as [|Hc]; [done|]. exfalso.
  destruct (Ho id o Hobj) as (x & Hx & _ & Hsup). specialize (Hset id Hid Hc o Hobj).
  rewrite Hset in Hx. injection Hx as <-. destruct (Hsup Hc) as [?|[?|Hne]]; [congruence|done|].
  simpl in Hne. apply Hne. destruct (kept_links u cancelled (si_links o)) as [|l ls] eqn:Ek; [done|].
  assert (Hl : l ∈ kept_links u cancelled (si_links o)) by (rewrite Ek; left).
  apply kept_links_elem in Hl as [Hl Hoc]. destruct (Hsome l Hl) as [w Hw].
  unfold owner_cancelled in Hoc. rewrite Hw in Hoc. apply bool_decide_eq_false in Hoc.
  by destruct Hoc; eapply IH.
Qed.

Lemma kept_links_empty links : kept_links u ∅ links = links.
Proof.
  induction links as [|l links IH]; [done|]. unfold kept_links in *. cbn [List.filter].
  unfold owner_cancelled at 1. rewrite IH. by destruct (uw_insertOf u !! cl_owner l).
Qed.

Lemma initial_cancel_inv : cancel_inv (uw_objects u) (list_to_set initial).
Proof.
  split.
  - intros id Hid%elem_of_list_to_set. by constructor.
  - intros id Hid. by apply elem_of_list_to_set.
  - intros id o0 H0. exists o0. split; [done|]. split.
    + exists ∅. split; [set_solver|]. rewrite kept_links_empty. by destruct o0.
    + intros _. destruct (si_links o0) eqn:E; [by right; left|]. right. right. by rewrite E.
  - done.
Qed.

(** Without initial inserts nothing is cancelled. *)
Lemma cancelled_by_nil id : initial = [] -> ~ cancelled_by id.
Proof.
  intros Hi H. induction H as [id Hid|id o Hid Hobj Hdir Hlinks Hsome Hown IH].
  - rewrite Hi in Hid. by apply not_elem_of_nil in Hid.
  - destruct (si_links o) as [|l links]; [done|]. destruct (Hsome l) as [w Hw]; [left|].
    by eapply IH; [left|].
Qed.

(** The cancelled set and the objects [cancel] ends with. *)
Lemma cancel_result :
  exists objects cancelled,
    cancel u initial
    = mkUow (uncancelled cancelled)
        (fold_left (forget_cancelled objects cancelled) (uw_inserts u) (uw_insertOf u))
        objects (uw_removes u) (uw_removeOf u) (uw_counter u) /\
    cancel_inv objects cancelled /\ (forall id, id ∈ uw_inserts u -> settled objects cancelled id) /\
    (forall id, id ∈ cancelled <-> cancelled_by id).
Proof.
  unfold cancel. pose proof initial_cancel_inv as Hinv.
  assert (H : exists objects cancelled,
    match initial with
    | [] => (uw_objects u, ∅)
    | _ => cancel_loop u (S (length (uw_inserts u))) (uw_objects u) (list_to_set initial)
    end = (objects, cancelled) /\
    cancel_inv objects cancelled /\ (forall id, id ∈ uw_inserts u -> settled objects cancelled id)).
  { destruct initial as [|i0 rest] eqn:Ei.
    - exists (uw_objects u), ∅. split; [done|]. split; [done|]. intros id Hid _ o0 H0.
      destruct (ci_objects _ _ Hinv id o0 H0) as (o & Ho & (gone & Hg & ->) & _).
      rewrite Ho. f_equal. f_equal. assert (gone = ∅) as -> by set_solver. done.
    - pose proof (cancel_loop_spec (S (length (uw_inserts u))) _ _ Hinv) as Hl.
      destruct (cancel_loop u _ _ _) as [o c]. exists o, c. split; [done|]. apply Hl.
      pose proof (filter_length_le (fun id => negb (bool_decide (id ∈ (list_to_set (i0 :: rest) : gset nat))))
        (uw_inserts u)). unfold uncancelled. lia. }
  destruct H as (objects & cancelled & -> & Hi & Hset). exists objects, cancelled.
  split; [done|]. split; [done|]. split; [done|]. intros id. split.
  - apply (ci_sound _ _ Hi).
  - by eapply settled_complete.
Qed.

Lemma forget_cancelled_sub objects cancelled ids insertOf p id :
  fold_left (forget_cancelled objects cancelled) ids insertOf !! p = Some id ->
  insertOf !! p = Some id.
Proof.
  revert insertOf. induction ids as [|x ids IH]; intros insertOf; [done|]. cbn [fold_left].
  intros H%IH. unfold forget_cancelled in H. case_decide; [|done].
  destruct (objects !! x); [|done]. by apply lookup_delete_Some in H as [_ ?].
Qed.

Lemma forget_cancelled_gone objects cancelled ids insertOf id o :
  id ∈ ids -> id ∈ cancelled -> objects !! id = Some o ->
  fold_left (forget_cancelled objects cancelled) ids insertOf !! si_ptr o = None.
Proof.
  intros Hid Hc Ho. revert insertOf. induction ids as [|x ids IH]; intros insertOf;
    [by apply not_elem_of_nil in Hid|]. cbn [fold_left].
  apply elem_of_cons in Hid as [<-|Hid]; [|by apply IH].
  destruct (fold_left _ ids _ !! si_ptr o) as [i|] eqn:E; [|done].
  apply forget_cancelled_sub in E. unfold forget_cancelled in E.
  rewrite decide_True, Ho in E by done. by rewrite lookup_delete_eq in E.
Qed.

Lemma forget_cancelled_stays objects cancelled ids insertOf p id :
  insertOf !! p = Some id ->
  (forall x o, x ∈ ids -> x ∈ cancelled -> objects !! x = Some o -> si_ptr o <> p) ->
  fold_left (forget_cancelled objects cancelled) ids insertOf !! p = Some id.
Proof.
  revert insertOf. induction ids as [|x ids IH]; intros insertOf Hp Hno; [done|]. cbn [fold_left].
  apply IH; [|intros y o Hy; apply Hno; by right]. unfold forget_cancelled.
  case_decide as Hc; [|done]. destruct (objects !! x) as [o|] eqn:Eo; [|done].
  rewrite lookup_delete_ne; [done|]. apply (Hno x); [left|done|done].
Qed.

(** ** What [cancel] does to a well-formed schedule *)

Lemma trimmed_fields cancelled o0 o :
  trimmed cancelled o0 o -> si_ptr o = si_ptr o0 /\ si_order o = si_order o0 /\ si_direct o = si_direct o0.
Proof. by intros (gone & _ & ->). Qed.

Lemma cancel_ok : uow_ok u -> uow_ok (cancel u initial).
Proof.
  intros [Hwf Hsup]. destruct cancel_result as (objects & cancelled & -> & Hinv & Hset & _).
  assert (Hun : forall id, id ∈ uncancelled cancelled <-> id ∈ uw_inserts u /\ id ∉ cancelled).
  { intros id. unfold uncancelled. by rewrite elem_filter, negb_true_iff, bool_decide_eq_false. }
  assert (Hsame : forall id o0, uw_objects u !! id = Some o0 -> exists o, objects !! id = Some o /\
            si_ptr o = si_ptr o0 /\ si_order o = si_order o0).
  { intros id o0 H0. destruct (ci_objects _ _ Hinv id o0 H0) as (o & Ho & Ht & _).
    apply trimmed_fields in Ht as (? & ? & _). by exists o. }
  assert (Hof : forall p id, fold_left (forget_cancelled objects cancelled) (uw_inserts u) (uw_insertOf u) !! p
                 = Some id -> uw_insertOf u !! p = Some id /\ id ∉ cancelled).
  { intros p id H. pose proof (forget_cancelled_sub _ _ _ _ _ _ H) as H1. split; [done|]. intros Hc.
    destruct (uo_insertOf u Hwf p id H1) as (Hid & o0 & H0 & <-).
    destruct (Hsame id o0 H0) as (o & Ho & Hp & _). rewrite <- Hp in H.
    by rewrite (forget_cancelled_gone _ _ _ _ id o Hid Hc Ho) in H. }
  split; [split; cbn|].
  - apply sorted_filter, Hwf.
  - pose proof (uo_bound u Hwf) as Hb. rewrite Forall_forall in *. intros id [Hid _]%Hun. auto.
  - intros id [Hid Hc]%Hun. destruct (uo_object u Hwf id Hid) as (o0 & H0 & Hord & Hof0).
    destruct (Hsame id o0 H0) as (o & Ho & Hp & Ho'). exists o. rewrite Hp, Ho'.
    split; [done|]. split; [done|]. apply forget_cancelled_stays; [done|].
    intros x ox Hx Hxc Hox Hpx. destruct (uo_object u Hwf x Hx) as (x0 & Hx0 & _ & Hofx).
    destruct (Hsame x x0 Hx0) as (ox' & Hox' & Hpx' & _). rewrite Hox in Hox'. injection Hox' as <-.
    rewrite <- Hpx', Hpx, Hof0 in Hofx. injection Hofx as ->. done.
  - intros p id [H Hc]%Hof. destruct (uo_insertOf u Hwf p id H) as (Hid & o0 & H0 & <-).
    split; [by apply Hun|]. destruct (Hsame id o0 H0) as (o & Ho & Hp & _). by exists o.
  - apply Hwf.
  - apply Hwf.
  - apply Hwf.
  - intros p. destruct (uo_disjoint u Hwf p) as [Hn|]; [|by right]. left.
    destruct (fold_left _ _ _ !! p) as [id|] eqn:E; [|done]. apply Hof in E as [E _]. congruence.
  - intros id o [Hid Hc]%Hun Ho. destruct (uo_object u Hwf id Hid) as (o0 & H0 & _ & _).
    destruct (ci_objects _ _ Hinv id o0 H0) as (o' & Ho' & Ht & Hs). cbn in Ho.
    rewrite Ho in Ho'. injection Ho' as <-. apply trimmed_fields in Ht as (_ & _ & Hd).
    unfold supported. rewrite Hd. destruct (Hs Hc) as [?|[Hn|?]]; [by left| |by right].
    destruct (Hsup id o0 Hid H0) as [?|?]; [by left|done].
Qed.

End Cancel.

(** C39. Cancelling scheduled inserts cancels the least set that contains them and
    every insert nobody persisted directly all of whose cascading owners are
    cancelled - whatever order the inserts are in, the passes reach it.  The
    others stay, in schedule order, each with exactly its links to owners that
    stay; scheduled removals are untouched. *)
Theorem cancel_least (u : unitOfWork) (initial : list nat) :
  (exists keep, uw_inserts (cancel u initial) = List.filter keep (uw_inserts u)) /\
  (forall id, id ∈ uw_inserts (cancel u initial) <->
     id ∈ uw_inserts u /\ ~ cancelled_by u initial id) /\
  (forall id o, id ∈ uw_inserts (cancel u initial) -> uw_objects u !! id = Some o ->
     exists keep, uw_objects (cancel u initial) !! id = Some (set_links o (List.filter keep (si_links o))) /\
       forall l, keep l = true <->
         ~ exists owner, uw_insertOf u !! cl_owner l = Some owner /\ cancelled_by u initial owner) /\
  uw_removes (cancel u initial) = uw_removes u.
Proof.
  destruct (cancel_result u initial) as (objects & cancelled & -> & Hinv & Hset & Hiff).
  unfold uncancelled. cbn. split; [by eexists|].
  assert (Hun : forall id, id ∈ List.filter (fun id => negb (bool_decide (id ∈ cancelled))) (uw_inserts u)
            <-> id ∈ uw_inserts u /\ ~ cancelled_by u initial id).
  { intros id. by rewrite elem_filter, negb_true_iff, bool_decide_eq_false, Hiff. }
  split; [exact Hun|]. split; [|done]. intros id o [Hid Hc]%Hun Ho.
  exists (fun l => negb (owner_cancelled u cancelled l)). split.
  - apply Hset; [done| |done]. by rewrite Hiff.
  - intros l. unfold owner_cancelled. rewrite negb_true_iff.
    destruct (uw_insertOf u !! cl_owner l) as [w|]; [|naive_solver].
    rewrite bool_decide_eq_false, Hiff. naive_solver.
Qed.
