(* ===== verification/Cascades.v ===== *)
(** The cascading walks of [Persist] and [Remove] (the theorems of
    [UnitOfWork]): they terminate, they schedule exactly what their cascades
    reach, and they keep the schedule well formed. *)
From S2P Require Import Prelude GoStrings Values Core Tracker Instances Session UnitOfWork ScheduleLaws.

(** ** Unvisited instances: the measure of a walk *)

Lemma unvisited_le (D V V' : gset Ptr) : V ⊆ V' -> size (D ∖ V') <= size (D ∖ V).
Proof. intros H. apply subseteq_size. set_solver. Qed.

Lemma unvisited_lt (D V : gset Ptr) p :
  p ∈ D -> p ∉ V -> size (D ∖ ({[p]} ∪ V)) < size (D ∖ V).
Proof.
  intros Hd Hv. apply subset_size. split; [set_solver|]. intros H. specialize (H p). set_solver.
Qed.

Section Walks.
Context (load : GoType -> result EntityMap) (s : Session).

(** Every instance a navigation holds is allocated. *)
Definition closed_heap : Prop :=
  forall p r q, q ∈ (targets_of s p r).1 -> q ∈ dom (se_heap s).

(** ** [Persist] *)

Section Persist.
Context (u : unitOfWork).

Notation visit := (persist_visit load s u).
Notation enter := (persist_enter load s u).

Lemma note_visited p scheduled via plan : pp_visited (note p scheduled via plan) = pp_visited plan.
Proof. by destruct scheduled, via. Qed.

Lemma enter_mono V t p via : preserves (fun plan => V ⊆ pp_visited plan) (enter t p via).
Proof.
  apply preserves_get. intros plan HV. unfold sbind, slift.
  destruct (requireWritableKeyedType load t) as [m|e]; [|done].
  destruct (uw_removeOf u !! p); [done|].
  case_decide; unfold sbind, smodify, sret; cbn [fst]; rewrite note_visited; exact HV.
Qed.

Lemma visit_mono V fuel t p via : preserves (fun plan => V ⊆ pp_visited plan) (visit fuel t p via).
Proof.
  revert t p via. induction fuel as [|fuel IH]; intros t p via; [apply preserves_pure|].
  cbn [persist_visit]. apply preserves_get. intros plan HV. case_decide.
  { unfold smodify. cbn [fst]. by rewrite note_visited. }
  refine (sbind_preserves (fun plan => V ⊆ pp_visited plan) _ _ _ _ plan HV);
    [apply preserves_modify; set_solver|]. intros _.
  apply sbind_preserves; [apply enter_mono|]. intros m. apply forS_preserves. intros r _.
  destruct (Cascade_Has _ _); [|apply preserves_ret]. apply forS_preserves. intros q _. apply IH.
Qed.

Lemma persist_fuel f1 f2 t p via plan :
  closed_heap -> p ∈ dom (se_heap s) ->
  size (dom (se_heap s) ∖ pp_visited plan) < f1 -> size (dom (se_heap s) ∖ pp_visited plan) < f2 ->
  visit f1 t p via plan = visit f2 t p via plan.
Proof.
  intros Hclosed. revert f2 t p via plan.
  induction f1 as [|f1 IH]; intros f2 t p via plan Hp H1 H2; [lia|]. destruct f2 as [|f2]; [lia|].
  cbn [persist_visit]. unfold sbind at 1 4, sget. case_decide as Hv; [done|].
  unfold sbind at 1 3, smodify. pose proof (unvisited_lt _ _ _ Hp Hv) as Hlt.
  set (plan1 := pp_visit p plan). unfold sbind at 1 2.
  pose proof (enter_mono (pp_visited plan1) t p via plan1 (reflexivity _)) as Hm.
  destruct (enter t p via plan1) as [plan2 [m|e]]; [|done]. cbn in Hm.
  apply (forS_ext (fun plan => pp_visited plan1 ⊆ pp_visited plan)); [done| |].
  { intros r _. destruct (Cascade_Has _ _); [|apply preserves_ret].
    apply forS_preserves. intros q _. apply visit_mono. }
  intros r plan3 _ H3. destruct (Cascade_Has _ _); [|done].
  apply (forS_ext (fun plan => pp_visited plan1 ⊆ pp_visited plan)); [done| |].
  { intros q _. apply visit_mono. }
  intros q plan4 Hq H4. pose proof (unvisited_le (dom (se_heap s)) _ _ H4) as Hle. cbn in Hle.
  apply IH; [by eapply Hclosed|lia|lia].
Qed.

End Persist.

(** ** [Remove] *)

Section Remove.
Context (u : unitOfWork).

Notation visit := (remove_visit load s u).
Notation enter := (remove_enter load s u).

Lemma remove_enter_mono V t p : preserves (fun plan => V ⊆ rp_visited plan) (enter t p).
Proof.
  intros plan HV. unfold remove_enter. destruct (uw_insertOf u !! p); [done|].
  destruct (uw_removeOf u !! p); [done|]. unfold sbind, slift.
  destruct (requireWritableKeyedType load t) as [m|e]; [|done]. by destruct (entryOf s p).
Qed.

Lemma remove_visit_mono V fuel t p : preserves (fun plan => V ⊆ rp_visited plan) (visit fuel t p).
Proof.
  revert t p. induction fuel as [|fuel IH]; intros t p; [apply preserves_pure|].
  cbn [remove_visit]. apply preserves_get. intros plan HV. case_decide; [done|].
  refine (sbind_preserves (fun plan => V ⊆ rp_visited plan) _ _ _ _ plan HV);
    [apply preserves_modify; set_solver|]. intros _.
  apply sbind_preserves; [apply remove_enter_mono|]. intros [m|]; [|apply preserves_ret].
  apply forS_preserves. intros r _. destruct (Cascade_Has _ _); [|apply preserves_ret].
  destruct (negb _ && _); [apply preserves_throw|]. apply forS_preserves. intros q _. apply IH.
Qed.

Lemma remove_fuel f1 f2 t p plan :
  closed_heap -> p ∈ dom (se_heap s) ->
  size (dom (se_heap s) ∖ rp_visited plan) < f1 -> size (dom (se_heap s) ∖ rp_visited plan) < f2 ->
  visit f1 t p plan = visit f2 t p plan.
Proof.
  intros Hclosed. revert f2 t p plan.
  induction f1 as [|f1 IH]; intros f2 t p plan Hp H1 H2; [lia|]. destruct f2 as [|f2]; [lia|].
  cbn [remove_visit]. unfold sbind at 1 4, sget. case_decide as Hv; [done|].
  unfold sbind at 1 3, smodify. pose proof (unvisited_lt _ _ _ Hp Hv) as Hlt.
  set (plan1 := rp_visit p plan). unfold sbind at 1 2.
  pose proof (remove_enter_mono (rp_visited plan1) t p plan1 (reflexivity _)) as Hm.
  destruct (enter t p plan1) as [plan2 [[m|]|e]]; [|done|done]. cbn in Hm.
  apply (forS_ext (fun plan => rp_visited plan1 ⊆ rp_visited plan)); [done| |].
  { intros r _. destruct (Cascade_Has _ _); [|apply preserves_ret].
    destruct (negb _ && _); [apply preserves_throw|]. apply forS_preserves. intros q _.
    apply remove_visit_mono. }
  intros r plan3 _ H3. destruct (Cascade_Has _ _); [|done]. destruct (negb _ && _); [done|].
  apply (forS_ext (fun plan => rp_visited plan1 ⊆ rp_visited plan)); [done| |].
  { intros q _. apply remove_visit_mono. }
  intros q plan4 Hq H4. pose proof (unvisited_le (dom (se_heap s)) _ _ H4) as Hle. cbn in Hle.
  apply IH; [by eapply Hclosed|lia|lia].
Qed.

End Remove.

(** The walks terminate: with as much fuel as there are instances, [Persist]
    and [Remove] give the answer they give with any larger amount, so no cycle
    of navigations keeps them going. *)
Theorem walks_terminate (fuel : nat) (t : GoType) (p : Ptr) (u : unitOfWork) :
  closed_heap -> p ∈ dom (se_heap s) -> walk_fuel s <= fuel ->
  Persist_ load s fuel t p u = Persist load s t p u /\
  Remove_ load s fuel t p u = Remove load s t p u.
Proof.
  intros Hclosed Hp Hf.
  assert (Hsize : size (dom (se_heap s) ∖ (∅ : gset Ptr)) < walk_fuel s).
  { assert (Hle : size (dom (se_heap s) ∖ (∅ : gset Ptr)) <= size (dom (se_heap s) : gset Ptr))
      by (apply subseteq_size; set_solver).
    pose proof (size_dom (D := gset Ptr) (M := gmap Ptr) (se_heap s)) as Hd.
    eapply Nat.le_lt_trans; [exact Hle|]. eapply Nat.le_lt_trans; [by apply Nat.eq_le_incl|].
    unfold walk_fuel. constructor. constructor. }
  split.
  - unfold Persist, Persist_. destruct (requireUnitOfWork s); [|done].
    by rewrite (persist_fuel u fuel (walk_fuel s)) by (done || simpl; lia).
  - unfold Remove, Remove_. destruct (requireUnitOfWork s); [|done].
    by rewrite (remove_fuel u fuel (walk_fuel s)) by (done || simpl; lia).
Qed.

End Walks.

(** * The plans *)

Section Plans.
Context (load : GoType -> result EntityMap) (s : Session) (u : unitOfWork).

(** A persist plan in progress: new inserts in schedule order, each for an
    instance the session neither tracks nor has scheduled, each noted. *)
Record plan_ok (plan : persistPlan) : Prop := {
  po_counter : uw_counter u <= pp_counter plan;
  po_sorted : StronglySorted lt (si_order <$> pp_adds plan);
  po_orders : forall a, a ∈ pp_adds plan -> uw_counter u < si_order a <= pp_counter plan;
  po_added : forall p id, pp_added plan !! p = Some id <->
    exists a, a ∈ pp_adds plan /\ si_ptr a = p /\ si_order a = id;
  po_fresh : forall a, a ∈ pp_adds plan ->
    uw_insertOf u !! si_ptr a = None /\ uw_removeOf u !! si_ptr a = None /\ entryOf s (si_ptr a) = None;
  po_noted : forall a, a ∈ pp_adds plan ->
    si_order a ∈ pp_directs plan \/ exists link, (si_ptr a, link) ∈ pp_links plan }.

Lemma newPersistPlan_ok : plan_ok (newPersistPlan u).
Proof.
  split; cbn; try (intros a []%not_elem_of_nil).
  - done.
  - constructor.
  - intros p id. rewrite lookup_empty. split; [done|]. by intros (a & []%not_elem_of_nil & _).
Qed.

Lemma note_ok p scheduled via plan : plan_ok plan -> plan_ok (note p scheduled via plan).
Proof.
  intros [H1 H2 H3 H4 H5 H6]. destruct scheduled as [id|]; [|by split].
  destruct via as [link|]; split; try done; intros a Ha; destruct (H6 a Ha) as [?|[l ?]]; cbn.
  - by left.
  - right. exists l. apply elem_of_app. by left.
  - left. apply elem_of_app. by left.
  - right. by exists l.
Qed.

Lemma pp_visit_ok p plan : plan_ok plan -> plan_ok (pp_visit p plan).
Proof. by intros [H1 H2 H3 H4 H5 H6]. Qed.

(** The turn that adds an insert notes it. *)
Lemma add_ok m p via plan :
  plan_ok plan -> scheduled_as u plan p = None -> uw_removeOf u !! p = None -> entryOf s p = None ->
  plan_ok (note p (Some (S (pp_counter plan))) via (pp_add m p plan)).
Proof.
  intros [H1 H2 H3 H4 H5 H6] Hs Hr He. unfold scheduled_as in Hs.
  destruct (uw_insertOf u !! p) as [|] eqn:Ei; [done|].
  assert (Hcore : forall a, a ∈ pp_adds plan ++ [mkInsert p m false [] (S (pp_counter plan))] ->
    a ∈ pp_adds plan \/ a = mkInsert p m false [] (S (pp_counter plan))).
  { intros a. rewrite elem_of_app, list_elem_of_singleton. tauto. }
  assert (Hnoted : forall a (directs : list nat) (links : list (Ptr * cascadeLink)),
    a ∈ pp_adds plan -> (forall id, id ∈ pp_directs plan -> id ∈ directs) ->
    (forall l, l ∈ pp_links plan -> l ∈ links) ->
    si_order a ∈ directs \/ exists link, (si_ptr a, link) ∈ links).
  { intros a directs links Ha Hd Hl. destruct (H6 a Ha) as [?|[l ?]]; [left|right]; eauto. }
  assert (Hsort : StronglySorted lt (si_order <$> pp_adds plan ++ [mkInsert p m false [] (S (pp_counter plan))])).
  { rewrite fmap_app. apply sorted_snoc; [done|]. apply Forall_forall. intros x Hx.
    apply list_elem_of_fmap in Hx as (a & -> & Ha). specialize (H3 a Ha). simpl. lia. }
  assert (Hadded : forall q id, <[p := S (pp_counter plan)]> (pp_added plan) !! q = Some id <->
    exists a, a ∈ pp_adds plan ++ [mkInsert p m false [] (S (pp_counter plan))] /\ si_ptr a = q /\ si_order a = id).
  { intros q id. destruct (decide (q = p)) as [->|Hne].
    - rewrite lookup_insert_eq. split.
      + intros [= <-]. eexists. split; [apply elem_of_app; right; left|done].
      + intros (a & [Ha| ->]%Hcore & Hp & <-); [|done].
        assert (pp_added plan !! p = Some (si_order a)) by (apply H4; by exists a). congruence.
    - rewrite lookup_insert_ne, H4 by done. split; intros (a & Ha & Hq & Hid).
      + exists a. split; [apply elem_of_app; by left|done].
      + apply Hcore in Ha as [Ha| ->]; [by exists a|]. by subst q. }
  destruct via as [link|]; split; cbn [note pp_add pp_counter pp_adds pp_added pp_links pp_directs];
    try exact Hsort; try exact Hadded; try lia.
  1, 4: intros a [Ha| ->]%Hcore; [specialize (H3 a Ha); lia|simpl; lia].
  1, 3: intros a [Ha| ->]%Hcore; [by apply H5|done].
  all: intros a [Ha| ->]%Hcore.
  - apply Hnoted; [done|done|]. intros l Hl. apply elem_of_app. by left.
  - right. exists link. apply elem_of_app. right. left.
  - apply Hnoted; [done| |done]. intros l Hl. apply elem_of_app. by left.
  - left. apply elem_of_app. right. left.
Qed.

Lemma enter_ok t p via : preserves plan_ok (persist_enter load s u t p via).
Proof.
  apply preserves_get. intros plan Hplan. unfold sbind, slift.
  destruct (requireWritableKeyedType load t) as [m|e]; [|done].
  destruct (uw_removeOf u !! p) eqn:Er; [done|].
  case_decide as Hnew; unfold smodify, sret; cbn [fst].
  - destruct Hnew as [H1 H2]. by apply add_ok.
  - by apply note_ok.
Qed.

Lemma persist_visit_ok fuel t p via : preserves plan_ok (persist_visit load s u fuel t p via).
Proof.
  revert t p via. induction fuel as [|fuel IH]; intros t p via; [apply preserves_pure|].
  cbn [persist_visit]. apply preserves_get. intros plan Hplan. case_decide.
  { unfold smodify. cbn [fst]. by apply note_ok. }
  refine (sbind_preserves plan_ok _ _ _ _ plan Hplan);
    [apply preserves_modify; intros ?; apply pp_visit_ok|]. intros _.
  apply sbind_preserves; [apply enter_ok|]. intros m. apply forS_preserves. intros r _.
  destruct (Cascade_Has _ _); [|apply preserves_ret]. apply forS_preserves. intros q _. apply IH.
Qed.

(** A remove plan in progress. *)
Record rplan_ok (plan : removePlan) : Prop := {
  ro_counter : uw_counter u <= rp_counter plan;
  ro_sorted : StronglySorted lt (sr_order <$> rp_adds plan);
  ro_orders : forall a, a ∈ rp_adds plan -> uw_counter u < sr_order a <= rp_counter plan;
  ro_nodup : NoDup (sr_ptr <$> rp_adds plan);
  ro_visited : forall a, a ∈ rp_adds plan -> sr_ptr a ∈ rp_visited plan;
  ro_fresh : forall a, a ∈ rp_adds plan ->
    uw_insertOf u !! sr_ptr a = None /\ uw_removeOf u !! sr_ptr a = None }.

(** The instance being entered was just marked and adds nothing twice. *)
Definition entering (p : Ptr) (plan : removePlan) : Prop :=
  rplan_ok plan /\ p ∈ rp_visited plan /\ p ∉ sr_ptr <$> rp_adds plan.

Lemma newRemovePlan_ok : rplan_ok (newRemovePlan u).
Proof. split; cbn; try (intros a []%not_elem_of_nil); [done|constructor|constructor]. Qed.

Lemma remove_enter_ok t p plan : entering p plan -> rplan_ok (remove_enter load s u t p plan).1.
Proof.
  intros ([H1 H2 H3 H4 H5 H6] & Hv & Hn). unfold remove_enter.
  destruct (uw_insertOf u !! p) as [id|] eqn:Ei; [by split|].
  destruct (uw_removeOf u !! p) eqn:Er; [by split|]. unfold sbind, slift.
  destruct (requireWritableKeyedType load t) as [m|e]; [|by split].
  destruct (entryOf s p); [|by split]. unfold smodify, sret. cbn [fst].
  assert (Hcore : forall a, a ∈ rp_adds plan ++ [mkRemove p m (S (rp_counter plan))] ->
    a ∈ rp_adds plan \/ a = mkRemove p m (S (rp_counter plan))).
  { intros a. rewrite elem_of_app, list_elem_of_singleton. tauto. }
  split; cbn [rp_add rp_counter rp_visited rp_adds].
  - lia.
  - rewrite fmap_app. apply sorted_snoc; [done|]. apply Forall_forall. intros x Hx.
    apply list_elem_of_fmap in Hx as (a & -> & Ha). specialize (H3 a Ha). simpl. lia.
  - intros a [Ha| ->]%Hcore; [specialize (H3 a Ha); lia|simpl; lia].
  - rewrite fmap_app. by apply NoDup_snoc.
  - intros a [Ha| ->]%Hcore; [auto|done].
  - intros a [Ha| ->]%Hcore; [auto|done].
Qed.

Lemma remove_visit_ok fuel t p : preserves rplan_ok (remove_visit load s u fuel t p).
Proof.
  revert t p. induction fuel as [|fuel IH]; intros t p; [apply preserves_pure|].
  cbn [remove_visit]. apply preserves_get. intros plan Hplan. case_decide as Hv; [done|].
  unfold sbind at 1, smodify. unfold sbind.
  assert (Hent : entering p (rp_visit p plan)).
  { destruct Hplan as [H1 H2 H3 H4 H5 H6]. split; [|split].
    - split; try done. intros a Ha. cbn. set_solver.
    - cbn. set_solver.
    - cbn. intros (a & -> & Ha)%list_elem_of_fmap. by apply Hv, H5. }
  pose proof (remove_enter_ok t p _ Hent) as Hok.
  destruct (remove_enter load s u t p (rp_visit p plan)) as [plan1 [[m|]|e]]; [|done|done].
  revert Hok. cbn [fst]. intros Hok.
  refine (forS_preserves rplan_ok _ _ _ plan1 Hok). intros r _.
  destruct (Cascade_Has _ _); [|apply preserves_ret].
  destruct (negb _ && _); [apply preserves_throw|]. apply forS_preserves. intros q _. apply IH.
Qed.

End Plans.

(** * Committing *)

(** ** [Persist] *)

Lemma with_counter_ok u n : uow_ok u -> uw_counter u <= n -> uow_ok (with_counter u n).
Proof.
  intros [[H1 H2 H3 H4 H5 H6 H7 H8] Hs] Hn. split; [|done]. split; try done; cbn.
  - eapply Forall_impl; [exact H2|]. simpl. lia.
  - eapply Forall_impl; [exact H6|]. simpl. lia.
Qed.

(** The next scheduled insert: its order is new, its instance is in no index. *)
Lemma commit_add_wf u a :
  uow_wf u -> (forall id, id ∈ uw_inserts u -> id < si_order a) -> si_order a <= uw_counter u ->
  uw_insertOf u !! si_ptr a = None -> uw_removeOf u !! si_ptr a = None ->
  uow_wf (commit_add u a).
Proof.
  intros [H1 H2 H3 H4 H5 H6 H7 H8] Hord Hc Hi Hr. split; try done; cbn.
  - apply sorted_snoc; [done|]. by apply Forall_forall.
  - apply Forall_app. split; [done|]. by constructor.
  - intros id [Hid| ->%list_elem_of_singleton]%elem_of_app.
    + destruct (H3 id Hid) as (o & Ho & Hoo & Hof). specialize (Hord id Hid).
      exists o. rewrite lookup_insert_ne by lia. split; [done|]. split; [done|].
      rewrite lookup_insert_ne; [done|]. congruence.
    + exists a. rewrite !lookup_insert_eq. done.
  - intros p id. destruct (decide (p = si_ptr a)) as [->|Hne].
    + rewrite lookup_insert_eq. intros [= <-]. split; [apply elem_of_app; right; left|].
      exists a. by rewrite lookup_insert_eq.
    + rewrite lookup_insert_ne by done. intros Hp. destruct (H4 p id Hp) as (Hid & o & Ho & Hop).
      split; [apply elem_of_app; by left|]. exists o. specialize (Hord id Hid).
      by rewrite lookup_insert_ne by lia.
  - intros p. destruct (decide (p = si_ptr a)) as [->|Hne]; [by right|].
    rewrite lookup_insert_ne by done. apply H8.
Qed.

(** What the direct flags and the links do to the objects: identity and
    instance stay, support only grows. *)
Definition grows (o o' : scheduledInsert) : Prop :=
  si_ptr o' = si_ptr o /\ si_m o' = si_m o /\ si_order o' = si_order o /\
  (si_direct o = true -> si_direct o' = true) /\ si_links o `sublist_of` si_links o'.

Record grown (u u' : unitOfWork) : Prop := {
  gr_inserts : uw_inserts u' = uw_inserts u;
  gr_insertOf : uw_insertOf u' = uw_insertOf u;
  gr_removes : uw_removes u' = uw_removes u;
  gr_removeOf : uw_removeOf u' = uw_removeOf u;
  gr_counter : uw_counter u' = uw_counter u;
  gr_objects : forall id, match uw_objects u !! id with
    | Some o => exists o', uw_objects u' !! id = Some o' /\ grows o o'
    | None => uw_objects u' !! id = None
    end }.

Lemma grows_refl o : grows o o.
Proof. by split_and!. Qed.
Lemma grows_trans o1 o2 o3 : grows o1 o2 -> grows o2 o3 -> grows o1 o3.
Proof.
  intros (A1 & A2 & A3 & A4 & A5) (B1 & B2 & B3 & B4 & B5).
  split_and!; [congruence|congruence|congruence|auto|by etrans].
Qed.

Lemma grown_refl u : grown u u.
Proof. split; try done. intros id. destruct (uw_objects u !! id) as [o|]; [|done]. exists o. by split; [|apply grows_refl]. Qed.

Lemma grown_trans u1 u2 u3 : grown u1 u2 -> grown u2 u3 -> grown u1 u3.
Proof.
  intros [A1 A2 A3 A4 A5 A6] [B1 B2 B3 B4 B5 B6]. split; try congruence.
  intros id. specialize (A6 id). specialize (B6 id).
  destruct (uw_objects u1 !! id) as [o1|].
  - destruct A6 as (o2 & Ho2 & G12). rewrite Ho2 in B6. destruct B6 as (o3 & Ho3 & G23).
    exists o3. split; [done|by eapply grows_trans].
  - by rewrite A6 in B6.
Qed.

Lemma update_grown f id u :
  (forall o, grows o (f o)) -> grown u (update_object f id u).
Proof.
  intros Hf. split; try done. intros id'. cbn. destruct (decide (id' = id)) as [->|Hne].
  - rewrite lookup_alter_eq. destruct (uw_objects u !! id) as [o|]; [|done]. simpl. by exists (f o).
  - rewrite lookup_alter_ne by done. destruct (uw_objects u !! id') as [o|]; [|done].
    exists o. split; [done|apply grows_refl].
Qed.

Lemma grown_wf u u' : grown u u' -> uow_wf u -> uow_wf u'.
Proof.
  intros [G1 G2 G3 G4 G5 G6] [H1 H2 H3 H4 H5 H6 H7 H8].
  split; rewrite ?G1, ?G2, ?G3, ?G4, ?G5; try done.
  - intros id Hid. destruct (H3 id Hid) as (o & Ho & Hoo & Hof). specialize (G6 id). rewrite Ho in G6.
    destruct G6 as (o' & Ho' & Hp & _ & Hord & _). exists o'. rewrite Hp, Hord. done.
  - intros p id Hp. destruct (H4 p id Hp) as (Hid & o & Ho & Hop). split; [done|].
    specialize (G6 id). rewrite Ho in G6. destruct G6 as (o' & Ho' & Hpp & _). exists o'. by rewrite Hpp.
Qed.

Lemma set_direct_grows o : grows o (set_direct o).
Proof. by split_and!. Qed.

Lemma add_link_grows link o : grows o (add_link link o).
Proof.
  unfold add_link. destruct (existsb _ _); [apply grows_refl|]. split_and!; try done.
  simpl. by apply sublist_inserts_r.
Qed.

Lemma add_link_links link o : si_links (add_link link o) <> [].
Proof.
  unfold add_link. destruct (existsb _ _) eqn:E.
  - intros Hn. by rewrite Hn in E.
  - simpl. by destruct (si_links o).
Qed.

Lemma commit_directs_grown ids u :
  grown u (fold_left commit_direct ids u) /\
  forall id o, id ∈ ids -> uw_objects (fold_left commit_direct ids u) !! id = Some o -> si_direct o = true.
Proof.
  revert u. induction ids as [|x ids IH]; intros u; cbn [fold_left].
  { split; [apply grown_refl|]. by intros id o []%not_elem_of_nil. }
  destruct (IH (commit_direct u x)) as [Hg Hd].
  pose proof (update_grown set_direct x u set_direct_grows) as Hg1. fold (commit_direct u x) in Hg1.
  split; [by eapply grown_trans|]. intros id o [->|Hid]%elem_of_cons Ho; [|by eapply Hd].
  pose proof (gr_objects _ _ Hg x) as Hx. cbn in Hx. rewrite lookup_alter_eq in Hx.
  destruct (uw_objects u !! x) as [o0|] eqn:E0; simpl in Hx; [|congruence].
  destruct Hx as (o' & Ho' & _ & _ & _ & Hdir & _). rewrite Ho in Ho'. injection Ho' as <-. by apply Hdir.
Qed.

Lemma commit_links_grown links u :
  grown u (fold_left commit_link links u) /\
  forall p link id o, (p, link) ∈ links -> uw_insertOf u !! p = Some id ->
    uw_objects (fold_left commit_link links u) !! id = Some o -> si_links o <> [].
Proof.
  revert u. induction links as [|[q l] links IH]; intros u; cbn [fold_left].
  { split; [apply grown_refl|]. by intros p link id o []%not_elem_of_nil. }
  destruct (IH (commit_link u (q, l))) as [Hg Hd].
  assert (Hg1 : grown u (commit_link u (q, l))).
  { unfold commit_link. cbn [fst snd]. destruct (uw_insertOf u !! q); [|apply grown_refl].
    apply update_grown, add_link_grows. }
  split; [by eapply grown_trans|].
  intros p link id o Hpl Hp Ho. apply elem_of_cons in Hpl as [Heq|Hin]; [injection Heq as -> ->|].
  - pose proof (gr_objects _ _ Hg id) as Hx. unfold commit_link in Hx. cbn [fst snd] in Hx.
    rewrite Hp in Hx. cbn in Hx. rewrite lookup_alter_eq in Hx.
    destruct (uw_objects u !! id) as [o0|] eqn:E0; simpl in Hx.
    + destruct Hx as (o' & Ho' & _ & _ & _ & _ & Hsub).
      unfold commit_link in Ho. cbn [fst snd] in Ho. rewrite Hp in Ho.
      rewrite Ho' in Ho. injection Ho as <-. intros Hn. rewrite Hn in Hsub.
      apply sublist_nil_r in Hsub. by apply (add_link_links l o0).
    + unfold commit_link in Ho. cbn [fst snd] in Ho. rewrite Hp in Ho. congruence.
  - eapply (Hd p link id o Hin); [|exact Ho]. by rewrite (gr_insertOf _ _ Hg1).
Qed.

Lemma uow_wf_lt u id : uow_wf u -> id ∈ uw_inserts u -> id <= uw_counter u.
Proof. intros Hwf Hid. pose proof (uo_bound u Hwf) as H. rewrite Forall_forall in H. auto. Qed.

(** The adds go in one by one. *)
Lemma commit_adds_wf adds u low :
  uow_wf u -> (forall id, id ∈ uw_inserts u -> id <= low) ->
  StronglySorted lt (si_order <$> adds) ->
  (forall a, a ∈ adds -> low < si_order a <= uw_counter u /\
     uw_insertOf u !! si_ptr a = None /\ uw_removeOf u !! si_ptr a = None) ->
  NoDup (si_ptr <$> adds) ->
  let u' := fold_left commit_add adds u in
  uow_wf u' /\ uw_inserts u' = uw_inserts u ++ (si_order <$> adds) /\
  (forall p, uw_insertOf u' !! p = match List.find (fun a => bool_decide (si_ptr a = p)) adds with
     | Some a => Some (si_order a) | None => uw_insertOf u !! p end) /\
  (forall id, id ∈ uw_inserts u -> uw_objects u' !! id = uw_objects u !! id) /\
  uw_removes u' = uw_removes u /\ uw_removeOf u' = uw_removeOf u /\ uw_counter u' = uw_counter u.
Proof.
  revert u low. induction adds as [|a adds IH]; intros u low Hwf Hlow Hsort Hadds Hnd; cbn [fold_left].
  { split; [done|]. split; [by rewrite app_nil_r|]. by split_and!. }
  inversion Hsort as [|? ? Hsort' Hall]; subst. inversion Hnd as [|? ? Hna Hnd']; subst.
  rewrite Forall_forall in Hall.
  destruct (Hadds a (list_elem_of_here _ _)) as (Ho & Hi & Hr).
  assert (Hwf' : uow_wf (commit_add u a)).
  { apply commit_add_wf; [done| |lia|done|done]. intros id Hid. specialize (Hlow id Hid). lia. }
  destruct (IH (commit_add u a) (si_order a) Hwf') as (H1 & H2 & H3 & H4 & H5 & H6 & H7); [| | |done|].
  - cbn. intros id [Hid| ->%list_elem_of_singleton]%elem_of_app; [|done].
    specialize (Hlow id Hid). lia.
  - done.
  - intros b Hb. cbn. destruct (Hadds b (list_elem_of_further _ _ _ Hb)) as (Hbo & Hbi & Hbr).
    assert (si_order a < si_order b) by (apply Hall, list_elem_of_fmap; eauto).
    split; [lia|]. split; [|done]. rewrite lookup_insert_ne; [done|].
    intros Heq. apply Hna. rewrite Heq. apply list_elem_of_fmap. eauto.
  - split; [done|]. split; [rewrite H2; cbn; by rewrite <- app_assoc|].
    split; [|split; [|by split_and!]].
    + intros p. rewrite H3. cbn [List.find]. destruct (decide (si_ptr a = p)) as [<-|Hne].
      * rewrite bool_decide_true by done.
        destruct (List.find _ adds) as [b|] eqn:Eb; [|cbn; by rewrite lookup_insert_eq].
        apply find_some in Eb as [Hb Hp]. apply bool_decide_eq_true in Hp. exfalso. apply Hna.
        rewrite <- Hp. apply list_elem_of_fmap. exists b. split; [done|]. by apply list_elem_of_In.
      * rewrite bool_decide_false by done. destruct (List.find _ adds); [done|].
        cbn. by rewrite lookup_insert_ne by congruence.
    + intros id Hid. rewrite H4; cbn; [|apply elem_of_app; by left].
      rewrite lookup_insert_ne; [done|]. specialize (Hlow id Hid). lia.
Qed.

Lemma plan_ptrs_nodup s u plan : plan_ok s u plan -> NoDup (si_ptr <$> pp_adds plan).
Proof.
  intros [_ Hsort _ Hadded _ _]. apply NoDup_fmap_2_strong.
  - intros a b Ha Hb Heq.
    assert (E : pp_added plan !! si_ptr a = Some (si_order a)) by (apply Hadded; by exists a).
    assert (E' : pp_added plan !! si_ptr a = Some (si_order b)) by (apply Hadded; exists b; auto).
    rewrite E in E'. injection E' as E'. apply sorted_lt_NoDup in Hsort. clear -Hsort Ha Hb E'.
    induction (pp_adds plan) as [|x l IH]; [by apply not_elem_of_nil in Ha|].
    apply NoDup_cons in Hsort as [Hx Hl].
    apply elem_of_cons in Ha as [->|Ha], Hb as [->|Hb]; [done| | |by apply IH].
    + exfalso. apply Hx. change (si_order x ∈ si_order <$> l). rewrite E'. apply list_elem_of_fmap. eauto.
    + exfalso. apply Hx. change (si_order x ∈ si_order <$> l). rewrite <- E'. apply list_elem_of_fmap. eauto.
  - eapply NoDup_fmap_1. by apply sorted_lt_NoDup.
Qed.

(** What a committed persist plan leaves. *)
Lemma persist_commit_spec s u plan :
  uow_ok u -> plan_ok s u plan ->
  let u' := persist_commit (with_counter u (pp_counter plan)) plan in
  uow_ok u' /\ uw_inserts u' = uw_inserts u ++ (si_order <$> pp_adds plan) /\
  (forall p, uw_insertOf u' !! p = scheduled_as u plan p) /\
  uw_removes u' = uw_removes u /\ uw_removeOf u' = uw_removeOf u /\
  (forall id o, id ∈ pp_directs plan -> uw_objects u' !! id = Some o -> si_direct o = true).
Proof.
  intros Hok Hplan. pose proof (plan_ptrs_nodup _ _ _ Hplan) as Hnd.
  destruct Hplan as [Hc Hsort Hord Hadded Hfresh Hnoted].
  pose proof (with_counter_ok u (pp_counter plan) Hok Hc) as [Hwf0 Hsup0].
  destruct (commit_adds_wf (pp_adds plan) (with_counter u (pp_counter plan)) (uw_counter u) Hwf0)
    as (Hwf1 & Hin1 & Hof1 & Hobj1 & Hrem1 & Hrof1 & Hcnt1); [|done| |done|].
  { intros id Hid. apply (uow_wf_lt u); [apply Hok|done]. }
  { intros a Ha. destruct (Hfresh a Ha) as (? & ? & _). by split; [apply Hord|]. }
  unfold persist_commit. set (u1 := fold_left commit_add (pp_adds plan) _) in *.
  destruct (commit_directs_grown (pp_directs plan) u1) as [Hg2 Hd2].
  set (u2 := fold_left commit_direct (pp_directs plan) u1) in *.
  destruct (commit_links_grown (pp_links plan) u2) as [Hg3 Hl3].
  set (u3 := fold_left commit_link (pp_links plan) u2) in *.
  pose proof (grown_trans _ _ _ Hg2 Hg3) as Hg.
  assert (Hof3 : forall p, uw_insertOf u3 !! p = scheduled_as u plan p).
  { intros p. rewrite (gr_insertOf _ _ Hg), Hof1. unfold scheduled_as. cbn.
    destruct (List.find _ (pp_adds plan)) as [a|] eqn:Ea.
    - apply find_some in Ea as [Ha Hp]. apply bool_decide_eq_true in Hp. subst p.
      apply list_elem_of_In in Ha. destruct (Hfresh a Ha) as (-> & _ & _). symmetry. apply Hadded. by exists a.
    - destruct (uw_insertOf u !! p) as [id|]; [done|]. destruct (pp_added plan !! p) as [id|] eqn:E; [|done].
      apply Hadded in E as (a & Ha & Hp & _). apply list_elem_of_In in Ha.
      pose proof (find_none _ _ Ea a Ha) as Hno. cbv beta in Hno.
      by rewrite bool_decide_true in Hno. }
  assert (Hwf3 : uow_wf u3) by (by eapply grown_wf).
  split; [split; [done|]|].
  - intros id o Hid Ho. rewrite (gr_inserts _ _ Hg), Hin1 in Hid.
    apply elem_of_app in Hid as [Hid|Hid].
    + pose proof (gr_objects _ _ Hg id) as Hgo. rewrite Hobj1 in Hgo by done. cbn in Hgo, Hid.
      destruct (uo_object _ (proj1 Hok) id Hid) as (o0 & H0 & _ & _). rewrite H0 in Hgo.
      destruct Hgo as (o' & Ho' & _ & _ & _ & Hdir & Hsub). rewrite Ho in Ho'. injection Ho' as <-.
      destruct (proj2 Hok id o0 Hid H0) as [?|Hne]; [left; auto|right].
      intros Hn. rewrite Hn in Hsub. by apply sublist_nil_r in Hsub.
    + apply list_elem_of_fmap in Hid as (a & -> & Ha). destruct (Hnoted a Ha) as [Hd|[link Hl]].
      * left. pose proof (gr_objects _ _ Hg3 (si_order a)) as Hgo.
        destruct (uw_objects u2 !! si_order a) as [o2|] eqn:E2; [|congruence].
        destruct Hgo as (o' & Ho' & _ & _ & _ & Hdir & _). rewrite Ho in Ho'. injection Ho' as <-.
        apply Hdir. by eapply Hd2.
      * right. eapply (Hl3 _ _ _ _ Hl); [|exact Ho].
        rewrite <- (gr_insertOf _ _ Hg3), Hof3. unfold scheduled_as.
        destruct (Hfresh a Ha) as (-> & _ & _). apply Hadded. by exists a.
  - split; [by rewrite (gr_inserts _ _ Hg)|]. split; [done|].
    split; [by rewrite (gr_removes _ _ Hg)|]. split; [by rewrite (gr_removeOf _ _ Hg)|].
    intros id o Hid Ho. pose proof (gr_objects _ _ Hg3 id) as Hgo.
    destruct (uw_objects u2 !! id) as [o2|] eqn:E2; [|congruence].
    destruct Hgo as (o' & Ho' & _ & _ & _ & Hdir & _). rewrite Ho in Ho'. injection Ho' as <-.
    apply Hdir. by eapply Hd2.
Qed.

(** ** [Remove] *)

Lemma commit_remove_ok u a :
  uow_ok u -> (forall r, r ∈ uw_removes u -> sr_order r < sr_order a) -> sr_order a <= uw_counter u ->
  uw_insertOf u !! sr_ptr a = None -> uw_removeOf u !! sr_ptr a = None ->
  uow_ok (commit_remove u a).
Proof.
  intros [[H1 H2 H3 H4 H5 H6 H7 H8] Hsup] Hord Hc Hi Hr. split; [|done]. split; try done; cbn.
  - rewrite fmap_app. apply sorted_snoc; [done|]. apply Forall_forall. intros x Hx.
    apply list_elem_of_fmap in Hx as (r & -> & Hin). simpl. auto.
  - apply Forall_app. split; [done|]. by constructor.
  - intros p r. destruct (decide (p = sr_ptr a)) as [->|Hne].
    + rewrite lookup_insert_eq, elem_of_app, list_elem_of_singleton. split.
      * intros [= <-]. split; [by right|done].
      * intros [[Hin| ->] Hp]; [|done].
        assert (uw_removeOf u !! sr_ptr a = Some r) by (by apply H7). congruence.
    + rewrite lookup_insert_ne, H7, elem_of_app, list_elem_of_singleton by done.
      split; intros [Hin Hp]; (split; [|done]); [by left|]. destruct Hin as [?| ->]; [done|].
      by rewrite Hp in Hne.
  - intros p. destruct (decide (p = sr_ptr a)) as [->|Hne]; [by left|].
    rewrite lookup_insert_ne by done. apply H8.
Qed.

Lemma commit_removes_spec adds u low :
  uow_ok u -> (forall r, r ∈ uw_removes u -> sr_order r <= low) ->
  StronglySorted lt (sr_order <$> adds) ->
  (forall a, a ∈ adds -> low < sr_order a <= uw_counter u /\
     uw_insertOf u !! sr_ptr a = None /\ uw_removeOf u !! sr_ptr a = None) ->
  NoDup (sr_ptr <$> adds) ->
  let u' := fold_left commit_remove adds u in
  uow_ok u' /\ uw_removes u' = uw_removes u ++ adds /\
  uw_inserts u' = uw_inserts u /\ uw_insertOf u' = uw_insertOf u /\ uw_objects u' = uw_objects u.
Proof.
  revert u low. induction adds as [|a adds IH]; intros u low Hok Hlow Hsort Hadds Hnd; cbn [fold_left].
  { split; [done|]. split; [by rewrite app_nil_r|]. done. }
  inversion Hsort as [|? ? Hsort' Hall]; subst. inversion Hnd as [|? ? Hna Hnd']; subst.
  rewrite Forall_forall in Hall.
  destruct (Hadds a (list_elem_of_here _ _)) as (Ho & Hi & Hr).
  assert (Hok' : uow_ok (commit_remove u a)).
  { apply commit_remove_ok; [done| |lia|done|done]. intros r Hin. specialize (Hlow r Hin). lia. }
  destruct (IH (commit_remove u a) (sr_order a) Hok') as (H1 & H2 & H3 & H4 & H5); [|done| |done|].
  - cbn. intros r [Hin| ->%list_elem_of_singleton]%elem_of_app; [|done].
    specialize (Hlow r Hin). lia.
  - intros b Hb. cbn. destruct (Hadds b (list_elem_of_further _ _ _ Hb)) as (Hbo & Hbi & Hbr).
    assert (sr_order a < sr_order b) by (apply Hall, list_elem_of_fmap; eauto).
    split; [lia|]. split; [done|]. rewrite lookup_insert_ne; [done|].
    intros Heq. apply Hna. rewrite Heq. apply list_elem_of_fmap. eauto.
  - split; [done|]. split; [rewrite H2; cbn; by rewrite <- app_assoc|]. done.
Qed.

Lemma remove_commit_spec u plan :
  uow_ok u -> rplan_ok u plan ->
  let u1 := with_counter u (rp_counter plan) in
  uow_ok (remove_commit u1 plan) /\
  uw_removes (remove_commit u1 plan) = uw_removes u ++ rp_adds plan.
Proof.
  intros Hok [Hc Hsort Hord Hnd Hvis Hfresh] u1.
  destruct (commit_removes_spec (rp_adds plan) u1 (uw_counter u)) as (Hok1 & Hrem & _); [| |done| |done|].
  - by apply with_counter_ok.
  - intros r Hin. cbn in Hin. pose proof (uo_rbound u (proj1 Hok)) as Hb. rewrite Forall_forall in Hb. auto.
  - intros a Ha. split; [by apply Hord|]. apply (Hfresh a Ha).
  - unfold remove_commit. split; [by apply cancel_ok|].
    unfold cancel. destruct (match rp_cancels plan with [] => _ | _ => _ end) as [objects cancelled].
    exact Hrem.
Qed.

(** ** [Detach] *)

Lemma dropRemove_ok u p r : uow_ok u -> uw_removeOf u !! p = Some r -> uow_ok (dropRemove u r).
Proof.
  intros [[H1 H2 H3 H4 H5 H6 H7 H8] Hsup] Hr. apply H7 in Hr as [Hr Hp]. split; [|done]. split; try done; cbn.
  - revert H5. clear. induction (uw_removes u) as [|x l IH]; [done|]. simpl. intros H.
    inversion H as [|? ? Hs Hf]; subst. destruct (negb _); [|by apply IH]. simpl. constructor; [by apply IH|].
    rewrite Forall_forall in *. intros y Hy. apply Hf. apply list_elem_of_fmap in Hy as (z & -> & Hz).
    apply list_elem_of_fmap. exists z. split; [done|]. by apply elem_filter in Hz as [? _].
  - rewrite Forall_forall in *. intros x [Hx _]%elem_filter. auto.
  - intros q x. rewrite lookup_delete_Some, H7, elem_filter, negb_true_iff, bool_decide_eq_false. split.
    + intros (Hne & Hx & <-). split; [|done]. split; [done|]. intros Heq. apply Hne. f_equal.
      apply sorted_lt_NoDup in H5. clear -H5 Hx Hr Heq.
      induction (uw_removes u) as [|y l IH]; [by apply not_elem_of_nil in Hx|].
      apply NoDup_cons in H5 as [Hy Hl].
      apply elem_of_cons in Hx as [->|Hx], Hr as [->|Hr]; [done| | |by apply IH].
      * exfalso. apply Hy. change (sr_order y ∈ sr_order <$> l). rewrite Heq. apply list_elem_of_fmap. eauto.
      * exfalso. apply Hy. change (sr_order y ∈ sr_order <$> l). rewrite <- Heq. apply list_elem_of_fmap. eauto.
    + intros [[Hx Hne] <-]. split; [|done]. intros Heq. apply Hne.
      assert (E1 : uw_removeOf u !! sr_ptr r = Some r) by (by apply H7).
      assert (E2 : uw_removeOf u !! sr_ptr r = Some x) by (by apply H7). congruence.
  - intros q. destruct (H8 q) as [?|Hn]; [by left|]. right. rewrite lookup_delete_None. by right.
Qed.

(** * The schedule's invariant *)

(** A refused operation schedules and cancels nothing: only the order counter
    may have moved. *)
Definition refusal_keeps (u : unitOfWork) (outcome : unitOfWork * result unit) : Prop :=
  forall e, outcome.2 = Fail e -> exists n, outcome.1 = with_counter u n.

(** C40. Every operation keeps the schedule well formed, refused or not:
    scheduled inserts and removals are distinct instances in schedule order,
    the indexes agree with the lists, no instance is in both, and each
    scheduled insert was persisted directly or is reached by a cascade of an
    owner.  A refused [Persist] or [Remove] schedules and cancels nothing. *)
Theorem schedule_invariant (load : GoType -> result EntityMap) (s : Session) (u : unitOfWork)
    (t : GoType) (p : Ptr) :
  uow_ok u ->
  uow_ok (Persist load s t p u).1 /\ uow_ok (Remove load s t p u).1 /\ uow_ok (clear u) /\
  (forall u' s', Detach s t p u = Ok (u', s') -> uow_ok u') /\
  refusal_keeps u (Persist load s t p u) /\ refusal_keeps u (Remove load s t p u).
Proof.
  intros Hok. split; [|split; [|split; [|split; [|split]]]].
  - unfold Persist, Persist_. destruct (requireUnitOfWork s); [|done].
    pose proof (persist_visit_ok load s u (walk_fuel s) t p None _ (newPersistPlan_ok s u)) as Hp.
    destruct (persist_visit _ _ _ _ _ _ _ _) as [plan [[]|e]]; cbn [fst] in *.
    + by apply (persist_commit_spec s u plan).
    + apply with_counter_ok; [done|apply Hp].
  - unfold Remove, Remove_. destruct (requireUnitOfWork s); [|done].
    pose proof (remove_visit_ok load s u (walk_fuel s) t p _ (newRemovePlan_ok u)) as Hp.
    destruct (remove_visit _ _ _ _ _ _ _) as [plan [[]|e]]; cbn [fst] in *.
    + by apply (remove_commit_spec u plan).
    + apply with_counter_ok; [done|apply Hp].
  - apply clear_ok.
  - intros u' s' H. unfold Detach in H. destruct (se_tracker s) as [tr|]; [|done].
    case_decide; [done|].
    set (u1 := match uw_insertOf u !! p with Some id => cancel u [id] | None => u end) in H.
    assert (Hok1 : uow_ok u1) by (subst u1; destruct (uw_insertOf u !! p); [by apply cancel_ok|done]).
    set (u2 := match uw_removeOf u !! p with Some r => dropRemove u1 r | None => u1 end) in H.
    assert (Hok2 : uow_ok u2).
    { subst u2. destruct (uw_removeOf u !! p) as [r|] eqn:Er; [|done]. apply (dropRemove_ok u1 p); [done|].
      subst u1. destruct (uw_insertOf u !! p) as [id|] eqn:Ei; [|done].
      destruct (uo_disjoint u (proj1 Hok) p); congruence. }
    destruct (entryOf s p); [|by injection H as <- _].
    apply bind_Ok in H as (tr' & _ & H). by injection H as <- _.
  - intros e. unfold Persist, Persist_. destruct (requireUnitOfWork s).
    + destruct (persist_visit _ _ _ _ _ _ _ _) as [plan [[]|e']]; [done|]. by eexists.
    + exists (uw_counter u). by destruct u.
  - intros e. unfold Remove, Remove_. destruct (requireUnitOfWork s).
    + destruct (remove_visit _ _ _ _ _ _ _) as [plan [[]|e']]; [done|]. by eexists.
    + exists (uw_counter u). by destruct u.
Qed.

(** * Witnesses: an order and its two lines *)

Definition order_type : GoType := mkGoType "sample" "Order".
Definition line_type : GoType := mkGoType "sample" "Line".
Definition int_property (t : GoType) (name : string) (key generated : bool) : PropertyMap :=
  mkProperty (Some t) name name (mkField false (TyInt KInt64)) TypeInt64 false key generated false
    AuditNone false None 0 0 0 None None.
Definition order_lines : RelationshipMap :=
  mkRelationship "Lines" RelationshipOneToMany line_type ["OrderID"] None [] [] (CascadePersist + CascadeRemove)%Z.
Definition line_order : RelationshipMap :=
  mkRelationship "Order" RelationshipManyToOne order_type ["OrderID"] None [] [] 0%Z.
Definition order_map : EntityMap :=
  NewEntityMap order_type RelationTable "orders" "" "" [int_property order_type "ID" true true]
    KeyDatabaseGenerated [] [order_lines].
Definition line_map : EntityMap :=
  NewEntityMap line_type RelationTable "lines" "" ""
    [int_property line_type "ID" true true; int_property line_type "OrderID" false false]
    KeyDatabaseGenerated [] [line_order].
Definition sample_load (t : GoType) : result EntityMap :=
  if decide (t = order_type) then Ok order_map
  else if decide (t = line_type) then Ok line_map
  else Fail (NewError "MAP-001" (TypeShortName t)).

Definition line_instance : Instance := mkInstance line_type ∅ ∅ {["Order" := NavSingle (Some 1)]}.
Definition order_heap : heap :=
  <[1 := mkInstance order_type ∅ ∅ {["Lines" := NavMany (Some [Some 2; None; Some 3])]}]>
    (<[2 := line_instance]> (<[3 := line_instance]> ∅)).
Definition order_session : Session := mkSession order_heap (Some newTracker).

Lemma order_heap_cases p :
  (p = 1 /\ deref order_heap p = mkInstance order_type ∅ ∅ {["Lines" := NavMany (Some [Some 2; None; Some 3])]}) \/
  ((p = 2 \/ p = 3) /\ deref order_heap p = line_instance) \/ deref order_heap p = new_instance.
Proof.
  unfold deref, order_heap. destruct (decide (p = 1)) as [->|H1]; [by left|]. right.
  destruct (decide (p = 2)) as [->|H2]; [left; split; [by left|done]|].
  destruct (decide (p = 3)) as [->|H3]; [left; split; [by right|done]|]. right.
  by rewrite !lookup_insert_ne, lookup_empty by done.
Qed.

Lemma order_targets p r q : q ∈ (targets_of order_session p r).1 ->
  (p = 1 /\ (q = 2 \/ q = 3)) \/ ((p = 2 \/ p = 3) /\ q = 1).
Proof.
  unfold targets_of, navigationTargets. cbn [order_session se_heap].
  destruct (order_heap_cases p) as [(-> & E)|[(Hp & E)|E]]; rewrite E; cbn [in_navs line_instance new_instance].
  - destruct (decide (rel_PropertyName r = "Lines")) as [->|Hne].
    + rewrite lookup_singleton_eq. cbn. rewrite !elem_of_cons, elem_of_nil. tauto.
    + rewrite lookup_singleton_ne by done. by intros []%not_elem_of_nil.
  - destruct (decide (rel_PropertyName r = "Order")) as [->|Hne].
    + rewrite lookup_singleton_eq. cbn. rewrite list_elem_of_singleton. tauto.
    + rewrite lookup_singleton_ne by done. by intros []%not_elem_of_nil.
  - rewrite lookup_empty. by intros []%not_elem_of_nil.
Qed.

Lemma order_heap_closed : closed_heap order_session.
Proof.
  intros p r q Hq. apply order_targets in Hq. cbn [order_session se_heap]. unfold order_heap.
  rewrite !dom_insert. set_solver.
Qed.

Lemma walks_terminate_witness :
  Persist_ sample_load order_session 100 order_type 1 newUnitOfWork
  = Persist sample_load order_session order_type 1 newUnitOfWork /\
  (Persist sample_load order_session order_type 1 newUnitOfWork).1.(uw_inserts) = [1; 2; 3].
Proof.
  split; [|vm_compute; reflexivity].
  apply (walks_terminate sample_load order_session 100 order_type 1 newUnitOfWork order_heap_closed).
  - cbn [order_session se_heap]. unfold order_heap. rewrite !dom_insert. set_solver.
  - vm_compute. lia.
Defined.

Lemma schedule_invariant_witness :
  uow_ok (Persist sample_load order_session order_type 1 newUnitOfWork).1 /\
  uw_insertOf (Persist sample_load order_session order_type 1 newUnitOfWork).1 !! 3 = Some 3.
Proof.
  split; [|vm_compute; reflexivity].
  exact (proj1 (schedule_invariant sample_load order_session newUnitOfWork order_type 1 newUnitOfWork_ok)).
Defined.
