(* ===== verification/Reach.v ===== *)
(** What [Persist] and [Remove] schedule: exactly what their cascades reach.

    A walk reads the map of each instance's own type: the targets of a
    navigation have the type it declares, as Go's types guarantee. *)
From S2P Require Import Prelude GoStrings Values Core Tracker Instances Session UnitOfWork ScheduleLaws Cascades.

Section Reach.
Context (load : GoType -> result EntityMap) (s : Session).

Definition type_of (p : Ptr) : GoType := in_type (deref (se_heap s) p).

Definition heap_typed : Prop :=
  forall p m r q, load (type_of p) = Ok m -> r ∈ Relationships m -> q ∈ (targets_of s p r).1 ->
    type_of q = rel_TargetType r.

(** [op] cascades from [x] to [y]. *)
Definition cascades (op : CascadeOperations) (x y : Ptr) : Prop :=
  exists m r, load (type_of x) = Ok m /\ r ∈ Relationships m /\
    Cascade_Has (rel_Cascade r) op = true /\ y ∈ (targets_of s x r).1.

Lemma requireWritableKeyedType_load t m : requireWritableKeyedType load t = Ok m -> load t = Ok m.
Proof.
  unfold requireWritableKeyedType. intros H. apply bind_Ok in H as (m' & Hm & H).
  case_bool_decide; [done|]. by destruct (KeyProperties m'); [|injection H as ->].
Qed.

(** ** [Persist] *)

Section Persist.
Context (u : unitOfWork) (root : Ptr) (Htyped : heap_typed).

Notation reached := (rtc (cascades CascadePersist) root).
Notation as_ := (scheduled_as u).

(** [x] has been walked: it is tracked or scheduled, and what it cascades to
    has been visited. *)
Definition walked (plan : persistPlan) (x : Ptr) : Prop :=
  uw_removeOf u !! x = None /\ (entryOf s x <> None \/ is_Some (as_ plan x)) /\
  forall y, cascades CascadePersist x y -> y ∈ pp_visited plan.

Record progress (plan plan' : persistPlan) : Prop := {
  pg_visited : pp_visited plan ⊆ pp_visited plan';
  pg_directs : forall id, id ∈ pp_directs plan -> id ∈ pp_directs plan';
  pg_stays : forall x id, as_ plan x = Some id -> as_ plan' x = Some id;
  pg_fixed : forall x, x ∈ pp_visited plan -> as_ plan' x = as_ plan x;
  pg_new : forall x, is_Some (as_ plan' x) -> is_Some (as_ plan x) \/ reached x;
  pg_walked : forall x, x ∈ pp_visited plan' -> x ∉ pp_visited plan -> reached x /\ walked plan' x }.

Lemma walked_mono plan plan' x : progress plan plan' -> walked plan x -> walked plan' x.
Proof.
  intros Hp (H1 & H2 & H3). split; [done|]. split.
  - destruct H2 as [?|[id ?]]; [by left|]. right. exists id. by apply (pg_stays _ _ Hp).
  - intros y Hy. apply (pg_visited _ _ Hp). auto.
Qed.

Lemma progress_refl plan : progress plan plan.
Proof. split; naive_solver. Qed.

Lemma progress_trans p1 p2 p3 : progress p1 p2 -> progress p2 p3 -> progress p1 p3.
Proof.
  intros H12 H23. pose proof H12 as [A1 A2 A3 AF A4 A5]. pose proof H23 as [B1 B2 B3 BF B4 B5]. split.
  - set_solver.
  - auto.
  - auto.
  - intros x Hx. rewrite BF by set_solver. auto.
  - intros x Hx. destruct (B4 x Hx) as [H|H]; [by apply A4|by right].
  - intros x Hx Hn. destruct (decide (x ∈ pp_visited p2)) as [H2|H2]; [|by apply B5].
    destruct (A5 x H2 Hn) as [Hr Hw]. split; [done|]. by eapply walked_mono.
Qed.

Lemma note_fields p scheduled via plan :
  pp_visited (note p scheduled via plan) = pp_visited plan /\
  pp_added (note p scheduled via plan) = pp_added plan /\
  (forall id, id ∈ pp_directs plan -> id ∈ pp_directs (note p scheduled via plan)).
Proof.
  destruct scheduled, via; cbn; split_and!; try done. intros id Hid. apply elem_of_app. by left.
Qed.

Lemma as_note p scheduled via plan x : as_ (note p scheduled via plan) x = as_ plan x.
Proof. unfold scheduled_as. by rewrite (proj1 (proj2 (note_fields p scheduled via plan))). Qed.

(** The instance's own part, from its unvisited state to the walk below it. *)
Lemma enter_progress p via plan plan' m :
  reached p -> p ∉ pp_visited plan ->
  persist_enter load s u (type_of p) p via (pp_visit p plan) = (plan', Ok m) ->
  load (type_of p) = Ok m /\ uw_removeOf u !! p = None /\
  (entryOf s p <> None \/ is_Some (as_ plan' p)) /\
  pp_visited plan' = {[p]} ∪ pp_visited plan /\
  (forall id, id ∈ pp_directs plan -> id ∈ pp_directs plan') /\
  (forall x id, as_ plan x = Some id -> as_ plan' x = Some id) /\
  (forall x, x <> p -> as_ plan' x = as_ plan x) /\
  (via = None -> forall id, as_ plan' p = Some id -> id ∈ pp_directs plan').
Proof.
  intros Hp Hv H. unfold persist_enter in H. unfold sbind at 1, sget in H. unfold sbind at 1, slift in H.
  destruct (requireWritableKeyedType load (type_of p)) as [m'|] eqn:Em; [|done].
  apply requireWritableKeyedType_load in Em.
  destruct (uw_removeOf u !! p) eqn:Er; [done|].
  assert (Hs : as_ (pp_visit p plan) = as_ plan) by done. rewrite Hs in H.
  case_decide as Hnew; unfold sbind, smodify, sret in H;
    pose proof (f_equal fst H) as Hplan; apply (f_equal snd) in H; cbn [fst snd] in Hplan, H;
    apply Ok_inj in H as <-; subst plan'.
  - destruct Hnew as [Hnone Hentry]. set (plan1 := pp_add m' p (pp_visit p plan)).
    assert (Has : forall x, as_ plan1 x = if decide (x = p) then Some (S (pp_counter plan)) else as_ plan x).
    { intros x. unfold scheduled_as in *. cbn. destruct (decide (x = p)) as [->|Hne].
      - destruct (uw_insertOf u !! p); [done|]. by rewrite lookup_insert_eq.
      - by rewrite lookup_insert_ne. }
    split; [done|]. split; [done|]. split; [|split; [|split; [|split; [|split]]]].
    + right. rewrite as_note, Has, decide_True by done. by eexists.
    + by rewrite note_visited.
    + intros id Hid. by apply note_fields.
    + intros x id Hx. rewrite as_note, Has. case_decide; [|done]. subst. congruence.
    + intros x Hx. by rewrite as_note, Has, decide_False.
    + intros -> id. rewrite as_note, Has, decide_True by done. intros [= <-]. cbn.
      apply elem_of_app. right. left.
  - split; [done|]. split; [done|]. split; [|split; [|split; [|split; [|split]]]].
    + rewrite as_note, Hs. destruct (as_ plan p) eqn:Ea; [right; by eexists|]. left.
      intros He. by apply Hnew.
    + by rewrite note_visited.
    + intros id Hid. by apply note_fields.
    + intros x id Hx. by rewrite as_note, Hs.
    + intros x Hx. by rewrite as_note, Hs.
    + intros -> id. rewrite as_note, Hs. intros ->. cbn. apply elem_of_app. right. left.
Qed.

Lemma persist_visit_progress fuel p via plan plan' :
  reached p -> persist_visit load s u fuel (type_of p) p via plan = (plan', Ok tt) ->
  progress plan plan' /\ p ∈ pp_visited plan' /\
  (via = None -> forall id, as_ plan' p = Some id -> id ∈ pp_directs plan').
Proof.
  revert p via plan plan'. induction fuel as [|fuel IH]; intros p via plan plan' Hp H; [done|].
  cbn [persist_visit] in H. unfold sbind at 1, sget in H. case_decide as Hv.
  { injection H as <-. destruct (note_fields p (as_ plan p) via plan) as (H1 & H2 & H3).
    split; [|split].
    - split; try (intros x; rewrite as_note); rewrite ?H1; naive_solver.
    - by rewrite H1.
    - intros -> id. rewrite as_note. intros ->. cbn. apply elem_of_app. right. left. }
  unfold sbind at 1, smodify in H. apply sbind_Ok in H as (plan1 & m & Henter & H).
  destruct (enter_progress p via plan plan1 m Hp Hv Henter)
    as (Hm & Hr & Hself & Hvis & Hdir & Hstay & Hother & Hdirect).
  apply (forS_rel progress
    (fun r plan => Cascade_Has (rel_Cascade r) CascadePersist = true ->
       forall q, q ∈ (targets_of s p r).1 -> q ∈ pp_visited plan)) in H as [Hprog Hall];
    [|exact progress_refl|exact progress_trans| |].
  2:{ intros r plan2 plan3 Hpg Hq Hc q Hin. apply (pg_visited _ _ Hpg). auto. }
  2:{ intros r plan2 plan3 Hr' _ Hloop. destruct (Cascade_Has (rel_Cascade r) CascadePersist) eqn:Ec.
    2:{ injection Hloop as <-. split; [apply progress_refl|done]. }
    apply (forS_rel progress (fun q plan => q ∈ pp_visited plan)) in Hloop as [Hpg Hqs];
      [by split|exact progress_refl|exact progress_trans| |].
    - intros q p2 p3 Hpg Hq. by apply (pg_visited _ _ Hpg).
    - intros q p2 p3 Hq _ Hvisit. rewrite <- (Htyped p m r q Hm Hr' Hq) in Hvisit.
      assert (Hreach : reached q) by (eapply rtc_r; [exact Hp|by exists m, r]).
      destruct (IH q _ p2 p3 Hreach Hvisit) as (Hpg & Hqv & _). by split. }
  assert (Hpv : p ∈ pp_visited plan') by (apply (pg_visited _ _ Hprog); rewrite Hvis; set_solver).
  assert (Hw : walked plan' p).
  { split; [done|]. split.
    - destruct Hself as [?|[id ?]]; [by left|]. right. exists id. by apply (pg_stays _ _ Hprog).
    - intros y (m' & r & Hm' & Hr' & Hc & Hy). rewrite Hm in Hm'. injection Hm' as <-. by eapply Hall. }
  split; [|split; [done|]].
  - split.
    + pose proof (pg_visited _ _ Hprog). set_solver.
    + intros id Hid. apply (pg_directs _ _ Hprog). auto.
    + intros x id Hx. apply (pg_stays _ _ Hprog). auto.
    + intros x Hx. rewrite (pg_fixed _ _ Hprog), Hother; [done| |rewrite Hvis; set_solver]. set_solver.
    + intros x Hx. destruct (pg_new _ _ Hprog x Hx) as [Hx1|]; [|by right].
      destruct (decide (x = p)) as [->|Hne]; [by right|]. rewrite Hother in Hx1 by done. by left.
    + intros x Hx Hn. destruct (decide (x = p)) as [->|Hne]; [done|].
      apply (pg_walked _ _ Hprog); [done|]. rewrite Hvis. set_solver.
  - intros Hvia id Hid. rewrite (pg_fixed _ _ Hprog) in Hid by (rewrite Hvis; set_solver).
    apply (pg_directs _ _ Hprog). by apply Hdirect.
Qed.

End Persist.

(** C24. [Persist] schedules exactly what it reaches.  When it succeeds, every
    instance its persist cascades reach from the one given - through tracked
    instances too - is not scheduled for removal and is tracked or scheduled
    for insert; every insert it scheduled is such an instance, was not tracked,
    and comes after what was scheduled before; earlier inserts stay; and the
    instance given, if scheduled, is marked as persisted directly. *)
Theorem Persist_schedules_reached (u u' : unitOfWork) (p : Ptr)
    (Hok : uow_ok u) (Htyped : heap_typed)
    (H : Persist load s (type_of p) p u = (u', Ok tt)) :
  (forall x, rtc (cascades CascadePersist) p x ->
     uw_removeOf u' !! x = None /\ (IsTracked s x = true \/ is_Some (uw_insertOf u' !! x))) /\
  (exists new, uw_inserts u' = uw_inserts u ++ new) /\
  (forall x id, uw_insertOf u !! x = Some id -> uw_insertOf u' !! x = Some id) /\
  (forall x id, uw_insertOf u' !! x = Some id -> uw_insertOf u !! x = Some id \/
     (rtc (cascades CascadePersist) p x /\ IsTracked s x = false /\ uw_counter u < id)) /\
  (forall id, uw_insertOf u' !! p = Some id ->
     exists o, uw_objects u' !! id = Some o /\ si_ptr o = p /\ si_direct o = true).
Proof.
  unfold Persist, Persist_ in H. destruct (requireUnitOfWork s); [|done].
  pose proof (persist_visit_ok load s u (walk_fuel s) (type_of p) p None _ (newPersistPlan_ok s u)) as Hplan.
  destruct (persist_visit _ _ _ _ _ _ _ _) as [plan [[]|e]] eqn:Ev; [|done]. injection H as <-.
  cbn [fst] in Hplan.
  destruct (persist_visit_progress u p Htyped (walk_fuel s) p None _ _ (rtc_refl _ _) Ev)
    as (Hprog & Hvis & Hdir).
  destruct (persist_commit_spec s u plan Hok Hplan) as (Hok' & Hins & Hof & _ & Hrof & Hdirect).
  set (u' := persist_commit _ _) in *.
  assert (Hclosed : forall x, rtc (cascades CascadePersist) p x -> x ∈ pp_visited plan).
  { apply rtc_ind_r; [done|]. intros x y _ Hxy IH.
    destruct (pg_walked _ _ _ _ Hprog x IH) as [_ (_ & _ & Hw)]; [cbn; set_solver|auto]. }
  split_and!.
  - intros x Hx. destruct (pg_walked _ _ _ _ Hprog x (Hclosed x Hx)) as [_ (Hr & Hs & _)]; [cbn; set_solver|].
    rewrite Hrof. split; [done|]. rewrite Hof. destruct Hs as [He|?]; [left|by right].
    unfold IsTracked. apply bool_decide_eq_true. destruct (entryOf s x); [by eexists|done].
  - by eexists.
  - intros x id Hx. rewrite Hof. unfold scheduled_as. by rewrite Hx.
  - intros x id. rewrite Hof. intros Hx. destruct (uw_insertOf u !! x) as [i|] eqn:Ei.
    { unfold scheduled_as in Hx. rewrite Ei in Hx. injection Hx as ->. by left. }
    right. destruct (pg_new _ _ _ _ Hprog x) as [Hn|Hr]; [by exists id| |].
    { unfold scheduled_as, newPersistPlan in Hn. rewrite Ei in Hn. cbn in Hn. by destruct Hn. }
    unfold scheduled_as in Hx. rewrite Ei in Hx. apply (po_added _ _ _ Hplan) in Hx as (add & Ha & <- & <-).
    split; [done|]. split; [|by apply (po_orders _ _ _ Hplan)].
    destruct (po_fresh _ _ _ Hplan add Ha) as (_ & _ & Hn). unfold IsTracked. rewrite Hn. apply bool_decide_eq_false. by intros [? ?].
  - intros id Hid. destruct (uo_insertOf _ (proj1 Hok') p id Hid) as (_ & o & Ho & Hp).
    exists o. split; [done|]. split; [done|]. eapply Hdirect; [|exact Ho]. apply Hdir; [done|].
    by rewrite <- Hof.
Qed.

(** ** [Remove] *)

Section Remove.
Context (u : unitOfWork) (root : Ptr) (Htyped : heap_typed).

(** The walk goes on below an instance that is not scheduled already. *)
Definition remove_step (x y : Ptr) : Prop :=
  uw_insertOf u !! x = None /\ uw_removeOf u !! x = None /\ cascades CascadeRemove x y.

Notation reached := (rtc remove_step root).

(** Every collection a remove cascade of [x] goes through is loaded. *)
Definition collections_loaded (x : Ptr) : Prop :=
  forall m r, load (type_of x) = Ok m -> r ∈ Relationships m ->
    Cascade_Has (rel_Cascade r) CascadeRemove = true -> rel_Kind r = RelationshipOneToMany ->
    (targets_of s x r).2 = true.

Definition removal_planned (plan : removePlan) (x : Ptr) : Prop :=
  match uw_insertOf u !! x with
  | Some id => id ∈ rp_cancels plan
  | None => is_Some (uw_removeOf u !! x) \/
      (entryOf s x <> None /\ x ∈ sr_ptr <$> rp_adds plan /\ collections_loaded x)
  end.

Definition removal_walked (plan : removePlan) (x : Ptr) : Prop :=
  removal_planned plan x /\ forall y, remove_step x y -> y ∈ rp_visited plan.

Record rprogress (plan plan' : removePlan) : Prop := {
  rg_visited : rp_visited plan ⊆ rp_visited plan';
  rg_cancels : forall id, id ∈ rp_cancels plan -> id ∈ rp_cancels plan';
  rg_adds : forall x, x ∈ sr_ptr <$> rp_adds plan -> x ∈ sr_ptr <$> rp_adds plan';
  rg_new_cancels : forall id, id ∈ rp_cancels plan' -> id ∈ rp_cancels plan \/
    exists x, reached x /\ uw_insertOf u !! x = Some id;
  rg_new_adds : forall x, x ∈ sr_ptr <$> rp_adds plan' -> x ∈ sr_ptr <$> rp_adds plan \/
    (reached x /\ entryOf s x <> None);
  rg_walked : forall x, x ∈ rp_visited plan' -> x ∉ rp_visited plan ->
    reached x /\ removal_walked plan' x }.

Lemma removal_walked_mono plan plan' x :
  rprogress plan plan' -> removal_walked plan x -> removal_walked plan' x.
Proof.
  intros Hp [H1 H2]. split.
  - unfold removal_planned in *. destruct (uw_insertOf u !! x); [by apply (rg_cancels _ _ Hp)|].
    destruct H1 as [?|(? & ? & ?)]; [by left|]. right. split; [done|]. split; [|done].
    by apply (rg_adds _ _ Hp).
  - intros y Hy. apply (rg_visited _ _ Hp). auto.
Qed.

Lemma rprogress_refl plan : rprogress plan plan.
Proof. split; naive_solver. Qed.

Lemma rprogress_trans p1 p2 p3 : rprogress p1 p2 -> rprogress p2 p3 -> rprogress p1 p3.
Proof.
  intros H12 H23. pose proof H12 as [A1 A2 A3 A4 A5 A6]. pose proof H23 as [B1 B2 B3 B4 B5 B6]. split.
  - set_solver.
  - auto.
  - auto.
  - intros id Hid. destruct (B4 id Hid) as [H|H]; [by apply A4|by right].
  - intros x Hx. destruct (B5 x Hx) as [H|H]; [by apply A5|by right].
  - intros x Hx Hn. destruct (decide (x ∈ rp_visited p2)) as [H2|H2]; [|by apply B6].
    destruct (A6 x H2 Hn) as [Hr Hw]. split; [done|]. by eapply removal_walked_mono.
Qed.

(** Entering an instance the walk stops at. *)
Lemma remove_enter_stop p plan plan' :
  reached p -> p ∉ rp_visited plan ->
  remove_enter load s u (type_of p) p (rp_visit p plan) = (plan', Ok None) ->
  rprogress plan plan' /\ p ∈ rp_visited plan'.
Proof.
  intros Hp Hv H. unfold remove_enter in H. destruct (uw_insertOf u !! p) as [id|] eqn:Ei.
  - injection H as <-. split; [|cbn; set_solver]. split; cbn.
    + set_solver.
    + intros i Hi. apply elem_of_app. by left.
    + done.
    + intros i [Hi|Hi%list_elem_of_singleton]%elem_of_app; [by left|]. subst. right. by exists p.
    + by left.
    + intros x Hx Hn. assert (x = p) as -> by set_solver. split; [done|]. split.
      * unfold removal_planned. rewrite Ei. apply elem_of_app. right. left.
      * intros y (Hn' & _ & _). congruence.
  - destruct (uw_removeOf u !! p) as [r|] eqn:Er.
    + injection H as <-. split; [|cbn; set_solver]. split; cbn; try done; try (by left); [set_solver|].
      intros x Hx Hn. assert (x = p) as -> by set_solver. split; [done|]. split.
      * unfold removal_planned. rewrite Ei. left. by exists r.
      * intros y (_ & Hn' & _). congruence.
    + exfalso. unfold sbind, slift in H.
      destruct (requireWritableKeyedType load (type_of p)); [|done]. by destruct (entryOf s p).
Qed.

(** Entering a tracked instance: its removal is added, and the walk goes on. *)
Lemma remove_enter_go p plan plan1 m :
  remove_enter load s u (type_of p) p (rp_visit p plan) = (plan1, Ok (Some m)) ->
  load (type_of p) = Ok m /\ uw_insertOf u !! p = None /\ entryOf s p <> None /\
  plan1 = rp_add m p (rp_visit p plan).
Proof.
  unfold remove_enter. destruct (uw_insertOf u !! p); [by intros [= _ ?]|].
  destruct (uw_removeOf u !! p); [done|]. unfold sbind, slift.
  destruct (requireWritableKeyedType load (type_of p)) as [m'|] eqn:Em; [|done].
  apply requireWritableKeyedType_load in Em. destruct (entryOf s p) as [e|]; [|done].
  unfold smodify, sret. intros [= <- <-]. done.
Qed.

Lemma remove_visit_progress fuel p plan plan' :
  reached p -> remove_visit load s u fuel (type_of p) p plan = (plan', Ok tt) ->
  rprogress plan plan' /\ p ∈ rp_visited plan'.
Proof.
  revert p plan plan'. induction fuel as [|fuel IH]; intros p plan plan' Hp H; [done|].
  cbn [remove_visit] in H. unfold sbind at 1, sget in H. case_decide as Hv.
  { injection H as <-. split; [apply rprogress_refl|done]. }
  unfold sbind at 1, smodify in H. apply sbind_Ok in H as (plan1 & [m|] & Henter & H).
  2:{ injection H as <-. by apply remove_enter_stop in Henter. }
  destruct (remove_enter_go p plan plan1 m Henter) as (Hm & Hi & He & ->).
  set (plan1 := rp_add m p (rp_visit p plan)) in *.
  destruct (uw_removeOf u !! p) as [r0|] eqn:Er.
  { unfold remove_enter in Henter. rewrite Hi, Er in Henter. discriminate. }
  apply (forS_rel rprogress
    (fun r plan => Cascade_Has (rel_Cascade r) CascadeRemove = true ->
       (rel_Kind r = RelationshipOneToMany -> (targets_of s p r).2 = true) /\
       forall q, q ∈ (targets_of s p r).1 -> q ∈ rp_visited plan)) in H as [Hprog Hall];
    [|exact rprogress_refl|exact rprogress_trans| |].
  2:{ intros r plan2 plan3 Hpg Hq Hc. destruct (Hq Hc) as [H1 H2]. split; [done|].
      intros q Hin. apply (rg_visited _ _ Hpg). auto. }
  2:{ intros r plan2 plan3 Hr' _ Hloop. destruct (Cascade_Has (rel_Cascade r) CascadeRemove) eqn:Ec.
    2:{ injection Hloop as <-. split; [apply rprogress_refl|done]. }
    destruct (negb (targets_of s p r).2 && bool_decide (rel_Kind r = RelationshipOneToMany)) eqn:Eb; [done|].
    apply (forS_rel rprogress (fun q plan => q ∈ rp_visited plan)) in Hloop as [Hpg Hqs];
      [|exact rprogress_refl|exact rprogress_trans| |].
    - split; [done|]. intros _. split; [|done]. intros Hk. rewrite bool_decide_true in Eb by done.
      by destruct (targets_of s p r).2.
    - intros q p2 p3 Hpg Hq. by apply (rg_visited _ _ Hpg).
    - intros q p2 p3 Hq _ Hvisit. rewrite <- (Htyped p m r q Hm Hr' Hq) in Hvisit.
      apply (IH q p2 p3); [|done]. eapply rtc_r; [exact Hp|]. split; [done|]. split; [done|]. by exists m, r. }
  assert (Hpv : p ∈ rp_visited plan') by (apply (rg_visited _ _ Hprog); cbn; set_solver).
  assert (Hpadd : p ∈ sr_ptr <$> rp_adds plan1)
    by (cbn; rewrite fmap_app; apply elem_of_app; right; left).
  assert (Hw : removal_walked plan' p).
  { split.
    - unfold removal_planned. rewrite Hi. right. split; [done|]. split; [by apply (rg_adds _ _ Hprog)|].
      intros m' r Hm' Hr' Hc Hk. rewrite Hm in Hm'. injection Hm' as <-. by apply (Hall r Hr' Hc).
    - intros y (_ & _ & m' & r & Hm' & Hr' & Hc & Hy). rewrite Hm in Hm'. injection Hm' as <-.
      by apply (Hall r Hr' Hc). }
  assert (Hcore : forall x, x ∈ sr_ptr <$> rp_adds plan1 <-> x ∈ sr_ptr <$> rp_adds plan \/ x = p).
  { intros x. change (rp_adds plan1) with (rp_adds plan ++ [mkRemove p m (S (rp_counter plan))]).
    rewrite fmap_app, elem_of_app. change (sr_ptr <$> [mkRemove p m (S (rp_counter plan))]) with [p].
    by rewrite list_elem_of_singleton. }
  split; [|done]. split.
  - pose proof (rg_visited _ _ Hprog) as Hsub. cbn in Hsub. set_solver.
  - intros id Hid. by apply (rg_cancels _ _ Hprog).
  - intros x Hx. apply (rg_adds _ _ Hprog), Hcore. by left.
  - intros id Hid. by apply (rg_new_cancels _ _ Hprog).
  - intros x Hx. destruct (rg_new_adds _ _ Hprog x Hx) as [[?| ->]%Hcore|?]; [by left|by right|by right].
  - intros x Hx Hn. destruct (decide (x = p)) as [->|Hne]; [done|].
    apply (rg_walked _ _ Hprog); [done|]. cbn. set_solver.
Qed.

End Remove.

Lemma cancel_inserts_ext (u1 u2 : unitOfWork) initial :
  uw_inserts u1 = uw_inserts u2 -> uw_insertOf u1 = uw_insertOf u2 -> uw_objects u1 = uw_objects u2 ->
  uw_inserts (cancel u1 initial) = uw_inserts (cancel u2 initial).
Proof.
  destruct u1, u2. cbn. intros -> -> ->. unfold cancel.
  destruct initial as [|i l]; [done|]. cbn -[cancel_loop].
  match goal with |- uw_inserts (let '(_, _) := ?x in _) = _ => destruct x eqn:E end.
  match type of E with _ = ?r => match goal with |- _ = uw_inserts (let '(_, _) := ?y in _) =>
    assert (E2 : y = r) by exact E end end.
  by rewrite E2.
Qed.

Lemma commit_removes_fields adds (u : unitOfWork) :
  let u' := fold_left commit_remove adds u in
  uw_inserts u' = uw_inserts u /\ uw_insertOf u' = uw_insertOf u /\ uw_objects u' = uw_objects u.
Proof. revert u. induction adds as [|a adds IH]; intros u; [done|]. apply (IH (commit_remove u a)). Qed.

Lemma cancel_drops u initial id : id ∈ initial -> id ∉ uw_inserts (cancel u initial).
Proof.
  intros Hid. destruct (cancel_result u initial) as (objects & cancelled & -> & Hinv & _ & _).
  cbn. unfold uncancelled. rewrite elem_filter, negb_true_iff, bool_decide_eq_false.
  intros [_ Hn]. by apply Hn, (ci_initial _ _ _ _ Hinv).
Qed.

(** [Remove] schedules exactly what it reaches.  Its walk goes down the
    remove cascades of instances not scheduled already; when it succeeds, every
    instance it reaches was scheduled for removal before, or is tracked and now
    is - the collections its cascades go through all being loaded - or had a
    scheduled insert, which is cancelled; every new removal is such a tracked
    instance, after the earlier ones; and the inserts that remain are those
    that cancelling the reached ones leaves. *)
Theorem Remove_schedules_reached (u u' : unitOfWork) (p : Ptr)
    (Hok : uow_ok u) (Htyped : heap_typed)
    (H : Remove load s (type_of p) p u = (u', Ok tt)) :
  exists new cancels,
    uw_removes u' = uw_removes u ++ new /\ uw_inserts u' = uw_inserts (cancel u cancels) /\
    (forall r, r ∈ new -> rtc (remove_step u) p (sr_ptr r) /\ IsTracked s (sr_ptr r) = true) /\
    (forall id, id ∈ cancels <-> exists x, rtc (remove_step u) p x /\ uw_insertOf u !! x = Some id) /\
    (forall x, rtc (remove_step u) p x ->
       match uw_insertOf u !! x with
       | Some id => id ∉ uw_inserts u'
       | None => is_Some (uw_removeOf u !! x) \/
           (IsTracked s x = true /\ is_Some (uw_removeOf u' !! x) /\ collections_loaded x)
       end).
Proof.
  unfold Remove, Remove_ in H. destruct (requireUnitOfWork s); [|done].
  pose proof (remove_visit_ok load s u (walk_fuel s) (type_of p) p _ (newRemovePlan_ok u)) as Hplan.
  destruct (remove_visit _ _ _ _ _ _ _) as [plan [[]|e]] eqn:Ev; [|done]. injection H as <-.
  cbn [fst] in Hplan.
  destruct (remove_visit_progress u p Htyped (walk_fuel s) p _ _ (rtc_refl _ _) Ev) as (Hprog & Hvis).
  destruct (remove_commit_spec u plan Hok Hplan) as (Hok' & Hrem).
  set (u' := remove_commit _ _) in *.
  assert (Hclosed : forall x, rtc (remove_step u) p x -> x ∈ rp_visited plan).
  { apply rtc_ind_r; [done|]. intros x y _ Hxy IH.
    destruct (rg_walked _ _ _ _ Hprog x IH) as [_ [_ Hw]]; [cbn; set_solver|auto]. }
  assert (Hplanned : forall x, rtc (remove_step u) p x -> removal_planned u plan x).
  { intros x Hx. destruct (rg_walked _ _ _ _ Hprog x (Hclosed x Hx)) as [_ [Hw _]]; [cbn; set_solver|done]. }
  assert (Hins : uw_inserts u' = uw_inserts (cancel u (rp_cancels plan))).
  { destruct (commit_removes_fields (rp_adds plan) (with_counter u (rp_counter plan))) as (F1 & F2 & F3).
    by apply cancel_inserts_ext. }
  exists (rp_adds plan), (rp_cancels plan). split; [done|]. split; [done|]. split_and!.
  - intros r Hr. destruct (rg_new_adds _ _ _ _ Hprog (sr_ptr r)) as [Hn|[Hn He]].
    + apply list_elem_of_fmap. by exists r.
    + cbn in Hn. by apply not_elem_of_nil in Hn.
    + split; [done|]. apply bool_decide_eq_true. destruct (entryOf s (sr_ptr r)); [by eexists|done].
  - intros id. split.
    + intros Hid. destruct (rg_new_cancels _ _ _ _ Hprog id Hid) as [Hn|?]; [|done].
      cbn in Hn. by apply not_elem_of_nil in Hn.
    + intros (x & Hx & Hi). specialize (Hplanned x Hx). unfold removal_planned in Hplanned.
      by rewrite Hi in Hplanned.
  - intros x Hx. specialize (Hplanned x Hx). unfold removal_planned in Hplanned.
    destruct (uw_insertOf u !! x) as [id|] eqn:Ei.
    + rewrite Hins. by apply cancel_drops.
    + destruct Hplanned as [?|(He & Hadd & Hload)]; [by left|]. right. split; [|split; [|done]].
      * apply bool_decide_eq_true. destruct (entryOf s x); [by eexists|done].
      * apply list_elem_of_fmap in Hadd as (r & -> & Hr). exists r.
        apply (uo_removeOf _ (proj1 Hok')). split; [|done]. rewrite Hrem. apply elem_of_app. by right.
Qed.

End Reach.

(** * Witnesses *)

Lemma order_heap_typed : heap_typed sample_load order_session.
Proof.
  intros p m r q Hm Hr Hq. apply order_targets in Hq. unfold type_of in *. cbn [order_session se_heap] in *.
  destruct Hq as [(-> & [->| ->])|([->| ->] & ->)]; vm_compute in Hm; injection Hm as <-;
    apply list_elem_of_singleton in Hr as ->; reflexivity.
Qed.

Definition persisted : unitOfWork := (Persist sample_load order_session order_type 1 newUnitOfWork).1.

Lemma Persist_schedules_reached_witness :
  rtc (cascades sample_load order_session CascadePersist) 1 3 /\
  uw_removeOf persisted !! 3 = None /\ is_Some (uw_insertOf persisted !! 3).
Proof.
  assert (Hreach : rtc (cascades sample_load order_session CascadePersist) 1 3).
  { apply rtc_once. exists order_map, order_lines. split; [reflexivity|]. split; [left|].
    split; [reflexivity|]. vm_compute. right. left. }
  assert (Hrun : Persist sample_load order_session (type_of order_session 1) 1 newUnitOfWork
                 = (persisted, Ok tt)) by (vm_compute; reflexivity).
  destruct (Persist_schedules_reached sample_load order_session newUnitOfWork persisted 1
    newUnitOfWork_ok order_heap_typed Hrun) as (Hall & _).
  destruct (Hall 3 Hreach) as [Hn [Ht|Hs]]; [vm_compute in Ht; discriminate|].
  split; [exact Hreach|]. split; [exact Hn|exact Hs].
Defined.

(** A tracked product is removed. *)
Definition product_session : Session := mkSession two_copies (Some first_copy).
Definition product_load (_ : GoType) : result EntityMap := Ok product_map.

Lemma product_heap_typed : heap_typed product_load product_session.
Proof. intros p m r q [= <-] Hr. by apply not_elem_of_nil in Hr. Qed.

Lemma Remove_schedules_reached_witness :
  exists u', Remove product_load product_session product_type 1 newUnitOfWork = (u', Ok tt) /\
    is_Some (uw_removeOf u' !! 1).
Proof.
  set (u' := (Remove product_load product_session product_type 1 newUnitOfWork).1).
  assert (Hrun : Remove product_load product_session (type_of product_session 1) 1 newUnitOfWork
                 = (u', Ok tt)) by (vm_compute; reflexivity).
  exists u'. split; [exact Hrun|].
  destruct (Remove_schedules_reached product_load product_session newUnitOfWork u' 1
    newUnitOfWork_ok product_heap_typed Hrun) as (new & cancels & _ & _ & _ & _ & Hall).
  destruct (Hall 1 (rtc_refl _ _)) as [[r Hr]|(_ & Hs & _)]; [vm_compute in Hr; discriminate|exact Hs].
Defined.
