(* ===== verification/Tarjan.v ===== *)
(** Tarjan's algorithm as [rankTypes] runs it (flush.go, the [connect] closure):
    an explicit stack, an index and a low link per visited node, and components
    emitted when a root is left.

    The maps are Go's: a missing entry reads as zero.  The theorem of this file
    is that every run ends, on any finite graph, with one component per class of
    mutually reachable nodes, each after the components it depends on. *)
From S2P Require Import Prelude Values.

Section Tarjan.
Context {A : Type} `{Countable A} (dependsOn : A -> list A).

(** [indices], [lowLinks], [component] are the closure's maps; [stack] has its
    top first; [components] has the members in the order they were popped. *)
Record walk := mkWalk {
  indices : gmap A nat;
  lowLinks : gmap A nat;
  onStack : gset A;
  component : gmap A nat;
  stack : list A;
  components : list (list A);
  next : nat }.

Definition new_walk : walk := mkWalk ∅ ∅ ∅ ∅ [] [] 0.

Definition index (w : walk) (t : A) : nat := default 0 (indices w !! t).
Definition lowLink (w : walk) (t : A) : nat := default 0 (lowLinks w !! t).

Definition enter (t : A) (w : walk) : walk :=
  mkWalk (<[t := next w]> (indices w)) (<[t := next w]> (lowLinks w)) ({[t]} ∪ onStack w) (component w)
    (t :: stack w) (components w) (S (next w)).

Definition set_low (t : A) (n : nat) (w : walk) : walk :=
  mkWalk (indices w) (<[t := n]> (lowLinks w)) (onStack w) (component w) (stack w) (components w) (next w).

(** The loop that pops a component: [members] so far, in pop order. *)
Fixpoint pop_until (t : A) (w : walk) (st : list A) (members : list A) : result walk :=
  match st with
  | [] => Panic "index out of range"
  | top :: rest =>
      let w' := mkWalk (indices w) (lowLinks w) (onStack w ∖ {[top]})
        (<[top := length (components w)]> (component w)) rest (components w) (next w) in
      let members := members ++ [top] in
      if decide (top = t)
      then Ok (mkWalk (indices w') (lowLinks w') (onStack w') (component w') rest (components w ++ [members]) (next w'))
      else pop_until t w' rest members
  end.

Definition visit_dependency (connect : A -> walk -> result walk) (t : A) (w : walk) (d : A) : result walk :=
  match indices w !! d with
  | None =>
      let* w' := connect d w in
      Ok (set_low t (Nat.min (lowLink w' t) (lowLink w' d)) w')
  | Some i =>
      Ok (if decide (d ∈ onStack w) then set_low t (Nat.min (lowLink w t) i) w else w)
  end.

(** The recursion visits a new node each time: the number of nodes is fuel
    enough ([connect_correct]). *)
Fixpoint connect (fuel : nat) (t : A) (w : walk) : result walk :=
  match fuel with
  | 0 => Panic "out of fuel"
  | S fuel' =>
      let* w := foldR (visit_dependency (connect fuel') t) (enter t w) (dependsOn t) in
      if decide (lowLink w t = index w t) then pop_until t w (stack w) [] else Ok w
  end.

Definition connect_new (fuel : nat) (w : walk) (t : A) : result walk :=
  match indices w !! t with
  | None => connect fuel t w
  | Some _ => Ok w
  end.

Definition tarjan (nodes : list A) : result walk :=
  foldR (connect_new (S (length nodes))) new_walk nodes.

(** ** The ranks of the components

    [ranks] so far, by component; a component's rank is one above the greatest
    of the components it depends on. *)
Definition component_of (w : walk) (t : A) : nat := default 0 (component w !! t).

Definition dependency_rank (w : walk) (ranks : list nat) (i : nat) (rank : nat) (d : A) : nat :=
  if decide (component_of w d <> i) then Nat.max rank (S (default 0 (ranks !! component_of w d))) else rank.

Definition component_rank (w : walk) (ranks : list nat) (i : nat) (members : list A) : nat :=
  fold_left (fun rank member => fold_left (dependency_rank w ranks i) (dependsOn member) rank) members 0.

Fixpoint rank_components (w : walk) (i : nat) (cs : list (list A)) (ranks : list nat) (of_node : gmap A nat)
    : gmap A nat :=
  match cs with
  | [] => of_node
  | members :: cs' =>
      let rank := component_rank w ranks i members in
      rank_components w (S i) cs' (ranks ++ [rank])
        (fold_left (fun of_node member => <[member := rank]> of_node) members of_node)
  end.

Definition rank_nodes (nodes : list A) : result (gmap A nat) :=
  let* w := tarjan nodes in Ok (rank_components w 0 (components w) [] ∅).

(** * Correctness *)

Definition edge (x y : A) : Prop := y ∈ dependsOn x.
Notation reach := (rtc edge).

Definition visited (w : walk) (x : A) : Prop := is_Some (indices w !! x).

(** [x] entered the stack before [y]. *)
Definition above (w : walk) (y x : A) : Prop := index w x < index w y.

(** The walk between two steps, [path] being the calls in progress. *)
Record walk_ok (path : list A) (w : walk) : Prop := {
  wo_on : forall x, x ∈ onStack w <-> x ∈ stack w;
  wo_visited : forall x, visited w x <-> x ∈ stack w \/ is_Some (component w !! x);
  wo_live : forall x, x ∈ stack w -> component w !! x = None;
  wo_next : forall x i, indices w !! x = Some i -> i < next w;
  wo_sorted : StronglySorted (above w) (stack w);
  wo_closed : forall x i y, component w !! x = Some i -> edge x y ->
    exists j, component w !! y = Some j /\ j <= i;
  wo_members : forall i ms, components w !! i = Some ms -> forall x, x ∈ ms <-> component w !! x = Some i;
  wo_component : forall x i, component w !! x = Some i -> i < length (components w);
  wo_class : forall x y i, component w !! x = Some i -> component w !! y = Some i -> reach x y;
  wo_path : forall x, x ∈ path -> x ∈ stack w;
  wo_from : forall x y, x ∈ path -> y ∈ stack w -> index w x <= index w y -> reach x y;
  wo_back : forall y, y ∈ stack w -> exists x, x ∈ path /\ index w x <= index w y /\ reach y x;
  wo_done : forall x y, visited w x -> x ∉ path -> edge x y -> visited w y }.

Lemma index_Some w x i : indices w !! x = Some i -> index w x = i.
Proof. unfold index. by intros ->. Qed.

Lemma visited_index w x : visited w x -> indices w !! x = Some (index w x).
Proof. intros [i Hi]. by rewrite (index_Some _ _ _ Hi). Qed.

Lemma stack_visited path w x : walk_ok path w -> x ∈ stack w -> visited w x.
Proof. intros Hw Hx. apply (wo_visited _ _ Hw). by left. Qed.

Lemma above_irrefl_NoDup w l : StronglySorted (above w) l -> NoDup l.
Proof.
  induction 1 as [|x l Hs IH Hf]; constructor; [|done]. intros Hin. rewrite Forall_forall in Hf.
  specialize (Hf x Hin). unfold above in Hf. lia.
Qed.

(** What a call leaves of the walk it was given. *)
Record extends (w w' : walk) (new : list A) : Prop := {
  ex_stack : stack w' = new ++ stack w;
  ex_new : forall x, x ∈ new -> ~ visited w x;
  ex_index : forall x i, indices w !! x = Some i -> indices w' !! x = Some i;
  ex_low : forall x, visited w x -> lowLink w' x = lowLink w x;
  ex_component : forall x i, component w !! x = Some i -> component w' !! x = Some i;
  ex_next : next w <= next w' }.

Lemma extends_refl w : extends w w [].
Proof. split; try done. by intros x ?%not_elem_of_nil. Qed.

Lemma extends_visited w w' new x : extends w w' new -> visited w x -> visited w' x.
Proof. intros He [i Hi]. exists i. by apply (ex_index _ _ _ He). Qed.

Lemma extends_same_index w w' new x : extends w w' new -> visited w x -> index w' x = index w x.
Proof. intros He Hx. apply index_Some, (ex_index _ _ _ He). by apply visited_index. Qed.

Lemma extends_trans w1 w2 w3 new new' :
  extends w1 w2 new -> extends w2 w3 new' -> extends w1 w3 (new' ++ new).
Proof.
  intros H1 H2. split.
  - by rewrite (ex_stack _ _ _ H2), (ex_stack _ _ _ H1), app_assoc.
  - intros x [Hx|Hx]%elem_of_app; [|by apply (ex_new _ _ _ H1)].
    intros Hv. apply (ex_new _ _ _ H2 x Hx). by eapply extends_visited.
  - intros x i Hx. by apply (ex_index _ _ _ H2), (ex_index _ _ _ H1).
  - intros x Hx. rewrite (ex_low _ _ _ H2); [by apply (ex_low _ _ _ H1)|by eapply extends_visited].
  - intros x i Hx. by apply (ex_component _ _ _ H2), (ex_component _ _ _ H1).
  - pose proof (ex_next _ _ _ H1). pose proof (ex_next _ _ _ H2). lia.
Qed.

(** ** Entering a node *)

Lemma index_enter_ne t w x : x <> t -> index (enter t w) x = index w x.
Proof. intros Hx. unfold index. cbn. by rewrite lookup_insert_ne. Qed.
Lemma index_enter t w : index (enter t w) t = next w.
Proof. unfold index. cbn. by rewrite lookup_insert_eq. Qed.

Lemma visited_enter t w x : visited (enter t w) x <-> x = t \/ visited w x.
Proof.
  unfold visited. cbn. destruct (decide (x = t)) as [->|Hx].
  - rewrite lookup_insert_eq. split; [by left|by eexists].
  - rewrite lookup_insert_ne by done. split; [by right|]. by intros [?|?].
Qed.

Lemma StronglySorted_ext {B} (R R' : B -> B -> Prop) l :
  (forall x y, x ∈ l -> y ∈ l -> R x y -> R' x y) -> StronglySorted R l -> StronglySorted R' l.
Proof.
  intros He Hs. induction Hs as [|x l Hs IH Hf]; constructor.
  - apply IH. intros y z Hy Hz. apply He; by right.
  - rewrite Forall_forall in Hf |- *. intros y Hy. apply He; [left|by right|by apply Hf].
Qed.

Lemma node_enter_ok path w t :
  walk_ok path w -> ~ visited w t -> (forall x, x ∈ path -> reach x t) ->
  walk_ok (t :: path) (enter t w) /\ extends w (enter t w) [t].
Proof.
  intros Hw Ht Hreach.
  assert (Hne : forall x, x ∈ stack w -> x <> t) by (intros x Hx ->; by apply Ht, (stack_visited path w)).
  assert (Hpne : forall x, x ∈ path -> x <> t) by (intros x Hx; by apply Hne, (wo_path _ _ Hw)).
  assert (Hidx : forall x, x ∈ stack w -> index w x < next w).
  { intros x Hx. eapply (wo_next _ _ Hw), visited_index. by eapply stack_visited. }
  split.
  2:{ split; try done.
      - by intros x ->%list_elem_of_singleton.
      - intros x i Hx. cbn. rewrite lookup_insert_ne; [done|]. intros <-. apply Ht. by exists i.
      - intros x Hx. unfold lowLink. cbn. rewrite lookup_insert_ne; [done|]. by intros <-.
      - cbn. lia. }
  split.
  - intros x. cbn. rewrite elem_of_union, elem_of_singleton, elem_of_cons. by rewrite (wo_on _ _ Hw).
  - intros x. rewrite visited_enter. cbn. rewrite elem_of_cons, (wo_visited _ _ Hw). tauto.
  - intros x. cbn. intros [->|Hx]%elem_of_cons; [|by apply (wo_live _ _ Hw)].
    destruct (component w !! t) eqn:E; [|done]. destruct Ht. apply (wo_visited _ _ Hw). right. by eexists.
  - intros x i. cbn. intros [[<- <-]|[_ Hx]]%lookup_insert_Some; [lia|].
    pose proof (wo_next _ _ Hw x i Hx). lia.
  - cbn. constructor.
    + eapply StronglySorted_ext; [|apply (wo_sorted _ _ Hw)]. intros x y Hx Hy. unfold above.
      by rewrite !index_enter_ne by auto.
    + apply Forall_forall. intros x Hx. unfold above. rewrite index_enter, index_enter_ne by auto. by apply Hidx.
  - apply (wo_closed _ _ Hw).
  - apply (wo_members _ _ Hw).
  - apply (wo_component _ _ Hw).
  - apply (wo_class _ _ Hw).
  - intros x [->|Hx]%elem_of_cons; cbn; [left|right; by apply (wo_path _ _ Hw)].
  - intros x y Hx Hy. cbn in Hy. apply elem_of_cons in Hx, Hy.
    destruct Hx as [->|Hx], Hy as [->|Hy].
    + intros _. apply rtc_refl.
    + rewrite index_enter, index_enter_ne by auto. specialize (Hidx y Hy). lia.
    + intros _. by apply Hreach.
    + rewrite !index_enter_ne by auto. by apply (wo_from _ _ Hw).
  - intros y [->|Hy]%elem_of_cons.
    + exists t. split; [left|]. split; [done|apply rtc_refl].
    + destruct (wo_back _ _ Hw y Hy) as (x & Hx & Hle & Hr). exists x. split; [by right|].
      rewrite !index_enter_ne by auto. done.
  - intros x y Hx [Hxt Hp]%not_elem_of_cons He. apply visited_enter. right.
    apply visited_enter in Hx as [->|Hx]; [done|]. by eapply (wo_done _ _ Hw).
Qed.

(** ** The low link of a node *)

Lemma set_low_ok path w t n : walk_ok path w -> walk_ok path (set_low t n w).
Proof. intros []. by split. Qed.

Lemma set_low_eq t n w : lowLink (set_low t n w) t = n.
Proof. unfold lowLink. cbn. by rewrite lookup_insert_eq. Qed.
Lemma set_low_ne t n w x : x <> t -> lowLink (set_low t n w) x = lowLink w x.
Proof. intros Hx. unfold lowLink. cbn. by rewrite lookup_insert_ne. Qed.

(** The calls above [t] and the loop over its dependencies, [done] so far: the
    low link is [t]'s index or that of an older node reached, and no edge out of
    the new nodes goes below it. *)
Record looping (path : list A) (t : A) (w w' : walk) (new done : list A) : Prop := {
  lp_ok : walk_ok (t :: path) w';
  lp_ext : extends w w' (new ++ [t]);
  lp_index : index w' t = next w;
  lp_le : lowLink w' t <= next w;
  lp_low : lowLink w' t = next w \/ exists y, y ∈ stack w /\ index w y = lowLink w' t /\ reach t y;
  lp_new : forall x y, x ∈ new -> edge x y -> y ∈ stack w -> lowLink w' t <= index w y;
  lp_own : forall y, y ∈ done -> y ∈ stack w -> lowLink w' t <= index w y;
  lp_done : forall y, y ∈ done -> visited w' y }.

Lemma looping_enter path w t :
  walk_ok path w -> ~ visited w t -> (forall x, x ∈ path -> reach x t) ->
  looping path t w (enter t w) [] [].
Proof.
  intros Hw Ht Hreach. destruct (node_enter_ok path w t Hw Ht Hreach) as [Hok He].
  assert (Hl : lowLink (enter t w) t = next w) by (unfold lowLink; cbn; by rewrite lookup_insert_eq).
  split; [done|done|apply index_enter|lia|by left|..].
  - by intros x y ?%not_elem_of_nil.
  - by intros y ?%not_elem_of_nil.
  - by intros y ?%not_elem_of_nil.
Qed.

(** What a call promises its caller: the walk extended, the node visited, and
    either a component emitted or a low link to an older node. *)
Record connected (path : list A) (t : A) (w w' : walk) (new : list A) : Prop := {
  co_ok : walk_ok path w';
  co_ext : extends w w' new;
  co_visited : visited w' t;
  co_low : (new = [] /\ next w <= lowLink w' t) \/
    (exists y, y ∈ stack w /\ index w y = lowLink w' t /\ reach t y);
  co_new : forall x y, x ∈ new -> edge x y -> y ∈ stack w -> lowLink w' t <= index w y }.

Lemma old_index path t w w' new done y :
  walk_ok path w -> looping path t w w' new done -> y ∈ stack w -> index w' y = index w y.
Proof. intros Hw Hl Hy. eapply extends_same_index; [by apply Hl|by eapply stack_visited]. Qed.

(** An index below [t]'s is an older node's. *)
Lemma below_root path t w w' new done y :
  walk_ok path w -> looping path t w w' new done -> y ∈ stack w' -> index w' y < next w -> y ∈ stack w.
Proof.
  intros Hw Hl Hy Hlt. rewrite (ex_stack _ _ _ (lp_ext _ _ _ _ _ _ Hl)) in Hy.
  apply elem_of_app in Hy as [Hy|Hy]; [|done]. exfalso.
  pose proof (wo_sorted _ _ (lp_ok _ _ _ _ _ _ Hl)) as Hs.
  rewrite (ex_stack _ _ _ (lp_ext _ _ _ _ _ _ Hl)), <- app_assoc in Hs.
  apply elem_of_app in Hy as [Hy|Hy%list_elem_of_singleton].
  - pose proof (StronglySorted_app_1_elem_of _ _ _ y t Hs Hy (list_elem_of_here _ _)) as Ha.
    unfold above in Ha. rewrite (lp_index _ _ _ _ _ _ Hl) in Ha. lia.
  - subst y. rewrite (lp_index _ _ _ _ _ _ Hl) in Hlt. lia.
Qed.

(** ** One dependency *)

Lemma looping_low path t w w' new done n :
  looping path t w w' new done -> n <= lowLink w' t ->
  (n = lowLink w' t \/ exists y, y ∈ stack w /\ index w y = n /\ reach t y) ->
  ~ visited w t ->
  looping path t w (set_low t n w') new done.
Proof.
  intros [L1 L2 L3 L4 L5 L6 L7 L8] Hn Hlow Ht. split; rewrite ?set_low_eq; try done.
  - by apply set_low_ok.
  - destruct L2 as [E1 E2 E3 E4 E5 E6]. split; try done. intros x Hx. rewrite set_low_ne; [by apply E4|].
    by intros ->.
  - lia.
  - destruct Hlow as [->|Hlow]; [done|by right].
  - intros x y Hx He Hy. specialize (L6 x y Hx He Hy). lia.
  - intros y Hy Hs. specialize (L7 y Hy Hs). lia.
Qed.

Lemma looping_visited path t w w' new done d :
  walk_ok path w -> ~ visited w t -> edge t d -> looping path t w w' new done -> visited w' d ->
  exists w2, visit_dependency (fun _ _ => Panic "") t w' d = Ok w2 /\
    looping path t w w2 new (done ++ [d]).
Proof.
  intros Hw Ht He Hl Hd. pose proof (visited_index w' d Hd) as Hi.
  unfold visit_dependency. rewrite Hi. eexists. split; [done|].
  assert (Hsnoc : forall w2, looping path t w w2 new done -> visited w2 d ->
            (d ∈ stack w -> lowLink w2 t <= index w d) -> looping path t w w2 new (done ++ [d])).
  { intros w2 [L1 L2 L3 L4 L5 L6 L7 L8] Hv Hlow. split; try done.
    - intros y [Hy|Hy%list_elem_of_singleton]%elem_of_app Hs; [by apply L7|by subst; apply Hlow].
    - intros y [Hy|Hy%list_elem_of_singleton]%elem_of_app; [by apply L8|by subst]. }
  pose proof (lp_ok _ _ _ _ _ _ Hl) as Hok.
  case_decide as Hon.
  - apply Hsnoc.
    + apply looping_low; [done|lia| |done]. destruct (decide (lowLink w' t <= index w' d)); [left; lia|].
      right. pose proof (lp_le _ _ _ _ _ _ Hl). exists d.
      assert (Hds : d ∈ stack w).
      { apply (below_root path t w w' new done); [done|done|by apply (wo_on _ _ Hok)|lia]. }
      split; [done|]. split; [|by apply rtc_once]. rewrite <- (old_index path t w w' new done) by done. lia.
    + exact Hd.
    + intros Hs. rewrite set_low_eq, <- (old_index path t w w' new done) by done. lia.
  - apply Hsnoc; [done|done|]. intros Hs. destruct Hon. apply (wo_on _ _ Hok).
    rewrite (ex_stack _ _ _ (lp_ext _ _ _ _ _ _ Hl)). apply elem_of_app. by right.
Qed.

Lemma looping_connected path t w w' new done d w2 new2 :
  walk_ok path w -> ~ visited w t -> edge t d -> looping path t w w' new done -> ~ visited w' d ->
  connected (t :: path) d w' w2 new2 ->
  looping path t w (set_low t (Nat.min (lowLink w2 t) (lowLink w2 d)) w2) (new2 ++ new) (done ++ [d]).
Proof.
  intros Hw Ht He Hl Hd [C1 C2 C3 C4 C5]. pose proof (lp_ok _ _ _ _ _ _ Hl) as Hok.
  assert (Htv : visited w' t).
  { eapply stack_visited; [exact Hok|]. apply (wo_path _ _ Hok). left. }
  assert (Hlow : lowLink w2 t = lowLink w' t) by (by apply (ex_low _ _ _ C2)).
  assert (Hidx : index w2 t = next w).
  { rewrite (extends_same_index w' w2 new2) by done. by apply Hl. }
  assert (Hnext : next w < next w').
  { pose proof (lp_index _ _ _ _ _ _ Hl) as E. rewrite <- E.
    apply (wo_next _ _ Hok t). by apply visited_index. }
  pose proof (lp_le _ _ _ _ _ _ Hl) as Hle.
  assert (Hold : forall y, y ∈ stack w -> y ∈ stack w').
  { intros y Hy. rewrite (ex_stack _ _ _ (lp_ext _ _ _ _ _ _ Hl)). apply elem_of_app. by right. }
  assert (Hsame : forall y, y ∈ stack w -> index w' y = index w y) by (intros; by eapply old_index).
  set (n := Nat.min _ _).
  assert (Hlown : lowLink (set_low t n w2) t = n) by apply set_low_eq.
  assert (Hdone : forall y, y ∈ done -> y ∈ stack w -> n <= index w y).
  { intros y Hy Hs. pose proof (lp_own _ _ _ _ _ _ Hl y Hy Hs). subst n. lia. }
  split; rewrite ?Hlown.
  - by apply set_low_ok.
  - rewrite <- app_assoc.
    destruct (extends_trans _ _ _ _ _ (lp_ext _ _ _ _ _ _ Hl) C2) as [E1 E2 E3 E4 E5 E6]. split; try done.
    intros x Hx. rewrite set_low_ne; [by apply E4|]. by intros ->.
  - exact Hidx.
  - subst n. lia.
  - subst n. destruct (decide (lowLink w2 t <= lowLink w2 d)).
    + rewrite Nat.min_l, Hlow by done. apply (lp_low _ _ _ _ _ _ Hl).
    + right. rewrite Nat.min_r by lia.
      destruct C4 as [[_ Hge]|(y & Hy & Hi & Hr)]; [lia|]. exists y.
      assert (Hys : y ∈ stack w) by (apply (below_root path t w w' new done); [done..|lia]).
      split; [done|]. split; [by rewrite <- Hsame|]. by eapply rtc_l.
  - intros x y [Hx|Hx]%elem_of_app Hxy Hy.
    + specialize (C5 x y Hx Hxy (Hold y Hy)). rewrite Hsame in C5 by done. subst n. lia.
    + pose proof (lp_new _ _ _ _ _ _ Hl x y Hx Hxy Hy). subst n. lia.
  - intros y [Hy|Hy%list_elem_of_singleton]%elem_of_app Hs; [by apply Hdone|]. subst y.
    destruct Hd. apply (stack_visited (t :: path)); [done|by apply Hold].
  - intros y [Hy|Hy%list_elem_of_singleton]%elem_of_app; [|by subst y].
    change (visited w2 y). eapply extends_visited; [exact C2|]. by apply (lp_done _ _ _ _ _ _ Hl).
Qed.

(** ** Leaving a node *)

(** Popping [new ++ [t]] off the stack. *)
Lemma pop_until_eq t w new rest members :
  t ∉ new ->
  pop_until t w (new ++ t :: rest) members = Ok (mkWalk (indices w) (lowLinks w)
    (onStack w ∖ list_to_set (new ++ [t]))
    (foldl (fun c x => <[x := length (components w)]> c) (component w) (new ++ [t]))
    rest (components w ++ [members ++ new ++ [t]]) (next w)).
Proof.
  revert w members. induction new as [|x new IH]; intros w members Ht; cbn [app pop_until].
  - rewrite decide_True by done. cbn. do 2 f_equal. set_solver.
  - apply not_elem_of_cons in Ht as [Hx Ht]. rewrite decide_False by done. rewrite IH by done.
    cbn. rewrite <- app_assoc. cbn. do 2 f_equal. set_solver.
Qed.

Lemma assign_lookup (l : list A) (n : nat) (c : gmap A nat) x :
  foldl (fun c y => <[y := n]> c) c l !! x = if decide (x ∈ l) then Some n else c !! x.
Proof.
  revert c. induction l as [|y l IH]; intros c; cbn [foldl].
  - by rewrite decide_False by apply not_elem_of_nil.
  - rewrite IH. destruct (decide (x ∈ l)) as [Hl|Hl].
    + by rewrite decide_True by (by right).
    + destruct (decide (x = y)) as [->|Hxy].
      * rewrite lookup_insert_eq, decide_True; [done|left].
      * rewrite lookup_insert_ne, decide_False by (done || by apply not_elem_of_cons). done.
Qed.

(** The whole loop over the dependencies is done: [t] is left. *)
Section Leave.
Context (path : list A) (t : A) (w w' : walk) (new : list A).
Context (Hw : walk_ok path w) (Ht : ~ visited w t) (Hreach : forall x, x ∈ path -> reach x t).
Context (Hl : looping path t w w' new (dependsOn t)).
Local Definition Hok := lp_ok _ _ _ _ _ _ Hl.

Lemma leave_stack : stack w' = new ++ t :: stack w.
Proof. rewrite (ex_stack _ _ _ (lp_ext _ _ _ _ _ _ Hl)). by rewrite <- app_assoc. Qed.

Lemma leave_NoDup : NoDup (new ++ t :: stack w).
Proof. rewrite <- leave_stack. apply (above_irrefl_NoDup w'), (wo_sorted _ _ Hok). Qed.

Lemma leave_edges x y : x ∈ new ++ [t] -> edge x y -> visited w' y.
Proof.
  intros Hx He. pose proof leave_NoDup as Hnd. apply elem_of_app in Hx as [Hx|Hx%list_elem_of_singleton].
  - apply (wo_done _ _ Hok x); [| |done].
    + apply (stack_visited (t :: path)); [apply Hok|]. rewrite leave_stack. apply elem_of_app. by left.
    + intros [Hxt|Hp]%elem_of_cons; apply NoDup_app in Hnd as (_ & Hnd & _); apply (Hnd x Hx).
      * subst. left.
      * right. by apply (wo_path _ _ Hw).
  - subst x. by apply (lp_done _ _ _ _ _ _ Hl).
Qed.

(** A root: nothing new reaches an older node. *)
Lemma root_closed x y :
  lowLink w' t = next w -> x ∈ new ++ [t] -> edge x y -> y ∈ new ++ [t] \/ is_Some (component w' !! y).
Proof.
  intros Hroot Hx He. pose proof (leave_edges x y Hx He) as Hv.
  apply (wo_visited _ _ Hok) in Hv as [Hy|Hy]; [|by right]. left.
  rewrite leave_stack in Hy. apply elem_of_app in Hy as [Hy|[Hy|Hy]%elem_of_cons].
  - apply elem_of_app. by left.
  - subst. apply elem_of_app. right. left.
  - exfalso. assert (index w y < next w).
    { eapply (wo_next _ _ Hw), visited_index. by eapply stack_visited. }
    apply elem_of_app in Hx as [Hx|Hx%list_elem_of_singleton].
    + pose proof (lp_new _ _ _ _ _ _ Hl x y Hx He Hy). lia.
    + subst x. pose proof (lp_own _ _ _ _ _ _ Hl y He Hy). lia.
Qed.

Lemma root_reach x y :
  lowLink w' t = next w -> x ∈ new ++ [t] -> reach x y -> y ∈ new ++ [t] \/ is_Some (component w' !! y).
Proof.
  intros Hroot Hx Hr.
  assert (Hinv : x ∈ new ++ [t] \/ is_Some (component w' !! x)) by (by left). clear Hx.
  induction Hr as [x|x z y He _ IH]; [done|]. apply IH. destruct Hinv as [Hx|[i Hx]].
  - by eapply root_closed.
  - right. destruct (wo_closed _ _ Hok x i z Hx He) as (j & Hj & _). by eexists.
Qed.

Lemma root_class x : lowLink w' t = next w -> x ∈ new ++ [t] -> reach x t /\ reach t x.
Proof.
  intros Hroot Hx. assert (Hxs : x ∈ stack w').
  { rewrite leave_stack. apply elem_of_app in Hx as [Hx|Hx%list_elem_of_singleton]; apply elem_of_app;
      [by left|right; subst; left]. }
  assert (Hix : index w' t <= index w' x).
  { pose proof (wo_sorted _ _ Hok) as Hs. rewrite leave_stack in Hs.
    apply elem_of_app in Hx as [Hx|Hx%list_elem_of_singleton]; [|by subst].
    pose proof (StronglySorted_app_1_elem_of _ _ _ x t Hs Hx (list_elem_of_here _ _)) as Ha.
    unfold above in Ha. lia. }
  split.
  - destruct (wo_back _ _ Hok x Hxs) as (g & [->|Hg]%elem_of_cons & _ & Hr); [done|]. exfalso.
    pose proof (wo_path _ _ Hw g Hg) as Hgs. pose proof leave_NoDup as Hnd.
    destruct (root_reach x g Hroot Hx Hr) as [Hin|[i Hi]].
    + change (t :: stack w) with ([t] ++ stack w) in Hnd. rewrite app_assoc in Hnd.
      apply NoDup_app in Hnd as (_ & Hnd & _). by apply (Hnd g Hin).
    + assert (Hgs' : g ∈ stack w') by (rewrite leave_stack; apply elem_of_app; right; by right).
      rewrite (wo_live _ _ Hok g Hgs') in Hi. done.
  - apply (wo_from _ _ Hok); [left|done|done].
Qed.

(** Not a root: the node stays on the stack. *)
Lemma leave_low : lowLink w' t <> next w -> connected path t w w' (new ++ [t]).
Proof.
  intros Hlow. destruct (lp_low _ _ _ _ _ _ Hl) as [?|(y & Hy & Hi & Hr)]; [done|].
  assert (Hys : index w y < next w).
  { eapply (wo_next _ _ Hw), visited_index. by eapply stack_visited. }
  assert (Hold : forall z, z ∈ stack w -> index w' z = index w z) by (intros; by eapply old_index).
  split.
  - destruct Hok as [O1 O2 O3 O4 O5 O6 O7 O8 O9 O10 O11 O12 O13]. split; try done.
    + intros x Hx. apply O10. by right.
    + intros x z Hx. apply O11. by right.
    + intros z Hz. destruct (O12 z Hz) as (g & [->|Hg]%elem_of_cons & Hle & Hrz); [|by exists g].
      destruct (wo_back _ _ Hw y Hy) as (g & Hg & Hgle & Hgr). exists g. split; [done|].
      pose proof (lp_index _ _ _ _ _ _ Hl). pose proof (wo_path _ _ Hw g Hg). rewrite Hold by done.
      split; [lia|]. by do 2 (etrans; [eassumption|]).
    + intros x z Hx Hnp He. destruct (decide (x = t)) as [->|Hne].
      * by apply (lp_done _ _ _ _ _ _ Hl).
      * eapply O13; [exact Hx| |exact He]. by apply not_elem_of_cons.
  - apply Hl.
  - apply (stack_visited (t :: path)); [apply Hok|]. apply (wo_path _ _ Hok). left.
  - right. by exists y.
  - intros x z [Hx|Hx%list_elem_of_singleton]%elem_of_app He Hz.
    + by apply (lp_new _ _ _ _ _ _ Hl x).
    + subst x. by apply (lp_own _ _ _ _ _ _ Hl).
Qed.

(** A root: its component is emitted. *)
Lemma leave_root :
  lowLink w' t = next w ->
  exists w2, pop_until t w' (stack w') [] = Ok w2 /\ connected path t w w2 [].
Proof.
  intros Hroot. pose proof leave_NoDup as Hnd. pose proof leave_stack as Hst.
  assert (Htn : t ∉ new).
  { apply NoDup_app in Hnd as (_ & Hnd & _). intros Hin. apply (Hnd t Hin). left. }
  rewrite Hst, pop_until_eq by done. eexists. split; [done|]. set (w2 := mkWalk _ _ _ _ _ _ _).
  assert (Hcomp : forall x, component w2 !! x =
            if decide (x ∈ new ++ [t]) then Some (length (components w')) else component w' !! x)
    by (intros x; apply assign_lookup).
  assert (Hdisj : forall x, x ∈ stack w -> x ∉ new ++ [t]).
  { intros x Hx Hin. change (t :: stack w) with ([t] ++ stack w) in Hnd. rewrite app_assoc in Hnd.
    apply NoDup_app in Hnd as (_ & Hnd & _). by apply (Hnd x Hin). }
  assert (Hext : extends w w2 []).
  { destruct (lp_ext _ _ _ _ _ _ Hl) as [E1 E2 E3 E4 E5 E6]. split; try done.
    - by intros x ?%not_elem_of_nil.
    - intros x i Hx. rewrite Hcomp, decide_False; [by apply E5|].
      intros Hin. apply (E2 x Hin). apply (wo_visited _ _ Hw). right. by eexists. }
  destruct Hok as [O1 O2 O3 O4 O5 O6 O7 O8 O9 O10 O11 O12 O13].
  assert (Hlive : forall x, x ∈ stack w -> x ∈ stack w').
  { intros x Hx. rewrite Hst. apply elem_of_app. right. by right. }
  assert (Hidx : forall x, x ∈ stack w -> index w2 x = index w x).
  { intros x Hx. eapply extends_same_index; [exact Hext|]. by eapply stack_visited. }
  split; [split|exact Hext| | |].
  - intros x. cbn. rewrite elem_of_difference, elem_of_list_to_set, O1, Hst.
    change (t :: stack w) with ([t] ++ stack w). rewrite app_assoc, (elem_of_app (new ++ [t])).
    split; [tauto|]. intros Hx. split; [by right|by apply Hdisj].
  - intros x. change (visited w2 x) with (visited w' x). rewrite O2, Hcomp, Hst.
    change (t :: stack w) with ([t] ++ stack w). rewrite app_assoc, (elem_of_app (new ++ [t])). cbn [stack].
    change (stack w2) with (stack w). case_decide as Hin.
    + split; [intros _; right; by eexists|tauto].
    + tauto.
  - intros x Hx. rewrite Hcomp, decide_False by by apply Hdisj. by apply O3, Hlive.
  - exact O4.
  - eapply StronglySorted_ext; [|apply (wo_sorted _ _ Hw)]. intros x y Hx Hy. unfold above.
    by rewrite !Hidx.
  - intros x i y. rewrite !Hcomp. case_decide as Hx.
    + intros [= <-] He. destruct (root_closed x y Hroot Hx He) as [Hy|[j Hy]].
      * rewrite decide_True by done. by eexists.
      * case_decide; [by eexists|]. exists j. split; [done|]. apply O8 in Hy. lia.
    + intros Hi He. destruct (O6 x i y Hi He) as (j & Hj & Hle). rewrite decide_False; [by exists j|].
      intros Hy. assert (Hys : y ∈ stack w').
      { rewrite Hst. change (t :: stack w) with ([t] ++ stack w). rewrite app_assoc. apply elem_of_app. by left. }
      rewrite (O3 y Hys) in Hj. done.
  - intros i ms Hms x. rewrite Hcomp. cbn in Hms. apply lookup_snoc_Some in Hms as [[Hlt Hms]|[-> <-]].
    + rewrite (O7 i ms Hms). case_decide as Hx; [|done]. split; [|intros [= <-]; lia].
      intros Hi. assert (Hxs : x ∈ stack w').
      { rewrite Hst. change (t :: stack w) with ([t] ++ stack w). rewrite app_assoc. apply elem_of_app. by left. }
      rewrite (O3 x Hxs) in Hi. done.
    + case_decide as Hx; [done|]. split; [done|]. intros Hi. apply O8 in Hi. lia.
  - intros x i. rewrite Hcomp. cbn. rewrite length_app. cbn. case_decide; [intros [= <-]; lia|].
    intros Hi. apply O8 in Hi. lia.
  - intros x y i. rewrite !Hcomp. case_decide as Hx; case_decide as Hy.
    + intros _ _. etrans; [by apply root_class|by apply root_class].
    + intros [= <-] Hi. apply O8 in Hi. lia.
    + intros Hi [= <-]. apply O8 in Hi. lia.
    + apply O9.
  - apply (wo_path _ _ Hw).
  - intros x y Hx Hy. pose proof (wo_path _ _ Hw x Hx). rewrite !Hidx by done. by apply (wo_from _ _ Hw).
  - intros y Hy. destruct (wo_back _ _ Hw y Hy) as (x & Hx & Hle & Hr). exists x.
    pose proof (wo_path _ _ Hw x Hx). rewrite !Hidx by done. done.
  - intros x y Hx Hnp He. change (visited w' y). change (visited w' x) in Hx.
    destruct (decide (x = t)) as [->|Hne]; [by apply (lp_done _ _ _ _ _ _ Hl)|].
    eapply O13; [exact Hx| |exact He]. by apply not_elem_of_cons.
  - change (visited w' t). apply O2. left. rewrite Hst. apply elem_of_app. right. left.
  - left. split; [done|]. change (lowLink w2 t) with (lowLink w' t). lia.
  - by intros x y ?%not_elem_of_nil.
Qed.
End Leave.

(** ** The whole walk *)

Section Graph.
Context (nodes : gset A) (Hnodes : forall x y, x ∈ nodes -> edge x y -> y ∈ nodes).

(** Nodes not visited yet. *)
Definition unvisited (w : walk) : gset A := nodes ∖ dom (indices w).

Lemma unvisited_mono w w' :
  (forall x, visited w x -> visited w' x) -> size (unvisited w') <= size (unvisited w).
Proof.
  intros Hv. apply subseteq_size. unfold unvisited. intros x. rewrite !elem_of_difference, !elem_of_dom.
  intros [H1 H2]. split; [done|]. intros Hx. by apply H2, Hv.
Qed.

Lemma connect_correct fuel t w path :
  walk_ok path w -> ~ visited w t -> t ∈ nodes -> (forall x, x ∈ path -> reach x t) ->
  size (unvisited w) < fuel ->
  exists w' new, connect fuel t w = Ok w' /\ connected path t w w' new.
Proof.
  revert t w path. induction fuel as [|fuel IH]; intros t w path Hw Ht Hin Hreach Hfuel; [lia|].
  cbn [connect].
  assert (Hloop : forall done rest w' new, dependsOn t = done ++ rest -> looping path t w w' new done ->
            exists w2 new2, foldR (visit_dependency (connect fuel) t) w' rest = Ok w2 /\
              looping path t w w2 new2 (dependsOn t)).
  { intros done rest. revert done. induction rest as [|d rest IHr]; intros done w' new Hd Hl.
    - exists w', new. split; [reflexivity|]. by rewrite Hd, app_nil_r.
    - cbn [foldR]. assert (He : edge t d) by (unfold edge; rewrite Hd; apply elem_of_app; right; left).
      destruct (decide (visited w' d)) as [Hv|Hv].
      + destruct (looping_visited path t w w' new done d Hw Ht He Hl Hv) as (w2 & Hv2 & Hl2).
        assert (Heq : visit_dependency (connect fuel) t w' d = Ok w2).
        { unfold visit_dependency in *. destruct Hv as [i Hi]. by rewrite Hi in *. }
        rewrite Heq. cbn [mbind result_bind]. apply (IHr (done ++ [d]) w2 new); [|exact Hl2].
        by rewrite <- app_assoc.
      + assert (Hfuel' : size (unvisited w') < fuel).
        { assert (Hsub : unvisited w' ⊂ unvisited w).
          { apply strict_spec_alt. split.
            - unfold unvisited. intros x. rewrite !elem_of_difference, !elem_of_dom. intros [H1 H2]. split; [exact H1|].
              intros Hx. apply H2. change (visited w' x). eapply extends_visited; [apply Hl|exact Hx].
            - intros Heq. assert (Htu : t ∈ unvisited w).
              { unfold unvisited. rewrite elem_of_difference, elem_of_dom. by split. }
              rewrite <- Heq in Htu. unfold unvisited in Htu. rewrite elem_of_difference, elem_of_dom in Htu.
              apply Htu. change (visited w' t). apply (stack_visited (t :: path)); [apply Hl|].
              apply (wo_path _ _ (lp_ok _ _ _ _ _ _ Hl)). left. }
          apply subset_size in Hsub. lia. }
        destruct (IH d w' (t :: path)) as (w2 & new2 & Hc & Hco); [apply Hl|exact Hv|by eapply Hnodes| |exact Hfuel'|].
        { intros x [->|Hx]%elem_of_cons; [by apply rtc_once|]. eapply rtc_r; [by apply Hreach|exact He]. }
        assert (Heq : visit_dependency (connect fuel) t w' d
                    = Ok (set_low t (Nat.min (lowLink w2 t) (lowLink w2 d)) w2)).
        { unfold visit_dependency. destruct (indices w' !! d) as [i|] eqn:Ei; [destruct Hv; by exists i|].
          by rewrite Hc. }
        rewrite Heq. cbn [mbind result_bind].
        apply (IHr (done ++ [d]) _ (new2 ++ new)); [by rewrite <- app_assoc|].
        by apply (looping_connected path t w w' new done). }
  destruct (Hloop [] (dependsOn t) (enter t w) [] eq_refl (looping_enter path w t Hw Ht Hreach))
    as (w' & new & Hf & Hl).
  rewrite Hf. cbn [mbind result_bind]. rewrite (lp_index _ _ _ _ _ _ Hl).
  case_decide as Hroot.
  - destruct (leave_root path t w w' new Hw Hl Hroot) as (w2 & Hp & Hco). rewrite Hp. by exists w2, [].
  - exists w', (new ++ [t]). split; [reflexivity|]. by apply leave_low.
Qed.
End Graph.

(** ** Every node *)

Lemma new_walk_ok : walk_ok [] new_walk.
Proof.
  assert (Hv : forall x, ~ visited new_walk x)
    by (intros x [i Hi]; cbn in Hi; by rewrite lookup_empty in Hi).
  split; try (by intros x y Hx%Hv); try (intros *; cbn; rewrite ?lookup_empty; set_solver).
  constructor.
Qed.

Lemma size_nodes (l : list A) : size (list_to_set (C := gset A) l) <= length l.
Proof.
  induction l as [|x l IH]; cbn [list_to_set length]; [by rewrite size_empty|].
  rewrite size_union_alt, size_singleton.
  pose proof (subseteq_size (list_to_set (C := gset A) l ∖ {[x]}) (list_to_set l)) as Hs.
  specialize (Hs ltac:(set_solver)). lia.
Qed.

Lemma tarjan_correct (nodes : list A) :
  (forall x y, x ∈ nodes -> edge x y -> y ∈ nodes) ->
  exists w, tarjan nodes = Ok w /\ walk_ok [] w /\ forall x, x ∈ nodes -> exists i, component w !! x = Some i.
Proof.
  intros Hclosed. unfold tarjan.
  assert (Hsub : forall l w, (forall x, x ∈ l -> x ∈ nodes) -> walk_ok [] w ->
            exists w', foldR (connect_new (S (length nodes))) w l = Ok w' /\ walk_ok [] w' /\
              (forall x, visited w x -> visited w' x) /\ forall x, x ∈ l -> visited w' x).
  { intros l. induction l as [|t l IH]; intros w Hl Hw.
    { exists w. split; [done|]. split; [done|]. split; [done|]. by intros x ?%not_elem_of_nil. }
    assert (Hstep : exists w1, connect_new (S (length nodes)) w t = Ok w1 /\ walk_ok [] w1 /\
              (forall x, visited w x -> visited w1 x) /\ visited w1 t).
    { unfold connect_new. destruct (indices w !! t) as [i|] eqn:Ei; [exists w; split_and!; try done; by exists i|].
      destruct (connect_correct (list_to_set nodes)) with (fuel := S (length nodes)) (t := t) (w := w) (path := @nil A)
        as (w1 & new & Hc & [C1 C2 C3 C4 C5]).
      - intros x y. rewrite !elem_of_list_to_set. apply Hclosed.
      - done.
      - intros [j Hj]. congruence.
      - apply elem_of_list_to_set, Hl. left.
      - by intros x ?%not_elem_of_nil.
      - apply Nat.lt_succ_r. etrans; [apply subseteq_size|apply (size_nodes nodes)].
        unfold unvisited. set_solver.
      - exists w1. split; [done|]. split; [done|]. split; [|done]. intros x. by eapply extends_visited. }
    destruct Hstep as (w1 & Hc & Hw1 & Hmono & Ht). cbn [foldR]. rewrite Hc. cbn [mbind result_bind].
    destruct (IH w1) as (w' & Hf & Hw' & Hmono' & Hall); [|done|].
    { intros x Hx. apply Hl. by right. }
    exists w'. split; [done|]. split; [done|]. split; [by auto|].
    intros x [->|Hx]%elem_of_cons; [by apply Hmono'|by apply Hall]. }
  destruct (Hsub nodes new_walk (fun x Hx => Hx) new_walk_ok) as (w & Hr & Hw & _ & Hall).
  exists w. split; [done|]. split; [done|]. intros x Hx. specialize (Hall x Hx).
  apply (wo_visited _ _ Hw) in Hall as [Hs|Hc]; [|exact Hc].
  destruct (wo_back _ _ Hw x Hs) as (g & Hg%not_elem_of_nil & _). done.
Qed.

(** ** The ranks *)

Lemma dependency_rank_fold w ranks i ds rank :
  let r := fold_left (dependency_rank w ranks i) ds rank in
  rank <= r /\
  (forall d, d ∈ ds -> component_of w d <> i -> default 0 (ranks !! component_of w d) < r) /\
  (r = rank \/ exists d, d ∈ ds /\ component_of w d <> i /\ r = S (default 0 (ranks !! component_of w d))).
Proof.
  cbn zeta. revert rank. induction ds as [|d ds IH]; intros rank; cbn [fold_left].
  { split; [done|]. split; [by intros d ?%not_elem_of_nil|by left]. }
  destruct (IH (dependency_rank w ranks i rank d)) as (H1 & H2 & H3).
  set (r := fold_left _ ds _) in *.
  assert (Hd : rank <= dependency_rank w ranks i rank d) by (unfold dependency_rank; case_decide; lia).
  split; [lia|]. split.
  - intros d' [->|Hd']%elem_of_cons Hne; [|by apply H2]. unfold dependency_rank in H1.
    rewrite decide_True in H1 by done. lia.
  - destruct H3 as [H3|(d' & Hd' & Hne & H3)].
    + unfold dependency_rank in H3. case_decide as Hne; [|by left].
      destruct (Nat.max_spec rank (S (default 0 (ranks !! component_of w d)))) as [[_ E]|[_ E]]; rewrite E in H3;
        [right|by left]. exists d. split; [left|done].
    + right. exists d'. split; [by right|done].
Qed.

Lemma fold_left_concat {B C} (f : C -> B -> C) (g : A -> list B) ms c :
  fold_left (fun c m => fold_left f (g m) c) ms c = fold_left f (concat (g <$> ms)) c.
Proof.
  revert c. induction ms as [|m ms IH]; intros c; [done|]. cbn. by rewrite fold_left_app, IH.
Qed.

(** What the rank of a component says of its members' dependencies. *)
Definition ranked (w : walk) (ranks : list nat) (i r : nat) : Prop :=
  (forall x y, component w !! x = Some i -> edge x y -> component_of w y <> i ->
     exists r', ranks !! component_of w y = Some r' /\ r' < r) /\
  (r = 0 \/ exists x y r', component w !! x = Some i /\ edge x y /\ component_of w y <> i /\
     ranks !! component_of w y = Some r' /\ r = S r').

Lemma component_rank_ranked w ranks i ms :
  walk_ok [] w -> components w !! i = Some ms -> length ranks = i ->
  ranked w ranks i (component_rank w ranks i ms).
Proof.
  intros Hw Hms Hlen. unfold component_rank. rewrite fold_left_concat.
  destruct (dependency_rank_fold w ranks i (concat (dependsOn <$> ms)) 0) as (_ & H2 & H3).
  set (r := fold_left _ _ _) in *.
  assert (Hin : forall x y, component w !! x = Some i -> edge x y -> y ∈ concat (dependsOn <$> ms)).
  { intros x y Hx He. apply elem_of_concat. exists (dependsOn x). split; [|done].
    apply list_elem_of_fmap. exists x. split; [done|]. by apply (wo_members _ _ Hw i ms Hms). }
  assert (Hrank : forall x y, component w !! x = Some i -> edge x y -> component_of w y <> i ->
            exists r', ranks !! component_of w y = Some r').
  { intros x y Hx He Hne. destruct (wo_closed _ _ Hw x i y Hx He) as (j & Hj & Hle).
    unfold component_of in *. rewrite Hj in *. cbn in *. apply lookup_lt_is_Some. lia. }
  split.
  - intros x y Hx He Hne. destruct (Hrank x y Hx He Hne) as [r' Hr']. exists r'. split; [done|].
    specialize (H2 y (Hin x y Hx He) Hne). by rewrite Hr' in H2.
  - destruct H3 as [H3|(y & Hy & Hne & H3)]; [by left|]. right.
    apply elem_of_concat in Hy as (ds & (x & -> & Hx)%list_elem_of_fmap & Hy).
    apply (wo_members _ _ Hw i ms Hms) in Hx. destruct (Hrank x y Hx Hy Hne) as [r' Hr'].
    exists x, y, r'. rewrite Hr' in H3. by split_and!.
Qed.

Lemma assign_all_lookup {B} (b : B) (l : list A) (m : gmap A B) x :
  fold_left (fun m y => <[y := b]> m) l m !! x = if decide (x ∈ l) then Some b else m !! x.
Proof.
  revert m. induction l as [|y l IH]; intros m; cbn [fold_left].
  - by rewrite decide_False by apply not_elem_of_nil.
  - rewrite IH. destruct (decide (x ∈ l)) as [Hl|Hl].
    + by rewrite decide_True by (by right).
    + destruct (decide (x = y)) as [->|Hxy].
      * rewrite lookup_insert_eq, decide_True; [done|left].
      * rewrite lookup_insert_ne, decide_False by (done || by apply not_elem_of_cons). done.
Qed.

Lemma ranked_snoc w ranks r0 j r : ranked w ranks j r -> ranked w (ranks ++ [r0]) j r.
Proof.
  intros [H1 H2]. split.
  - intros x y Hx He Hne. destruct (H1 x y Hx He Hne) as (r' & Hr & Hlt). exists r'.
    split; [by apply lookup_app_l_Some|done].
  - destruct H2 as [H2|(x & y & r' & Hx & He & Hne & Hr & E)]; [by left|]. right. exists x, y, r'.
    split_and!; try done. by apply lookup_app_l_Some.
Qed.

Lemma rank_components_ranked w cs i ranks of_node :
  walk_ok [] w -> drop i (components w) = cs -> length ranks = i -> i <= length (components w) ->
  (forall j r, ranks !! j = Some r -> ranked w ranks j r) ->
  (forall x, of_node !! x = match component w !! x with Some j => ranks !! j | None => None end) ->
  exists all, length all = length (components w) /\
    (forall j r, all !! j = Some r -> ranked w all j r) /\
    forall x, rank_components w i cs ranks of_node !! x =
      match component w !! x with Some j => all !! j | None => None end.
Proof.
  intros Hw. revert i ranks of_node. induction cs as [|ms cs IH]; intros i ranks of_node Hcs Hlen Hi Hr Ho.
  - exists ranks. split; [|done]. apply (f_equal length) in Hcs. rewrite length_drop in Hcs. cbn in Hcs. lia.
  - assert (Hms : components w !! i = Some ms).
    { rewrite <- (Nat.add_0_r i), <- lookup_drop, Hcs. done. }
    cbn [rank_components]. set (r := component_rank w ranks i ms).
    apply (IH (S i)).
    + rewrite <- Nat.add_1_r, <- drop_drop, Hcs. done.
    + rewrite length_app. cbn. lia.
    + by apply lookup_lt_Some in Hms.
    + intros j r' Hj. apply lookup_snoc_Some in Hj as [[Hlt Hj]|[-> <-]].
      * by apply ranked_snoc, Hr.
      * rewrite Hlen. apply ranked_snoc. by apply component_rank_ranked.
    + intros x. rewrite assign_all_lookup, Ho. case_decide as Hx.
      * apply (wo_members _ _ Hw i ms Hms) in Hx. rewrite Hx, <- Hlen. by rewrite list_lookup_middle.
      * destruct (component w !! x) as [j|] eqn:Ej; [|done]. destruct (decide (j < i)) as [Hlt|Hge].
        { rewrite lookup_app_l by lia. done. }
        assert (j <> i) by (intros ->; apply Hx; by apply (wo_members _ _ Hw i ms Hms)).
        rewrite lookup_ge_None_2 by lia. symmetry. apply lookup_ge_None_2. rewrite length_app. cbn. lia.
Qed.

(** Nodes of one component reach each other, and only those do. *)
Lemma component_reach w x y i j :
  walk_ok [] w -> component w !! x = Some i -> component w !! y = Some j ->
  i = j <-> reach x y /\ reach y x.
Proof.
  intros Hw Hx Hy.
  assert (Hdown : forall a b i, reach a b -> component w !! a = Some i ->
            exists j, component w !! b = Some j /\ j <= i).
  { intros a b k Hab. revert k. induction Hab as [a|a c b He _ IH]; intros k Ha; [by exists k|].
    destruct (wo_closed _ _ Hw a k c Ha He) as (k' & Hk' & Hle).
    destruct (IH k' Hk') as (j' & Hj' & Hle'). exists j'. split; [done|lia]. }
  split.
  - intros <-. split; by eapply (wo_class _ _ Hw).
  - intros [H1 H2]. destruct (Hdown x y i H1 Hx) as (j' & Hj' & Hle).
    destruct (Hdown y x j H2 Hy) as (i' & Hi' & Hle'). rewrite Hy in Hj'. rewrite Hx in Hi'.
    injection Hj' as <-. injection Hi' as <-. lia.
Qed.

(** The rank of a node is decided by the graph alone: equal around a cycle, and
    otherwise the least above the ranks of what it depends on. *)
Record ranking (nodes : list A) (rank : A -> nat) : Prop := {
  rk_cycle : forall x y, x ∈ nodes -> y ∈ nodes -> reach x y -> reach y x -> rank x = rank y;
  rk_above : forall x y, x ∈ nodes -> edge x y -> ~ reach y x -> rank y < rank x;
  rk_least : forall x, x ∈ nodes -> rank x = 0 \/
    exists x' y, reach x x' /\ reach x' x /\ edge x' y /\ ~ reach y x' /\ rank x = S (rank y) }.

Theorem rank_nodes_correct (nodes : list A) :
  (forall x y, x ∈ nodes -> edge x y -> y ∈ nodes) ->
  exists ranks, rank_nodes nodes = Ok ranks /\ (forall x, x ∈ nodes -> is_Some (ranks !! x)) /\
    ranking nodes (fun x => default 0 (ranks !! x)).
Proof.
  intros Hclosed. destruct (tarjan_correct nodes Hclosed) as (w & Ht & Hw & Hall).
  unfold rank_nodes. rewrite Ht. cbn [mbind result_bind]. eexists. split; [done|].
  destruct (rank_components_ranked w (components w) 0 [] ∅ Hw eq_refl eq_refl) as (all & Hlen & Hranked & Hlook).
  { lia. }
  { intros j r. by rewrite lookup_nil. }
  { intros x. rewrite lookup_empty. by destruct (component w !! x). }
  set (ranks := rank_components _ _ _ _ _) in *.
  assert (Hnode : forall x, x ∈ nodes -> exists i r, component w !! x = Some i /\ all !! i = Some r /\
            ranks !! x = Some r).
  { intros x Hx. destruct (Hall x Hx) as [i Hi]. pose proof (wo_component _ _ Hw x i Hi) as Hlt.
    rewrite <- Hlen in Hlt. apply lookup_lt_is_Some in Hlt as [r Hr]. exists i, r.
    split; [done|]. split; [done|]. by rewrite Hlook, Hi. }
  split; [intros x Hx; destruct (Hnode x Hx) as (i & r & _ & _ & ->); by eexists|]. split.
  - intros x y Hx Hy H1 H2. destruct (Hnode x Hx) as (i & r & Hi & Hr & ->).
    destruct (Hnode y Hy) as (j & r' & Hj & Hr' & ->).
    assert (i = j) by (by apply (component_reach w x y)). subst. rewrite Hr in Hr'. by injection Hr' as ->.
  - intros x y Hx He Hn. destruct (Hnode x Hx) as (i & r & Hi & Hr & ->).
    destruct (Hnode y (Hclosed x y Hx He)) as (j & r' & Hj & Hr' & ->). cbn.
    destruct (Hranked i r Hr) as [H1 _]. destruct (H1 x y Hi He) as (r2 & Hr2 & Hlt).
    + unfold component_of. rewrite Hj. cbn. intros ->. apply Hn. by apply (component_reach w x y i i).
    + unfold component_of in Hr2. rewrite Hj in Hr2. cbn in Hr2. rewrite Hr' in Hr2. by injection Hr2 as ->.
  - intros x Hx. destruct (Hnode x Hx) as (i & r & Hi & Hr & E). rewrite E. cbn.
    destruct (Hranked i r Hr) as [_ [->|(x' & y & r' & Hx' & He & Hne & Hr' & ->)]]; [by left|]. right.
    destruct (wo_closed _ _ Hw x' i y Hx' He) as (j & Hj & _).
    unfold component_of in Hne, Hr'. rewrite Hj in Hne, Hr'. cbn in Hne, Hr'. exists x', y.
    assert (i = i) as Hii by done. apply (component_reach w x x' i i Hw Hi Hx') in Hii as [H1 H2].
    do 3 (split; [done|]). split.
    + intros Hyx. apply Hne. apply (component_reach w y x' j i Hw Hj Hx'). split; [done|by apply rtc_once].
    + by rewrite Hlook, Hj, Hr'.
Qed.
End Tarjan.
