(* ===== verification/TypeRanks.v ===== *)
(** The type order of a flush (flush.go, [rankTypes]): the types the schedule
    can reach through relationships, the foreign-key references among them, and
    the ranks of the references' strongly connected components.

    Go's recursion over types ends because a program has finitely many; here the
    walk takes that number as fuel. *)
From S2P Require Import Prelude GoStrings Values Core Tarjan.

Section Ranks.
Context (load : GoType -> result EntityMap).

Record discovery := mkDiscovery {
  di_seen : gset GoType;
  di_discovered : list GoType;
  di_dependsOn : gmap GoType (list GoType) }.

Definition new_discovery : discovery := mkDiscovery ∅ [] ∅.

(** [dependsOn[t]], and appending to it. *)
Definition dependencies (d : discovery) (t : GoType) : list GoType := default [] (di_dependsOn d !! t).
Definition add_dependency (t on : GoType) (d : discovery) : discovery :=
  mkDiscovery (di_seen d) (di_discovered d) (<[t := dependencies d t ++ [on]]> (di_dependsOn d)).

Definition discover_relationship (discover : GoType -> discovery -> result discovery) (t : GoType)
    (d : discovery) (r : RelationshipMap) : result discovery :=
  match rel_Kind r with
  | RelationshipManyToOne => discover (rel_TargetType r) (add_dependency t (rel_TargetType r) d)
  | RelationshipOneToMany | RelationshipOneToOne =>
      discover (rel_TargetType r) (add_dependency (rel_TargetType r) t d)
  | RelationshipManyToMany => Ok d
  end.

Fixpoint discover (fuel : nat) (t : GoType) (d : discovery) : result discovery :=
  match fuel with
  | 0 => Panic "out of fuel"
  | S fuel' =>
      if decide (t ∈ di_seen d) then Ok d
      else
        let* m := load t in
        foldR (discover_relationship (discover fuel') t)
          (mkDiscovery ({[t]} ∪ di_seen d) (di_discovered d ++ [t]) (di_dependsOn d)) (Relationships m)
  end.

(** [fuel] is above the number of entity types. *)
Definition rankTypes (fuel : nat) (seeds : list GoType) : result (gmap GoType Z) :=
  let* d := foldR (fun d seed => discover fuel seed d) new_discovery seeds in
  let* ranks := rank_nodes (dependencies d) (di_discovered d) in
  Ok (Z.of_nat <$> ranks).

(** * What the ranks say *)

(** A relationship the walk follows. *)
Definition follows (r : RelationshipMap) : Prop := rel_Kind r <> RelationshipManyToMany.

Definition relates (x y : GoType) : Prop :=
  exists m r, load x = Ok m /\ r ∈ Relationships m /\ follows r /\ rel_TargetType r = y.

(** A foreign key of [x] references [y], as the relationship [r] of [t] says. *)
Definition declares (t : GoType) (r : RelationshipMap) (x y : GoType) : Prop :=
  match rel_Kind r with
  | RelationshipManyToOne => x = t /\ y = rel_TargetType r
  | RelationshipOneToMany | RelationshipOneToOne => x = rel_TargetType r /\ y = t
  | RelationshipManyToMany => False
  end.

Definition references (x y : GoType) : Prop :=
  exists t m r, load t = Ok m /\ r ∈ Relationships m /\ declares t r x y.

(** The types within reach of the seeds. *)
Definition within (seeds : list GoType) (t : GoType) : Prop :=
  exists seed, seed ∈ seeds /\ rtc relates seed t.

(** The types the program has, their maps loading and their relationships
    staying among them. *)
Definition registered (types : gset GoType) : Prop :=
  forall t, t ∈ types -> exists m, load t = Ok m /\
    forall r, r ∈ Relationships m -> follows r -> rel_TargetType r ∈ types.

Lemma dependencies_add t on d x y :
  y ∈ dependencies (add_dependency t on d) x <-> y ∈ dependencies d x \/ (x = t /\ y = on).
Proof.
  unfold dependencies at 1, add_dependency. cbn. destruct (decide (x = t)) as [->|Hx].
  - rewrite lookup_insert_eq. cbn. rewrite elem_of_app, list_elem_of_singleton. naive_solver.
  - rewrite lookup_insert_ne by done. naive_solver.
Qed.

(** What a walk added: the types seen, each with all its relationships done. *)
Record grown (d d' : discovery) (from : GoType -> Prop) : Prop := {
  gr_seen : di_seen d ⊆ di_seen d';
  gr_from : forall x, x ∈ di_seen d' -> x ∉ di_seen d -> from x;
  gr_closed : forall x y, x ∈ di_seen d' -> x ∉ di_seen d -> relates x y -> y ∈ di_seen d';
  gr_deps : forall x y, y ∈ dependencies d' x <->
    y ∈ dependencies d x \/
    exists t m r, t ∈ di_seen d' /\ t ∉ di_seen d /\ load t = Ok m /\ r ∈ Relationships m /\ declares t r x y;
  gr_list : (forall x, x ∈ di_discovered d <-> x ∈ di_seen d) ->
    forall x, x ∈ di_discovered d' <-> x ∈ di_seen d' }.

Lemma discovery_grown_refl d from : grown d d from.
Proof. split; try done. intros x y. split; [by left|]. intros [?|(t & m & r & H1 & H2 & _)]; [done|done]. Qed.

Lemma grown_mono d d' (from from' : GoType -> Prop) :
  (forall x, from x -> from' x) -> grown d d' from -> grown d d' from'.
Proof. intros Hf [G1 G2 G3 G4 G5]. split; try done. intros x H1 H2. by apply Hf, G2. Qed.

Lemma discovery_grown_trans d1 d2 d3 from : grown d1 d2 from -> grown d2 d3 from -> grown d1 d3 from.
Proof.
  intros [A1 A2 A3 A4 A5] [B1 B2 B3 B4 B5].
  assert (Hcase : forall x, x ∈ di_seen d3 -> x ∉ di_seen d1 ->
            (x ∈ di_seen d2 /\ x ∉ di_seen d1) \/ (x ∈ di_seen d3 /\ x ∉ di_seen d2)).
  { intros x H3 H1. destruct (decide (x ∈ di_seen d2)); [left|right]; done. }
  split.
  - set_solver.
  - intros x H3 H1. destruct (Hcase x H3 H1) as [[? ?]|[? ?]]; auto.
  - intros x y H3 H1 Hr. destruct (Hcase x H3 H1) as [[? ?]|[? ?]]; [apply B1; eauto|eauto].
  - intros x y. rewrite B4, A4. split.
    + intros [[?|(t & m & r & H1 & H2 & H3)]|(t & m & r & H1 & H2 & H3)]; [by left|right|right];
        exists t, m, r; split_and!; try apply H3; set_solver.
    + intros [?|(t & m & r & H1 & H2 & H3)]; [by left; left|].
      destruct (Hcase t H1 H2) as [[? ?]|[? ?]]; [left; right|right]; by exists t, m, r.
  - auto.
Qed.

Section Walk.
Context (types : gset GoType) (Hreg : registered types).

(** The relationships of [t] from [done] on, within a walk that reached [t]. *)
Lemma discover_grown fuel t d :
  t ∈ types -> size (types ∖ di_seen d) < fuel ->
  exists d', discover fuel t d = Ok d' /\ t ∈ di_seen d' /\ grown d d' (rtc relates t).
Proof.
  revert t d. induction fuel as [|fuel IH]; intros t d Ht Hfuel; [lia|]. cbn [discover].
  case_decide as Hseen; [exists d; split_and!; try done; apply discovery_grown_refl|].
  destruct (Hreg t Ht) as (m & Hm & Hrel). rewrite Hm. cbn [mbind result_bind].
  set (d0 := mkDiscovery _ _ _).
  assert (Hloop : forall rest done d1, Relationships m = done ++ rest ->
    di_seen d0 ⊆ di_seen d1 ->
    (forall x, x ∈ di_seen d1 -> x ∉ di_seen d0 -> rtc relates t x) ->
    (forall x y, x ∈ di_seen d1 -> x ∉ di_seen d0 -> relates x y -> y ∈ di_seen d1) ->
    (forall r, r ∈ done -> follows r -> rel_TargetType r ∈ di_seen d1) ->
    (forall x y, y ∈ dependencies d1 x <-> y ∈ dependencies d x \/ (exists r, r ∈ done /\ declares t r x y) \/
       exists t' m' r, t' ∈ di_seen d1 /\ t' ∉ di_seen d0 /\ load t' = Ok m' /\ r ∈ Relationships m' /\
         declares t' r x y) ->
    ((forall x, x ∈ di_discovered d <-> x ∈ di_seen d) -> forall x, x ∈ di_discovered d1 <-> x ∈ di_seen d1) ->
    exists d', foldR (discover_relationship (discover fuel) t) d1 rest = Ok d' /\ t ∈ di_seen d' /\
      grown d d' (rtc relates t)).
  { intros rest. induction rest as [|r rest IHr]; intros done d1 Hsplit H1 H2 H3 H4 H5 H6.
    - exists d1. split; [done|]. rewrite app_nil_r in Hsplit.
      assert (Hcase : forall x, x ∈ di_seen d1 -> x ∉ di_seen d -> x = t \/ (x ∈ di_seen d1 /\ x ∉ di_seen d0)).
      { intros x Hx Hd. destruct (decide (x = t)); [by left|right]. split; [done|]. subst d0. set_solver. }
      split; [subst d0; set_solver|]. split.
      + subst d0. set_solver.
      + intros x Hx Hd. destruct (Hcase x Hx Hd) as [->|[? ?]]; [apply rtc_refl|by apply H2].
      + intros x y Hx Hd Hr. destruct (Hcase x Hx Hd) as [->|[? ?]]; [|by eapply H3].
        destruct Hr as (m' & r & Hm' & Hr & Hf & <-). rewrite Hm in Hm'. injection Hm' as <-.
        apply H4; [by rewrite <- Hsplit|done].
      + intros x y. rewrite H5. split.
        * intros [?|[(r & Hr & Hd)|(t' & m' & r & A & B & C)]]; [by left|right|right].
          -- exists t, m, r. split; [subst d0; set_solver|]. split; [done|]. split; [done|].
             by rewrite Hsplit.
          -- exists t', m', r. split; [done|]. split; [subst d0; set_solver|done].
        * intros [?|(t' & m' & r & A & B & C & E & F)]; [by left|right].
          destruct (Hcase t' A B) as [->|[? ?]].
          -- left. exists r. rewrite Hm in C. injection C as <-. by rewrite <- Hsplit.
          -- right. by exists t', m', r.
      + exact H6.
    - cbn [foldR].
      assert (Hin : r ∈ Relationships m) by (rewrite Hsplit; apply elem_of_app; right; left).
      assert (Hsplit' : Relationships m = (done ++ [r]) ++ rest) by (by rewrite <- app_assoc).
      destruct (decide (rel_Kind r = RelationshipManyToMany)) as [Hk|Hk].
      + assert (Heq : discover_relationship (discover fuel) t d1 r = Ok d1)
          by (unfold discover_relationship; by rewrite Hk).
        rewrite Heq. cbn [mbind result_bind].
        apply (IHr (done ++ [r]) d1); try done.
        * intros r' [Hr'|Hr'%list_elem_of_singleton]%elem_of_app; [by apply H4|]. by subst.
        * intros x y. rewrite H5. setoid_rewrite elem_of_app. setoid_rewrite list_elem_of_singleton.
          split; [naive_solver|]. intros [?|[(r' & [?|Hr'] & Hd)|?]].
          -- by left.
          -- right; left. by exists r'.
          -- subst r'. unfold declares in Hd. by rewrite Hk in Hd.
          -- by right; right.
      + set (u := rel_TargetType r).
        assert (Hu : u ∈ types) by (by apply Hrel).
        assert (Hstep : exists d2 a b, discover_relationship (discover fuel) t d1 r
                          = discover fuel u (add_dependency a b d1) /\
                  (forall x y, declares t r x y <-> x = a /\ y = b) /\ d2 = add_dependency a b d1).
        { unfold discover_relationship, declares. fold u.
          destruct (rel_Kind r); [exists (add_dependency t u d1), t, u|exists (add_dependency u t d1), u, t|
            done|exists (add_dependency u t d1), u, t]; done. }
        destruct Hstep as (d2 & a & b & -> & Hdec & Hd2). rewrite <- Hd2.
        assert (Hseen2 : di_seen d2 = di_seen d1) by (by subst d2).
        destruct (IH u d2 Hu) as (d3 & Hd3 & Hu3 & [G1 G2 G3 G4 G5]).
        { assert (Hs : types ∖ di_seen d2 ⊂ types ∖ di_seen d).
          { rewrite Hseen2. subst d0. cbn in H1. split; [set_solver|]. intros Hc. specialize (Hc t). set_solver. }
          apply subset_size in Hs. lia. }
        rewrite Hd3. cbn [mbind result_bind]. rewrite Hseen2 in *.
        assert (Htu : relates t u) by (by exists m, r).
        assert (Hcase : forall x, x ∈ di_seen d3 -> x ∉ di_seen d0 ->
                  (x ∈ di_seen d1 /\ x ∉ di_seen d0) \/ (x ∈ di_seen d3 /\ x ∉ di_seen d1)).
        { intros x A B. destruct (decide (x ∈ di_seen d1)); [left|right]; done. }
        apply (IHr (done ++ [r]) d3); try done.
        * set_solver.
        * intros x A B. destruct (Hcase x A B) as [[? ?]|[? ?]]; [by apply H2|].
          eapply rtc_l; [exact Htu|]. by apply G2.
        * intros x y A B Hr. destruct (Hcase x A B) as [[? ?]|[? ?]]; [apply G1; by eapply H3|by eapply G3].
        * intros r' [Hr'|Hr'%list_elem_of_singleton]%elem_of_app Hf; [apply G1; by apply H4|by subst r'].
        * intros x y. rewrite G4. rewrite Hd2, dependencies_add, H5.
          setoid_rewrite elem_of_app. setoid_rewrite list_elem_of_singleton. split.
          -- intros [[[?|[(r' & ? & ?)|(t' & m' & r' & A & B & C)]]|Hab]|(t' & m' & r' & A & B & C)].
             ++ by left.
             ++ right; left. exists r'. auto.
             ++ right; right. exists t', m', r'. split; [by apply G1|done].
             ++ right; left. exists r. split; [by right|by apply Hdec].
             ++ right; right. exists t', m', r'. split; [done|]. split; [set_solver|done].
          -- intros [?|[(r' & [?| ->] & Hd)|(t' & m' & r' & A & B & C)]].
             ++ by left; left; left.
             ++ left; left; right; left. by exists r'.
             ++ left; right. by apply Hdec.
             ++ destruct (Hcase t' A B) as [[? ?]|[? ?]].
                ** left; left; right; right. by exists t', m', r'.
                ** right. by exists t', m', r'.
        * intros Hl. apply G5. intros x. subst d2. by apply H6. }
  apply (Hloop (Relationships m) [] d0); try done.
  - by intros r ?%not_elem_of_nil.
  - intros x y. change (dependencies d0 x) with (dependencies d x). split; [by left|].
    intros [?|[(r & ?%not_elem_of_nil & _)|(t' & m' & r & A & B & _)]]; done.
  - intros Hl x. subst d0. cbn. rewrite elem_of_app, list_elem_of_singleton, Hl. set_solver.
Qed.

Lemma discover_all_grown fuel seeds d :
  (forall seed, seed ∈ seeds -> seed ∈ types) -> size types < fuel ->
  exists d', foldR (fun d seed => discover fuel seed d) d seeds = Ok d' /\
    (forall seed, seed ∈ seeds -> seed ∈ di_seen d') /\ grown d d' (within seeds).
Proof.
  revert d. induction seeds as [|seed seeds IH]; intros d Hseeds Hfuel.
  - exists d. split; [done|]. split; [by intros ? ?%not_elem_of_nil|apply discovery_grown_refl].
  - cbn [foldR]. destruct (discover_grown fuel seed d) as (d1 & -> & Hin & Hg).
    { apply Hseeds. left. }
    { pose proof (subseteq_size (types ∖ di_seen d) types ltac:(set_solver)). lia. }
    cbn [mbind result_bind]. destruct (IH d1) as (d' & Hd' & Hall & Hg'); [|done|].
    { intros x Hx. apply Hseeds. by right. }
    exists d'. split; [done|]. split.
    + intros x [->|Hx]%elem_of_cons; [by apply (gr_seen _ _ _ Hg')|by apply Hall].
    + eapply discovery_grown_trans; (eapply grown_mono; [|eassumption]); cbn.
      * intros x Hx. exists seed. split; [left|done].
      * intros x (s & Hs & Hx). exists s. split; [by right|done].
Qed.
End Walk.

(** The references a flush orders by: those among the types within reach. *)
Definition depends (seeds : list GoType) (x y : GoType) : Prop :=
  references x y /\ within seeds x /\ within seeds y.

Lemma within_relates seeds x y : within seeds x -> relates x y -> within seeds y.
Proof. intros (s & Hs & Hx) Hr. exists s. split; [done|]. by eapply rtc_r. Qed.

Lemma declares_within seeds t m r x y :
  load t = Ok m -> r ∈ Relationships m -> declares t r x y -> within seeds t ->
  within seeds x /\ within seeds y.
Proof.
  intros Hm Hr Hd Ht. assert (Hrel : rel_Kind r <> RelationshipManyToMany -> within seeds (rel_TargetType r)).
  { intros Hk. eapply within_relates; [exact Ht|]. by exists m, r. }
  unfold declares in Hd. destruct (rel_Kind r); [|..]; try done; destruct Hd as [-> ->]; auto.
Qed.

Lemma within_seen types fuel seeds d :
  registered types -> (forall seed, seed ∈ seeds -> seed ∈ types) -> size types < fuel ->
  foldR (fun d seed => discover fuel seed d) new_discovery seeds = Ok d ->
  (forall x, x ∈ di_discovered d <-> within seeds x) /\
  forall x y, y ∈ dependencies d x <-> depends seeds x y.
Proof.
  intros Hreg Hseeds Hfuel Hd.
  destruct (discover_all_grown types Hreg fuel seeds new_discovery Hseeds Hfuel) as (d' & E & Hin & [G1 G2 G3 G4 G5]).
  rewrite E in Hd. injection Hd as ->.
  assert (Hseen : forall x, x ∈ di_seen d <-> within seeds x).
  { intros x. split; [intros Hx; apply G2; [done|cbn; set_solver]|].
    intros (s & Hs & Hr). specialize (Hin s Hs). clear Hs. induction Hr as [s|s y x Hsy _ IH]; [done|].
    apply IH. apply (G3 s y); [done|cbn; set_solver|done]. }
  split; [intros x; rewrite <- Hseen; apply G5; intros y; cbn; set_solver|].
  intros x y. rewrite G4. split.
  - intros [Hy|(t & m & r & Ht & _ & Hm & Hr & Hd)].
    + unfold dependencies in Hy. cbn in Hy. rewrite lookup_empty in Hy. by apply not_elem_of_nil in Hy.
    + apply Hseen in Ht. destruct (declares_within seeds t m r x y Hm Hr Hd Ht).
      split; [by exists t, m, r|done].
  - intros [(t & m & r & Hm & Hr & Hd) [Hx Hy]]. right. exists t, m, r.
    split; [|split; [cbn; set_solver|done]]. apply Hseen.
    unfold declares in Hd. destruct (rel_Kind r); try done; by destruct Hd as [-> ->].
Qed.

(** C26. The type ranks of a flush depend only on the foreign keys among the
    types the schedule can reach - not on the order the types come in: types
    whose references form a cycle share a rank, every other reference goes to a
    lower rank, and a rank is the least with that property.  The two recursive
    walks, the discovery and Tarjan's algorithm, end on any finite set of types,
    and no stack pop or index fails. *)
Theorem rankTypes_correct (types : gset GoType) (fuel : nat) (seeds : list GoType) :
  registered types -> (forall seed, seed ∈ seeds -> seed ∈ types) -> size types < fuel ->
  exists ranks, rankTypes fuel seeds = Ok ranks /\
    let rank t := default 0%Z (ranks !! t) in
    let reach := rtc (depends seeds) in
    (forall t, within seeds t -> is_Some (ranks !! t)) /\
    (forall x y, within seeds x -> within seeds y -> reach x y -> reach y x -> rank x = rank y) /\
    (forall x y, depends seeds x y -> ~ reach y x -> (rank y < rank x)%Z) /\
    (forall x, within seeds x -> rank x = 0%Z \/
       exists x' y, reach x x' /\ reach x' x /\ depends seeds x' y /\ ~ reach y x' /\ rank x = (rank y + 1)%Z).
Proof.
  intros Hreg Hseeds Hfuel. unfold rankTypes.
  destruct (discover_all_grown types Hreg fuel seeds new_discovery Hseeds Hfuel) as (d & Hd & _ & _).
  rewrite Hd. cbn [mbind result_bind].
  destruct (within_seen types fuel seeds d Hreg Hseeds Hfuel Hd) as [Hnodes Hdeps].
  destruct (rank_nodes_correct (dependencies d) (di_discovered d)) as (ranks & Hr & Hsome & [R1 R2 R3]).
  { intros x y _ He. apply Hdeps in He as (_ & _ & Hy). by apply Hnodes. }
  rewrite Hr. cbn [mbind result_bind]. eexists. split; [done|].
  assert (Hreach : forall x y, rtc (depends seeds) x y <-> rtc (edge (dependencies d)) x y).
  { intros x y. split; apply rtc_subrel; intros a b; unfold edge; by rewrite Hdeps. }
  assert (Hrank : forall x, default 0%Z ((Z.of_nat <$> ranks) !! x) = Z.of_nat (default 0 (ranks !! x))).
  { intros x. rewrite lookup_fmap. by destruct (ranks !! x). }
  cbn zeta. split_and!.
  - intros t Ht. rewrite lookup_fmap. by apply fmap_is_Some, Hsome, Hnodes.
  - intros x y Hx Hy. rewrite !Hreach, !Hrank. intros H1 H2. f_equal. apply R1; try done; by apply Hnodes.
  - intros x y Hxy Hn. rewrite !Hrank. rewrite Hreach in Hn.
    assert (default 0 (ranks !! y) < default 0 (ranks !! x)); [|lia].
    apply R2; [apply Hnodes; apply Hxy|by apply Hdeps|done].
  - intros x Hx. rewrite Hrank. destruct (R3 x) as [E|(x' & y & H1 & H2 & H3 & H4 & E)]; [by apply Hnodes|left; lia|].
    right. exists x', y. rewrite !Hreach, Hrank. split_and!; try done; [by apply Hdeps|lia].
Qed.
End Ranks.

(** ** Witness: orders, their lines, and departments that reference each other's
    employees *)

Definition type_named (name : string) : GoType := mkGoType "sample" name.
Definition many_to_one (name : string) (target : GoType) : RelationshipMap :=
  mkRelationship name RelationshipManyToOne target [name] None [] [] 0%Z.
Definition one_to_many (name : string) (target : GoType) : RelationshipMap :=
  mkRelationship name RelationshipOneToMany target [name] None [] [] 0%Z.
Definition typed_map (t : GoType) (rs : list RelationshipMap) : EntityMap :=
  NewEntityMap t RelationTable "t" "" "" [] KeyNatural [] rs.
Definition load_company (t : GoType) : result EntityMap :=
  if decide (t = type_named "Order") then Ok (typed_map t [one_to_many "Lines" (type_named "Line")])
  else if decide (t = type_named "Line") then Ok (typed_map t [many_to_one "Clerk" (type_named "Employee")])
  else if decide (t = type_named "Employee") then Ok (typed_map t [many_to_one "Department" (type_named "Department")])
  else if decide (t = type_named "Department") then Ok (typed_map t [many_to_one "Head" (type_named "Employee")])
  else Fail (NewError "MAP-001" "").
Definition company : gset GoType :=
  list_to_set (type_named <$> ["Order"; "Line"; "Employee"; "Department"]).

Lemma in_company name : name ∈ ["Order"; "Line"; "Employee"; "Department"] -> type_named name ∈ company.
Proof. intros Hn. apply elem_of_list_to_set, list_elem_of_fmap. by exists name. Qed.

Lemma company_registered : registered load_company company.
Proof.
  intros t Ht. unfold company in Ht. apply elem_of_list_to_set, list_elem_of_fmap in Ht as (name & -> & Hn).
  rewrite !elem_of_cons, elem_of_nil in Hn.
  destruct Hn as [->|[->|[->|[->|[]]]]]; eexists; (split; [reflexivity|]);
    intros r Hr _; cbn in Hr; apply list_elem_of_singleton in Hr as ->; apply in_company; cbn;
    rewrite !elem_of_cons; tauto.
Qed.

Lemma company_size : size company < 5.
Proof. apply Nat.lt_succ_r. exact (size_nodes (type_named <$> ["Order"; "Line"; "Employee"; "Department"])). Qed.

Lemma rankTypes_correct_witness :
  match rankTypes load_company 5 [type_named "Order"] with
  | Ok ranks => (fun n => ranks !! type_named n) <$> ["Department"; "Employee"; "Order"; "Line"]
                = [Some 0; Some 0; Some 0; Some 1]%Z
  | Fail _ => False
  end /\
  exists ranks, rankTypes load_company 5 [type_named "Order"] = Ok ranks /\
    forall t, within load_company [type_named "Order"] t -> is_Some (ranks !! t).
Proof.
  split; [vm_compute; reflexivity|].
  destruct (rankTypes_correct load_company company 5 [type_named "Order"]) as (ranks & H & Hs & _).
  - exact company_registered.
  - intros t ->%list_elem_of_singleton. apply in_company. left.
  - exact company_size.
  - exists ranks. split; [exact H|exact Hs].
Defined.
