(* ===== verification/Flush.v ===== *)
(** The plan of a flush (flush.go): which instances are dirty, and the order of
    the inserts and of the deletes.  The type ranks are an argument
    here; [FlushRun] gives it those of [TypeRanks].

    [position] maps an instance to its place in the list: scheduled instances
    are distinct ([UnitOfWork]), so the first place is the place. *)
From S2P Require Import Prelude GoStrings Values Core GeneratedSql Tracker DependencyOrder Instances.
From S2P Require Import Session UnitOfWork ScheduleLaws Cascades Reach.

Definition typeRanks := gmap GoType Z.
(** A Go map answers 0 for an absent key. *)
Definition rank_of (ranks : typeRanks) (t : GoType) : Z := default 0%Z (ranks !! t).

Section Order.
Context (s : Session) (ranks : typeRanks).

Definition position {A} (ptr : A -> Ptr) (items : list A) (p : Ptr) : option nat :=
  fst <$> list_find (fun x => ptr x = p) items.

(** ** Inserts *)

(** The instances an insert waits for: its many-to-one targets, and the owners
    that cascaded it (but for a many-to-one link, which its owner waits for). *)
Definition insert_parents (x : scheduledInsert) : list Ptr :=
  concat ((fun r => (targets_of s (si_ptr x) r).1) <$>
    List.filter (fun r => bool_decide (rel_Kind r = RelationshipManyToOne)) (Relationships (si_m x))) ++
  (cl_owner <$> List.filter (fun l => negb (bool_decide (rel_Kind (cl_relationship l) = RelationshipManyToOne)))
    (si_links x)).

Definition insert_dependencies (inserts : list scheduledInsert) (i : nat) : list nat :=
  match inserts !! i with
  | Some x => omap (position si_ptr inserts) (insert_parents x)
  | None => []
  end.

Definition insert_less (inserts : list scheduledInsert) (a b : nat) : bool :=
  match inserts !! a, inserts !! b with
  | Some x, Some y =>
      let rx := rank_of ranks (Type_ (si_m x)) in
      let ry := rank_of ranks (Type_ (si_m y)) in
      if negb (rx =? ry)%Z then (rx <? ry)%Z else (si_order x <? si_order y)%nat
  | _, _ => false
  end.

(** [sort.Strings], then the first of each run. *)
Fixpoint insert_sorted (x : string) (l : list string) : list string :=
  match l with
  | [] => [x]
  | y :: l' => if (Compare_string x y <=? 0)%Z then x :: l else y :: insert_sorted x l'
  end.
Definition sort_Strings (l : list string) : list string := foldr insert_sorted [] l.

Fixpoint drop_repeats (last : option string) (l : list string) : list string :=
  match l with
  | [] => []
  | x :: l' => if decide (last = Some x) then drop_repeats last l' else x :: drop_repeats (Some x) l'
  end.
Definition uniqueSorted (names : list string) : list string := drop_repeats None (sort_Strings names).

Definition insertTypes (inserts : list scheduledInsert) (ordered : list nat) : list string :=
  uniqueSorted (omap (fun iv : nat * scheduledInsert =>
    if decide (iv.1 ∈ ordered) then None else Some (EntityName (si_m iv.2)))
    (imap (fun i x => (i, x)) inserts)).

Definition cycleError (types : list string) : Error := NewError "UOW-004" (Join types ", ").

Definition orderInserts (inserts : list scheduledInsert) : result (list scheduledInsert) :=
  let '(order, ok) :=
    dependencyOrder (length inserts) (insert_dependencies inserts) (insert_less inserts) in
  if negb ok then Fail (cycleError (insertTypes inserts order)) else Ok (pick inserts order).

(** ** Deletes *)

(** What the loop over one scheduled removal records: [(a, b)] when [b] is
    deleted before [a]. *)
Definition delete_edges_of (removes : list scheduledRemove) (i : nat) (x : scheduledRemove)
    : list (nat * nat) :=
  concat ((fun r =>
    omap (fun target =>
      match position sr_ptr removes target with
      | None => None
      | Some other =>
          match rel_Kind r with
          | RelationshipManyToOne => Some (other, i)
          | RelationshipOneToMany | RelationshipOneToOne => Some (i, other)
          | RelationshipManyToMany => None
          end
      end) (targets_of s (sr_ptr x) r).1) <$> Relationships (sr_m x)).

Definition delete_edges (removes : list scheduledRemove) : list (nat * nat) :=
  concat (imap (delete_edges_of removes) removes).

Definition delete_dependencies (removes : list scheduledRemove) (i : nat) : list nat :=
  snd <$> List.filter (fun e => bool_decide (e.1 = i)) (delete_edges removes).

Definition delete_less (removes : list scheduledRemove) (a b : nat) : bool :=
  match removes !! a, removes !! b with
  | Some x, Some y =>
      let rx := rank_of ranks (Type_ (sr_m x)) in
      let ry := rank_of ranks (Type_ (sr_m y)) in
      if negb (rx =? ry)%Z then (ry <? rx)%Z else (sr_order x <? sr_order y)%nat
  | _, _ => false
  end.

Definition orderDeletes (removes : list scheduledRemove) : result (list scheduledRemove) :=
  let '(order, ok) :=
    dependencyOrder (length removes) (delete_dependencies removes) (delete_less removes) in
  if negb ok then Fail (cycleError (uniqueSorted ((fun x => EntityName (sr_m x)) <$> removes)))
  else Ok (pick removes order).

(** ** Dirty instances *)

Section Dirty.
Context (ToDatabase : Value -> ColumnType -> string -> result Value).

Definition dirty_step (u : unitOfWork) (dirty : list trackedEntry) (entry : trackedEntry)
    : result (list trackedEntry) :=
  match uw_removeOf u !! te_ptr entry with
  | Some _ => Ok dirty
  | None =>
      let* l := entry_changed ToDatabase s entry in
      Ok (if hasWritableColumn l then dirty ++ [entry] else dirty)
  end.

Definition dirtyEntries (tr : tracker) (u : unitOfWork) : result (list trackedEntry) :=
  foldR (dirty_step u) [] (all tr).

Definition dirty_before (x y : trackedEntry) : Prop :=
  let rx := rank_of ranks (te_type x) in
  let ry := rank_of ranks (te_type y) in
  (rx < ry)%Z \/ (rx = ry /\ te_seq x <= te_seq y).
#[export] Instance dirty_before_dec x y : Decision (dirty_before x y).
Proof. unfold dirty_before. apply _. Defined.

(** [sort.SliceStable]; registration numbers are distinct, so the order is total. *)
Definition sort_dirty (dirty : list trackedEntry) : list trackedEntry := merge_sort dirty_before dirty.
End Dirty.
End Order.

(** * Lemmas *)

Section Laws.
Context (s : Session) (ranks : typeRanks).

Lemma position_Some {A} (ptr : A -> Ptr) items p i :
  position ptr items p = Some i -> exists x, items !! i = Some x /\ ptr x = p.
Proof.
  unfold position. destruct (list_find _ _) as [[k x]|] eqn:E; [|done]. intros [= <-].
  apply list_find_Some in E as (Hk & Hp & _). by exists x.
Qed.

Lemma position_lookup {A} (ptr : A -> Ptr) items i x :
  NoDup (ptr <$> items) -> items !! i = Some x -> position ptr items (ptr x) = Some i.
Proof.
  intros Hnd Hi. unfold position.
  destruct (list_find (fun y => ptr y = ptr x) items) as [[k y]|] eqn:E.
  - apply list_find_Some in E as (Hk & Hp & _). cbn. f_equal.
    apply (NoDup_lookup (ptr <$> items) k i (ptr x)); [done| |]; rewrite list_lookup_fmap.
    + rewrite Hk. cbn. by rewrite Hp.
    + by rewrite Hi.
  - apply list_find_None in E. rewrite Forall_forall in E.
    by destruct (E x (list_elem_of_lookup_2 _ _ _ Hi)).
Qed.

(** The comparisons are strict orders: rank, then a number. *)
Lemma insert_less_order inserts : StrictOrder (insert_less ranks inserts).
Proof.
  unfold insert_less. split.
  - intros a. destruct (inserts !! a); [|done]. by rewrite Z.eqb_refl, Nat.ltb_irrefl.
  - intros a b c. destruct (inserts !! a) as [x|], (inserts !! b) as [y|], (inserts !! c) as [z|]; try done.
    destruct (Z.eqb_spec (rank_of ranks (Type_ (si_m x))) (rank_of ranks (Type_ (si_m y)))),
      (Z.eqb_spec (rank_of ranks (Type_ (si_m y))) (rank_of ranks (Type_ (si_m z)))),
      (Z.eqb_spec (rank_of ranks (Type_ (si_m x))) (rank_of ranks (Type_ (si_m z))));
      cbn [negb]; repeat first [rewrite Z.ltb_lt | rewrite Nat.ltb_lt]; lia.
Qed.

Lemma delete_less_order removes : StrictOrder (delete_less ranks removes).
Proof.
  unfold delete_less. split.
  - intros a. destruct (removes !! a); [|done]. by rewrite Z.eqb_refl, Nat.ltb_irrefl.
  - intros a b c. destruct (removes !! a) as [x|], (removes !! b) as [y|], (removes !! c) as [z|]; try done.
    destruct (Z.eqb_spec (rank_of ranks (Type_ (sr_m x))) (rank_of ranks (Type_ (sr_m y)))),
      (Z.eqb_spec (rank_of ranks (Type_ (sr_m y))) (rank_of ranks (Type_ (sr_m z)))),
      (Z.eqb_spec (rank_of ranks (Type_ (sr_m x))) (rank_of ranks (Type_ (sr_m z))));
      cbn [negb]; repeat first [rewrite Z.ltb_lt | rewrite Nat.ltb_lt]; lia.
Qed.

Lemma insert_dependencies_range inserts i d :
  i < length inserts -> d ∈ insert_dependencies s inserts i -> d < length inserts.
Proof.
  intros _. unfold insert_dependencies. destruct (inserts !! i) as [x|]; [|by intros []%not_elem_of_nil].
  rewrite list_elem_of_omap. intros (p & _ & Hp). apply position_Some in Hp as (y & Hy & _).
  by eapply lookup_lt_Some.
Qed.

Lemma delete_edges_range removes a b :
  (a, b) ∈ delete_edges s removes -> a < length removes /\ b < length removes.
Proof.
  unfold delete_edges. rewrite elem_of_concat. intros (l & Hl & Hin).
  apply elem_of_lookup_imap in Hl as (i & x & -> & Hi).
  apply lookup_lt_Some in Hi. unfold delete_edges_of in Hin.
  apply elem_of_concat in Hin as (l & Hl & Hin). apply list_elem_of_fmap in Hl as (r & -> & Hr).
  apply list_elem_of_omap in Hin as (q & Hq & Hpos).
  destruct (position sr_ptr removes q) as [other|] eqn:Ep; [|done].
  apply position_Some in Ep as (y & Hy & _). apply lookup_lt_Some in Hy.
  destruct (rel_Kind r); try done; by injection Hpos as <- <-.
Qed.

Lemma delete_dependencies_elem removes i d :
  d ∈ delete_dependencies s removes i <-> (i, d) ∈ delete_edges s removes.
Proof.
  unfold delete_dependencies. rewrite list_elem_of_fmap. split.
  - intros ([a b] & -> & Hin). apply list_elem_of_In, filter_In in Hin as [Hin Ha].
    apply bool_decide_eq_true in Ha. cbn in *. subst. by apply list_elem_of_In.
  - intros Hin. exists (i, d). split; [done|]. apply list_elem_of_In, filter_In.
    split; [by apply list_elem_of_In|]. by apply bool_decide_eq_true.
Qed.

(** [y] is deleted before [x]: [y] references [x], or [x] holds [y]. *)
Definition deleted_before (x y : scheduledRemove) : Prop :=
  (exists r, r ∈ Relationships (sr_m y) /\ rel_Kind r = RelationshipManyToOne /\
     sr_ptr x ∈ (targets_of s (sr_ptr y) r).1) \/
  (exists r, r ∈ Relationships (sr_m x) /\
     (rel_Kind r = RelationshipOneToMany \/ rel_Kind r = RelationshipOneToOne) /\
     sr_ptr y ∈ (targets_of s (sr_ptr x) r).1).

Lemma delete_edges_spec removes i d x y :
  NoDup (sr_ptr <$> removes) -> removes !! i = Some x -> removes !! d = Some y ->
  (i, d) ∈ delete_edges s removes <-> deleted_before x y.
Proof.
  intros Hnd Hi Hd. unfold delete_edges. rewrite elem_of_concat. split.
  - intros (l & Hl & Hin).
    apply elem_of_lookup_imap in Hl as (k & z & -> & Hk). unfold delete_edges_of in Hin.
    apply elem_of_concat in Hin as (l & Hl & Hin). apply list_elem_of_fmap in Hl as (r & -> & Hr).
    apply list_elem_of_omap in Hin as (q & Hq & Hpos).
    destruct (position sr_ptr removes q) as [other|] eqn:Ep; [|done].
    apply position_Some in Ep as (w & Hw & <-).
    destruct (rel_Kind r) eqn:Ek; try done; injection Hpos as <- <-;
      repeat match goal with H1 : removes !! ?k = Some ?a, H2 : removes !! ?k = Some ?b |- _ =>
        rewrite H1 in H2; injection H2 as <- end.
    + left. by exists r.
    + right. exists r. auto.
    + right. exists r. auto.
  - assert (Hin : forall k z r other q, removes !! k = Some z -> r ∈ Relationships (sr_m z) ->
      q ∈ (targets_of s (sr_ptr z) r).1 -> position sr_ptr removes q = Some other ->
      forall e, match rel_Kind r with
        | RelationshipManyToOne => Some (other, k)
        | RelationshipOneToMany | RelationshipOneToOne => Some (k, other)
        | RelationshipManyToMany => None end = Some e ->
      exists l, l ∈ imap (delete_edges_of s removes) removes /\ e ∈ l).
    { intros k z r other q Hk Hr Hq Hp e He. exists (delete_edges_of s removes k z). split.
      - exact (elem_of_lookup_imap_2 (delete_edges_of s removes) _ _ _ Hk).
      - unfold delete_edges_of. apply elem_of_concat.
        eexists. split; [apply list_elem_of_fmap; by exists r|].
        apply list_elem_of_omap. exists q. split; [done|]. by rewrite Hp. }
    pose proof (position_lookup sr_ptr removes i x Hnd Hi) as Hpx.
    pose proof (position_lookup sr_ptr removes d y Hnd Hd) as Hpy.
    intros [(r & Hr & Hk & Hq)|(r & Hr & Hk & Hq)].
    + apply (Hin d y r i (sr_ptr x)); try done. by rewrite Hk.
    + apply (Hin i x r d (sr_ptr y)); try done. by destruct Hk as [-> | ->].
Qed.

(** ** Orders of items *)

Section Items.
Context {A : Type} (ptr : A -> Ptr) (waits earlier : A -> A -> Prop).

(** [ordered] holds the items, each after those it waits for, and takes at each
    place an item no later one that could stand there is earlier than. *)
Record ordered_by (items ordered : list A) : Prop := {
  ob_perm : ordered ≡ₚ items;
  ob_waits : forall x y, x ∈ items -> y ∈ items -> ptr x <> ptr y -> waits x y -> precedes ordered y x;
  ob_least : forall done x rest y, ordered = done ++ x :: rest -> y ∈ rest ->
    (forall z, z ∈ items -> waits y z -> ptr z = ptr y \/ z ∈ done) -> ~ earlier y x }.

(** What the items wait for makes no cycle. *)
Definition rankable (items : list A) : Prop :=
  exists rank : A -> nat, forall x y, x ∈ items -> y ∈ items -> ptr x <> ptr y -> waits x y -> rank y < rank x.

Lemma order_items (items : list A) (dependencies : nat -> list nat) (less : nat -> nat -> bool) :
  StrictOrder less -> NoDup (ptr <$> items) ->
  (forall i d, i < length items -> d ∈ dependencies i -> d < length items) ->
  (forall i d x y, items !! i = Some x -> items !! d = Some y -> d ∈ dependencies i <-> waits x y) ->
  (forall a b x y, items !! a = Some x -> items !! b = Some y -> less a b = true <-> earlier x y) ->
  let result := dependencyOrder (length items) dependencies less in
  (result.2 = true -> ordered_by items (pick items result.1)) /\ (result.2 = true <-> rankable items).
Proof.
  intros Hless Hnd Hrange Hwaits Hearlier result.
  assert (Hidx : forall i d x y, items !! i = Some x -> items !! d = Some y -> i <> d <-> ptr x <> ptr y).
  { intros i d x y Hi Hd. split.
    - intros Hne Hp. apply Hne. apply (NoDup_lookup (ptr <$> items) i d (ptr x)); [done| |];
        rewrite list_lookup_fmap; [by rewrite Hi|rewrite Hd; cbn; congruence].
    - intros Hp ->. congruence. }
  destruct (ordered_items items dependencies less Hrange) as [Hac Hall]. fold result in Hac, Hall. split.
  - intros Hok. destruct (Hall Hok) as (Hperm & Hprec & Hgreedy).
    assert (Hndi : NoDup items) by (by eapply NoDup_fmap_1).
    assert (Hndo : NoDup (pick items result.1)) by (by rewrite Hperm).
    split; [done| |].
    + intros x y Hx Hy Hne Hw. apply list_elem_of_lookup in Hx as [i Hi], Hy as [d Hd].
      apply (Hprec i d x y); try done; [by apply (Hidx i d x y)|by apply (Hwaits i d x y)].
    + intros done x rest y Eq Hy Hdone Hlt.
      assert (Hj : pick items result.1 !! length done = Some x) by (rewrite Eq; by apply list_lookup_middle).
      assert (Hyi : y ∈ items) by (rewrite <- Hperm, Eq; set_solver).
      apply list_elem_of_lookup in Hyi as [k Hk]. apply list_elem_of_lookup in Hy as [j Hjr].
      assert (Hj' : pick items result.1 !! (length done + S j) = Some y).
      { rewrite Eq, lookup_app_r by lia. by replace (length done + S j - length done) with (S j) by lia. }
      destruct (Hgreedy (length done) x k y Hj Hk) as (i & Hi & Hl).
      * exists (length done + S j). split; [lia|]. split; [done|].
        destruct (dependencyOrder_facts _ _ _ Hrange) as (_ & _ & _ & Hr & _). fold result in Hr.
        rewrite pick_lookup in Hj' by done. destruct (result.1 !! _) as [k'|]; [|done]. cbn in Hj'.
        f_equal. by apply (NoDup_lookup items k' k y).
      * intros d z Hd Hne Hz. rewrite Eq, take_app_length.
        destruct (Hdone z) as [Hp|?]; [by eapply list_elem_of_lookup_2|by apply (Hwaits k d y z)| |done].
        by destruct (proj1 (Hidx d k z y Hz Hk) Hne).
      * done.
      * rewrite (proj2 (Hearlier k i y x Hk Hi) Hlt) in Hl. discriminate.
  - rewrite Hac. split.
    + intros [rank Hrank].
      exists (fun x => match position ptr items (ptr x) with Some i => rank i | None => 0 end).
      intros x y Hx Hy Hne Hw. apply list_elem_of_lookup in Hx as [i Hi], Hy as [d Hd].
      rewrite (position_lookup ptr items i x), (position_lookup ptr items d y) by done.
      apply Hrank; [by eapply lookup_lt_Some|by apply (Hwaits i d x y)|].
      intros ->. congruence.
    + intros [rank Hrank].
      exists (fun i => match items !! i with Some x => rank x | None => 0 end).
      intros i d Hi Hd Hne. apply lookup_lt_is_Some in Hi as Hi'. destruct Hi' as [x Hx].
      assert (Hdl : d < length items) by (by eapply Hrange).
      apply lookup_lt_is_Some in Hdl as [y Hy]. rewrite Hx, Hy.
      apply Hrank; [by eapply list_elem_of_lookup_2|by eapply list_elem_of_lookup_2| |by apply (Hwaits i d x y)].
      apply (Hidx i d x y); [done|done|congruence].
Qed.

End Items.

(** [y] is inserted before [x]: [x] references it, or it cascaded [x]. *)
Definition inserted_before (x y : scheduledInsert) : Prop := si_ptr y ∈ insert_parents s x.

Definition earlier_insert (x y : scheduledInsert) : Prop :=
  let rx := rank_of ranks (Type_ (si_m x)) in
  let ry := rank_of ranks (Type_ (si_m y)) in
  (rx < ry)%Z \/ (rx = ry /\ si_order x < si_order y).

(** Deletes take the highest rank first. *)
Definition earlier_delete (x y : scheduledRemove) : Prop :=
  let rx := rank_of ranks (Type_ (sr_m x)) in
  let ry := rank_of ranks (Type_ (sr_m y)) in
  (ry < rx)%Z \/ (rx = ry /\ sr_order x < sr_order y).

Lemma insert_dependencies_spec inserts i d x y :
  NoDup (si_ptr <$> inserts) -> inserts !! i = Some x -> inserts !! d = Some y ->
  d ∈ insert_dependencies s inserts i <-> inserted_before x y.
Proof.
  intros Hnd Hi Hd. unfold insert_dependencies, inserted_before. rewrite Hi, list_elem_of_omap. split.
  - intros (p & Hp & Hpos). apply position_Some in Hpos as (z & Hz & <-). congruence.
  - intros Hp. exists (si_ptr y). split; [done|]. by apply position_lookup.
Qed.

Lemma insert_less_spec inserts a b x y :
  inserts !! a = Some x -> inserts !! b = Some y ->
  insert_less ranks inserts a b = true <-> earlier_insert x y.
Proof.
  intros Ha Hb. unfold insert_less, earlier_insert. rewrite Ha, Hb.
  destruct (Z.eqb_spec (rank_of ranks (Type_ (si_m x))) (rank_of ranks (Type_ (si_m y)))); cbn [negb].
  - rewrite Nat.ltb_lt. lia.
  - rewrite Z.ltb_lt. lia.
Qed.

Lemma delete_less_spec removes a b x y :
  removes !! a = Some x -> removes !! b = Some y ->
  delete_less ranks removes a b = true <-> earlier_delete x y.
Proof.
  intros Ha Hb. unfold delete_less, earlier_delete. rewrite Ha, Hb.
  destruct (Z.eqb_spec (rank_of ranks (Type_ (sr_m x))) (rank_of ranks (Type_ (sr_m y)))); cbn [negb].
  - rewrite Nat.ltb_lt. lia.
  - rewrite Z.ltb_lt. lia.
Qed.

(** ** Theorems *)

(** C25. The insert phase's order.  [orderInserts] orders exactly the scheduled
    inserts, a child after every scheduled parent it references through a
    many-to-one navigation and every owner that cascaded it, and each time the
    insert of lowest type rank and then earliest schedule order among those
    whose parents are all written.  It refuses with UOW-004 exactly when those
    references form a cycle. *)
Theorem orderInserts_correct (inserts : list scheduledInsert) :
  NoDup (si_ptr <$> inserts) ->
  (exists ordered, orderInserts s ranks inserts = Ok ordered /\
     ordered_by si_ptr inserted_before earlier_insert inserts ordered /\
     rankable si_ptr inserted_before inserts) \/
  (failing "UOW-004" (orderInserts s ranks inserts) /\ ~ rankable si_ptr inserted_before inserts).
Proof.
  intros Hnd.
  destruct (order_items si_ptr inserted_before earlier_insert inserts (insert_dependencies s inserts)
    (insert_less ranks inserts) (insert_less_order inserts) Hnd
    (insert_dependencies_range inserts)) as [Hgood Hiff].
  { intros i d x y. by apply insert_dependencies_spec. }
  { intros a b x y. apply insert_less_spec. }
  unfold orderInserts. destruct (dependencyOrder _ _ _) as [order ok]. cbn [fst snd] in *.
  destruct ok; cbn [negb].
  - left. eexists. split; [done|]. split; [by apply Hgood|by apply Hiff].
  - right. split; [by eexists|]. rewrite <- Hiff. done.
Qed.

(** The delete phase's order.  [orderDeletes] orders exactly the scheduled
    removals, a parent after every scheduled child that references it or that
    it holds, and each time the removal of highest type rank and then earliest
    schedule order among those whose children are all deleted; UOW-004 exactly
    when those references form a cycle. *)
Theorem orderDeletes_correct (removes : list scheduledRemove) :
  NoDup (sr_ptr <$> removes) ->
  (exists ordered, orderDeletes s ranks removes = Ok ordered /\
     ordered_by sr_ptr deleted_before earlier_delete removes ordered /\
     rankable sr_ptr deleted_before removes) \/
  (failing "UOW-004" (orderDeletes s ranks removes) /\ ~ rankable sr_ptr deleted_before removes).
Proof.
  intros Hnd.
  destruct (order_items sr_ptr deleted_before earlier_delete removes (delete_dependencies s removes)
    (delete_less ranks removes) (delete_less_order removes) Hnd) as [Hgood Hiff].
  { intros i d _. rewrite delete_dependencies_elem. apply delete_edges_range. }
  { intros i d x y Hi Hd. rewrite delete_dependencies_elem. by apply delete_edges_spec. }
  { intros a b x y. apply delete_less_spec. }
  unfold orderDeletes. destruct (dependencyOrder _ _ _) as [order ok]. cbn [fst snd] in *.
  destruct ok; cbn [negb].
  - left. eexists. split; [done|]. split; [by apply Hgood|by apply Hiff].
  - right. split; [by eexists|]. rewrite <- Hiff. done.
Qed.

End Laws.

(** The pending work of a well-formed schedule is distinct instances: what the
    orders ask for. *)
Lemma pendingWork_distinct (s : Session) (u : unitOfWork) :
  uow_ok u -> NoDup (si_ptr <$> (pendingWork s u).1) /\ NoDup (sr_ptr <$> (pendingWork s u).2).
Proof.
  intros [Hwf _]. unfold pendingWork. cbn [fst snd]. split.
  - assert (H : NoDup (si_ptr <$> insert_objects u)).
    { unfold insert_objects. pose proof (sorted_lt_NoDup _ (uo_inserts u Hwf)) as Hnd.
      assert (Hobj : forall id, id ∈ uw_inserts u -> exists o, uw_objects u !! id = Some o /\
                uw_insertOf u !! si_ptr o = Some id).
      { intros id Hid. destruct (uo_object u Hwf id Hid) as (o & ? & _ & ?). by exists o. }
      revert Hnd Hobj. generalize (uw_inserts u) as l. induction l as [|id l IH]; intros Hnd Hobj; [constructor|].
      apply NoDup_cons in Hnd as [Hid Hnd]. destruct (Hobj id (list_elem_of_here _ _)) as (o & Ho & Hof).
      cbn. rewrite Ho. cbn. constructor; [|apply IH; [done|]; intros i Hi; apply Hobj; by right].
      intros Hin. apply list_elem_of_fmap in Hin as (o' & Heq & Hin).
      apply list_elem_of_omap in Hin as (id' & Hid' & Ho').
      destruct (Hobj id' (list_elem_of_further _ _ _ Hid')) as (o2 & Ho2 & Hof2).
      rewrite Ho' in Ho2. injection Ho2 as <-. rewrite <- Heq, Hof in Hof2. injection Hof2 as <-. done. }
    revert H. generalize (insert_objects u). intros l. induction l as [|x l IH]; [done|].
    intros [Hx Hl]%NoDup_cons. cbn. destruct (negb _); [|by apply IH]. cbn. constructor; [|by apply IH].
    intros Hin. apply Hx. apply list_elem_of_fmap in Hin as (y & -> & Hy). apply list_elem_of_fmap.
    exists y. split; [done|]. by apply elem_filter in Hy as [? _].
  - apply NoDup_fmap_2_strong.
    + intros x y [Hx _]%elem_filter [Hy _]%elem_filter Heq.
      assert (E1 : uw_removeOf u !! sr_ptr x = Some x) by (by apply (uo_removeOf u Hwf)).
      assert (E2 : uw_removeOf u !! sr_ptr x = Some y) by (by apply (uo_removeOf u Hwf)). congruence.
    + apply NoDup_ListNoDup, List.NoDup_filter, NoDup_ListNoDup.
      apply (NoDup_fmap_1 sr_order). apply sorted_lt_NoDup, Hwf.
Qed.

(** ** Witnesses *)

Definition sample_ranks : typeRanks := <[order_type := 0%Z]> (<[line_type := 1%Z]> ∅).
Definition pending_order : list scheduledInsert := (pendingWork order_session persisted).1.

Lemma persisted_ok : uow_ok persisted.
Proof.
  unfold persisted, Persist, Persist_. cbn [order_session se_tracker requireUnitOfWork].
  pose proof (persist_visit_ok sample_load order_session newUnitOfWork (walk_fuel order_session) order_type 1
    None _ (newPersistPlan_ok order_session newUnitOfWork)) as Hp.
  destruct (persist_visit _ _ _ _ _ _ _ _) as [plan [[]|e]]; cbn [fst] in *.
  - by apply (persist_commit_spec order_session newUnitOfWork plan newUnitOfWork_ok).
  - apply with_counter_ok; [apply newUnitOfWork_ok|apply Hp].
Qed.

(** The lines wait for the order, although they are listed first. *)
Lemma orderInserts_correct_witness :
  orderInserts order_session sample_ranks (rev pending_order) = Ok pending_order /\
  rankable si_ptr (inserted_before order_session) (rev pending_order).
Proof.
  assert (Hrun : orderInserts order_session sample_ranks (rev pending_order) = Ok pending_order)
    by (vm_compute; reflexivity).
  split; [exact Hrun|].
  destruct (orderInserts_correct order_session sample_ranks (rev pending_order))
    as [(ordered & _ & _ & Hr)|[[t Hf] _]].
  - apply NoDup_ListNoDup. rewrite map_rev. apply NoDup_rev, NoDup_ListNoDup.
    apply (pendingWork_distinct order_session persisted persisted_ok).
  - exact Hr.
  - rewrite Hrun in Hf. discriminate.
Defined.

Definition removed_order : scheduledRemove := mkRemove 1 order_map 1.
Definition removed_line : scheduledRemove := mkRemove 2 line_map 2.

Lemma orderDeletes_correct_witness :
  orderDeletes order_session sample_ranks [removed_order; removed_line] = Ok [removed_line; removed_order] /\
  rankable sr_ptr (deleted_before order_session) [removed_order; removed_line].
Proof.
  assert (Hrun : orderDeletes order_session sample_ranks [removed_order; removed_line]
                 = Ok [removed_line; removed_order]) by (vm_compute; reflexivity).
  split; [exact Hrun|].
  destruct (orderDeletes_correct order_session sample_ranks [removed_order; removed_line])
    as [(ordered & _ & _ & Hr)|[[t Hf] _]].
  - cbn. repeat constructor; set_solver.
  - exact Hr.
  - rewrite Hrun in Hf. discriminate.
Defined.
