(* ===== verification/KeyFlow.v ===== *)
(** Keys flow before each insert (flush.go): [copyKey], [flowKeys] and
    [cascadeOwners]. *)
From S2P Require Import Prelude GoStrings Values Core Tracker Instances Session UnitOfWork Cascades Reach.

(** [p.Set(ptr, v)] on the instance behind [ptr]. *)
Definition Set_at (ptr : Ptr) (p : PropertyMap) (v : Value) : SM heap unit := fun h =>
  let '(i, r) := Set_ p v (deref h ptr) in (<[ptr := i]> h, r).

Definition Get_at (h : heap) (ptr : Ptr) (p : PropertyMap) : Value := Get p (deref h ptr).

Section KeyFlow.
Context (load : GoType -> result EntityMap).

Definition copy_part (source : Ptr) (targetMap : EntityMap) (target : Ptr)
    (part : PropertyMap * string) : SM heap unit :=
  match Property targetMap part.2 with
  | None => sthrow (NewError "REL-003" (EntityName targetMap +:+ "." +:+ part.2))
  | Some foreignKey => do! h <- sget in Set_at target foreignKey (Get_at h source part.1)
  end.

(** A key of another arity is skipped. *)
Definition copyKey (sourceMap : EntityMap) (source : Ptr) (targetMap : EntityMap) (target : Ptr)
    (foreignKeys : list string) : SM heap unit :=
  if negb (length (KeyProperties sourceMap) =? length foreignKeys)%nat then sret tt
  else forS (copy_part source targetMap target) (combine (KeyProperties sourceMap) foreignKeys).

Definition flow_navigation (x : scheduledInsert) (r : RelationshipMap) : SM heap unit :=
  if negb (bool_decide (rel_Kind r = RelationshipManyToOne)) then sret tt
  else
    do! h <- sget in
    match (navigationTargets (deref h (si_ptr x)) r).1 with
    | [] => sret tt
    | target :: _ =>
        do! targetMap <- slift (load (rel_TargetType r)) in
        copyKey targetMap target (si_m x) (si_ptr x) (rel_ForeignKeyProperties r)
    end.

(** The owner's key goes into the child along these links. *)
Definition gives_key (l : cascadeLink) : bool :=
  bool_decide (rel_Kind (cl_relationship l) = RelationshipOneToMany \/
               rel_Kind (cl_relationship l) = RelationshipOneToOne).

Definition flow_link (x : scheduledInsert) (l : cascadeLink) : SM heap unit :=
  if negb (gives_key l) then sret tt
  else copyKey (cl_ownerMap l) (cl_owner l) (si_m x) (si_ptr x)
         (rel_ForeignKeyProperties (cl_relationship l)).

Definition flowKeys (x : scheduledInsert) : SM heap unit :=
  forS (flow_navigation x) (Relationships (si_m x)) ;! forS (flow_link x) (si_links x).

Definition cascadeOwners (x : scheduledInsert) : list Ptr :=
  cl_owner <$> List.filter gives_key (si_links x).

(** ** Lemmas *)

Lemma deref_insert_eq h p i : deref (<[p := i]> h) p = i.
Proof. unfold deref. by rewrite lookup_insert_eq. Qed.
Lemma deref_insert_ne h p q i : q <> p -> deref (<[p := i]> h) q = deref h q.
Proof. intros H. unfold deref. by rewrite lookup_insert_ne by congruence. Qed.

(** Setting a property touches its instance only, and there no navigation and
    no field of another name. *)
Record touches (ptr : Ptr) (names : list string) (h h' : heap) : Prop := {
  to_others : forall q, q <> ptr -> deref h' q = deref h q;
  to_navs : in_navs (deref h' ptr) = in_navs (deref h ptr);
  to_type : in_type (deref h' ptr) = in_type (deref h ptr);
  to_fields : forall name, name ∉ names ->
    in_fields (deref h' ptr) !! name = in_fields (deref h ptr) !! name }.

Lemma touches_refl ptr names h : touches ptr names h h.
Proof. by split. Qed.

Lemma touches_trans ptr names h1 h2 h3 :
  touches ptr names h1 h2 -> touches ptr names h2 h3 -> touches ptr names h1 h3.
Proof.
  intros [A1 A2 A3 A4] [B1 B2 B3 B4]. split.
  - intros q Hq. by rewrite B1, A1.
  - congruence.
  - congruence.
  - intros name Hn. by rewrite B4, A4.
Qed.

Lemma touches_mono ptr names names' h h' :
  names ⊆ names' -> touches ptr names h h' -> touches ptr names' h h'.
Proof. intros Hs [A1 A2 A3 A4]. split; try done. intros name Hn. apply A4. set_solver. Qed.

Lemma allocate_frame o i :
  in_navs (allocate o i) = in_navs i /\ in_type (allocate o i) = in_type i /\
  in_fields (allocate o i) = in_fields i.
Proof. unfold allocate. by destruct (navigation o i). Qed.

Lemma Set_at_touches ptr p v h : touches ptr [PropertyName p] h (Set_at ptr p v h).1.
Proof.
  unfold Set_at. destruct (Set_ p v (deref h ptr)) as [i r] eqn:E. cbn [fst].
  assert (Hi : in_navs i = in_navs (deref h ptr) /\ in_type i = in_type (deref h ptr) /\
            forall name, name ∉ [PropertyName p] -> in_fields i !! name = in_fields (deref h ptr) !! name).
  { unfold Set_, sbind, smodify, sthrow in E.
    set (i1 := match Owner p with Some o => allocate o (deref h ptr) | None => deref h ptr end) in E.
    assert (H1 : in_navs i1 = in_navs (deref h ptr) /\ in_type i1 = in_type (deref h ptr) /\
              in_fields i1 = in_fields (deref h ptr))
      by (subst i1; destruct (Owner p); [apply allocate_frame|done]).
    destruct H1 as (N1 & T1 & F1).
    destruct (decide (v = VNil)); [|destruct (has_type _ _)]; injection E as <- <-; cbn;
      split; try done; split; try done; intros name Hn; rewrite ?F1; try done;
      rewrite lookup_insert_ne by set_solver; done. }
  destruct Hi as (N & T & F). split.
  - intros q Hq. by apply deref_insert_ne.
  - by rewrite deref_insert_eq.
  - by rewrite deref_insert_eq.
  - intros name Hn. rewrite deref_insert_eq. auto.
Qed.

Lemma copy_part_touches source targetMap target part h :
  touches target [part.2] h (copy_part source targetMap target part h).1.
Proof.
  unfold copy_part. destruct (Property targetMap part.2) as [p|] eqn:E; [|apply touches_refl].
  apply Property_Some in E as [_ <-]. apply Set_at_touches.
Qed.

(** A loop whose turns touch an instance does. *)
Lemma forS_touches {A} (f : A -> SM heap unit) ptr names l :
  (forall x h, x ∈ l -> touches ptr names h (f x h).1) ->
  forall h, touches ptr names h (forS f l h).1.
Proof.
  intros Hf h. refine (forS_preserves (touches ptr names h) f l _ h (touches_refl _ _ _)).
  intros x Hx h1 H1. eapply touches_trans; [done|]. by apply Hf.
Qed.

Lemma copyKey_touches sourceMap source targetMap target fks h :
  touches target fks h (copyKey sourceMap source targetMap target fks h).1.
Proof.
  unfold copyKey. destruct (negb _); [apply touches_refl|]. apply forS_touches.
  intros [p name] h1 Hin. eapply touches_mono; [|apply copy_part_touches]. cbn.
  apply list_elem_of_In, in_combine_r, list_elem_of_In in Hin. set_solver.
Qed.

(** The foreign-key properties of an insert's navigations and links. *)
Definition flow_names (x : scheduledInsert) : list string :=
  concat (rel_ForeignKeyProperties <$>
    List.filter (fun r => bool_decide (rel_Kind r = RelationshipManyToOne)) (Relationships (si_m x))) ++
  concat ((fun l => rel_ForeignKeyProperties (cl_relationship l)) <$> List.filter gives_key (si_links x)).

Lemma flowKeys_touches x h : touches (si_ptr x) (flow_names x) h (flowKeys x h).1.
Proof.
  assert (Hconcat : forall {B} (f : B -> list string) l b, b ∈ l -> f b ⊆ concat (f <$> l)).
  { intros B f l b Hb n Hn. apply elem_of_concat. exists (f b). split; [|done].
    apply list_elem_of_fmap. by exists b. }
  unfold flowKeys.
  refine (sbind_preserves (touches (si_ptr x) (flow_names x) h) _ _ _ _ h (touches_refl _ _ _)).
  - intros h1 H1. eapply touches_trans; [done|]. apply forS_touches. intros r h2 Hr.
    unfold flow_navigation. destruct (negb _) eqn:Ek; [apply touches_refl|].
    unfold sbind at 1, sget. destruct (navigationTargets _ r).1 as [|q qs]; [apply touches_refl|].
    unfold sbind, slift. destruct (load (rel_TargetType r)) as [tm|]; [|apply touches_refl].
    eapply touches_mono; [|apply copyKey_touches]. unfold flow_names.
    apply negb_false_iff in Ek.
    assert (Hin : r ∈ List.filter (fun r => bool_decide (rel_Kind r = RelationshipManyToOne)) (Relationships (si_m x)))
      by (apply list_elem_of_In, filter_In; split; [by apply list_elem_of_In|done]).
    pose proof (Hconcat _ rel_ForeignKeyProperties _ _ Hin). set_solver.
  - intros _ h1 H1. eapply touches_trans; [done|]. apply forS_touches. intros l h2 Hl.
    unfold flow_link. destruct (gives_key l) eqn:Ek; [|apply touches_refl]. cbn [negb].
    eapply touches_mono; [|apply copyKey_touches]. unfold flow_names.
    assert (Hin : l ∈ List.filter gives_key (si_links x))
      by (apply list_elem_of_In, filter_In; split; [by apply list_elem_of_In|done]).
    pose proof (Hconcat _ (fun l => rel_ForeignKeyProperties (cl_relationship l)) _ _ Hin). set_solver.
Qed.

End KeyFlow.

(** The parts of a key go into the foreign keys. *)
Lemma copy_parts source targetMap target parts h :
  source <> target -> NoDup parts.*2 ->
  (forall part, part ∈ parts -> exists f, Property targetMap part.2 = Some f /\
     accepts f (Get_at h source part.1)) ->
  exists h', forS (copy_part source targetMap target) parts h = (h', Ok tt) /\
    (forall part f, part ∈ parts -> Property targetMap part.2 = Some f ->
       Get_at h' target f = stored f (Get_at h source part.1)) /\
    (forall q, PropertyName q ∉ parts.*2 -> reachable_field q (deref h target) ->
       Get_at h' target q = Get_at h target q).
Proof.
  intros Hst. revert h. induction parts as [|[key name] parts IH]; intros h Hnd Hparts.
  { exists h. split; [done|]. split; [|done]. by intros part f []%not_elem_of_nil. }
  apply NoDup_cons in Hnd as [Hname Hnd].
  destruct (Hparts (key, name) (list_elem_of_here _ _)) as (f & Hf & Hacc). cbn [fst snd] in Hf, Hacc.
  apply Property_Some in Hf as Hfn. destruct Hfn as [_ Hfn].
  destruct (Set_stores f (Get_at h source key) (deref h target) Hacc)
    as (i' & Hset & Hget & Hself & Hmono & Hframe).
  set (h1 := <[target := i']> h).
  assert (Hsrc : deref h1 source = deref h source) by (by apply deref_insert_ne).
  assert (Htgt : deref h1 target = i') by apply deref_insert_eq.
  destruct (IH h1 Hnd) as (h' & Hrun & Hcopied & Hrest).
  { intros part Hpart. unfold Get_at. rewrite Hsrc. apply Hparts. by right. }
  exists h'. split; [|split].
  - cbn [forS]. unfold sbind at 1, copy_part at 1. cbn [fst snd]. rewrite Hf.
    unfold sbind, sget, Set_at. rewrite Hset. exact Hrun.
  - intros part g Hpart Hg. apply elem_of_cons in Hpart as [->|Hpart].
    + cbn [fst snd] in *. rewrite Hf in Hg. injection Hg as <-. rewrite Hrest.
      * unfold Get_at at 1. by rewrite Htgt.
      * by rewrite Hfn.
      * by rewrite Htgt.
    + rewrite (Hcopied part g Hpart Hg). unfold Get_at. by rewrite Hsrc.
  - intros q Hq Hr. cbn in Hq. apply not_elem_of_cons in Hq as [Hq1 Hq2]. rewrite Hrest.
    + unfold Get_at. rewrite Htgt. apply Hframe; [congruence|done].
    + done.
    + rewrite Htgt. by apply Hmono.
Qed.

(** ** Theorems *)

(** [copyKey] copies the source's key into the target's foreign keys: part
    by part, in key order, when the arities agree and each named property takes
    the part; every other readable property of the target reads the same.  An
    unmapped name is REL-003, and a key of another arity copies nothing. *)
Theorem copyKey_copies (sourceMap targetMap : EntityMap) (source target : Ptr) (fks : list string)
    (h : heap) :
  source <> target -> NoDup fks -> length (KeyProperties sourceMap) = length fks ->
  (forall part, part ∈ combine (KeyProperties sourceMap) fks ->
     exists f, Property targetMap part.2 = Some f /\ accepts f (Get_at h source part.1)) ->
  exists h', copyKey sourceMap source targetMap target fks h = (h', Ok tt) /\
    (forall part f, part ∈ combine (KeyProperties sourceMap) fks -> Property targetMap part.2 = Some f ->
       Get_at h' target f = stored f (Get_at h source part.1)) /\
    (forall q, PropertyName q ∉ fks -> reachable_field q (deref h target) ->
       Get_at h' target q = Get_at h target q).
Proof.
  intros Hst Hnd Hlen Hparts.
  assert (Hsnd : (combine (KeyProperties sourceMap) fks).*2 = fks).
  { clear -Hlen. revert fks Hlen. induction (KeyProperties sourceMap) as [|k ks IH]; intros [|f fks] Hlen;
      try done. cbn. f_equal. apply IH. by injection Hlen. }
  unfold copyKey. rewrite (proj2 (Nat.eqb_eq _ _) Hlen). cbn [negb].
  rewrite <- Hsnd in Hnd.
  destruct (copy_parts source targetMap target _ h Hst Hnd Hparts) as (h' & Hrun & Hcopied & Hframe).
  exists h'. split; [done|]. split; [done|]. intros q Hq. apply Hframe. by rewrite Hsnd.
Qed.

(** Keys flow into the instance about to be inserted and nowhere else:
    whatever [flowKeys] returns, every other instance is as it was, and of this
    one only the foreign-key properties of its many-to-one navigations and of
    its key-giving links can have changed - no navigation, no other field. *)
Theorem flowKeys_frame (load : GoType -> result EntityMap) (x : scheduledInsert) (h h' : heap)
    (r : result unit) :
  flowKeys load x h = (h', r) -> touches (si_ptr x) (flow_names x) h h'.
Proof. intros H. pose proof (flowKeys_touches load x h) as Ht. by rewrite H in Ht. Qed.

(** ** Witnesses: the order's key goes into its line *)

Definition keyed_order : heap :=
  <[1 := mkInstance order_type {["ID" := VInt KInt64 9]} ∅ {["Lines" := NavMany (Some [Some 2; Some 3])]}]>
    order_heap.
Definition line_fk : PropertyMap := int_property line_type "OrderID" false false.

Lemma copyKey_copies_witness :
  exists h', copyKey order_map 1 line_map 2 ["OrderID"] keyed_order = (h', Ok tt) /\
    Get_at h' 2 line_fk = VInt KInt64 9.
Proof.
  destruct (copyKey_copies order_map line_map 1 2 ["OrderID"] keyed_order) as (h' & Hrun & Hc & _).
  - done.
  - repeat constructor; set_solver.
  - reflexivity.
  - intros part Hp. change (combine _ _) with [(int_property order_type "ID" true true, "OrderID")] in Hp.
    apply list_elem_of_singleton in Hp as ->. exists line_fk. split; [reflexivity|right; reflexivity].
  - exists h'. split; [exact Hrun|].
    rewrite (Hc (int_property order_type "ID" true true, "OrderID") line_fk); [reflexivity| |reflexivity].
    left.
Defined.

Lemma flowKeys_frame_witness :
  let line := mkInsert 2 line_map false [mkLink 1 order_map order_lines] 2 in
  exists h', flowKeys sample_load line keyed_order = (h', Ok tt) /\
    touches 2 (flow_names line) keyed_order h' /\ Get_at h' 2 line_fk = VInt KInt64 9.
Proof.
  intros line. eexists. split; [vm_compute; reflexivity|]. split; [|vm_compute; reflexivity].
  apply (flowKeys_frame sample_load line keyed_order _ (Ok tt)). vm_compute. reflexivity.
Defined.
