(* ===== verification/Batching.v ===== *)
(** Statement batching (batching.go, batch.go): how the statements of one call
    are formed into messages.

    What a statement reads and changes - instances, identity map, journal,
    database - is an environment [E]: preparing an operation and finishing a
    write are steps on it, the operations' own.  The two realizations of a
    message, the dialect's batcher and the statement-by-statement runner, are
    parameters: they talk to the driver.  [c.messages] counts; here it keeps the
    messages, and its length is the count. *)
From S2P Require Import Prelude GoStrings Values Core Params Tracker Instances.

Inductive StatementResult := ResultNone | ResultKey | ResultReportedCount | ResultDriverCount.
#[export] Instance StatementResult_eq_dec : EqDecision StatementResult.
Proof. solve_decision. Defined.

Record writeResult := mkWriteResult { wr_key : Value; wr_affected : Z }.

Section Batching.
Context {E : Type}.

(** [pw_id] is the identity of the prepared write, a pointer in the program:
    the call records the affected count under it.  [pw_undoPrepare] is the
    identity where the program has none. *)
Record preparedWrite := mkWrite {
  pw_id : nat;
  pw_sql : string;
  pw_args : list NamedArg;
  pw_kind : StatementResult;
  pw_instance : option Ptr;
  pw_generatesKey : bool;
  pw_command : bool;
  pw_finish : option (writeResult -> SM E unit);
  pw_undoPrepare : E -> E }.

Definition readsResult (w : preparedWrite) : bool :=
  bool_decide (pw_kind w = ResultKey \/ pw_kind w = ResultReportedCount).

Record subject := mkSubject {
  su_m : option EntityMap;
  su_instance : option Ptr;
  su_depends : list Ptr;
  su_key : option KeyTuple }.

Record message := mkMessage {
  ms_writes : list preparedWrite;
  ms_instances : gset Ptr;
  ms_keys : list (GoType * KeyTuple);
  ms_generated : gset Ptr;
  ms_hasCommand : bool;
  ms_parameters : nat }.
Definition newMessage : message := mkMessage [] ∅ [] ∅ false 0.

Record batchCall := mkCall {
  bc_auto : bool;
  bc_limit : Z;
  bc_parameterCap : Z;
  bc_current : message;
  bc_messages : list (list preparedWrite);
  bc_affected : gmap nat Z }.

Definition newCall (auto : bool) (maxStatements maxParameters : Z) : batchCall :=
  mkCall auto maxStatements maxParameters newMessage [] ∅.

(** The call and the environment. *)
Definition state := (batchCall * E)%type.

Context (heap_of : E -> heap) (ctx_Err : E -> option Error)
  (SendMessage : option (list preparedWrite -> SM E (list writeResult)))
  (runWrite : preparedWrite -> SM E writeResult).

(** The key the operation is about, as it stands. *)
Definition keyNow (h : heap) (s : subject) : option KeyTuple :=
  match su_m s with
  | None => None
  | Some m =>
      match su_instance s with
      | None => su_key s
      | Some p =>
          match KeyValues m (deref h p) with
          | Fail _ => None
          | Ok values => setKey m values
          end
      end
  end.

Definition subject_type (s : subject) : GoType :=
  match su_m s with Some m => Type_ m | None => mkGoType "" "" end.

(** A step on the environment, in a step on the call. *)
Definition on_env {A} (m : SM E A) : SM state A := fun '(c, e) =>
  let '(e', r) := m e in ((c, e'), r).
Definition on_call (f : batchCall -> batchCall) : SM state unit := fun '(c, e) => ((f c, e), Ok tt).

Definition set_current (current : message) (c : batchCall) : batchCall :=
  mkCall (bc_auto c) (bc_limit c) (bc_parameterCap c) current (bc_messages c) (bc_affected c).

(** ** [complete] and [send] *)

Definition record_affected (w : preparedWrite) (result : writeResult) (c : batchCall) : batchCall :=
  match pw_kind w with
  | ResultReportedCount | ResultDriverCount =>
      mkCall (bc_auto c) (bc_limit c) (bc_parameterCap c) (bc_current c) (bc_messages c)
        (<[pw_id w := wr_affected result]> (bc_affected c))
  | _ => c
  end.

Definition complete (w : preparedWrite) (result : writeResult) : SM state unit :=
  on_env match pw_finish w with Some finish => finish result | None => sret tt end ;!
  on_call (record_affected w result).

(** [results[i]]: a batcher that answers too few results panics. *)
Fixpoint complete_all (writes : list preparedWrite) (results : list writeResult) : SM state unit :=
  match writes with
  | [] => sret tt
  | w :: writes' =>
      match results with
      | [] => slift (Panic "index out of range")
      | r :: results' => complete w r ;! complete_all writes' results'
      end
  end.

(** The message in progress goes out: [newMessage] takes its place first. *)
Definition take_message : SM state (list preparedWrite) := fun '(c, e) =>
  let writes := ms_writes (bc_current c) in
  let messages := match writes with [] => bc_messages c | _ => bc_messages c ++ [writes] end in
  ((mkCall (bc_auto c) (bc_limit c) (bc_parameterCap c) newMessage messages (bc_affected c), e), Ok writes).

Definition send : SM state unit :=
  do! writes <- take_message in
  match writes with
  | [] => sret tt
  | _ =>
      do! (_, e) <- sget in
      match ctx_Err e with
      | Some err => sthrow err
      | None =>
          match SendMessage with
          | Some sendMessage =>
              do! results <- on_env (sendMessage writes) in complete_all writes results
          | None =>
              forS (fun w => do! result <- on_env (runWrite w) in complete w result) writes
          end
      end
  end.

(** ** [before] *)

(** A message key of the operation's type equal to its key. *)
Fixpoint key_held (keys : list (GoType * KeyTuple)) (t : GoType) (key : KeyTuple) : result bool :=
  match keys with
  | [] => Ok false
  | (t', held) :: keys' =>
      if decide (t' = t) then
        let* c := KeyTuple_Compare held key in
        if (c =? 0)%Z then Ok true else key_held keys' t key
      else key_held keys' t key
  end.

(** Rule 1: does the operation depend on the message in progress? *)
Definition must_cut (current : message) (h : heap) (s : subject) : result bool :=
  if match su_instance s with Some p => bool_decide (p ∈ ms_instances current) | None => false end
     || existsb (fun parent => bool_decide (parent ∈ ms_generated current)) (su_depends s)
  then Ok true
  else match keyNow h s with
       | Some key => key_held (ms_keys current) (subject_type s) key
       | None => Ok false
       end.

Definition before (s : subject) : SM state unit :=
  do! (c, e) <- sget in
  match ms_writes (bc_current c) with
  | [] => sret tt
  | _ =>
      do! cut <- slift (must_cut (bc_current c) (heap_of e) s) in
      if (cut : bool) then send else sret tt
  end.

(** ** [add] *)

(** Rules 2 and 3, for a statement whose parameters are bound. *)
Definition must_flush (c : batchCall) (w : preparedWrite) : bool :=
  match ms_writes (bc_current c) with
  | [] => false
  | _ =>
      ((0 <? bc_parameterCap c)%Z &&
       (bc_parameterCap c <? Z.of_nat (ms_parameters (bc_current c) + length (pw_args w)))%Z) ||
      (readsResult w && ms_hasCommand (bc_current c))
  end.

Definition insert_opt (p : option Ptr) (ps : gset Ptr) : gset Ptr :=
  match p with Some p => {[p]} ∪ ps | None => ps end.

Definition add_write (w : preparedWrite) (key : option (GoType * KeyTuple)) (m : message) : message :=
  mkMessage (ms_writes m ++ [w]) (insert_opt (pw_instance w) (ms_instances m))
    (ms_keys m ++ match key with Some k => [k] | None => [] end)
    (if pw_generatesKey w then insert_opt (pw_instance w) (ms_generated m) else ms_generated m)
    (pw_command w || ms_hasCommand m) (ms_parameters m + length (pw_args w)).

Definition is_full (c : batchCall) : bool :=
  negb (bc_auto c) || (bc_limit c <=? Z.of_nat (length (ms_writes (bc_current c))))%Z.

Definition add (w : preparedWrite) (s : subject) : SM state unit :=
  do! (c, _) <- sget in
  (if must_flush c w then send else sret tt) ;!
  do! (_, e) <- sget in
  on_call (fun c => set_current
    (add_write w (pair (subject_type s) <$> keyNow (heap_of e) s) (bc_current c)) c) ;!
  do! (c, _) <- sget in
  if is_full c then send else sret tt.

Definition finish : SM state unit := send.

(** ** The loops *)

(** One operation of a call: what rule 1 asks about it - which may refuse, a
    type whose map does not load - and its preparation, which may issue no
    statement. *)
Record operation := mkOperation {
  op_subject : E -> result subject;
  op_prepare : SM E (option preparedWrite) }.

Definition feed (op : operation) : SM state (option preparedWrite) :=
  do! (_, e) <- sget in
  do! s <- slift (op_subject op e) in
  before s ;!
  do! w <- on_env (op_prepare op) in
  match w with
  | None => sret None
  | Some w => add w s ;! sret (Some w)
  end.

(** [Batch.run]: the writes in queue order, nil for none. *)
Fixpoint feed_all (ops : list operation) : SM state (list (option preparedWrite)) :=
  match ops with
  | [] => sret []
  | op :: ops' =>
      do! w <- feed op in
      do! ws <- feed_all ops' in
      sret (w :: ws)
  end.

Definition run (ops : list operation) : SM state (list (option preparedWrite)) :=
  do! writes <- feed_all ops in finish ;! sret writes.

(** [executeFlush]: inserts, updates, deletes; the summary counts statements.
    An insert or a delete always issues one. *)
Record FlushSummary := mkSummary { Inserted : nat; Updated : nat; Deleted : nat }.

Definition statements (ws : list (option preparedWrite)) : nat := length (omap id ws).

Definition executeFlush (inserts dirty deletes : list operation) : SM state FlushSummary :=
  do! i <- feed_all inserts in
  do! u <- feed_all dirty in
  do! d <- feed_all deletes in
  finish ;!
  sret (mkSummary (statements i) (statements u) (statements d)).
End Batching.
