(* ===== verification/Writes.v ===== *)
(** The generated writes (db_crud.go, db_hooks.go, db_write.go): each is
    prepared - the checks, the gates, the hooks, the bound statement - and
    completed - the result judged and applied to the instance and the session -
    and a call that issued several keeps a journal that undoes its effects.

    The environment of a write is the session, the clock's readings so far, the
    journal ([None] where the program passes nil) and the database [D], which
    only running a statement touches.  A closure that undoes is data here: the
    values it captured.  A tracked entry is captured by its registration number,
    since the closure shares the entry with the identity map. *)
From S2P Require Import Prelude GoStrings Values Core Params Dialect GeneratedSql.
From S2P Require Import Tracker Instances Session UnitOfWork KeyFlow Batching.
From S2P Require Converter.

(** The program's named types, as the converter describes them: what
    [reflect.Kind] is of a type of the program. *)
Class NamedTypes := named_type : string -> Converter.NamedType.

(** One closure of the journal ([undoJournal.undo]). *)
Inductive undo :=
  (** [recordWrite]'s: the captured values, the instance's entry with a copy of
      its snapshot, and the entry that holds its key *)
  | UndoWrite (ptr : Ptr) (values : list (PropertyMap * Value))
      (entry : option (nat * list Value)) (holder : option nat)
  (** [db.tracker.restore(entry)] *)
  | UndoForget (entry : nat).

Section Env.
Context {D : Type} `{Names : NamedTypes}.

Record env := mkEnv {
  en_session : Session;
  en_ticks : nat;
  en_journal : option (list undo);
  en_db : D }.

Definition env_heap (e : env) : heap := se_heap (en_session e).

Definition on_session {A} (m : SM Session A) : SM env A := fun e =>
  let '(s, r) := m (en_session e) in
  (mkEnv s (en_ticks e) (en_journal e) (en_db e), r).
Definition on_heap {A} (m : SM heap A) : SM env A :=
  on_session (fun s => let '(h, r) := m (se_heap s) in (mkSession h (se_tracker s), r)).
(** Running a statement talks to the database only. *)
Definition on_db {A} (m : SM D A) : SM env A := fun e =>
  let '(d, r) := m (en_db e) in (mkEnv (en_session e) (en_ticks e) (en_journal e) d, r).

Definition get_session : SM env Session := fun e => (e, Ok (en_session e)).
Definition put_session (s : Session) : SM env unit := on_session (fun _ => (s, Ok tt)).
(** A session operation that returns the new session, or refuses and leaves it. *)
Definition update_session (f : Session -> result Session) : SM env unit :=
  do! s <- get_session in do! s' <- slift (f s) in put_session s'.

(** Each clock reading, random GUID and prepared write takes the next number. *)
Definition next_tick : SM env nat := fun e =>
  (mkEnv (en_session e) (S (en_ticks e)) (en_journal e) (en_db e), Ok (en_ticks e)).

(** [journal.add] (a nil journal takes nothing). *)
Definition journal_add (u : undo) : SM env unit := fun e =>
  (mkEnv (en_session e) (en_ticks e) ((fun j => j ++ [u]) <$> en_journal e) (en_db e), Ok tt).

Notation write := (preparedWrite (E := env)).

Section Writes.
Context (load : GoType -> result EntityMap) (dialect : Dialect)
  (** the type converter: [ToDatabase] of a column's value, of a key part (whose
      column type is not passed), and [FromDatabase] *)
  (ToDatabase : Value -> ColumnType -> string -> result Value)
  (ToDatabase_key : Value -> string -> result Value)
  (FromDatabase : Value -> FieldType -> ColumnType -> string -> result Value)
  (** [Options.Clock]: the instant and the zone offset of each reading; the
      default clock's offset is zero *)
  (Clock : nat -> Z * Z) (NewGUID : nat -> Value).

(** ** The hooks (db_hooks.go) *)

Definition now : SM env Value :=
  do! n <- next_tick in
  let '(instant, offset) := Clock n in
  if negb (offset =? 0)%Z then sthrow (NewError "VAL-020" "Options.Clock")
  else sret (VTime instant 0).

Definition Set_prop (ptr : Ptr) (p : PropertyMap) (v : Value) : SM env unit :=
  on_heap (Set_at ptr p v).
Definition Get_prop (ptr : Ptr) (p : PropertyMap) : SM env Value :=
  do! s <- get_session in sret (Get_at (se_heap s) ptr p).

(** [func() { _ = property.Set(entity, prior) }]: a value that came from [Get]. *)
Definition prior_value := (Ptr * PropertyMap * Value)%type.
Definition put_back (v : prior_value) (e : env) : env :=
  let '(ptr, p, prior) := v in (Set_prop ptr p prior e).1.
Definition put_back_all (vs : list prior_value) (e : env) : env :=
  fold_left (fun e v => put_back v e) vs e.

Definition isUnsetInstant (v : Value) : bool :=
  match v with
  | VNil => true
  | VTime instant _ => match zero_value TyTime with VTime zero _ => (instant =? zero)%Z | _ => false end
  | _ => false
  end.

Definition fillCreatedAt (m : EntityMap) (ptr : Ptr) : SM env (list prior_value) :=
  match CreatedAtProperty m with
  | None => sret []
  | Some property =>
      do! prior <- Get_prop ptr property in
      if negb (isUnsetInstant prior) then sret []
      else
        do! instant <- now in
        Set_prop ptr property instant ;!
        sret [(ptr, property, prior)]
  end.

(** The set is [stamped_set]. *)
Definition stampSet (m : EntityMap) (ptr : Ptr) (set : list PropertyMap)
    : SM env (list PropertyMap * list prior_value) :=
  match UpdatedAtProperty m with
  | None => sret (set, [])
  | Some property =>
      do! instant <- now in
      do! prior <- Get_prop ptr property in
      Set_prop ptr property instant ;!
      sret (stamped_set m set, [(ptr, property, prior)])
  end.

(** ** Binding a statement *)

(** [boundText.label]: the cached label, for the map's own type. *)
Definition label (t : GoType) (m : EntityMap) (text : boundText) (i : nat) (p : PropertyMap) : string :=
  if decide (t = Type_ m) then default "" (bt_labels text !! i)
  else TypeShortName t +:+ "." +:+ PropertyName p.

(** [ToParameter] of a column: a null carries the column's type. *)
Definition bind_column (h : heap) (ptr : Ptr) (t : GoType) (m : EntityMap) (text : boundText)
    (ip : nat * PropertyMap) : result NamedArg :=
  let '(i, p) := ip in
  let* converted := ToDatabase (Get_at h ptr p) (ColumnType_ p) (label t m text i p) in
  Ok (mkNamedArg (ColumnName p) (bound_or_null (ColumnType_ p) converted)).
Definition bind_columns (h : heap) (ptr : Ptr) (t : GoType) (m : EntityMap) (text : boundText)
    : result (list NamedArg) :=
  mapR (bind_column h ptr t m text) (imap pair (bt_bound text)).

Definition countKind : StatementResult :=
  if ReportsAffectedRowsBySelect dialect then ResultReportedCount else ResultDriverCount.

Definition countedWrite (t : GoType) (m : EntityMap) (ptr : Ptr) (text : boundText)
    (finish : writeResult -> SM env unit) (undoPrepare : list prior_value) : SM env write :=
  do! s <- get_session in
  do! args <- slift (bind_columns (se_heap s) ptr t m text) in
  do! id <- next_tick in
  sret (mkWrite id (bt_sql text) args countKind (Some ptr) false false (Some finish)
          (put_back_all undoPrepare)).

(** A failure of [m] runs the restores, then propagates. *)
Definition or_restore {A} (vs : list prior_value) (m : SM env A) : SM env A := fun e =>
  match m e with
  | (e', Fail err) => (put_back_all vs e', Fail err)
  | done => done
  end.

(** ** Journaled effects (db_write.go) *)

Definition entry_id (e : trackedEntry) : nat := te_seq e.

(** [entry.key] held by the instance's key now. *)
Definition key_holder (s : Session) (m : EntityMap) (ptr : Ptr) : result (option trackedEntry) :=
  match se_tracker s with
  | None => Ok None
  | Some tr =>
      let '(key, ok) := keyOf m (deref (se_heap s) ptr) in
      if (ok : bool) then find tr (Type_ m) key else Ok None
  end.

Definition captured_properties (m : EntityMap) : list PropertyMap :=
  KeyProperties m ++ option_list (VersionProperty m) ++ option_list (CreatedAtProperty m) ++
  option_list (UpdatedAtProperty m) ++ option_list (SoftDeleteProperty m).

Definition recordWrite (m : EntityMap) (ptr : Ptr) : SM env unit := fun e =>
  match en_journal e with
  | None => (e, Ok tt)
  | Some _ =>
      let s := en_session e in
      (do! holder <- slift (key_holder s m ptr) in
       journal_add (UndoWrite ptr
         ((fun p => (p, Get_at (se_heap s) ptr p)) <$> captured_properties m)
         ((fun x => (te_seq x, te_snapshot x)) <$> Session.entryOf s ptr)
         (te_seq <$> holder))) e
  end.

Definition trackJournaled (m : EntityMap) (ptr : Ptr) : SM env unit := fun e =>
  let s := en_session e in
  if negb (tracking s m) then (e, Ok tt)
  else
    (do! holder <- slift (match en_journal e with Some _ => key_holder s m ptr | None => Ok None end) in
     match holder with
     | Some x => if decide (te_ptr x <> ptr) then journal_add (UndoForget (te_seq x)) else sret tt
     | None => sret tt
     end ;!
     update_session (fun s => track ToDatabase s m ptr)) e.

Definition forgetKeyJournaled (m : EntityMap) (key : KeyTuple) : SM env unit :=
  do! s <- get_session in
  match se_tracker s with
  | None => sret tt
  | Some tr =>
      do! found <- slift (find tr (Type_ m) key) in
      match found with
      | None => sret tt
      | Some x =>
          journal_add (UndoForget (te_seq x)) ;!
          update_session (fun s => let* tr' := forget tr x in Ok (with_tracker s tr'))
      end
  end.

Definition forgetEntryJournaled (entry : option trackedEntry) : SM env unit :=
  match entry with
  | None => sret tt
  | Some x =>
      journal_add (UndoForget (te_seq x)) ;!
      do! s <- get_session in
      match se_tracker s with
      | Some tr => update_session (fun s => let* tr' := forget tr x in Ok (with_tracker s tr'))
      | None => slift (Panic "nil tracker")
      end
  end.

(** ** CRUD-004: navigations agree with their foreign keys *)

(** [written]: the names an update by column list writes; [None] checks all. *)
Definition check_part (h : heap) (m : EntityMap) (ptr target : Ptr) (r : RelationshipMap)
    (written : option (list string)) (part : PropertyMap * string) : result unit :=
  let '(targetKey, name) := part in
  if match written with Some names => negb (bool_decide (name ∈ names)) | None => false end then Ok tt
  else match Property m name with
       | None => Panic "nil property"
       | Some fkProperty =>
           if DeepEqual (Get_at h target targetKey) (Get_at h ptr fkProperty) then Ok tt
           else Fail (NewError "CRUD-004" (EntityName m +:+ "." +:+ rel_PropertyName r))
       end.

(** Only a pointer navigation that is not nil is checked. *)
Definition navigation_pointer (i : Instance) (r : RelationshipMap) : option Ptr :=
  match in_navs i !! rel_PropertyName r with Some (NavSingle (Some p)) => Some p | _ => None end.

Definition check_relationship (h : heap) (m : EntityMap) (ptr : Ptr) (written : option (list string))
    (_ : unit) (r : RelationshipMap) : result unit :=
  if negb (bool_decide (rel_Kind r = RelationshipManyToOne)) then Ok tt
  else match navigation_pointer (deref h ptr) r with
       | None => Ok tt
       | Some target =>
           let* targetMap := load (rel_TargetType r) in
           if negb (length (KeyProperties targetMap) =? length (rel_ForeignKeyProperties r))%nat then Ok tt
           else foldR (fun _ part => check_part h m ptr target r written part) tt
                  (combine (KeyProperties targetMap) (rel_ForeignKeyProperties r))
       end.

Definition checkNavigationConsistency (h : heap) (m : EntityMap) (ptr : Ptr)
    (written : option (list string)) : result unit :=
  foldR (check_relationship h m ptr written) tt (Relationships m).

(** ** Insert *)

(** An empty client GUID is assigned before the gates. *)
Definition assignGuid (m : EntityMap) (ptr : Ptr) : SM env unit :=
  if bool_decide (KeyStrategy_ m = KeyClientGuid) then
    match KeyProperties m with
    | [] => slift (Panic "index out of range")
    | keyProperty :: _ =>
        do! v <- Get_prop ptr keyProperty in
        if bool_decide (v = zero_value TyGuid) then
          do! n <- next_tick in Set_prop ptr keyProperty (NewGUID n)
        else sret tt
    end
  else sret tt.

Definition generated_key (m : EntityMap) : bool := bool_decide (KeyStrategy_ m = KeyDatabaseGenerated).

Definition finishInsert (t : GoType) (m : EntityMap) (text : boundText) (ptr : Ptr)
    (result_ : writeResult) : SM env unit :=
  (if generated_key m then
     match KeyProperties m with
     | [] => slift (Panic "index out of range")
     | keyProperty :: _ =>
         let label := if decide (t = Type_ m) then bt_keyLabel text
                      else TypeShortName t +:+ "." +:+ PropertyName keyProperty in
         do! value <- slift (FromDatabase (wr_key result_) (PropertyType keyProperty)
                               (ColumnType_ keyProperty) label) in
         Set_prop ptr keyProperty value
     end
   else sret tt) ;!
  trackJournaled m ptr.

Definition insertStatement (t : GoType) (m : EntityMap) (ptr : Ptr) (undoPrepare : list prior_value)
    : SM env write :=
  do! text <- slift (insertText dialect m) in
  do! s <- get_session in
  do! args <- slift (bind_columns (se_heap s) ptr t m text) in
  do! id <- next_tick in
  sret (mkWrite id (bt_sql text) args (if generated_key m then ResultKey else ResultNone) (Some ptr)
          (generated_key m) false (Some (finishInsert t m text ptr)) (put_back_all undoPrepare)).

Definition requireTable (t : GoType) : result EntityMap :=
  let* m := load t in
  if bool_decide (Kind m <> RelationTable) then Fail (NewError "CRUD-003" (TypeShortName t)) else Ok m.

(** [db.writeIdentity], for its refusal. *)
Definition gate (m : EntityMap) (ptr : Ptr) : SM env (option trackedEntry) :=
  do! s <- get_session in slift (writeIdentity s m ptr).

Definition check_navigations (m : EntityMap) (ptr : Ptr) (written : option (list string)) : SM env unit :=
  do! s <- get_session in slift (checkNavigationConsistency (se_heap s) m ptr written).

Definition prepareInsert (t : GoType) (ptr : Ptr) : SM env write :=
  do! m <- slift (requireTable t) in
  check_navigations m ptr None ;!
  assignGuid m ptr ;!
  (if generated_key m then sret tt else do! _ <- gate m ptr in sret tt) ;!
  do! filled <- fillCreatedAt m ptr in
  or_restore filled (insertStatement t m ptr filled).

(** ** Update *)

(** [reflect.Value.Int] and [Uint]: the integer of a value of an integer kind, of
    a named type too. *)
Definition integer_of (v : Value) : option Z :=
  match v with
  | VInt _ z => Some z
  | VOther type text =>
      match Converter.nt_kind (named_type type) with
      | Converter.NamedInt _ => Some (Converter.int_text text)
      | _ => None
      end
  | _ => None
  end.
(** The kind of an integer type, named or not. *)
Definition integer_kind (ty : VType) : option IntKind := Converter.int_kind named_type ty.

(** The errors of these two carry no code. *)
Definition toInt64 (v : Value) : result Z :=
  match integer_of v with
  | Some z => Ok (wrap KInt64 z)
  | None => Fail (NewError "" "version property is not an integer type")
  end.
Definition fromInt64 (z : Z) (ty : VType) : result Value :=
  match integer_kind ty with
  | Some k => Ok (Converter.int_value ty k (wrap k z))
  | None => Fail (NewError "" "version property is not an integer type")
  end.

(** Zero rows refuse; otherwise the version in memory moves to what the
    statement stored.  [int64] addition wraps. *)
Definition updateJudge (t : GoType) (m : EntityMap) (ptr : Ptr) (affected : Z) : SM env unit :=
  match VersionProperty m with
  | None => if (affected =? 0)%Z then sthrow (NewError "CRUD-001" (TypeShortName t)) else sret tt
  | Some version =>
      if (affected =? 0)%Z then sthrow (NewError "CRUD-010" (TypeShortName t))
      else
        do! v <- Get_prop ptr version in
        do! current <- slift (toInt64 v) in
        do! bumped <- slift (fromInt64 (wrap KInt64 (current + 1)) (ft_elem (PropertyType version))) in
        Set_prop ptr version bumped
  end.

(** [tracker.resnapshot] on the shared entry. *)
Definition resnapshot_entry (id : nat) (properties : list PropertyMap) : SM env unit := fun e =>
  let s := en_session e in
  match se_tracker s with
  | None => (e, Panic "nil tracker")
  | Some tr =>
      match objects tr !! id with
      | None => (e, Panic "nil entry")
      | Some x =>
          let '(snapshot, r) :=
            resnapshot ToDatabase (te_m x) (deref (se_heap s) (te_ptr x)) properties (te_snapshot x) in
          let x' := mkEntry (te_ptr x) (te_m x) (te_key x) snapshot (te_seq x) in
          ((put_session (with_tracker s
             (mkTracker (types tr) (byPtr tr) (<[id := x']> (objects tr)) (nextSeq tr))) e).1, r)
      end
  end.

Definition updateOnly_text (m : EntityMap) (set : list PropertyMap) : boundText :=
  updateOnlyText dialect m set.

Definition prepareTrackedUpdate (m : EntityMap) (entry : trackedEntry) (ptr : Ptr)
    : SM env (option write) :=
  do! s <- get_session in
  do! changed <- slift (entry_changed ToDatabase s entry) in
  match List.filter isWritableChange changed with
  | [] => sret None
  | set0 =>
      do! (set, stamp) <- stampSet m ptr set0 in
      do! w <- or_restore stamp (countedWrite (Type_ m) m ptr (updateOnly_text m set)
        (fun result_ => updateJudge (Type_ m) m ptr (wr_affected result_) ;!
           resnapshot_entry (te_seq entry) (set ++ versionOf m)) stamp) in
      sret (Some w)
  end.

Definition require_writable (t : GoType) : SM env EntityMap := slift (requireWritableKeyedType load t).

Definition prepareUpdate (t : GoType) (ptr : Ptr) : SM env (option write) :=
  do! m <- require_writable t in
  check_navigations m ptr None ;!
  do! entry <- gate m ptr in
  match entry with
  | Some x => prepareTrackedUpdate m x ptr
  | None =>
      do! (_, stamp) <- stampSet m ptr [] in
      do! w <- or_restore stamp (countedWrite t m ptr (updateText dialect m)
        (fun result_ => updateJudge t m ptr (wr_affected result_) ;! trackJournaled m ptr) stamp) in
      sret (Some w)
  end.

Definition prepareUpdateOnly (t : GoType) (ptr : Ptr) (properties : list string) : SM env write :=
  do! m <- require_writable t in
  do! set0 <- slift (resolveUpdateList m properties) in
  check_navigations m ptr (Some (PropertyName <$> set0)) ;!
  do! entry <- gate m ptr in
  do! (set, stamp) <- stampSet m ptr set0 in
  or_restore stamp (countedWrite t m ptr (updateOnly_text m set)
    (fun result_ => updateJudge t m ptr (wr_affected result_) ;!
       match entry with
       | Some x => resnapshot_entry (te_seq x) (set ++ versionOf m)
       | None => sret tt
       end) stamp).

(** ** Delete *)

(** The flag is put back before the stamp. *)
Definition prepareSoftDeleteEntity (t : GoType) (m : EntityMap) (flag : PropertyMap) (ptr : Ptr)
    (finish : SM env unit) : SM env write :=
  do! prior <- Get_prop ptr flag in
  Set_prop ptr flag (VBool true) ;!
  do! (set, stamp) <- or_restore [(ptr, flag, prior)] (stampSet m ptr [flag]) in
  or_restore ((ptr, flag, prior) :: stamp)
    (countedWrite t m ptr (updateOnly_text m set)
       (fun result_ => updateJudge t m ptr (wr_affected result_) ;! finish)
       ((ptr, flag, prior) :: stamp)).

Definition prepareDeleteEntity (t : GoType) (ptr : Ptr) : SM env write :=
  do! m <- require_writable t in
  do! entry <- gate m ptr in
  match SoftDeleteProperty m with
  | Some flag => prepareSoftDeleteEntity t m flag ptr (forgetEntryJournaled entry)
  | None =>
      let checkVersion := bool_decide (is_Some (VersionProperty m)) in
      do! text <- slift (deleteEntityText dialect m checkVersion) in
      countedWrite t m ptr text
        (fun result_ =>
           if (wr_affected result_ =? 0)%Z then
             sthrow (NewError (if checkVersion then "CRUD-010" else "CRUD-001") (TypeShortName t))
           else forgetEntryJournaled entry) []
  end.

(** *** By key *)

(** An exact type match, or an integer of another type whose kind holds the
    value and which a signed 64-bit integer holds. *)
Definition coerceKeyPart (target : string) (keyProperty : PropertyMap) (value : Value) : result Value :=
  let keyPartError := Fail (NewError "CRUD-002" target) in
  let expected := ft_elem (PropertyType keyProperty) in
  if is_nil value then keyPartError
  else if has_type value expected then Ok value
  else match integer_of value, integer_kind expected with
       | Some z, Some k =>
           if bool_decide (2 ^ 63 - 1 < z)%Z then keyPartError
           else if in_bounds k z then Ok (Converter.int_value expected k z) else keyPartError
       | _, _ => keyPartError
       end.

(** The key's parts: a value is the list of one. *)
Definition validateKey (m : EntityMap) (provided : list Value) : result (list Value) :=
  match KeyProperties m with
  | [] => Fail (NewError "CRUD-002" (EntityName m))
  | keys =>
      if negb (length provided =? length keys)%nat then Fail (NewError "CRUD-002" (EntityName m))
      else mapR (fun kv : PropertyMap * Value => coerceKeyPart (EntityName m) kv.1 kv.2)
             (combine keys provided)
  end.

Definition keyLabel (labels : list string) (t : GoType) (m : EntityMap) (i : nat) : string :=
  if decide (t = Type_ m) then default "" (labels !! i)
  else TypeShortName t +:+ " key[" +:+ Itoa (Z.of_nat i) +:+ "]".

(** A key part's column type is not passed: a null would carry none. *)
Definition bind_key_part (labels : list string) (t : GoType) (m : EntityMap)
    (part : nat * (PropertyMap * Value)) : result NamedArg :=
  let '(i, (key, value)) := part in
  let* converted := ToDatabase_key value (keyLabel labels t m i) in
  Ok (mkNamedArg (ColumnName key)
        (if is_nil converted then BoundNull UntypedNil else BoundValue converted)).
Definition bind_key (labels : list string) (t : GoType) (m : EntityMap) (values : list Value)
    : result (list NamedArg) :=
  mapR (bind_key_part labels t m) (imap pair (combine (KeyProperties m) values)).

(** [reflect.New(entityType)] *)
Definition new_object (t : GoType) : SM env Ptr :=
  on_heap (fun h => let q := fresh (dom h) in (<[q := mkInstance t ∅ ∅ ∅]> h, Ok q)).

(** A scratch instance carries the key, the flag and the stamp; the write is on
    no instance of the caller's. *)
Definition prepareSoftDeleteByKey (t : GoType) (m : EntityMap) (flag : PropertyMap) (values : list Value)
    (finish : SM env unit) : SM env write :=
  do! scratch <- new_object t in
  forS (fun kv : PropertyMap * Value => Set_prop scratch kv.1 kv.2) (combine (KeyProperties m) values) ;!
  Set_prop scratch flag (VBool true) ;!
  do! (set, _) <- stampSet m scratch [flag] in
  do! w <- countedWrite t m scratch (updateOnly_text m set)
    (fun result_ => updateJudge t m scratch (wr_affected result_) ;! finish) [] in
  sret (mkWrite (pw_id w) (pw_sql w) (pw_args w) (pw_kind w) None (pw_generatesKey w) (pw_command w)
          (pw_finish w) (pw_undoPrepare w)).

Definition prepareDeleteByKey (t : GoType) (key : list Value) : SM env write :=
  do! m <- require_writable t in
  match SoftDeleteProperty m, VersionProperty m with
  | Some _, Some _ => sthrow (NewError "CRUD-012" (TypeShortName t))
  | _, _ =>
      do! values <- slift (validateKey m key) in
      match SoftDeleteProperty m with
      | Some flag => prepareSoftDeleteByKey t m flag values (forgetKeyJournaled m values)
      | None =>
          let '(sql, labels) := deleteByKeyText dialect m in
          do! args <- slift (bind_key labels t m values) in
          do! id <- next_tick in
          sret (mkWrite id sql args countKind None false false
            (Some (fun result_ =>
               if (wr_affected result_ =? 0)%Z then sthrow (NewError "CRUD-001" (TypeShortName t))
               else forgetKeyJournaled m values)) (fun e => e))
      end
  end.

(** ** Running one statement (db_write.go) *)

(** The driver: the outcome of an exec with its [RowsAffected], and the first
    column of a query's first row, if there is a row. *)
Context (driver_exec : string -> list NamedArg -> SM D (result Z))
  (driver_scalar : string -> list NamedArg -> SM D (option Value)).

(** [strconv.ParseInt(text, 10, 64)] on digits with an optional sign. *)
Definition ParseInt (text : string) : option Z :=
  let digits (l : list ascii) (sign : Z) :=
    if all_digits l then
      let z := (sign * digits_value l)%Z in if in_bounds KInt64 z then Some z else None
    else None in
  match bytes text with
  | c :: l =>
      if Ascii.eqb c "-"%char then digits l (-1)%Z
      else if Ascii.eqb c "+"%char then digits l 1%Z
      else digits (c :: l) 1%Z
  | [] => None
  end.

(** The errors here carry no code. *)
Definition parseCount (text : string) : result Z :=
  match ParseInt text with
  | Some z => Ok z
  | None => Fail (NewError "" "affected-row count is not an integer")
  end.
Definition scalarCount (v : Value) : result Z :=
  match v with
  | VBytes text | VString text => parseCount text
  | VNil => Fail (NewError "" "affected-row count is NULL")
  | _ => match toInt64 v with
         | Ok z => Ok z
         | Fail _ => Fail (NewError "" "affected-row count is not an integer")
         end
  end.

Definition no_row (m : string) : Error := NewError "" m.

(** The error of a key statement without a row is [insertNoRow]'s text. *)
Definition runWrite (w : write) : SM env writeResult :=
  match pw_kind w with
  | ResultNone => on_db (do! _ <- driver_exec (pw_sql w) (pw_args w) in sret (mkWriteResult VNil 0))
  | ResultKey =>
      do! v <- on_db (driver_scalar (pw_sql w) (pw_args w)) in
      match v with
      | Some key => sret (mkWriteResult key 0)
      | None => sthrow (no_row "RETURNING produced no row")
      end
  | ResultReportedCount =>
      do! v <- on_db (driver_scalar (pw_sql w) (pw_args w)) in
      match v with
      | Some v => do! count <- slift (scalarCount v) in sret (mkWriteResult VNil count)
      | None => sthrow (no_row "sql: no rows in result set")
      end
  | ResultDriverCount =>
      do! rows <- on_db (driver_exec (pw_sql w) (pw_args w)) in
      do! affected <- slift rows in sret (mkWriteResult VNil affected)
  end.

(** An immediate call has no journal; a failure runs the prepare's restore. *)
Definition runImmediate (w : option write) : SM env unit :=
  match w with
  | None => sret tt
  | Some w => fun e =>
      match (do! result_ <- runWrite w in
             match pw_finish w with Some finish => finish result_ | None => sret tt end) e with
      | (e', Fail err) => (pw_undoPrepare w e', Fail err)
      | done => done
      end
  end.

Definition Insert (t : GoType) (ptr : Ptr) : SM env unit :=
  do! w <- prepareInsert t ptr in runImmediate (Some w).
Definition Update (t : GoType) (ptr : Ptr) : SM env unit :=
  do! w <- prepareUpdate t ptr in runImmediate w.
Definition UpdateOnly (t : GoType) (ptr : Ptr) (properties : list string) : SM env unit :=
  do! w <- prepareUpdateOnly t ptr properties in runImmediate (Some w).
Definition DeleteEntity (t : GoType) (ptr : Ptr) : SM env unit :=
  do! w <- prepareDeleteEntity t ptr in runImmediate (Some w).
Definition Delete (t : GoType) (key : list Value) : SM env unit :=
  do! w <- prepareDeleteByKey t key in runImmediate (Some w).

(** ** Rolling the journal back *)

(** [copy(entry.snapshot, snapshot)] on the shared entry. *)
Definition copy_snapshot (id : nat) (snapshot : list Value) (tr : tracker) : tracker :=
  match objects tr !! id with
  | None => tr
  | Some x =>
      let old := te_snapshot x in
      let copied := take (length old) snapshot ++ drop (length snapshot) old in
      mkTracker (types tr) (byPtr tr)
        (<[id := mkEntry (te_ptr x) (te_m x) (te_key x) copied (te_seq x)]> (objects tr)) (nextSeq tr)
  end.

(** [db.tracker.restore(entry)] of a captured entry. *)
Definition restore_id (tr : tracker) (id : nat) : result tracker :=
  let* x := object tr id in restore tr x.

Definition forget_other (tr : tracker) (ptr : Ptr) (entry : option nat) : result tracker :=
  match Tracker.entryOf tr ptr with
  | Some current => if decide (Some (te_seq current) <> entry) then forget tr current else Ok tr
  | None => Ok tr
  end.

Definition undo_tracker (ptr : Ptr) (entry : option (nat * list Value)) (holder : option nat)
    (tr : tracker) : result tracker :=
  let* tr := forget_other tr ptr (fst <$> entry) in
  let* tr :=
    match entry with
    | Some (id, snapshot) => restore_id (copy_snapshot id snapshot tr) id
    | None => Ok tr
    end in
  match holder with
  | Some h => if decide (holder <> (fst <$> entry)) then restore_id tr h else Ok tr
  | None => Ok tr
  end.

Definition with_tracker_opt (f : tracker -> result tracker) (s : Session) : result Session :=
  match se_tracker s with
  | None => Ok s
  | Some tr => let* tr' := f tr in Ok (with_tracker s tr')
  end.

Definition undo_one (u : undo) : SM env unit :=
  match u with
  | UndoWrite ptr values entry holder =>
      (fun e => (put_back_all ((fun v => (ptr, v.1, v.2)) <$> values) e, Ok tt)) ;!
      update_session (with_tracker_opt (undo_tracker ptr entry holder))
  | UndoForget id => update_session (with_tracker_opt (fun tr => restore_id tr id))
  end.

(** Last in, first out. *)
Definition rollback : SM env unit := fun e =>
  match en_journal e with
  | None => (e, Ok tt)
  | Some j =>
      (forS undo_one (rev j) ;!
       (fun e => (mkEnv (en_session e) (en_ticks e) (Some []) (en_db e), Ok tt))) e
  end.

(** ** The operations of a flush (flush.go, [executeFlush]) *)

Definition insert_operation (x : scheduledInsert) : operation (E := env) :=
  mkOperation
    (fun e => Ok (mkSubject (Some (si_m x)) (Some (si_ptr x))
       (m2oTargets (si_m x) (deref (se_heap (en_session e)) (si_ptr x)) ++ cascadeOwners x) None))
    (on_heap (flowKeys load x) ;!
     recordWrite (si_m x) (si_ptr x) ;!
     do! w <- prepareInsert (Type_ (si_m x)) (si_ptr x) in sret (Some w)).

Definition update_operation (x : trackedEntry) : operation (E := env) :=
  mkOperation
    (fun e => Ok (mkSubject (Some (te_m x)) (Some (te_ptr x))
       (m2oTargets (te_m x) (deref (se_heap (en_session e)) (te_ptr x))) None))
    (recordWrite (te_m x) (te_ptr x) ;! prepareUpdate (te_type x) (te_ptr x)).

Definition delete_operation (x : scheduledRemove) : operation (E := env) :=
  mkOperation
    (fun e => Ok (mkSubject (Some (sr_m x)) (Some (sr_ptr x))
       (m2oTargets (sr_m x) (deref (se_heap (en_session e)) (sr_ptr x))) None))
    (recordWrite (sr_m x) (sr_ptr x) ;!
     do! w <- prepareDeleteEntity (Type_ (sr_m x)) (sr_ptr x) in sret (Some w)).

End Writes.
End Env.
