(* ===== verification/FlushRun.v ===== *)
(** A whole flush (flush.go, [planFlush] and [Flush]): the plan, the
    transaction, the operations of [Writes] sent through the call of [Batching],
    and on failure the journal's rollback.

    Statements, transactions and cancellation are the driver's: steps on the
    database [D]. *)
From S2P Require Import Prelude GoStrings Values Core Params Dialect GeneratedSql Tracker Instances Session.
From S2P Require Import UnitOfWork KeyFlow TypeRanks Flush Batching Writes.

Record flushPlan := mkPlan {
  fp_inserts : list scheduledInsert;
  fp_dirty : list trackedEntry;
  fp_deletes : list scheduledRemove }.

Definition plan_empty (p : flushPlan) : bool :=
  (length (fp_inserts p) + length (fp_dirty p) + length (fp_deletes p) =? 0)%nat.

Section Plan.
Context (load : GoType -> result EntityMap)
  (ToDatabase : Value -> ColumnType -> string -> result Value)
  (** above the number of entity types *)
  (types : nat).

Definition plan_seeds (inserts : list scheduledInsert) (removes : list scheduledRemove)
    (dirty : list trackedEntry) : list GoType :=
  ((fun x => Type_ (si_m x)) <$> inserts) ++ ((fun x => Type_ (sr_m x)) <$> removes) ++
  ((fun x => Type_ (te_m x)) <$> dirty).

Definition planFlush (s : Session) (u : unitOfWork) : result flushPlan :=
  match se_tracker s with
  | None => Panic "nil tracker"
  | Some tr =>
      let '(inserts, removes) := pendingWork s u in
      let* dirty := dirtyEntries s ToDatabase tr u in
      let* ranks := rankTypes load types (plan_seeds inserts removes dirty) in
      let* orderedInserts := orderInserts s ranks inserts in
      let* orderedDeletes := orderDeletes s ranks removes in
      Ok (mkPlan orderedInserts (sort_dirty ranks dirty) orderedDeletes)
  end.
End Plan.

Section Flush.
Context {D : Type} `{Names : NamedTypes}.
Notation env := (env (D := D)).
Notation write := (preparedWrite (E := env)).
Context (load : GoType -> result EntityMap) (dialect : Dialect)
  (ToDatabase : Value -> ColumnType -> string -> result Value)
  (FromDatabase : Value -> FieldType -> ColumnType -> string -> result Value)
  (Clock : nat -> Z * Z) (NewGUID : nat -> Value) (types : nat).
(** The driver: a cancelled context, a transaction, one statement, one message. *)
Context (ctx_Err : D -> option Error) (BeginTx CommitTx RollbackTx : SM D unit)
  (driver_exec : string -> list NamedArg -> SM D (result Z))
  (driver_scalar : string -> list NamedArg -> SM D (option Value))
  (driver_message : option (list write -> SM D (list writeResult))).
(** [Options.Batching] and its limit. *)
Context (auto : bool) (maxStatements : Z).

Definition SendMessage : option (list write -> SM env (list writeResult)) :=
  (fun send ws => on_db (send ws)) <$> driver_message.

Definition flush_call : batchCall (E := env) := newCall auto maxStatements (MaxParametersPerMessage dialect).

Definition flush_inserts (p : flushPlan) : list (operation (E := env)) :=
  insert_operation load dialect ToDatabase FromDatabase Clock NewGUID <$> fp_inserts p.
Definition flush_updates (p : flushPlan) : list (operation (E := env)) :=
  update_operation load dialect ToDatabase Clock <$> fp_dirty p.
Definition flush_deletes (p : flushPlan) : list (operation (E := env)) :=
  delete_operation load dialect ToDatabase Clock <$> fp_deletes p.

Definition run_plan (p : flushPlan) (e : env) : env * result FlushSummary :=
  let '((_, e'), r) :=
    executeFlush env_heap (fun e => ctx_Err (en_db e)) SendMessage (runWrite driver_exec driver_scalar)
      (flush_inserts p) (flush_updates p) (flush_deletes p) (flush_call, e) in
  (e', r).

Definition set_journal (j : option (list undo)) (e : env) : env :=
  mkEnv (en_session e) (en_ticks e) j (en_db e).

(** From the first statement to the end: [in_tx] when the session's own
    transaction is active. *)
Definition flush_statements (in_tx : bool) (p : flushPlan) (e : env) : env * result FlushSummary :=
  match (do! summary <- run_plan p in
         (if in_tx then sret tt else on_db CommitTx) ;! sret summary) (set_journal (Some []) e) with
  | (e', Ok summary) => (set_journal None e', Ok summary)
  | (e', Fail err) =>
      let e1 := (rollback e').1 in
      let e2 := if in_tx then e1 else (on_db RollbackTx e1).1 in
      (set_journal None e2, Fail err)
  end.

Definition Flush (in_tx : bool) : SM (unitOfWork * env) FlushSummary := fun '(u, e) =>
  let s := en_session e in
  match
    (let* _ := requireUnitOfWork s in
     match ctx_Err (en_db e) with Some err => Fail err | None => planFlush load ToDatabase types s u end)
  with
  | Fail err => ((u, e), Fail err)
  | Ok p =>
      if plan_empty p then ((clear u, e), Ok (mkSummary 0 0 0))
      else
        match (if in_tx then sret tt else on_db BeginTx) e with
        | (e1, Fail err) => ((u, e1), Fail err)
        | (e1, Ok _) =>
            match flush_statements in_tx p e1 with
            | (e2, Ok summary) => ((clear u, e2), Ok summary)
            | (e2, Fail err) => ((u, e2), Fail err)
            end
        end
  end.
End Flush.
