(* ===== verification/Journal.v ===== *)
(** The undo journal and the identity map (db_write.go): what each closure of
    the journal needs of the identity map it runs on, and why running them all,
    last in first out, brings back the entries the map had.

    Two maps are compared up to a set of entries whose snapshots may differ and
    a set of instances whose tracking may differ; a closure of the journal
    takes elements out of both sets. *)
From S2P Require Import Prelude GoStrings Values Core Tracker Instances Session Writes.

Section Journal.
Context (key_types : GoType -> list KeyType).
Notation tracker_ok := (tracker_ok key_types).
Notation well_keyed := (well_keyed key_types).
Notation restorable := (restorable key_types).

(** ** The map by instance *)

Lemma byPtr_live tr p id :
  tracker_ok tr -> byPtr tr !! p = Some id <-> exists x, live tr x /\ te_ptr x = p /\ te_seq x = id.
Proof.
  intros Hok. split.
  - intros Hp. destruct (tk_ptr _ tr Hok p id Hp) as (x & Hx & Hpx & _). exists x.
    destruct (tk_seq _ tr Hok id x Hx) as [Hs _]. subst. by repeat split.
  - by intros (x & [_ Hx] & <- & <-).
Qed.

Definition clash (x e : trackedEntry) : Prop :=
  te_type x = te_type e /\ key_cmp (te_key x) (te_key e) = 0%Z.
#[local] Instance clash_dec x e : Decision (clash x e).
Proof. unfold clash. apply _. Defined.

(** The tracked entry of [p] after [e] came back. *)
Definition after_restore (tr : tracker) (e : trackedEntry) (p : Ptr) : option nat :=
  if decide (p = te_ptr e) then Some (te_seq e)
  else match Tracker.entryOf tr p with
       | Some x => if decide (clash x e) then None else Some (te_seq x)
       | None => None
       end.

Lemma forget_objects tr e tr' :
  forget tr e = Ok tr' -> objects tr' = objects tr /\ nextSeq tr' = nextSeq tr.
Proof.
  unfold forget. intros H. apply bind_Ok in H as ([i found] & _ & H).
  destruct (found && _); apply Ok_inj in H as <-; done.
Qed.

Lemma insertEntry_objects tr e tr' :
  insertEntry tr e = Ok tr' -> objects tr' = <[te_seq e := e]> (objects tr) /\ nextSeq tr' = nextSeq tr.
Proof.
  unfold insertEntry. intros H. apply bind_Ok in H as ([i found] & _ & H).
  by apply Ok_inj in H as <-.
Qed.

Lemma restore_objects tr e tr' :
  objects tr !! te_seq e = Some e -> restore tr e = Ok tr' ->
  objects tr' = objects tr /\ nextSeq tr' = nextSeq tr.
Proof.
  intros Ho H. unfold restore in H. apply bind_Ok in H as (holder & _ & H).
  apply bind_Ok in H as (tr1 & H1 & H).
  assert (objects tr1 = objects tr /\ nextSeq tr1 = nextSeq tr) as [E1 E2].
  { destruct holder as [h|]; [|by apply Ok_inj in H1 as <-].
    clear H. case_decide; [exact (forget_objects _ _ _ H1)|by apply Ok_inj in H1 as <-]. }
  case_decide; [by apply Ok_inj in H as <-|].
  apply insertEntry_objects in H as [-> ->]. rewrite E1. split; [by rewrite insert_id|done].
Qed.

Lemma restore_byPtr tr e :
  tracker_ok tr -> restorable tr e ->
  exists tr', restore tr e = Ok tr' /\ tracker_ok tr' /\ objects tr' = objects tr /\
    nextSeq tr' = nextSeq tr /\ forall p, byPtr tr' !! p = after_restore tr e p.
Proof.
  intros Hok He. destruct (restore_spec key_types tr e Hok He) as (tr' & Hr & Hok' & Hl).
  destruct (restore_objects tr e tr' (re_object _ _ _ He) Hr) as [Ho Hn].
  exists tr'. do 4 (split; [done|]). intros p. apply option_eq. intros id.
  rewrite (byPtr_live tr' p id Hok'). unfold after_restore. split.
  - intros (x & Hx & <- & <-). apply Hl in Hx as [->|[Hx Hno]]; [by rewrite decide_True|].
    case_decide as Hp.
    + destruct (re_ptr _ _ _ He) as [Hnone|Hsome].
      * destruct Hx as [_ Hx]. rewrite Hp, Hnone in Hx. done.
      * destruct Hx as [_ Hx]. rewrite Hp, Hsome in Hx. done.
    + assert (Tracker.entryOf tr (te_ptr x) = Some x) as -> by (by apply (entryOf_live key_types)).
      by rewrite decide_False.
  - case_decide as Hp.
    + intros [= <-]. exists e. split; [apply Hl; by left|done].
    + destruct (Tracker.entryOf tr p) as [x|] eqn:Ex; [|done]. case_decide; [done|]. intros [= <-].
      apply (entryOf_live key_types) in Ex as [Hx <-]; [|done].
      exists x. split; [apply Hl; by right|done].
Qed.

Lemma forget_byPtr tr e :
  tracker_ok tr -> live tr e ->
  exists tr', forget tr e = Ok tr' /\ tracker_ok tr' /\ objects tr' = objects tr /\
    nextSeq tr' = nextSeq tr /\ byPtr tr' = delete (te_ptr e) (byPtr tr).
Proof.
  intros Hok He. destruct (forget_spec key_types tr e Hok He) as (tr' & Hf & Hok' & [H1 H2 H3]).
  by exists tr'.
Qed.

(** A snapshot is not part of an entry's identity. *)
Definition set_snapshot (x : trackedEntry) (snapshot : list Value) : trackedEntry :=
  mkEntry (te_ptr x) (te_m x) (te_key x) snapshot (te_seq x).

Definition with_snapshot (tr : tracker) (id : nat) (x : trackedEntry) (snapshot : list Value) : tracker :=
  mkTracker (types tr) (byPtr tr) (<[id := set_snapshot x snapshot]> (objects tr)) (nextSeq tr).

Lemma with_snapshot_ok tr id x snapshot :
  tracker_ok tr -> objects tr !! id = Some x -> tracker_ok (with_snapshot tr id x snapshot).
Proof.
  intros [H1 H2 H3] Hx. destruct (H3 id x Hx) as [Hid Hle].
  set (upd := fun e : trackedEntry => if decide (te_seq e = id) then set_snapshot x snapshot else e).
  assert (Hupd : forall e, objects tr !! te_seq e = Some e ->
            te_seq (upd e) = te_seq e /\ te_type (upd e) = te_type e /\ te_ptr (upd e) = te_ptr e /\
            te_key (upd e) = te_key e).
  { intros e He. unfold upd. case_decide as E; [|done]. rewrite E, Hx in He. injection He as ->. done. }
  split.
  - intros t. destruct (H1 t) as [es [Ha Hb Hc]]. exists (upd <$> es). rewrite Forall_forall in Hb.
    split.
    + change (entries_of (with_snapshot tr id x snapshot) t) with (entries_of tr t). rewrite Ha.
      rewrite <- list_fmap_compose. apply list_fmap_ext. intros i e He. simpl.
      symmetry. apply Hupd. apply Hb. by eapply list_elem_of_lookup_2.
    + apply Forall_fmap, Forall_forall. intros e He. destruct (Hb e He) as ([Ho Hp] & Ht & Hk).
      destruct (Hupd e Ho) as (Es & Et & Ep & Ek). cbn. split; [split|].
      * rewrite Es. cbn. unfold upd. case_decide as E; [by rewrite E, lookup_insert_eq|].
        by rewrite lookup_insert_ne by congruence.
      * by rewrite Es, Ep.
      * split; [congruence|]. unfold Tracker.well_keyed. by rewrite Et, Ek.
    + clear Ha. induction Hc as [|e es Hs IH Hf]; [constructor|]. cbn [fmap list_fmap]. constructor.
      * apply IH. intros y Hy. apply Hb. by right.
      * apply Forall_fmap. rewrite Forall_forall in Hf |- *. intros y Hy.
        destruct (Hupd e) as (_ & _ & _ & Ek); [apply Hb; left|].
        destruct (Hupd y) as (_ & _ & _ & Ek'); [apply Hb; by right|].
        unfold entry_lt. cbn. rewrite Ek, Ek'. by apply Hf.
  - intros p id' Hp. destruct (H2 p id' Hp) as (e & He & <- & Hin). exists (upd e).
    destruct (H3 id' e He) as [<- _]. destruct (Hupd e He) as (Es & Et & Ep & Ek).
    split; [|split; [done|by rewrite Et]]. cbn. unfold upd.
    case_decide as E; [by rewrite E, lookup_insert_eq|by rewrite lookup_insert_ne by congruence].
  - intros id' e. cbn. intros [[<- <-]|[_ He]]%lookup_insert_Some; [by split|by apply H3].
Qed.

Lemma live_with_snapshot tr id x snapshot p :
  byPtr (with_snapshot tr id x snapshot) !! p = byPtr tr !! p.
Proof. done. Qed.

(** ** Comparing two maps *)

Definition same_entry (x x' : trackedEntry) : Prop :=
  te_ptr x' = te_ptr x /\ te_m x' = te_m x /\ te_key x' = te_key x /\
  length (te_snapshot x') = length (te_snapshot x) /\ te_seq x' = te_seq x.

Record rel (ids : gset nat) (P : gset Ptr) (s s' : tracker) : Prop := {
  rel_objects : forall id x, objects s !! id = Some x ->
    exists x', objects s' !! id = Some x' /\ same_entry x x' /\ (id ∉ ids -> x' = x);
  rel_byPtr : forall p, p ∉ P -> byPtr s' !! p = byPtr s !! p }.

Lemma same_entry_refl x : same_entry x x.
Proof. by repeat split. Qed.

Lemma rel_refl ids P s : rel ids P s s.
Proof. split; [|done]. intros id x Hx. exists x. split; [done|]. split; [apply same_entry_refl|done]. Qed.

Lemma rel_trans s1 s2 s3 : rel ∅ ∅ s1 s2 -> rel ∅ ∅ s2 s3 -> rel ∅ ∅ s1 s3.
Proof.
  intros [A1 A2] [B1 B2]. split.
  - intros id x Hx. destruct (A1 id x Hx) as (x2 & H2 & _ & E2). rewrite E2 in H2 by set_solver.
    by apply B1.
  - intros p Hp. by rewrite B2, A2.
Qed.

Lemma same_entry_clash x x' e e' : same_entry x x' -> same_entry e e' -> clash x e <-> clash x' e'.
Proof.
  intros (_ & Em & Ek & _) (_ & Em' & Ek' & _). unfold clash, te_type. by rewrite Em, Ek, Em', Ek'.
Qed.

Lemma rel_entryOf ids P s s' p x :
  tracker_ok s -> tracker_ok s' -> rel ids P s s' -> p ∉ P -> Tracker.entryOf s p = Some x ->
  exists x', Tracker.entryOf s' p = Some x' /\ same_entry x x'.
Proof.
  intros Hok Hok' [Ho Hp] HP Hx. apply (entryOf_live key_types) in Hx as [[Hx1 Hx2] <-]; [|done].
  destruct (Ho _ _ Hx1) as (x' & Hx' & Hs & _). exists x'. split; [|done].
  apply (entryOf_live key_types); [done|]. destruct Hs as (E1 & E2 & E3 & E4 & E5).
  rewrite <- E1, <- E5 in *. split; [|done]. split; [done|]. rewrite E5, E1 in *. by rewrite Hp.
Qed.

Lemma entryOf_None s p : tracker_ok s -> Tracker.entryOf s p = None <-> byPtr s !! p = None.
Proof.
  intros Hok. unfold Tracker.entryOf. destruct (byPtr s !! p) as [id|] eqn:E; [|done].
  destruct (tk_ptr _ s Hok p id E) as (x & Hx & _). cbn. by rewrite Hx.
Qed.

Lemma restore_rel ids P s s' id x :
  tracker_ok s -> tracker_ok s' -> rel ids P s s' -> objects s !! id = Some x -> restorable s x ->
  (forall x', objects s' !! id = Some x' -> same_entry x x' -> restorable s' x') ->
  exists t t', restore_id s id = Ok t /\ restore_id s' id = Ok t' /\ tracker_ok t /\ tracker_ok t' /\
    rel ids (P ∖ {[te_ptr x]}) t t' /\ objects t = objects s /\ objects t' = objects s' /\
    forall p, byPtr t !! p = after_restore s x p.
Proof.
  intros Hok Hok' Hrel Hx Hre Hre'. destruct (rel_objects _ _ _ _ Hrel id x Hx) as (x' & Hx' & Hs & _).
  specialize (Hre' x' Hx' Hs). destruct (restore_byPtr s x Hok Hre) as (t & Ht & Hokt & Ho & _ & Hb).
  destruct (restore_byPtr s' x' Hok' Hre') as (t' & Ht' & Hokt' & Ho' & _ & Hb').
  exists t, t'. unfold restore_id, object. rewrite Hx, Hx'. cbn [mbind result_bind].
  do 4 (split; [done|]). split; [|done]. split.
  - intros id2 y. rewrite Ho, Ho'. apply Hrel.
  - intros p Hp. rewrite Hb, Hb'. unfold after_restore. destruct Hs as (E1 & E2 & E3 & E4 & E5).
    rewrite E1, E5. case_decide as Hpx; [done|].
    assert (HpP : p ∉ P) by set_solver.
    destruct (Tracker.entryOf s p) as [y|] eqn:Ey.
    + destruct (rel_entryOf ids P s s' p y Hok Hok' Hrel HpP Ey) as (y' & -> & Hsy).
      assert (Hc : clash y x <-> clash y' x') by (apply same_entry_clash; [done|by repeat split]).
      destruct Hsy as (_ & _ & _ & _ & ->). repeat case_decide; tauto.
    + apply (entryOf_None s p Hok) in Ey. rewrite <- (rel_byPtr _ _ _ _ Hrel p HpP) in Ey.
      apply (entryOf_None s' p Hok') in Ey. by rewrite Ey.
Qed.

(** ** The closures *)

Definition tracker_undo (u : undo) (tr : tracker) : result tracker :=
  match u with
  | UndoWrite ptr _ entry holder => undo_tracker ptr entry holder tr
  | UndoForget id => restore_id tr id
  end.

(** Last in, first out: [R] is the journal from its end. *)
Definition tracker_rollback (R : list undo) (tr : tracker) : result tracker :=
  foldR (fun tr u => tracker_undo u tr) tr R.

Lemma forget_other_byPtr s p entry :
  tracker_ok s -> exists t, forget_other s p entry = Ok t /\ tracker_ok t /\ objects t = objects s /\
    forall q, byPtr t !! q = if decide (q = p /\ byPtr s !! p <> entry) then None else byPtr s !! q.
Proof.
  intros Hok. unfold forget_other. destruct (Tracker.entryOf s p) as [x|] eqn:Ex.
  - apply (entryOf_live key_types) in Ex as [Hx <-]; [|done]. pose proof Hx as [_ Hp].
    destruct (decide (Some (te_seq x) <> entry)) as [Hne|Heq].
    + destruct (forget_byPtr s x Hok Hx) as (t & -> & Hokt & Ho & _ & Hb). exists t.
      do 3 (split; [done|]). intros q. rewrite Hb. case_decide as Hq.
      * destruct Hq as [-> _]. apply lookup_delete_eq.
      * apply lookup_delete_ne. intros <-. apply Hq. by rewrite Hp.
    + exists s. do 3 (split; [done|]). intros q. rewrite decide_False; [done|].
      intros [_ Hq]. by rewrite Hp in Hq.
  - exists s. do 3 (split; [done|]). intros q. apply (entryOf_None s p Hok) in Ex.
    case_decide as Hq; [|done]. destruct Hq as [-> _]. done.
Qed.

Lemma copy_snapshot_full x snapshot :
  length snapshot = length (te_snapshot x) ->
  take (length (te_snapshot x)) snapshot ++ drop (length snapshot) (te_snapshot x) = snapshot.
Proof. intros H. rewrite <- H at 1. rewrite firstn_all, H, drop_all. apply app_nil_r. Qed.

Lemma copy_snapshot_eq s id x snapshot :
  objects s !! id = Some x -> length snapshot = length (te_snapshot x) ->
  copy_snapshot id snapshot s = with_snapshot s id x snapshot.
Proof.
  intros Hx Hl. unfold copy_snapshot. by rewrite Hx, copy_snapshot_full.
Qed.

(** What a closure needs of the map it runs on. *)
Definition needs (u : undo) (s : tracker) : Prop :=
  match u with
  | UndoForget id => exists x, objects s !! id = Some x /\ restorable s x
  | UndoWrite ptr _ entry holder =>
      (forall id snapshot, entry = Some (id, snapshot) ->
         exists x, objects s !! id = Some x /\ te_ptr x = ptr /\ well_keyed x /\
           length snapshot = length (te_snapshot x)) /\
      (forall h, holder = Some h -> Some h <> fst <$> entry ->
         exists y, objects s !! h = Some y /\ restorable s y /\ te_ptr y <> ptr)
  end.

(** The entries a closure refers to, by the instance they are of. *)
Definition refers (owner : gmap nat Ptr) (u : undo) (p : Ptr) : Prop :=
  match u with
  | UndoForget id => owner !! id = Some p
  | UndoWrite ptr _ entry holder =>
      exists h, holder = Some h /\ Some h <> fst <$> entry /\ owner !! h = Some p
  end.

Definition settles (u : undo) : gset Ptr :=
  match u with UndoWrite ptr _ _ _ => {[ptr]} | UndoForget _ => ∅ end.
Definition rewrites (u : undo) : gset nat :=
  match u with UndoWrite _ _ (Some (id, _)) _ => {[id]} | _ => ∅ end.

Definition owners (s : tracker) : gmap nat Ptr := te_ptr <$> objects s.

Lemma owners_lookup s id p : owners s !! id = Some p <-> exists x, objects s !! id = Some x /\ te_ptr x = p.
Proof. unfold owners. rewrite lookup_fmap_Some. naive_solver. Qed.

Lemma owners_with_snapshot s id x snapshot :
  objects s !! id = Some x -> owners (with_snapshot s id x snapshot) = owners s.
Proof.
  intros Hx. unfold owners. cbn. rewrite fmap_insert. cbn. rewrite insert_id; [done|].
  by rewrite lookup_fmap, Hx.
Qed.

(** ** One closure on two maps *)

Lemma forget_other_rel ids P s s' p entry :
  tracker_ok s -> tracker_ok s' -> rel ids P s s' ->
  exists t t', forget_other s p entry = Ok t /\ forget_other s' p entry = Ok t' /\
    tracker_ok t /\ tracker_ok t' /\ objects t = objects s /\ objects t' = objects s' /\
    rel ids P t t' /\
    (forall q, byPtr t !! q = byPtr s !! q \/ byPtr t !! q = None) /\
    (forall q, byPtr t' !! q = byPtr s' !! q \/ byPtr t' !! q = None) /\
    (byPtr t !! p = None \/ byPtr t !! p = entry) /\ (byPtr t' !! p = None \/ byPtr t' !! p = entry).
Proof.
  intros Hok Hok' Hrel.
  destruct (forget_other_byPtr s p entry Hok) as (t & -> & Hokt & Ho & Hb).
  destruct (forget_other_byPtr s' p entry Hok') as (t' & -> & Hokt' & Ho' & Hb').
  exists t, t'. do 6 (split; [done|]). split; [split|].
  - intros id x. rewrite Ho, Ho'. apply Hrel.
  - intros q Hq. rewrite Hb, Hb'. pose proof (rel_byPtr _ _ _ _ Hrel q Hq) as Hqs.
    repeat case_decide; naive_solver.
  - split; [intros q; rewrite Hb; destruct (decide _); [by right|by left]|].
    split; [intros q; rewrite Hb'; destruct (decide _); [by right|by left]|].
    rewrite Hb, Hb'. split; (destruct (decide _) as [H|H]; [by left|right; apply dec_stable; intros ?; by apply H]).
Qed.

Lemma restorable_mono s t x :
  objects t = objects s -> byPtr t !! te_ptr x = byPtr s !! te_ptr x \/ byPtr t !! te_ptr x = None ->
  restorable s x -> restorable t x.
Proof.
  intros Ho Hb [H1 H2 H3]. split; [done|by rewrite Ho|]. destruct Hb as [->| ->]; auto.
Qed.

Lemma restorable_rel ids P s s' x x' :
  rel ids P s s' -> te_ptr x ∉ P -> same_entry x x' -> objects s' !! te_seq x = Some x' ->
  restorable s x -> restorable s' x'.
Proof.
  intros Hrel HP (E1 & E2 & E3 & E4 & E5) Ho [H1 H2 H3]. split.
  - unfold Tracker.well_keyed, te_type in *. by rewrite E2, E3.
  - by rewrite E5.
  - rewrite E1, E5, (rel_byPtr _ _ _ _ Hrel) by done. done.
Qed.

Lemma restored_rel ids P s s' id x :
  tracker_ok s -> tracker_ok s' -> rel ids P s s' -> objects s !! id = Some x -> restorable s x ->
  te_ptr x ∉ P ->
  exists t t', restore_id s id = Ok t /\ restore_id s' id = Ok t' /\ tracker_ok t /\ tracker_ok t' /\
    rel ids P t t' /\ objects t = objects s /\ objects t' = objects s'.
Proof.
  intros Hok Hok' Hrel Hx Hre HP. destruct (tk_seq _ s Hok id x Hx) as [Hid _].
  destruct (restore_rel ids P s s' id x Hok Hok' Hrel Hx Hre) as (t & t' & H1 & H2 & H3 & H4 & H5 & H6 & H7 & _).
  { intros x' Hx' Hs. eapply restorable_rel; [done..| |done]. by rewrite Hid. }
  exists t, t'. do 4 (split; [done|]). split; [|done].
  by rewrite difference_disjoint_L in H5 by set_solver.
Qed.

(** The entry of the instance comes back, with the snapshot it had. *)
Definition undo_entry (entry : option (nat * list Value)) (tr : tracker) : result tracker :=
  match entry with
  | Some (id, snapshot) => restore_id (copy_snapshot id snapshot tr) id
  | None => Ok tr
  end.
Definition undo_holder (entry : option (nat * list Value)) (holder : option nat) (tr : tracker)
    : result tracker :=
  match holder with
  | Some h => if decide (holder <> (fst <$> entry)) then restore_id tr h else Ok tr
  | None => Ok tr
  end.

Lemma undo_tracker_eq p entry holder tr :
  undo_tracker p entry holder tr =
    (let* tr := forget_other tr p (fst <$> entry) in
     let* tr := undo_entry entry tr in undo_holder entry holder tr).
Proof. done. Qed.

Definition entry_needs (p : Ptr) (entry : option (nat * list Value)) (s : tracker) : Prop :=
  forall id snapshot, entry = Some (id, snapshot) ->
    exists x, objects s !! id = Some x /\ te_ptr x = p /\ well_keyed x /\
      length snapshot = length (te_snapshot x).

Lemma entry_needs_rel ids P s s' p entry :
  rel ids P s s' -> entry_needs p entry s -> entry_needs p entry s'.
Proof.
  intros Hrel Hn id snapshot He. destruct (Hn id snapshot He) as (x & Hx & Hp & Hk & Hl).
  destruct (rel_objects _ _ _ _ Hrel id x Hx) as (x' & Hx' & (E1 & E2 & E3 & E4 & E5) & _).
  exists x'. split; [done|]. split; [congruence|]. split; [|congruence].
  unfold Tracker.well_keyed, te_type in *. by rewrite E2, E3.
Qed.

Lemma with_snapshot_rel ids P s s' id x x' snapshot :
  rel ids P s s' -> objects s !! id = Some x -> objects s' !! id = Some x' -> same_entry x x' ->
  rel (ids ∖ {[id]}) P (with_snapshot s id x snapshot) (with_snapshot s' id x' snapshot).
Proof.
  intros [H1 H2] Hx Hx' (E1 & E2 & E3 & E4 & E5). split; [|done].
  intros id2 y. cbn. intros [[<- <-]|[Hne Hy]]%lookup_insert_Some.
  - exists (set_snapshot x' snapshot). rewrite lookup_insert_eq. split; [done|].
    split; [by repeat split|]. intros _. unfold set_snapshot. by rewrite E1, E2, E3, E5.
  - rewrite lookup_insert_ne by done. destruct (H1 id2 y Hy) as (y' & Hy' & Hs & He).
    exists y'. split; [done|]. split; [done|]. intros Hin. apply He. set_solver.
Qed.

Lemma restorable_with_snapshot s id x p snapshot :
  tracker_ok s -> objects s !! id = Some x -> te_ptr x = p -> well_keyed x ->
  byPtr s !! p = None \/ byPtr s !! p = Some id ->
  restorable (with_snapshot s id x snapshot) (set_snapshot x snapshot).
Proof.
  intros Hok Hx Hp Hk Hb. destruct (tk_seq _ s Hok id x Hx) as [Hid _]. split.
  - done.
  - cbn. rewrite Hid. apply lookup_insert_eq.
  - cbn. by rewrite Hid, Hp.
Qed.

Lemma undo_entry_rel ids P s s' p entry :
  tracker_ok s -> tracker_ok s' -> rel ids P s s' -> entry_needs p entry s ->
  (byPtr s !! p = None \/ byPtr s !! p = fst <$> entry) ->
  (byPtr s' !! p = None \/ byPtr s' !! p = fst <$> entry) ->
  exists t t', undo_entry entry s = Ok t /\ undo_entry entry s' = Ok t' /\
    tracker_ok t /\ tracker_ok t' /\
    rel (ids ∖ rewrites (UndoWrite p [] entry None)) (P ∖ {[p]}) t t' /\
    (forall q, q <> p -> byPtr t !! q = byPtr s !! q \/ byPtr t !! q = None) /\
    (forall id x, objects s !! id = Some x -> (fst <$> entry) <> Some id -> objects t !! id = Some x) /\
    owners t = owners s.
Proof.
  intros Hok Hok' Hrel Hn Hb Hb'. destruct entry as [[id snapshot]|]; cbn [undo_entry rewrites].
  2:{ exists s, s'. do 4 (split; [done|]). rewrite difference_empty_L. split; [|by auto].
      split; [apply Hrel|]. intros q Hq. destruct (decide (q = p)) as [->|Hne].
      - cbn in Hb, Hb'. destruct Hb as [->| ->], Hb' as [->| ->]; done.
      - apply Hrel. set_solver. }
  destruct (Hn id snapshot eq_refl) as (x & Hx & Hp & Hk & Hl).
  destruct (entry_needs_rel _ _ _ _ _ _ Hrel Hn id snapshot eq_refl) as (x' & Hx' & Hp' & Hk' & Hl').
  destruct (rel_objects _ _ _ _ Hrel id x Hx) as (x2 & Hx2 & Hs & _).
  rewrite Hx' in Hx2. injection Hx2 as <-.
  rewrite (copy_snapshot_eq s id x), (copy_snapshot_eq s' id x') by done.
  pose proof (with_snapshot_ok s id x snapshot Hok Hx) as Hok1.
  pose proof (with_snapshot_ok s' id x' snapshot Hok' Hx') as Hok1'.
  destruct (restore_rel (ids ∖ {[id]}) P _ _ id (set_snapshot x snapshot) Hok1 Hok1'
    (with_snapshot_rel _ _ _ _ _ _ _ snapshot Hrel Hx Hx' Hs)) as (t & t' & H1 & H2 & H3 & H4 & H5 & H6 & _ & H8).
  - apply lookup_insert_eq.
  - eapply restorable_with_snapshot; eauto.
  - intros x2. cbn. rewrite lookup_insert_eq. intros [= <-] _.
    eapply restorable_with_snapshot; eauto.
  - exists t, t'. do 4 (split; [done|]). split; [|split; [|split]].
    + cbn in H5. by rewrite Hp in H5.
    + intros q Hq. rewrite H8. unfold after_restore. cbn. rewrite Hp, decide_False by done.
      destruct (Tracker.entryOf _ q) as [y|] eqn:Ey; [|by right]. case_decide; [by right|]. left.
      apply (entryOf_live key_types) in Ey as [[_ Hy] <-]; [|done]. symmetry. exact Hy.
    + intros id2 y Hy Hne. rewrite H6. cbn. rewrite lookup_insert_ne; [done|]. intros <-. by apply Hne.
    + unfold owners at 1. rewrite H6. by apply owners_with_snapshot.
Qed.

Lemma undo_holder_rel ids P s s' entry holder :
  tracker_ok s -> tracker_ok s' -> rel ids P s s' ->
  (forall h, holder = Some h -> Some h <> fst <$> entry ->
     exists y, objects s !! h = Some y /\ restorable s y /\ te_ptr y ∉ P) ->
  exists t t', undo_holder entry holder s = Ok t /\ undo_holder entry holder s' = Ok t' /\
    tracker_ok t /\ tracker_ok t' /\ rel ids P t t' /\ owners t = owners s.
Proof.
  intros Hok Hok' Hrel Hn. unfold undo_holder. destruct holder as [h|]; [|by exists s, s'].
  case_decide as Hne; [|by exists s, s'].
  destruct (Hn h eq_refl Hne) as (y & Hy & Hre & HP).
  destruct (restored_rel ids P s s' h y Hok Hok' Hrel Hy Hre HP) as (t & t' & H1 & H2 & H3 & H4 & H5 & H6 & _).
  exists t, t'. do 5 (split; [done|]). unfold owners. by rewrite H6.
Qed.

Lemma undo_rel ids P s s' u :
  tracker_ok s -> tracker_ok s' -> rel ids P s s' -> needs u s ->
  (forall p : Ptr, p ∈ P -> ~ refers (owners s) u p) ->
  exists t t', tracker_undo u s = Ok t /\ tracker_undo u s' = Ok t' /\ tracker_ok t /\ tracker_ok t' /\
    rel (ids ∖ rewrites u) (P ∖ settles u) t t' /\ needs u s' /\ owners t = owners s.
Proof.
  intros Hok Hok' Hrel Hneeds Hrefers. destruct u as [p vals entry holder|id]; cbn [tracker_undo].
  2:{ destruct Hneeds as (x & Hx & Hre).
      assert (HP : te_ptr x ∉ P) by (intros HP; apply (Hrefers _ HP), owners_lookup; by exists x).
      destruct (restored_rel ids P s s' id x Hok Hok' Hrel Hx Hre HP) as (t & t' & H1 & H2 & H3 & H4 & H5 & H6 & _).
      exists t, t'. do 4 (split; [done|]). cbn [rewrites settles].
      rewrite !difference_empty_L. split; [done|]. split; [|unfold owners; by rewrite H6].
      destruct (rel_objects _ _ _ _ Hrel id x Hx) as (x' & Hx' & Hs & _). exists x'. split; [done|].
      destruct (tk_seq _ s Hok id x Hx) as [Hid _].
      eapply restorable_rel; [done..| |done]. by rewrite Hid. }
  destruct Hneeds as [He Hh]. rewrite !undo_tracker_eq.
  destruct (forget_other_rel ids P s s' p (fst <$> entry) Hok Hok' Hrel)
    as (t & t' & -> & -> & Hokt & Hokt' & Ho & Ho' & Hrelt & Hb & _ & Hp & Hp').
  cbn [mbind result_bind].
  destruct (undo_entry_rel ids P t t' p entry Hokt Hokt' Hrelt) as
    (t2 & t2' & -> & -> & Hok2 & Hok2' & Hrel2 & Hb2 & Ho2 & Hw2); [|done..|].
  { intros id snapshot E. rewrite Ho. by apply He. }
  cbn [mbind result_bind].
  assert (HnP : forall h y, holder = Some h -> Some h <> fst <$> entry -> objects s !! h = Some y -> te_ptr y ∉ P).
  { intros h y Eh Hne Hy HP. apply (Hrefers _ HP). exists h. split; [done|]. split; [done|].
    apply owners_lookup. by exists y. }
  destruct (undo_holder_rel _ _ t2 t2' entry holder Hok2 Hok2' Hrel2) as
    (t3 & t3' & -> & -> & Hok3 & Hok3' & Hrel3 & Hw3).
  { intros h Eh Hne. destruct (Hh h Eh Hne) as (y & Hy & Hre & Hpy). exists y.
    assert (Hy2 : objects t2 !! h = Some y) by (apply Ho2; [by rewrite Ho|congruence]).
    split; [done|]. split; [|specialize (HnP h y Eh Hne Hy); set_solver].
    destruct Hre as [R1 R2 R3]. destruct (tk_seq _ s Hok h y Hy) as [Hid _]. split; [done|by rewrite Hid|].
    destruct (Hb2 (te_ptr y) Hpy) as [->| ->]; [|by left].
    destruct (Hb (te_ptr y)) as [->| ->]; [done|by left]. }
  exists t3, t3'. do 4 (split; [done|]). split; [exact Hrel3|]. split.
  - split; [by eapply entry_needs_rel|]. intros h Eh Hne. destruct (Hh h Eh Hne) as (y & Hy & Hre & Hpy).
    destruct (rel_objects _ _ _ _ Hrel h y Hy) as (y' & Hy' & Hs & _). exists y'. split; [done|].
    destruct (tk_seq _ s Hok h y Hy) as [Hid _]. split.
    + eapply restorable_rel; [done|by eapply HnP|done| |done]. by rewrite Hid.
    + destruct Hs as (E1 & _). by rewrite E1.
  - rewrite Hw3, Hw2. unfold owners. by rewrite Ho.
Qed.
End Journal.
