(* ===== verification/Rollback.v ===== *)
(** Rolling back the undo journal (db_write.go): the effects a call's writes
    have on the identity map, each with the closures it adds to the journal, and
    the proof that after any sequence of them the journal gives back the map the
    call started from.  The journaled functions of [Writes] have these effects
    and no others. *)
From S2P Require Import Prelude GoStrings Values Core Tracker Instances Session KeyFlow Writes Journal.

Section Effects.
Context (key_types : GoType -> list KeyType).
Notation tracker_ok := (tracker_ok key_types).
Notation restorable := (restorable key_types).
Notation typed := (typed key_types).

(** [R] settles the tracking of [P] before it refers to an instance of [P], and
    rewrites the snapshots of [ids]. *)
Fixpoint covered (owner : gmap nat Ptr) (R : list undo) (ids : gset nat) (P : gset Ptr) : Prop :=
  match R with
  | [] => ids = ∅ /\ P = ∅
  | u :: R' =>
      (forall p : Ptr, p ∈ P -> ~ refers owner u p) /\
      covered owner R' (ids ∖ rewrites u) (P ∖ settles u)
  end.

(** The entry another instance loses its key to. *)
Definition displaced (holder : option trackedEntry) (p : Ptr) : list undo :=
  match holder with
  | Some x => if decide (te_ptr x <> p) then [UndoForget (te_seq x)] else []
  | None => []
  end.

(** What a write does to the identity map, and what it adds to the journal,
    which is read from its end. *)
Inductive effect : tracker * list undo -> tracker * list undo -> Prop :=
  | effect_record s R p values holder :
      (forall y, holder = Some y -> live s y) ->
      effect (s, R)
        (s, UndoWrite p values ((fun x => (te_seq x, te_snapshot x)) <$> Tracker.entryOf s p)
              (te_seq <$> holder) :: R)
  | effect_forget s s' R x :
      live s x -> forget s x = Ok s' -> effect (s, R) (s', UndoForget (te_seq x) :: R)
  | effect_keep s R x :
      live s x -> effect (s, R) (s, UndoForget (te_seq x) :: R)
  | effect_register s s' R m p key snapshot e holder :
      typed (Type_ m) key -> find s (Type_ m) key = Ok holder ->
      register s m p key snapshot = Ok (s', e) -> covered (owners s) R ∅ {[p]} ->
      effect (s, R) (s', displaced holder p ++ R)
  | effect_resnapshot s R id x snapshot :
      objects s !! id = Some x -> length snapshot = length (te_snapshot x) ->
      (exists u, u ∈ R /\ id ∈ rewrites u) ->
      effect (s, R) (with_snapshot s id x snapshot, R).

(** Every closure of [R] finds what it needs when its turn comes. *)
Fixpoint sound (R : list undo) (s : tracker) : Prop :=
  match R with
  | [] => True
  | u :: R' => needs key_types u s /\ exists t, tracker_undo u s = Ok t /\ sound R' t
  end.

Lemma covered_empty owner R : covered owner R ∅ ∅.
Proof.
  induction R as [|u R IH]; [done|]. split; [by intros p []%not_elem_of_empty|].
  by rewrite !difference_empty_l_L || rewrite !subseteq_empty_difference_L by set_solver.
Qed.

Lemma covered_rewrites owner R id : (exists u, u ∈ R /\ id ∈ rewrites u) -> covered owner R {[id]} ∅.
Proof.
  induction R as [|u R IH]; intros (v & Hv & Hid); [by apply not_elem_of_nil in Hv|].
  split; [by intros p []%not_elem_of_empty|].
  replace (∅ ∖ settles u) with (∅ : gset Ptr) by set_solver.
  destruct (decide (id ∈ rewrites u)) as [Hin|Hout].
  - replace ({[id]} ∖ rewrites u) with (∅ : gset nat) by set_solver. apply covered_empty.
  - replace ({[id]} ∖ rewrites u) with ({[id]} : gset nat) by set_solver. apply IH.
    apply elem_of_cons in Hv as [->|Hv]; [done|]. by exists v.
Qed.

(** Two maps that differ only in what [R] settles roll back to the same one. *)
Lemma rollback_rel R ids P s s' :
  tracker_ok s -> tracker_ok s' -> rel ids P s s' -> sound R s -> covered (owners s) R ids P ->
  exists t t', tracker_rollback R s = Ok t /\ tracker_rollback R s' = Ok t' /\
    tracker_ok t /\ tracker_ok t' /\ rel ∅ ∅ t t' /\ sound R s'.
Proof.
  revert ids P s s'. induction R as [|u R IH]; intros ids P s s' Hok Hok' Hrel Hs Hc.
  { destruct Hc as [-> ->]. by exists s, s'. }
  destruct Hs as (Hn & t1 & Ht1 & Hs). destruct Hc as [Hc1 Hc].
  destruct (undo_rel key_types ids P s s' u Hok Hok' Hrel Hn Hc1)
    as (t & t' & E & E' & Hokt & Hokt' & Hrelt & Hn' & Hw).
  rewrite E in Ht1. injection Ht1 as <-. rewrite <- Hw in Hc.
  destruct (IH _ _ t t' Hokt Hokt' Hrelt Hs Hc) as (t2 & t2' & H1 & H2 & H3 & H4 & H5 & H6).
  exists t2, t2'. unfold tracker_rollback in *. cbn [foldR]. rewrite E, E'. cbn [mbind result_bind].
  do 5 (split; [done|]). split; [done|]. by exists t'.
Qed.

Lemma live_well_keyed s x : tracker_ok s -> live s x -> Tracker.well_keyed key_types x.
Proof.
  intros Hok Hx. destruct (tk_listed _ s Hok (te_type x)) as [es Hes].
  pose proof (live_listed _ _ _ _ _ Hok Hes Hx eq_refl) as Hin.
  apply list_elem_of_lookup in Hin as [i Hi]. by eapply listed_entry.
Qed.

Lemma live_restorable s x : tracker_ok s -> live s x -> restorable s x.
Proof. intros Hok Hx. split; [by apply (live_well_keyed s)|apply Hx|right; apply Hx]. Qed.

Lemma live_found s x : tracker_ok s -> live s x -> find s (te_type x) (te_key x) = Ok (Some x).
Proof.
  intros Hok Hx. pose proof (live_well_keyed s x Hok Hx) as Hk.
  destruct (find_spec key_types s (te_type x) (te_key x) Hok Hk) as [(h & -> & Hh & Ht & Hc)|(_ & Hno)].
  - do 2 f_equal. apply (same_key_same_entry key_types s h x (te_key x)); try done.
    by eapply key_cmp_refl.
  - destruct (Hno x Hx eq_refl). by eapply key_cmp_refl.
Qed.

Lemma restore_live s x : tracker_ok s -> live s x -> restore s x = Ok s.
Proof.
  intros Hok Hx. unfold restore. rewrite live_found by done. cbn [mbind result_bind].
  rewrite decide_False by auto. cbn [mbind result_bind]. rewrite decide_True; [done|apply Hx].
Qed.

(** ** Each effect *)

(** [s0] is the map the call started from. *)
Definition returns (s0 : tracker) (st : tracker * list undo) : Prop :=
  let '(s, R) := st in
  tracker_ok s /\ sound R s /\
  exists t, tracker_rollback R s = Ok t /\ tracker_ok t /\ rel ∅ ∅ s0 t.

(** A map that differs from [s] only in what [R] settles returns as [s] does. *)
Lemma returns_rel s0 s s' R ids P :
  returns s0 (s, R) -> tracker_ok s' -> rel ids P s s' -> covered (owners s) R ids P ->
  returns s0 (s', R).
Proof.
  intros (Hok & Hs & t & Ht & Hokt & Hrel0) Hok' Hrel Hc.
  destruct (rollback_rel R ids P s s' Hok Hok' Hrel Hs Hc) as (t1 & t1' & H1 & H2 & _ & H4 & H5 & H6).
  rewrite Ht in H1. injection H1 as <-. split; [done|]. split; [done|]. exists t1'.
  split; [done|]. split; [done|]. by eapply rel_trans.
Qed.

Lemma returns_record s0 s R p values holder :
  (forall y, holder = Some y -> live s y) -> returns s0 (s, R) ->
  returns s0 (s, UndoWrite p values ((fun x => (te_seq x, te_snapshot x)) <$> Tracker.entryOf s p)
                   (te_seq <$> holder) :: R).
Proof.
  intros Hh (Hok & Hs & t & Ht & Hokt & Hrel0).
  set (u := UndoWrite _ _ _ _).
  assert (Hid : tracker_undo u s = Ok s).
  { subst u. cbn [tracker_undo]. rewrite undo_tracker_eq.
    assert (He : forget_other s p (fst <$> ((fun x => (te_seq x, te_snapshot x)) <$> Tracker.entryOf s p)) = Ok s).
    { unfold forget_other. destruct (Tracker.entryOf s p) as [x|]; [|done]. cbn. by rewrite decide_False by auto. }
    rewrite He. cbn [mbind result_bind]. clear He.
    assert (He : undo_entry ((fun x => (te_seq x, te_snapshot x)) <$> Tracker.entryOf s p) s = Ok s).
    { destruct (Tracker.entryOf s p) as [x|] eqn:Ex; [|done]. cbn.
      apply (entryOf_live key_types) in Ex as [Hx <-]; [|done]. pose proof Hx as [Hx1 _].
      rewrite (copy_snapshot_eq s (te_seq x) x) by done.
      assert (with_snapshot s (te_seq x) x (te_snapshot x) = s) as ->.
      { unfold with_snapshot. replace (set_snapshot x (te_snapshot x)) with x by (by destruct x).
        rewrite insert_id by done. by destruct s. }
      unfold restore_id, object. rewrite Hx1. cbn [mbind result_bind]. by apply restore_live. }
    rewrite He. cbn [mbind result_bind]. clear He. destruct holder as [y|]; [|done]. cbn.
    case_decide; [|done]. pose proof (Hh y eq_refl) as Hy. pose proof Hy as [Hy1 _].
    unfold restore_id, object. rewrite Hy1. cbn [mbind result_bind]. by apply restore_live. }
  split; [done|]. split.
  - split; [|by exists s]. split.
    + intros id snapshot. destruct (Tracker.entryOf s p) as [x|] eqn:Ex; [|done]. cbn. intros [= <- <-].
      apply (entryOf_live key_types) in Ex as [Hx <-]; [|done]. exists x. split; [apply Hx|].
      split; [done|]. split; [by apply (live_well_keyed s)|done].
    + intros h Eh Hne. destruct holder as [y|]; [|done]. injection Eh as <-. pose proof (Hh y eq_refl) as Hy.
      exists y. split; [apply Hy|]. split; [by apply live_restorable|]. intros <-. apply Hne.
      by assert (Tracker.entryOf s (te_ptr y) = Some y) as -> by (by apply (entryOf_live key_types)).
  - exists t. unfold tracker_rollback in *. cbn [foldR]. rewrite Hid. by cbn [mbind result_bind].
Qed.

(** Forgetting, then restoring: the same entries. *)
Lemma forget_restored s s' x :
  tracker_ok s -> live s x -> forget s x = Ok s' ->
  tracker_ok s' /\ owners s' = owners s /\ needs key_types (UndoForget (te_seq x)) s' /\
  exists t, tracker_undo (UndoForget (te_seq x)) s' = Ok t /\ tracker_ok t /\ rel ∅ ∅ s t.
Proof.
  intros Hok Hx Hf. destruct (forget_byPtr key_types s x Hok Hx) as (s1 & E & Hok1 & Ho & _ & Hb).
  rewrite Hf in E. injection E as <-.
  assert (Hre : restorable s' x).
  { split; [by apply (live_well_keyed s)|rewrite Ho; apply Hx|left; rewrite Hb; apply lookup_delete_eq]. }
  assert (Hobj : objects s' !! te_seq x = Some x) by (rewrite Ho; apply Hx).
  split; [done|]. split; [unfold owners; by rewrite Ho|]. split; [by exists x|].
  destruct (restore_byPtr key_types s' x Hok1 Hre) as (t & Ht & Hokt & Hot & _ & Hbt).
  exists t. cbn [tracker_undo]. unfold restore_id, object. rewrite Hobj. cbn [mbind result_bind].
  split; [done|]. split; [done|]. split.
  - intros id y Hy. exists y. rewrite Hot, Ho. split; [done|]. split; [apply same_entry_refl|done].
  - intros p _. rewrite Hbt. unfold after_restore. case_decide as Hp; [subst p; symmetry; apply Hx|].
    destruct (Tracker.entryOf s' p) as [y|] eqn:Ey.
    + apply (entryOf_live key_types) in Ey as [[Hy1 Hy2] <-]; [|done]. rewrite Ho in Hy1.
      rewrite Hb, lookup_delete_ne in Hy2 by done.
      rewrite decide_False; [by rewrite Hy2|]. intros [Hty Hcy]. apply Hp. f_equal.
      apply (same_key_same_entry key_types s y x (te_key x)); try done.
      * by apply (live_well_keyed s).
      * eapply key_cmp_refl. by apply (live_well_keyed s).
    + apply (entryOf_None key_types s' p Hok1) in Ey. rewrite Hb, lookup_delete_ne in Ey by done. done.
Qed.

Lemma returns_forget s0 s s' R x :
  live s x -> forget s x = Ok s' -> returns s0 (s, R) -> returns s0 (s', UndoForget (te_seq x) :: R).
Proof.
  intros Hx Hf Hret. pose proof Hret as (Hok & _).
  destruct (forget_restored s s' x Hok Hx Hf) as (Hok' & Hw & Hn & t & Ht & Hokt & Hrel).
  destruct (returns_rel s0 s t R ∅ ∅ Hret Hokt Hrel (covered_empty _ _)) as (_ & Hs & t1 & Ht1 & H1 & H2).
  split; [done|]. split; [split; [done|by exists t]|]. exists t1.
  unfold tracker_rollback in *. cbn [foldR]. rewrite Ht. by cbn [mbind result_bind].
Qed.

(** A registration touches the tracking of the instance, and of the entry it
    displaces. *)
Lemma register_byPtr s m p key snapshot :
  tracker_ok s -> typed (Type_ m) key ->
  exists s' e, register s m p key snapshot = Ok (s', e) /\ tracker_ok s' /\
    (forall id x, objects s !! id = Some x -> objects s' !! id = Some x) /\
    forall q, q <> p ->
      byPtr s' !! q =
        match Tracker.entryOf s q with
        | Some x => if decide (te_type x = Type_ m /\ key_cmp (te_key x) key = 0%Z) then None
                    else Some (te_seq x)
        | None => None
        end.
Proof.
  intros Hok Hk. destruct (register_spec key_types s m p key snapshot Hok Hk) as (s' & Hr & Hok' & Hl).
  exists s', (mkEntry p m key snapshot (S (nextSeq s))). split; [done|]. split; [done|]. split.
  - revert Hr. unfold register.
    destruct (forget_opt_spec key_types s (Tracker.entryOf s p) Hok) as (s1 & -> & Hok1 & Hn1 & Ho1 & _).
    { intros x Hx. by apply (entryOf_live key_types) in Hx as [Hx _]. }
    cbn [mbind result_bind]. intros Hr. apply bind_Ok in Hr as (holder & Hh & Hr).
    destruct (forget_opt_spec key_types s1 holder Hok1) as (s2 & E2 & _ & Hn2 & Ho2 & _).
    { intros x ->. destruct (find_spec key_types s1 (Type_ m) key Hok1 Hk) as [(h & E & Hl1 & _)|(E & _)];
        rewrite Hh in E; [|done]. by injection E as <-. }
    rewrite E2 in Hr. cbn [mbind result_bind] in Hr.
    apply bind_Ok in Hr as (s3 & H3 & Hr). injection Hr as <- _.
    apply insertEntry_objects in H3 as [-> _]. cbn. intros id x Hx. rewrite Ho2, Ho1.
    rewrite lookup_insert_ne; [done|]. destruct (tk_seq _ s Hok id x Hx). lia.
  - intros q Hq. apply option_eq. intros id. rewrite (byPtr_live key_types s' q id Hok'). split.
    + intros (x & Hx & <- & <-). apply Hl in Hx as [->|(Hx & Hp & Hno)]; [done|].
      assert (Tracker.entryOf s (te_ptr x) = Some x) as -> by (by apply (entryOf_live key_types)).
      by rewrite decide_False.
    + destruct (Tracker.entryOf s q) as [x|] eqn:Ex; [|done]. case_decide as Hd; [done|]. intros [= <-].
      apply (entryOf_live key_types) in Ex as [Hx <-]; [|done]. exists x. split; [|done].
      apply Hl. by right.
Qed.

Lemma returns_register s0 s s' R m p key snapshot e holder :
  typed (Type_ m) key -> find s (Type_ m) key = Ok holder ->
  register s m p key snapshot = Ok (s', e) -> covered (owners s) R ∅ {[p]} ->
  returns s0 (s, R) -> returns s0 (s', displaced holder p ++ R).
Proof.
  intros Hk Hh Hr Hc Hret. pose proof Hret as (Hok & _).
  destruct (register_byPtr s m p key snapshot Hok Hk) as (s1 & e1 & E & Hok' & Ho & Hb).
  rewrite Hr in E. injection E as <- <-.
  assert (Hfree : forall x, live s x -> te_type x = Type_ m -> key_cmp (te_key x) key = 0%Z ->
            holder = Some x).
  { intros x Hx Ht Hcx. destruct (find_spec key_types s (Type_ m) key Hok Hk) as [(h & E & Hl & Hth & Hch)|(E & Hno)];
      rewrite Hh in E; injection E as ->; [|by destruct (Hno x Hx Ht)].
    f_equal. apply (same_key_same_entry key_types s h x key); try done; by rewrite ?Hth, Ht. }
  (* the map a forget of the displaced entry would leave *)
  assert (Hmid : exists s2, returns s0 (s2, displaced holder p ++ R) /\
            objects s2 = objects s /\ covered (owners s2) (displaced holder p ++ R) ∅ {[p]} /\
            forall q, byPtr s2 !! q = if decide (te_ptr <$> holder = Some q /\ q <> p) then None
                                      else byPtr s !! q).
  { unfold displaced. destruct holder as [x|]; [case_decide as Hp|].
    - destruct (find_spec key_types s (Type_ m) key Hok Hk) as [(h & E & Hx & _)|(E & _)];
        rewrite Hh in E; [|done]. injection E as <-.
      destruct (forget_byPtr key_types s x Hok Hx) as (s2 & Hf & _ & Ho2 & _ & Hb2).
      exists s2. split; [by apply (returns_forget s0 s)|]. split; [done|]. split.
      + unfold owners. rewrite Ho2. split.
        * intros q ->%elem_of_singleton Hq. cbn in Hq. apply owners_lookup in Hq as (y & Hy & <-).
          destruct Hx as [Hx _]. rewrite Hx in Hy. by injection Hy as <-.
        * cbn. by rewrite !difference_empty_L.
      + intros q. rewrite Hb2. case_decide as Hq.
        * destruct Hq as ([= <-] & _). apply lookup_delete_eq.
        * apply lookup_delete_ne. intros <-. by apply Hq.
    - exists s. split; [done|]. split; [done|]. split; [done|]. intros q. rewrite decide_False; [done|].
      by intros ([= <-] & Hq).
    - exists s. split; [done|]. split; [done|]. split; [done|]. intros q. rewrite decide_False; [done|].
      by intros [? _]. }
  destruct Hmid as (s2 & Hret2 & Ho2 & Hc2 & Hb2).
  apply (returns_rel s0 s2 s' _ ∅ {[p]} Hret2 Hok'); [|done]. split.
  - intros id x. rewrite Ho2. intros Hx. exists x. split; [by apply Ho|].
    split; [apply same_entry_refl|done].
  - intros q Hq%not_elem_of_singleton. rewrite Hb, Hb2 by done.
    destruct (Tracker.entryOf s q) as [x|] eqn:Ex.
    + apply (entryOf_live key_types) in Ex as [Hx <-]; [|done]. destruct Hx as [Hx1 Hx2].
      case_decide as Hd.
      * rewrite decide_True; [done|]. split; [|done]. destruct Hd as [Hd1 Hd2].
        by rewrite (Hfree x).
      * rewrite decide_False; [by rewrite Hx2|]. intros [(y & Ey & Hyp)%fmap_Some_1 _]. apply Hd.
        destruct (find_spec key_types s (Type_ m) key Hok Hk) as [(h & E & Hl & Hth & Hch)|(E & _)];
          rewrite Hh in E; [|by subst]. injection E as ->. injection Ey as ->.
        by rewrite (live_ptr_inj s x y).
    + apply (entryOf_None key_types s q Hok) in Ex. by case_decide.
Qed.

Lemma returns_resnapshot s0 s R id x snapshot :
  objects s !! id = Some x -> length snapshot = length (te_snapshot x) ->
  (exists u, u ∈ R /\ id ∈ rewrites u) ->
  returns s0 (s, R) -> returns s0 (with_snapshot s id x snapshot, R).
Proof.
  intros Hx Hl Hu Hret. pose proof Hret as (Hok & _).
  apply (returns_rel s0 s _ R {[id]} ∅ Hret).
  - by apply with_snapshot_ok.
  - split; [|done]. intros id2 y Hy. cbn. destruct (decide (id2 = id)) as [->|Hne].
    + rewrite Hx in Hy. injection Hy as <-. exists (set_snapshot x snapshot).
      rewrite lookup_insert_eq. split; [done|]. split; [by repeat split|]. set_solver.
    + rewrite lookup_insert_ne by done. exists y. split; [done|]. split; [apply same_entry_refl|done].
  - by apply covered_rewrites.
Qed.

Lemma returns_keep s0 s R x :
  live s x -> returns s0 (s, R) -> returns s0 (s, UndoForget (te_seq x) :: R).
Proof.
  intros Hx (Hok & Hs & t & Ht & Hret).
  assert (Hu : tracker_undo (UndoForget (te_seq x)) s = Ok s).
  { cbn. pose proof Hx as [Ho _]. unfold restore_id, object. rewrite Ho. by apply restore_live. }
  split; [done|]. split.
  - split; [exists x; split; [apply Hx|by apply live_restorable]|by exists s].
  - exists t. unfold tracker_rollback in *. cbn [foldR]. rewrite Hu. by cbn [mbind result_bind].
Qed.

Lemma returns_effect s0 st st' : effect st st' -> returns s0 st -> returns s0 st'.
Proof.
  intros Heff Hr. destruct Heff; [by apply returns_record|by eapply returns_forget|by apply returns_keep|by eapply returns_register|
    by apply returns_resnapshot].
Qed.

Lemma returns_start s : tracker_ok s -> returns s (s, []).
Proof. intros Hok. split; [done|]. split; [done|]. exists s. split; [done|]. split; [done|apply rel_refl]. Qed.

Lemma returns_entryOf s0 t p : tracker_ok s0 -> tracker_ok t -> rel ∅ ∅ s0 t ->
  Tracker.entryOf t p = Tracker.entryOf s0 p.
Proof.
  intros Hok Hok' [H1 H2]. unfold Tracker.entryOf. rewrite H2 by set_solver.
  destruct (byPtr s0 !! p) as [id|] eqn:E; [|done]. cbn.
  destruct (tk_ptr _ s0 Hok p id E) as (x & Hx & _).
  destruct (H1 id x Hx) as (x' & Hx' & _ & Ex). by rewrite Hx, Hx', Ex by set_solver.
Qed.
End Effects.

(** * The journaled functions *)

Section Code.
Context {D : Type} `{Names : NamedTypes}.
Notation env := (env (D := D)).
Context (key_types : GoType -> list KeyType)
  (ToDatabase : Value -> ColumnType -> string -> result Value).
Notation effect := (effect key_types).



(** A tracked session with a journal, read from its end. *)
Definition in_state (tr : tracker) (R : list undo) (e : env) : Prop :=
  se_tracker (en_session e) = Some tr /\ en_journal e = Some (rev R).

(** [p]'s effects were recorded, and nothing journaled since, nor the record
    itself, restores an entry of it. *)
Definition recorded (tr : tracker) (j : list undo) (p : Ptr) : Prop :=
  exists j1 values entry holder j2, j = j1 ++ UndoWrite p values entry holder :: j2 /\
    forall u, u ∈ UndoWrite p values entry holder :: j2 -> ~ refers (owners tr) u p.

Lemma recorded_covered tr R p : recorded tr (rev R) p -> covered (owners tr) R ∅ {[p]}.
Proof.
  intros (j1 & values & entry & holder & j2 & Hj & Hu).
  assert (R = rev j2 ++ UndoWrite p values entry holder :: rev j1) as ->.
  { rewrite <- (rev_involutive R), Hj, rev_app_distr. simpl. by rewrite <- app_assoc. }
  assert (Hu' : forall u, u ∈ rev j2 -> ~ refers (owners tr) u p).
  { intros u Hin. apply Hu. right. apply list_elem_of_In. apply list_elem_of_In, in_rev in Hin. done. }
  clear Hj. induction (rev j2) as [|u l IH]; cbn [app covered].
  - split; [intros q ->%elem_of_singleton; apply Hu; left|]. cbn [settles].
    rewrite difference_diag_L. replace (∅ ∖ rewrites _) with (∅ : gset nat) by set_solver.
    apply covered_empty.
  - split; [intros q ->%elem_of_singleton; apply Hu'; left|].
    replace (∅ ∖ rewrites u) with (∅ : gset nat) by set_solver.
    destruct (decide (p ∈ settles u)) as [Hin|Hout].
    + replace ({[p]} ∖ settles u) with (∅ : gset Ptr) by set_solver. apply covered_empty.
    + replace ({[p]} ∖ settles u) with ({[p]} : gset Ptr) by set_solver.
      apply IH. intros v Hv. apply Hu'. by right.
Qed.

(** What a call's writes do to their environment: fields, clock and database
    at will; the session and the journal through the journaled functions. *)
Inductive journaled : env -> env -> Prop :=
  | journaled_other e e' :
      se_tracker (en_session e') = se_tracker (en_session e) -> en_journal e' = en_journal e ->
      journaled e e'
  | journaled_record e m p :
      keyed_instance key_types m (deref (env_heap e) p) -> journaled e (recordWrite m p e).1
  | journaled_track e tr j m p :
      se_tracker (en_session e) = Some tr -> en_journal e = Some j -> recorded tr j p ->
      keyed_instance key_types m (deref (env_heap e) p) ->
      journaled e (trackJournaled ToDatabase m p e).1
  | journaled_forget e tr x :
      se_tracker (en_session e) = Some tr -> live tr x ->
      journaled e (forgetEntryJournaled (Some x) e).1
  | journaled_forgetKey e m key :
      typed key_types (Type_ m) key -> journaled e (forgetKeyJournaled m key e).1
  | journaled_resnapshot e j id properties :
      en_journal e = Some j -> (exists u, u ∈ j /\ id ∈ rewrites u) ->
      journaled e (resnapshot_entry ToDatabase id properties e).1.

Lemma in_state_other tr R e e' :
  se_tracker (en_session e') = se_tracker (en_session e) -> en_journal e' = en_journal e ->
  in_state tr R e -> in_state tr R e'.
Proof. unfold in_state. by intros -> ->. Qed.

Lemma key_holder_spec tr s m p :
  tracker_ok key_types tr -> se_tracker s = Some tr -> keyed_instance key_types m (deref (se_heap s) p) ->
  let '(key, ok) := keyOf m (deref (se_heap s) p) in
  (ok = true /\ typed key_types (Type_ m) key /\
     exists holder, key_holder s m p = Ok holder /\ find tr (Type_ m) key = Ok holder /\
       forall y, holder = Some y -> live tr y) \/
  (ok = false /\ key_holder s m p = Ok None).
Proof.
  intros Hok Hs Hk. unfold keyed_instance in Hk. unfold key_holder. rewrite Hs.
  destruct (keyOf m (deref (se_heap s) p)) as [key ok]. cbn in Hk. destruct ok; [|by right]. left.
  specialize (Hk eq_refl). split; [done|]. split; [done|].
  destruct (find_spec key_types tr (Type_ m) key Hok Hk) as [(h & E & Hh & _)|(E & _)]; rewrite E.
  - exists (Some h). split; [done|]. split; [done|]. by intros ? [= <-].
  - by exists None.
Qed.

Lemma recordWrite_spec tr j (e : env) m p :
  tracker_ok key_types tr -> se_tracker (en_session e) = Some tr -> en_journal e = Some j ->
  keyed_instance key_types m (deref (env_heap e) p) ->
  exists e' values holder, recordWrite m p e = (e', Ok tt) /\ en_session e' = en_session e /\
    (forall y, holder = Some y -> live tr y) /\
    en_journal e' = Some (j ++ [UndoWrite p values
      ((fun x => (te_seq x, te_snapshot x)) <$> Tracker.entryOf tr p) (te_seq <$> holder)]).
Proof.
  intros Hok Hs Hj Hk. unfold recordWrite. rewrite Hj.
  assert (Hh : exists holder, key_holder (en_session e) m p = Ok holder /\
            forall y, holder = Some y -> live tr y).
  { pose proof (key_holder_spec tr (en_session e) m p Hok Hs Hk) as H.
    destruct (keyOf m _) as [key ok]. destruct H as [(_ & _ & holder & H1 & _ & H2)|[_ H1]]; eauto.
    by exists None. }
  destruct Hh as (holder & Hh & Hlive). unfold sbind, slift. rewrite Hh. unfold journal_add. rewrite Hj.
  eexists _, _, holder. split; [done|]. split; [done|]. split; [done|].
  cbn. unfold Session.entryOf. by rewrite Hs.
Qed.

Lemma recordWrite_effect tr R e m p :
  tracker_ok key_types tr -> in_state tr R e -> keyed_instance key_types m (deref (env_heap e) p) ->
  exists e' R', recordWrite m p e = (e', Ok tt) /\ effect (tr, R) (tr, R') /\ in_state tr R' e'.
Proof.
  intros Hok [Hs Hj] Hk.
  destruct (recordWrite_spec tr (rev R) e m p Hok Hs Hj Hk) as (e' & values & holder & He & Hse & Hl & Hje).
  eexists e', _. split; [done|]. split; [by apply (effect_record key_types tr R p values holder)|].
  split; [by rewrite Hse|done].
Qed.

Lemma trackJournaled_heap m p (e : env) : env_heap (trackJournaled ToDatabase m p e).1 = env_heap e.
Proof.
  unfold trackJournaled. destruct (tracking (en_session e) m); [|done]. cbn [negb].
  unfold sbind at 1, slift. destruct (match en_journal e with Some _ => _ | None => _ end) as [holder|]; [|done].
  unfold sbind at 1.
  set (add := match holder with Some x => _ | None => _ end).
  assert (Ha : env_heap (add e).1 = env_heap e) by (subst add; destruct holder; [case_decide|]; done).
  destruct (add e) as [e1 [u|err]]; [|done]. cbn in Ha. rewrite <- Ha.
  unfold update_session, sbind, get_session, slift, track.
  destruct (se_tracker (en_session e1)) as [tr|]; [|done]. destruct (tracking _ m); [|done].
  destruct (keyOf m _) as [key ok]. destruct ok; [|done]. by destruct (register_ _ _ _ _ _ _).
Qed.

Lemma track_state tr R e m p :
  tracker_ok key_types tr -> in_state tr R e -> recorded tr (rev R) p ->
  keyed_instance key_types m (deref (env_heap e) p) ->
  exists tr' R', rtc effect (tr, R) (tr', R') /\ in_state tr' R' (trackJournaled ToDatabase m p e).1.
Proof.
  intros Hok [Hs Hj] Hrec Hk. unfold trackJournaled.
  destruct (tracking (en_session e) m) eqn:Et; cbn [negb].
  2:{ exists tr, R. split; [apply rtc_refl|done]. }
  pose proof (key_holder_spec tr (en_session e) m p Hok Hs Hk) as H. rewrite Hj.
  unfold track, update_session. unfold env_heap in *.
  destruct (keyOf m (deref (se_heap (en_session e)) p)) as [key ok] eqn:Ek.
  destruct H as [(-> & Hty & holder & Hh & Hf & Hlive)|[-> Hh]].
  2:{ exists tr, R. split; [apply rtc_refl|]. unfold sbind, slift, sret, get_session. rewrite Hh. cbn -[keyOf tracking].
      rewrite Hs, Et, Ek. cbn. by split. }
  assert (Hadd : exists e1, in_state tr (displaced holder p ++ R) e1 /\ en_session e1 = en_session e /\
     match holder with
     | Some x => if decide (te_ptr x <> p) then journal_add (UndoForget (te_seq x)) else sret tt
     | None => sret tt
     end e = (e1, Ok tt)).
  { unfold displaced. destruct holder as [x|]; [case_decide|]; eexists; (split; [|split; [|done]]); try done.
    split; [done|]. cbn. by rewrite Hj. }
  destruct Hadd as (e1 & [Hs1 Hj1] & He1 & Hadd).
  unfold sbind, slift, get_session. rewrite Hh, Hadd. cbn -[keyOf tracking register_]. rewrite Hs1.
  assert (Et1 : tracking (en_session e1) m = true) by (by rewrite He1). rewrite Et1.
  rewrite He1, Ek. cbn -[register_].
  destruct (snapshotOf ToDatabase m (deref (se_heap (en_session e)) p)) as [snapshot|err] eqn:Esn.
  - destruct (register_spec key_types tr m p key snapshot Hok Hty) as (tr' & Hr & _).
    unfold register_. rewrite Esn. cbn. rewrite Hr. cbn.
    exists tr', (displaced holder p ++ R). split; [|by split].
    apply rtc_once. by eapply effect_register, recorded_covered.
  - unfold register_. rewrite Esn. cbn. exists tr, (displaced holder p ++ R).
    split; [|by split].
    unfold displaced. destruct holder as [x|]; [case_decide|]; cbn; try apply rtc_refl.
    apply rtc_once, effect_keep. by apply Hlive.
Qed.

Lemma forgetEntry_effect tr R e x :
  tracker_ok key_types tr -> in_state tr R e -> live tr x ->
  exists tr' e', forgetEntryJournaled (Some x) e = (e', Ok tt) /\
    effect (tr, R) (tr', UndoForget (te_seq x) :: R) /\ in_state tr' (UndoForget (te_seq x) :: R) e'.
Proof.
  intros Hok [Hs Hj] Hx. destruct (forget_byPtr key_types tr x Hok Hx) as (tr' & Hf & _).
  unfold forgetEntryJournaled, journal_add, update_session, sbind, get_session, slift. cbn -[forget]. rewrite Hs.
  cbn -[forget]. rewrite Hf. cbn. eexists tr', _. split; [done|]. split; [by apply effect_forget|].
  split; [done|]. cbn. by rewrite Hj.
Qed.

Lemma forgetKey_effect tr R e m key :
  tracker_ok key_types tr -> in_state tr R e -> typed key_types (Type_ m) key ->
  exists tr' R' e', forgetKeyJournaled m key e = (e', Ok tt) /\ rtc effect (tr, R) (tr', R') /\
    in_state tr' R' e'.
Proof.
  intros Hok [Hs Hj] Hk. unfold forgetKeyJournaled, sbind, get_session, slift. rewrite Hs.
  destruct (find_spec key_types tr (Type_ m) key Hok Hk) as [(x & -> & Hx & _)|(-> & _)].
  - destruct (forget_byPtr key_types tr x Hok Hx) as (tr' & Hf & _).
    unfold journal_add, update_session, sbind, get_session, slift. cbn -[forget]. rewrite Hf. cbn.
    eexists tr', (UndoForget (te_seq x) :: R), _. split; [done|].
    split; [by apply rtc_once, effect_forget|]. split; [done|]. cbn. by rewrite Hj.
  - exists tr, R, e. split; [done|]. split; [apply rtc_refl|done].
Qed.

Lemma resnapshot_length m i properties s : length (resnapshot ToDatabase m i properties s).1 = length s.
Proof.
  refine (forS_preserves (fun s' => length s' = length s) _ _ _ s eq_refl). intros p _ s1 Hs1.
  unfold resnapshot_one. destruct (property_index m p); [|done]. unfold sbind, slift, sget.
  destruct (bound _ _ _ _); [|done]. cbn. case_decide; [|done]. cbn. by rewrite length_insert.
Qed.

Lemma resnapshot_state tr R e id properties :
  in_state tr R e -> (exists u, u ∈ R /\ id ∈ rewrites u) ->
  exists tr', rtc effect (tr, R) (tr', R) /\
    in_state tr' R (resnapshot_entry ToDatabase id properties e).1.
Proof.
  intros [Hs Hj] Hu. unfold resnapshot_entry. rewrite Hs.
  destruct (objects tr !! id) as [x|] eqn:Ex; [|exists tr; split; [apply rtc_refl|by split]].
  pose proof (resnapshot_length (te_m x) (deref (se_heap (en_session e)) (te_ptr x)) properties (te_snapshot x)) as Hl.
  destruct (resnapshot _ _ _ _ _) as [snapshot r]. cbn in Hl |- *.
  exists (with_snapshot tr id x snapshot). split; [|by split].
  by apply rtc_once, effect_resnapshot.
Qed.

Lemma journaled_effect tr R e e' :
  tracker_ok key_types tr -> in_state tr R e -> journaled e e' ->
  exists tr' R', rtc effect (tr, R) (tr', R') /\ in_state tr' R' e'.
Proof.
  intros Hok Hst He. pose proof Hst as [Hs Hj].
  destruct He as [e e' H1 H2|e m p Hk|e tr1 j m p Hs1 Hj1 Hrec Hk|e tr1 x Hs1 Hx|e m key Hk|e j id ps Hj1 Hu].
  - exists tr, R. split; [apply rtc_refl|]. by eapply in_state_other.
  - destruct (recordWrite_effect tr R e m p Hok Hst Hk) as (e' & R' & -> & He & Hst').
    exists tr, R'. split; [by apply rtc_once|done].
  - rewrite Hs in Hs1. injection Hs1 as <-. rewrite Hj in Hj1. injection Hj1 as <-.
    destruct (track_state tr R e m p Hok Hst Hrec Hk) as (tr' & R' & He & Hst'). by exists tr', R'.
  - rewrite Hs in Hs1. injection Hs1 as <-.
    destruct (forgetEntry_effect tr R e x Hok Hst Hx) as (tr' & e' & -> & He & Hst').
    eexists _, _. split; [by apply rtc_once|done].
  - destruct (forgetKey_effect tr R e m key Hok Hst Hk) as (tr' & R' & e' & -> & He & Hst').
    by exists tr', R'.
  - rewrite Hj in Hj1. injection Hj1 as <-.
    destruct (resnapshot_state tr R e id ps Hst) as (tr' & He & Hst').
    { destruct Hu as (u & Hin & Hid). exists u. split; [|done].
      apply list_elem_of_In. by apply list_elem_of_In, in_rev in Hin. }
    by exists tr', R.
Qed.

(** ** [rollback] runs the closures on the session *)

Lemma put_back_all_state tr R vs e : in_state tr R e -> in_state tr R (put_back_all vs e).
Proof.
  unfold put_back_all. revert e. induction vs as [|[[q p] v] vs IH]; intros e He; [done|]. cbn [fold_left].
  apply IH. revert He. apply in_state_other; cbn; unfold Set_prop, on_heap, on_session;
    by destruct (Set_at q p v (se_heap (en_session e))).
Qed.

Lemma undo_one_state tr R e u t :
  in_state tr R e -> tracker_undo u tr = Ok t ->
  exists e', undo_one u e = (e', Ok tt) /\ in_state t R e'.
Proof.
  intros Hst Hu. destruct u as [p values entry holder|id]; cbn [tracker_undo undo_one] in *.
  - unfold sbind at 1. pose proof (put_back_all_state tr R ((fun v => (p, v.1, v.2)) <$> values) e Hst) as [Hs Hj].
    set (e1 := put_back_all _ e) in *. unfold update_session, sbind, get_session, slift, with_tracker_opt.
    rewrite Hs, Hu. cbn. by eexists.
  - destruct Hst as [Hs Hj]. unfold update_session, sbind, get_session, slift, with_tracker_opt.
    rewrite Hs, Hu. cbn. by eexists.
Qed.

Lemma undo_all_state l tr R e t :
  in_state tr R e -> tracker_rollback l tr = Ok t ->
  exists e', forS undo_one l e = (e', Ok tt) /\ in_state t R e'.
Proof.
  revert tr e. induction l as [|u l IH]; intros tr e Hst Hr; [injection Hr as <-; by exists e|].
  unfold tracker_rollback in Hr. cbn [foldR] in Hr. apply bind_Ok in Hr as (t1 & H1 & Hr).
  destruct (undo_one_state tr R e u t1 Hst H1) as (e1 & He1 & Hst1). cbn [forS]. unfold sbind.
  rewrite He1. by apply (IH t1).
Qed.

Lemma rollback_state tr R e t :
  in_state tr R e -> tracker_rollback R tr = Ok t ->
  exists e', rollback e = (e', Ok tt) /\ in_state t [] e'.
Proof.
  intros Hst Hr. unfold rollback. pose proof Hst as [_ ->]. rewrite rev_involutive.
  destruct (undo_all_state R tr R e t Hst Hr) as (e' & He & [Hs Hj]). unfold sbind. rewrite He. by eexists.
Qed.

Lemma returns_rtc s0 st st' : rtc effect st st' -> returns key_types s0 st -> returns key_types s0 st'.
Proof. induction 1 as [|st1 st2 st3 H _ IH]; [done|]. intros Hr. by eapply IH, returns_effect. Qed.

Lemma journaled_returns s0 tr R e e' :
  returns key_types s0 (tr, R) -> in_state tr R e -> rtc journaled e e' ->
  exists tr' R', returns key_types s0 (tr', R') /\ in_state tr' R' e'.
Proof.
  intros Hr Hst H. revert tr R Hr Hst. induction H as [e|e1 e2 e3 H _ IH]; intros tr R Hr Hst; [by exists tr, R|].
  destruct (journaled_effect tr R e1 e2 (proj1 Hr) Hst H) as (tr' & R' & He & Hst').
  apply (IH tr' R'); [|done]. by eapply returns_rtc.
Qed.

Lemma returned_entries s0 t :
  tracker_ok key_types s0 -> tracker_ok key_types t -> rel ∅ ∅ s0 t ->
  (forall p, Tracker.entryOf t p = Tracker.entryOf s0 p) /\ all t ≡ₚ all s0.
Proof.
  intros Hok Hokt Hrel. pose proof (fun p => returns_entryOf key_types s0 t p Hok Hokt Hrel) as Hentry. split; [done|].
  apply NoDup_Permutation; [by eapply all_NoDup..|].
  intros x. rewrite !(elem_of_all key_types) by done.
  assert (Hl : forall s, tracker_ok key_types s -> live s x <-> Tracker.entryOf s (te_ptr x) = Some x).
  { intros s Hs'. rewrite (entryOf_live key_types) by done. naive_solver. }
  by rewrite !Hl, Hentry.
Qed.

(** ** The theorem *)

(** C29. A failed call gives the identity map back.  From a tracked session and
    an empty journal, let any sequence of writes have its effects on the session
    - recording instances, registering recorded ones (which may displace the
    holder of a key), forgetting entries by instance or by key, moving the
    snapshots of recorded entries - with any changes of fields, clock and
    database in between.  Then [rollback] runs to its end, the map is well
    formed, and every instance is tracked as it was, under the same key, with
    the same snapshot and registration number. *)
Theorem rollback_restores_identity_map (e e' : env) (tr : tracker) :
  se_tracker (en_session e) = Some tr -> tracker_ok key_types tr -> en_journal e = Some [] ->
  rtc journaled e e' ->
  exists e'' tr'', rollback e' = (e'', Ok tt) /\ en_journal e'' = Some [] /\
    se_tracker (en_session e'') = Some tr'' /\ tracker_ok key_types tr'' /\
    (forall p, Tracker.entryOf tr'' p = Tracker.entryOf tr p) /\ all tr'' ≡ₚ all tr.
Proof.
  intros Hs Hok Hj H.
  destruct (journaled_returns tr tr [] e e' (returns_start key_types tr Hok)) as (tr' & R & Hr & Hst); [by split|done|].
  destruct Hr as (_ & _ & t & Ht & Hokt & Hrel).
  destruct (rollback_state tr' R e' t Hst Ht) as (e'' & He & Hs2 & Hj2).
  destruct (returned_entries tr t Hok Hokt Hrel) as [Hentry Hall]. by exists e'', t.
Qed.

(** ** What leaves the session's entries and the journal alone *)

Definition kept (tr : option tracker) (j : option (list undo)) (e : env) : Prop :=
  se_tracker (en_session e) = tr /\ en_journal e = j.

Lemma kept_heap {A} tr j (m : SM heap A) : preserves (kept tr j) (on_heap m).
Proof. intros e He. unfold on_heap, on_session. by destruct (m (se_heap (en_session e))). Qed.
Lemma kept_db {A} tr j (m : SM D A) : preserves (kept tr j) (on_db m).
Proof. intros e He. unfold on_db. by destruct (m (en_db e)). Qed.
Lemma kept_tick tr j : preserves (kept tr j) next_tick.
Proof. by intros e. Qed.
Lemma kept_session tr j : preserves (kept tr j) get_session.
Proof. by intros e. Qed.
End Code.

Create HintDb kept.
#[export] Hint Resolve kept_heap kept_db kept_tick kept_session : kept.
#[export] Hint Resolve preserves_pure preserves_ret preserves_throw : kept.

(** Through binds, conditions and matches, down to the steps above. *)
Ltac kept :=
  repeat first
    [ progress intros
    | solve [auto with kept]
    | apply sbind_preserves
    | match goal with
      | |- preserves _ (match ?x with _ => _ end) => destruct x
      | |- preserves _ (if ?x then _ else _) => destruct x
      end ].

(** ** Witness: a second copy of a product takes over the first one's key *)

Definition before_write : env (D := unit) := mkEnv (mkSession two_copies (Some first_copy)) 0 (Some []) tt.
Definition after_write : env (D := unit) :=
  (trackJournaled bind_as_is product_map 2 (recordWrite product_map 2 before_write).1).1.

Lemma rollback_restores_identity_map_witness :
  Session.entryOf (en_session after_write) 1 = None /\
  exists e'' tr'', rollback after_write = (e'', Ok tt) /\ se_tracker (en_session e'') = Some tr'' /\
    te_ptr <$> Tracker.entryOf tr'' 1 = Some 1 /\ Tracker.entryOf tr'' 2 = None.
Proof.
  split; [vm_compute; reflexivity|].
  assert (Hjournaled : rtc (journaled product_keys bind_as_is) before_write after_write).
  { eapply rtc_l; [apply (journaled_record product_keys bind_as_is before_write product_map 2); by apply product_keyed|].
    apply rtc_once. eapply journaled_track; [vm_compute; reflexivity|vm_compute; reflexivity| |].
    - exists []. do 3 eexists. exists []. split; [reflexivity|].
      intros u ->%list_elem_of_singleton (h & [= <-] & _ & Ho). vm_compute in Ho. discriminate.
    - by apply product_keyed. }
  destruct (rollback_restores_identity_map product_keys bind_as_is before_write after_write first_copy
    eq_refl first_copy_ok eq_refl Hjournaled) as (e'' & tr'' & H1 & _ & H2 & _ & H3 & _).
  exists e'', tr''. split; [exact H1|]. split; [exact H2|]. rewrite !H3. split; reflexivity.
Defined.
