(* ===== verification/OperationLaws.v ===== *)
(** The operations of a flush on the journal: what each prepares leaves the
    identity map alone, and what each records, completes and forgets is an
    effect the journal undoes. *)
From S2P Require Import Prelude GoStrings Values Core Params Dialect Sqlite GeneratedSql.
From S2P Require Import Tracker Instances Session UnitOfWork Reach KeyFlow Batching Writes Journal Rollback.

Section Operations.
Context {D : Type} `{Names : NamedTypes}.
Notation env := (env (D := D)).
Context (key_types : GoType -> list KeyType) (load : GoType -> result EntityMap) (dialect : Dialect)
  (ToDatabase : Value -> ColumnType -> string -> result Value)
  (FromDatabase : Value -> FieldType -> ColumnType -> string -> result Value)
  (Clock : nat -> Z * Z) (NewGUID : nat -> Value).
Notation journaled := (journaled (D := D) key_types ToDatabase).

Section Kept.
Context (tr : option tracker) (j : option (list undo)).
Notation kept := (kept (D := D) tr j).

Lemma kept_Set_prop ptr p v : preserves kept (Set_prop ptr p v).
Proof. apply kept_heap. Qed.
Lemma kept_Get_prop ptr p : preserves kept (Get_prop ptr p).
Proof. unfold Get_prop. kept. Qed.
Lemma kept_now : preserves kept (now Clock).
Proof. unfold now. kept. Qed.

Lemma kept_put_back vs e : kept e -> kept (put_back_all vs e).
Proof.
  revert e. induction vs as [|[[q p] v] vs IH]; intros e He; [done|]. apply IH. by apply kept_Set_prop.
Qed.
Lemma kept_or_restore {A} vs (m : SM env A) : preserves kept m -> preserves kept (or_restore vs m).
Proof.
  intros Hm e He. unfold or_restore. specialize (Hm e He). destruct (m e) as [e1 [a|err]]; [done|].
  by apply kept_put_back.
Qed.
#[local] Hint Resolve kept_Set_prop kept_Get_prop kept_now kept_or_restore : kept.

Lemma kept_stampSet m ptr set : preserves kept (stampSet Clock m ptr set).
Proof. unfold stampSet. kept. Qed.
Lemma kept_fillCreatedAt m ptr : preserves kept (fillCreatedAt Clock m ptr).
Proof. unfold fillCreatedAt. kept. Qed.
Lemma kept_countedWrite t m ptr text finish undo :
  preserves kept (countedWrite dialect ToDatabase t m ptr text finish undo).
Proof. unfold countedWrite. kept. Qed.
Lemma kept_insertStatement t m ptr undo :
  preserves kept (insertStatement dialect ToDatabase FromDatabase t m ptr undo).
Proof. unfold insertStatement. kept. Qed.
Lemma kept_gate m ptr : preserves kept (gate m ptr).
Proof. unfold gate. kept. Qed.
Lemma kept_check m ptr written : preserves kept (check_navigations load m ptr written).
Proof. unfold check_navigations. kept. Qed.
Lemma kept_assignGuid m ptr : preserves kept (assignGuid NewGUID m ptr).
Proof. unfold assignGuid. kept. Qed.
Lemma kept_updateJudge t m ptr n : preserves kept (updateJudge t m ptr n).
Proof. unfold updateJudge. kept. Qed.
#[local] Hint Resolve kept_stampSet kept_fillCreatedAt kept_countedWrite kept_insertStatement kept_gate
  kept_check kept_assignGuid kept_updateJudge : kept.

Lemma kept_prepareInsert t ptr :
  preserves kept (prepareInsert load dialect ToDatabase FromDatabase Clock NewGUID t ptr).
Proof. unfold prepareInsert. kept. Qed.
Lemma kept_prepareUpdate t ptr : preserves kept (prepareUpdate load dialect ToDatabase Clock t ptr).
Proof. unfold prepareUpdate, require_writable, prepareTrackedUpdate. kept. Qed.
Lemma kept_prepareDelete t ptr : preserves kept (prepareDeleteEntity load dialect ToDatabase Clock t ptr).
Proof. unfold prepareDeleteEntity, require_writable, prepareSoftDeleteEntity. kept. Qed.
End Kept.
#[local] Hint Resolve kept_Set_prop kept_Get_prop kept_now kept_or_restore : kept.
#[local] Hint Resolve kept_stampSet kept_fillCreatedAt kept_countedWrite kept_insertStatement kept_gate
  kept_check kept_assignGuid kept_updateJudge kept_prepareInsert kept_prepareUpdate kept_prepareDelete : kept.

(** ** What a preparation returns *)

(** From a state of [I], [m] stays in [I] and returns values of [Q]. *)
Definition ensures {S A} (I : S -> Prop) (Q : A -> Prop) (m : SM S A) : Prop :=
  forall s, I s -> I (m s).1 /\ forall a, (m s).2 = Ok a -> Q a.

Lemma ensures_bind {S A B} (I : S -> Prop) (Q1 : A -> Prop) (Q : B -> Prop) (m : SM S A) k :
  ensures I Q1 m -> (forall a, Q1 a -> ensures I Q (k a)) -> ensures I Q (sbind m k).
Proof.
  intros Hm Hk s Hs. unfold sbind. destruct (Hm s Hs) as [H1 H2].
  destruct (m s) as [s1 [a|err]]; [|done]. apply Hk; [by apply H2|done].
Qed.
Lemma ensures_preserves {S A} (I : S -> Prop) (m : SM S A) : preserves I m -> ensures I (fun _ => True) m.
Proof. intros Hm s Hs. split; [by apply Hm|done]. Qed.
Lemma ensures_ret {S A} (I : S -> Prop) (Q : A -> Prop) (a : A) : Q a -> ensures I Q (sret a).
Proof. intros HQ s Hs. split; [done|]. by intros ? [= <-]. Qed.
Lemma ensures_slift {S A} (I : S -> Prop) (r : result A) : ensures I (fun a => r = Ok a) (slift r).
Proof. intros s Hs. by split. Qed.
Lemma ensures_throw {S A} (I : S -> Prop) (Q : A -> Prop) e : ensures (A := A) I Q (sthrow e).
Proof. intros s Hs. by split. Qed.

Section Prepared.
Context (tr : tracker) (j : list undo) (m : EntityMap) (p : Ptr).
Context (Hok : tracker_ok key_types tr).
Notation st := (kept (D := D) (Some tr) (Some j)).

(** Completing the write has effects the journal undoes. *)
Definition completes (f : writeResult -> SM env unit) : Prop :=
  forall result_ e, st e -> keyed_instance key_types m (deref (env_heap (f result_ e).1) p) ->
    rtc journaled e (f result_ e).1.

Definition good (w : preparedWrite (E := env)) : Prop :=
  forall f, pw_finish w = Some f -> completes f.

Lemma kept_step e e' : st e -> st e' -> journaled e e'.
Proof. intros [H1 H2] [H3 H4]. apply journaled_other; congruence. Qed.

(** A judge, then a journaled step. *)
Lemma completes_then (judge : writeResult -> SM env unit) (step : SM env unit) :
  (forall r, preserves st (judge r)) ->
  (forall e, st e -> keyed_instance key_types m (deref (env_heap (step e).1) p) -> rtc journaled e (step e).1) ->
  completes (fun r => judge r ;! step).
Proof.
  intros Hj Hs r e He. unfold sbind. specialize (Hj r e He). destruct (judge r e) as [e1 [[]|err]].
  - intros Hk. eapply rtc_l; [by apply (kept_step e e1)|]. by apply Hs.
  - intros _. by apply rtc_once, kept_step.
Qed.

Lemma completes_track (Hrec : recorded tr j p) e :
  st e -> keyed_instance key_types m (deref (env_heap (trackJournaled ToDatabase m p e).1) p) ->
  rtc journaled e (trackJournaled ToDatabase m p e).1.
Proof.
  intros [Hs Hj]. rewrite trackJournaled_heap. intros Hk. apply rtc_once. by eapply journaled_track.
Qed.

Lemma completes_resnapshot id properties e :
  (exists u, u ∈ j /\ id ∈ rewrites u) -> st e ->
  rtc journaled e (resnapshot_entry ToDatabase id properties e).1.
Proof. intros Hu [_ Hj]. apply rtc_once. by eapply journaled_resnapshot. Qed.

Lemma completes_forget entry e :
  (forall x, entry = Some x -> live tr x) -> st e -> rtc journaled e (forgetEntryJournaled entry e).1.
Proof.
  intros Hl [Hs _]. destruct entry as [x|]; [|apply rtc_refl]. apply rtc_once.
  eapply journaled_forget; [done|by apply Hl].
Qed.

Lemma counted_good t m' text finish undo :
  completes finish -> ensures st good (countedWrite dialect ToDatabase t m' p text finish undo).
Proof.
  intros Hf. unfold countedWrite. eapply ensures_bind; [apply ensures_preserves; kept|]. intros s _.
  eapply ensures_bind; [apply ensures_preserves; kept|]. intros args _.
  eapply ensures_bind; [apply ensures_preserves; kept|]. intros id _. apply ensures_ret.
  by intros f [= <-].
Qed.

Lemma or_restore_good {A} (Q : A -> Prop) vs (w : SM env A) : ensures st Q w -> ensures st Q (or_restore vs w).
Proof.
  intros Hw e He. destruct (Hw e He) as [H1 H2]. unfold or_restore.
  destruct (w e) as [e1 [a|err]]; [done|]. split; [by apply kept_put_back|done].
Qed.

(** The gate lets an instance write only its own entry. *)
Lemma gate_entry m' : ensures st (fun entry => entry = None \/ entry = Tracker.entryOf tr p) (gate m' p).
Proof.
  intros e He. split; [by apply kept_gate|]. destruct He as [Hs _]. intros entry. cbn.
  unfold writeIdentity, Session.entryOf. rewrite Hs. destruct (keyOf m' _) as [key ok].
  destruct (Tracker.entryOf tr p) as [x|] eqn:Ex.
  - destruct ok; [|done]. cbn [negb]. intros H. apply bind_Ok in H as (c & _ & H).
    destruct (negb _); [done|]. injection H as <-. by right.
  - destruct ok; cbn [negb]; [|intros [= <-]; by left]. intros H. apply bind_Ok in H as (h & _ & H).
    destruct h; [done|]. injection H as <-. by left.
Qed.

Ltac step := first [eapply ensures_bind; [apply ensures_preserves; solve [kept]|]; intros ? _].

Ltac step_pair :=
  eapply ensures_bind; [apply ensures_preserves; solve [kept]|]; intros [set stamp] _.

Section Recorded.
Context (Hload : load (Type_ m) = Ok m) (Hrec : recorded tr j p).

Lemma insert_good :
  ensures st good (prepareInsert load dialect ToDatabase FromDatabase Clock NewGUID (Type_ m) p).
Proof.
  unfold prepareInsert. eapply ensures_bind; [apply ensures_slift|]. intros m' Hm'.
  assert (m' = m) as ->.
  { unfold requireTable in Hm'. rewrite Hload in Hm'. cbn in Hm'. case_bool_decide; [done|].
    by apply Ok_inj in Hm'. }
  do 4 step. apply or_restore_good. unfold insertStatement. do 4 step. apply ensures_ret.
  intros f [= <-]. unfold finishInsert. apply (completes_then (fun r => _)).
  - intros r. kept.
  - intros e He Hk. by apply completes_track.
Qed.

Lemma update_good :
  (forall x, Tracker.entryOf tr p = Some x -> exists u, u ∈ j /\ te_seq x ∈ rewrites u) ->
  ensures st (fun o => forall w, o = Some w -> good w)
    (prepareUpdate load dialect ToDatabase Clock (Type_ m) p).
Proof.
  intros Hu. unfold prepareUpdate. eapply ensures_bind; [apply ensures_slift|]. intros m' Hm'.
  assert (m' = m) as ->.
  { apply requireWritableKeyedType_load in Hm'. rewrite Hload in Hm'. by apply Ok_inj in Hm'. }
  step. eapply ensures_bind; [apply gate_entry|]. intros entry Hentry. destruct entry as [x|].
  - unfold prepareTrackedUpdate. do 2 step. destruct (List.filter _ _) as [|q qs]; [by apply ensures_ret|].
    step_pair.
    eapply ensures_bind; [apply or_restore_good, counted_good|].
    2:{ intros w Hw. apply ensures_ret. by intros ? [= <-]. }
    apply completes_then; [intros r; kept|]. intros e He _. apply completes_resnapshot; [|done].
    apply Hu. by destruct Hentry.
  - step_pair.
    eapply ensures_bind; [apply or_restore_good, counted_good|].
    2:{ intros w Hw. apply ensures_ret. by intros ? [= <-]. }
    apply completes_then; [intros r; kept|]. intros e He Hk. by apply completes_track.
Qed.

Lemma delete_good : ensures st good (prepareDeleteEntity load dialect ToDatabase Clock (Type_ m) p).
Proof.
  unfold prepareDeleteEntity, require_writable. step. eapply ensures_bind; [apply gate_entry|]. intros entry Hentry.
  assert (Hl : forall x, entry = Some x -> live tr x).
  { intros x ->. destruct Hentry as [?|Hx]; [done|]. symmetry in Hx.
    by apply (entryOf_live key_types) in Hx as [Hx _]. }
  destruct (SoftDeleteProperty a) as [flag|].
  - unfold prepareSoftDeleteEntity. do 2 step. step_pair.
    apply or_restore_good, counted_good, completes_then; [intros r; kept|].
    intros e He _. by apply completes_forget.
  - step. apply counted_good. intros r e He _. destruct (_ =? _)%Z; [apply rtc_refl|].
    by apply completes_forget.
Qed.
End Recorded.
End Prepared.

(** ** The operations *)

(** An operation of the flush, the instance it writes, and the change of the
    fields that comes before its record: an insert takes its foreign keys. *)
Inductive flush_operation : operation (E := env) -> EntityMap -> Ptr -> (heap -> heap) -> Prop :=
  | an_insert x :
      flush_operation (insert_operation load dialect ToDatabase FromDatabase Clock NewGUID x)
        (si_m x) (si_ptr x) (fun h => (flowKeys load x h).1)
  | an_update x :
      flush_operation (update_operation load dialect ToDatabase Clock x) (te_m x) (te_ptr x) (fun h => h)
  | a_delete x :
      flush_operation (delete_operation load dialect ToDatabase Clock x) (sr_m x) (sr_ptr x) (fun h => h).

(** [m] prepares a write whose effects, and whose completion's wherever the
    statement left the session as it was, the journal undoes. *)
Definition journals (m : EntityMap) (p : Ptr) (prepare : SM env (option (preparedWrite (E := env)))) (e : env)
    : Prop :=
  rtc journaled e (prepare e).1 /\
  forall w f, (prepare e).2 = Ok (Some w) -> pw_finish w = Some f ->
    forall e2 result_, se_tracker (en_session e2) = se_tracker (en_session (prepare e).1) ->
      en_journal e2 = en_journal (prepare e).1 ->
      keyed_instance key_types m (deref (env_heap (f result_ e2).1) p) ->
      rtc journaled e2 (f result_ e2).1.

(** The record, then a preparation that keeps the session. *)
Lemma record_journals tr j m p e prepare :
  se_tracker (en_session e) = Some tr -> tracker_ok key_types tr -> en_journal e = Some j ->
  keyed_instance key_types m (deref (env_heap e) p) ->
  (forall j', recorded tr j' p ->
     (forall x, Tracker.entryOf tr p = Some x -> exists u, u ∈ j' /\ te_seq x ∈ rewrites u) ->
     ensures (kept (Some tr) (Some j')) (fun o => forall w, o = Some w -> good tr j' m p w) prepare) ->
  journals m p (recordWrite m p ;! prepare) e.
Proof.
  intros Hs Hok Hj Hk Hp.
  destruct (recordWrite_spec key_types tr j e m p Hok Hs Hj Hk) as (e1 & values & holder & He & Hse & Hl & Hje).
  assert (Hstep : journaled e e1).
  { replace e1 with (recordWrite m p e).1 by (by rewrite He). by apply journaled_record. }
  set (u := UndoWrite _ _ _ _) in Hje.
  assert (Hrec : recorded tr (j ++ [u]) p).
  { exists j, values, ((fun x => (te_seq x, te_snapshot x)) <$> Tracker.entryOf tr p), (te_seq <$> holder), [].
    split; [done|]. intros v ->%list_elem_of_singleton (h & Eh & Hne & Ho).
    destruct holder as [y|]; [|done]. injection Eh as <-. pose proof (Hl y eq_refl) as Hy.
    apply owners_lookup in Ho as (y' & Hy' & <-). destruct Hy as [Hy1 Hy2]. rewrite Hy1 in Hy'. injection Hy' as <-.
    apply Hne. by assert (Tracker.entryOf tr (te_ptr y) = Some y) as -> by (by apply (entryOf_live key_types)). }
  assert (Hst1 : kept (Some tr) (Some (j ++ [u])) e1) by (split; [by rewrite Hse|done]).
  destruct (Hp _ Hrec) with (s := e1) as [H1 H2]; [|done|].
  { intros x Hx. exists u. split; [apply elem_of_app; right; left|]. subst u. rewrite Hx. cbn. set_solver. }
  unfold journals, sbind. rewrite He. split.
  - eapply rtc_l; [exact Hstep|]. apply rtc_once. by eapply kept_step.
  - intros w f Hw Hf e2 r Hs2 Hj2 Hk2. destruct H1 as [H1s H1j].
    apply (H2 _ Hw w eq_refl f Hf r e2); [|done]. split; congruence.
Qed.

Lemma ensures_Some {S A} (I : S -> Prop) (Q : A -> Prop) (w : SM S A) :
  ensures I Q w -> ensures I (fun o => forall a, o = Some a -> Q a) (do! a <- w in sret (Some a)).
Proof.
  intros Hw. eapply ensures_bind; [exact Hw|]. intros a Ha. apply ensures_ret. by intros ? [= <-].
Qed.

(** Every effect of a flush's operations on the identity map is one the
    journal undoes: an insert, an update or a delete of a tracked session -
    the foreign keys, the record, the checks, gates and hooks, the bound
    statement, and after any statement the completion: the judged count, the
    generated key, the registration, the moved snapshot, the forgotten entry -
    whether it fails or not. *)
Lemma operation_journals (op : operation (E := env)) (m : EntityMap) (p : Ptr)
    (flow : heap -> heap) (e : env) (tr : tracker) (j : list undo) :
  flush_operation op m p flow -> load (Type_ m) = Ok m ->
  se_tracker (en_session e) = Some tr -> tracker_ok key_types tr -> en_journal e = Some j ->
  keyed_instance key_types m (deref (flow (env_heap e)) p) ->
  journals m p (op_prepare op) e.
Proof.
  intros Hop Hload Hs Hok Hj Hk. destruct Hop as [x|x|x]; cbn [op_prepare insert_operation update_operation delete_operation].
  - set (rest := recordWrite _ _ ;! _). pose proof (kept_heap (Some tr) (Some j) (flowKeys load x) e) as H1.
    assert (Hheap : env_heap (on_heap (flowKeys load x) e).1 = (flowKeys load x (env_heap e)).1).
    { unfold on_heap, on_session, env_heap. by destruct (flowKeys load x (se_heap (en_session e))). }
    unfold journals. change ((on_heap (flowKeys load x) ;! rest) e) with
      (match on_heap (flowKeys load x) e with (e1, Ok a) => rest e1 | (e1, Fail err) => (e1, Fail err) end).
    destruct (on_heap (flowKeys load x) e) as [e1 [[]|err]].
    + destruct H1 as [H1s H1j]; [done|]. cbn in Hheap, H1s, H1j. rewrite <- Hheap in Hk.
      destruct (record_journals tr j _ _ e1 (do! w <- prepareInsert load dialect ToDatabase FromDatabase Clock NewGUID
        (Type_ (si_m x)) (si_ptr x) in sret (Some w)) H1s Hok H1j Hk) as [H2 H3].
      { intros j' Hrec _. by apply ensures_Some, insert_good. }
      split; [|exact H3]. eapply rtc_l; [|exact H2]. apply (kept_step tr j); [by split|by split].
    + split; [|done]. apply rtc_once, (kept_step tr j); [by split|by apply H1].
  - apply (record_journals tr j); try done. intros j' Hrec Hu. by apply update_good.
  - apply (record_journals tr j); try done. intros j' Hrec _. by apply ensures_Some, delete_good.
Qed.
End Operations.

(** ** For the witnesses: deleting a tracked product *)

(** A program with one named type, [UserID] over [int64]. *)
Definition user_id_type : NamedTypes := fun type =>
  Converter.mkNamed (if decide (type = "UserID") then Converter.NamedInt KInt64 else Converter.NamedOther) None false.
#[local] Existing Instance user_id_type.

Definition load_product (_ : GoType) : result EntityMap := Ok product_map.
Definition fixed_clock (_ : nat) : Z * Z := (0, 0)%Z.
Definition delete_product : operation (E := env (D := unit)) :=
  delete_operation load_product Sqlite.dialect bind_as_is fixed_clock (mkRemove 1 product_map 0).
