(* ===== verification/FlushLaws.v ===== *)
(** A failed flush: with one statement to a message, whatever the statements,
    the database and the hooks answer, a flush that fails leaves the schedule
    and the identity map as it found them (the theorem of [FlushRun]).

    The journal's theorem asks for keys of their declared types wherever an
    instance is recorded or registered.  Go's static types give that; here it is
    an invariant of the heap, kept by every assignment a write makes. *)
From S2P Require Import Prelude GoStrings Values Core Params Dialect GeneratedSql Tracker Instances Session.
From S2P Require Import UnitOfWork Cascades Reach KeyFlow DependencyOrder TypeRanks Flush Batching Writes FlushRun.
From S2P Require Import Guid Converter ConverterLaws Journal Rollback OperationLaws.

(** ** Maps and instances a Go program can hold *)

(** The lookups of a map agree with its list of properties. *)
Record plain_map (m : EntityMap) : Prop := {
  pm_names : forall p q, p ∈ Properties m -> q ∈ Properties m -> PropertyName p = PropertyName q -> p = q;
  pm_keys : forall p, p ∈ KeyProperties m -> p ∈ Properties m;
  pm_version : forall p, VersionProperty m = Some p -> p ∈ Properties m;
  pm_created : forall p, CreatedAtProperty m = Some p -> p ∈ Properties m;
  pm_updated : forall p, UpdatedAtProperty m = Some p -> p ∈ Properties m;
  pm_flag : forall p, SoftDeleteProperty m = Some p -> p ∈ Properties m }.

Section Fine.
Context (key_types : GoType -> list KeyType) (load : GoType -> result EntityMap)
  (scope : EntityMap -> Ptr -> Prop).

(** The instances a flush writes, each with its type's map, and the key types of
    the maps: a value of a key property's Go type is one of its key type. *)
Record scope_ok : Prop := {
  sc_unique : forall m m' p, scope m p -> scope m' p -> m = m';
  sc_load : forall m p, scope m p -> load (Type_ m) = Ok m;
  sc_map : forall m p, scope m p -> plain_map m;
  sc_keys : forall m p, scope m p -> Forall2 (fun q k =>
    forall v, has_type v (ft_elem (PropertyType q)) = true -> real v -> of_type k v)
    (KeyProperties m) (key_types (Type_ m)) }.

Record fine (h : heap) : Prop := {
  fn_real : forall p name v, in_fields (deref h p) !! name = Some v -> real v;
  fn_typed : forall m p, scope m p -> instance_typed (Properties m) (deref h p) }.

Context (Hscope : scope_ok).

Lemma zero_field_real p : real (zero_field p).
Proof. unfold zero_field. destruct (ft_pointer _); [done|apply zero_real]. Qed.

Lemma Get_real h p q : fine h -> real (Get q (deref h p)).
Proof.
  intros Hf. assert (Hv : real (field_value q (deref h p))).
  { unfold field_value. destruct (in_fields (deref h p) !! PropertyName q) as [v|] eqn:E; [|apply zero_field_real].
    by eapply fn_real. }
  unfold Get. destruct (Owner q); [|done]. by case_match.
Qed.

Lemma fine_keyed h m p : fine h -> scope m p -> keyed_instance key_types m (deref h p).
Proof.
  intros Hf Hs. unfold keyed_instance, keyOf. cbn. intros Hn. apply negb_true_iff in Hn.
  pose proof (sc_keys Hscope m p Hs) as Hk. pose proof (sc_map Hscope m p Hs) as Hm.
  pose proof (pm_keys m Hm) as Hin. unfold typed, tuple_of, extractTuple in *.
  induction Hk as [|q k qs ks Hqk _ IH]; [constructor|].
  cbn in Hn |- *. unfold HasNull in Hn. cbn in Hn. apply orb_false_iff in Hn as [Hq Hn].
  constructor; [|apply IH; [exact Hn|intros r Hr; apply Hin; by right]].
  pose proof (Get_real h p q Hf) as Hreal.
  assert (Hty : field_typed q (field_value q (deref h p))).
  { eapply field_value_typed; [by eapply fn_typed|]. apply Hin. left. }
  assert (Hg : Get q (deref h p) = field_value q (deref h p)).
  { unfold Get in Hq |- *. destruct (Owner q); [|done]. by case_match. }
  rewrite Hg in *. destruct Hty as [[E _]|[_ Ht]]; [by rewrite E in Hq|]. by apply Hqk.
Qed.

Lemma Set_fields p v i :
  in_fields (Set_ p v i).1 = in_fields i \/
  exists w, in_fields (Set_ p v i).1 = <[PropertyName p := w]> (in_fields i) /\
    (w = zero_field p \/ (w = v /\ v <> VNil /\ has_type v (ft_elem (PropertyType p)) = true)).
Proof.
  unfold Set_, sbind, smodify, sthrow.
  set (i1 := match Owner p with Some o => allocate o i | None => i end).
  assert (H1 : in_fields i1 = in_fields i) by (subst i1; destruct (Owner p); [apply allocate_fields|done]).
  destruct (decide (v = VNil)) as [->|Hn].
  - right. exists (zero_field p). cbn. rewrite H1. auto.
  - destruct (has_type v _) eqn:Ht; cbn; [|by left]. right. exists v. rewrite H1. auto.
Qed.

Lemma fine_Set_at m ptr p v h :
  scope m ptr -> p ∈ Properties m -> real v -> fine h -> fine (Set_at ptr p v h).1.
Proof.
  intros Hs Hp Hv [F1 F2]. unfold Set_at. pose proof (Set_fields p v (deref h ptr)) as Hset.
  destruct (Set_ p v (deref h ptr)) as [i r]. cbn [fst] in *.
  assert (Hreal : forall name w, in_fields i !! name = Some w -> real w).
  { intros name w Hw. destruct Hset as [->|(w' & E & Hw')] in Hw; [by eapply F1|].
    rewrite E in Hw. apply lookup_insert_Some in Hw as [[_ <-]|[_ Hw]]; [|by eapply F1].
    destruct Hw' as [->|[-> _]]; [apply zero_field_real|done]. }
  split.
  - intros q name w. destruct (decide (q = ptr)) as [->|Hne].
    + rewrite deref_insert_eq. apply Hreal.
    + rewrite deref_insert_ne by done. apply F1.
  - intros m' q Hs'. destruct (decide (q = ptr)) as [->|Hne].
    + rewrite deref_insert_eq. pose proof (sc_unique Hscope m m' ptr Hs Hs') as <-.
      intros q w Hq Hw. destruct Hset as [E|(w' & E & Hw')]; rewrite E in Hw; [by apply (F2 m ptr Hs)|].
      apply lookup_insert_Some in Hw as [[Hn <-]|[_ Hw]]; [|by apply (F2 m ptr Hs)].
      apply (pm_names m (sc_map Hscope m ptr Hs)) in Hn; [|done|done]. subst q.
      destruct Hw' as [->|(-> & Hnil & Ht)]; [apply zero_field_typed|by right].
    + rewrite deref_insert_ne by done. by apply F2.
Qed.
End Fine.

Create HintDb fine.
#[export] Hint Resolve preserves_pure preserves_ret preserves_throw : fine.
Ltac fine :=
  repeat first
    [ progress intros
    | solve [auto with fine]
    | apply sbind_preserves
    | match goal with
      | |- preserves _ (match ?x with _ => _ end) => destruct x
      | |- preserves _ (if ?x then _ else _) => destruct x
      end ].

Section Steps.
Context {D : Type} `{Names : NamedTypes}.
Notation env := (env (D := D)).
Notation write := (preparedWrite (E := env)).
Context (key_types : GoType -> list KeyType) (load : GoType -> result EntityMap) (dialect : Dialect)
  (ToDatabase : Value -> ColumnType -> string -> result Value)
  (FromDatabase : Value -> FieldType -> ColumnType -> string -> result Value)
  (Clock : nat -> Z * Z) (NewGUID : nat -> Value).
Context (scope : EntityMap -> Ptr -> Prop) (Hscope : scope_ok key_types load scope).
(** The converter and the generator return values a Go program can hold. *)
Context (HFrom : forall v ty ct label w, FromDatabase v ty ct label = Ok w -> real w)
  (HGuid : forall n, real (NewGUID n)).
Notation fine := (fine scope).
Definition fine_env (e : env) : Prop := fine (env_heap e).

Lemma fine_same_heap {A} (m : SM env A) :
  (forall e, env_heap (m e).1 = env_heap e) -> preserves fine_env m.
Proof. intros Hm e He. unfold fine_env. by rewrite Hm. Qed.

Lemma fine_db {A} (m : SM D A) : preserves fine_env (on_db m).
Proof. apply fine_same_heap. intros e. unfold on_db. by destruct (m (en_db e)). Qed.
Lemma fine_tick : preserves fine_env next_tick.
Proof. by apply fine_same_heap. Qed.
Lemma fine_session : preserves fine_env get_session.
Proof. by apply fine_same_heap. Qed.
Lemma fine_Get_prop ptr p : preserves fine_env (Get_prop ptr p).
Proof. by apply fine_same_heap. Qed.
Lemma fine_update_session f :
  (forall s s', f s = Ok s' -> se_heap s' = se_heap s) -> preserves fine_env (update_session f).
Proof.
  intros Hf. apply fine_same_heap. intros e. unfold update_session, sbind, get_session, slift.
  destruct (f (en_session e)) as [s'|] eqn:E; [|done]. cbn. by apply Hf.
Qed.

Lemma with_tracker_heap s (f : result tracker) s' :
  (let* tr := f in Ok (with_tracker s tr)) = Ok s' -> se_heap s' = se_heap s.
Proof. intros H. apply bind_Ok in H as (tr & _ & H). by apply Ok_inj in H as <-. Qed.

Lemma fine_forget entry : preserves fine_env (forgetEntryJournaled entry).
Proof.
  apply fine_same_heap. intros e. unfold forgetEntryJournaled. destruct entry as [x|]; [|done].
  unfold journal_add, update_session, sbind, get_session, slift. cbn -[forget].
  destruct (se_tracker (en_session e)); [|done]. cbn -[forget]. by destruct (forget _ _).
Qed.
Lemma fine_track m ptr : preserves fine_env (trackJournaled ToDatabase m ptr).
Proof. apply fine_same_heap. intros e. apply trackJournaled_heap. Qed.
Lemma fine_resnapshot id ps : preserves fine_env (resnapshot_entry ToDatabase id ps).
Proof.
  apply fine_same_heap. intros e. unfold resnapshot_entry. destruct (se_tracker _) as [tr|]; [|done].
  destruct (objects tr !! id); [|done]. by destruct (resnapshot _ _ _ _ _).
Qed.
Lemma fine_record m ptr : preserves fine_env (recordWrite m ptr).
Proof.
  apply fine_same_heap. intros e. unfold recordWrite. destruct (en_journal e); [|done].
  unfold sbind, slift. by destruct (key_holder _ _ _).
Qed.
Lemma fine_now : preserves fine_env (now Clock).
Proof.
  unfold now. apply sbind_preserves; [apply fine_tick|]. intros n. destruct (Clock n).
  destruct (negb _); [apply preserves_throw|apply preserves_ret].
Qed.
#[local] Hint Resolve fine_db fine_tick fine_session fine_Get_prop fine_forget fine_track fine_resnapshot
  fine_record fine_now : fine.

Section Instance.
Context (m : EntityMap) (ptr : Ptr) (Hs : scope m ptr).

Lemma fine_Set_prop p v : p ∈ Properties m -> real v -> preserves fine_env (Set_prop ptr p v).
Proof.
  intros Hp Hv e He. unfold fine_env, Set_prop, on_heap, on_session, env_heap in *.
  pose proof (fine_Set_at key_types load scope Hscope m ptr p v _ Hs Hp Hv He) as Hf.
  by destruct (Set_at ptr p v (se_heap (en_session e))).
Qed.

(** Restores of values read from the instance. *)
Definition fine_priors (vs : list prior_value) : Prop :=
  Forall (fun v : prior_value => v.1.1 = ptr /\ v.1.2 ∈ Properties m /\ real v.2) vs.

Lemma fine_put_back vs e : fine_priors vs -> fine_env e -> fine_env (put_back_all vs e).
Proof.
  intros Hvs. revert e. induction Hvs as [|[[q p] v] vs (E & Hp & Hv) _ IH]; intros e He; [done|].
  cbn in E, Hp, Hv. subst q. unfold put_back_all. cbn. apply IH. by apply fine_Set_prop.
Qed.
Lemma fine_or_restore {A} vs (m1 : SM env A) :
  fine_priors vs -> preserves fine_env m1 -> preserves fine_env (or_restore vs m1).
Proof.
  intros Hvs Hm e He. unfold or_restore. specialize (Hm e He). destruct (m1 e) as [e1 [a|err]]; [done|].
  by apply fine_put_back.
Qed.

Lemma Get_prop_real p : ensures fine_env (fun v => real v) (Get_prop ptr p).
Proof. intros e He. split; [done|]. intros v [= <-]. by eapply (Get_real scope). Qed.

Lemma fine_fill : ensures fine_env fine_priors (fillCreatedAt Clock m ptr).
Proof.
  unfold fillCreatedAt. destruct (CreatedAtProperty m) as [p|] eqn:Ep; [|by apply ensures_ret, Forall_nil].
  assert (Hp : p ∈ Properties m) by (by apply (pm_created m (sc_map _ _ _ Hscope m ptr Hs))).
  eapply ensures_bind; [apply Get_prop_real|]. intros prior Hprior.
  destruct (negb _); [by apply ensures_ret, Forall_nil|].
  eapply (ensures_bind _ (fun v => real v)).
  { intros e He. split; [by apply fine_now|]. unfold now, sbind, next_tick. destruct (Clock _).
    destruct (negb _); [done|]. by intros v [= <-]. }
  intros instant Hi. eapply ensures_bind; [by apply ensures_preserves, fine_Set_prop|].
  intros _ _. apply ensures_ret. by repeat constructor.
Qed.

Lemma fine_stamp set : ensures fine_env (fun r => fine_priors r.2) (stampSet Clock m ptr set).
Proof.
  unfold stampSet. destruct (UpdatedAtProperty m) as [p|] eqn:Ep; [|by apply ensures_ret, Forall_nil].
  assert (Hp : p ∈ Properties m) by (by apply (pm_updated m (sc_map _ _ _ Hscope m ptr Hs))).
  eapply (ensures_bind _ (fun v => real v)).
  { intros e He. split; [by apply fine_now|]. unfold now, sbind, next_tick. destruct (Clock _).
    destruct (negb _); [done|]. by intros v [= <-]. }
  intros instant Hi. eapply ensures_bind; [apply Get_prop_real|]. intros prior Hprior.
  eapply ensures_bind; [by apply ensures_preserves, fine_Set_prop|].
  intros _ _. apply ensures_ret. by repeat constructor.
Qed.

(** ** Completions *)

Definition fine_finish (w : write) : Prop :=
  forall f, pw_finish w = Some f -> forall r, preserves fine_env (f r).

Lemma wrap_real k z : real (VInt k (wrap k z)).
Proof. apply wrap_bounds. Qed.

Lemma fine_judge t n : preserves fine_env (updateJudge t m ptr n).
Proof.
  unfold updateJudge. destruct (VersionProperty m) as [p|] eqn:Ep; destruct (_ =? 0)%Z;
    try apply preserves_ret; try apply preserves_throw.
  assert (Hp : p ∈ Properties m) by (by apply (pm_version m (sc_map _ _ _ Hscope m ptr Hs))).
  apply sbind_preserves; [fine|]. intros v. apply sbind_preserves; [fine|]. intros current.
  intros e He. unfold sbind, slift. destruct (fromInt64 _ _) as [w|err] eqn:E; [|done].
  apply fine_Set_prop; [done| |done]. unfold fromInt64 in E. destruct (integer_kind _) as [k|]; [|done].
  apply Ok_inj in E as <-. destruct (ft_elem _); [apply wrap_real..|done].
Qed.
#[local] Hint Resolve fine_judge : fine.

Lemma fine_counted m' t text finish undo :
  (forall r, preserves fine_env (finish r)) ->
  ensures fine_env fine_finish (countedWrite dialect ToDatabase t m' ptr text finish undo).
Proof.
  intros Hf. unfold countedWrite. eapply ensures_bind; [apply ensures_preserves; fine|]. intros s _.
  eapply ensures_bind; [apply ensures_preserves; fine|]. intros args _.
  eapply ensures_bind; [apply ensures_preserves; fine|]. intros id _. apply ensures_ret.
  by intros f [= <-].
Qed.

Lemma ensures_or_restore {A} (Q : A -> Prop) vs (w : SM env A) :
  fine_priors vs -> ensures fine_env Q w -> ensures fine_env Q (or_restore vs w).
Proof.
  intros Hvs Hw e He. destruct (Hw e He) as [H1 H2]. unfold or_restore.
  destruct (w e) as [e1 [a|err]]; [done|]. split; [by apply fine_put_back|done].
Qed.

Context (Hload : load (Type_ m) = Ok m).

Lemma loaded_is_m m' : requireWritableKeyedType load (Type_ m) = Ok m' -> m' = m.
Proof. intros H%requireWritableKeyedType_load. rewrite Hload in H. by apply Ok_inj in H. Qed.

Lemma fine_insert :
  ensures fine_env fine_finish (prepareInsert load dialect ToDatabase FromDatabase Clock NewGUID (Type_ m) ptr).
Proof.
  pose proof (sc_map _ _ _ Hscope m ptr Hs) as Hm.
  unfold prepareInsert. eapply ensures_bind; [apply ensures_slift|]. intros m' Hm'.
  assert (m' = m) as ->.
  { unfold requireTable in Hm'. rewrite Hload in Hm'. cbn in Hm'. case_bool_decide; [done|].
    by apply Ok_inj in Hm'. }
  eapply ensures_bind; [apply ensures_preserves; unfold check_navigations; fine|]. intros _ _.
  eapply ensures_bind.
  { apply ensures_preserves. unfold assignGuid. case_bool_decide; [|fine].
    destruct (KeyProperties m) as [|q qs] eqn:Eq; [fine|].
    assert (Hq : q ∈ Properties m) by (apply (pm_keys m Hm); rewrite Eq; left).
    apply sbind_preserves; [fine|]. intros v. case_bool_decide; [|fine].
    apply sbind_preserves; [fine|]. intros n. by apply fine_Set_prop. }
  intros _ _. eapply ensures_bind; [apply ensures_preserves; unfold gate; fine|]. intros _ _.
  eapply ensures_bind; [apply fine_fill|]. intros filled Hfilled. apply ensures_or_restore; [done|].
  unfold insertStatement. eapply ensures_bind; [apply ensures_preserves; fine|]. intros text _.
  eapply ensures_bind; [apply ensures_preserves; fine|]. intros s _.
  eapply ensures_bind; [apply ensures_preserves; fine|]. intros args _.
  eapply ensures_bind; [apply ensures_preserves; fine|]. intros id _. apply ensures_ret.
  intros f [= <-] r. unfold finishInsert. apply sbind_preserves; [|fine].
  destruct (generated_key m); [|fine]. destruct (KeyProperties m) as [|q qs] eqn:Eq; [fine|].
  assert (Hq : q ∈ Properties m) by (apply (pm_keys m Hm); rewrite Eq; left).
  intros e He. unfold sbind, slift. destruct (FromDatabase _ _ _ _) as [v|err] eqn:E; [|done].
  apply fine_Set_prop; [done|by eapply HFrom|done].
Qed.

Lemma fine_update :
  ensures fine_env (fun o => forall w, o = Some w -> fine_finish w)
    (prepareUpdate load dialect ToDatabase Clock (Type_ m) ptr).
Proof.
  unfold prepareUpdate, require_writable. eapply ensures_bind; [apply ensures_slift|]. intros m' Hm'.
  apply loaded_is_m in Hm' as ->.
  eapply ensures_bind; [apply ensures_preserves; unfold check_navigations; fine|]. intros _ _.
  eapply ensures_bind; [apply ensures_preserves; unfold gate; fine|]. intros entry _.
  destruct entry as [x|].
  - unfold prepareTrackedUpdate. eapply ensures_bind; [apply ensures_preserves; fine|]. intros s _.
    eapply ensures_bind; [apply ensures_preserves; fine|]. intros l _.
    destruct (List.filter _ _) as [|q qs]; [by apply ensures_ret|].
    eapply ensures_bind; [apply fine_stamp|]. intros [set stamp] Hstamp.
    eapply ensures_bind; [apply ensures_or_restore; [exact Hstamp|apply fine_counted; fine]|].
    intros w Hw. apply ensures_ret. by intros ? [= <-].
  - eapply ensures_bind; [apply fine_stamp|]. intros [set stamp] Hstamp.
    eapply ensures_bind; [apply ensures_or_restore; [exact Hstamp|apply fine_counted; fine]|].
    intros w Hw. apply ensures_ret. by intros ? [= <-].
Qed.

Lemma fine_delete :
  ensures fine_env fine_finish (prepareDeleteEntity load dialect ToDatabase Clock (Type_ m) ptr).
Proof.
  pose proof (sc_map _ _ _ Hscope m ptr Hs) as Hm.
  unfold prepareDeleteEntity, require_writable. eapply ensures_bind; [apply ensures_slift|]. intros m' Hm'.
  apply loaded_is_m in Hm' as ->.
  eapply ensures_bind; [apply ensures_preserves; unfold gate; fine|]. intros entry _.
  destruct (SoftDeleteProperty m) as [flag|] eqn:Ef.
  - assert (Hflag : flag ∈ Properties m) by (by apply (pm_flag m Hm)).
    unfold prepareSoftDeleteEntity. eapply ensures_bind; [apply Get_prop_real|]. intros prior Hprior.
    eapply ensures_bind; [by apply ensures_preserves, fine_Set_prop|]. intros _ _.
    eapply ensures_bind; [apply ensures_or_restore; [by repeat constructor|apply fine_stamp]|].
    intros [set stamp] Hstamp. apply ensures_or_restore; [by constructor|]. apply fine_counted. fine.
  - eapply ensures_bind; [apply ensures_preserves; fine|]. intros text _. apply fine_counted. fine.
Qed.
End Instance.

Lemma fine_flowKeys x : scope (si_m x) (si_ptr x) -> preserves fine_env (on_heap (flowKeys load x)).
Proof.
  intros Hs. assert (Hh : preserves fine (flowKeys load x)).
  { assert (Hcopy : forall m' p names, preserves fine (copyKey m' p (si_m x) (si_ptr x) names)).
    { intros m' p names. unfold copyKey. destruct (negb _); [apply preserves_ret|].
      apply forS_preserves. intros part _. unfold copy_part.
      destruct (Property (si_m x) part.2) as [q|] eqn:Eq; [|apply preserves_throw].
      apply Property_Some in Eq as [Hq _]. intros h Hh. unfold sbind, sget.
      eapply fine_Set_at; [exact Hscope|exact Hs|exact Hq|by eapply Get_real|exact Hh]. }
    unfold flowKeys. apply sbind_preserves; [|intros _]; apply forS_preserves; intros y _.
    - unfold flow_navigation. destruct (negb _); [apply preserves_ret|]. intros h Hh. unfold sbind, sget.
      destruct ((navigationTargets _ _).1) as [|target ?]; [done|].
      apply (sbind_preserves fine); [apply preserves_pure| |done]. intros tm. apply Hcopy.
    - unfold flow_link. destruct (negb _); [apply preserves_ret|apply Hcopy]. }
  intros e He. unfold on_heap, on_session, fine_env, env_heap in *. specialize (Hh _ He).
  by destruct (flowKeys load x (se_heap (en_session e))).
Qed.
End Steps.

(** ** The run *)

Section Run.
Context {D : Type} `{Names : NamedTypes}.
Notation env := (env (D := D)).
Notation write := (preparedWrite (E := env)).
Notation call := (batchCall (E := env)).
Context (key_types : GoType -> list KeyType) (load : GoType -> result EntityMap) (dialect : Dialect)
  (ToDatabase : Value -> ColumnType -> string -> result Value)
  (FromDatabase : Value -> FieldType -> ColumnType -> string -> result Value)
  (Clock : nat -> Z * Z) (NewGUID : nat -> Value) (types : nat).
Context (ctx_Err : D -> option Error) (BeginTx CommitTx RollbackTx : SM D unit)
  (driver_exec : string -> list NamedArg -> SM D (result Z))
  (driver_scalar : string -> list NamedArg -> SM D (option Value))
  (driver_message : option (list write -> SM D (list writeResult))) (maxStatements : Z).
Context (scope : EntityMap -> Ptr -> Prop) (Hscope : scope_ok key_types load scope).
Context (HFrom : forall v ty ct label w, FromDatabase v ty ct label = Ok w -> real w)
  (HGuid : forall n, real (NewGUID n)).
Notation journaled := (journaled (D := D) key_types ToDatabase).
Notation fine_env := (fine_env (D := D) scope).

Context (e0 : env) (tr0 : tracker) (Htr0 : se_tracker (en_session e0) = Some tr0)
  (Hok0 : tracker_ok key_types tr0) (Hj0 : en_journal e0 = Some []).

(** The call's effects so far are journaled, its heap is fine. *)
Definition running (e : env) : Prop := rtc journaled e0 e /\ fine_env e.

Lemma running_tracked e :
  running e -> exists tr j, se_tracker (en_session e) = Some tr /\ tracker_ok key_types tr /\ en_journal e = Some j.
Proof.
  intros [H _].
  destruct (journaled_returns key_types ToDatabase tr0 tr0 [] e0 e (returns_start key_types tr0 Hok0))
    as (tr & R & Hr & Hs & Hj); [by split|done|]. exists tr, (rev R). by split; [|split; [apply Hr|]].
Qed.

(** Only the database, the clock and the fields may have moved. *)
Definition same_session (e e' : env) : Prop := en_session e' = en_session e /\ en_journal e' = en_journal e.

Lemma running_same e e' : running e -> same_session e e' -> running e'.
Proof.
  intros [H1 H2] [H3 H4]. split; [|by unfold FlushLaws.fine_env, env_heap in *; rewrite H3].
  eapply rtc_r; [exact H1|]. apply journaled_other; congruence.
Qed.

(** A prepared write whose completion, once its statement ran, keeps running. *)
Definition ready (e1 : env) (w : write) : Prop :=
  forall f, pw_finish w = Some f -> forall e2 r, same_session e1 e2 -> running (f r e2).1.

Definition in_scope (op : operation (E := env)) : Prop :=
  exists m p flow, flush_operation load dialect ToDatabase FromDatabase Clock NewGUID op m p flow /\ scope m p.

Lemma fine_prepare op m p flow :
  flush_operation load dialect ToDatabase FromDatabase Clock NewGUID op m p flow -> scope m p ->
  ensures fine_env (fun o => forall w, o = Some w -> fine_finish scope w) (op_prepare op) /\
  forall h, fine scope h -> fine scope (flow h).
Proof.
  intros Hop Hs. pose proof (sc_load _ _ _ Hscope m p Hs) as Hload. destruct Hop as [x|x|x]; cbn [op_prepare].
  - split.
    + unfold insert_operation. cbn [op_prepare].
      eapply ensures_bind; [by eapply ensures_preserves, fine_flowKeys|]. intros _ _.
      eapply ensures_bind; [apply ensures_preserves, fine_record|]. intros _ _.
      apply ensures_Some. by eapply fine_insert.
    + intros h Hh. pose proof (fine_flowKeys key_types load scope Hscope x Hs (mkEnv (mkSession h None) 0 None tt) Hh) as Hf.
      unfold on_heap, on_session, FlushLaws.fine_env, env_heap in Hf. cbn in Hf.
      by destruct (flowKeys load x h).
  - split; [|done]. unfold update_operation. cbn [op_prepare].
    eapply ensures_bind; [apply ensures_preserves, fine_record|]. intros _ _. by eapply fine_update.
  - split; [|done]. unfold delete_operation. cbn [op_prepare].
    eapply ensures_bind; [apply ensures_preserves, fine_record|]. intros _ _.
    apply ensures_Some. by eapply fine_delete.
Qed.

Lemma prepare_running op e :
  in_scope op -> running e ->
  running (op_prepare op e).1 /\
  forall w, (op_prepare op e).2 = Ok (Some w) -> ready (op_prepare op e).1 w.
Proof.
  intros (m & p & flow & Hop & Hs) He. pose proof He as [Hrun Hfine].
  destruct (running_tracked e He) as (tr & j & Htr & Hok & Hj).
  destruct (fine_prepare op m p flow Hop Hs) as [Hens Hflow].
  assert (Hk : keyed_instance key_types m (deref (flow (env_heap e)) p)).
  { eapply fine_keyed; [exact Hscope|by apply Hflow|exact Hs]. }
  destruct (operation_journals key_types load dialect ToDatabase FromDatabase Clock NewGUID op m p flow e tr j
    Hop (sc_load _ _ _ Hscope m p Hs) Htr Hok Hj Hk) as [H1 H2].
  destruct (Hens e Hfine) as [Hf1 Hf2].
  split; [split; [by etrans|exact Hf1]|]. intros w Hw f Hf e2 r Hsame.
  assert (He2 : running e2) by (eapply running_same; [|exact Hsame]; split; [by etrans|done]).
  assert (Hfin : fine_env (f r e2).1) by (eapply (Hf2 _ Hw w eq_refl f Hf); apply He2).
  split; [|exact Hfin]. etrans; [apply He2|]. apply (H2 w f Hw Hf).
  - by rewrite (proj1 Hsame).
  - apply Hsame.
  - eapply fine_keyed; [exact Hscope|exact Hfin|exact Hs].
Qed.

Lemma runWrite_same (w : write) (e : env) : same_session e (runWrite driver_exec driver_scalar w e).1.
Proof.
  assert (H : preserves (same_session e) (runWrite driver_exec driver_scalar w)); [|by apply H].
  assert (Hdb : forall A (m : SM D A), preserves (same_session e) (on_db m)).
  { intros A m e1 He1. unfold on_db. by destruct (m (en_db e1)). }
  unfold runWrite. destruct (pw_kind w); repeat (apply sbind_preserves; [first [apply Hdb|apply preserves_pure]|intros ?]);
    try apply Hdb; repeat case_match; try apply preserves_ret; try apply preserves_throw.
  apply sbind_preserves; [apply preserves_pure|]. intros n. apply preserves_ret.
Qed.

Notation feed_ := (feed env_heap (fun e => ctx_Err (en_db e)) (SendMessage driver_message) (runWrite driver_exec driver_scalar)).
Notation feed_all_ := (feed_all env_heap (fun e => ctx_Err (en_db e)) (SendMessage driver_message) (runWrite driver_exec driver_scalar)).
Notation send_ := (send (fun e => ctx_Err (en_db e)) (SendMessage driver_message) (runWrite driver_exec driver_scalar)).

(** Between operations of a call without batching: no message in progress. *)
Definition between (st : call * env) : Prop :=
  bc_auto st.1 = false /\ ms_writes (bc_current st.1) = [] /\ running st.2.

Lemma complete_between c e w r e2 :
  bc_auto c = false -> ms_writes (bc_current c) = [] -> ready e w -> running e -> same_session e e2 ->
  between (complete w r (c, e2)).1.
Proof.
  intros Ha Hw Hr He Hsame. unfold complete, sbind, on_env, on_call.
  assert (Hrec : forall e3, running e3 -> between (record_affected w r c, e3)).
  { intros e3 He3. unfold record_affected. by destruct (pw_kind w). }
  destruct (pw_finish w) as [f|] eqn:Ef.
  - specialize (Hr f Ef e2 r Hsame). destruct (f r e2) as [e3 [[]|err]]; [by apply Hrec|done].
  - cbn. apply Hrec. by eapply running_same.
Qed.

Lemma send_one c e w :
  bc_auto c = false -> ms_writes (bc_current c) = [w] -> ready e w -> running e -> between (send_ (c, e)).1.
Proof.
  intros Ha Hw Hr He. unfold send, take_message, sbind at 1. rewrite Hw. unfold sget, sbind at 1.
  set (c1 := mkCall _ _ _ _ _ _).
  assert (Hc1 : between (c1, e)) by done.
  destruct (ctx_Err (en_db e)); [done|].
  unfold SendMessage. destruct driver_message as [dm|]; cbn.
  - unfold sbind, on_env, on_db. destruct (dm [w] (en_db e)) as [d [rs|err]]; cbn.
    + destruct rs as [|r rs]; [split; [done|split; [done|by eapply running_same]]|].
      pose proof (complete_between c1 e w r (mkEnv (en_session e) (en_ticks e) (en_journal e) d) Ha eq_refl Hr He
        (conj eq_refl eq_refl)) as Hb.
      unfold complete_all. unfold sbind in Hb |- *. by destruct (complete w r _) as [[c2 e2] [[]|err]].
    + split; [done|]. split; [done|]. by eapply running_same.
  - unfold sbind, on_env. pose proof (runWrite_same w e) as Hsame.
    destruct (runWrite driver_exec driver_scalar w e) as [e2 [r|err]]; cbn [fst] in Hsame.
    + pose proof (complete_between c1 e w r e2 Ha eq_refl Hr He Hsame) as Hb.
      by destruct (complete w r (c1, e2)) as [[c2 e3] [[]|err]].
    + split; [done|]. split; [done|]. by eapply running_same.
Qed.

Lemma feed_between op : in_scope op -> preserves between (feed_ op).
Proof.
  intros Hop [c e] (Ha & Hw & He). cbn [fst snd] in *. unfold feed, sget, slift, sbind at 1 2.
  destruct (op_subject op e) as [s|err]; [|done].
  assert (Hbefore : before env_heap (fun e => ctx_Err (en_db e)) (SendMessage driver_message)
            (runWrite driver_exec driver_scalar) s (c, e) = ((c, e), Ok tt)).
  { unfold before, sget, sbind. by rewrite Hw. }
  unfold sbind at 1. rewrite Hbefore. unfold sbind at 1, on_env at 1.
  destruct (prepare_running op e Hop He) as [H1 H2]. destruct (op_prepare op e) as [e1 [[w|]|err]]; [|done..].
  specialize (H2 w eq_refl). cbn [fst] in *.
  unfold add, sget. unfold sbind at 1 2 3. unfold must_flush. rewrite Hw. unfold sret at 1.
  unfold sbind at 1. unfold sbind at 1, on_call. unfold sbind at 1.
  match goal with |- context [is_full ?c'] => set (c2 := c') end.
  assert (Hfull : is_full c2 = true) by (unfold is_full; subst c2; cbn; by rewrite Ha). rewrite Hfull.
  assert (Hb : between (send_ (c2, e1)).1).
  { apply (send_one c2 e1 w); [done| |done|done]. subst c2. cbn. by rewrite Hw. }
  by destruct (send_ (c2, e1)) as [st [[]|err]].
Qed.

Lemma feed_all_between ops : (forall op, op ∈ ops -> in_scope op) -> preserves between (feed_all_ ops).
Proof.
  induction ops as [|op ops IH]; intros Hops; [apply preserves_ret|]. cbn [feed_all].
  apply sbind_preserves; [apply feed_between, Hops; left|]. intros w.
  apply sbind_preserves; [apply IH; intros op' Hop'; apply Hops; by right|]. intros ws. apply preserves_ret.
Qed.

Lemma send_nothing : preserves between send_.
Proof.
  intros [c e] (Ha & Hw & He). unfold send, take_message, sbind. cbn [fst snd] in *. rewrite Hw. done.
Qed.

Notation run_plan_ := (run_plan load dialect ToDatabase FromDatabase Clock NewGUID ctx_Err driver_exec driver_scalar
  driver_message false maxStatements).

Lemma run_plan_running p e :
  (forall op, op ∈ flush_inserts load dialect ToDatabase FromDatabase Clock NewGUID p ++
      flush_updates load dialect ToDatabase Clock p ++ flush_deletes load dialect ToDatabase Clock p -> in_scope op) ->
  running e -> running (run_plan_ p e).1.
Proof.
  intros Hops He. unfold run_plan, executeFlush.
  set (exec := sbind _ _). assert (Hp : preserves between exec).
  { subst exec. apply sbind_preserves; [apply feed_all_between; intros op Hop; apply Hops; set_solver|]. intros i.
    apply sbind_preserves; [apply feed_all_between; intros op Hop; apply Hops; set_solver|]. intros w.
    apply sbind_preserves; [apply feed_all_between; intros op Hop; apply Hops; set_solver|]. intros d.
    apply sbind_preserves; [apply send_nothing|]. intros _. apply preserves_ret. }
  assert (Hb : between (flush_call dialect false maxStatements, e)) by done.
  specialize (Hp _ Hb). destruct (exec _) as [[c e'] r]. apply Hp.
Qed.

(** Rolled back, the identity map is the one the flush found. *)
Definition same_map (e' : env) : Prop :=
  exists tr', se_tracker (en_session e') = Some tr' /\ tracker_ok key_types tr' /\
    (forall p, Tracker.entryOf tr' p = Tracker.entryOf tr0 p) /\ all tr' ≡ₚ all tr0.

Lemma rolled_back e : running e -> same_map (rollback e).1.
Proof.
  intros [H _].
  destruct (journaled_returns key_types ToDatabase tr0 tr0 [] e0 e (returns_start key_types tr0 Hok0))
    as (tr & R & (_ & _ & t & Ht & Hokt & Hrel) & Hst); [by split|done|].
  destruct (rollback_state tr R e t Hst Ht) as (e2 & He2 & Hs2 & _). rewrite He2. cbn [fst].
  destruct (returned_entries key_types tr0 t Hok0 Hokt Hrel) as [Hentry Hall]. by exists t.
Qed.
End Run.

(** ** The schedule's instances *)

(** What a flush may write: the scheduled and the tracked instances. *)
Definition scheduled (u : unitOfWork) (tr : tracker) (m : EntityMap) (p : Ptr) : Prop :=
  (exists x, x ∈ insert_objects u /\ si_m x = m /\ si_ptr x = p) \/
  (exists x, live tr x /\ te_m x = m /\ te_ptr x = p) \/
  (exists x, x ∈ uw_removes u /\ sr_m x = m /\ sr_ptr x = p).

Lemma pick_elem {A} (items : list A) order x : x ∈ pick items order -> x ∈ items.
Proof. unfold pick. intros (i & _ & Hi)%list_elem_of_omap. by eapply list_elem_of_lookup_2. Qed.

Lemma dirtyEntries_live key_types ToDatabase s tr u l x :
  tracker_ok key_types tr -> dirtyEntries s ToDatabase tr u = Ok l -> x ∈ l -> live tr x.
Proof.
  intros Hok Hl Hx. apply (elem_of_all key_types); [done|].
  refine (foldR_inv (fun l => forall x, x ∈ l -> x ∈ all tr) _ _ _ _ _ _ Hl x Hx).
  - by intros y ?%not_elem_of_nil.
  - intros l1 y l2 Hy H1 H2 z Hz. unfold dirty_step in H2. destruct (uw_removeOf u !! te_ptr y).
    + apply Ok_inj in H2 as <-. by apply H1.
    + apply bind_Ok in H2 as (c & _ & H2). apply Ok_inj in H2 as <-. destruct (hasWritableColumn c); [|by apply H1].
      apply elem_of_app in Hz as [Hz|Hz%list_elem_of_singleton]; [by apply H1|by subst].
Qed.

Lemma planFlush_scheduled key_types load ToDatabase types s u tr p :
  se_tracker s = Some tr -> tracker_ok key_types tr -> planFlush load ToDatabase types s u = Ok p ->
  (forall x, x ∈ fp_inserts p -> scheduled u tr (si_m x) (si_ptr x)) /\
  (forall x, x ∈ fp_dirty p -> scheduled u tr (te_m x) (te_ptr x)) /\
  (forall x, x ∈ fp_deletes p -> scheduled u tr (sr_m x) (sr_ptr x)).
Proof.
  intros Hs Hok Hp. unfold planFlush in Hp. rewrite Hs in Hp.
  destruct (pendingWork s u) as [inserts removes] eqn:Ew. unfold pendingWork in Ew. injection Ew as Ei Er.
  apply bind_Ok in Hp as (dirty & Hd & Hp). apply bind_Ok in Hp as (ranks & _ & Hp).
  apply bind_Ok in Hp as (oi & Hi & Hp). apply bind_Ok in Hp as (od & Ho & Hp).
  apply Ok_inj in Hp as <-. cbn. split_and!; intros x Hx.
  - left. exists x. split; [|done]. unfold orderInserts in Hi. destruct (dependencyOrder _ _ _) as [order ok].
    destruct ok; [|done]. apply Ok_inj in Hi as <-. apply pick_elem in Hx. subst inserts.
    apply list_elem_of_In in Hx. apply List.filter_In in Hx as [Hx _]. by apply list_elem_of_In.
  - right. left. exists x. split; [|done]. unfold sort_dirty in Hx. rewrite merge_sort_Permutation in Hx.
    by eapply dirtyEntries_live.
  - right. right. exists x. split; [|done]. unfold orderDeletes in Ho. destruct (dependencyOrder _ _ _) as [order ok].
    destruct ok; [|done]. apply Ok_inj in Ho as <-. apply pick_elem in Hx. subst removes.
    apply list_elem_of_In in Hx. apply List.filter_In in Hx as [Hx _]. by apply list_elem_of_In.
Qed.

(** C28. A failed flush can be flushed again: with one statement to a message,
    when a flush of a tracked session fails - the plan refuses, the transaction
    does not begin or commit, a check, a hook or a conversion refuses, a
    statement fails or changes no row - the schedule is untouched and every
    tracked instance is tracked as before, under its key, with the snapshot and
    registration number it had, whatever the flush had already written.  A
    flush that succeeds leaves the schedule empty. *)
Theorem Flush_failure_restores {D : Type} `{Names : NamedTypes} (key_types : GoType -> list KeyType)
    (load : GoType -> result EntityMap) (dialect : Dialect)
    (ToDatabase : Value -> ColumnType -> string -> result Value)
    (FromDatabase : Value -> FieldType -> ColumnType -> string -> result Value)
    (Clock : nat -> Z * Z) (NewGUID : nat -> Value) (types : nat)
    (ctx_Err : D -> option Error) (BeginTx CommitTx RollbackTx : SM D unit)
    (driver_exec : string -> list NamedArg -> SM D (result Z))
    (driver_scalar : string -> list NamedArg -> SM D (option Value))
    (driver_message : option (list (preparedWrite (E := env)) -> SM D (list writeResult)))
    (maxStatements : Z) (in_tx : bool) (u u' : unitOfWork) (tr : tracker) (e e' : env)
    (r : result FlushSummary)
    (HFrom : forall v ty ct label w, FromDatabase v ty ct label = Ok w -> real w)
    (HGuid : forall n, real (NewGUID n))
    (Hs : se_tracker (en_session e) = Some tr) (Hok : tracker_ok key_types tr)
    (Hscope : scope_ok key_types load (scheduled u tr)) (Hfine : fine (scheduled u tr) (env_heap e)) :
  Flush load dialect ToDatabase FromDatabase Clock NewGUID types ctx_Err BeginTx CommitTx RollbackTx
    driver_exec driver_scalar driver_message false maxStatements in_tx (u, e) = ((u', e'), r) ->
  match r with
  | Ok _ => u' = clear u
  | Fail _ => u' = u /\ same_map key_types tr e'
  end.
Proof.
  intros H. unfold Flush in H. set (plan := mbind _ _) in H.
  destruct plan as [p|err] eqn:Eplan; subst plan.
  2:{ injection H as <- <- <-. split; [done|]. by exists tr. }
  apply bind_Ok in Eplan as (_ & _ & Eplan). destruct (ctx_Err (en_db e)); [done|].
  destruct (plan_empty p); [by injection H as <- <- <-|].
  set (begin := if in_tx then sret tt else on_db BeginTx) in H.
  assert (Hbegin : same_session e (begin e).1).
  { subst begin. destruct in_tx; [done|]. unfold on_db. by destruct (BeginTx (en_db e)). }
  destruct (begin e) as [e1 [[]|err]]; cbn [fst] in Hbegin; destruct Hbegin as [Hse Hje].
  2:{ injection H as <- <- <-. split; [done|]. exists tr. by rewrite Hse. }
  assert (Hall : same_map key_types tr (flush_statements load dialect ToDatabase FromDatabase Clock NewGUID ctx_Err
    CommitTx RollbackTx driver_exec driver_scalar driver_message false maxStatements in_tx p e1).1 \/
    is_ok (flush_statements load dialect ToDatabase FromDatabase Clock NewGUID ctx_Err
    CommitTx RollbackTx driver_exec driver_scalar driver_message false maxStatements in_tx p e1).2 = true).
  2:{ destruct (flush_statements _ _ _ _ _ _ _ _ _ _ _ _ _ _ _ _ e1) as [e2 [summary|err]];
        injection H as <- <- <-; [done|]. by destruct Hall. }
  clear H. unfold flush_statements. set (e0 := set_journal (Some []) e1).
  assert (Hs0 : se_tracker (en_session e0) = Some tr) by (subst e0; cbn; by rewrite Hse).
  destruct (planFlush_scheduled key_types load ToDatabase types (en_session e) u tr p Hs Hok Eplan) as (P1 & P2 & P3).
  assert (Hrun0 : running key_types ToDatabase (scheduled u tr) e0 e0).
  { split; [apply rtc_refl|]. unfold fine_env, env_heap, e0. cbn. by rewrite Hse. }
  pose proof (run_plan_running key_types load dialect ToDatabase FromDatabase Clock NewGUID ctx_Err driver_exec
    driver_scalar driver_message maxStatements (scheduled u tr) Hscope HFrom HGuid e0 tr Hs0 Hok eq_refl p e0) as Hrun.
  specialize (Hrun ltac:(
    intros op [Hop|[Hop|Hop]%elem_of_app]%elem_of_app;
      apply list_elem_of_fmap in Hop as (x & -> & Hx);
      [exists (si_m x), (si_ptr x), (fun h => (flowKeys load x h).1); split; [apply an_insert|by apply P1]
      |exists (te_m x), (te_ptr x), (fun h => h); split; [apply an_update|by apply P2]
      |exists (sr_m x), (sr_ptr x), (fun h => h); split; [apply a_delete|by apply P3]]) Hrun0).
  match goal with |- context [sbind ?a ?b e0] =>
    pose (body := sbind a b e0); change (sbind a b e0) with body end.
  assert (Hend : running key_types ToDatabase (scheduled u tr) e0 body.1).
  { subst body. unfold sbind at 1.
    destruct (run_plan _ _ _ _ _ _ _ _ _ _ _ _ p e0) as [e2 [summary|err]]; [|exact Hrun].
    eapply running_same; [exact Hrun|]. unfold sbind. destruct in_tx; [done|]. unfold on_db.
    by destruct (CommitTx (en_db e2)) as [d [[]|]]. }
  destruct body as [e2 [summary|err]]; [by right|]. left.
  destruct (rolled_back key_types ToDatabase (scheduled u tr) e0 tr Hs0 Hok eq_refl e2 Hend)
    as (tr' & T1 & T2).
  exists tr'. split; [|exact T2]. cbn. destruct in_tx; [done|]. unfold on_db. by destruct (RollbackTx _).
Qed.

(** ** Witness: the row of a removed product is gone *)

#[local] Existing Instance user_id_type.

(** The library's own converter and generator, with no handler registered. *)
Definition some_guid (n : nat) : Value := VGuid (NewGUID (replicate 16 (ascii_of_nat n))).
Definition to_database (v : Value) (ct : ColumnType) (context : string) : result Value :=
  ToDatabase status_named no_handlers false v (Some ct) context.
Definition from_database : Value -> FieldType -> ColumnType -> string -> result Value :=
  FromDatabase status_named cut_float (fun _ => None) (fun _ => "") (fun _ => "") (fun _ => "") no_handlers.

Definition removed : unitOfWork :=
  mkUow [] ∅ ∅ [mkRemove 1 product_map 0] (<[1 := mkRemove 1 product_map 0]> ∅) 1.

Definition flush_removed : (unitOfWork * env (D := unit)) * result FlushSummary :=
  Flush load_product Sqlite.dialect to_database from_database fixed_clock some_guid 2
    (fun _ => None) (sret tt) (sret tt) (sret tt) (fun _ _ => sret (Ok 0%Z)) (fun _ _ => sret None) None
    false 100 false (removed, before_write).

Lemma scheduled_product m p : scheduled removed first_copy m p -> m = product_map /\ p = 1.
Proof.
  intros [(x & Hx & _)|[(x & Hx & <- & <-)|(x & Hx & <- & <-)]].
  - by apply not_elem_of_nil in Hx.
  - apply (elem_of_all product_keys _ _ first_copy_ok) in Hx.
    assert (Hall : Forall (fun x => te_m x = product_map /\ te_ptr x = 1) (all first_copy)).
    { assert (H : te_m <$> all first_copy = [product_map]) by (vm_compute; reflexivity).
      assert (H' : te_ptr <$> all first_copy = [1]) by (vm_compute; reflexivity).
      destruct (all first_copy) as [|y [|]]; [done| |done]. injection H as H. injection H' as H'.
      by repeat constructor. }
    by apply (proj1 (Forall_forall _ _) Hall).
  - apply list_elem_of_singleton in Hx as ->. done.
Qed.

Lemma product_plain : plain_map product_map.
Proof.
  split; try done; change (Properties product_map) with [product_id; product_name; product_note].
  - intros p q. rewrite !elem_of_cons, !elem_of_nil. intuition (subst; done).
  - intros p Hp. apply list_elem_of_singleton in Hp as ->. left.
Qed.

Lemma product_scope : scope_ok product_keys load_product (scheduled removed first_copy).
Proof.
  split.
  - by intros m m' p [-> _]%scheduled_product [-> _]%scheduled_product.
  - by intros m p [-> _]%scheduled_product.
  - intros m p [-> _]%scheduled_product. apply product_plain.
  - intros m p [-> _]%scheduled_product. apply Forall2_cons. split; [|by constructor].
    intros v Hv Hr. destruct v; try discriminate. cbn in Hv. apply bool_decide_eq_true in Hv as ->. by split.
Qed.

Lemma product_fine : fine (scheduled removed first_copy) (env_heap before_write).
Proof.
  assert (Hp : forall p, deref (env_heap before_write) p = product \/ deref (env_heap before_write) p = deref ∅ 0).
  { intros p. unfold env_heap, before_write. cbn. unfold two_copies, deref.
    destruct (decide (p = 1)) as [->|]; [left; by rewrite lookup_insert_eq|].
    destruct (decide (p = 2)) as [->|]; [left; by rewrite lookup_insert_ne, lookup_insert_eq|].
    right. by rewrite !lookup_insert_ne, lookup_empty by done. }
  split.
  - intros p name v. destruct (Hp p) as [->| ->]; [|done]. cbn. rewrite !lookup_insert_Some.
    by intros [[_ <-]|[_ [[_ <-]|[_ H]]]].
  - intros m p [-> ->]%scheduled_product q v Hq Hv.
    change (Properties product_map) with [product_id; product_name; product_note] in Hq.
    rewrite !elem_of_cons, elem_of_nil in Hq.
    destruct Hq as [H|[H|[H|[]]]]; rewrite H in Hv |- *; vm_compute in Hv; try discriminate;
      injection Hv as <-; right; by split.
Qed.

Lemma Flush_failure_restores_witness :
  flush_removed.2 = Fail (NewError "CRUD-001" "Product") /\
  flush_removed.1.1 = removed /\ same_map product_keys first_copy flush_removed.1.2.
Proof.
  assert (Hfail : flush_removed.2 = Fail (NewError "CRUD-001" "Product")) by (vm_compute; reflexivity).
  split; [exact Hfail|].
  apply (Flush_failure_restores product_keys load_product Sqlite.dialect to_database from_database
    fixed_clock some_guid 2 (fun _ => None) (sret tt) (sret tt) (sret tt)
    (fun _ _ => sret (Ok 0%Z)) (fun _ _ => sret None) None 100 false removed flush_removed.1.1 first_copy
    before_write flush_removed.1.2 (Fail (NewError "CRUD-001" "Product"))).
  - intros v ty ct label w H. refine (FromDatabase_real _ _ _ _ _ _ _ _ v ty ct label w H). by intros t v' w'.
  - intros n. apply NewGUID_length. by rewrite length_replicate.
  - reflexivity.
  - exact first_copy_ok.
  - exact product_scope.
  - exact product_fine.
  - rewrite <- Hfail. change (flush_removed = (flush_removed.1.1, flush_removed.1.2, flush_removed.2)).
    by destruct flush_removed as [[u e] r].
Defined.
