(* ===== verification/WriteLaws.v ===== *)
(** What the generated writes do to the instance they are on: keys given by the
    caller, the version that moves, and the fields a failed write puts back (the
    theorems of [Writes] that are not about the journal). *)
From S2P Require Import Prelude GoStrings Values Core Params Dialect Sqlite GeneratedSql.
From S2P Require Import Tracker Instances Session UnitOfWork Reach KeyFlow Batching Writes.
From S2P Require Import Journal Rollback OperationLaws.

(** ** Integers at their width *)

Lemma key_value_typed `{Names : NamedTypes} ty k z : integer_kind ty = Some k -> has_type (Converter.int_value ty k z) ty = true.
Proof.
  unfold integer_kind, Converter.int_kind. destruct ty as [k'| | | | | | | |type zero]; try done.
  - intros [= ->]. by apply bool_decide_true.
  - intros _. by apply bool_decide_true.
Qed.

Lemma int_value_not_nil ty k z : Converter.int_value ty k z <> VNil.
Proof. by destruct ty. Qed.


Section Laws.
Context {D : Type} `{Names : NamedTypes}.
Notation env := (env (D := D)).
Notation write := (preparedWrite (E := env)).

(** ** The judge of an update *)

(** C32. Optimistic concurrency: no row changed is CRUD-010 where the type has a
    version and CRUD-001 where it has none, and the instance is as it was;
    otherwise the version in memory - of any integer type, named or not - is the
    one before plus one, wrapped to 64 bits and then to its width as the
    statement's [version + 1] is stored, and every other field of every instance
    reads as before. *)
Theorem updateJudge_exact (t : GoType) (m : EntityMap) (ptr : Ptr) (affected : Z) (e : env) :
  (affected = 0%Z ->
     updateJudge t m ptr affected e =
       (e, Fail (NewError match VersionProperty m with Some _ => "CRUD-010" | None => "CRUD-001" end
                   (TypeShortName t)))) /\
  (affected <> 0%Z -> VersionProperty m = None -> updateJudge t m ptr affected e = (e, Ok tt)) /\
  (forall version k z, affected <> 0%Z -> VersionProperty m = Some version ->
     integer_kind (ft_elem (PropertyType version)) = Some k -> integer_of (Get_at (env_heap e) ptr version) = Some z ->
     exists e', updateJudge t m ptr affected e = (e', Ok tt) /\
       se_tracker (en_session e') = se_tracker (en_session e) /\ en_journal e' = en_journal e /\
       Get_at (env_heap e') ptr version =
         Converter.int_value (ft_elem (PropertyType version)) k (wrap k (wrap KInt64 (wrap KInt64 z + 1))) /\
       (forall q, q <> ptr -> deref (env_heap e') q = deref (env_heap e) q) /\
       forall q, PropertyName q <> PropertyName version -> reachable_field q (deref (env_heap e) ptr) ->
         Get_at (env_heap e') ptr q = Get_at (env_heap e) ptr q).
Proof.
  unfold updateJudge. split; [|split].
  - intros ->. by destruct (VersionProperty m).
  - intros Ha ->. apply Z.eqb_neq in Ha. by rewrite Ha.
  - intros version k z Ha -> Hk Hv. apply Z.eqb_neq in Ha. rewrite Ha.
    unfold Get_prop, get_session, sbind, slift, sret, toInt64. unfold env_heap in Hv. rewrite Hv.
    unfold fromInt64. rewrite Hk. set (v := Converter.int_value _ _ _).
    destruct (Set_stores version v (deref (env_heap e) ptr)) as (i' & Hs & Hg & _ & _ & Hframe).
    { right. by apply key_value_typed. }
    unfold Set_prop, on_heap, on_session, Set_at. unfold env_heap in *. rewrite Hs.
    eexists. split; [done|]. cbn. split; [done|]. split; [done|]. unfold Get_at.
    rewrite deref_insert_eq. split.
    { rewrite Hg. unfold stored. case_decide as E; [|done]. by apply int_value_not_nil in E. }
    split; [intros q Hq; by apply deref_insert_ne|].
    exact Hframe.
Qed.

(** ** What a hook changed is put back *)

(** A property a hook may set: of the map, plain, with a name of its own. *)
Definition hook_property (ps : list PropertyMap) (p : PropertyMap) : Prop :=
  p ∈ ps /\ Owner p = None /\ forall q, q ∈ ps -> PropertyName q = PropertyName p -> q = p.

Lemma Get_set_field_ne p q v i : PropertyName q <> PropertyName p -> Get q (set_field p v i) = Get q i.
Proof.
  intros Hne. unfold Get. assert (field_value q (set_field p v i) = field_value q i) as ->.
  { unfold field_value. cbn. by rewrite lookup_insert_ne. }
  by destruct (Owner q).
Qed.

Lemma Get_set_field p v i : Owner p = None -> Get p (set_field p v i) = v.
Proof. intros Ho. unfold Get. rewrite Ho. unfold field_value. cbn. by rewrite lookup_insert_eq. Qed.

Section Restores.
Context (ptr : Ptr) (ps : list PropertyMap) (h : heap).
Context (Htyped : instance_typed ps (deref h ptr)).

(** [h1] reads as [h], but for the fields [C] of [ptr]. *)
Definition differs (C : list PropertyMap) (h1 : heap) : Prop :=
  (forall q, q <> ptr -> deref h1 q = deref h q) /\
  forall q, q ∈ ps -> q ∉ C -> Get_at h1 ptr q = Get_at h ptr q.

Lemma differs_refl : differs [] h.
Proof. done. Qed.

(** A refused assignment changes nothing. *)
Lemma Set_at_plain p v h1 :
  Owner p = None ->
  (exists i, Set_at ptr p v h1 = (<[ptr := i]> h1, Ok tt) /\ i = set_field p (stored p v) (deref h1 ptr)) \/
  (exists err, Set_at ptr p v h1 = (<[ptr := deref h1 ptr]> h1, Fail err)).
Proof.
  intros Ho. unfold Set_at, Set_, sbind, smodify, sthrow, stored. rewrite Ho.
  destruct (decide (v = VNil)); [left; by eexists|]. destruct (has_type _ _); [left; by eexists|right; by eexists].
Qed.

Lemma differs_set C p v h1 :
  hook_property ps p -> differs C h1 -> differs (p :: C) (Set_at ptr p v h1).1.
Proof.
  intros (Hp & Ho & Hname) [H1 H2].
  destruct (Set_at_plain p v h1 Ho) as [(i & -> & ->)|(err & ->)]; cbn [fst]; split.
  1, 3: intros q Hq; rewrite deref_insert_ne by done; by apply H1.
  all: intros q Hq [Hne Hc]%not_elem_of_cons; unfold Get_at; rewrite deref_insert_eq.
  - rewrite Get_set_field_ne; [by apply H2|]. intros E. by apply Hne, Hname.
  - by apply H2.
Qed.

Lemma differs_set_fail C p v h1 err :
  Owner p = None -> (Set_at ptr p v h1).2 = Fail err -> differs C h1 -> differs C (Set_at ptr p v h1).1.
Proof.
  intros Ho Hf [H1 H2]. destruct (Set_at_plain p v h1 Ho) as [(i & E & _)|(err' & E)]; rewrite E in Hf |- *; [done|].
  cbn [fst]. split; intros q Hq.
  - rewrite deref_insert_ne by done. by apply H1.
  - unfold Get_at. rewrite deref_insert_eq. by apply H2.
Qed.

Lemma differs_put_back C p h1 :
  hook_property ps p -> differs (p :: C) h1 -> differs C (Set_at ptr p (Get_at h ptr p) h1).1.
Proof.
  intros Hhook Hd. pose proof Hhook as (Hp & Ho & Hname). pose proof Hd as [H1 H2].
  pose proof (field_value_typed ps p _ Htyped Hp) as Hty.
  assert (Hg : Get_at h ptr p = field_value p (deref h ptr)) by (unfold Get_at, Get; by rewrite Ho).
  assert (Hst : stored p (Get_at h ptr p) = Get_at h ptr p).
  { unfold stored, zero_field. rewrite Hg. case_decide as E; [|done]. rewrite E.
    destruct Hty as [[_ ->]|[Hn _]]; [done|]. by rewrite E in Hn. }
  destruct (Set_at_plain p (Get_at h ptr p) h1 Ho) as [(i & -> & ->)|(err & Herr)]; cbn [fst].
  - split; [intros q Hq; rewrite deref_insert_ne by done; by apply H1|]. intros q Hq Hc.
    unfold Get_at at 1. rewrite deref_insert_eq, Hst. destruct (decide (q = p)) as [->|Hne].
    + by apply Get_set_field.
    + rewrite Get_set_field_ne; [apply H2; [done|by apply not_elem_of_cons]|].
      intros E. by apply Hne, Hname.
  - exfalso. unfold Set_at, Set_, sbind, smodify, sthrow in Herr. rewrite Ho in Herr.
    destruct (decide (Get_at h ptr p = VNil)) as [|Hn]; [done|].
    rewrite Hg in Herr, Hn. destruct Hty as [[? _]|[_ Hty]]; [done|]. by rewrite Hty in Herr.
Qed.

Definition priors (C : list PropertyMap) : list prior_value := (fun p => (ptr, p, Get_at h ptr p)) <$> C.

Lemma env_heap_Set_prop p v (e : env) : env_heap (Set_prop ptr p v e).1 = (Set_at ptr p v (env_heap e)).1.
Proof.
  unfold Set_prop, on_heap, on_session, env_heap. by destruct (Set_at ptr p v (se_heap (en_session e))).
Qed.

Lemma put_back_differs C (e : env) :
  Forall (hook_property ps) C -> differs C (env_heap e) -> differs [] (env_heap (put_back_all (priors C) e)).
Proof.
  revert e. induction C as [|p C IH]; intros e Hc Hd; [done|]. apply Forall_cons in Hc as [Hp Hc].
  unfold put_back_all. cbn. apply IH; [done|]. rewrite env_heap_Set_prop. by apply differs_put_back.
Qed.
End Restores.

(** ** A failed write *)

Section Failed.
Context (load : GoType -> result EntityMap) (dialect : Dialect)
  (ToDatabase : Value -> ColumnType -> string -> result Value) (Clock : nat -> Z * Z)
  (driver_exec : string -> list NamedArg -> SM D (result Z))
  (driver_scalar : string -> list NamedArg -> SM D (option Value)).
Context (ptr : Ptr) (m : EntityMap) (h : heap) (j : option (list undo)).
Notation ps := (Properties m).
Notation differs := (differs ptr ps h).
Notation priors := (priors ptr h).

(** The hooks' properties are plain fields, and two of them. *)
Record plain_hooks : Prop := {
  ph_updated : forall p, UpdatedAtProperty m = Some p -> hook_property ps p;
  ph_flag : forall p, SoftDeleteProperty m = Some p -> hook_property ps p /\ UpdatedAtProperty m <> Some p;
  ph_version : forall p, VersionProperty m = Some p -> Owner p = None }.

Context (Htyped : instance_typed ps (deref h ptr)) (Hplain : plain_hooks).

(** An untracked session whose heap reads as [h], but for the fields [C]. *)
Definition at_heap (C : list PropertyMap) (e : env) : Prop :=
  kept None j e /\ differs C (env_heap e).

(** [m'] fails with the fields put back, or returns a value of [Q]. *)
Definition or_back {A} (C : list PropertyMap) (Q : A -> env -> Prop) (m' : SM env A) : Prop :=
  forall e, at_heap C e ->
    match m' e with
    | (e', Ok a) => Q a e'
    | (e', Fail _) => at_heap C e'
    end.

Lemma or_back_bind {A B} C (Q1 : A -> env -> Prop) (Q : B -> env -> Prop) (m1 : SM env A) k :
  or_back C Q1 m1 ->
  (forall a e, Q1 a e -> match k a e with (e', Ok b) => Q b e' | (e', Fail _) => at_heap C e' end) ->
  or_back C Q (sbind m1 k).
Proof.
  intros H1 Hk e He. specialize (H1 e He). unfold sbind. destruct (m1 e) as [e1 [a|err]]; [by apply Hk|done].
Qed.

(** A step that keeps the fields. *)
Lemma or_back_keep {A B} C (Q : B -> env -> Prop) (m1 : SM env A) k :
  preserves (at_heap C) m1 -> (forall a, or_back C Q (k a)) -> or_back C Q (sbind m1 k).
Proof.
  intros H1 Hk. eapply (or_back_bind C (fun _ => at_heap C)); [|intros a e He; by apply Hk].
  intros e He. specialize (H1 e He). by destruct (m1 e) as [e1 [a|err]].
Qed.

Lemma at_heap_put_back C e : Forall (hook_property ps) C -> at_heap C e -> at_heap [] (put_back_all (priors C) e).
Proof.
  intros Hc [Hk Hd]. split; [by apply kept_put_back|]. by apply put_back_differs.
Qed.

Lemma at_heap_session C : preserves (at_heap C) get_session.
Proof. by intros e. Qed.
Lemma at_heap_tick C : preserves (at_heap C) next_tick.
Proof. by intros e. Qed.
Lemma at_heap_now C : preserves (at_heap C) (now Clock).
Proof.
  apply sbind_preserves; [apply at_heap_tick|]. intros n. destruct (Clock n) as [instant offset].
  destruct (negb _); [apply preserves_throw|apply preserves_ret].
Qed.
Lemma at_heap_db {A} C (m1 : SM D A) : preserves (at_heap C) (on_db m1).
Proof. intros e He. unfold on_db. by destruct (m1 (en_db e)). Qed.
#[local] Hint Resolve at_heap_session at_heap_tick at_heap_now at_heap_db : kept.

Lemma or_back_set {A} C p v (Q : A -> env -> Prop) (k : unit -> SM env A) :
  hook_property ps p ->
  (forall e, at_heap (p :: C) e -> match k tt e with (e', Ok b) => Q b e' | (e', Fail _) => at_heap C e' end) ->
  or_back C Q (Set_prop ptr p v ;! k tt).
Proof.
  intros Hp Hk e [He Hd]. unfold sbind. pose proof (env_heap_Set_prop ptr p v e) as Hheap.
  pose proof (kept_Set_prop None j ptr p v e He) as He'.
  destruct (Set_prop ptr p v e) as [e1 [[]|err]] eqn:E; cbn [fst] in *.
  - apply Hk. split; [done|]. rewrite Hheap. by apply differs_set.
  - split; [done|]. rewrite Hheap. apply (differs_set_fail ptr ps h C p v (env_heap e) err); [apply Hp| |done].
    unfold Set_prop, on_heap, on_session, env_heap in *.
    destruct (Set_at ptr p v (se_heap (en_session e))). by injection E as _ ->.
Qed.

Definition stamped : list PropertyMap := option_list (UpdatedAtProperty m).

Lemma stamped_hooks : Forall (hook_property ps) stamped.
Proof.
  unfold stamped. destruct (UpdatedAtProperty m) as [p|] eqn:E; [|constructor].
  constructor; [by apply (ph_updated Hplain)|constructor].
Qed.

Lemma stampSet_or_back C set :
  (forall p, UpdatedAtProperty m = Some p -> p ∉ C) ->
  or_back C (fun r e => r.2 = priors stamped /\ at_heap (stamped ++ C) e) (stampSet Clock m ptr set).
Proof.
  intros Hc. unfold stampSet, stamped. destruct (UpdatedAtProperty m) as [p|] eqn:Ep.
  2:{ intros e He. by split. }
  pose proof (ph_updated Hplain p Ep) as Hp. specialize (Hc p eq_refl).
  apply or_back_keep; [apply at_heap_now|]. intros instant.
  eapply (or_back_bind C (fun prior e => prior = Get_at h ptr p /\ at_heap C e)).
  { intros e He. split; [|done]. destruct He as [_ [_ Hd]]. apply Hd; [apply Hp|done]. }
  intros prior e [-> He]. apply (or_back_set C p instant _ (fun _ => sret _) Hp); [|done].
  intros e1 He1. by split.
Qed.

(** ** The prepared write *)

(** Its restore puts back what its preparation changed, and its completion
    changes nothing else before it can fail. *)
Record reversible (C : list PropertyMap) (w : write) : Prop := {
  rv_undo : pw_undoPrepare w = put_back_all (priors C);
  rv_hooks : Forall (hook_property ps) C;
  rv_finish : forall f, pw_finish w = Some f -> forall r, or_back C (fun _ _ => True) (f r) }.

Definition prepared (o : option write) (e : env) : Prop :=
  match o with
  | None => at_heap [] e
  | Some w => exists C, reversible C w /\ at_heap C e
  end.

Lemma countedWrite_or_back C t text finish :
  Forall (hook_property ps) C -> (forall r, or_back C (fun _ _ => True) (finish r)) ->
  or_back C (fun w e => reversible C w /\ at_heap C e)
    (countedWrite dialect ToDatabase t m ptr text finish (priors C)).
Proof.
  intros Hc Hf. unfold countedWrite. apply or_back_keep; [kept|]. intros s.
  apply or_back_keep; [kept|]. intros args. apply or_back_keep; [kept|]. intros id e He.
  split; [|done]. split; [done|done|]. by intros f [= <-].
Qed.

(** A refused preparation runs its restores. *)
Lemma or_restore_prepared C (w : SM env write) e :
  Forall (hook_property ps) C -> at_heap C e ->
  or_back C (fun w e => reversible C w /\ at_heap C e) w ->
  match or_restore (priors C) w e with
  | (e', Ok w) => prepared (Some w) e'
  | (e', Fail _) => at_heap [] e'
  end.
Proof.
  intros Hc He Hw. specialize (Hw e He). unfold or_restore.
  destruct (w e) as [e1 [w1|err]]; [by exists C|]. by apply at_heap_put_back.
Qed.

Lemma judge_or_back C t r (k : SM env unit) :
  (forall e, kept None j e -> exists e', k e = (e', Ok tt)) ->
  or_back C (fun _ _ => True) (updateJudge t m ptr (wr_affected r) ;! k).
Proof.
  intros Hk e He. unfold sbind.
  pose proof (kept_updateJudge None j t m ptr (wr_affected r) e (proj1 He)) as Hkept.
  assert (Hj : match updateJudge t m ptr (wr_affected r) e with (e', Fail _) => at_heap C e' | _ => True end).
  { clear Hkept. revert e He. fold (or_back C (fun (_ : unit) (_ : env) => True) (updateJudge t m ptr (wr_affected r))).
    assert (H : or_back C (fun _ _ => True) (updateJudge t m ptr (wr_affected r))).
    2:{ intros e He. specialize (H e He). by destruct (updateJudge _ _ _ _ e) as [? []]. }
    unfold updateJudge. destruct (VersionProperty m) as [p|] eqn:Ep; destruct (_ =? 0)%Z; try by intros e He.
    apply or_back_keep; [unfold Get_prop; kept|]. intros v. apply or_back_keep; [kept|]. intros z.
    apply or_back_keep; [kept|]. intros bumped e [He Hd].
    pose proof (env_heap_Set_prop ptr p bumped e) as Hheap.
    pose proof (kept_Set_prop None j ptr p bumped e He) as He'.
    destruct (Set_prop ptr p bumped e) as [e1 [[]|err]] eqn:E; cbn [fst] in *; [done|].
    split; [done|]. rewrite Hheap.
    apply (differs_set_fail ptr ps h C p bumped (env_heap e) err); [by apply (ph_version Hplain)| |done].
    unfold Set_prop, on_heap, on_session, env_heap in *.
    destruct (Set_at ptr p bumped (se_heap (en_session e))). by injection E as _ ->. }
  destruct (updateJudge t m ptr (wr_affected r) e) as [e1 [[]|err]]; [|done].
  by destruct (Hk e1 Hkept) as [e2 ->].
Qed.

Lemma gate_untracked m' (e : env) : kept None j e -> gate m' ptr e = (e, Ok None).
Proof. intros [Hs _]. unfold gate, sbind, get_session, slift, writeIdentity. by rewrite Hs. Qed.

Lemma track_untracked m' (e : env) : kept None j e -> trackJournaled ToDatabase m' ptr e = (e, Ok tt).
Proof. intros [Hs _]. unfold trackJournaled, tracking. by rewrite Hs. Qed.

Lemma or_back_gate {B} C (Q : B -> env -> Prop) m' (k : option trackedEntry -> SM env B) :
  or_back C Q (k None) -> or_back C Q (sbind (gate m' ptr) k).
Proof. intros Hk e He. unfold sbind. rewrite (gate_untracked m' e (proj1 He)). by apply Hk. Qed.

Lemma or_back_load {B} C (Q : B -> env -> Prop) (r : result EntityMap) (k : EntityMap -> SM env B) :
  (forall m', r = Ok m' -> m' = m) -> or_back C Q (k m) -> or_back C Q (sbind (slift r) k).
Proof.
  intros Hr Hk e He. unfold sbind, slift. destruct r as [m'|err]; [|done].
  rewrite (Hr m' eq_refl). by apply Hk.
Qed.

Context (t : GoType) (Hload : load t = Ok m).

Lemma writable_is_m m' : requireWritableKeyedType load t = Ok m' -> m' = m.
Proof. intros H%requireWritableKeyedType_load. rewrite Hload in H. by apply Ok_inj in H. Qed.

(** Stamping, then binding under the restores. *)
Lemma stamped_write set finish text :
  (forall r, or_back stamped (fun _ _ => True) (finish r)) ->
  or_back [] (fun w => prepared (Some w))
    (do! (set', stamp) <- stampSet Clock m ptr set in
     or_restore stamp (countedWrite dialect ToDatabase t m ptr (text set') finish stamp)).
Proof.
  intros Hf. eapply or_back_bind; [apply stampSet_or_back; by intros p _ ?%not_elem_of_nil|].
  intros [set' stamp] e [Hst He]. cbn [snd] in Hst. subst stamp. rewrite app_nil_r in He.
  exact (or_restore_prepared stamped _ e stamped_hooks He
    (countedWrite_or_back stamped t (text set') finish stamped_hooks Hf)).
Qed.

Lemma prepared_Some (m1 : SM env write) :
  or_back [] (fun w => prepared (Some w)) m1 -> or_back [] prepared (do! w <- m1 in sret (Some w)).
Proof. intros H. eapply or_back_bind; [exact H|]. by intros w e He. Qed.

Lemma prepareUpdate_prepared : or_back [] prepared (prepareUpdate load dialect ToDatabase Clock t ptr).
Proof.
  unfold prepareUpdate, require_writable. apply or_back_load; [apply writable_is_m|].
  apply or_back_keep; [unfold check_navigations; kept|]. intros _. apply or_back_gate.
  intros e He. pose proof (stamped_write []
    (fun result_ => updateJudge t m ptr (wr_affected result_) ;! trackJournaled ToDatabase m ptr)
    (fun _ => updateText dialect m)) as H.
  apply prepared_Some in H.
  - specialize (H e He). unfold sbind in *. destruct (stampSet _ _ _ _ e) as [e1 [[set stamp]|err]]; exact H.
  - intros r. apply judge_or_back. intros e1 He1. exists e1. by apply track_untracked.
Qed.

Lemma prepareUpdateOnly_prepared properties :
  or_back [] (fun w => prepared (Some w)) (prepareUpdateOnly load dialect ToDatabase Clock t ptr properties).
Proof.
  unfold prepareUpdateOnly, require_writable. apply or_back_load; [apply writable_is_m|].
  apply or_back_keep; [kept|]. intros set0. apply or_back_keep; [unfold check_navigations; kept|]. intros _.
  apply or_back_gate. apply (stamped_write set0 _ (updateOnly_text dialect m)). intros r.
  apply judge_or_back. intros e1 _. by exists e1.
Qed.

(** A refused stamp puts the flag back; a refused statement both. *)
Lemma prepareSoftDelete_prepared flag finish :
  SoftDeleteProperty m = Some flag -> (forall e, kept None j e -> exists e', finish e = (e', Ok tt)) ->
  or_back [] (fun w => prepared (Some w))
    (prepareSoftDeleteEntity dialect ToDatabase Clock t m flag ptr finish).
Proof.
  intros Hflag Hf. destruct (ph_flag Hplain flag Hflag) as [Hhook Hne].
  assert (Hflags : Forall (hook_property ps) [flag]) by (by constructor).
  unfold prepareSoftDeleteEntity.
  eapply (or_back_bind [] (fun prior e => prior = Get_at h ptr flag /\ at_heap [] e)).
  { intros e He. split; [|done]. destruct He as [_ [_ Hd]]. apply Hd; [apply Hhook|apply not_elem_of_nil]. }
  intros prior e [-> He]. revert e He. fold (or_back (A := write) [] (fun w => prepared (Some w))
    (Set_prop ptr flag (VBool true) ;!
     do! (set, stamp) <- or_restore (priors [flag]) (stampSet Clock m ptr [flag]) in
     or_restore (priors [flag] ++ stamp) (countedWrite dialect ToDatabase t m ptr (updateOnly_text dialect m set)
       (fun result_ => updateJudge t m ptr (wr_affected result_) ;! finish) (priors [flag] ++ stamp)))).
  apply (or_back_set [] flag (VBool true) _ (fun _ => _) Hhook). intros e He.
  assert (Hs : or_back [flag] (fun r e => r.2 = priors stamped /\ at_heap (stamped ++ [flag]) e)
            (stampSet Clock m ptr [flag])).
  { apply stampSet_or_back. intros p Hp ->%list_elem_of_singleton. by apply Hne. }
  specialize (Hs e He). unfold sbind at 1, or_restore at 1.
  destruct (stampSet Clock m ptr [flag] e) as [e1 [[set stamp]|err]].
  2:{ exact (at_heap_put_back [flag] e1 Hflags Hs). }
  destruct Hs as [Hst He1]. cbn [snd] in Hst. subst stamp.
  change ((ptr, flag, Get_at h ptr flag) :: priors stamped) with (priors ([flag] ++ stamped)). apply (or_restore_prepared ([flag] ++ stamped)).
  - apply Forall_app. split; [done|apply stamped_hooks].
  - destruct He1 as [H1 [H2 H3]]. split; [done|]. split; [done|]. intros q Hq Hnot. apply H3; [done|]. set_solver.
  - apply countedWrite_or_back; [apply Forall_app; split; [done|apply stamped_hooks]|]. intros r.
    by apply judge_or_back.
Qed.

Lemma prepareDelete_prepared :
  or_back [] (fun w => prepared (Some w)) (prepareDeleteEntity load dialect ToDatabase Clock t ptr).
Proof.
  unfold prepareDeleteEntity, require_writable. apply or_back_load; [apply writable_is_m|].
  apply or_back_gate. destruct (SoftDeleteProperty m) as [flag|] eqn:Ef.
  - apply prepareSoftDelete_prepared; [done|]. intros e _. by exists e.
  - apply or_back_keep; [kept|]. intros text e He.
    pose proof (countedWrite_or_back [] t text (fun result_ =>
      if (wr_affected result_ =? 0)%Z then
        sthrow (NewError (if bool_decide (is_Some (VersionProperty m)) then "CRUD-010" else "CRUD-001")
                  (TypeShortName t))
      else forgetEntryJournaled None) (Forall_nil_2 _)) as H.
    specialize (H (fun r => ltac:(by intros e1 He1; destruct (_ =? _)%Z)) e He).
    destruct (countedWrite _ _ _ _ _ _ _ _ e) as [e1 [w|err]]; [by exists []|done].
Qed.

(** ** Running it *)

Lemma runImmediate_back o :
  forall e, prepared o e -> match runImmediate driver_exec driver_scalar o e with
                            | (e', Fail _) => at_heap [] e'
                            | _ => True
                            end.
Proof.
  intros e. destruct o as [w|]; [|done]. intros (C & [Hundo Hhooks Hfin] & He). cbn [runImmediate].
  set (run := do! result_ <- _ in _).
  assert (Hrun : or_back C (fun _ _ => True) run).
  { apply or_back_keep; [unfold runWrite; kept|]. intros r. destruct (pw_finish w) as [f|]; [by apply Hfin|].
    by intros e1. }
  specialize (Hrun e He). destruct (run e) as [e1 [[]|err]]; [done|]. rewrite Hundo.
  by apply at_heap_put_back.
Qed.

Lemma immediate_back (prepare : SM env (option write)) :
  or_back [] prepared prepare ->
  or_back [] (fun _ _ => True) (do! w <- prepare in runImmediate driver_exec driver_scalar w).
Proof.
  intros H. eapply or_back_bind; [exact H|]. intros o e He. pose proof (runImmediate_back o e He) as Hr.
  by destruct (runImmediate _ _ o e) as [e1 [[]|err]].
Qed.
End Failed.

(** The immediate writes of an instance that exists. *)
Inductive immediate_write (load : GoType -> result EntityMap) (dialect : Dialect)
    (ToDatabase : Value -> ColumnType -> string -> result Value) (Clock : nat -> Z * Z)
    (driver_exec : string -> list NamedArg -> SM D (result Z))
    (driver_scalar : string -> list NamedArg -> SM D (option Value)) (t : GoType) (ptr : Ptr)
    : SM env unit -> Prop :=
  | an_Update : immediate_write load dialect ToDatabase Clock driver_exec driver_scalar t ptr
      (Update load dialect ToDatabase Clock driver_exec driver_scalar t ptr)
  | an_UpdateOnly properties : immediate_write load dialect ToDatabase Clock driver_exec driver_scalar t ptr
      (UpdateOnly load dialect ToDatabase Clock driver_exec driver_scalar t ptr properties)
  | a_DeleteEntity : immediate_write load dialect ToDatabase Clock driver_exec driver_scalar t ptr
      (DeleteEntity load dialect ToDatabase Clock driver_exec driver_scalar t ptr).

(** C30. A failed write leaves the instance as it found it: in an untracked
    session, when an Update, an UpdateOnly or a DeleteEntity fails - a check, a
    hook, a conversion, the statement, its count, the version that will not
    move - every mapped field of the instance reads as before, the stamp and the
    soft-delete flag included, and no other instance changed. *)
Theorem failed_write_restores (load : GoType -> result EntityMap) (dialect : Dialect)
    (ToDatabase : Value -> ColumnType -> string -> result Value) (Clock : nat -> Z * Z)
    (driver_exec : string -> list NamedArg -> SM D (result Z))
    (driver_scalar : string -> list NamedArg -> SM D (option Value))
    (t : GoType) (ptr : Ptr) (m : EntityMap) (op : SM env unit) (e e' : env) (err : Error) :
  immediate_write load dialect ToDatabase Clock driver_exec driver_scalar t ptr op ->
  load t = Ok m -> plain_hooks m -> instance_typed (Properties m) (deref (env_heap e) ptr) ->
  se_tracker (en_session e) = None -> op e = (e', Fail err) ->
  (forall q, q <> ptr -> deref (env_heap e') q = deref (env_heap e) q) /\
  forall p, p ∈ Properties m -> Get_at (env_heap e') ptr p = Get_at (env_heap e) ptr p.
Proof.
  intros Hop Hload Hplain Hty Hs Hrun.
  assert (Hall : or_back ptr m (env_heap e) (en_journal e) [] (fun _ _ => True) op).
  { destruct Hop; [|unfold UpdateOnly|unfold DeleteEntity].
    - by apply immediate_back, prepareUpdate_prepared.
    - eapply or_back_bind; [by apply prepareUpdateOnly_prepared|]. intros w e1 He.
      pose proof (runImmediate_back driver_exec driver_scalar ptr m (env_heap e) (en_journal e) Hty (Some w) e1 He) as Hr.
      by destruct (runImmediate _ _ _ e1) as [e2 [[]|err']].
    - eapply or_back_bind; [by apply prepareDelete_prepared|]. intros w e1 He.
      pose proof (runImmediate_back driver_exec driver_scalar ptr m (env_heap e) (en_journal e) Hty (Some w) e1 He) as Hr.
      by destruct (runImmediate _ _ _ e1) as [e2 [[]|err']]. }
  assert (He : at_heap ptr m (env_heap e) (en_journal e) [] e) by (split; [by split|apply differs_refl]).
  specialize (Hall e He). rewrite Hrun in Hall. destruct Hall as [_ [H1 H2]].
  split; [done|]. intros p Hp. apply H2; [done|apply not_elem_of_nil].
Qed.
End Laws.

(** ** Witnesses *)

Definition order_version : PropertyMap :=
  mkProperty (Some product_type) "Version" "version" (mkField false (TyInt KInt8)) TypeInt32 false false false true
    AuditNone false None 0 0 0 None None.
Definition order_changed : PropertyMap :=
  mkProperty (Some product_type) "Changed" "changed" (mkField false TyTime) TypeDateTime false false false false
    AuditUpdatedAt false None 0 0 0 None None.
Definition versioned_map : EntityMap :=
  NewEntityMap product_type RelationTable "products" "" "" [product_id; order_version; order_changed]
    KeyNatural [] [].
Definition versioned : Instance :=
  mkInstance product_type (<["ID" := VInt KInt64 7]> (<["Version" := VInt KInt8 127]> ∅)) ∅ ∅.
Definition untracked : env (D := unit) := mkEnv (mkSession (<[1 := versioned]> ∅) None) 0 None tt.

(** A key of a named type takes a plain integer. *)
Definition user_id : PropertyMap :=
  mkProperty (Some product_type) "ID" "id" (mkField false (TyOther "UserID" "0")) TypeInt64 true false false false
    AuditNone false None 0 0 0 None None.
#[local] Existing Instance user_id_type.


Lemma updateJudge_exact_witness :
  exists e', updateJudge product_type versioned_map 1 1 untracked = (e', Ok tt) /\
    Get_at (env_heap e') 1 order_version = VInt KInt8 (-128).
Proof.
  destruct (updateJudge_exact product_type versioned_map 1 1 untracked) as (_ & _ & H).
  destruct (H order_version KInt8 127%Z) as (e' & He & _ & _ & Hv & _);
    [done|reflexivity|reflexivity|reflexivity|].
  exists e'. split; [exact He|exact Hv].
Defined.

(** The row is gone: the statement counts none. *)
Lemma failed_write_restores_witness :
  let op := Update (fun _ => Ok versioned_map) Sqlite.dialect bind_as_is fixed_clock
    (fun _ _ => sret (Ok 0%Z)) (fun _ _ => sret (Some (VInt KInt64 0))) product_type 1 in
  (op untracked).2 = Fail (NewError "CRUD-010" "Product") /\
  Get_at (env_heap (op untracked).1) 1 order_changed = zero_value TyTime.
Proof.
  intros op. assert (Hfail : (op untracked).2 = Fail (NewError "CRUD-010" "Product")) by (vm_compute; reflexivity).
  split; [exact Hfail|]. set (e' := (op untracked).1).
  assert (Hrun : op untracked = (e', Fail (NewError "CRUD-010" "Product"))).
  { rewrite <- Hfail. apply surjective_pairing. }
  destruct (failed_write_restores (fun _ => Ok versioned_map) Sqlite.dialect bind_as_is fixed_clock
    (fun _ _ => sret (Ok 0%Z)) (fun _ _ => sret (Some (VInt KInt64 0))) product_type 1 versioned_map op
    untracked e' (NewError "CRUD-010" "Product") (an_Update _ _ _ _ _ _ _ _) eq_refl) as [_ H]; [| |reflexivity|exact Hrun|].
  - assert (Hhook : hook_property (Properties versioned_map) order_changed).
    { split; [|split; [reflexivity|]]; change (Properties versioned_map) with [product_id; order_version; order_changed].
      - set_solver.
      - intros q Hq. rewrite !elem_of_cons, elem_of_nil in Hq. by destruct Hq as [->|[->|[->|[]]]]. }
    split.
    + intros p [= <-]. exact Hhook.
    + intros p [=].
    + by intros p [= <-].
  - intros p v Hp Hv. change (Properties versioned_map) with [product_id; order_version; order_changed] in Hp.
    rewrite !elem_of_cons, elem_of_nil in Hp.
    destruct Hp as [E|[E|[E|[]]]]; rewrite E in Hv |- *; vm_compute in Hv; try discriminate;
      injection Hv as <-; right; by split.
  - fold e' in H |- *. rewrite H; [reflexivity|]. change (Properties versioned_map) with [product_id; order_version; order_changed].
    set_solver.
Defined.
