(* ===== verification/OperationUndo.v ===== *)
(** What the journal gives back of one operation of a flush: the identity map
    and the written instance's own fields.  [OperationLaws] shows that the
    operation's effects on the identity map are journaled; here are its effects on
    the heap, which stay among the properties the record captured. *)
From S2P Require Import Prelude GoStrings Values Core Params Dialect Sqlite GeneratedSql.
From S2P Require Import Tracker Instances Session UnitOfWork Reach KeyFlow Batching Writes.
From S2P Require Import Journal Rollback OperationLaws FlushLaws WriteLaws.

Section Undo.
Context {D : Type} `{Names : NamedTypes}.
Notation env := (env (D := D)).
Notation write := (preparedWrite (E := env)).
Context (key_types : GoType -> list KeyType) (load : GoType -> result EntityMap) (dialect : Dialect)
  (ToDatabase : Value -> ColumnType -> string -> result Value)
  (FromDatabase : Value -> FieldType -> ColumnType -> string -> result Value)
  (Clock : nat -> Z * Z) (NewGUID : nat -> Value).

Definition forgets (u : undo) : Prop := exists id, u = UndoForget id.

(** ** Inside a write: only captured properties of the instance have moved *)

Section Inside.
Context (ptr : Ptr) (m : EntityMap) (h : heap) (j : list undo) (entry : option (nat * list Value)) (holder : option nat).
Notation ps := (Properties m).
Notation captured := (captured_properties m).
Context (Hplain : Forall (hook_property ps) captured) (Htyped : instance_typed ps (deref h ptr)).

Definition the_record : undo := UndoWrite ptr ((fun p => (p, Get_at h ptr p)) <$> captured) entry holder.
Definition inside (e : env) : Prop :=
  differs ptr ps h captured (env_heap e) /\
  exists rest, en_journal e = Some (j ++ the_record :: rest) /\ Forall forgets rest.

Lemma inside_same e e' : env_heap e' = env_heap e -> en_journal e' = en_journal e -> inside e -> inside e'.
Proof. unfold inside. by intros -> ->. Qed.

Lemma inside_forget e e' id :
  env_heap e' = env_heap e -> en_journal e' = (fun j => j ++ [UndoForget id]) <$> en_journal e -> inside e -> inside e'.
Proof.
  intros Hh Hj [H1 (rest & H2 & H3)]. split; [by rewrite Hh|]. exists (rest ++ [UndoForget id]). split.
  - rewrite Hj, H2. cbn. by rewrite <- app_assoc.
  - apply Forall_app. split; [done|]. repeat constructor. by exists id.
Qed.

Lemma captured_hook p : p ∈ captured -> hook_property ps p.
Proof. by apply Forall_forall. Qed.

Lemma inside_Set p v : p ∈ captured -> preserves inside (Set_prop ptr p v).
Proof.
  intros Hp e [H1 H2]. split.
  - rewrite env_heap_Set_prop. destruct (differs_set ptr ps h captured p v (env_heap e) (captured_hook p Hp) H1) as [D1 D2].
    split; [done|]. intros q Hq Hc. apply D2; [done|]. intros [->|?]%elem_of_cons; done.
  - unfold Set_prop, on_heap, on_session. by destruct (Set_at ptr p v (se_heap (en_session e))).
Qed.
Lemma inside_session : preserves inside get_session.
Proof. by intros e. Qed.
Lemma inside_tick : preserves inside next_tick.
Proof. by intros e. Qed.
Lemma inside_Get p : preserves inside (Get_prop ptr p).
Proof. by intros e. Qed.
#[local] Hint Resolve inside_session inside_tick inside_Get : kept.
Lemma inside_now : preserves inside (now Clock).
Proof. unfold now. kept. Qed.
#[local] Hint Resolve inside_now : kept.

Definition captured_priors (vs : list prior_value) : Prop := Forall (fun v : prior_value => v.1.1 = ptr /\ v.1.2 ∈ captured) vs.

Lemma inside_put_back vs e : captured_priors vs -> inside e -> inside (put_back_all vs e).
Proof.
  unfold put_back_all. revert e. induction vs as [|[[q p] v] vs IH]; intros e Hvs He; [done|].
  apply Forall_cons in Hvs as [[Hq Hp] Hvs]. cbn in Hq, Hp |- *. subst q. apply IH; [done|]. by apply inside_Set.
Qed.

Lemma inside_or_restore {A} (Q : A -> Prop) vs (c : SM env A) :
  captured_priors vs -> ensures inside Q c -> ensures inside Q (or_restore vs c).
Proof.
  intros Hvs Hc e He. destruct (Hc e He) as [H1 H2]. unfold or_restore.
  destruct (c e) as [e1 [a|err]]; [done|]. split; [by apply inside_put_back|done].
Qed.

Lemma key_captured p : p ∈ KeyProperties m -> p ∈ captured.
Proof. unfold captured_properties. rewrite !elem_of_app. auto. Qed.
Lemma version_captured p : VersionProperty m = Some p -> p ∈ captured.
Proof. intros E. unfold captured_properties. rewrite !elem_of_app, E. right; left. by left. Qed.
Lemma created_captured p : CreatedAtProperty m = Some p -> p ∈ captured.
Proof. intros E. unfold captured_properties. rewrite !elem_of_app, E. do 2 right; left. by left. Qed.
Lemma updated_captured p : UpdatedAtProperty m = Some p -> p ∈ captured.
Proof. intros E. unfold captured_properties. rewrite !elem_of_app, E. do 3 right; left. by left. Qed.
Lemma flag_captured p : SoftDeleteProperty m = Some p -> p ∈ captured.
Proof. intros E. unfold captured_properties. rewrite !elem_of_app, E. do 4 right. by left. Qed.

Lemma inside_fill : ensures inside captured_priors (fillCreatedAt Clock m ptr).
Proof.
  unfold fillCreatedAt. destruct (CreatedAtProperty m) as [p|] eqn:E; [|by apply ensures_ret, Forall_nil].
  apply created_captured in E. eapply ensures_bind; [apply ensures_preserves; kept|]. intros prior _.
  destruct (negb _); [by apply ensures_ret, Forall_nil|].
  eapply ensures_bind; [apply ensures_preserves; kept|]. intros instant _.
  eapply ensures_bind; [by apply ensures_preserves, inside_Set|]. intros _ _. apply ensures_ret. by repeat constructor.
Qed.

Lemma inside_stamp set : ensures inside (fun r => captured_priors r.2) (stampSet Clock m ptr set).
Proof.
  unfold stampSet. destruct (UpdatedAtProperty m) as [p|] eqn:E; [|by apply ensures_ret, Forall_nil].
  apply updated_captured in E. eapply ensures_bind; [apply ensures_preserves; kept|]. intros instant _.
  eapply ensures_bind; [apply ensures_preserves; kept|]. intros prior _.
  eapply ensures_bind; [by apply ensures_preserves, inside_Set|]. intros _ _. apply ensures_ret. by repeat constructor.
Qed.

(** ** What completes a write *)

Lemma inside_judge t n : preserves inside (updateJudge t m ptr n).
Proof.
  unfold updateJudge. destruct (VersionProperty m) as [p|] eqn:E; [|kept]. apply version_captured in E.
  destruct (_ =? 0)%Z; [kept|]. do 3 (apply sbind_preserves; [kept|intros ?]). by apply inside_Set.
Qed.

Lemma inside_add id : preserves inside (journal_add (UndoForget id)).
Proof. intros e He. by apply (inside_forget e _ id). Qed.

Lemma inside_update f : (forall s s', f s = Ok s' -> se_heap s' = se_heap s) -> preserves inside (update_session f).
Proof.
  intros Hf e He. unfold update_session, sbind, get_session, slift.
  destruct (f (en_session e)) as [s|err] eqn:E; [|done]. revert He. apply inside_same; [|done]. exact (Hf _ _ E).
Qed.

Lemma inside_track : preserves inside (trackJournaled ToDatabase m ptr).
Proof.
  intros e He. unfold trackJournaled. destruct (negb _); [done|]. revert e He.
  assert (H : forall holder', preserves inside
    (do! holder <- slift holder' in
     match holder with
     | Some x => if decide (te_ptr x <> ptr) then journal_add (UndoForget (te_seq x)) else sret tt
     | None => sret tt
     end ;!
     update_session (fun s => track ToDatabase s m ptr))); [|by intros e; apply H].
  intros holder'. apply sbind_preserves; [apply preserves_pure|]. intros holder0. apply sbind_preserves.
  - destruct holder0; [|apply preserves_ret]. case_decide; [apply inside_add|apply preserves_ret].
  - intros _. apply inside_update. intros s s'. unfold track.
    destruct (se_tracker s) as [tr|]; [|by intros [= <-]]. destruct (tracking s m); [|by intros [= <-]].
    destruct (keyOf m _) as [key ok]. destruct ok; [|by intros [= <-]]. cbn [negb].
    intros H. repeat (apply bind_Ok in H as (? & _ & H)). by apply Ok_inj in H as <-.
Qed.

Lemma inside_resnapshot id properties : preserves inside (resnapshot_entry ToDatabase id properties).
Proof.
  intros e He. unfold resnapshot_entry. destruct (se_tracker _) as [tr|]; [|done]. destruct (objects tr !! id) as [x|]; [|done].
  destruct (resnapshot _ _ _ _ _). revert He. by apply inside_same.
Qed.

Lemma inside_forgetEntry x : preserves inside (forgetEntryJournaled x).
Proof.
  unfold forgetEntryJournaled. destruct x as [x|]; [|apply preserves_ret].
  apply sbind_preserves; [apply inside_add|]. intros _. apply sbind_preserves; [kept|]. intros s.
  destruct (se_tracker s); [|apply preserves_pure]. apply inside_update. intros s0 s' H.
  apply bind_Ok in H as (? & _ & H). by apply Ok_inj in H as <-.
Qed.

Definition finishes (w : write) : Prop := forall f, pw_finish w = Some f -> forall r, preserves inside (f r).

Lemma counted_inside t text finish vs :
  (forall r, preserves inside (finish r)) -> ensures inside finishes (countedWrite dialect ToDatabase t m ptr text finish vs).
Proof.
  intros Hf. unfold countedWrite. do 3 (eapply ensures_bind; [apply ensures_preserves; kept|]; intros ? _).
  apply ensures_ret. by intros f [= <-].
Qed.

Lemma insert_inside t vs : ensures inside finishes (insertStatement dialect ToDatabase FromDatabase t m ptr vs).
Proof.
  unfold insertStatement. do 4 (eapply ensures_bind; [apply ensures_preserves; kept|]; intros ? _).
  apply ensures_ret. intros f [= <-] r. unfold finishInsert. apply sbind_preserves; [|intros; apply inside_track].
  destruct (generated_key m); [|kept]. destruct (KeyProperties m) as [|key keys] eqn:E; [kept|].
  apply sbind_preserves; [kept|]. intros v. apply inside_Set, key_captured. rewrite E. left.
Qed.

(** ** What prepares one *)

Context (Hload : load (Type_ m) = Ok m).

Lemma inside_gate m' : preserves inside (gate m' ptr).
Proof. unfold gate. kept. Qed.
Lemma inside_check m' written : preserves inside (check_navigations load m' ptr written).
Proof. unfold check_navigations. kept. Qed.
#[local] Hint Resolve inside_gate inside_check : kept.

Lemma inside_assignGuid : preserves inside (assignGuid NewGUID m ptr).
Proof.
  unfold assignGuid. case_bool_decide; [|kept]. destruct (KeyProperties m) as [|key keys] eqn:E; [kept|].
  apply sbind_preserves; [kept|]. intros v. case_bool_decide; [|kept]. apply sbind_preserves; [kept|]. intros n.
  apply inside_Set, key_captured. rewrite E. left.
Qed.

(** The map of the write is the record's. *)
Lemma ensures_map {B} (Q : B -> Prop) (r : result EntityMap) (k : EntityMap -> SM env B) :
  (forall m', r = Ok m' -> m' = m) -> ensures inside Q (k m) -> ensures inside Q (do! m' <- slift r in k m').
Proof.
  intros Hr Hk. eapply ensures_bind; [apply ensures_slift|]. intros m' Hm'. by rewrite (Hr m' Hm').
Qed.
Lemma table_map m' : requireTable load (Type_ m) = Ok m' -> m' = m.
Proof.
  unfold requireTable. rewrite Hload. cbn. case_bool_decide; [done|]. by intros E%Ok_inj.
Qed.
Lemma writable_map m' : requireWritableKeyedType load (Type_ m) = Ok m' -> m' = m.
Proof. intros H%requireWritableKeyedType_load. rewrite Hload in H. by apply Ok_inj in H. Qed.

Lemma prepareInsert_inside : ensures inside finishes (prepareInsert load dialect ToDatabase FromDatabase Clock NewGUID (Type_ m) ptr).
Proof.
  unfold prepareInsert. apply ensures_map; [apply table_map|].
  eapply ensures_bind; [apply ensures_preserves; kept|]. intros _ _.
  eapply ensures_bind; [apply ensures_preserves, inside_assignGuid|]. intros _ _.
  eapply ensures_bind; [apply ensures_preserves; kept|]. intros _ _.
  eapply ensures_bind; [apply inside_fill|]. intros filled Hfilled.
  apply inside_or_restore; [done|apply insert_inside].
Qed.

Definition finishes_option (o : option write) : Prop := forall w, o = Some w -> finishes w.

(** A stamped statement whose count is judged before it completes. *)
Lemma stamped_inside t set text (finish : list PropertyMap -> SM env unit) (more : list prior_value) :
  captured_priors more -> (forall set', preserves inside (finish set')) ->
  ensures inside finishes
    (do! (set', stamp) <- or_restore more (stampSet Clock m ptr set) in
     or_restore (more ++ stamp) (countedWrite dialect ToDatabase t m ptr (text set')
       (fun r => updateJudge t m ptr (wr_affected r) ;! finish set') (more ++ stamp))).
Proof.
  intros Hmore Hf. eapply ensures_bind; [apply inside_or_restore; [done|apply inside_stamp]|]. intros [set' stamp] Hst.
  apply inside_or_restore; [by apply Forall_app|]. apply counted_inside. intros r.
  apply sbind_preserves; [apply inside_judge|intros; apply Hf].
Qed.

Lemma prepareUpdate_inside : ensures inside finishes_option (prepareUpdate load dialect ToDatabase Clock (Type_ m) ptr).
Proof.
  unfold prepareUpdate, require_writable. apply ensures_map; [apply writable_map|].
  eapply ensures_bind; [apply ensures_preserves; kept|]. intros _ _.
  eapply ensures_bind; [apply ensures_preserves; kept|]. intros found _. destruct found as [x|].
  - unfold prepareTrackedUpdate. eapply ensures_bind; [apply ensures_preserves; kept|]. intros s _.
    eapply ensures_bind; [apply ensures_preserves; kept|]. intros changed _.
    destruct (List.filter _ _) as [|q qs]; [by apply ensures_ret|].
    eapply ensures_bind; [apply inside_stamp|]. intros [set stamp] Hst.
    eapply ensures_bind; [apply inside_or_restore; [done|apply counted_inside]|].
    { intros r. apply sbind_preserves; [apply inside_judge|intros; apply inside_resnapshot]. }
    intros w Hw. apply ensures_ret. by intros ? [= <-].
  - eapply ensures_bind; [apply inside_stamp|]. intros [set stamp] Hst.
    eapply ensures_bind; [apply inside_or_restore; [done|apply counted_inside]|].
    { intros r. apply sbind_preserves; [apply inside_judge|intros; apply inside_track]. }
    intros w Hw. apply ensures_ret. by intros ? [= <-].
Qed.

Lemma prepareDelete_inside : ensures inside finishes (prepareDeleteEntity load dialect ToDatabase Clock (Type_ m) ptr).
Proof.
  unfold prepareDeleteEntity, require_writable. apply ensures_map; [apply writable_map|].
  eapply ensures_bind; [apply ensures_preserves; kept|]. intros found _.
  destruct (SoftDeleteProperty m) as [flag|] eqn:E.
  - apply flag_captured in E. unfold prepareSoftDeleteEntity.
    eapply ensures_bind; [apply ensures_preserves; kept|]. intros prior _.
    eapply ensures_bind; [by apply ensures_preserves, inside_Set|]. intros _ _.
    apply (stamped_inside (Type_ m) [flag] (updateOnly_text dialect m) (fun _ => forgetEntryJournaled found) [(ptr, flag, prior)]).
    + by repeat constructor.
    + intros _. apply inside_forgetEntry.
  - eapply ensures_bind; [apply ensures_preserves; kept|]. intros text _. apply counted_inside. intros r.
    destruct (_ =? 0)%Z; [kept|apply inside_forgetEntry].
Qed.
End Inside.

(** ** Undoing *)

(** The closures added since [j] give the instance its fields back as [h] has
    them, and no other instance moves; the whole journal gives the identity map
    back as [tr0] had it. *)
Definition undone (tr0 : tracker) (h : heap) (m : EntityMap) (p : Ptr) (j : list undo) (e : env) : Prop :=
  exists added e1 e2, en_journal e = Some (j ++ added) /\
    forS undo_one (rev added) e = (e1, Ok tt) /\
    (forall q, q ∈ Properties m -> Get_at (env_heap e1) p q = Get_at h p q) /\
    (forall other, other <> p -> deref (env_heap e1) other = deref h other) /\
    rollback e = (e2, Ok tt) /\ same_map key_types tr0 e2.

Lemma update_session_heap f (e : env) :
  (forall s s', f s = Ok s' -> se_heap s' = se_heap s) -> env_heap (update_session f e).1 = env_heap e.
Proof.
  intros Hf. unfold update_session, sbind, get_session, slift. destruct (f (en_session e)) as [s|] eqn:E; [|done].
  exact (Hf _ _ E).
Qed.

Lemma tracker_opt_heap f s s' : with_tracker_opt f s = Ok s' -> se_heap s' = se_heap s.
Proof.
  unfold with_tracker_opt. destruct (se_tracker s); [|by intros [= <-]]. intros H. apply bind_Ok in H as (? & _ & H). by apply Ok_inj in H as <-.
Qed.

Lemma undo_forgets_heap l (e : env) : Forall forgets l -> env_heap (forS undo_one l e).1 = env_heap e.
Proof.
  intros Hl. revert e. induction Hl as [|u l [id ->] _ IH]; intros e; [done|]. cbn [forS]. unfold sbind at 1.
  pose proof (update_session_heap (with_tracker_opt (fun tr => restore_id tr id)) e (tracker_opt_heap _)) as Hh.
  change (undo_one (UndoForget id) e) with (update_session (with_tracker_opt (fun tr => restore_id tr id)) e).
  destruct (update_session _ e) as [e1 [[]|err]]; cbn in Hh; [|done]. by rewrite IH.
Qed.

Lemma undo_write_heap p values entry holder (e : env) :
  env_heap (undo_one (UndoWrite p values entry holder) e).1 = env_heap (put_back_all ((fun v => (p, v.1, v.2)) <$> values) e).
Proof. cbn [undo_one]. unfold sbind at 1. apply update_session_heap, tracker_opt_heap. Qed.

Lemma forS_app_run {S A} (f : A -> SM S unit) l1 l2 s s1 :
  forS f l1 s = (s1, Ok tt) -> forS f (l1 ++ l2) s = forS f l2 s1.
Proof.
  revert s. induction l1 as [|x l1 IH]; intros s H; [by injection H as <-|]. cbn [forS app] in *. unfold sbind in *.
  destruct (f x s) as [s' [a|]]; [by apply IH|done].
Qed.

(** The prefix of a journal that rolls back rolls back. *)
Lemma rollback_prefix e0 tr0 (e : env) j added :
  se_tracker (en_session e0) = Some tr0 -> tracker_ok key_types tr0 -> en_journal e0 = Some [] ->
  rtc (journaled (D := D) key_types ToDatabase) e0 e -> en_journal e = Some (j ++ added) ->
  exists e1 e2, forS undo_one (rev added) e = (e1, Ok tt) /\ rollback e = (e2, Ok tt) /\ same_map key_types tr0 e2.
Proof.
  intros Hs Hok Hj H He.
  destruct (journaled_returns key_types ToDatabase tr0 tr0 [] e0 e (returns_start key_types tr0 Hok))
    as (tr & R & (_ & _ & t & Ht & Hokt & Hrel) & Hst); [by split|done|].
  destruct (rollback_state tr R e t Hst Ht) as (e2 & He2 & Hs2 & _).
  assert (R = rev added ++ rev j) as ->.
  { pose proof (proj2 Hst) as HR. rewrite He in HR. injection HR as HR. by rewrite <- (rev_involutive R), <- HR, rev_app_distr. }
  unfold tracker_rollback in Ht. rewrite foldR_app in Ht. apply bind_Ok in Ht as (t1 & Ht1 & _).
  destruct (undo_all_state (rev added) tr _ e t1 Hst Ht1) as (e1 & He1 & _). exists e1, e2. split; [done|]. split; [done|].
  destruct (returned_entries key_types tr0 t Hok Hokt Hrel) as [Hentry Hall]. by exists t.
Qed.

Lemma inside_undone e0 tr0 (e : env) m p h j entry holder :
  se_tracker (en_session e0) = Some tr0 -> tracker_ok key_types tr0 -> en_journal e0 = Some [] ->
  rtc (journaled (D := D) key_types ToDatabase) e0 e ->
  Forall (hook_property (Properties m)) (captured_properties m) -> instance_typed (Properties m) (deref h p) ->
  inside p m h j entry holder e -> undone tr0 h m p j e.
Proof.
  intros Hs Hok Hj H Hplain Htyped [Hd (rest & Hje & Hrest)].
  destruct (rollback_prefix e0 tr0 e j (the_record p m h entry holder :: rest) Hs Hok Hj H Hje) as (e1 & e2 & He1 & He2 & Hmap).
  exists (the_record p m h entry holder :: rest), e1, e2. split; [done|]. split; [done|].
  assert (Hheap : differs p (Properties m) h [] (env_heap e1)); [|split_and!; [|apply Hheap|done|done]].
  2:{ intros q Hq. apply Hheap; [done|apply not_elem_of_nil]. }
  replace e1 with (forS undo_one (rev (the_record p m h entry holder :: rest)) e).1 by (by rewrite He1).
  cbn [rev]. pose proof (undo_forgets_heap (rev rest) e) as Hf. rewrite Forall_forall in Hf.
  specialize (Hf (fun u Hu => proj1 (Forall_forall _ _) Hrest u ltac:(by apply list_elem_of_In, in_rev, list_elem_of_In))).
  destruct (forS undo_one (rev rest) e) as [e3 [[]|err]] eqn:E3.
  2:{ exfalso. cbn [rev] in He1. clear -He1 E3. revert e He1 E3. generalize (rev rest) as l.
      intros l. induction l as [|x l IH]; intros e He1 E3; [done|]. cbn [forS app] in *. unfold sbind in *.
      destruct (undo_one x e) as [s' [a|]]; [by eapply IH|]. done. }
  rewrite (forS_app_run _ _ _ _ _ E3). cbn [fst] in Hf. cbn [forS]. unfold sbind at 1.
  pose proof (undo_write_heap p ((fun q => (q, Get_at h p q)) <$> captured_properties m) entry holder e3) as Hw.
  change (undo_one (UndoWrite p ((fun q => (q, Get_at h p q)) <$> captured_properties m) entry holder) e3) with
    (undo_one (the_record p m h entry holder) e3) in Hw.
  rewrite <- list_fmap_compose in Hw.
  pose proof (put_back_differs p (Properties m) h Htyped (captured_properties m) e3 Hplain) as Hp.
  rewrite Hf in Hp. specialize (Hp Hd). unfold priors in Hp.
  change ((fun v : PropertyMap * Value => (p, v.1, v.2)) ∘ (fun q => (q, Get_at h p q))) with (fun q => (p, q, Get_at h p q)) in Hw.
  rewrite <- Hw in Hp. destruct (undo_one (the_record p m h entry holder) e3) as [e4 [[]|err]]; exact Hp.
Qed.

(** [recordWrite] captures the instance as it is. *)
Lemma recordWrite_inside m p (e e1 : env) j :
  en_journal e = Some j -> recordWrite m p e = (e1, Ok tt) ->
  exists entry holder, inside p m (env_heap e) j entry holder e1.
Proof.
  intros Hj. unfold recordWrite, sbind, slift. rewrite Hj. destruct (key_holder _ _ _) as [holder|]; [|done].
  intros [= <-]. eexists _, _. split; [by split|]. exists []. split; [|constructor]. cbn. rewrite Hj. reflexivity.
Qed.

(** ** An operation *)

Section Operation.
Context (e0 : env) (tr0 : tracker) (Hs0 : se_tracker (en_session e0) = Some tr0) (Hok0 : tracker_ok key_types tr0)
  (Hj0 : en_journal e0 = Some []).
Notation reached := (rtc (journaled (D := D) key_types ToDatabase) e0).

(** [prepare] and what completes its write are undone, from the heap [h] on. *)
Definition undoes (m : EntityMap) (p : Ptr) (h : heap) (j : list undo) (prepare : SM env (option write)) (e : env) : Prop :=
  undone tr0 h m p j (prepare e).1 /\
  forall w f e2 r, (prepare e).2 = Ok (Some w) -> pw_finish w = Some f ->
    en_session e2 = en_session (prepare e).1 -> en_journal e2 = en_journal (prepare e).1 ->
    keyed_instance key_types m (deref (env_heap (f r e2).1) p) -> undone tr0 h m p j (f r e2).1.

Lemma reached_tracked e j : reached e -> en_journal e = Some j ->
  exists tr, se_tracker (en_session e) = Some tr /\ tracker_ok key_types tr.
Proof.
  intros H _. destruct (journaled_returns key_types ToDatabase tr0 tr0 [] e0 e (returns_start key_types tr0 Hok0))
    as (tr & R & Hr & Hs & _); [by split|done|]. exists tr. split; [done|apply Hr].
Qed.

Lemma record_undoes m p e j prepare :
  reached e -> en_journal e = Some j -> keyed_instance key_types m (deref (env_heap e) p) ->
  Forall (hook_property (Properties m)) (captured_properties m) -> instance_typed (Properties m) (deref (env_heap e) p) ->
  reached ((recordWrite m p ;! prepare) e).1 ->
  (forall w f, ((recordWrite m p ;! prepare) e).2 = Ok (Some w) -> pw_finish w = Some f ->
    forall e2 r, se_tracker (en_session e2) = se_tracker (en_session ((recordWrite m p ;! prepare) e).1) ->
      en_journal e2 = en_journal ((recordWrite m p ;! prepare) e).1 ->
      keyed_instance key_types m (deref (env_heap (f r e2).1) p) -> rtc (journaled (D := D) key_types ToDatabase) e2 (f r e2).1) ->
  (forall entry holder, ensures (inside p m (env_heap e) j entry holder)
     (finishes_option p m (env_heap e) j entry holder) prepare) ->
  undoes m p (env_heap e) j (recordWrite m p ;! prepare) e.
Proof.
  intros Hr Hj Hk Hplain Htyped Hend H2 Hin. destruct (reached_tracked e j Hr Hj) as (tr & Htr & Hok).
  destruct (recordWrite_spec key_types tr j e m p Hok Htr Hj Hk) as (er & values & holder0 & Erec & _).
  destruct (recordWrite_inside m p e er j Hj Erec) as (entry & holder & Hir).
  destruct (Hin entry holder er Hir) as [Hi Hf].
  assert (Eall : (recordWrite m p ;! prepare) e = prepare er) by (unfold sbind; by rewrite Erec).
  unfold undoes. rewrite Eall in *.
  split; [by apply (inside_undone e0 tr0 _ m p _ j entry holder)|].
  intros w f e2 r Hw Hfin Es Ej Hk2.
  assert (Hi2 : inside p m (env_heap e) j entry holder e2) by (revert Hi; apply inside_same; [by unfold env_heap; rewrite Es|done]).
  assert (Hr2 : reached e2).
  { eapply rtc_r; [exact Hend|]. apply journaled_other; [by rewrite Es|done]. }
  apply (inside_undone e0 tr0 _ m p _ j entry holder); try done.
  - etrans; [exact Hr2|]. by apply (H2 w f Hw Hfin); [rewrite Es|..].
  - by apply (Hf _ Hw w eq_refl f Hfin r e2).
Qed.

Lemma nothing_undone e e1 m p j :
  reached e -> en_journal e = Some j -> reached e1 -> en_journal e1 = Some j -> undone tr0 (env_heap e1) m p j e1.
Proof.
  intros Hr Hj Hr1 Hj1. destruct (rollback_prefix e0 tr0 e1 j [] Hs0 Hok0 Hj0 Hr1) as (e3 & e2 & E3 & E2 & Hmap).
  { by rewrite app_nil_r. }
  exists [], e1, e2. rewrite app_nil_r. by split_and!.
Qed.
End Operation.

(** C31. The journal undoes a flush's operation: in a tracked session whose call
    has journaled its effects so far, take an insert, an update or a delete - the
    foreign keys, the record, the checks, gates and hooks, the bound statement,
    and after any statement the completion: the judged count, the generated key,
    the version, the registration, the moved snapshot, the forgotten entry -
    whether and wherever it fails.  Running the closures it added gives every
    mapped property of the instance back as it read when it was recorded - for an
    insert, after the foreign keys flowed, which the record does not capture - and
    no other instance has moved; and the whole journal gives every tracked
    instance its entry, key, snapshot and number of the call's start. *)
Theorem flush_operation_undone (op : operation (E := env)) (m : EntityMap) (p : Ptr) (flow : heap -> heap)
    (e0 e : env) (tr0 : tracker) (j : list undo) :
  flush_operation load dialect ToDatabase FromDatabase Clock NewGUID op m p flow -> load (Type_ m) = Ok m ->
  se_tracker (en_session e0) = Some tr0 -> tracker_ok key_types tr0 -> en_journal e0 = Some [] ->
  rtc (journaled (D := D) key_types ToDatabase) e0 e -> en_journal e = Some j ->
  keyed_instance key_types m (deref (flow (env_heap e)) p) ->
  Forall (hook_property (Properties m)) (captured_properties m) ->
  instance_typed (Properties m) (deref (flow (env_heap e)) p) ->
  undoes tr0 m p (flow (env_heap e)) j (op_prepare op) e.
Proof.
  intros Hop Hload Hs0 Hok0 Hj0 Hr Hj Hk Hplain Htyped.
  destruct (reached_tracked e0 tr0 Hs0 Hok0 Hj0 e j Hr Hj) as (tr & Htr & Hok).
  pose proof (operation_journals key_types load dialect ToDatabase FromDatabase Clock NewGUID op m p flow e tr j
    Hop Hload Htr Hok Hj Hk) as Hjournals.
  destruct Hop as [x|x|x]; cbn [op_prepare insert_operation update_operation delete_operation] in *.
  - set (rest := recordWrite _ _ ;! _) in *.
    change ((on_heap (flowKeys load x) ;! rest)) with (sbind (on_heap (flowKeys load x)) (fun _ => rest)) in *.
    pose proof (kept_heap (Some tr) (Some j) (flowKeys load x) e) as [H1s H1j]; [done|].
    assert (Hheap : env_heap (on_heap (flowKeys load x) e).1 = (flowKeys load x (env_heap e)).1).
    { unfold on_heap, on_session, env_heap. by destruct (flowKeys load x (se_heap (en_session e))). }
    assert (Hr1 : rtc (journaled (D := D) key_types ToDatabase) e0 (on_heap (flowKeys load x) e).1).
    { eapply rtc_r; [exact Hr|]. apply journaled_other; congruence. }
    destruct (on_heap (flowKeys load x) e) as [e1 [[]|err]] eqn:Ef; cbn [fst] in *; rewrite <- Hheap in *.
    + assert (Eall : (sbind (on_heap (flowKeys load x)) (fun _ => rest)) e = rest e1) by (unfold sbind; by rewrite Ef).
      unfold undoes. rewrite Eall. unfold journals in Hjournals. rewrite Eall in Hjournals.
      destruct (record_undoes e0 tr0 Hs0 Hok0 Hj0 (si_m x) (si_ptr x) e1 j
        (do! w <- prepareInsert load dialect ToDatabase FromDatabase Clock NewGUID (Type_ (si_m x)) (si_ptr x) in sret (Some w))
        Hr1 H1j Hk Hplain Htyped) as [U1 U2]; [by etrans; [|apply Hjournals]|apply Hjournals| |by split].
      intros entry holder. apply ensures_Some. by apply prepareInsert_inside.
    + assert (Eall : (sbind (on_heap (flowKeys load x)) (fun _ => rest)) e = (e1, Fail err)) by (unfold sbind; by rewrite Ef).
      unfold undoes. rewrite Eall. split; [by eapply nothing_undone|done].
  - destruct Hjournals. apply (record_undoes e0 tr0 Hs0 Hok0 Hj0); try done; [by etrans|]. intros entry holder. by apply prepareUpdate_inside.
  - destruct Hjournals. apply (record_undoes e0 tr0 Hs0 Hok0 Hj0); try done; [by etrans|]. intros entry holder. apply ensures_Some. by apply prepareDelete_inside.
Qed.
End Undo.

(** ** Witness: the row of a tracked product goes, and comes back *)
#[local] Existing Instance user_id_type.

Lemma product_captured : Forall (hook_property (Properties product_map)) (captured_properties product_map).
Proof.
  change (captured_properties product_map) with [product_id]. change (Properties product_map) with [product_id; product_name; product_note].
  repeat constructor.
  intros q [->|[->|[->|[]%not_elem_of_nil]%elem_of_cons]%elem_of_cons]%elem_of_cons; done.
Qed.

(** The completion of a delete that changed one row. *)
Definition deleted_product : env (D := unit) :=
  let '(e, r) := op_prepare delete_product before_write in
  match r with
  | Ok (Some w) => match pw_finish w with Some f => (f (mkWriteResult VNil 1) e).1 | None => before_write end
  | _ => before_write
  end.

Lemma flush_operation_undone_witness :
  Session.entryOf (en_session deleted_product) 1 = None /\
  undone product_keys first_copy (env_heap before_write) product_map 1 [] deleted_product.
Proof.
  split; [vm_compute; reflexivity|].
  assert (Hend : match (op_prepare delete_product before_write).2 with
                 | Ok (Some w) => bool_decide (is_Some (pw_finish w)) | _ => false end = true) by (vm_compute; reflexivity).
  destruct (flush_operation_undone product_keys load_product Sqlite.dialect bind_as_is
    (fun v _ _ _ => Ok v) fixed_clock (fun n => VGuid "") delete_product product_map 1 (fun h => h)
    before_write before_write first_copy []) as [_ H].
  - apply (a_delete load_product Sqlite.dialect bind_as_is (fun v _ _ _ => Ok v) fixed_clock (fun n => VGuid "")
      (mkRemove 1 product_map 0)).
  - reflexivity.
  - reflexivity.
  - exact first_copy_ok.
  - reflexivity.
  - apply rtc_refl.
  - reflexivity.
  - by apply product_keyed.
  - apply product_captured.
  - apply (fn_typed _ _ product_fine). right; right. exists (mkRemove 1 product_map 0). split; [left|done].
  - assert (Hkey : keyed_instance product_keys product_map (deref (env_heap deleted_product) 1)).
    { assert (deref (env_heap deleted_product) 1 = deref (env_heap before_write) 1) as -> by (vm_compute; reflexivity).
      by apply product_keyed. }
    revert Hkey. unfold deleted_product. destruct (op_prepare delete_product before_write) as [e r]. cbn [fst snd] in *.
    destruct r as [[w|]|]; [|discriminate Hend..]. apply bool_decide_eq_true in Hend as [f Hf]. rewrite Hf.
    apply (H w f e (mkWriteResult VNil 1) eq_refl Hf eq_refl eq_refl).
Defined.
