(* ===== verification/BatchingLaws.v ===== *)
(** The rules a call's messages keep (the theorems of [Batching]). *)
From S2P Require Import Prelude GoStrings Values Core Params Tracker Instances Session UnitOfWork Cascades Batching.

Section Laws.
Context {E : Type} (heap_of : E -> heap) (ctx_Err : E -> option Error)
  (SendMessage : option (list (preparedWrite (E := E)) -> SM E (list writeResult)))
  (runWrite : preparedWrite (E := E) -> SM E writeResult).

Notation write := (preparedWrite (E := E)).
Notation call := (batchCall (E := E)).
Notation operation := (operation (E := E)).
Notation state := (state (E := E)).
Notation send_ := (send ctx_Err SendMessage runWrite).
Notation before_ := (before heap_of ctx_Err SendMessage runWrite).
Notation add_ := (add heap_of ctx_Err SendMessage runWrite).
Notation feed_ := (feed heap_of ctx_Err SendMessage runWrite).
Notation feed_all_ := (feed_all heap_of ctx_Err SendMessage runWrite).
Notation run_ := (run heap_of ctx_Err SendMessage runWrite).

(** ** What a run did, operation by operation *)

(** A statement, what rule 1 was asked, and the key it was about before its
    preparation and as it was added. *)
Record entry := mkEntry {
  en_subject : subject;
  en_before : option KeyTuple;
  en_added : option KeyTuple;
  en_write : write }.

Definition flush_first (w : write) : SM state unit :=
  do! (c, _) <- sget in if must_flush c w then send_ else sret tt.

Definition feed_entry (op : operation) (st : state) : option entry :=
  match op_subject op st.2 with
  | Fail _ => None
  | Ok s =>
      match (before_ s ;! on_env (op_prepare op)) st with
      | (st1, Ok (Some w)) =>
          match flush_first w st1 with
          | (st2, Ok _) => Some (mkEntry s (keyNow (heap_of st.2) s) (keyNow (heap_of st2.2) s) w)
          | _ => None
          end
      | _ => None
      end
  end.

Fixpoint feed_trace (ops : list operation) (st : state) : list entry :=
  match ops with
  | [] => []
  | op :: ops' =>
      match feed_ op st with
      | (st', Ok _) => option_list (feed_entry op st) ++ feed_trace ops' st'
      | (_, Fail _) => []
      end
  end.

(** ** The rules *)

(** Rules 1 and 2 between a statement and a later one of the same message: the
    later writes another instance, reads no key the earlier generates, is about
    another key of the type, and reads no result behind a command. *)
Record independent (e1 e2 : entry) : Prop := {
  id_instance : forall p, su_instance (en_subject e2) = Some p -> pw_instance (en_write e1) <> Some p;
  id_generated : forall p, p ∈ su_depends (en_subject e2) ->
    pw_generatesKey (en_write e1) = true -> pw_instance (en_write e1) <> Some p;
  id_key : forall k1 k2, en_added e1 = Some k1 -> en_before e2 = Some k2 ->
    subject_type (en_subject e1) = subject_type (en_subject e2) -> KeyTuple_Compare k1 k2 <> Ok 0%Z;
  id_command : pw_command (en_write e1) = true -> readsResult (en_write e2) = false }.

Definition parameters (g : list entry) : nat := sum_list_with (fun e => length (pw_args (en_write e))) g.

Record message_ok (c : call) (g : list entry) : Prop := {
  mo_independent : ForallOrdPairs independent g;
  mo_parameters : (0 < bc_parameterCap c)%Z ->
    (Z.of_nat (parameters g) <= bc_parameterCap c)%Z \/ length g <= 1;
  mo_limit : (Z.of_nat (length g) <= Z.max 1 (if bc_auto c then bc_limit c else 1))%Z }.

(** ** The invariant *)

(** The message in progress holds the statements [cur]. *)
Record holds (m : message (E := E)) (cur : list entry) : Prop := {
  hd_writes : ms_writes m = map en_write cur;
  hd_instances : forall p, p ∈ ms_instances m <-> exists e, e ∈ cur /\ pw_instance (en_write e) = Some p;
  hd_generated : forall p, p ∈ ms_generated m <->
    exists e, e ∈ cur /\ pw_generatesKey (en_write e) = true /\ pw_instance (en_write e) = Some p;
  hd_keys : ms_keys m = omap (fun e => pair (subject_type (en_subject e)) <$> en_added e) cur;
  hd_command : ms_hasCommand m = existsb (fun e => pw_command (en_write e)) cur;
  hd_parameters : ms_parameters m = parameters cur }.

(** Between operations: the messages sent are [groups], and the one in progress
    is not full. *)
Record call_inv (c : call) (groups : list (list entry)) (cur : list entry) : Prop := {
  cv_messages : bc_messages c = map (map en_write) groups;
  cv_groups : Forall (fun g => g <> [] /\ message_ok c g) groups;
  cv_current : holds (bc_current c) cur;
  cv_message : message_ok c cur;
  cv_room : cur = [] \/ (bc_auto c = true /\ (Z.of_nat (length cur) < bc_limit c)%Z) }.

Lemma holds_new : holds newMessage [].
Proof.
  split; cbn; try done; intros p; split; try done.
  all: intros (e & []%not_elem_of_nil & _).
Qed.

Lemma message_ok_nil c : message_ok c [].
Proof. split; [apply FOP_nil|intros _; right; simpl; lia|]. simpl. lia. Qed.

(** The plan of a call, beside its effects. *)
Definition same_plan (c c' : call) : Prop :=
  bc_auto c' = bc_auto c /\ bc_limit c' = bc_limit c /\ bc_parameterCap c' = bc_parameterCap c /\
  bc_current c' = bc_current c /\ bc_messages c' = bc_messages c.

Lemma same_plan_inv c c' groups cur : same_plan c c' -> call_inv c groups cur -> call_inv c' groups cur.
Proof.
  intros (H1 & H2 & H3 & H4 & H5) [I1 I2 I3 I4 I5].
  assert (Hm : forall g, message_ok c g -> message_ok c' g)
    by (intros g [A B C]; split; rewrite ?H1, ?H2, ?H3; done).
  split; rewrite ?H1, ?H2, ?H4, ?H5; try done; [|by apply Hm].
  eapply Forall_impl; [exact I2|]. intros g [? ?]. auto.
Qed.

Lemma on_env_plan {A} (m : SM E A) c :
  preserves (fun st : state => same_plan c st.1) (on_env m).
Proof. intros [c1 e] H. unfold on_env. by destruct (m e). Qed.

Lemma complete_plan w r c : preserves (fun st : state => same_plan c st.1) (complete w r).
Proof.
  unfold complete. apply sbind_preserves; [apply on_env_plan|]. intros _ [c1 e] H. cbn.
  unfold record_affected. by destruct (pw_kind w).
Qed.

Lemma complete_all_plan ws rs c : preserves (fun st : state => same_plan c st.1) (complete_all ws rs).
Proof.
  revert rs. induction ws as [|w ws IH]; intros rs; [apply preserves_ret|]. cbn [complete_all].
  destruct rs as [|r rs]; [apply preserves_pure|].
  apply sbind_preserves; [apply complete_plan|]. intros _. apply IH.
Qed.

(** What a send leaves of the plan: the message in progress became the last
    message sent, if it held anything. *)
Definition sent (c : call) : call :=
  mkCall (bc_auto c) (bc_limit c) (bc_parameterCap c) newMessage
    match ms_writes (bc_current c) with [] => bc_messages c | ws => bc_messages c ++ [ws] end
    (bc_affected c).

Lemma send_plan c e : same_plan (sent c) (send_ (c, e)).1.1.
Proof.
  unfold send. unfold sbind at 1, take_message.
  assert (Hs : same_plan (sent c) (mkCall (bc_auto c) (bc_limit c) (bc_parameterCap c) newMessage
    match ms_writes (bc_current c) with [] => bc_messages c | _ => bc_messages c ++ [ms_writes (bc_current c)] end
    (bc_affected c))).
  { unfold sent. by destruct (ms_writes (bc_current c)). }
  destruct (ms_writes (bc_current c)) as [|w ws] eqn:Ew; [exact Hs|].
  set (c1 := mkCall _ _ _ _ _ _) in *.
  assert (Hp : preserves (fun st : state => same_plan (sent c) st.1)
    (do! (_, e) <- sget in
     match ctx_Err e with
     | Some err => sthrow err
     | None =>
         match SendMessage with
         | Some sendMessage => do! results <- on_env (sendMessage (w :: ws)) in complete_all (w :: ws) results
         | None => forS (fun w => do! result <- on_env (runWrite w) in complete w result) (w :: ws)
         end
     end)).
  { apply preserves_get. intros [c2 e2] H2. destruct (ctx_Err e2); [exact H2|].
    destruct SendMessage as [f|].
    - refine (sbind_preserves (fun st : state => same_plan (sent c) st.1) _ _ _ _ (c2, e2) H2);
        [apply on_env_plan|]. intros rs. apply complete_all_plan.
    - refine (forS_preserves (fun st : state => same_plan (sent c) st.1) _ _ _ (c2, e2) H2). intros w' _.
      apply sbind_preserves; [apply on_env_plan|]. intros r. apply complete_plan. }
  exact (Hp (c1, e) Hs).
Qed.

(** Sending a message that may be sent keeps the invariant, and leaves no
    message in progress. *)
Lemma send_inv c e groups cur :
  bc_messages c = map (map en_write) groups ->
  Forall (fun g => g <> [] /\ message_ok c g) groups ->
  holds (bc_current c) cur -> message_ok c cur ->
  let c' := (send_ (c, e)).1.1 in
  call_inv c' (groups ++ match cur with [] => [] | _ => [cur] end) [] /\
  concat (groups ++ match cur with [] => [] | _ => [cur] end) = concat groups ++ cur /\
  bc_auto c' = bc_auto c /\ bc_limit c' = bc_limit c /\ bc_parameterCap c' = bc_parameterCap c.
Proof.
  intros Hmsg Hg Hh Hok c'. pose proof (send_plan c e) as Hp. fold c' in Hp.
  assert (Hm : forall g, message_ok c g -> message_ok (sent c) g) by (by intros g [A B C]).
  split; [|split].
  - eapply same_plan_inv; [exact Hp|]. split; cbn.
    + rewrite (hd_writes _ _ Hh), Hmsg. destruct cur as [|x cur]; [by rewrite app_nil_r|].
      by rewrite map_app.
    + apply Forall_app. split.
      * eapply Forall_impl; [exact Hg|]. intros g [? ?]. auto.
      * destruct cur; [constructor|]. constructor; [|constructor]. auto.
    + apply holds_new.
    + apply message_ok_nil.
    + by left.
  - rewrite concat_app. destruct cur; cbn; by rewrite ?app_nil_r.
  - destruct Hp as (H1 & H2 & H3 & _). auto.
Qed.

(** ** [before]: what it lets through is independent of the message *)

Lemma key_held_false keys t key :
  key_held keys t key = Ok false -> forall k, (t, k) ∈ keys -> KeyTuple_Compare k key <> Ok 0%Z.
Proof.
  induction keys as [|[t' held] keys IH]; cbn [key_held]; intros H k Hk; [by apply not_elem_of_nil in Hk|].
  apply elem_of_cons in Hk as [Heq|Hk].
  - injection Heq as <- <-. rewrite decide_True in H by done.
    apply bind_Ok in H as (c & Hc & H). rewrite Hc. destruct (Z.eqb_spec c 0); [discriminate|congruence].
  - case_decide; [|by eapply IH].
    apply bind_Ok in H as (c & Hc & H). destruct (c =? 0)%Z; [discriminate|by eapply IH].
Qed.

(** Rule 1 between [cur] and an operation about to be prepared. *)
Definition may_join (cur : list entry) (h : heap) (s : subject) : Prop :=
  forall e1, e1 ∈ cur ->
    (forall p, su_instance s = Some p -> pw_instance (en_write e1) <> Some p) /\
    (forall p, p ∈ su_depends s -> pw_generatesKey (en_write e1) = true -> pw_instance (en_write e1) <> Some p) /\
    (forall k1 k2, en_added e1 = Some k1 -> keyNow h s = Some k2 ->
       subject_type (en_subject e1) = subject_type s -> KeyTuple_Compare k1 k2 <> Ok 0%Z).

Lemma must_cut_false m cur h s : holds m cur -> must_cut m h s = Ok false -> may_join cur h s.
Proof.
  intros [Hw Hi Hg Hk Hc Hp] H e1 He1. unfold must_cut in H.
  destruct (match su_instance s with Some p => _ | None => _ end || _) eqn:Eb; [done|].
  apply orb_false_iff in Eb as [E1 E2]. split; [|split].
  - intros p Hsp Hwp. rewrite Hsp in E1. apply bool_decide_eq_false in E1. apply E1, Hi. by exists e1.
  - intros p Hsp Hgk Hwp.
    assert (Hcontra : existsb (fun parent => bool_decide (parent ∈ ms_generated m)) (su_depends s) = true).
    { apply existsb_exists. exists p. split; [by apply list_elem_of_In|].
      apply bool_decide_eq_true, Hg. by exists e1. }
    congruence.
  - intros k1 k2 Hk1 Hk2 Ht. rewrite Hk2 in H. apply (key_held_false _ _ _ H).
    rewrite Hk. apply list_elem_of_omap. exists e1. split; [done|]. by rewrite Hk1, <- Ht.
Qed.

Lemma before_inv c e groups cur s st' :
  call_inv c groups cur -> before_ s (c, e) = (st', Ok tt) ->
  exists groups' cur', call_inv st'.1 groups' cur' /\ concat groups' ++ cur' = concat groups ++ cur /\
    may_join cur' (heap_of e) s.
Proof.
  intros Hinv H. pose proof Hinv as [I1 I2 I3 I4 I5]. unfold before in H. unfold sbind at 1, sget in H.
  assert (Hnil : may_join [] (heap_of e) s) by (by intros e1 []%not_elem_of_nil).
  destruct (ms_writes (bc_current c)) as [|w ws] eqn:Ew.
  { injection H as <-. exists groups, cur. split; [done|]. split; [done|].
    rewrite (hd_writes _ _ I3) in Ew. by destruct cur. }
  unfold sbind, slift in H. destruct (must_cut (bc_current c) (heap_of e) s) as [cut|] eqn:Ec; [|done].
  destruct cut.
  - destruct (send_inv c e groups cur I1 I2 I3 I4) as (Hinv' & Hcat & _). rewrite H in Hinv'.
    eexists _, []. split; [exact Hinv'|]. split; [by rewrite app_nil_r|done].
  - injection H as <-. exists groups, cur. split; [done|]. split; [done|]. by eapply must_cut_false.
Qed.

(** ** [add] *)

Lemma FOP_snoc {A} (R : A -> A -> Prop) l x :
  ForallOrdPairs R l -> Forall (fun y => R y x) l -> ForallOrdPairs R (l ++ [x]).
Proof.
  induction 1 as [|y l Hy _ IH]; intros Hx; cbn; [repeat constructor|].
  inversion Hx as [|? ? Hyx Hl]; subst. constructor; [|by apply IH].
  apply List.Forall_app. split; [done|]. by repeat constructor.
Qed.

Lemma holds_add m cur en :
  holds m cur ->
  holds (add_write (en_write en) (pair (subject_type (en_subject en)) <$> en_added en) m) (cur ++ [en]).
Proof.
  intros [Hw Hi Hg Hk Hc Hp].
  assert (Hin : forall (P : entry -> Prop), (exists e, e ∈ cur ++ [en] /\ P e) <-> (exists e, e ∈ cur /\ P e) \/ P en).
  { intros P. setoid_rewrite elem_of_app. setoid_rewrite list_elem_of_singleton. naive_solver. }
  assert (Hio : forall ps p, p ∈ insert_opt (pw_instance (en_write en)) ps <-> p ∈ ps \/ pw_instance (en_write en) = Some p).
  { intros ps p. unfold insert_opt. destruct (pw_instance (en_write en)); set_solver. }
  split; cbn.
  - by rewrite Hw, map_app.
  - intros p. rewrite Hio, Hi, (Hin (fun e => pw_instance (en_write e) = Some p)). done.
  - intros p. rewrite (Hin (fun e => pw_generatesKey (en_write e) = true /\ pw_instance (en_write e) = Some p)), <- Hg.
    destruct (pw_generatesKey (en_write en)); [rewrite Hio|]; naive_solver.
  - rewrite omap_app, <- Hk. cbn. by destruct (en_added en).
  - rewrite existsb_app, <- Hc. cbn. by rewrite orb_false_r, orb_comm.
  - unfold parameters in *. rewrite sum_list_with_app, <- Hp. cbn. lia.
Qed.

Lemma existsb_none {A} (f : A -> bool) l x : existsb f l = false -> x ∈ l -> f x = false.
Proof.
  intros H Hx. destruct (f x) eqn:Ef; [|done]. assert (existsb f l = true); [|congruence].
  apply existsb_exists. exists x. split; [by apply list_elem_of_In|done].
Qed.

(** The message a statement joins: rules 2 and 3 have been decided. *)
Lemma join_ok c cur en h :
  holds (bc_current c) cur -> message_ok c cur ->
  (cur = [] \/ (bc_auto c = true /\ (Z.of_nat (length cur) < bc_limit c)%Z)) ->
  may_join cur h (en_subject en) -> en_before en = keyNow h (en_subject en) ->
  must_flush c (en_write en) = false -> message_ok c (cur ++ [en]).
Proof.
  intros Hh [M1 M2 M3] Hroom Hjoin Hbefore Hflush. unfold must_flush in Hflush.
  rewrite (hd_writes _ _ Hh), (hd_parameters _ _ Hh), (hd_command _ _ Hh) in Hflush.
  split.
  - apply FOP_snoc; [done|]. apply Forall_forall. intros e1 He1.
    destruct (Hjoin e1 He1) as (J1 & J2 & J3). rewrite <- Hbefore in J3. split; try done.
    intros Hcmd. destruct (map en_write cur) as [|w ws] eqn:Ecur.
    { destruct cur; [by apply not_elem_of_nil in He1|done]. }
    apply orb_false_iff in Hflush as [_ Hf]. destruct (readsResult (en_write en)); [|done]. cbn in Hf.
    by rewrite (existsb_none _ _ _ Hf He1) in Hcmd.
  - intros Hcap. destruct (map en_write cur) as [|w ws] eqn:Ecur.
    { right. destruct cur; [|done]. cbn. lia. }
    left. apply orb_false_iff in Hflush as [Hf _].
    rewrite (proj2 (Z.ltb_lt _ _) Hcap), andb_true_l in Hf. apply Z.ltb_ge in Hf.
    unfold parameters in *. rewrite sum_list_with_app. cbn. lia.
  - rewrite length_app. cbn. destruct Hroom as [->|[-> Hl]]; cbn; [destruct (bc_auto c); lia|lia].
Qed.

Lemma add_inv c e groups cur s w before_key st' :
  call_inv c groups cur -> (exists h, may_join cur h s /\ before_key = keyNow h s) ->
  add_ w s (c, e) = (st', Ok tt) ->
  exists st1 groups' cur', flush_first w (c, e) = (st1, Ok tt) /\
    call_inv st'.1 groups' cur' /\
    concat groups' ++ cur' = concat groups ++ cur ++ [mkEntry s before_key (keyNow (heap_of st1.2) s) w].
Proof.
  intros Hinv (h & Hjoin & Hbefore) H. pose proof Hinv as [I1 I2 I3 I4 I5].
  assert (Hadd : add_ w s (c, e) = (flush_first w ;!
    do! (_, e) <- sget in
    on_call (fun c => set_current
      (add_write w (pair (subject_type s) <$> keyNow (heap_of e) s) (bc_current c)) c) ;!
    do! (c, _) <- sget in if is_full c then send_ else sret tt) (c, e)) by done.
  rewrite Hadd in H. apply sbind_Ok in H as ([c1 e1] & [] & Hfl & H).
  exists (c1, e1).
  (* before joining: the message the statement goes into *)
  assert (H1 : exists groups1 cur1, call_inv c1 groups1 cur1 /\
    concat groups1 ++ cur1 = concat groups ++ cur /\ may_join cur1 h s /\ must_flush c1 w = false).
  { unfold flush_first in Hfl. unfold sbind, sget in Hfl. destruct (must_flush c w) eqn:Ef.
    - destruct (send_inv c e groups cur I1 I2 I3 I4) as (Hinv' & Hcat & _). rewrite Hfl in Hinv'. cbn in Hinv'.
      eexists _, []. split; [exact Hinv'|]. split; [by rewrite app_nil_r|].
      split; [by intros e2 []%not_elem_of_nil|]. unfold must_flush.
      by rewrite (hd_writes _ _ (cv_current _ _ _ Hinv')).
    - injection Hfl as <- <-. by exists groups, cur. }
  destruct H1 as (groups1 & cur1 & [J1 J2 J3 J4 J5] & Hcat & Hjoin1 & Hnf).
  set (en := mkEntry s before_key (keyNow (heap_of e1) s) w).
  assert (Hok : message_ok c1 (cur1 ++ [en])) by (by apply (join_ok c1 cur1 en h)).
  pose proof (holds_add _ _ en J3) as Hhold. cbn [en_write en_subject en_added en] in Hhold.
  unfold sbind at 1, sget in H. unfold sbind at 1, on_call in H.
  set (c2 := set_current _ c1) in H. unfold sbind, sget in H.
  assert (Hm : forall g, message_ok c1 g -> message_ok c2 g) by (by intros g [A B C]).
  assert (Hg2 : Forall (fun g => g <> [] /\ message_ok c2 g) groups1)
    by (eapply Forall_impl; [exact J2|]; intros g [? ?]; auto).
  destruct (is_full c2) eqn:Efull.
  - destruct (send_inv c2 e1 groups1 (cur1 ++ [en]) J1 Hg2 Hhold (Hm _ Hok)) as (Hinv' & Hcat' & _).
    rewrite H in Hinv'. eexists _, []. split; [done|]. split; [exact Hinv'|].
    rewrite app_nil_r, Hcat', app_assoc, Hcat. by rewrite <- app_assoc.
  - injection H as <-. exists groups1, (cur1 ++ [en]). split; [done|]. split.
    + split; [done|done|done|by apply Hm|]. right. unfold is_full in Efull.
      apply orb_false_iff in Efull as [E1 E2].
      assert (Hw : ms_writes (bc_current c2) = map en_write (cur1 ++ [en])) by exact (hd_writes _ _ Hhold).
      rewrite Hw, length_map in E2.
      apply negb_false_iff in E1. apply Z.leb_gt in E2. done.
    + rewrite app_assoc, Hcat. by rewrite <- app_assoc.
Qed.

(** ** One operation, and all of them *)

Lemma feed_inv c e groups cur op st' r :
  call_inv c groups cur -> feed_ op (c, e) = (st', Ok r) ->
  exists groups' cur', call_inv st'.1 groups' cur' /\
    concat groups' ++ cur' = concat groups ++ cur ++ option_list (feed_entry op (c, e)) /\
    r = en_write <$> feed_entry op (c, e).
Proof.
  intros Hinv H. unfold feed in H. unfold sbind at 1, sget in H. unfold sbind at 1, slift in H.
  unfold feed_entry. cbn [snd]. destruct (op_subject op e) as [s|] eqn:Es; [|done].
  apply sbind_Ok in H as ([c1 e1] & [] & Hb & H). apply sbind_Ok in H as ([c2 e2] & w & Hp & H).
  destruct (before_inv c e groups cur s (c1, e1) Hinv Hb) as (groups1 & cur1 & Hinv1 & Hcat1 & Hjoin).
  assert (Hrun : (before_ s ;! on_env (op_prepare op)) (c, e) = ((c2, e2), Ok w))
    by (unfold sbind; rewrite Hb; exact Hp).
  rewrite Hrun. cbn [fst] in Hinv1.
  assert (Hinv2 : call_inv c2 groups1 cur1).
  { pose proof (on_env_plan (op_prepare op) c1 (c1, e1)) as Hplan. rewrite Hp in Hplan.
    eapply same_plan_inv; [apply Hplan|exact Hinv1]. by split_and!. }
  destruct w as [w|].
  2:{ injection H as <- <-. exists groups1, cur1. split; [done|]. split; [|done]. cbn.
      by rewrite app_nil_r, Hcat1. }
  apply sbind_Ok in H as (st2 & [] & Ha & H). injection H as <- <-.
  destruct (add_inv c2 e2 groups1 cur1 s w (keyNow (heap_of e) s) st2 Hinv2) as
    ([c3 e3] & groups2 & cur2 & Hfl & Hinv3 & Hcat2); [by exists (heap_of e)|exact Ha|].
  rewrite Hfl. exists groups2, cur2. split; [done|]. split; [|done].
  rewrite Hcat2, app_assoc, Hcat1. cbn. by rewrite <- app_assoc.
Qed.

Lemma feed_all_inv ops c e groups cur st' ws :
  call_inv c groups cur -> feed_all_ ops (c, e) = (st', Ok ws) ->
  exists groups' cur', call_inv st'.1 groups' cur' /\
    concat groups' ++ cur' = concat groups ++ cur ++ feed_trace ops (c, e) /\
    omap id ws = map en_write (feed_trace ops (c, e)).
Proof.
  revert c e groups cur ws. induction ops as [|op ops IH]; intros c e groups cur ws Hinv H; cbn [feed_all] in H.
  { injection H as <- <-. exists groups, cur. cbn. by rewrite app_nil_r. }
  apply sbind_Ok in H as ([c1 e1] & r & H1 & H). apply sbind_Ok in H as (st2 & rs & H2 & H).
  injection H as <- <-. destruct (feed_inv _ _ _ _ _ _ _ Hinv H1) as (groups1 & cur1 & Hinv1 & Hcat1 & Hr).
  destruct (IH _ _ _ _ _ Hinv1 H2) as (groups2 & cur2 & Hinv2 & Hcat2 & Hws).
  exists groups2, cur2. split; [done|]. cbn [feed_trace]. rewrite H1. split.
  - by rewrite Hcat2, app_assoc, Hcat1, <- !app_assoc.
  - rewrite map_app. cbn [fst] in Hws. subst r.
    destruct (feed_entry op (c, e)); cbn; [f_equal|]; exact Hws.
Qed.

(** The call's options never change. *)
Definition same_config (c c' : call) : Prop :=
  bc_auto c' = bc_auto c /\ bc_limit c' = bc_limit c /\ bc_parameterCap c' = bc_parameterCap c.

Lemma send_config c : preserves (fun st : state => same_config c st.1) send_.
Proof.
  intros [c1 e] (H1 & H2 & H3). destruct (send_plan c1 e) as (P1 & P2 & P3 & _). unfold same_config.
  rewrite P1, P2, P3. done.
Qed.

Lemma on_env_config {A} (m : SM E A) c : preserves (fun st : state => same_config c st.1) (on_env m).
Proof. intros [c1 e] H. unfold on_env. by destruct (m e). Qed.

Lemma feed_config op c : preserves (fun st : state => same_config c st.1) (feed_ op).
Proof.
  unfold feed. apply preserves_get. intros [c1 e] H1.
  refine (sbind_preserves (fun st : state => same_config c st.1) _ _ _ _ (c1, e) H1); [apply preserves_pure|].
  intros s. apply sbind_preserves.
  { unfold before. apply preserves_get. intros [c2 e2] H2. destruct (ms_writes (bc_current c2)); [done|].
    refine (sbind_preserves (fun st : state => same_config c st.1) _ _ _ _ (c2, e2) H2); [apply preserves_pure|].
    intros [|]; [apply send_config|apply preserves_ret]. }
  intros _. apply sbind_preserves; [apply on_env_config|]. intros [w|]; [|apply preserves_ret].
  apply sbind_preserves; [|intros _; apply preserves_ret]. unfold add.
  apply preserves_get. intros [c2 e2] H2.
  refine (sbind_preserves (fun st : state => same_config c st.1) _ _ _ _ (c2, e2) H2).
  { destruct (must_flush c2 w); [apply send_config|apply preserves_ret]. }
  intros _. apply preserves_get. intros [c3 e3] H3.
  refine (sbind_preserves (fun st : state => same_config c st.1) _ _ _ _ (c3, e3) H3).
  { by intros [c4 e4]. }
  intros _. apply preserves_get. intros [c4 e4] H4. destruct (is_full c4); [by apply send_config|done].
Qed.

Lemma feed_all_config ops c e :
  same_config c (feed_all_ ops (c, e)).1.1.
Proof.
  assert (H : preserves (fun st : state => same_config c st.1) (feed_all_ ops)).
  { induction ops as [|op ops IH]; [apply preserves_ret|]. cbn [feed_all].
    apply sbind_preserves; [apply feed_config|]. intros w. apply sbind_preserves; [apply IH|].
    intros ws. apply preserves_ret. }
  by apply (H (c, e)).
Qed.

Lemma newCall_inv auto maxStatements maxParameters :
  call_inv (newCall auto maxStatements maxParameters) [] [].
Proof. split; [done|constructor|apply holds_new|apply message_ok_nil|by left]. Qed.

(** C27. The plan of a call (spec/session.md "Batching").  When a run over queued
    operations succeeds, its messages are the statements it prepared, each
    once, in queue order; no message is empty; within a message no statement
    depends on an earlier one - it writes another instance, is about another
    key of its type, reads no key the earlier generates - and none that reads a
    result follows a command; a message exceeds the dialect's parameter cap only
    when it is one statement, and never the statement limit, which is one when
    batching is off. *)
Theorem run_keeps_the_rules (auto : bool) (maxStatements maxParameters : Z) (e : E)
    (ops : list operation) (c : call) (e' : E) (ws : list (option write)) :
  run_ ops (newCall auto maxStatements maxParameters, e) = ((c, e'), Ok ws) ->
  exists groups,
    bc_messages c = map (map en_write) groups /\
    concat groups = feed_trace ops (newCall auto maxStatements maxParameters, e) /\
    concat (bc_messages c) = omap id ws /\
    Forall (fun g => g <> [] /\ ForallOrdPairs independent g /\
      ((0 < maxParameters)%Z -> (Z.of_nat (parameters g) <= maxParameters)%Z \/ length g = 1) /\
      (Z.of_nat (length g) <= Z.max 1 (if auto then maxStatements else 1))%Z) groups.
Proof.
  intros H. unfold run in H. apply sbind_Ok in H as ([c1 e1] & ws' & H1 & H).
  apply sbind_Ok in H as (st2 & [] & H2 & H). injection H as -> ->.
  destruct (feed_all_inv _ _ _ _ _ _ _ (newCall_inv auto maxStatements maxParameters) H1)
    as (groups & cur & [I1 I2 I3 I4 I5] & Hcat & Hws). cbn [fst] in *.
  destruct (send_inv c1 e1 groups cur I1 I2 I3 I4) as (Hinv & Hcat2 & Ha & Hl & Hp).
  unfold finish in H2. rewrite H2 in Hinv, Ha, Hl, Hp. cbn [fst] in *.
  destruct Hinv as [J1 J2 _ _ _]. eexists. split; [exact J1|].
  cbn in Hcat. split; [by rewrite Hcat2, Hcat|]. split.
  - rewrite J1, <- concat_map, Hcat2, Hcat. symmetry. exact Hws.
  - assert (Hplan : bc_auto c1 = auto /\ bc_limit c1 = maxStatements /\ bc_parameterCap c1 = maxParameters).
    { pose proof (feed_all_config ops (newCall auto maxStatements maxParameters) e) as Hc.
      rewrite H1 in Hc. exact Hc. }
    eapply Forall_impl; [exact J2|]. intros g [Hne [M1 M2 M3]].
    destruct Hplan as (P1 & P2 & P3). rewrite Ha, P1, Hl, P2 in M3. rewrite Hp, P3 in M2.
    split; [done|]. split; [done|]. split; [|done]. intros Hcap.
    destruct (M2 Hcap) as [?|Hlen]; [by left|]. right. destruct g as [|x [|y g]]; [done|done|].
    cbn in Hlen. lia.
Qed.

End Laws.

(** ** Witness: an order whose key the database generates, and its two lines *)

Definition insert_of (id : nat) (m : EntityMap) (p : Ptr) (depends : list Ptr) (generates : bool)
    : operation (E := heap) :=
  mkOperation (fun _ => Ok (mkSubject (Some m) (Some p) depends None))
    (sret (Some (mkWrite id "insert" [mkNamedArg "id" (BoundNull NullInt64)] ResultNone (Some p)
      generates false None (fun e => e)))).
Definition order_inserts : list (operation (E := heap)) :=
  [insert_of 1 order_map 1 [] true; insert_of 2 line_map 2 [1] false; insert_of 3 line_map 3 [1] false].

Lemma run_keeps_the_rules_witness :
  exists c e ws, run (fun h => h) (fun _ => None) None (fun _ => sret (mkWriteResult VNil 1%Z))
      order_inserts (newCall true 10 100, order_heap) = ((c, e), Ok ws) /\
    map (map pw_id) (bc_messages c) = [[1]; [2; 3]] /\ concat (bc_messages c) = omap id ws.
Proof.
  do 3 eexists. split; [vm_compute; reflexivity|]. split; [vm_compute; reflexivity|].
  match goal with |- concat (bc_messages ?c) = omap id ?ws =>
    destruct (run_keeps_the_rules (fun h => h) (fun _ => None) None (fun _ => sret (mkWriteResult VNil 1%Z))
      true 10 100 order_heap order_inserts c order_heap ws) as (groups & _ & _ & H & _)
  end; [vm_compute; reflexivity|exact H].
Defined.
