(* ===== verification/Json.v ===== *)
(** The canonical JSON writer (internal/core/canonical_json.go) and the naming
    convention (internal/core/naming.go), with what the readers of schema
    snapshots use of encoding/json: the fields of a decoded object.

    Values are the ones the writers build: null, booleans, strings, the integer
    kinds, objects in insertion order and slices.  No artifact holds a
    [float64].  A string is its bytes, ranged over rune by rune as Go does. *)
From S2P Require Import Prelude GoStrings Dialect.

(** ** Documents *)

Inductive Json :=
  | JNull
  | JBool (b : bool)
  | JString (s : string)
  | JInt (z : Z)
  | JObject (members : list (string * Json))
  | JArray (items : list Json).

Definition JSONObject : Type := list (string * Json).

(** [JSONObject.Set]: in place where the key is there, else at the end. *)
Fixpoint Set_ (o : JSONObject) (key : string) (value : Json) : JSONObject :=
  match o with
  | [] => [(key, value)]
  | (k, v) :: o' =>
      if decide (k = key) then (k, value) :: o' else (k, v) :: Set_ o' key value
  end.

(** ** Text *)

Definition byte_in (lo hi : Z) (c : ascii) : bool :=
  let b := Z.of_N (ord c) in ((lo <=? b) && (b <=? hi))%Z.
Definition low_bits (n : Z) (c : ascii) : Z := Z.land (Z.of_N (ord c)) (Z.shiftl 1 n - 1).
Definition continuation (c : ascii) : bool := byte_in 128 191 c.
Definition RuneError : Z := 65533.

(** The runes [range] yields: UTF-8 decoding, one [RuneError] for every byte
    that does not start a well formed sequence. *)
Fixpoint runes (l : list ascii) : list Z :=
  match l with
  | [] => []
  | a :: l1 =>
      if byte_in 0 127 a then Z.of_N (ord a) :: runes l1 else
      match l1 with
      | b :: l2 =>
          if byte_in 194 223 a && continuation b
          then (Z.lor (Z.shiftl (low_bits 5 a) 6) (low_bits 6 b)) :: runes l2 else
          match l2 with
          | c :: l3 =>
              if byte_in 224 239 a && continuation b && continuation c &&
                 (negb (byte_in 224 224 a) || byte_in 160 191 b) &&
                 (negb (byte_in 237 237 a) || byte_in 128 159 b)
              then Z.lor (Z.shiftl (low_bits 4 a) 12)
                         (Z.lor (Z.shiftl (low_bits 6 b) 6) (low_bits 6 c)) :: runes l3 else
              match l3 with
              | d :: l4 =>
                  if byte_in 240 244 a && continuation b && continuation c && continuation d &&
                     (negb (byte_in 240 240 a) || byte_in 144 191 b) &&
                     (negb (byte_in 244 244 a) || byte_in 128 143 b)
                  then Z.lor (Z.shiftl (low_bits 3 a) 18)
                         (Z.lor (Z.shiftl (low_bits 6 b) 12)
                            (Z.lor (Z.shiftl (low_bits 6 c) 6) (low_bits 6 d))) :: runes l4
                  else RuneError :: runes l1
              | [] => RuneError :: runes l1
              end
          | [] => RuneError :: runes l1
          end
      | [] => RuneError :: runes l1
      end
  end.

Definition hex_digit (z : Z) : ascii :=
  ascii_of_N (Z.to_N (if (z <? 10)%Z then 48 + z else 55 + z)).
(** [\u%04X] of a UTF-16 unit. *)
Definition hex_unit (z : Z) : list ascii :=
  "\"%char :: "u"%char ::
  ((fun shift => hex_digit (Z.land (Z.shiftr z shift) 15)) <$> [12; 8; 4; 0])%Z.

Definition guarded_runes : list Z := [34; 60; 62; 38; 39; 43]%Z.

(** One turn of [writeJSONString]'s loop; [utf16.EncodeRune] splits what is
    above the basic plane into its surrogates. *)
Definition escape_rune (r : Z) : list ascii :=
  (if decide (r = 92) then ["\"; "\"]%char
   else if decide (r = 10) then ["\"; "n"]%char
   else if decide (r = 13) then ["\"; "r"]%char
   else if decide (r = 9) then ["\"; "t"]%char
   else if decide (r = 8) then ["\"; "b"]%char
   else if decide (r = 12) then ["\"; "f"]%char
   else if decide (r ∈ guarded_runes) then hex_unit r
   else if (r <? 32) || (r =? 127) then hex_unit r
   else if r <? 128 then [ascii_of_N (Z.to_N r)]
   else if 65535 <? r
   then hex_unit (55296 + Z.shiftr (r - 65536) 10) ++ hex_unit (56320 + Z.land (r - 65536) 1023)
   else hex_unit r)%Z.

Definition writeJSONString (value : string) : string :=
  dquote +:+ of_bytes (mbind escape_rune (runes (bytes value))) +:+ dquote.

Fixpoint writeIndent (depth : nat) : string :=
  match depth with O => "" | S d => "  " +:+ writeIndent d end.

(** [writeJSONValue] with [writeJSONArray] and [writeJSONObject]. *)
Fixpoint writeJSONValue (value : Json) (depth : nat) : string :=
  match value with
  | JNull => "null"
  | JBool b => if b then "true" else "false"
  | JString s => writeJSONString s
  | JInt z => Itoa z
  | JObject [] => "{}"
  | JObject members =>
      "{" +:+ nl +:+
      Join ((fix write (l : list (string * Json)) := match l with
             | [] => []
             | (key, v) :: l' =>
                 (writeIndent (S depth) +:+ writeJSONString key +:+ ": " +:+
                  writeJSONValue v (S depth)) :: write l'
             end) members) ("," +:+ nl) +:+ nl +:+ writeIndent depth +:+ "}"
  | JArray [] => "[]"
  | JArray items =>
      "[" +:+ nl +:+
      Join ((fix write (l : list Json) := match l with
             | [] => []
             | v :: l' => (writeIndent (S depth) +:+ writeJSONValue v (S depth)) :: write l'
             end) items) ("," +:+ nl) +:+ nl +:+ writeIndent depth +:+ "]"
  end.

Definition CanonicalJSON (value : Json) : string := writeJSONValue value 0.

(** ** Decoding: what [json.Unmarshal] does with an object and a struct

    A key goes to the field it equals, ignoring case; a later key overwrites an
    earlier one; null leaves the field alone; a value of another type is an
    error. *)

Definition of_type {A} (decode : Json -> option A) (v : Json) (before : A) : option A :=
  match v with JNull => Some before | _ => decode v end.

Fixpoint field_from {A} (decode : Json -> option A) (name : string) (acc : A)
    (o : JSONObject) : option A :=
  match o with
  | [] => Some acc
  | (k, v) :: o' =>
      if EqualFold k name
      then acc' ← of_type decode v acc; field_from decode name acc' o'
      else field_from decode name acc o'
  end.

Definition as_string (v : Json) : option string := match v with JString s => Some s | _ => None end.
Definition as_bool (v : Json) : option bool := match v with JBool b => Some b | _ => None end.
(** [int64]: a number outside the range is an error. *)
Definition as_int64 (v : Json) : option Z :=
  match v with
  | JInt z => if ((- 2 ^ 63 <=? z) && (z <? 2 ^ 63))%Z then Some z else None
  | _ => None
  end.
Definition as_object (v : Json) : option JSONObject := match v with JObject o => Some o | _ => None end.
Definition as_array {A} (decode : Json -> option A) (v : Json) : option (list A) :=
  match v with JArray l => mapM decode l | _ => None end.
Definition as_pointer {A} (decode : Json -> option A) (v : Json) : option (option A) := Some <$> decode v.

(** ** Naming (internal/core/naming.go) *)

(** [ToSnakeCase] over ASCII names: the letters read so far, last first. *)
Definition starts_word (previous : option ascii) (next : option ascii) : bool :=
  match previous with
  | None => false
  | Some p =>
      is_lower p || is_digit p ||
      (is_upper p && match next with Some n => is_lower n | None => false end)
  end.

Fixpoint snake_from (previous : option ascii) (l : list ascii) : list ascii :=
  match l with
  | [] => []
  | c :: l' =>
      if is_upper c && starts_word previous (head l')
      then "_"%char :: to_lower c :: snake_from (Some c) l'
      else to_lower c :: snake_from (Some c) l'
  end.

Definition ToSnakeCase (name : string) : string := of_bytes (snake_from None (bytes name)).

(** [NamingConvention], and the shipped [SnakeCase]. *)
Record NamingConvention := mkConvention {
  conv_ColumnName : string -> string;
  conv_TableName : string -> string;
  conv_IndexName : string -> list string -> string }.

Definition SnakeCase_IndexName (tableName : string) (columnNames : list string) : string :=
  "ix_" +:+ tableName +:+ foldr String.append "" ((fun c => "_" +:+ c) <$> columnNames).

Definition SnakeCase : NamingConvention := mkConvention ToSnakeCase ToSnakeCase SnakeCase_IndexName.
