(* ===== verification/SchemaSnapshot.v ===== *)
(** Schema history as data (migrations/schema_snapshot.go, snapshot_set.go and
    the declarations of trigger_declaration.go): the snapshot documents with
    their readers and writers, the canonical text of a view, and the lookups
    by version.

    A file is the JSON document its text holds; [None] is a file that cannot be
    read or is not JSON.  The file system itself is a list of files. *)
From S2P Require Import Prelude GoStrings Temporal Core Triggers Dialect Json.

(** [V%04d] *)
Definition pad4 (z : Z) : string :=
  let digits := bytes (Itoa (Z.abs z)) in
  let width := if (z <? 0)%Z then 3 else 4 in
  of_bytes ((if (z <? 0)%Z then ["-"%char] else []) ++
            replicate (width - length digits) "0"%char ++ digits).
Definition V4 (version : Z) : string := "V" +:+ pad4 version.

(** ** A table as a schema *)

Definition property_column (dialect : Dialect) (m : EntityMap) (p : PropertyMap) : TableColumn :=
  mkTableColumn (ColumnName p) (StorageType dialect (Some m) p) (IsNullable p) (IsKey p) (IsGenerated p).
Definition index_part (c : IndexColumn) : IndexPart := mkIndexPart (ic_ColumnName c) (ic_Descending c).
Definition index_schema (index : EntityIndex) : TableIndex :=
  mkTableIndex (ei_Name index) (index_part <$> ei_Columns index) (ei_Unique index).

Definition FromMap (m : EntityMap) (dialect : Dialect) : TableSchema :=
  mkTableSchema (RelationName m) (DialectName dialect)
    (property_column dialect m <$> Properties m) (index_schema <$> Indexes m).

(** ** The dialect stamp *)

Definition normalizeStamp (stamp : string) : string :=
  let stamp := ToLower (TrimSpace stamp) in
  if decide (stamp = "") then "sqlite" else stamp.

Definition withDialectStamp (doc : JSONObject) (dialectName : string) : JSONObject :=
  let stamp := normalizeStamp dialectName in
  if decide (stamp = "sqlite") then doc else Set_ doc "dialect" (JString stamp).

Definition CheckSnapshotDialect (stamp : string) (dialect : Dialect) (object : string) : result unit :=
  if decide (normalizeStamp stamp = DialectName dialect) then Ok tt
  else Fail (NewError "MIG-014" object).

(** ** Table documents *)

Definition column_json (c : TableColumn) : Json :=
  let obj := Set_ [] "column" (JString (tc_Name c)) in
  let obj := Set_ obj "type" (JString (tc_StorageType c)) in
  let obj := Set_ obj "nullable" (JBool (tc_Nullable c)) in
  let obj := if tc_Key c then Set_ obj "key" (JBool true) else obj in
  let obj := if tc_Generated c then Set_ obj "generated" (JBool true) else obj in
  JObject obj.

Definition part_json (part : IndexPart) : Json :=
  let direction := if ip_Descending part then "desc" else "asc" in
  JObject (Set_ (Set_ [] "column" (JString (ip_ColumnName part))) "direction" (JString direction)).

Definition index_json (index : TableIndex) : Json :=
  let obj := Set_ [] "name" (JString (ti_Name index)) in
  let obj := Set_ obj "columns" (JArray (part_json <$> ti_Columns index)) in
  let obj := if ti_Unique index then Set_ obj "unique" (JBool true) else obj in
  JObject obj.

(** [sort.Slice] by name: the names of a schema are distinct. *)
Definition by_name {A} (name : A -> string) : list A -> list A :=
  merge_sort (fun a b => String.le (name a) (name b)).

Definition table_json (schema : TableSchema) (asOfVersion : Z) (generatedAt : Time) : JSONObject :=
  let doc := Set_ [] "object" (JString (ts_Name schema)) in
  let doc := withDialectStamp doc (ts_Dialect schema) in
  let doc := Set_ doc "asOfVersion" (JInt asOfVersion) in
  let doc := Set_ doc "generatedAt" (JString (FormatUTC generatedAt)) in
  let doc := Set_ doc "columns" (JArray (column_json <$> by_name tc_Name (ts_Columns schema))) in
  Set_ doc "indexes" (JArray (index_json <$> by_name ti_Name (ts_Indexes schema))).

Definition ExportSchema (schema : TableSchema) (asOfVersion : Z) (generatedAt : Time) : string :=
  CanonicalJSON (JObject (table_json schema asOfVersion generatedAt)).
Definition Export (m : EntityMap) (dialect : Dialect) (asOfVersion : Z) (generatedAt : Time) : string :=
  ExportSchema (FromMap m dialect) asOfVersion generatedAt.

(** An element of a slice: null is its zero value. *)
Definition element {A} (zero : A) (decode : JSONObject -> option A) (v : Json) : option A :=
  of_type (fun v => o ← as_object v; decode o) v zero.

Definition parse_column (o : JSONObject) : option TableColumn :=
  name ← field_from as_string "column" "" o;
  type ← field_from as_string "type" "" o;
  nullable ← field_from as_bool "nullable" false o;
  key ← field_from as_bool "key" false o;
  generated ← field_from as_bool "generated" false o;
  Some (mkTableColumn name type nullable key generated).

Definition parse_part (o : JSONObject) : option IndexPart :=
  column ← field_from as_string "column" "" o;
  direction ← field_from as_string "direction" "" o;
  Some (mkIndexPart column (bool_decide (direction = "desc"))).

Definition parse_index (o : JSONObject) : option TableIndex :=
  name ← field_from as_string "name" "" o;
  parts ← field_from (as_array (element (mkIndexPart "" false) parse_part)) "columns" [] o;
  unique ← field_from as_bool "unique" false o;
  Some (mkTableIndex name parts unique).

Definition no_column : TableColumn := mkTableColumn "" "" false false false.
Definition no_index : TableIndex := mkTableIndex "" [] false.

Definition parse_table (o : JSONObject) : option (TableSchema * Z) :=
  object ← field_from as_string "object" "" o;
  dialect ← field_from as_string "dialect" "" o;
  asOfVersion ← field_from as_int64 "asOfVersion" 0%Z o;
  columns ← field_from (as_array (element no_column parse_column)) "columns" [] o;
  indexes ← field_from (as_array (element no_index parse_index)) "indexes" [] o;
  Some (mkTableSchema object dialect columns indexes, asOfVersion).

Definition ParseTable (data : Json) : result (TableSchema * Z) :=
  match element (mkTableSchema "" "" [] [], 0%Z) parse_table data with
  | Some doc => Ok doc
  | None => Fail (NewError "" "parse table snapshot")
  end.

(** ** View documents *)

Definition word_is (w : string) (s : string) : bool := bool_decide (ToLower s = w).

Definition skip_or (ws : list string) : list string :=
  match ws with
  | o :: a :: r => if word_is "or" o && (word_is "alter" a || word_is "replace" a) then r else ws
  | _ => ws
  end.
Definition skip_if_not_exists (ws : list string) : list string :=
  match ws with
  | i :: n :: e :: r => if word_is "if" i && word_is "not" n && word_is "exists" e then r else ws
  | _ => ws
  end.

(** [viewDDLPattern] on collapsed text, word by word: whether the view is
    materialized, its name and its body.  Every [\s+] of the pattern is the one
    space between two words, and none of its optional groups can be both taken
    and left. *)
Definition viewDDL (ws : list string) : option (bool * string * list string) :=
  match ws with
  | create :: r =>
      if negb (word_is "create" create) then None else
      let r := skip_or r in
      let '(materialized, r) :=
        match r with
        | m :: r' => if word_is "materialized" m then (true, r') else (false, r)
        | [] => (false, r)
        end in
      match r with
      | view :: r =>
          if negb (word_is "view" view) then None else
          match skip_if_not_exists r with
          | name :: as_ :: (_ :: _) as body =>
              if word_is "as" as_ then Some (materialized, name, drop 2 body) else None
          | _ => None
          end
      | [] => None
      end
  | [] => None
  end.

Definition quote_bytes : list ascii := ["034"; "["; "]"; "`"]%char.
(** [viewQuoting.Replace] *)
Definition unquoted (name : string) : string :=
  of_bytes (List.filter (fun c => negb (bool_decide (c ∈ quote_bytes))) (bytes name)).

Definition NormalizeDDL (sql : string) : string :=
  let words := Fields sql in
  match viewDDL words with
  | None => Join words " "
  | Some (materialized, name, body) =>
      "create " +:+ (if materialized then "materialized " else "") +:+ "view " +:+
      unquoted name +:+ " as " +:+ Join body " "
  end.

Definition ViewParts (ddl : string) : option (string * string * bool) :=
  match viewDDL (Fields ddl) with
  | None => None
  | Some (materialized, name, body) => Some (unquoted name, Join body " ", materialized)
  end.

Definition ddl_json (objectName dialectName kind ddl : string) (asOfVersion : Z) (generatedAt : Time) : JSONObject :=
  let doc := Set_ [] "object" (JString objectName) in
  let doc := withDialectStamp doc dialectName in
  let doc := Set_ doc "kind" (JString kind) in
  let doc := Set_ doc "asOfVersion" (JInt asOfVersion) in
  let doc := Set_ doc "generatedAt" (JString (FormatUTC generatedAt)) in
  Set_ doc "ddl" (JString (NormalizeDDL ddl)).

Definition ExportDDL (objectName dialectName kind ddl : string) (asOfVersion : Z) (generatedAt : Time) : string :=
  CanonicalJSON (JObject (ddl_json objectName dialectName kind ddl asOfVersion generatedAt)).

Record DDLSnapshot := mkDDLSnapshot {
  ds_Object : string; ds_Dialect : string; ds_Kind : string; ds_DDL : string; ds_AsOfVersion : Z }.

Definition parse_ddl (o : JSONObject) : option DDLSnapshot :=
  object ← field_from as_string "object" "" o;
  dialect ← field_from as_string "dialect" "" o;
  kind ← field_from as_string "kind" "" o;
  asOfVersion ← field_from as_int64 "asOfVersion" 0%Z o;
  ddl ← field_from as_string "ddl" "" o;
  Some (mkDDLSnapshot object dialect kind ddl asOfVersion).

Definition ParseDDLSnapshot (data : Json) : result DDLSnapshot :=
  match element (mkDDLSnapshot "" "" "" "" 0) parse_ddl data with
  | Some doc => Ok doc
  | None => Fail (NewError "" "parse ddl snapshot")
  end.

(** ** Trigger declarations and their documents *)

Record EntityTrigger := mkEntityTrigger { et_Type : GoType; et_Definition : TriggerDefinition }.

Record TriggerDeclaration := mkDeclaration {
  td_Dialect : string; td_Name : string; td_Relation : string; td_RelationKind : string;
  td_Timing : TriggerTiming; td_Events : TriggerEvents; td_UpdateOf : list string; td_SQL : string }.
#[export] Instance TriggerDeclaration_eq_dec : EqDecision TriggerDeclaration.
Proof. solve_decision. Defined.

Definition RelationKindTable : string := "table".
Definition RelationKindView : string := "view".

Definition OnView (d : TriggerDeclaration) : bool := bool_decide (td_RelationKind d = RelationKindView).

Definition Declaration_Definition (d : TriggerDeclaration) : TriggerDefinition :=
  mkTrigger (td_Name d) (td_Timing d) (td_Events d) (td_UpdateOf d) (td_SQL d).

Definition DeclarationFromEntity (m : EntityMap) (trigger : EntityTrigger) : TriggerDeclaration :=
  let kind := if decide (Kind m = RelationView) then RelationKindView else RelationKindTable in
  let definition := et_Definition trigger in
  mkDeclaration "" (tr_Name definition) (RelationName m) kind
    (tr_Timing definition) (tr_Events definition) (tr_UpdateOf definition) (tr_SQL definition).

Definition Declaration_SameAs (d other : TriggerDeclaration) : bool :=
  bool_decide (td_Relation d = td_Relation other) &&
  bool_decide (td_RelationKind d = td_RelationKind other) &&
  SameAs (Declaration_Definition d) (Declaration_Definition other).

Definition trigger_json (d : TriggerDeclaration) (asOfVersion : Z) (generatedAt : Time) : JSONObject :=
  let doc := Set_ [] "object" (JString (td_Name d)) in
  let doc := withDialectStamp doc (td_Dialect d) in
  let doc := Set_ doc "kind" (JString "trigger") in
  let doc := Set_ doc "relation" (JString (td_Relation d)) in
  let doc := Set_ doc "relationKind" (JString (td_RelationKind d)) in
  let doc := Set_ doc "asOfVersion" (JInt asOfVersion) in
  let doc := Set_ doc "generatedAt" (JString (FormatUTC generatedAt)) in
  let doc := Set_ doc "timing" (JString (TriggerTiming_Token (td_Timing d))) in
  let doc := Set_ doc "events" (JArray (JString <$> Events_Tokens (td_Events d))) in
  let doc := match td_UpdateOf d with
             | [] => doc
             | columns => Set_ doc "updateOf" (JArray (JString <$> columns))
             end in
  Set_ doc "sql" (JString (NormalizeTriggerBody (td_SQL d))).

Definition ExportTrigger (d : TriggerDeclaration) (asOfVersion : Z) (generatedAt : Time) : string :=
  CanonicalJSON (JObject (trigger_json d asOfVersion generatedAt)).

(** The strings of a slice: null is the empty one. *)
Definition string_element (v : Json) : option string := of_type as_string v "".

Definition parse_trigger (o : JSONObject) : option (result (TriggerDeclaration * Z)) :=
  object ← field_from as_string "object" "" o;
  dialect ← field_from as_string "dialect" "" o;
  _ ← field_from as_string "kind" "" o;
  relation ← field_from as_string "relation" "" o;
  relationKind ← field_from as_string "relationKind" "" o;
  asOfVersion ← field_from as_int64 "asOfVersion" 0%Z o;
  timing ← field_from as_string "timing" "" o;
  events ← field_from (as_array string_element) "events" [] o;
  updateOf ← field_from (as_array string_element) "updateOf" [] o;
  sql ← field_from as_string "sql" "" o;
  Some
    match ParseTriggerTiming timing with
    | None => Fail (NewError "" ("parse trigger snapshot " +:+ object))
    | Some timing =>
        match ParseTriggerEvents events with
        | None | Some 0%Z => Fail (NewError "" ("parse trigger snapshot " +:+ object))
        | Some events =>
            let kind := if decide (relationKind = "") then RelationKindTable else relationKind in
            Ok (mkDeclaration dialect object relation kind timing events updateOf sql, asOfVersion)
        end
    end.

Definition ParseTriggerSnapshot (data : Json) : result (TriggerDeclaration * Z) :=
  match data with
  | JNull | JObject _ =>
      match parse_trigger (default [] (as_object data)) with
      | Some doc => doc
      | None => Fail (NewError "" "parse trigger snapshot")
      end
  | _ => Fail (NewError "" "parse trigger snapshot")
  end.

(** ** The latest document of a directory

    [docs] are the files [V*.schema.json] of one object's directory; a file
    that does not parse is skipped.  Versions are compared with [-1] first. *)

Definition latest_step {A} (accept : Z -> bool) (best : option (A * Z)) (doc : option (A * Z)) : option (A * Z) :=
  match doc with
  | None => best
  | Some (candidate, asOfVersion) =>
      let atVersion := match best with Some (_, v) => v | None => (-1)%Z end in
      if accept asOfVersion && (atVersion <? asOfVersion)%Z then Some (candidate, asOfVersion) else best
  end.
Definition latest {A} (accept : Z -> bool) (docs : list (option (A * Z))) : option (A * Z) :=
  fold_left (latest_step accept) docs None.

Definition parsed {A} (parse : Json -> result A) (data : option Json) : option A :=
  match data with
  | None => None
  | Some data => match parse data with Ok a => Some a | Fail _ => None end
  end.

Definition Dir : Type := list (option Json).

Definition latestTableSnapshot (dir : Dir) (accept : Z -> bool) : option (TableSchema * Z) :=
  latest accept (parsed ParseTable <$> dir).
Definition latestDDLSnapshot (dir : Dir) (accept : Z -> bool) : option DDLSnapshot :=
  fst <$> latest accept ((fun d => (fun s => (s, ds_AsOfVersion s)) <$> parsed ParseDDLSnapshot d) <$> dir).
Definition latestTriggerSnapshot (dir : Dir) (accept : Z -> bool) : option (TriggerDeclaration * Z) :=
  latest accept (parsed ParseTriggerSnapshot <$> dir).

Definition at_or_before (version : Z) (v : Z) : bool := (v <=? version)%Z.
Definition below (version : Z) (v : Z) : bool := (v <? version)%Z.

Definition LatestTableSnapshotAtOrBefore (dir : Dir) (version : Z) := latestTableSnapshot dir (at_or_before version).
Definition LatestDDLSnapshotAtOrBefore (dir : Dir) (version : Z) := latestDDLSnapshot dir (at_or_before version).
Definition LatestTriggerSnapshotAtOrBefore (dir : Dir) (version : Z) := latestTriggerSnapshot dir (at_or_before version).
Definition latestTableSnapshotBelow (dir : Dir) (version : Z) : option TableSchema :=
  fst <$> latestTableSnapshot dir (below version).
Definition latestDDLSnapshotBelow (dir : Dir) (version : Z) : option DDLSnapshot :=
  latestDDLSnapshot dir (below version).
Definition latestTriggerSnapshotBelow (dir : Dir) (version : Z) : option TriggerDeclaration :=
  fst <$> latestTriggerSnapshot dir (below version).

(** ** A tree of snapshots *)

Record SnapshotEntry := mkSnapshotEntry {
  se_Table : option TableSchema; se_DDL : string;
  se_Trigger : option TriggerDeclaration; se_Dialect : string }.

Definition SnapshotSet : Type := gmap string (gmap Z SnapshotEntry).

Definition put_entry (s : SnapshotSet) (key : string) (asOfVersion : Z) (entry : SnapshotEntry) : SnapshotSet :=
  <[key := <[asOfVersion := entry]> (default ∅ (s !! key))]> s.

Definition parse_probe (o : JSONObject) : option (string * string * string * option string) :=
  object ← field_from as_string "object" "" o;
  dialect ← field_from as_string "dialect" "" o;
  _ ← field_from as_int64 "asOfVersion" 0%Z o;
  kind ← field_from as_string "kind" "" o;
  ddl ← field_from (as_pointer as_string) "ddl" None o;
  Some (object, dialect, kind, ddl).

Definition add (s : SnapshotSet) (data : Json) : result SnapshotSet :=
  match element ("", "", "", None) parse_probe data with
  | None => Fail (NewError "" "parse schema snapshot")
  | Some (object, dialect, kind, ddl) =>
      let key := ToLower object in
      if decide (kind = "trigger") then
        let* doc := ParseTriggerSnapshot data in
        Ok (put_entry s key doc.2 (mkSnapshotEntry None "" (Some doc.1) dialect))
      else match ddl with
      | Some _ =>
          let* doc := ParseDDLSnapshot data in
          Ok (put_entry s key (ds_AsOfVersion doc) (mkSnapshotEntry None (ds_DDL doc) None dialect))
      | None =>
          let* doc := ParseTable data in
          Ok (put_entry s key doc.2 (mkSnapshotEntry (Some doc.1) "" None dialect))
      end
  end.

Definition HasSuffix (s suffix : string) : bool :=
  HasPrefix (of_bytes (rev (bytes s))) (of_bytes (rev (bytes suffix))).
Definition isSchemaJSON (name : string) : bool := HasSuffix (ToLower name) ".schema.json".

(** [SnapshotsFromFS] over the files of the tree in walk order, each with its
    name: a file that cannot be read or parsed fails the whole read. *)
Definition add_file (s : SnapshotSet) (file : string * option Json) : result SnapshotSet :=
  if isSchemaJSON file.1
  then match file.2 with Some data => add s data | None => Fail (NewError "" "read snapshot") end
  else Ok s.
Definition SnapshotsFromFS (files : list (string * option Json)) : result SnapshotSet := foldR add_file ∅ files.

Definition Count (s : SnapshotSet) : nat := map_fold (fun _ versions total => size versions + total) 0 s.

Definition At (s : SnapshotSet) (object : string) (version : Z) : option SnapshotEntry :=
  versions ← s !! ToLower object; versions !! version.

(** The loop's order is Go's map order; the outcome does not depend on it. *)
Definition latest_entry (version : Z) (v : Z) (entry : SnapshotEntry) (best : option (Z * SnapshotEntry)) :=
  if (version <=? v)%Z then best else
  match best with
  | None => Some (v, entry)
  | Some (latestVersion, _) => if (latestVersion <? v)%Z then Some (v, entry) else best
  end.
Definition LatestBefore (s : SnapshotSet) (object : string) (version : Z) : option SnapshotEntry :=
  versions ← s !! ToLower object;
  snd <$> map_fold (latest_entry version) None versions.
