(* ===== verification/SchemaDiff.v ===== *)
(** The diff of schema shapes (migrations/migration_generator.go) and of trigger
    declarations (migrations/trigger_declaration.go): what changed between a
    snapshot and the model, by name and by structure, and the calls the
    generated step makes.

    Go maps are finite maps; [sortedKeys] fixes the order they are read in. *)
From S2P Require Import Prelude GoStrings Core Triggers Dialect SchemaSnapshot.

(** ** Index signatures *)

Definition index_kind (unique : bool) : string := if unique then "unique|" else "plain|".
Definition signature_part (part : string * bool) : string :=
  ToLower part.1 +:+ (if part.2 then " desc" else "").
Definition indexSignature (unique : bool) (columns : list (string * bool)) : string :=
  index_kind unique +:+ Join (signature_part <$> columns) ",".

Definition IndexSignature (index : TableIndex) : string :=
  indexSignature (ti_Unique index) ((fun c => (ip_ColumnName c, ip_Descending c)) <$> ti_Columns index).
Definition EntityIndexSignature (index : EntityIndex) : string :=
  indexSignature (ei_Unique index) ((fun c => (ic_ColumnName c, ic_Descending c)) <$> ei_Columns index).

(** ** The diff of a table *)

Record ColumnSpec := mkSpec { cs_Name : string; cs_StorageType : string; cs_Nullable : bool }.
Record ColumnRename := mkRename { cr_From : string; cr_To : string }.
#[export] Instance ColumnSpec_eq_dec : EqDecision ColumnSpec.
Proof. solve_decision. Defined.
#[export] Instance ColumnRename_eq_dec : EqDecision ColumnRename.
Proof. solve_decision. Defined.

Record TableDiff := mkTableDiff {
  df_IsNew : bool;
  df_Added : list ColumnSpec;
  df_Removed : list ColumnSpec;
  df_Renamed : list ColumnRename;
  df_AddedIndexes : list TableIndex;
  df_RemovedIndexNames : list string;
  df_Unsupported : list string }.

Definition no_diff : TableDiff := mkTableDiff false [] [] [] [] [] [].
Definition new_table : TableDiff := mkTableDiff true [] [] [] [] [] [].

Definition HasChanges (d : TableDiff) : bool :=
  df_IsNew d || (0 <? length (df_Added d)) || (0 <? length (df_Removed d)) ||
  (0 <? length (df_Renamed d)) || (0 <? length (df_AddedIndexes d)) ||
  (0 <? length (df_RemovedIndexNames d)).

Definition spec_of (c : TableColumn) : ColumnSpec := mkSpec (tc_Name c) (tc_StorageType c) (tc_Nullable c).
Definition column_key (c : TableColumn) : string := ToLower (tc_Name c).

(** [oldByKey], [currentByKey]: a later column of the same key wins. *)
Definition by_key (columns : list TableColumn) : gmap string ColumnSpec :=
  fold_left (fun m c => <[column_key c := spec_of c]> m) columns ∅.

Definition nullSuffix (nullable : bool) : string := if nullable then "" else " not null".

(** The locals of [DiffSchemas] that its rename loops change. *)
Record diff_locals := mkLocals {
  oldOrder : list string;
  oldByKey : gmap string ColumnSpec;
  renamed : list ColumnRename;
  unsupported : list string }.

Fixpoint replace_first (from to : string) (l : list string) : list string :=
  match l with
  | [] => []
  | key :: l' => if decide (key = from) then to :: l' else key :: replace_first from to l'
  end.

Definition applyRename (from to : string) (s : diff_locals) : diff_locals :=
  let fromKey := ToLower from in
  let toKey := ToLower to in
  let oldColumn := default (mkSpec "" "" false) (oldByKey s !! fromKey) in
  mkLocals (replace_first fromKey toKey (oldOrder s))
    (<[toKey := mkSpec to (cs_StorageType oldColumn) (cs_Nullable oldColumn)]> (delete fromKey (oldByKey s)))
    (renamed s ++ [mkRename from to]) (unsupported s).

Definition refuse (message : string) (s : diff_locals) : diff_locals :=
  mkLocals (oldOrder s) (oldByKey s) (renamed s) (unsupported s ++ [message]).

Definition sortedKeys (m : gmap string string) : list string := sort_strings (map_to_list m).*1.

Definition explicit_rename (currentByKey : gmap string ColumnSpec) (renames : gmap string string)
    (s : diff_locals) (from : string) : diff_locals :=
  let to := default "" (renames !! from) in
  match oldByKey s !! ToLower from with
  | None => refuse ("rename " +:+ from +:+ " -> " +:+ to +:+ ": '" +:+ from +:+ "' is not in the snapshot") s
  | Some _ =>
      match currentByKey !! ToLower to with
      | None => refuse ("rename " +:+ from +:+ " -> " +:+ to +:+ ": '" +:+ to +:+ "' is not a mapped column") s
      | Some _ => applyRename from to s
      end
  end.

Definition declared_rename (currentByKey : gmap string ColumnSpec) (declared : gmap string string)
    (s : diff_locals) (from : string) : diff_locals :=
  let to := default "" (declared !! from) in
  match oldByKey s !! ToLower from, oldByKey s !! ToLower to,
        currentByKey !! ToLower from, currentByKey !! ToLower to with
  | Some _, None, None, Some _ => applyRename from to s
  | _, _, _, _ => s
  end.

Definition renames_applied (current snapshot : TableSchema) (renames declared : gmap string string) : diff_locals :=
  let currentByKey := by_key (ts_Columns current) in
  let s := mkLocals (column_key <$> ts_Columns snapshot) (by_key (ts_Columns snapshot)) [] [] in
  let s := fold_left (explicit_rename currentByKey renames) (sortedKeys renames) s in
  fold_left (declared_rename currentByKey declared) (sortedKeys declared) s.

(** One column of the model that the snapshot lacks. *)
Definition addition (currentByKey oldByKey : gmap string ColumnSpec) (c : TableColumn) : option ColumnSpec :=
  match oldByKey !! column_key c with
  | Some _ => None
  | None => currentByKey !! column_key c
  end.
Definition unsupported_addition (column : ColumnSpec) : option string :=
  if cs_Nullable column then None
  else Some ("add " +:+ cs_Name column +:+
             ": non-nullable additions need a default/backfill — write the migration by hand").

Definition removal (currentByKey oldByKey : gmap string ColumnSpec) (key : string) : option ColumnSpec :=
  match currentByKey !! key with
  | Some _ => None
  | None => Some (default (mkSpec "" "" false) (oldByKey !! key))
  end.

Definition changed (before after : ColumnSpec) : bool :=
  negb (EqualFold (cs_StorageType before) (cs_StorageType after)) ||
  negb (Bool.eqb (cs_Nullable before) (cs_Nullable after)).
Definition unsupported_change (currentByKey oldByKey : gmap string ColumnSpec) (c : TableColumn) : option string :=
  match oldByKey !! column_key c with
  | None => None
  | Some before =>
      let after := default (mkSpec "" "" false) (currentByKey !! column_key c) in
      if changed before after then
        Some ("column " +:+ tc_Name c +:+ ": " +:+ cs_StorageType before +:+ nullSuffix (cs_Nullable before) +:+
              " -> " +:+ cs_StorageType after +:+ nullSuffix (cs_Nullable after) +:+
              " — write the migration by hand")
      else None
  end.

Definition signatures (indexes : list TableIndex) : list string := IndexSignature <$> indexes.
Definition unmatched (other : list string) (index : TableIndex) : bool :=
  negb (bool_decide (IndexSignature index ∈ other)).

Definition DiffSchemas (current : TableSchema) (snapshot : option TableSchema)
    (renames declared : gmap string string) : TableDiff :=
  match snapshot with
  | None => new_table
  | Some snapshot =>
      let currentByKey := by_key (ts_Columns current) in
      let s := renames_applied current snapshot renames declared in
      let additions := omap (addition currentByKey (oldByKey s)) (ts_Columns current) in
      mkTableDiff false
        (List.filter cs_Nullable additions)
        (omap (removal currentByKey (oldByKey s)) (oldOrder s))
        (renamed s)
        (List.filter (unmatched (signatures (ts_Indexes snapshot))) (ts_Indexes current))
        (ti_Name <$> List.filter (unmatched (signatures (ts_Indexes current))) (ts_Indexes snapshot))
        (unsupported s ++ omap unsupported_addition additions ++
         omap (unsupported_change currentByKey (oldByKey s)) (ts_Columns current))
  end.

Definition DeclaredRenames (m : EntityMap) : gmap string string :=
  fold_left (fun declared p => match RenamedFrom p with
                               | Some old => <[old := ColumnName p]> declared
                               | None => declared
                               end) (Properties m) ∅.

Definition Diff (m : EntityMap) (dialect : Dialect) (snapshot : option TableSchema)
    (renames : gmap string string) : TableDiff :=
  DiffSchemas (FromMap m dialect) snapshot renames (DeclaredRenames m).

Definition IndexSQL (d : TableDiff) (table : string) (dialect : Dialect) : list string :=
  CreateIndexFromSchemaSQL dialect table <$> df_AddedIndexes d.

(** ** The generated table step

    What a table step's [Action] calls on its [TableActions]; [AddColumn]
    carries the default of each [NotNull] option given. *)
Inductive table_action :=
  | CreateTable
  | DropTable
  | RenameTable (from : string)
  | RenameColumn (from to : string)
  | AddColumn (name storageType : string) (notNull : list string)
  | RemoveColumn (name : string)
  | CreateIndexes
  | DropIndex (name : string)
  | TableSQL (sql : string).

(** The body of the method [EmitTableStep] writes, as the calls it makes. *)
Definition EmitTableStep_body (m : EntityMap) (dialect : Dialect) (diff : TableDiff) : list table_action :=
  if df_IsNew diff
  then TableSQL (CreateTableSQL dialect m) :: (TableSQL <$> CreateIndexSQL dialect m)
  else ((fun r => RenameColumn (cr_From r) (cr_To r)) <$> df_Renamed diff) ++
       ((fun c => AddColumn (cs_Name c) (cs_StorageType c) []) <$> df_Added diff) ++
       ((fun c => RemoveColumn (cs_Name c)) <$> df_Removed diff) ++
       (TableSQL <$> IndexSQL diff (RelationName m) dialect) ++
       (DropIndex <$> df_RemovedIndexNames diff).

(** ** The diff of a trigger *)

Record TriggerDiff := mkTriggerDiff { tdf_IsNew : bool; tdf_IsChanged : bool; tdf_IsRemoved : bool }.
Definition TriggerDiff_HasChanges (d : TriggerDiff) : bool := tdf_IsNew d || tdf_IsChanged d || tdf_IsRemoved d.

Definition DiffTrigger (current snapshot : option TriggerDeclaration) : TriggerDiff :=
  match current, snapshot with
  | None, None => mkTriggerDiff false false false
  | _, None => mkTriggerDiff true false false
  | None, _ => mkTriggerDiff false false true
  | Some current, Some snapshot => mkTriggerDiff false (negb (Declaration_SameAs current snapshot)) false
  end.

(** [triggerCreatePrefix] on collapsed text, word by word: its length.  The
    pattern ends at a word boundary, so the third word may go on after
    [trigger] or [function] with a byte that is no letter, digit or
    underscore. *)
Definition word_byte (c : ascii) : bool := is_upper c || is_lower c || is_digit c || bool_decide (c = "_"%char).
Definition boundary_after (keyword word : string) : bool :=
  HasPrefix (ToLower word) keyword &&
  match drop (String.length keyword) (bytes word) with c :: _ => negb (word_byte c) | [] => true end.
Definition create_prefix (words : list string) : option nat :=
  let object (before : nat) (word : string) :=
    if boundary_after "trigger" word then Some (before + 7)
    else if boundary_after "function" word then Some (before + 8) else None in
  match words with
  | create :: or_ :: replace :: word :: _ =>
      if word_is "create" create
      then if word_is "or" or_ && word_is "replace" replace
           then object (String.length (create +:+ " " +:+ or_ +:+ " " +:+ replace +:+ " ")) word
           else object (String.length (create +:+ " ")) or_
      else None
  | create :: word :: _ => if word_is "create" create then object (String.length (create +:+ " ")) word else None
  | _ => None
  end.

Definition NormalizeTriggerDDL (sql : string) : string :=
  let words := Fields sql in
  let collapsed := Join words " " in
  match create_prefix words with
  | None => collapsed
  | Some n => ToLower (slice collapsed 0 n) +:+ of_bytes (drop n (bytes collapsed))
  end.

Definition normalizedSet (statements : list string) : list string :=
  sort_strings (NormalizeTriggerDDL <$> statements).
Definition TriggerStatementsMatch (live expected : list string) : bool :=
  bool_decide (normalizedSet live = normalizedSet expected).
