(* ===== verification/MigrationSteps.v ===== *)
(** Migration versions (migrations/migration.go, migration_set.go,
    trigger_actions.go): the actions of a step and the statements they render,
    the structure of a set of versions, and its rendering.

    A step's [Action], [Down] and hooks are user methods; a step carries the
    calls they make, in order.  The loader of entity maps and the trigger
    classes' own declarations are arguments. *)
From S2P Require Import Prelude GoStrings Values Digits Core Triggers Dialect SchemaSnapshot SchemaDiff.

(** ** Statements and actions *)

Record MigrationStatement := mkStatement {
  st_SQL : string; st_Origin : string; st_GuardView : string;
  st_GuardTrigger : string; st_Expected : list string }.
#[export] Instance MigrationStatement_eq_dec : EqDecision MigrationStatement.
Proof. solve_decision. Defined.

(** [MigrationStatement{SQL: sql, Origin: origin}] *)
Definition statement (origin sql : string) : MigrationStatement := mkStatement sql origin "" "" [].

Record DownPlan := mkDownPlan {
  dp_Pre : list MigrationStatement; dp_Core : list MigrationStatement; dp_Post : list MigrationStatement }.

(** [MigrationSQL.render] *)
Definition render_hooks (origin : string) (statements : list string) : list MigrationStatement :=
  statement origin <$> statements.

Record MigrationAction := mkAction {
  ma_origin : string; ma_statements : list string; ma_guard : option MigrationStatement;
  ma_preSQL : list string; ma_postSQL : list string }.

Definition newAction (origin : string) (statements : list string) : MigrationAction :=
  mkAction origin statements None [] [].

(** The [Pre] and [Post] hooks chained on an action. *)
Record hooks := mkHooks { pre_hooks : list string; post_hooks : list string }.
Definition no_hooks : hooks := mkHooks [] [].
Definition with_hooks (h : hooks) (a : MigrationAction) : MigrationAction :=
  mkAction (ma_origin a) (ma_statements a) (ma_guard a)
    (ma_preSQL a ++ pre_hooks h) (ma_postSQL a ++ post_hooks h).
Definition with_guard (s : MigrationStatement) (a : MigrationAction) : MigrationAction :=
  mkAction (ma_origin a) (ma_statements a) (Some s) (ma_preSQL a) (ma_postSQL a).

Definition render_action (a : MigrationAction) : list MigrationStatement :=
  match ma_guard a with Some g => [g] | None => [] end ++
  (statement (ma_origin a +:+ " pre") <$> ma_preSQL a) ++
  (statement (ma_origin a) <$> ma_statements a) ++
  (statement (ma_origin a +:+ " post") <$> ma_postSQL a).

(** ** Table actions *)

Record TableActions := mkTableActions {
  ta_table : string; ta_entityMap : EntityMap; ta_dialect : Dialect;
  ta_renames : list MigrationAction; ta_adds : list MigrationAction;
  ta_removes : list MigrationAction; ta_custom : list MigrationAction;
  ta_columnRenames : list ColumnRename }.

Definition newTableActions (m : EntityMap) (dialect : Dialect) : TableActions :=
  mkTableActions (RelationName m) m dialect [] [] [] [] [].

Inductive action_group := Renames | Adds | Removes | Custom.

Definition track (group : action_group) (action : MigrationAction) (a : TableActions) : TableActions :=
  let app (g : action_group) (l : list MigrationAction) :=
    match group, g with
    | Renames, Renames | Adds, Adds | Removes, Removes | Custom, Custom => l ++ [action]
    | _, _ => l
    end in
  mkTableActions (ta_table a) (ta_entityMap a) (ta_dialect a)
    (app Renames (ta_renames a)) (app Adds (ta_adds a)) (app Removes (ta_removes a))
    (app Custom (ta_custom a)) (ta_columnRenames a).

(** The [columnOptions] that [AddColumn]'s options leave. *)
Definition column_options (notNull : list string) : bool * string :=
  fold_left (fun _ defaultSQL => (false, defaultSQL)) notNull (true, "").

(** The group and the action of one call. *)
Definition action_of (a : TableActions) (call : table_action) : action_group * MigrationAction :=
  let table := ta_table a in
  let d := ta_dialect a in
  match call with
  | CreateTable =>
      (Adds, newAction ("create " +:+ table)
               (CreateTableSQL d (ta_entityMap a) :: CreateIndexSQL d (ta_entityMap a)))
  | DropTable => (Removes, newAction ("drop " +:+ table) [DropTableSQL d table])
  | RenameTable from => (Renames, newAction ("rename table " +:+ from) [RenameTableSQL d from table])
  | RenameColumn from to =>
      (Renames, newAction ("rename " +:+ table +:+ "." +:+ from) [RenameColumnSQL d table from to])
  | AddColumn name storageType notNull =>
      let '(nullable, defaultSQL) := column_options notNull in
      (Adds, newAction ("add " +:+ table +:+ "." +:+ name)
               [AddColumnSQL d table name storageType nullable defaultSQL])
  | RemoveColumn name => (Removes, newAction ("remove " +:+ table +:+ "." +:+ name) [DropColumnSQL d table name])
  | CreateIndexes => (Adds, newAction ("indexes " +:+ table) (CreateIndexSQL d (ta_entityMap a)))
  | DropIndex name => (Removes, newAction ("drop index " +:+ name) [DropIndexSQL d table name])
  | TableSQL sql => (Custom, newAction ("sql " +:+ table) [sql])
  end.

Definition record_rename (call : table_action) (a : TableActions) : TableActions :=
  match call with
  | RenameColumn from to =>
      mkTableActions (ta_table a) (ta_entityMap a) (ta_dialect a) (ta_renames a) (ta_adds a)
        (ta_removes a) (ta_custom a) (ta_columnRenames a ++ [mkRename from to])
  | _ => a
  end.

Definition table_call (a : TableActions) (call : table_action * hooks) : TableActions :=
  let '(group, action) := action_of a call.1 in
  track group (with_hooks call.2 action) (record_rename call.1 a).

Definition table_calls (calls : list (table_action * hooks)) (a : TableActions) : TableActions :=
  fold_left table_call calls a.

Definition build_table (a : TableActions) : list MigrationStatement :=
  mbind (mbind render_action) [ta_renames a; ta_adds a; ta_removes a; ta_custom a].

(** ** View actions *)

Inductive view_action :=
  | CreateView
  | DropView
  | RecreateView
  | ViewSQL (sql : string)
  | ExpectDefinition (ddl : string).

Definition view_action_of (m : EntityMap) (d : Dialect) (call : view_action) : MigrationAction :=
  let view := RelationName m in
  let materialized := bool_decide (Kind m = RelationMaterializedView) in
  match call with
  | CreateView => newAction ("create " +:+ view) (CreateViewSQL d m :: CreateIndexSQL d m)
  | DropView =>
      newAction ("drop " +:+ view)
        [(if materialized then "drop materialized view " else "drop view ") +:+ QuoteIdentifier d view]
  | RecreateView =>
      newAction ("recreate " +:+ view)
        (DropViewSQL d view materialized :: CreateViewSQL d m :: CreateIndexSQL d m)
  | ViewSQL sql => newAction ("sql " +:+ view) [sql]
  | ExpectDefinition ddl =>
      with_guard (mkStatement (NormalizeDDL ddl) ("expect " +:+ view) view "" [])
        (newAction ("expect " +:+ view) [])
  end.

Definition build_view (m : EntityMap) (d : Dialect) (calls : list (view_action * hooks)) : list MigrationStatement :=
  mbind (fun call => render_action (with_hooks call.2 (view_action_of m d call.1))) calls.

(** ** Trigger actions *)

Definition triggerGuard (dialect : Dialect) (relation : string) (onView : bool)
    (definition : TriggerDefinition) (origin : string) : result MigrationStatement :=
  let* creates := CreateTriggerSQL dialect relation onView definition in
  let expected := sort_strings (NormalizeTriggerDDL <$> creates) in
  Ok (mkStatement (Join expected (nl +:+ ";" +:+ nl)) origin "" (tr_Name definition) expected).

Inductive trigger_action :=
  | CreateTrigger
  | Recreate (timing : TriggerTiming) (events : TriggerEvents) (sql : string) (updateOf : list string)
  | ExpectTrigger (timing : TriggerTiming) (events : TriggerEvents) (sql : string) (updateOf : list string)
  | DropTrigger.

Record TriggerActions := mkTriggerActions {
  tra_name : string; tra_relation : string; tra_onView : bool; tra_entityMap : EntityMap;
  tra_linked : option EntityTrigger; tra_dialect : Dialect;
  tra_actions : list MigrationAction; tra_err : option Error;
  tra_declared : option TriggerDeclaration; tra_dropped : bool }.

Definition newTriggerActions (m : EntityMap) (linked : option EntityTrigger) (name : string)
    (dialect : Dialect) : TriggerActions :=
  mkTriggerActions name (RelationName m) (bool_decide (Kind m = RelationView)) m linked dialect [] None None false.

Definition track_trigger (action : MigrationAction) (a : TriggerActions) : TriggerActions :=
  mkTriggerActions (tra_name a) (tra_relation a) (tra_onView a) (tra_entityMap a) (tra_linked a)
    (tra_dialect a) (tra_actions a ++ [action]) (tra_err a) (tra_declared a) (tra_dropped a).
(** [fail]: the first error stays. *)
Definition fail_trigger (err : Error) (a : TriggerActions) : TriggerActions :=
  mkTriggerActions (tra_name a) (tra_relation a) (tra_onView a) (tra_entityMap a) (tra_linked a)
    (tra_dialect a) (tra_actions a) (match tra_err a with Some e => Some e | None => Some err end)
    (tra_declared a) (tra_dropped a).
Definition leave (declared : option TriggerDeclaration) (dropped : bool) (a : TriggerActions) : TriggerActions :=
  mkTriggerActions (tra_name a) (tra_relation a) (tra_onView a) (tra_entityMap a) (tra_linked a)
    (tra_dialect a) (tra_actions a) (tra_err a) declared dropped.

Definition declarationOf (a : TriggerActions) (definition : TriggerDefinition) : TriggerDeclaration :=
  mkDeclaration "" (tr_Name definition) (tra_relation a)
    (if tra_onView a then RelationKindView else RelationKindTable)
    (tr_Timing definition) (tr_Events definition) (tr_UpdateOf definition) (tr_SQL definition).

Definition literal (a : TriggerActions) (timing : TriggerTiming) (events : TriggerEvents)
    (sql : string) (updateOf : list string) : TriggerDefinition :=
  mkTrigger (tra_name a) timing events updateOf sql.

Definition recreate (origin : string) (definition : TriggerDefinition) (h : hooks) (a : TriggerActions) : TriggerActions :=
  match CreateTriggerSQL (tra_dialect a) (tra_relation a) (tra_onView a) definition with
  | Fail err => track_trigger (with_hooks h (newAction origin [])) (fail_trigger err a)
  | Ok creates =>
      track_trigger
        (with_hooks h (newAction origin (DropTriggerSQL (tra_dialect a) (tra_relation a) (tra_name a) ++ creates)))
        (leave (Some (declarationOf a definition)) false a)
  end.

Definition trigger_call (a : TriggerActions) (call : trigger_action * hooks) : TriggerActions :=
  let name := tra_name a in
  match call.1 with
  | CreateTrigger =>
      match tra_linked a with
      | None =>
          track_trigger (with_hooks call.2 (newAction ("create trigger " +:+ name) []))
            (fail_trigger (NewError "DDL-001" (EntityName (tra_entityMap a))) a)
      | Some linked => recreate ("create trigger " +:+ name) (et_Definition linked) call.2 a
      end
  | Recreate timing events sql updateOf =>
      recreate ("recreate trigger " +:+ name) (literal a timing events sql updateOf) call.2 a
  | ExpectTrigger timing events sql updateOf =>
      let action := with_hooks call.2 (newAction ("expect trigger " +:+ name) []) in
      match triggerGuard (tra_dialect a) (tra_relation a) (tra_onView a)
              (literal a timing events sql updateOf) ("expect trigger " +:+ name) with
      | Fail err => fail_trigger err (track_trigger action a)
      | Ok guard => track_trigger (with_guard guard action) a
      end
  | DropTrigger =>
      track_trigger
        (with_hooks call.2 (newAction ("drop trigger " +:+ name)
                              (DropTriggerSQL (tra_dialect a) (tra_relation a) name)))
        (leave None true a)
  end.

Definition trigger_calls (calls : list (trigger_action * hooks)) (a : TriggerActions) : TriggerActions :=
  fold_left trigger_call calls a.

Definition build_trigger (a : TriggerActions) : result (list MigrationStatement) :=
  match tra_err a with
  | Some err => Fail err
  | None => Ok (mbind render_action (tra_actions a))
  end.

(** ** Steps and versions *)

Record SQLVersionStep := mkSQLStep {
  sv_ObjectName : string; sv_Description : string; sv_Up : list string; sv_Down : list string;
  sv_Renames : list ColumnRename; sv_ExpectDefinition : string;
  sv_Trigger : option TriggerDeclaration; sv_ExpectTrigger : option TriggerDeclaration }.

(** What a typed step's methods are: its [Action] where it has one, its [Down]
    override and the statements of its data hooks. *)
Record step_body (A : Type) := mkBody {
  sb_Action : option (list (A * hooks)); sb_Down : list (A * hooks);
  sb_PreDown : list string; sb_PostDown : list string }.
Arguments mkBody {A} _ _ _ _.
Arguments sb_Action {A} _.
Arguments sb_Down {A} _.
Arguments sb_PreDown {A} _.
Arguments sb_PostDown {A} _.

Inductive step_kind :=
  | stepKindTable (entityType : GoType) (body : step_body table_action)
  | stepKindView (entityType : GoType) (body : step_body view_action)
  | stepKindTrigger (entityType triggerType : GoType) (body : step_body trigger_action)
  | stepKindRaw (data : SQLVersionStep).

(** [step_TypeName] is [concreteTypeName]; [step_Described] what [Described]
    answers where the type implements it. *)
Record Step := mkStep {
  step_TypeName : string; step_Described : option (Z * string); step_describe : step_kind }.

Record Version := mkVersion {
  ver_TypeName : string; ver_Versioned : option Z; ver_Drafted : option bool; ver_Compose : list Step }.

Definition isDraft (v : Version) : bool := default false (ver_Drafted v).

Definition NewSQLVersion (version : Z) (steps : list SQLVersionStep) : Version :=
  mkVersion "SQLVersion" (Some version) (Some false)
    ((fun data => mkStep "rawStep" (Some (version, sv_Description data)) (stepKindRaw data)) <$> steps).
Definition AsDraft (v : Version) : Version :=
  mkVersion (ver_TypeName v) (ver_Versioned v) (Some true) (ver_Compose v).

(** ** Names and numbers *)

(** [strconv.ParseInt(digits, 10, 64)] *)
Definition parse_digits (digits : list ascii) : option Z :=
  let number := digits_value digits in
  if (number <? 2 ^ 63)%Z then Some number else None.

Fixpoint leading_digits (l : list ascii) : list ascii * list ascii :=
  match l with
  | c :: l' => if is_digit c then let '(ds, rest) := leading_digits l' in (c :: ds, rest) else ([], l)
  | [] => ([], [])
  end.

(** [^V(\d+)$] *)
Definition rootNamePattern (name : string) : option (list ascii) :=
  match bytes name with
  | "V"%char :: l =>
      match leading_digits l with
      | ((_ :: _) as digits, []) => Some digits
      | _ => None
      end
  | _ => None
  end.

(** [^V(\d+)_(\w+)$] *)
Definition stepNamePattern (name : string) : option (list ascii * string) :=
  match bytes name with
  | "V"%char :: l =>
      match leading_digits l with
      | ((_ :: _) as digits, "_"%char :: ((_ :: _) as description)) =>
          if forallb word_byte description then Some (digits, of_bytes description) else None
      | _ => None
      end
  | _ => None
  end.

Definition rootVersionNumber (v : Version) : result Z :=
  match ver_Versioned v with
  | Some number => Ok number
  | None =>
      match rootNamePattern (ver_TypeName v) with
      | None => Fail (NewError "MIG-001" (ver_TypeName v))
      | Some digits =>
          match parse_digits digits with
          | Some number => Ok number
          | None => Fail (NewError "MIG-001" (ver_TypeName v))
          end
      end
  end.

Definition stepIdentity (step : Step) : result (Z * string) :=
  match step_Described step with
  | Some identity => Ok identity
  | None =>
      match stepNamePattern (step_TypeName step) with
      | None => Fail (NewError "MIG-001" (step_TypeName step))
      | Some (digits, description) =>
          match parse_digits digits with
          | Some number => Ok (number, description)
          | None => Fail (NewError "MIG-001" (step_TypeName step))
          end
      end
  end.

(** ** A set of versions *)

Definition setVersion : Type := Version * Z.
Definition Set_of_versions : Type := list setVersion.

Definition number_version (seen : list setVersion) (v : Version) : result (list setVersion) :=
  let* number := rootVersionNumber v in
  if decide (number ∈ seen.*2) then Fail (NewError "MIG-002" (V4 number))
  else Ok (seen ++ [(v, number)]).

Definition by_number (a b : setVersion) : Prop := (a.2 <= b.2)%Z.
#[export] Instance by_number_dec a b : Decision (by_number a b).
Proof. unfold by_number. apply _. Defined.

Definition checkActionShape (step : Step) : result unit :=
  let refused := Fail (NewError "MIG-001" (step_TypeName step)) in
  match step_describe step with
  | stepKindTable _ body => if sb_Action body then Ok tt else refused
  | stepKindView _ body => if sb_Action body then Ok tt else refused
  | stepKindTrigger _ _ body => if sb_Action body then Ok tt else refused
  | stepKindRaw _ => Ok tt
  end.

Definition check_step (number : Z) (step : Step) : result unit :=
  let* identity := stepIdentity step in
  if decide (identity.1 = number) then checkActionShape step
  else Fail (NewError "MIG-003" (step_TypeName step)).
Definition check_version (nv : setVersion) : result unit :=
  let* _ := mapR (check_step nv.2) (ver_Compose nv.1) in Ok tt.

Definition NewSet (versions : list Version) : result Set_of_versions :=
  let* numbered := foldR number_version [] versions in
  let numbered := merge_sort by_number numbered in
  let* _ := mapR check_version numbered in
  Ok numbered.

Definition VersionNumbers (s : Set_of_versions) : list Z := s.*2.
Definition versionByNumber (s : Set_of_versions) (number : Z) : option Version :=
  fst <$> List.find (fun v => (v.2 =? number)%Z) s.

(** ** Rendering *)

Record RenderedStep := mkRenderedStep {
  rs_Version : Z; rs_ObjectName : string; rs_Description : string;
  rs_Up : list MigrationStatement; rs_Down : DownPlan; rs_Renames : list ColumnRename;
  rs_Trigger : option TriggerDeclaration; rs_TriggerDropped : bool }.
Record RenderedVersion := mkRenderedVersion {
  rv_Version : Z; rv_Draft : bool; rv_Steps : list RenderedStep }.

Definition TypeName (t : GoType) : string :=
  if bool_decide (PkgPath t = "") || bool_decide (TypeShortName t = "") then TypeShortName t
  else PkgPath t +:+ "." +:+ TypeShortName t.

Definition withName (declaration : TriggerDeclaration) (name : string) : TriggerDeclaration :=
  mkDeclaration (td_Dialect declaration) name (td_Relation declaration) (td_RelationKind declaration)
    (td_Timing declaration) (td_Events declaration) (td_UpdateOf declaration) (td_SQL declaration).

Definition rawTriggerDeclaration (data : SQLVersionStep) (objectName : string) : option TriggerDeclaration :=
  (fun trigger =>
     let d := withName trigger objectName in
     if decide (td_RelationKind d = "")
     then mkDeclaration (td_Dialect d) (td_Name d) (td_Relation d) RelationKindTable
            (td_Timing d) (td_Events d) (td_UpdateOf d) (td_SQL d)
     else d) <$> sv_Trigger data.

Definition renderRawStep (data : SQLVersionStep) (objectName description : string)
    (dialect : Dialect) (versionNumber : Z) : result RenderedStep :=
  let expect :=
    if decide (sv_ExpectDefinition data = "") then []
    else [mkStatement (NormalizeDDL (sv_ExpectDefinition data)) ("expect " +:+ objectName) objectName "" []] in
  let* guard :=
    match sv_ExpectTrigger data with
    | None => Ok []
    | Some expected =>
        let d := withName expected objectName in
        let* g := triggerGuard dialect (td_Relation d) (OnView d) (Declaration_Definition d)
                    ("expect " +:+ objectName) in
        Ok [g]
    end in
  let* trigger :=
    match sv_Trigger data with
    | None => Ok []
    | Some declared =>
        let d := withName declared objectName in
        let* creates := CreateTriggerSQL dialect (td_Relation d) (OnView d) (Declaration_Definition d) in
        Ok ((statement ("drop trigger " +:+ objectName) <$> DropTriggerSQL dialect (td_Relation d) objectName) ++
            (statement ("create trigger " +:+ objectName) <$> creates))
    end in
  Ok (mkRenderedStep versionNumber objectName description
        (expect ++ guard ++ trigger ++ (statement ("sql " +:+ objectName) <$> sv_Up data))
        (mkDownPlan [] (statement ("sql " +:+ objectName) <$> sv_Down data) [])
        (sv_Renames data) (rawTriggerDeclaration data objectName) false).

Definition DownPlan_of {A} (body : step_body A) (core : list MigrationStatement) : DownPlan :=
  mkDownPlan (render_hooks "pre-down" (sb_PreDown body)) core (render_hooks "post-down" (sb_PostDown body)).

Section Rendering.
Context (load : GoType -> result (EntityMap * list EntityTrigger)).
(** The declared name of a trigger class: what its [Trigger] method returns. *)
Context (TriggerDeclarationOf : GoType -> option string).
Context (dialect : Dialect).

Definition objectNameFor (desc : step_kind) : result string :=
  match desc with
  | stepKindRaw data => Ok (sv_ObjectName data)
  | stepKindTrigger _ triggerType _ =>
      match TriggerDeclarationOf triggerType with
      | None => Fail (NewError "MAP-029" (TypeName triggerType))
      | Some name => Ok (TrimSpace name)
      end
  | stepKindTable entityType _ | stepKindView entityType _ =>
      let* m := load entityType in Ok (RelationName m.1)
  end.

Definition renderTableStep (step : Step) (entityType : GoType) (body : step_body table_action)
    (objectName description : string) (versionNumber : Z) : result RenderedStep :=
  let* loaded := load entityType in
  let m := loaded.1 in
  if decide (Kind m <> RelationTable) then Fail (NewError "DDL-001" (TypeName entityType)) else
  match sb_Action body with
  | None => Fail (NewError "MIG-001" (step_TypeName step))
  | Some action =>
      let up := table_calls action (newTableActions m dialect) in
      let down := table_calls (sb_Down body) (newTableActions m dialect) in
      Ok (mkRenderedStep versionNumber objectName description (build_table up)
            (DownPlan_of body (build_table down)) (ta_columnRenames up) None false)
  end.

Definition renderViewStep (step : Step) (entityType : GoType) (body : step_body view_action)
    (objectName description : string) (versionNumber : Z) : result RenderedStep :=
  let* loaded := load entityType in
  let m := loaded.1 in
  if decide (Kind m <> RelationView /\ Kind m <> RelationMaterializedView)
  then Fail (NewError "DDL-001" (TypeName entityType)) else
  if bool_decide (Kind m = RelationMaterializedView) && negb (SupportsMaterializedViews dialect)
  then Fail (NewError "DDL-002" (TypeName entityType)) else
  match sb_Action body with
  | None => Fail (NewError "MIG-001" (step_TypeName step))
  | Some action =>
      Ok (mkRenderedStep versionNumber objectName description (build_view m dialect action)
            (DownPlan_of body (build_view m dialect (sb_Down body))) [] None false)
  end.

Definition renderTriggerStep (step : Step) (entityType triggerType : GoType)
    (body : step_body trigger_action) (objectName description : string) (versionNumber : Z) : result RenderedStep :=
  let* loaded := load entityType in
  let m := loaded.1 in
  if decide (Kind m <> RelationTable /\ Kind m <> RelationView)
  then Fail (NewError "DDL-001" (TypeName entityType)) else
  match sb_Action body with
  | None => Fail (NewError "MIG-001" (step_TypeName step))
  | Some action =>
      let linked := List.find (fun t => bool_decide (et_Type t = triggerType)) loaded.2 in
      let up := trigger_calls action (newTriggerActions m linked objectName dialect) in
      let* upStatements := build_trigger up in
      let down := trigger_calls (sb_Down body) (newTriggerActions m linked objectName dialect) in
      let* downStatements := build_trigger down in
      Ok (mkRenderedStep versionNumber objectName description upStatements
            (DownPlan_of body downStatements) [] (tra_declared up) (tra_dropped up))
  end.

Definition renderStep (step : Step) (objectName : string) (versionNumber : Z) : result RenderedStep :=
  let* identity := stepIdentity step in
  let description := identity.2 in
  match step_describe step with
  | stepKindTable entityType body => renderTableStep step entityType body objectName description versionNumber
  | stepKindView entityType body => renderViewStep step entityType body objectName description versionNumber
  | stepKindTrigger entityType triggerType body =>
      renderTriggerStep step entityType triggerType body objectName description versionNumber
  | stepKindRaw data => renderRawStep data objectName description dialect versionNumber
  end.

(** One turn of [Render]'s loop over a version's steps. *)
Definition render_next (number : Z) (steps : list RenderedStep) (step : Step) : result (list RenderedStep) :=
  let* objectName := objectNameFor (step_describe step) in
  if decide (objectName ∈ rs_ObjectName <$> steps)
  then Fail (NewError "MIG-002" (V4 number +:+ " " +:+ objectName)) else
  let* renderedStep := renderStep step objectName number in
  Ok (steps ++ [renderedStep]).

Definition render_version (nv : setVersion) : result RenderedVersion :=
  let* steps := foldR (render_next nv.2) [] (ver_Compose nv.1) in
  Ok (mkRenderedVersion nv.2 (isDraft nv.1) steps).

Definition Render (s : Set_of_versions) : result (list RenderedVersion) := mapR render_version s.
End Rendering.
