(* ===== verification/DownDerive.v ===== *)
(** Derived rollbacks (migrations/down_deriver.go): the statements that take a
    step back, deduced from the snapshot at its version, the one before it and
    the step's declared renames. *)
From S2P Require Import Prelude GoStrings Core Triggers Dialect SchemaSnapshot SchemaDiff MigrationSteps.

Definition guard_view (view sql origin : string) : MigrationStatement := mkStatement sql origin view "" [].

Definition deriveViewDown (objectName ddlAt : string) (ddlBefore : option string) (dialect : Dialect)
    : list MigrationStatement :=
  let materialized := match ViewParts ddlAt with Some (_, _, m) => m | None => false end in
  [guard_view objectName (NormalizeDDL ddlAt) ("derived expect " +:+ objectName);
   statement ("derived drop " +:+ objectName) (DropViewSQL dialect objectName materialized)] ++
  match ddlBefore with
  | None => []
  | Some before =>
      let restore :=
        match ViewParts before with
        | Some (_, body, previousMaterialized) => CreateViewFromBodySQL dialect objectName body previousMaterialized
        | None => before
        end in
      [statement ("derived restore " +:+ objectName) restore]
  end.

Definition deriveTriggerDown (objectName : string) (at_ : TriggerDeclaration)
    (before : option TriggerDeclaration) (dialect : Dialect) : result (list MigrationStatement) :=
  let* guard := triggerGuard dialect (td_Relation at_) (OnView at_)
                  (Declaration_Definition (withName at_ objectName)) ("derived expect " +:+ objectName) in
  let drops := statement ("derived drop " +:+ objectName) <$> DropTriggerSQL dialect (td_Relation at_) objectName in
  match before with
  | None => Ok (guard :: drops)
  | Some before =>
      let* creates := CreateTriggerSQL dialect (td_Relation before) (OnView before)
                        (Declaration_Definition (withName before objectName)) in
      Ok (guard :: drops ++ (statement ("derived restore " +:+ objectName) <$> creates))
  end.

(** ** Tables *)

(** [nameAtToBefore]: the renames are inverted last first, so the first
    declared of two of one name is kept. *)
Definition inverted (upRenames : list ColumnRename) : gmap string string :=
  fold_left (fun m r => <[ToLower (cr_To r) := cr_From r]> m) (rev upRenames) ∅.

Record namedColumn := mkNamed { displayName : string; named_column : TableColumn }.

(** A later column under its name before this version. *)
Definition before_name (nameAtToBefore : gmap string string) (c : TableColumn) : string :=
  default (tc_Name c) (nameAtToBefore !! column_key c).
Definition before_key (nameAtToBefore : gmap string string) (c : TableColumn) : string :=
  ToLower (before_name nameAtToBefore c).

Definition current_columns (nameAtToBefore : gmap string string) (columns : list TableColumn) : gmap string namedColumn :=
  fold_left (fun m c => <[before_key nameAtToBefore c := mkNamed (before_name nameAtToBefore c) c]> m) columns ∅.
Definition previous_columns (columns : list TableColumn) : gmap string namedColumn :=
  fold_left (fun m c => <[column_key c := mkNamed (tc_Name c) c]> m) columns ∅.

Definition column_changed (now then_ : TableColumn) : bool :=
  negb (EqualFold (tc_StorageType now) (tc_StorageType then_)) ||
  negb (Bool.eqb (tc_Nullable now) (tc_Nullable then_)).

(** The type/nullability refusal over one column. *)
Definition underivable (current previous : gmap string namedColumn) (key : string) : bool :=
  match current !! key, previous !! key with
  | Some now, Some then_ => column_changed (named_column now) (named_column then_)
  | _, _ => false
  end.

Definition TrimSuffix (s suffix : string) : string :=
  if HasSuffix s suffix then slice s 0 (String.length s - String.length suffix) else s.

(** One part of a signature under the names before this version. *)
Definition rename_part (nameAtToBefore : gmap string string) (part : string) : string :=
  let descending := HasSuffix part " desc" in
  let column := if descending then TrimSuffix part " desc" else part in
  let column := match nameAtToBefore !! column with Some renamed => ToLower renamed | None => column end in
  if descending then column +:+ " desc" else column.

Definition applyRenames (nameAtToBefore : gmap string string) (signature : string) : string :=
  if decide (nameAtToBefore = ∅) then signature else
  match cut_at "|"%char (bytes signature) with
  | (kind, Some parts) =>
      of_bytes kind +:+ "|" +:+ Join (rename_part nameAtToBefore <$> Split (of_bytes parts) ","%char) ","
  | (_, None) => signature
  end.

Definition index_matched (nameAtToBefore : gmap string string) (atIndex beforeIndex : TableIndex) : bool :=
  bool_decide (applyRenames nameAtToBefore (IndexSignature atIndex) = IndexSignature beforeIndex).

Definition not_nullable_notice (version : Z) (objectName : string) (c : TableColumn) : option string :=
  if tc_Nullable c then None
  else Some (V4 version +:+ " " +:+ objectName +:+ "." +:+ tc_Name c +:+
             ": restored nullable — the NOT NULL constraint (and the data) are not derivable").

(** The five groups of statements, in the order they are derived. *)
Section TableDown.
Context (objectName : string) (version : Z) (dialect : Dialect).
Context (at_ before : TableSchema) (upRenames : list ColumnRename).
Let nameAtToBefore := inverted upRenames.
Let current := current_columns nameAtToBefore (ts_Columns at_).
Let previous := previous_columns (ts_Columns before).

Definition down_renames : list MigrationStatement :=
  (fun r => statement ("derived rename " +:+ objectName) (RenameColumnSQL dialect objectName (cr_To r) (cr_From r)))
    <$> rev upRenames.

Definition dropped_indexes : list TableIndex :=
  List.filter (fun i => negb (existsb (index_matched nameAtToBefore i) (ts_Indexes before))) (ts_Indexes at_).
Definition restored_columns : list TableColumn :=
  List.filter (fun c => negb (bool_decide (is_Some (current !! column_key c)))) (ts_Columns before).
Definition dropped_columns : list TableColumn :=
  omap (fun c => let key := before_key nameAtToBefore c in
                 match previous !! key with
                 | Some _ => None
                 | None => named_column <$> current !! key
                 end) (ts_Columns at_).
Definition restored_indexes : list TableIndex :=
  List.filter (fun i => negb (existsb (fun a => index_matched nameAtToBefore a i) (ts_Indexes at_))) (ts_Indexes before).

Definition down_statements : list MigrationStatement :=
  down_renames ++
  ((fun i => statement "derived drop index" (DropIndexSQL dialect objectName (ti_Name i))) <$> dropped_indexes) ++
  ((fun c => statement ("derived add " +:+ objectName)
               (AddColumnSQL dialect objectName (tc_Name c) (tc_StorageType c) true "")) <$> restored_columns) ++
  ((fun c => statement ("derived remove " +:+ objectName) (DropColumnSQL dialect objectName (tc_Name c)))
     <$> dropped_columns) ++
  ((fun i => statement "derived add index" (CreateIndexFromSchemaSQL dialect objectName i)) <$> restored_indexes).

(** The statements and the notices added. *)
Definition derive_columns : result (list MigrationStatement * list string) :=
  if existsb (fun c => underivable current previous (before_key nameAtToBefore c)) (ts_Columns at_)
  then Fail (NewError "MIG-020" (V4 version +:+ " " +:+ objectName))
  else Ok (down_statements, omap (not_nullable_notice version objectName) restored_columns).
End TableDown.

Definition deriveTableDown (objectName : string) (version : Z) (at_ : TableSchema)
    (before : option TableSchema) (upRenames : list ColumnRename) (dialect : Dialect)
    : result (list MigrationStatement * list string) :=
  match before with
  | None => Ok ([statement ("derived drop " +:+ objectName) (DropTableSQL dialect objectName)], [])
  | Some before => derive_columns objectName version dialect at_ before upRenames
  end.

(** [None] is the nil the caller refuses with MIG-020; the second component is
    what is appended to the notices. *)
Definition DeriveDown (objectName : string) (version : Z) (snapshots : SnapshotSet)
    (upRenames : list ColumnRename) (dialect : Dialect)
    : result (option (list MigrationStatement) * list string) :=
  match At snapshots objectName version with
  | None => Ok (None, [])
  | Some at_ =>
      let before := LatestBefore snapshots objectName version in
      let* _ := CheckSnapshotDialect (se_Dialect at_) dialect (V4 version +:+ " " +:+ objectName) in
      let* _ := match before with
                | Some b => CheckSnapshotDialect (se_Dialect b) dialect
                              (objectName +:+ " (snapshot before " +:+ V4 version +:+ ")")
                | None => Ok tt
                end in
      match se_Trigger at_ with
      | Some trigger =>
          let* statements := deriveTriggerDown objectName trigger (b ← before; se_Trigger b) dialect in
          Ok (Some statements, [])
      | None =>
          match se_Table at_ with
          | None => Ok (Some (deriveViewDown objectName (se_DDL at_) (se_DDL <$> before) dialect), [])
          | Some table =>
              let* derived := deriveTableDown objectName version table (b ← before; se_Table b) upRenames dialect in
              Ok (Some derived.1, derived.2)
          end
      end
  end.
