(* ===== verification/Sha256.v ===== *)
(** SHA-256 (crypto/sha256) over byte strings and its lower-case hexadecimal
    text (encoding/hex): FIPS 180-4, 32-bit words as [Z]. *)
From S2P Require Import Prelude GoStrings.
#[local] Open Scope Z_scope.

Definition mask32 : Z := 2 ^ 32 - 1.
Definition add32 (a b : Z) : Z := Z.land (a + b) mask32.
Definition rotr (n x : Z) : Z := Z.lor (Z.shiftr x n) (Z.land (Z.shiftl x (32 - n)) mask32).
Definition xor3 (a b c : Z) : Z := Z.lxor (Z.lxor a b) c.

Definition small0 (x : Z) : Z := xor3 (rotr 7 x) (rotr 18 x) (Z.shiftr x 3).
Definition small1 (x : Z) : Z := xor3 (rotr 17 x) (rotr 19 x) (Z.shiftr x 10).
Definition big0 (x : Z) : Z := xor3 (rotr 2 x) (rotr 13 x) (rotr 22 x).
Definition big1 (x : Z) : Z := xor3 (rotr 6 x) (rotr 11 x) (rotr 25 x).
Definition choice (e f g : Z) : Z := Z.lxor (Z.land e f) (Z.land (Z.lxor e mask32) g).
Definition majority (a b c : Z) : Z := xor3 (Z.land a b) (Z.land a c) (Z.land b c).

(** The constants, as the standard defines them: the first 32 bits of the
    fractional parts of the cube roots of the first 64 primes, and of the square
    roots of the first eight. *)
Definition is_prime (n : Z) : bool :=
  forallb (fun d => negb (Z.rem n d =? 0)) (Z.of_nat <$> seq 2 (Z.to_nat (n - 2))).
Definition primes : list Z := List.filter is_prime (Z.of_nat <$> seq 2 310).
(** The bits of the integer cube root of [n] from [bit] down. *)
Fixpoint cube_root (bit : nat) (n root : Z) : Z :=
  match bit with
  | O => root
  | S bit' => let higher := root + 2 ^ Z.of_nat bit' in cube_root bit' n (if higher ^ 3 <=? n then higher else root)
  end.
Definition round_constants : list Z :=
  Eval vm_compute in ((fun p => Z.land (cube_root 36 (p * 2 ^ 96) 0) mask32) <$> primes).
Definition initial_hash : list Z :=
  Eval vm_compute in ((fun p => Z.land (Z.sqrt (p * 2 ^ 64)) mask32) <$> take 8 primes).

(** Big-endian words and bytes. *)
Fixpoint words_of (l : list Z) : list Z :=
  match l with
  | a :: b :: c :: d :: l' =>
      Z.lor (Z.shiftl a 24) (Z.lor (Z.shiftl b 16) (Z.lor (Z.shiftl c 8) d)) :: words_of l'
  | _ => []
  end.
Fixpoint big_endian (n : nat) (z : Z) : list Z :=
  match n with O => [] | S n' => big_endian n' (Z.shiftr z 8) ++ [Z.land z 255] end.

Definition padded (message : list Z) : list Z :=
  let n := Z.of_nat (length message) in
  message ++ [128] ++ replicate (Z.to_nat ((55 - n) mod 64)) 0 ++ big_endian 8 (8 * n).

(** The message schedule, last word first. *)
Definition schedule_step (w : list Z) : list Z :=
  add32 (add32 (small1 (nth 1 w 0)) (nth 6 w 0)) (add32 (small0 (nth 14 w 0)) (nth 15 w 0)) :: w.
Definition schedule (block : list Z) : list Z := rev (Nat.iter 48 schedule_step (rev block)).

Definition compress_round (h : list Z) (kw : Z * Z) : list Z :=
  match h with
  | [a; b; c; d; e; f; g; hh] =>
      let t1 := add32 (add32 hh (big1 e)) (add32 (choice e f g) (add32 kw.1 kw.2)) in
      let t2 := add32 (big0 a) (majority a b c) in
      [add32 t1 t2; a; b; c; add32 d t1; e; f; g]
  | _ => h
  end.
Definition compress (h block : list Z) : list Z :=
  zip_with add32 h (fold_left compress_round (zip round_constants (schedule block)) h).

Fixpoint blocks (fuel : nat) (h words : list Z) : list Z :=
  match fuel with
  | O => h
  | S fuel' =>
      match words with
      | [] => h
      | _ => blocks fuel' (compress h (take 16 words)) (drop 16 words)
      end
  end.

Definition Sum256 (message : string) : list Z :=
  let words := words_of (padded ((fun c => Z.of_N (ord c)) <$> bytes message)) in
  mbind (big_endian 4) (blocks (length words) initial_hash words).

Definition hex_lower (z : Z) : ascii := ascii_of_N (Z.to_N (if z <? 10 then 48 + z else 87 + z)).
Definition EncodeToString (l : list Z) : string :=
  of_bytes (mbind (fun b => [hex_lower (Z.shiftr b 4); hex_lower (Z.land b 15)]) l).

(** The standard's own vectors: one block, the empty message, two blocks. *)
Example sha256_abc : EncodeToString (Sum256 "abc")
  = "ba7816bf8f01cfea414140de5dae2223b00361a396177a9cb410ff61f20015ad".
Proof. vm_compute. reflexivity. Qed.
Example sha256_empty : EncodeToString (Sum256 "")
  = "e3b0c44298fc1c149afbf4c8996fb92427ae41e4649b934ca495991b7852b855".
Proof. vm_compute. reflexivity. Qed.
Example sha256_two_blocks :
  EncodeToString (Sum256 "abcdbcdecdefdefgefghfghighijhijkijkljklmklmnlmnomnopnopq")
  = "248d6a61d20638b8e5c026930c3e6039a33ce45964ff2167f6ecedd419db06c1".
Proof. vm_compute. reflexivity. Qed.
