(* ===== verification/MigrationRunner.v ===== *)
(** The migration runner (migrations/migration_runner.go): validation of the
    recorded history, [Migrate], [MigrateDown], [Baseline] and [Status], inside
    the dialect's run lock.

    The database is an [Engine]: what the driver answers to the statements the
    runner sends.  A run works on the database's state and either commits or is
    rolled back whole; the notices it sends are not taken back. *)
From S2P Require Import Prelude GoStrings Temporal Core Triggers Dialect Sha256 SchemaSnapshot SchemaDiff MigrationSteps DownDerive.

(** ** The recorded history *)

Definition recordedKey : Type := Z * string.
Record recordedRow := mkRecordedRow { rr_Description : string; rr_Checksum : string }.
Record recordedHistory := mkHistory {
  rh_rows : gmap recordedKey recordedRow; rh_versions : gset Z }.

Definition emptyHistory : recordedHistory := mkHistory ∅ ∅.

(** A row of [schema_version] as [readRecorded] scans it. *)
Record version_row := mkVersionRow {
  vr_version : Z; vr_object : string; vr_description : string; vr_checksum : string }.
#[export] Instance version_row_eq_dec : EqDecision version_row.
Proof. solve_decision. Defined.

Definition record_row (h : recordedHistory) (r : version_row) : recordedHistory :=
  mkHistory (<[(vr_version r, vr_object r) := mkRecordedRow (vr_description r) (vr_checksum r)]> (rh_rows h))
    ({[vr_version r]} ∪ rh_versions h).
Definition history_of (rows : list version_row) : recordedHistory := fold_left record_row rows emptyHistory.

(** ** What the runner asks of the driver *)

Record Engine (DB : Type) := mkEngine {
  BeginMigrationRunLock : DB -> result unit;
  Commit : DB -> result unit;
  Exec : string -> SM DB unit;
  ReadViewDefinition : string -> SM DB (option string);
  ReadTriggerDefinitions : string -> SM DB (list string);
  (** [select version, object, description, checksum from schema_version] *)
  SelectHistory : SM DB (list version_row);
  (** whether [ReadLiveColumns] finds columns of [schema_version] *)
  VersionTableExists : SM DB bool;
  (** the insert of one row, with [applied_at] and [execution_ms] *)
  InsertVersionRow : version_row -> string -> Z -> SM DB unit;
  DeleteVersionRows : Z -> SM DB unit }.
Arguments BeginMigrationRunLock {DB} _.
Arguments Commit {DB} _.
Arguments Exec {DB} _.
Arguments ReadViewDefinition {DB} _.
Arguments ReadTriggerDefinitions {DB} _.
Arguments SelectHistory {DB} _.
Arguments VersionTableExists {DB} _.
Arguments InsertVersionRow {DB} _.
Arguments DeleteVersionRows {DB} _.

Definition computeChecksum (statements : list MigrationStatement) : string :=
  EncodeToString (Sum256 (Join (st_SQL <$> statements) (nl +:+ ";" +:+ nl))).

(** ** Validation *)

Definition step_target (version : Z) (object : string) : string := V4 version +:+ " " +:+ object.

Definition validate_step (recorded : recordedHistory) (version : Z) (step : RenderedStep) : result unit :=
  match rh_rows recorded !! (version, rs_ObjectName step) with
  | None => Fail (NewError "MIG-010" (step_target version (rs_ObjectName step)))
  | Some row =>
      if decide (rr_Checksum row = computeChecksum (rs_Up step)) then Ok tt
      else Fail (NewError "MIG-010" (step_target version (rs_ObjectName step)))
  end.

Definition validate_version (recorded : recordedHistory) (version : RenderedVersion) : result unit :=
  if decide (rv_Version version ∈ rh_versions recorded)
  then let* _ := mapR (validate_step recorded (rv_Version version)) (rv_Steps version) in Ok tt
  else Ok tt.

Definition key_le (a b : recordedKey) : Prop := (a.1 < b.1)%Z \/ (a.1 = b.1 /\ String.le a.2 b.2).
#[export] Instance key_le_dec a b : Decision (key_le a b).
Proof. unfold key_le. apply _. Defined.

Definition known_key (plan : list RenderedVersion) (key : recordedKey) : result unit :=
  if decide (key.1 ∈ rv_Version <$> plan) then Ok tt
  else Fail (NewError "MIG-011" (step_target key.1 key.2)).

Definition validateHistory (plan : list RenderedVersion) (recorded : recordedHistory) : result unit :=
  let* _ := mapR (validate_version recorded) plan in
  let* _ := mapR (known_key plan) (merge_sort key_le (map_to_list (rh_rows recorded)).*1) in
  Ok tt.

Definition refuse_draft (recorded : recordedHistory) (inScope : Z -> bool) (version : RenderedVersion) : result unit :=
  if negb (rv_Draft version) || bool_decide (rv_Version version ∈ rh_versions recorded) ||
     negb (inScope (rv_Version version))
  then Ok tt
  else Fail (NewError "MIG-013" (V4 (rv_Version version))).
Definition refusePendingDrafts (plan : list RenderedVersion) (recorded : recordedHistory)
    (inScope : Z -> bool) : result unit :=
  let* _ := mapR (refuse_draft recorded inScope) plan in Ok tt.

(** ** A run *)

Record RunOptions := mkRunOptions { AllowViewDrift : bool }.

Section Runner.
Context {DB : Type} (engine : Engine DB) (dialect : Dialect).
(** [FormatUTC(time.Now())] and the milliseconds a step took. *)
Context (clock : Z -> RenderedStep -> string * Z).
(** [randomHex(8)] *)
Context (probeSuffix : string).

(** The database and the notices sent so far. *)
Record run := mkRun { run_db : DB; run_notices : list string }.

Definition on_db {A} (m : SM DB A) : SM run A := fun s =>
  let '(db, r) := m (run_db s) in (mkRun db (run_notices s), r).
Definition notify (message : string) : SM run unit := smodify (fun s => mkRun (run_db s) (run_notices s ++ [message])).

(** A failure is returned as a value. *)
Definition attempt {S A} (m : SM S A) : SM S (result A) := fun s => let '(s', r) := m s in (s', Ok r).

(** [execute]: the driver's error becomes MIG-021. *)
Definition refail (error : Error) {S A} (m : SM S A) : SM S A := fun s =>
  match m s with (s', Fail _) => (s', Fail error) | ok => ok end.
Definition execute (sql : string) : SM DB unit :=
  refail (NewError "MIG-021" "migration statement") (Exec engine sql).
Definition deleteVersionRecord (version : Z) : SM DB unit :=
  refail (NewError "MIG-021" "migration statement") (DeleteVersionRows engine version).

Definition ensureVersionTable : SM DB unit := execute (VersionTableSQL dialect).
Definition readRecorded : SM DB recordedHistory :=
  do! rows <- SelectHistory engine in sret (history_of rows).
Definition readRecordedIfPresent : SM DB recordedHistory :=
  do! present <- VersionTableExists engine in
  if present : bool then readRecorded else sret emptyHistory.

Definition row_of (version : Z) (step : RenderedStep) : version_row :=
  mkVersionRow version (rs_ObjectName step) (rs_Description step) (computeChecksum (rs_Up step)).
Definition record (version : Z) (step : RenderedStep) (executionMs : Z) : SM DB unit :=
  InsertVersionRow engine (row_of version step) (clock version step).1 executionMs.

(** *** Guards *)

Definition savepoint : string := "simpleorm_probe".
Definition roll_back_probe : SM DB unit :=
  do! _ <- attempt (Exec engine ("rollback to savepoint " +:+ savepoint)) in
  do! _ <- attempt (Exec engine ("release savepoint " +:+ savepoint)) in sret tt.

(** The expected body created as a probe view, read back and dropped:
    [None] where any of it failed. *)
Definition probe_view (body : string) : SM DB (option (option string)) :=
  let probe := "simpleorm_expect_" +:+ probeSuffix in
  do! created <- attempt (Exec engine (CreateViewFromBodySQL dialect probe body false)) in
  match created with
  | Fail _ => sret None
  | Ok _ =>
      do! expected <- attempt (ReadViewDefinition engine probe) in
      match expected with
      | Fail _ => sret None
      | Ok expected =>
          do! dropped <- attempt (Exec engine (DropViewSQL dialect probe false)) in
          sret (match dropped with Ok _ => Some expected | Fail _ => None end)
      end
  end.

Definition viewMatchesExpectation (s : MigrationStatement) : SM DB (option string * bool) :=
  do! live <- ReadViewDefinition engine (st_GuardView s) in
  match live with
  | None => sret (None, false)
  | Some text =>
      if ViewDefinitionIsVerbatim dialect
      then sret (live, bool_decide (NormalizeDDL text = st_SQL s))
      else match ViewParts (st_SQL s) with
           | None => sret (live, bool_decide (NormalizeDDL text = st_SQL s))
           | Some (_, body, _) =>
               Exec engine ("savepoint " +:+ savepoint) ;!
               do! probed <- probe_view body in
               match probed with
               | None => roll_back_probe ;! sret (live, false)
               | Some expected =>
                   Exec engine ("release savepoint " +:+ savepoint) ;!
                   sret (live, match expected with
                               | Some e => bool_decide (TrimSpace e = TrimSpace text)
                               | None => false
                               end)
               end
           end
  end.

Definition drift_found (target drift : string) (options : RunOptions) : SM run unit :=
  if AllowViewDrift options
  then notify (drift +:+ "; recreating (--force)")
  else sthrow (NewError "MIG-012" target).

Definition live_drift (target : string) : string :=
  target +:+ ": the live definition does not match the expected one — it was changed outside migrations".

Definition applyViewGuard (version : Z) (s : MigrationStatement) (options : RunOptions) : SM run unit :=
  do! answer <- on_db (viewMatchesExpectation s) in
  if (answer : option string * bool).2 then sret tt else
  let target := step_target version (st_GuardView s) in
  let drift := match answer.1 with
               | None => target +:+ ": the view is absent; expected the previous definition"
               | Some _ => live_drift target
               end in
  drift_found target drift options.

Definition applyTriggerGuard (version : Z) (s : MigrationStatement) (options : RunOptions) : SM run unit :=
  do! live <- on_db (ReadTriggerDefinitions engine (st_GuardTrigger s)) in
  if TriggerStatementsMatch live (st_Expected s) then sret tt else
  let target := step_target version (st_GuardTrigger s) in
  let drift := match live with
               | [] => target +:+ ": the trigger is absent; expected the previous definition"
               | _ => live_drift target
               end in
  drift_found target drift options.

Definition applyStatement (version : Z) (options : RunOptions) (s : MigrationStatement) : SM run unit :=
  if decide (st_GuardTrigger s <> "") then applyTriggerGuard version s options
  else if decide (st_GuardView s = "") then on_db (execute (st_SQL s))
  else applyViewGuard version s options.

(** *** The operations *)

(** The run lock's transaction: committed when the body succeeds, rolled back
    by the deferred call otherwise. *)
Definition in_run {A} (body : SM run A) : SM run A := fun s =>
  match BeginMigrationRunLock engine (run_db s) with
  | Fail e => (s, Fail e)
  | Ok _ =>
      match body s with
      | (s', Fail e) => (mkRun (run_db s) (run_notices s'), Fail e)
      | (s', Ok a) =>
          match Commit engine (run_db s') with
          | Ok _ => (s', Ok a)
          | Fail e => (mkRun (run_db s) (run_notices s'), Fail e)
          end
      end
  end.

(** The history every run reads first, creating the table where it is missing. *)
Definition recorded_now : SM run recordedHistory :=
  on_db (ensureVersionTable ;! readRecorded).

Definition apply_step (options : RunOptions) (version : Z) (step : RenderedStep) : SM run unit :=
  forS (applyStatement version options) (rs_Up step) ;!
  on_db (record version step (clock version step).2).

Definition apply_version (options : RunOptions) (version : RenderedVersion) : SM run unit :=
  forS (apply_step options (rv_Version version)) (rv_Steps version).

Definition pending_versions (recorded : recordedHistory) (plan : list RenderedVersion) : list RenderedVersion :=
  List.filter (fun v => negb (bool_decide (rv_Version v ∈ rh_versions recorded))) plan.

(** [plan] is what [Render] answered. *)
Definition Migrate (plan : result (list RenderedVersion)) (options : RunOptions) : SM run nat :=
  do! plan <- slift plan in
  in_run
    (do! recorded <- recorded_now in
     slift (validateHistory plan recorded) ;!
     slift (refusePendingDrafts plan recorded (fun _ => true)) ;!
     forS (apply_version options) (pending_versions recorded plan) ;!
     sret (length (pending_versions recorded plan))).

Definition newest_first (a b : RenderedVersion) : Prop := (rv_Version b <= rv_Version a)%Z.
#[local] Instance newest_first_dec a b : Decision (newest_first a b).
Proof. unfold newest_first. apply _. Defined.

Definition reverting_versions (targetVersion : Z) (recorded : recordedHistory)
    (plan : list RenderedVersion) : list RenderedVersion :=
  merge_sort newest_first
    (List.filter (fun v => (targetVersion <? rv_Version v)%Z &&
                           bool_decide (rv_Version v ∈ rh_versions recorded)) plan).

(** What is derived for the steps so far, and the notices collected. *)
Definition derivations : Type := gmap recordedKey (list MigrationStatement) * list string.

Definition resolve_step (snapshots : SnapshotSet) (d : derivations) (step : RenderedStep) : result derivations :=
  if bool_decide (rs_Up step = []) || negb (bool_decide (dp_Core (rs_Down step) = [])) then Ok d else
  let* derived := DeriveDown (rs_ObjectName step) (rs_Version step) snapshots (rs_Renames step) dialect in
  match derived.1 with
  | None => Fail (NewError "MIG-020" (step_target (rs_Version step) (rs_ObjectName step)))
  | Some core => Ok (<[(rs_Version step, rs_ObjectName step) := core]> d.1, d.2 ++ derived.2)
  end.
Definition resolve_version (snapshots : SnapshotSet) (d : derivations) (version : RenderedVersion) : result derivations :=
  foldR (resolve_step snapshots) d (rv_Steps version).
Definition resolve_rollbacks (snapshots : SnapshotSet) (reverting : list RenderedVersion) : result derivations :=
  foldR (resolve_version snapshots) (∅, []) reverting.

Definition down_of (derived : gmap recordedKey (list MigrationStatement)) (step : RenderedStep) : list MigrationStatement :=
  let core :=
    match dp_Core (rs_Down step) with
    | [] => default [] (derived !! (rs_Version step, rs_ObjectName step))
    | core => core
    end in
  dp_Pre (rs_Down step) ++ core ++ dp_Post (rs_Down step).

Definition revert_version (options : RunOptions) (derived : gmap recordedKey (list MigrationStatement))
    (version : RenderedVersion) : SM run unit :=
  forS (fun step => forS (applyStatement (rv_Version version) options) (down_of derived step)) (rev (rv_Steps version)) ;!
  on_db (deleteVersionRecord (rv_Version version)).

Definition MigrateDown (plan : result (list RenderedVersion)) (snapshots : SnapshotSet)
    (targetVersion : Z) (options : RunOptions) : SM run nat :=
  do! plan <- slift plan in
  in_run
    (do! recorded <- recorded_now in
     slift (validateHistory plan recorded) ;!
     let reverting := reverting_versions targetVersion recorded plan in
     do! resolved <- slift (resolve_rollbacks snapshots reverting) in
     forS notify (resolved : derivations).2 ;!
     forS (revert_version options resolved.1) reverting ;!
     sret (length reverting)).

Definition Baseline (plan : result (list RenderedVersion)) (version : Z) : SM run unit :=
  do! plan <- slift plan in
  in_run
    (do! recorded <- recorded_now in
     slift (refusePendingDrafts plan recorded (fun v => (v <=? version)%Z)) ;!
     forS (fun entry => forS (fun step => on_db (record (rv_Version entry) step 0)) (rv_Steps entry))
       (List.filter (fun entry => (rv_Version entry <=? version)%Z) (pending_versions recorded plan))).

(** *** Status *)

Inductive MigrationState := Pending | Applied | Drifted | Unknown | Draft.
Record MigrationEntry := mkEntry {
  me_Version : Z; me_ObjectName : string; me_Description : string; me_State : MigrationState }.

Definition state_of (recorded : recordedHistory) (version : RenderedVersion) (step : RenderedStep) : MigrationState :=
  match rh_rows recorded !! (rv_Version version, rs_ObjectName step) with
  | Some row => if decide (rr_Checksum row = computeChecksum (rs_Up step)) then Applied else Drifted
  | None =>
      if decide (rv_Version version ∈ rh_versions recorded) then Drifted
      else if rv_Draft version then Draft else Pending
  end.

Definition planned_entries (recorded : recordedHistory) (plan : list RenderedVersion) : list MigrationEntry :=
  mbind (fun version =>
    (fun step => mkEntry (rv_Version version) (rs_ObjectName step) (rs_Description step)
                   (state_of recorded version step)) <$> rv_Steps version) plan.

(** Whether the first version of the plan with the key's number has the object. *)
Definition composed (plan : list RenderedVersion) (key : recordedKey) : bool :=
  match List.find (fun v => (rv_Version v =? key.1)%Z) plan with
  | Some v => bool_decide (key.2 ∈ rs_ObjectName <$> rv_Steps v)
  | None => false
  end.
Definition unknown_entries (recorded : recordedHistory) (plan : list RenderedVersion) : list MigrationEntry :=
  omap (fun kr : recordedKey * recordedRow =>
          if composed plan kr.1 then None
          else Some (mkEntry kr.1.1 kr.1.2 (rr_Description kr.2) Unknown)) (map_to_list (rh_rows recorded)).

Definition entry_le (a b : MigrationEntry) : Prop := key_le (me_Version a, me_ObjectName a) (me_Version b, me_ObjectName b).
#[local] Instance entry_le_dec a b : Decision (entry_le a b).
Proof. unfold entry_le. apply _. Defined.

Definition Status (plan : result (list RenderedVersion)) : SM DB (list MigrationEntry) :=
  do! plan <- slift plan in
  do! recorded <- readRecordedIfPresent in
  sret (merge_sort entry_le (planned_entries recorded plan ++ unknown_entries recorded plan)).

Definition is_pending (e : MigrationEntry) : bool :=
  match me_State e with Pending | Draft => true | _ => false end.
Definition HasPending (plan : result (list RenderedVersion)) : SM DB bool :=
  do! entries <- Status plan in sret (existsb is_pending entries).
End Runner.
