(* ===== verification/Signatures.v ===== *)
(** Index signatures read back: the text of a signature determines the
    structure it renders, and renaming the columns of the text renames them in
    the structure.  Column keys are [plain]: not empty, without a comma or a
    blank. *)
From S2P Require Import Prelude GoStrings Core Triggers Dialect SchemaSnapshot SchemaDiff MigrationSteps DownDerive.

(** ** Splitting what was joined *)

Definition lacks (c : ascii) (s : string) : Prop := Forall (fun b => b <> c) (bytes s).
#[export] Instance lacks_dec c s : Decision (lacks c s).
Proof. unfold lacks. apply _. Defined.

Lemma split_from_word sep word l k : Forall (fun b => b <> sep) l ->
  split_from sep word (l ++ sep :: k) = of_bytes (rev word ++ l) :: split_from sep [] k.
Proof.
  intros H. revert word. induction H as [|c l Hc _ IH]; intros word; cbn [split_from app].
  - by rewrite Ascii.eqb_refl, app_nil_r.
  - apply Ascii.eqb_neq in Hc as ->. rewrite IH. cbn [rev]. by rewrite <- app_assoc.
Qed.

Lemma split_from_last sep word l : Forall (fun b => b <> sep) l ->
  split_from sep word l = [of_bytes (rev word ++ l)].
Proof.
  intros H. revert word. induction H as [|c l Hc _ IH]; intros word; cbn [split_from].
  - by rewrite app_nil_r.
  - apply Ascii.eqb_neq in Hc as ->. rewrite IH. cbn [rev]. by rewrite <- app_assoc.
Qed.

Lemma Split_Join sep parts : parts <> [] -> Forall (lacks sep) parts ->
  Split (Join parts (String sep "")) sep = parts.
Proof.
  intros Hne H. unfold Split. induction H as [|p parts Hp Hparts IH]; [done|].
  destruct parts as [|q parts].
  - cbn [Join]. rewrite split_from_last by done. cbn [rev app]. by rewrite of_bytes_bytes.
  - rewrite Join_cons, !bytes_app by done. cbn [bytes app].
    rewrite split_from_word by done. rewrite IH by done. cbn [rev app]. by rewrite of_bytes_bytes.
Qed.

(** ** Suffixes *)

Lemma prefix_cons c p d s :
  String.prefix (String c p) (String d s) = if ascii_dec c d then String.prefix p s else false.
Proof. reflexivity. Qed.

Lemma prefix_bytes p s : String.prefix p s = true <-> exists r, bytes s = bytes p ++ r.
Proof.
  revert s. induction p as [|c p IH]; intros s.
  { split; [intros _; by exists (bytes s)|intros _; by destruct s]. }
  destruct s as [|d s].
  { split; [done|]. by intros [r [=]]. }
  rewrite prefix_cons. cbn [bytes app]. destruct (ascii_dec c d) as [->|Hne].
  - rewrite IH. split; intros [r Hr]; exists r; congruence.
  - split; [done|]. intros [r [= <- _]]. done.
Qed.

Lemma HasSuffix_bytes s suffix : HasSuffix s suffix = true <-> exists r, bytes s = r ++ bytes suffix.
Proof.
  unfold HasSuffix, HasPrefix. rewrite prefix_bytes, !bytes_of_bytes. split; intros [r Hr].
  - exists (rev r). rewrite <- (rev_involutive (bytes s)), Hr, rev_app_distr, rev_involutive. done.
  - exists (rev r). by rewrite Hr, rev_app_distr.
Qed.

Lemma TrimSuffix_app s suffix : TrimSuffix (s +:+ suffix) suffix = s.
Proof.
  unfold TrimSuffix, slice. rewrite (proj2 (HasSuffix_bytes _ _)) by (exists (bytes s); apply bytes_app).
  rewrite app_length_s, Nat.sub_0_r, Nat.add_sub, bytes_app, drop_0, <- length_bytes, take_app_length.
  apply of_bytes_bytes.
Qed.

(** ** Signatures as structures *)

Record sig := mkSig { sig_unique : bool; sig_parts : list (string * bool) }.
#[export] Instance sig_eq_dec : EqDecision sig.
Proof. solve_decision. Defined.

Definition sig_of (index : TableIndex) : sig :=
  mkSig (ti_Unique index) ((fun c => (ToLower (ip_ColumnName c), ip_Descending c)) <$> ti_Columns index).
Definition part_text (part : string * bool) : string := part.1 +:+ (if part.2 then " desc" else "").
Definition sig_text (s : sig) : string := index_kind (sig_unique s) +:+ Join (part_text <$> sig_parts s) ",".
Definition sig_columns (s : sig) : list string := (sig_parts s).*1.

Lemma IndexSignature_text index : IndexSignature index = sig_text (sig_of index).
Proof.
  unfold IndexSignature, indexSignature, sig_text. cbn [sig_of sig_unique sig_parts]. f_equal. f_equal.
  rewrite <- !list_fmap_compose. by apply list_fmap_ext.
Qed.

(** A column key a signature can hold. *)
Definition plain (key : string) : Prop := key <> "" /\ lacks ","%char key /\ lacks " "%char key.
#[export] Instance plain_dec key : Decision (plain key).
Proof. unfold plain. apply _. Defined.
Definition plain_sig (s : sig) : Prop := sig_parts s <> [] /\ Forall plain (sig_columns s).
#[export] Instance plain_sig_dec s : Decision (plain_sig s).
Proof. unfold plain_sig. apply _. Defined.

Lemma lacks_app c s t : lacks c (s +:+ t) <-> lacks c s /\ lacks c t.
Proof. unfold lacks. by rewrite bytes_app, Forall_app. Qed.

Lemma part_text_lacks part : plain part.1 -> lacks ","%char (part_text part).
Proof.
  intros (_ & H & _). apply lacks_app. split; [done|]. destruct part.2; by repeat constructor.
Qed.

Lemma part_text_nonempty part : plain part.1 -> part_text part <> "".
Proof. intros (H & _). unfold part_text. by destruct part.1. Qed.

Lemma app_inj_r (s t u : string) : s +:+ u = t +:+ u -> s = t.
Proof.
  intros H. apply (inj bytes). apply (f_equal bytes) in H. rewrite !bytes_app in H.
  by apply app_inv_tail in H.
Qed.

(** A plain key does not end like a descending part. *)
Lemma plain_not_desc key t : plain key -> key <> t +:+ " desc".
Proof.
  intros (_ & _ & Hb) ->. apply lacks_app in Hb as [_ Hb]. unfold lacks in Hb. cbn in Hb.
  by inversion Hb.
Qed.

Lemma part_text_inj p q : plain p.1 -> plain q.1 -> part_text p = part_text q -> p = q.
Proof.
  destruct p as [k [|]], q as [k' [|]]; unfold part_text; cbn [fst snd]; intros Hp Hq H.
  - by apply app_inj_r in H as ->.
  - rewrite app_empty_r in H. by eapply plain_not_desc in Hq.
  - rewrite app_empty_r in H. by eapply plain_not_desc in Hp.
  - by rewrite !app_empty_r in H; subst.
Qed.

Lemma parts_text_split parts : parts <> [] -> Forall plain parts.*1 ->
  Split (Join (part_text <$> parts) ",") ","%char = part_text <$> parts.
Proof.
  intros Hne H. apply (Split_Join ","%char); [by destruct parts|].
  rewrite Forall_fmap in H. apply Forall_fmap. eapply Forall_impl; [exact H|]. intros part. apply part_text_lacks.
Qed.

Lemma parts_text_inj l k : Forall plain l.*1 -> Forall plain k.*1 -> part_text <$> l = part_text <$> k -> l = k.
Proof.
  revert k. induction l as [|p l IH]; intros [|q k] Hl Hk H; try done.
  apply Forall_cons in Hl as [Hp Hl]. apply Forall_cons in Hk as [Hq Hk]. injection H as Hpq H.
  f_equal; [by apply part_text_inj|by apply IH].
Qed.

Lemma sig_text_inj s t : plain_sig s -> plain_sig t -> sig_text s = sig_text t -> s = t.
Proof.
  destruct s as [u l], t as [v k]. intros [Hl Hpl] [Hk Hpk] H. unfold sig_text in H.
  cbn [sig_unique sig_parts] in *.
  assert (u = v) as -> by (by destruct u, v). apply app_inj_l in H. f_equal.
  apply parts_text_inj; [done|done|]. etransitivity; [symmetry; by apply parts_text_split|]. rewrite H. by apply parts_text_split.
Qed.

Lemma IndexSignature_eq i j : plain_sig (sig_of i) -> plain_sig (sig_of j) ->
  IndexSignature i = IndexSignature j <-> sig_of i = sig_of j.
Proof.
  intros Hi Hj. rewrite !IndexSignature_text. split; [by apply sig_text_inj|congruence].
Qed.

(** ** Renaming *)

Definition rename_key (names : gmap string string) (key : string) : string :=
  match names !! key with Some renamed => ToLower renamed | None => key end.
Definition rename_sig (f : string -> string) (s : sig) : sig :=
  mkSig (sig_unique s) (prod_map f id <$> sig_parts s).

Lemma rename_sig_id s : rename_sig id s = s.
Proof.
  destruct s as [u l]. unfold rename_sig. cbn [sig_unique sig_parts]. f_equal.
  rewrite <- (list_fmap_id l) at 2. apply list_fmap_ext. by intros _ [k d] _.
Qed.

Lemma rename_sig_ext f g s : (forall k, k ∈ sig_columns s -> f k = g k) -> rename_sig f s = rename_sig g s.
Proof.
  intros H. unfold rename_sig. f_equal. apply list_fmap_ext. intros i [k d] Hi.
  unfold prod_map. cbn [fst snd]. rewrite H; [done|].
  apply list_elem_of_fmap. exists (k, d). split; [done|]. by eapply list_elem_of_lookup_2.
Qed.

Lemma rename_part_text names part : plain part.1 ->
  rename_part names (part_text part) = part_text (prod_map (rename_key names) id part).
Proof.
  destruct part as [k d]. unfold rename_part, part_text. cbn [fst snd prod_map]. intros H. destruct d.
  - rewrite (proj2 (HasSuffix_bytes _ _)) by (exists (bytes k); apply bytes_app).
    rewrite TrimSuffix_app. unfold rename_key, id. by destruct (names !! k).
  - rewrite app_empty_r. destruct (HasSuffix k " desc") eqn:E.
    + apply HasSuffix_bytes in E as [r Hr]. exfalso. eapply (plain_not_desc k (of_bytes r)); [done|].
      apply (inj bytes). by rewrite bytes_app, bytes_of_bytes.
    + rewrite app_empty_r. unfold rename_key. by destruct (names !! k).
Qed.

Lemma cut_kind u rest : cut_at "|"%char (bytes (index_kind u +:+ rest))
  = (bytes (if u then "unique" else "plain"), Some (bytes rest)).
Proof. rewrite bytes_app. by destruct u. Qed.

Lemma applyRenames_text names s : plain_sig s ->
  applyRenames names (sig_text s) = sig_text (rename_sig (rename_key names) s).
Proof.
  intros [Hne Hs]. unfold applyRenames. destruct (decide (names = ∅)) as [->|Hn].
  { f_equal. rewrite <- (rename_sig_id s) at 1. apply rename_sig_ext. intros k _.
    unfold rename_key. by rewrite lookup_empty. }
  unfold sig_text at 1. rewrite cut_kind, !of_bytes_bytes, parts_text_split by done.
  unfold sig_text, rename_sig. cbn [sig_unique sig_parts].
  assert (rename_part names <$> (part_text <$> sig_parts s)
          = part_text <$> (prod_map (rename_key names) id <$> sig_parts s)) as ->.
  { rewrite <- !list_fmap_compose. apply list_fmap_ext. intros i part Hi. apply rename_part_text.
    unfold sig_columns in Hs. rewrite Forall_fmap in Hs. eapply (Forall_lookup_1 _ _ _ _ Hs Hi). }
  by destruct (sig_unique s).
Qed.
