(* ===== verification/Evolution.v ===== *)
(** Table shapes and the changes a migration makes to them: the abstract machine
    the generated steps and the derived rollbacks are judged against.

    A shape is what the library compares: columns by case-insensitive name with
    their case-insensitive storage type and nullability, and indexes by name
    with their structure.  A change a database would refuse has no result; in
    particular a column that an index covers cannot be dropped (SQLite, SQL
    Server), nor a name taken twice. *)
From S2P Require Import Prelude GoStrings Core Triggers Dialect SchemaSnapshot SchemaDiff MigrationSteps DownDerive Signatures.

Abbreviation col := (string * bool)%type (only parsing).
Record shape := mkShape { sh_cols : gmap string col; sh_idx : gmap string sig }.

Inductive ddl :=
  | RenameCol (from to : string)
  | AddCol (name storageType : string) (nullable : bool)
  | DropCol (name : string)
  | CreateIdx (index : TableIndex)
  | DropIdx (name : string).

(** The statement that makes the change. *)
Definition ddl_sql (d : Dialect) (table : string) (op : ddl) : string :=
  match op with
  | RenameCol from to => RenameColumnSQL d table from to
  | AddCol name storageType nullable => AddColumnSQL d table name storageType nullable ""
  | DropCol name => DropColumnSQL d table name
  | CreateIdx index => CreateIndexFromSchemaSQL d table index
  | DropIdx name => DropIndexSQL d table name
  end.

Definition swap (from to key : string) : string := if decide (key = from) then to else key.
Definition index_key (i : TableIndex) : string := ToLower (ti_Name i).

Definition change (op : ddl) (s : shape) : option shape :=
  match op with
  | RenameCol from to =>
      let f := ToLower from in
      let t := ToLower to in
      match sh_cols s !! f with
      | None => None
      | Some c =>
          if decide (t <> f /\ is_Some (sh_cols s !! t)) then None
          else Some (mkShape (<[t := c]> (delete f (sh_cols s))) (rename_sig (swap f t) <$> sh_idx s))
      end
  | AddCol name storageType nullable =>
      match sh_cols s !! ToLower name with
      | Some _ => None
      | None => Some (mkShape (<[ToLower name := (ToLower storageType, nullable)]> (sh_cols s)) (sh_idx s))
      end
  | DropCol name =>
      match sh_cols s !! ToLower name with
      | None => None
      | Some _ =>
          if decide (map_Forall (fun _ sg => ToLower name ∉ sig_columns sg) (sh_idx s))
          then Some (mkShape (delete (ToLower name) (sh_cols s)) (sh_idx s)) else None
      end
  | CreateIdx index =>
      if decide (sh_idx s !! index_key index = None /\
                 Forall (fun k => is_Some (sh_cols s !! k)) (sig_columns (sig_of index)))
      then Some (mkShape (sh_cols s) (<[index_key index := sig_of index]> (sh_idx s))) else None
  | DropIdx name =>
      match sh_idx s !! ToLower name with
      | None => None
      | Some _ => Some (mkShape (sh_cols s) (delete (ToLower name) (sh_idx s)))
      end
  end.

Fixpoint run (ops : list ddl) (s : shape) : option shape :=
  match ops with
  | [] => Some s
  | op :: ops' => s' ← change op s; run ops' s'
  end.

Lemma run_app ops1 ops2 s : run (ops1 ++ ops2) s = s' ← run ops1 s; run ops2 s'.
Proof. revert s. induction ops1 as [|op ops1 IH]; intros s; cbn; [done|]. destruct (change op s); cbn; [apply IH|done]. Qed.

Lemma run_step ops1 ops2 s s1 : run ops1 s = Some s1 -> run (ops1 ++ ops2) s = run ops2 s1.
Proof. intros H. rewrite run_app, H. reflexivity. Qed.

(** ** A schema as a shape *)

Definition col_of (c : TableColumn) : col := (ToLower (tc_StorageType c), tc_Nullable c).
Definition cols_of (columns : list TableColumn) : gmap string col :=
  list_to_map ((fun c => (column_key c, col_of c)) <$> columns).
Definition idx_of (indexes : list TableIndex) : gmap string sig :=
  list_to_map ((fun i => (index_key i, sig_of i)) <$> indexes).
Definition shape_of (s : TableSchema) : shape := mkShape (cols_of (ts_Columns s)) (idx_of (ts_Indexes s)).

Definition keys (s : TableSchema) : list string := column_key <$> ts_Columns s.

(** What a schema of a database is: names are distinct, and an index covers at
    least one column, columns of the table, with names a signature can hold. *)
Record schema_ok (s : TableSchema) : Prop := {
  ok_columns : NoDup (keys s);
  ok_indexes : NoDup (index_key <$> ts_Indexes s);
  ok_plain : Forall (fun i => plain_sig (sig_of i)) (ts_Indexes s);
  ok_covered : Forall (fun i => Forall (fun k => k ∈ keys s) (sig_columns (sig_of i))) (ts_Indexes s) }.

Lemma lookup_keyed {A V} (key : A -> string) (val : A -> V) l k v : NoDup (key <$> l) ->
  (list_to_map ((fun a => (key a, val a)) <$> l) : gmap string V) !! k = Some v
  <-> exists a, a ∈ l /\ key a = k /\ val a = v.
Proof.
  intros H. rewrite <- elem_of_list_to_map.
  - rewrite list_elem_of_fmap. split.
    + intros (a & [= -> ->] & Ha). by exists a.
    + intros (a & Ha & <- & <-). by exists a.
  - rewrite <- list_fmap_compose. exact H.
Qed.

Lemma lookup_keyed_None {A V} (key : A -> string) (val : A -> V) l k :
  (list_to_map ((fun a => (key a, val a)) <$> l) : gmap string V) !! k = None <-> k ∉ key <$> l.
Proof. rewrite <- not_elem_of_list_to_map, <- list_fmap_compose. reflexivity. Qed.

Lemma cols_of_Some l k c : NoDup (column_key <$> l) ->
  cols_of l !! k = Some c <-> exists x, x ∈ l /\ column_key x = k /\ col_of x = c.
Proof. apply lookup_keyed. Qed.
Lemma idx_of_Some l k sg : NoDup (index_key <$> l) ->
  idx_of l !! k = Some sg <-> exists i, i ∈ l /\ index_key i = k /\ sig_of i = sg.
Proof. apply lookup_keyed. Qed.

Lemma cols_of_is_Some l k : is_Some (cols_of l !! k) <-> k ∈ column_key <$> l.
Proof.
  rewrite <- not_eq_None_Some. unfold cols_of. rewrite lookup_keyed_None.
  split; [|by intros ? ?]. intros H. destruct (decide (k ∈ column_key <$> l)); [done|]. by destruct H.
Qed.

(** The structures a shape's indexes have. *)
Definition structures (idx : gmap string sig) (sg : sig) : Prop := exists k, idx !! k = Some sg.
Lemma structures_of l sg : NoDup (index_key <$> l) ->
  structures (idx_of l) sg <-> exists i, i ∈ l /\ sig_of i = sg.
Proof.
  intros H. unfold structures. split.
  - intros [k (i & Hi & _ & Hs)%idx_of_Some]; [|done]. by exists i.
  - intros (i & Hi & Hs). exists (index_key i). apply idx_of_Some; [done|]. by exists i.
Qed.

(** ** Runs of changes of one kind *)

(** *** Renames *)

Definition renaming (ps : list (string * string)) (key : string) : string :=
  fold_left (fun k p => swap (ToLower p.1) (ToLower p.2) k) ps key.

Lemma rename_sig_compose f g sg : rename_sig g (rename_sig f sg) = rename_sig (g ∘ f) sg.
Proof.
  unfold rename_sig. cbn [sig_unique sig_parts]. f_equal. rewrite <- list_fmap_compose.
  apply list_fmap_ext. by intros _ [k d] _.
Qed.

Lemma sig_columns_rename f sg : sig_columns (rename_sig f sg) = f <$> sig_columns sg.
Proof.
  unfold sig_columns, rename_sig. cbn [sig_parts]. rewrite <- !list_fmap_compose.
  apply list_fmap_ext. by intros _ [k d] _.
Qed.

(** [moved f cols cols']: [cols'] is [cols] under the names [f] gives. *)
Definition moved (f : string -> string) (cols cols' : gmap string col) : Prop :=
  forall k' c, cols' !! k' = Some c <-> exists k, k' = f k /\ cols !! k = Some c.

Lemma moved_swap f t cols c : cols !! f = Some c -> (t = f \/ cols !! t = None) ->
  moved (swap f t) cols (<[t := c]> (delete f cols)).
Proof.
  intros Hf Ht k' c'. unfold swap. split.
  - intros [[<- <-]|[Hne H]]%lookup_insert_Some.
    + exists f. by rewrite decide_True.
    + apply lookup_delete_Some in H as [Hkf H]. exists k'. by rewrite decide_False.
  - intros (k & -> & H). apply lookup_insert_Some. destruct (decide (k = f)) as [->|Hne].
    + left. split; congruence.
    + right. rewrite lookup_delete_ne by done. split; [|done]. destruct Ht as [->|Ht]; congruence.
Qed.

Lemma moved_compose f g cols1 cols2 cols3 :
  moved f cols1 cols2 -> moved g cols2 cols3 -> moved (g ∘ f) cols1 cols3.
Proof.
  intros Hf Hg k c. rewrite (Hg k c). split.
  - intros (k2 & -> & (k1 & -> & H)%Hf). by exists k1.
  - intros (k1 & -> & H). exists (f k1). split; [done|]. apply Hf. by exists k1.
Qed.

(** Renames that neither meet nor chain run, whatever their order. *)
Record renames_apart (ps : list (string * string)) (cols : gmap string col) : Prop := {
  apart_from : NoDup ((fun p => ToLower p.1) <$> ps);
  apart_to : NoDup ((fun p => ToLower p.2) <$> ps);
  apart_here : Forall (fun p => is_Some (cols !! ToLower p.1)) ps;
  apart_free : Forall (fun p => cols !! ToLower p.2 = None) ps }.

Lemma run_renames ps s : renames_apart ps (sh_cols s) -> exists cols',
  run ((fun p => RenameCol p.1 p.2) <$> ps) s = Some (mkShape cols' (rename_sig (renaming ps) <$> sh_idx s)) /\
  moved (renaming ps) (sh_cols s) cols'.
Proof.
  revert s. induction ps as [|[from to] ps IH]; intros s H.
  { exists (sh_cols s). split.
    - cbn. f_equal. destruct s as [cols idx]. f_equal. cbn [sh_idx].
      rewrite <- (map_fmap_id idx) at 1. apply map_fmap_ext. intros. symmetry. apply rename_sig_id.
    - intros k c. split; [by exists k|]. by intros (? & -> & ?). }
  destruct H as [Hf Ht Hh Hr]. cbn [fmap list_fmap fst snd] in Hf, Ht.
  apply NoDup_cons in Hf as [Hf1 Hf]. apply NoDup_cons in Ht as [Ht1 Ht].
  apply Forall_cons in Hh as [[c Hc] Hh]. apply Forall_cons in Hr as [Hn Hr]. cbn [fst snd] in *.
  set (f := ToLower from) in *. set (t := ToLower to) in *.
  assert (Htf : t <> f) by congruence.
  assert (Hs : change (RenameCol from to) s
               = Some (mkShape (<[t := c]> (delete f (sh_cols s))) (rename_sig (swap f t) <$> sh_idx s))).
  { cbn [change]. fold f t. rewrite Hc. rewrite decide_False; [done|]. rewrite Hn. by intros [_ [? ?]]. }
  set (s1 := mkShape _ _) in Hs. destruct (IH s1) as (cols' & Hrun & Hm).
  { split; [done|done|..]; apply Forall_forall; intros p Hp.
    - cbn [s1 sh_cols]. pose proof (proj1 (Forall_forall _ _) Hh p Hp) as [c' Hc'].
      rewrite lookup_insert_ne by congruence. rewrite lookup_delete_ne; [by eexists|].
      intros E. apply Hf1. rewrite E. apply list_elem_of_fmap. by exists p.
    - cbn [s1 sh_cols]. pose proof (proj1 (Forall_forall _ _) Hr p Hp) as Hp'. cbn in Hp'.
      rewrite lookup_insert_ne; [by rewrite lookup_delete_ne by congruence|].
      intros E. apply Ht1. rewrite E. apply list_elem_of_fmap. by exists p. }
  exists cols'. split.
  - cbn [fmap list_fmap run fst snd]. rewrite Hs. cbn [mbind option_bind]. fold s1. rewrite Hrun.
    cbn [s1 sh_idx]. f_equal. f_equal. rewrite <- map_fmap_compose. apply map_fmap_ext. intros i sg _.
    cbn [compose]. by rewrite rename_sig_compose.
  - refine (moved_compose _ _ _ _ _ _ Hm). apply moved_swap; [done|by right].
Qed.

(** *** Additions and removals of columns *)

Lemma run_adds l s : NoDup ((fun p : string * string * bool => ToLower p.1.1) <$> l) ->
  Forall (fun p : string * string * bool => sh_cols s !! ToLower p.1.1 = None) l ->
  run ((fun p : string * string * bool => AddCol p.1.1 p.1.2 p.2) <$> l) s
  = Some (mkShape (list_to_map ((fun p : string * string * bool => (ToLower p.1.1, (ToLower p.1.2, p.2))) <$> l) ∪ sh_cols s)
                  (sh_idx s)).
Proof.
  revert s. induction l as [|[[n ty] b] l IH]; intros [cols idx] Hd Hf.
  { cbn. by rewrite (left_id_L ∅ (∪)). }
  cbn [fmap list_fmap fst snd sh_cols sh_idx] in *. apply NoDup_cons in Hd as [Hn Hd]. apply Forall_cons in Hf as [Hf1 Hf].
  cbn [run change sh_cols sh_idx fst snd] in *. rewrite Hf1. cbn [mbind option_bind]. rewrite IH.
  - cbn [sh_cols sh_idx]. rewrite list_to_map_cons. f_equal. f_equal.
    apply map_eq. intros k. rewrite lookup_union, lookup_union.
    destruct (decide (k = ToLower n)) as [->|Hne].
    + rewrite !lookup_insert_eq.
      by rewrite (proj2 (lookup_keyed_None (fun p : string * string * bool => ToLower p.1.1)
                           (fun p => (ToLower p.1.2, p.2)) l (ToLower n)) Hn), Hf1.
    + by rewrite !lookup_insert_ne by done.
  - done.
  - cbn [sh_cols]. apply Forall_forall. intros p Hp. rewrite lookup_insert_ne.
    + by apply (proj1 (Forall_forall _ _) Hf).
    + intros E. apply Hn. rewrite E. apply list_elem_of_fmap. by exists p.
Qed.

Lemma run_drops l s : NoDup (ToLower <$> l) ->
  Forall (fun n => is_Some (sh_cols s !! ToLower n)) l ->
  (forall i sg n, sh_idx s !! i = Some sg -> n ∈ l -> ToLower n ∉ sig_columns sg) ->
  run (DropCol <$> l) s
  = Some (mkShape (filter (fun kc => kc.1 ∉ ToLower <$> l) (sh_cols s)) (sh_idx s)).
Proof.
  revert s. induction l as [|n l IH]; intros [cols idx] Hd Hh Hi.
  { cbn. rewrite map_filter_id; [done|]. intros k c _. apply not_elem_of_nil. }
  cbn [fmap list_fmap sh_cols sh_idx] in *. apply NoDup_cons in Hd as [Hn Hd]. apply Forall_cons in Hh as [[c Hc] Hh].
  cbn [run change sh_cols sh_idx]. rewrite Hc, decide_True.
  - cbn [mbind option_bind]. rewrite IH.
    + cbn [sh_cols sh_idx]. f_equal. f_equal. apply map_eq. intros k. apply option_eq. intros c'.
      rewrite !map_lookup_filter_Some, lookup_delete_Some, not_elem_of_cons. cbn [fst].
      split; [by intros ((? & ?) & ?)|]. by intros (? & ? & ?).
    + done.
    + cbn [sh_cols]. apply Forall_forall. intros m Hm. rewrite lookup_delete_ne.
      * by apply (proj1 (Forall_forall _ _) Hh).
      * intros E. apply Hn. rewrite E. by apply list_elem_of_fmap_2.
    + cbn [sh_idx]. intros i sg m H Hm. eapply Hi; [done|]. by right.
  - intros i sg H. eapply Hi; [done|]. by left.
Qed.

(** *** Indexes *)

Lemma run_drop_indexes l s : NoDup (ToLower <$> l) ->
  Forall (fun n => is_Some (sh_idx s !! ToLower n)) l ->
  run (DropIdx <$> l) s
  = Some (mkShape (sh_cols s) (filter (fun kc => kc.1 ∉ ToLower <$> l) (sh_idx s))).
Proof.
  revert s. induction l as [|n l IH]; intros [cols idx] Hd Hh.
  { cbn. rewrite map_filter_id; [done|]. intros k c _. apply not_elem_of_nil. }
  cbn [fmap list_fmap sh_cols sh_idx] in *. apply NoDup_cons in Hd as [Hn Hd]. apply Forall_cons in Hh as [[c Hc] Hh].
  cbn [run change sh_cols sh_idx]. rewrite Hc. cbn [mbind option_bind]. rewrite IH.
  - cbn [sh_cols sh_idx]. f_equal. f_equal. apply map_eq. intros k. apply option_eq. intros c'.
    rewrite !map_lookup_filter_Some, lookup_delete_Some, not_elem_of_cons. cbn [fst].
    split; [by intros ((? & ?) & ?)|]. by intros (? & ? & ?).
  - done.
  - cbn [sh_idx]. apply Forall_forall. intros m Hm. rewrite lookup_delete_ne.
    + by apply (proj1 (Forall_forall _ _) Hh).
    + intros E. apply Hn. rewrite E. by apply list_elem_of_fmap_2.
Qed.

Lemma run_create_indexes l s : NoDup (index_key <$> l) ->
  Forall (fun i => sh_idx s !! index_key i = None) l ->
  Forall (fun i => Forall (fun k => is_Some (sh_cols s !! k)) (sig_columns (sig_of i))) l ->
  run (CreateIdx <$> l) s = Some (mkShape (sh_cols s) (idx_of l ∪ sh_idx s)).
Proof.
  revert s. induction l as [|i l IH]; intros [cols idx] Hd Hf Hc.
  { cbn. unfold idx_of. cbn. by rewrite (left_id_L ∅ (∪)). }
  cbn [fmap list_fmap sh_cols sh_idx] in *. apply NoDup_cons in Hd as [Hn Hd].
  apply Forall_cons in Hf as [Hf1 Hf]. apply Forall_cons in Hc as [Hc1 Hc].
  cbn [run change sh_cols sh_idx]. rewrite decide_True by done. cbn [mbind option_bind]. rewrite IH.
  - cbn [sh_cols sh_idx]. f_equal. f_equal. apply map_eq. intros k. rewrite !lookup_union.
    unfold idx_of. cbn [fmap list_fmap]. rewrite list_to_map_cons.
    destruct (decide (k = index_key i)) as [->|Hne].
    + rewrite !lookup_insert_eq. by rewrite (proj2 (lookup_keyed_None index_key sig_of l (index_key i)) Hn), Hf1.
    + by rewrite !lookup_insert_ne by done.
  - done.
  - cbn [sh_idx]. apply Forall_forall. intros j Hj. rewrite lookup_insert_ne.
    + by apply (proj1 (Forall_forall _ _) Hf).
    + intros E. apply Hn. rewrite E. by apply list_elem_of_fmap_2.
  - exact Hc.
Qed.

(** ** Maps filled by a loop *)

Lemma fold_insert {A V} (key : A -> string) (val : A -> V) l (m : gmap string V) : NoDup (key <$> l) ->
  fold_left (fun m a => <[key a := val a]> m) l m = list_to_map ((fun a => (key a, val a)) <$> l) ∪ m.
Proof.
  revert m. induction l as [|a l IH]; intros m H; cbn [fold_left fmap list_fmap].
  { symmetry. apply (left_id_L ∅ (∪)). }
  cbn [fmap list_fmap] in H. apply NoDup_cons in H as [Ha H]. rewrite IH by done. rewrite list_to_map_cons.
  apply map_eq. intros k. rewrite !lookup_union. destruct (decide (k = key a)) as [->|Hne].
  - rewrite !lookup_insert_eq. rewrite (proj2 (lookup_keyed_None key val l (key a)) Ha).
    by destruct (m !! key a).
  - by rewrite !lookup_insert_ne by done.
Qed.

Lemma fold_insert_Some {A V} (key : A -> string) (val : A -> V) l k v : NoDup (key <$> l) ->
  fold_left (fun (m : gmap string V) a => <[key a := val a]> m) l ∅ !! k = Some v
  <-> exists a, a ∈ l /\ key a = k /\ val a = v.
Proof. intros H. rewrite fold_insert, (right_id_L ∅ (∪)) by done. by apply lookup_keyed. Qed.

Lemma fold_insert_is_Some {A V} (key : A -> string) (val : A -> V) l k : NoDup (key <$> l) ->
  is_Some (fold_left (fun (m : gmap string V) a => <[key a := val a]> m) l ∅ !! k) <-> k ∈ key <$> l.
Proof.
  intros H. rewrite list_elem_of_fmap. split.
  - intros [v (a & Ha & Hk & _)%fold_insert_Some]; [|done]. by exists a.
  - intros (a & -> & Ha). exists (val a). apply fold_insert_Some; [done|]. by exists a.
Qed.

Lemma NoDup_filter_fmap {A} (key : A -> string) (P : A -> bool) l :
  NoDup (key <$> l) -> NoDup (key <$> List.filter P l).
Proof.
  induction l as [|a l IH]; [done|]. cbn [fmap list_fmap List.filter]. intros [Ha H]%NoDup_cons.
  destruct (P a); [|by apply IH]. cbn [fmap list_fmap]. apply NoDup_cons. split; [|by apply IH].
  intros (b & E & Hb)%list_elem_of_fmap. apply Ha. rewrite E. apply list_elem_of_fmap_2.
  by apply list_elem_of_In, filter_In in Hb as [Hb%list_elem_of_In _].
Qed.
