(* ===== verification/DiffLaws.v ===== *)
(** What a generated step does to the schema it was diffed from: the statements
    it renders are those changes, in an order the database accepts, and they end
    in the model's schema. *)
From S2P Require Import Prelude GoStrings Values Core Triggers Dialect SchemaSnapshot SchemaDiff MigrationSteps DownDerive Signatures Evolution.
From S2P Require Sqlite.

(** * The order of a table step's statements *)

Definition same_group (g h : action_group) : bool :=
  match g, h with
  | Renames, Renames | Adds, Adds | Removes, Removes | Custom, Custom => true
  | _, _ => false
  end.

(** The actions of one group, in declaration order. *)
Definition in_group (m : EntityMap) (d : Dialect) (group : action_group) (calls : list (table_action * hooks))
    : list MigrationAction :=
  omap (fun call : table_action * hooks =>
          let '(g, action) := action_of (newTableActions m d) call.1 in
          if same_group g group then Some (with_hooks call.2 action) else None) calls.

Definition same_table (a b : TableActions) : Prop :=
  ta_table a = ta_table b /\ ta_entityMap a = ta_entityMap b /\ ta_dialect a = ta_dialect b.

Lemma action_of_same a b call : same_table a b -> action_of a call = action_of b call.
Proof. intros (Ht & Hm & Hd). unfold action_of. by rewrite Ht, Hm, Hd. Qed.

Lemma table_calls_groups m d calls a : same_table a (newTableActions m d) ->
  ta_renames (table_calls calls a) = ta_renames a ++ in_group m d Renames calls /\
  ta_adds (table_calls calls a) = ta_adds a ++ in_group m d Adds calls /\
  ta_removes (table_calls calls a) = ta_removes a ++ in_group m d Removes calls /\
  ta_custom (table_calls calls a) = ta_custom a ++ in_group m d Custom calls.
Proof.
  revert a. induction calls as [|[call h] calls IH]; intros a Ha.
  { cbn. by rewrite !app_nil_r. }
  change (table_calls ((call, h) :: calls) a) with (table_calls calls (table_call a (call, h))).
  assert (Hs : same_table (table_call a (call, h)) (newTableActions m d)).
  { unfold table_call. cbn [fst snd]. destruct (action_of a call) as [g action]. by destruct call. }
  destruct (IH _ Hs) as (-> & -> & -> & ->). unfold in_group. cbn [omap list_omap fst snd].
  unfold table_call. cbn [fst snd]. rewrite (action_of_same a (newTableActions m d)) by done.
  destruct (action_of (newTableActions m d) call) as [g action].
  assert (Hr : forall x, ta_renames (record_rename call x) = ta_renames x /\ ta_adds (record_rename call x) = ta_adds x
                         /\ ta_removes (record_rename call x) = ta_removes x /\ ta_custom (record_rename call x) = ta_custom x)
    by (intros x; by destruct call).
  destruct (Hr a) as (E1 & E2 & E3 & E4).
  destruct g; cbn [track same_group ta_renames ta_adds ta_removes ta_custom]; rewrite ?E1, ?E2, ?E3, ?E4, <- ?app_assoc; done.
Qed.

Lemma build_table_groups m d calls :
  build_table (table_calls calls (newTableActions m d))
  = mbind (mbind render_action) ((fun g => in_group m d g calls) <$> [Renames; Adds; Removes; Custom]).
Proof.
  destruct (table_calls_groups m d calls (newTableActions m d)) as (E1 & E2 & E3 & E4); [done|].
  unfold build_table. rewrite E1, E2, E3, E4. reflexivity.
Qed.

Lemma table_calls_renames calls a :
  ta_columnRenames (table_calls calls a)
  = ta_columnRenames a ++ omap (fun call : table_action * hooks => match call.1 with
                                            | RenameColumn from to => Some (mkRename from to)
                                            | _ => None
                                            end) calls.
Proof.
  revert a. induction calls as [|[call h] calls IH]; intros a; [by rewrite app_nil_r|].
  change (table_calls ((call, h) :: calls) a) with (table_calls calls (table_call a (call, h))).
  rewrite IH. unfold table_call. cbn [fst snd]. destruct (action_of a call) as [g action].
  destruct call; cbn [track record_rename ta_columnRenames omap list_omap fst]; try done.
  by rewrite <- app_assoc.
Qed.

(** ** The changes of a generated step *)

Definition ops_of_diff (diff : TableDiff) : list ddl :=
  ((fun r => RenameCol (cr_From r) (cr_To r)) <$> df_Renamed diff) ++
  ((fun c => AddCol (cs_Name c) (cs_StorageType c) true) <$> df_Added diff) ++
  ((fun c => DropCol (cs_Name c)) <$> df_Removed diff) ++
  (DropIdx <$> df_RemovedIndexNames diff) ++
  (CreateIdx <$> df_AddedIndexes diff).

(** The step a diff generates, run through its actions. *)
Definition generated_up (m : EntityMap) (d : Dialect) (diff : TableDiff) : list MigrationStatement :=
  build_table (table_calls ((fun call => (call, no_hooks)) <$> EmitTableStep_body m d diff) (newTableActions m d)).

Lemma in_group_app m d g l k : in_group m d g (l ++ k) = in_group m d g l ++ in_group m d g k.
Proof. apply omap_app. Qed.

(** Calls of one kind. *)
Lemma in_group_calls {A} m d g0 (call : A -> table_action) (act : A -> MigrationAction) l g :
  (forall a, action_of (newTableActions m d) (call a) = (g0, act a)) ->
  in_group m d g ((fun c => (c, no_hooks)) <$> (call <$> l))
  = if same_group g0 g then (fun a => with_hooks no_hooks (act a)) <$> l else [].
Proof.
  intros H. induction l as [|a l IH]; [by destruct (same_group g0 g)|]. cbn [fmap list_fmap].
  unfold in_group in *. cbn [omap list_omap fst snd]. rewrite H. cbn [fmap list_fmap] in IH.
  destruct (same_group g0 g); by rewrite IH.
Qed.

Lemma render_plain {A} (f : A -> MigrationAction) (sql : A -> string) l :
  (forall a, st_SQL <$> render_action (f a) = [sql a]) ->
  st_SQL <$> mbind render_action (f <$> l) = sql <$> l.
Proof.
  intros H. induction l as [|a l IH]; [done|]. cbn [fmap list_fmap].
  rewrite bind_cons, fmap_app, H. fold (fmap (M := list) f l). rewrite IH. done.
Qed.

Lemma generated_statements m d diff : df_IsNew diff = false ->
  st_SQL <$> generated_up m d diff = ddl_sql d (RelationName m) <$> ops_of_diff diff.
Proof.
  intros Hn. unfold generated_up. rewrite build_table_groups. unfold EmitTableStep_body, ops_of_diff, IndexSQL. rewrite Hn.
  assert (Hg : forall g, in_group m d g ((fun call => (call, no_hooks)) <$>
      ((fun r => RenameColumn (cr_From r) (cr_To r)) <$> df_Renamed diff) ++
      ((fun c => AddColumn (cs_Name c) (cs_StorageType c) []) <$> df_Added diff) ++
      ((fun c => RemoveColumn (cs_Name c)) <$> df_Removed diff) ++
      (TableSQL <$> (CreateIndexFromSchemaSQL d (RelationName m) <$> df_AddedIndexes diff)) ++
      (DropIndex <$> df_RemovedIndexNames diff))
    = match g with
      | Renames => (fun r => with_hooks no_hooks (action_of (newTableActions m d) (RenameColumn (cr_From r) (cr_To r))).2) <$> df_Renamed diff
      | Adds => (fun c => with_hooks no_hooks (action_of (newTableActions m d) (AddColumn (cs_Name c) (cs_StorageType c) [])).2) <$> df_Added diff
      | Removes => ((fun c => with_hooks no_hooks (action_of (newTableActions m d) (RemoveColumn (cs_Name c))).2) <$> df_Removed diff) ++
                   ((fun n => with_hooks no_hooks (action_of (newTableActions m d) (DropIndex n)).2) <$> df_RemovedIndexNames diff)
      | Custom => (fun i => with_hooks no_hooks (action_of (newTableActions m d) (TableSQL i)).2) <$>
                    (CreateIndexFromSchemaSQL d (RelationName m) <$> df_AddedIndexes diff)
      end).
  { intros g. rewrite !fmap_app, !in_group_app.
    erewrite (in_group_calls m d Renames), (in_group_calls m d Adds), (in_group_calls m d Removes),
      (in_group_calls m d Custom), (in_group_calls m d Removes) by (intros; reflexivity).
    destruct g; cbn [same_group app]; rewrite ?app_nil_r; reflexivity. }
  cbn [fmap list_fmap]. rewrite !bind_cons, !Hg. cbn [mbind list_bind]. rewrite app_nil_r.
  rewrite !bind_app, !fmap_app.
  rewrite (render_plain _ (fun r => RenameColumnSQL d (RelationName m) (cr_From r) (cr_To r))) by done.
  rewrite (render_plain _ (fun c => AddColumnSQL d (RelationName m) (cs_Name c) (cs_StorageType c) true "")) by done.
  rewrite (render_plain _ (fun c => DropColumnSQL d (RelationName m) (cs_Name c))) by done.
  rewrite (render_plain _ (fun n => DropIndexSQL d (RelationName m) n)) by done.
  rewrite (render_plain _ id), list_fmap_id by done.
  rewrite <- !app_assoc, <- !list_fmap_compose. reflexivity.
Qed.

(** * The renames of a diff *)

Definition spec_col (c : ColumnSpec) : col := (ToLower (cs_StorageType c), cs_Nullable c).
Definition rename_pairs (rs : list ColumnRename) : list (string * string) := (fun r => (cr_From r, cr_To r)) <$> rs.
Definition rename_ops (rs : list ColumnRename) : list ddl := (fun r => RenameCol (cr_From r) (cr_To r)) <$> rs.

Lemma by_key_Some l k sp : NoDup (column_key <$> l) ->
  by_key l !! k = Some sp <-> exists c, c ∈ l /\ column_key c = k /\ spec_of c = sp.
Proof. apply fold_insert_Some. Qed.
Lemma by_key_is_Some l k : NoDup (column_key <$> l) -> is_Some (by_key l !! k) <-> k ∈ column_key <$> l.
Proof. apply fold_insert_is_Some. Qed.

Lemma by_key_cols l : NoDup (column_key <$> l) -> spec_col <$> by_key l = cols_of l.
Proof.
  intros H. apply map_eq. intros k. apply option_eq. intros v. rewrite lookup_fmap_Some, cols_of_Some by done.
  split.
  - intros (sp & <- & (c & Hc & Hk & <-)%by_key_Some); [|done]. by exists c.
  - intros (c & Hc & Hk & <-). exists (spec_of c). split; [done|]. apply by_key_Some; [done|]. by exists c.
Qed.

Lemma replace_first_perm f t l : f ∈ l -> NoDup l -> exists l', l ≡ₚ f :: l' /\ replace_first f t l ≡ₚ t :: l'.
Proof.
  induction l as [|k l IH]; [by intros ?%not_elem_of_nil|]. intros Hf [Hk Hl]%NoDup_cons. cbn [replace_first].
  destruct (decide (k = f)) as [->|Hne]; [by exists l|].
  apply elem_of_cons in Hf as [->|Hf]; [done|]. destruct (IH Hf Hl) as (l' & H1 & H2).
  exists (k :: l'). split; (etransitivity; [by apply perm_skip|apply Permutation_swap]).
Qed.

Section Forward.
Context (current snapshot : TableSchema).
Hypothesis current_ok : schema_ok current.
Hypothesis snapshot_ok : schema_ok snapshot.

(** What holds of the locals of the diff after each rename: the machine has
    made the renames so far, and sources have left the model's columns for
    targets among them. *)
Record renaming_invariant (s : diff_locals) : Prop := {
  ri_run : run (rename_ops (renamed s)) (shape_of snapshot)
           = Some (mkShape (spec_col <$> oldByKey s)
                     (rename_sig (renaming (rename_pairs (renamed s))) <$> sh_idx (shape_of snapshot)));
  ri_order : NoDup (oldOrder s);
  ri_dom : forall k, k ∈ oldOrder s <-> is_Some (oldByKey s !! k);
  ri_names : forall k sp, oldByKey s !! k = Some sp -> ToLower (cs_Name sp) = k;
  ri_from : forall r, r ∈ renamed s -> ToLower (cr_From r) ∉ keys current;
  ri_to : forall r, r ∈ renamed s -> ToLower (cr_To r) ∈ keys current;
  ri_old : forall k, is_Some (oldByKey s !! k) -> k ∈ keys snapshot \/ k ∈ (fun r => ToLower (cr_To r)) <$> renamed s }.

Lemma applyRename_invariant from to s : renaming_invariant s ->
  is_Some (oldByKey s !! ToLower from) -> oldByKey s !! ToLower to = None ->
  ToLower from ∉ keys current -> ToLower to ∈ keys current ->
  renaming_invariant (applyRename from to s).
Proof.
  intros [Hrun Hord Hdom Hnames Hfrom Hto Hold] [old Hf] Ht Hcf Hct.
  assert (Hne : ToLower to <> ToLower from) by congruence.
  destruct (replace_first_perm (ToLower from) (ToLower to) (oldOrder s)) as (l' & Hl & Hl'); [|done|].
  { apply Hdom. by exists old. }
  assert (Hnd : NoDup (ToLower from :: l')) by (by rewrite <- Hl).
  apply NoDup_cons in Hnd as [Hfl Hnd].
  assert (Hin : forall k, k ∈ l' <-> k <> ToLower from /\ is_Some (oldByKey s !! k)).
  { intros k. rewrite <- Hdom, Hl, elem_of_cons. split; [|by intros [? [?|?]]].
    intros Hk. split; [|by right]. by intros ->. }
  unfold applyRename. rewrite Hf. cbn [default from_option id]. split; cbn [renamed oldByKey oldOrder].
  - unfold rename_ops, rename_pairs. rewrite !fmap_app, (run_step _ _ _ _ Hrun). cbn [fmap list_fmap run change sh_cols sh_idx cr_From cr_To].
    rewrite !lookup_fmap, Hf, Ht. cbn [fmap option_fmap option_map]. rewrite decide_False by (by intros [_ [? ?]]).
    cbn [mbind option_bind]. f_equal. f_equal.
    + by rewrite fmap_insert, fmap_delete.
    + rewrite <- map_fmap_compose. apply map_fmap_ext. intros i sg _. cbn [compose]. rewrite rename_sig_compose.
      apply rename_sig_ext. intros k _. unfold renaming. rewrite fold_left_app. reflexivity.
  - rewrite Hl'. apply NoDup_cons. split; [|done]. rewrite Hin, Ht. by intros [_ [? ?]].
  - intros k. rewrite Hl', elem_of_cons, Hin. destruct (decide (k = ToLower to)) as [->|Hk].
    { rewrite lookup_insert_eq. split; [by eexists|by left]. }
    rewrite lookup_insert_ne by done. destruct (decide (k = ToLower from)) as [->|Hkf].
    + rewrite lookup_delete_eq. split; [by intros [|[? _]]|by intros [? ?]].
    + rewrite lookup_delete_ne by done. split; [by intros [?|[_ ?]]|by right].
  - intros k sp [[<- <-]|[Hk [Hkf H]%lookup_delete_Some]]%lookup_insert_Some; [done|by apply Hnames].
  - intros r [Hr|Hr]%elem_of_app; [by apply Hfrom|]. by apply list_elem_of_singleton in Hr as ->.
  - intros r [Hr|Hr]%elem_of_app; [by apply Hto|]. by apply list_elem_of_singleton in Hr as ->.
  - intros k [sp [[<- _]|[Hk [Hkf H]%lookup_delete_Some]]%lookup_insert_Some]; rewrite fmap_app, elem_of_app.
    + right. right. cbn. by left.
    + destruct (Hold k) as [?|?]; [by exists sp|by left|by right; left].
Qed.

(** What explicit renames must be: from columns the model gave up, to columns
    the snapshot does not have, no two to one. *)
Record renames_clear (renames : gmap string string) : Prop := {
  clear_from : map_Forall (fun from _ => ToLower from ∉ keys current) renames;
  clear_to : map_Forall (fun _ to => ToLower to ∉ keys snapshot) renames;
  clear_apart : forall f1 f2 t1 t2, renames !! f1 = Some t1 -> renames !! f2 = Some t2 -> f1 <> f2 -> ToLower t1 <> ToLower t2 }.

Lemma elem_of_sortedKeys m k : k ∈ sortedKeys m <-> is_Some (m !! k).
Proof.
  unfold sortedKeys. rewrite elem_of_sort_strings, list_elem_of_fmap. split.
  - intros ([k' v] & -> & H). apply elem_of_map_to_list in H. by eexists.
  - intros [v H]. exists (k, v). split; [done|]. by apply elem_of_map_to_list.
Qed.
Lemma NoDup_sortedKeys m : NoDup (sortedKeys m).
Proof. unfold sortedKeys. rewrite sort_strings_perm. apply NoDup_fst_map_to_list. Qed.

Lemma keys_by_key k : is_Some (by_key (ts_Columns current) !! k) <-> k ∈ keys current.
Proof. apply by_key_is_Some, current_ok. Qed.

Lemma explicit_renames_invariant renames l s : renames_clear renames ->
  NoDup l -> Forall (fun from => is_Some (renames !! from)) l -> renaming_invariant s ->
  (forall k, is_Some (oldByKey s !! k) -> k ∈ keys snapshot \/
     (exists f t, renames !! f = Some t /\ (f ∉ l) /\ k = ToLower t)) ->
  renaming_invariant (fold_left (explicit_rename (by_key (ts_Columns current)) renames) l s).
Proof.
  intros Hc. revert s. induction l as [|from l IH]; intros s Hd Hl Hs Hold; [done|].
  apply NoDup_cons in Hd as [Hnd Hd]. apply Forall_cons in Hl as [[to Hto] Hl]. cbn [fold_left].
  assert (Hweak : forall k, is_Some (oldByKey s !! k) -> k ∈ keys snapshot \/
            exists f t, renames !! f = Some t /\ (f ∉ l) /\ k = ToLower t).
  { intros k Hk. destruct (Hold k Hk) as [?|(f & t & ? & Hf & ?)]; [by left|].
    right. exists f, t. split_and!; [done| |done]. intros ?. apply Hf. by right. }
  apply IH; try done; unfold explicit_rename; rewrite Hto; cbn [default from_option id].
  - destruct (oldByKey s !! ToLower from) eqn:Ef; [|by destruct Hs].
    destruct (by_key _ !! ToLower to) eqn:Et; [|by destruct Hs].
    apply applyRename_invariant; [done|by eexists| | |].
    + destruct (oldByKey s !! ToLower to) eqn:E; [exfalso|done].
      destruct (Hold (ToLower to)) as [Hin|(f & t & Hft & Hf & E')]; [by eexists| |].
      * by apply (clear_to _ Hc from to Hto).
      * eapply (clear_apart _ Hc from f to t); try done. intros ->. apply Hf. by left.
    + by apply (clear_from _ Hc from to Hto).
    + apply keys_by_key. by eexists.
  - destruct (oldByKey s !! ToLower from) eqn:Ef; [|exact Hweak].
    destruct (by_key _ !! ToLower to) eqn:Et; [|exact Hweak].
    intros k [sp Hk]. unfold applyRename in Hk. cbn [oldByKey] in Hk.
    apply lookup_insert_Some in Hk as [[<- _]|[_ [_ Hk]%lookup_delete_Some]].
    + right. by exists from, to.
    + apply Hweak. by eexists.
Qed.

Lemma declared_renames_invariant declared l s : renaming_invariant s ->
  renaming_invariant (fold_left (declared_rename (by_key (ts_Columns current)) declared) l s).
Proof.
  revert s. induction l as [|from l IH]; intros s Hs; [done|]. cbn [fold_left]. apply IH.
  unfold declared_rename. destruct (oldByKey s !! ToLower from) eqn:Ef; [|done].
  destruct (oldByKey s !! ToLower (default "" (declared !! from))) eqn:Et; [done|].
  destruct (by_key _ !! ToLower from) eqn:Ecf; [done|]. destruct (by_key _ !! ToLower (default "" _)) eqn:Ect; [|done].
  apply applyRename_invariant; [done|by eexists|done| |].
  - rewrite <- keys_by_key, Ecf. by intros [? ?].
  - apply keys_by_key. by eexists.
Qed.

Lemma renames_applied_invariant renames declared : renames_clear renames ->
  renaming_invariant (renames_applied current snapshot renames declared).
Proof.
  intros Hc. unfold renames_applied. apply declared_renames_invariant. apply explicit_renames_invariant; [done|..].
  - apply NoDup_sortedKeys.
  - apply Forall_forall. intros k. apply elem_of_sortedKeys.
  - destruct snapshot_ok as [Hd _ _ _]. split; cbn [renamed oldByKey oldOrder].
    + cbn. unfold shape_of. rewrite by_key_cols by done. f_equal. f_equal. cbn [sh_idx].
      rewrite <- (map_fmap_id (idx_of _)) at 1. apply map_fmap_ext. intros. symmetry. apply rename_sig_id.
    + done.
    + intros k. symmetry. by apply by_key_is_Some.
    + intros k sp (c & _ & <- & <-)%by_key_Some; [|done]. reflexivity.
    + by intros r ?%not_elem_of_nil.
    + by intros r ?%not_elem_of_nil.
    + intros k Hk. left. by apply by_key_is_Some in Hk.
  - intros k Hk. left. cbn [oldByKey] in Hk. apply by_key_is_Some in Hk; [done|apply snapshot_ok].
Qed.

(** Sources leave for the model's columns; the model's columns stay. *)
Lemma renaming_current rs k : (forall r, r ∈ rs -> ToLower (cr_From r) ∉ keys current) ->
  k ∈ keys current -> renaming (rename_pairs rs) k = k.
Proof.
  unfold renaming, rename_pairs. induction rs as [|r rs IH]; intros Hf Hk; [done|].
  cbn [fmap list_fmap fold_left fst snd]. unfold swap at 2. rewrite decide_False.
  - apply IH; [|done]. intros r' Hr'. apply Hf. by right.
  - intros ->. eapply Hf; [by left|done].
Qed.

Lemma renaming_source rs k : (forall r, r ∈ rs -> ToLower (cr_From r) ∉ keys current) ->
  (forall r, r ∈ rs -> ToLower (cr_To r) ∈ keys current) ->
  k ∈ (fun r => ToLower (cr_From r)) <$> rs -> renaming (rename_pairs rs) k ∈ keys current.
Proof.
  induction rs as [|r rs IH]; intros Hf Ht Hk; [by apply not_elem_of_nil in Hk|].
  change (renaming (rename_pairs (r :: rs)) k)
    with (renaming (rename_pairs rs) (swap (ToLower (cr_From r)) (ToLower (cr_To r)) k)).
  unfold swap. destruct (decide (k = ToLower (cr_From r))) as [->|Hne].
  - rewrite renaming_current; [apply Ht; by left| |apply Ht; by left]. intros r' Hr'. apply Hf. by right.
  - apply IH; [intros r' Hr'; apply Hf; by right|intros r' Hr'; apply Ht; by right|].
    cbn [fmap list_fmap] in Hk. by apply elem_of_cons in Hk as [?|?].
Qed.

(** * The whole diff *)

Context (renames declared : gmap string string).
Hypothesis clear : renames_clear renames.
Let diff := DiffSchemas current (Some snapshot) renames declared.
Let s := renames_applied current snapshot renames declared.
Let inv : renaming_invariant s := renames_applied_invariant renames declared clear.
Hypothesis supported : df_Unsupported diff = [].

Definition added_columns : list TableColumn :=
  List.filter (fun c => negb (bool_decide (is_Some (oldByKey s !! column_key c)))) (ts_Columns current).

Lemma elem_of_added c : c ∈ added_columns <-> c ∈ ts_Columns current /\ oldByKey s !! column_key c = None.
Proof.
  unfold added_columns. rewrite list_elem_of_In, filter_In, <- list_elem_of_In, negb_true_iff, bool_decide_eq_false.
  by rewrite eq_None_not_Some.
Qed.

Lemma current_spec c : c ∈ ts_Columns current -> by_key (ts_Columns current) !! column_key c = Some (spec_of c).
Proof. intros Hc. apply by_key_Some; [apply current_ok|]. by exists c. Qed.

Lemma additions_are :
  omap (addition (by_key (ts_Columns current)) (oldByKey s)) (ts_Columns current) = spec_of <$> added_columns.
Proof.
  unfold added_columns.
  assert (H : forall l, (forall c, c ∈ l -> c ∈ ts_Columns current) ->
    omap (addition (by_key (ts_Columns current)) (oldByKey s)) l
    = spec_of <$> List.filter (fun c => negb (bool_decide (is_Some (oldByKey s !! column_key c)))) l); [|by apply H].
  induction l as [|c l IH]; intros Hl; [done|]. cbn [omap list_omap List.filter]. unfold addition at 1.
  rewrite current_spec by (apply Hl; by left). unfold omap in IH.
  destruct (oldByKey s !! column_key c) eqn:E; cbn [negb].
  - rewrite bool_decide_true by by eexists. cbn [negb]. apply IH. intros. apply Hl. by right.
  - rewrite bool_decide_false by by intros [? ?]. cbn [negb fmap list_fmap]. f_equal. apply IH. intros. apply Hl. by right.
Qed.

Lemma omap_nil {A B} (f : A -> option B) l x : omap f l = [] -> x ∈ l -> f x = None.
Proof.
  intros H Hx. destruct (f x) eqn:E; [|done]. exfalso. apply (not_elem_of_nil b). rewrite <- H.
  apply list_elem_of_omap. by exists x.
Qed.

Lemma supported_parts :
  (forall c, c ∈ added_columns -> tc_Nullable c = true) /\
  (forall c old, c ∈ ts_Columns current -> oldByKey s !! column_key c = Some old -> spec_col old = col_of c).
Proof.
  unfold diff in supported. cbn [DiffSchemas df_Unsupported] in supported. fold s in supported.
  apply app_eq_nil in supported as [_ H]. apply app_eq_nil in H as [Ha Hc]. rewrite additions_are in Ha. split.
  - intros c Hin. pose proof (omap_nil _ _ (spec_of c) Ha (list_elem_of_fmap_2 _ _ _ Hin)) as H.
    unfold unsupported_addition in H. cbn [spec_of cs_Nullable] in H. by destruct (tc_Nullable c).
  - intros c old Hin Ho. pose proof (omap_nil _ _ c Hc Hin) as H. unfold unsupported_change in H.
    rewrite Ho, current_spec in H by done. cbn [default from_option id] in H.
    destruct (changed old (spec_of c)) eqn:E; [done|]. unfold changed in E.
    apply orb_false_iff in E as [E1%negb_false_iff E2%negb_false_iff].
    apply EqualFold_true in E1. apply eqb_prop in E2. unfold spec_col, col_of. f_equal; [exact E1|exact E2].
Qed.

Lemma removal_names : ToLower <$> (cs_Name <$> df_Removed diff)
  = List.filter (fun k => negb (bool_decide (k ∈ keys current))) (oldOrder s).
Proof.
  change (df_Removed diff) with (omap (removal (by_key (ts_Columns current)) (oldByKey s)) (oldOrder s)).
  assert (H : forall l, (forall k, k ∈ l -> is_Some (oldByKey s !! k)) ->
    ToLower <$> (cs_Name <$> omap (removal (by_key (ts_Columns current)) (oldByKey s)) l)
    = List.filter (fun k => negb (bool_decide (k ∈ keys current))) l).
  2: { apply H. intros k. by apply (ri_dom _ inv). }
  induction l as [|k l IH]; intros Hl; [done|]. cbn [omap list_omap List.filter]. unfold removal at 1.
  unfold omap in IH. specialize (IH (fun k Hk => Hl k (list_elem_of_further _ _ _ Hk))).
  destruct (by_key (ts_Columns current) !! k) eqn:E.
  - rewrite bool_decide_true by (apply keys_by_key; by eexists). exact IH.
  - rewrite bool_decide_false by (rewrite <- keys_by_key, E; by intros [? ?]). cbn [negb].
    destruct (Hl k) as [sp Hsp]; [by left|]. rewrite Hsp. cbn [default from_option id fmap list_fmap].
    rewrite (ri_names _ inv k sp Hsp). f_equal. exact IH.
Qed.

Lemma elem_of_removed k : k ∈ ToLower <$> (cs_Name <$> df_Removed diff) <->
  is_Some (oldByKey s !! k) /\ k ∉ keys current.
Proof.
  rewrite removal_names, list_elem_of_In, filter_In, <- list_elem_of_In, negb_true_iff, bool_decide_eq_false.
  by rewrite (ri_dom _ inv).
Qed.

(** An index that stays covers no column the diff removes. *)
Hypothesis survive : Forall (fun i => Forall (fun k => k ∈ keys current \/ k ∈ ((fun r => ToLower (cr_From r)) <$> df_Renamed diff))
                               (sig_columns (sig_of i))) (ts_Indexes snapshot).
(** No index the diff adds takes the name of one it keeps. *)
Hypothesis fresh_names : Forall (fun i => Forall (fun j => index_key i = index_key j ->
                                   unmatched (signatures (ts_Indexes current)) j = true) (ts_Indexes snapshot))
                           (df_AddedIndexes diff).

Let g := renaming (rename_pairs (renamed s)).

Lemma kept_column k : k ∈ keys current -> g k = k.
Proof. apply renaming_current, (ri_from _ inv). Qed.

Lemma surviving i k : i ∈ ts_Indexes snapshot -> k ∈ sig_columns (sig_of i) -> g k ∈ keys current.
Proof.
  intros Hi Hk. pose proof (proj1 (Forall_forall _ _) (proj1 (Forall_forall _ _) survive i Hi) k Hk) as [H|H].
  - by rewrite kept_column.
  - apply renaming_source; [apply (ri_from _ inv)|apply (ri_to _ inv)|exact H].
Qed.

Lemma unmatched_spec l i : Forall (fun j => plain_sig (sig_of j)) l -> plain_sig (sig_of i) ->
  unmatched (signatures l) i = false <-> exists j, j ∈ l /\ sig_of j = sig_of i.
Proof.
  intros Hl Hi. unfold unmatched, signatures. rewrite negb_false_iff, bool_decide_eq_true, list_elem_of_fmap.
  split; intros (j & Hj); exists j.
  - destruct Hj as [E Hj]. split; [done|]. apply IndexSignature_eq; [|done..].
    by apply (proj1 (Forall_forall _ _) Hl).
  - destruct Hj as [Hj E]. split; [|done]. rewrite !IndexSignature_text. by rewrite E.
Qed.

Definition final_columns : gmap string col :=
  filter (fun kc => kc.1 ∉ ToLower <$> (cs_Name <$> df_Removed diff))
    (list_to_map ((fun c => (column_key c, (ToLower (tc_StorageType c), true))) <$> added_columns) ∪ (spec_col <$> oldByKey s)).

Lemma final_columns_current : final_columns = cols_of (ts_Columns current).
Proof.
  destruct supported_parts as [Hadd Hsame]. destruct current_ok as [Hd _ _ _].
  assert (Had : NoDup (column_key <$> added_columns)) by by apply NoDup_filter_fmap.
  apply map_eq. intros k. apply option_eq. intros v. unfold final_columns.
  rewrite map_lookup_filter_Some, elem_of_removed, lookup_union_Some_raw, lookup_fmap_Some, cols_of_Some by done.
  rewrite (lookup_keyed column_key (fun c => (ToLower (tc_StorageType c), true))), lookup_keyed_None by done. split.
  - intros [[(c & [Hc Ho]%elem_of_added & <- & <-)|(_ & sp & <- & Hsp)] Hr].
    + exists c. split_and!; [done|done|]. unfold col_of. rewrite Hadd; [done|]. by apply elem_of_added.
    + cbn [fst] in Hr. destruct (decide (k ∈ keys current)) as [Hk|Hk].
      * apply list_elem_of_fmap in Hk as (c & -> & Hc). exists c. split_and!; [done|done|]. symmetry. by apply Hsame.
      * destruct Hr. split; [by exists sp|done].
  - intros (c & Hc & <- & <-). split; [|cbn [fst]; intros [_ Hn]; apply Hn; by apply list_elem_of_fmap_2].
    destruct (oldByKey s !! column_key c) as [sp|] eqn:E.
    + right. split.
      * intros (c' & Hk & [Hc' Ho]%elem_of_added)%list_elem_of_fmap. congruence.
      * exists sp. split; [by apply Hsame|done].
    + left. exists c. split_and!; [by apply elem_of_added|done|]. unfold col_of. rewrite Hadd; [done|]. by apply elem_of_added.
Qed.

Definition dropped_names : list string := df_RemovedIndexNames diff.
Definition final_indexes : gmap string sig :=
  idx_of (df_AddedIndexes diff) ∪
  filter (fun kc => kc.1 ∉ ToLower <$> dropped_names) (rename_sig g <$> sh_idx (shape_of snapshot)).

Lemma elem_of_dropped k : k ∈ ToLower <$> dropped_names <->
  exists j, j ∈ ts_Indexes snapshot /\ index_key j = k /\ unmatched (signatures (ts_Indexes current)) j = true.
Proof.
  unfold dropped_names, diff. cbn [DiffSchemas df_RemovedIndexNames]. rewrite <- list_fmap_compose, list_elem_of_fmap.
  split; intros (j & Hj); exists j; rewrite list_elem_of_In, filter_In, <- list_elem_of_In in *; [|by destruct Hj as (? & <- & ?)].
  by destruct Hj as (-> & ? & ?).
Qed.

Lemma elem_of_added_index i : i ∈ df_AddedIndexes diff <->
  i ∈ ts_Indexes current /\ unmatched (signatures (ts_Indexes snapshot)) i = true.
Proof. unfold diff. cbn [DiffSchemas df_AddedIndexes]. by rewrite list_elem_of_In, filter_In, <- list_elem_of_In. Qed.

(** A matched index of the snapshot keeps its name to itself. *)
Lemma matched_kept j : j ∈ ts_Indexes snapshot -> unmatched (signatures (ts_Indexes current)) j = false ->
  index_key j ∉ ToLower <$> dropped_names.
Proof.
  intros Hj Hm (j' & Hj' & Hk & Hu)%elem_of_dropped.
  by rewrite (keyed_inj index_key (ts_Indexes snapshot) j' j (ok_indexes _ snapshot_ok) Hj' Hj Hk), Hm in Hu.
Qed.

Lemma kept_structure i j : i ∈ ts_Indexes current -> sig_of i = sig_of j -> rename_sig g (sig_of j) = sig_of i.
Proof.
  intros Hi <-. rewrite <- (rename_sig_id (sig_of i)) at 2. apply rename_sig_ext. intros k Hk. apply kept_column.
  by apply (proj1 (Forall_forall _ _) (proj1 (Forall_forall _ _) (ok_covered _ current_ok) i Hi)).
Qed.

Lemma plain_current i : i ∈ ts_Indexes current -> plain_sig (sig_of i).
Proof. apply (proj1 (Forall_forall _ _) (ok_plain _ current_ok)). Qed.
Lemma plain_snapshot i : i ∈ ts_Indexes snapshot -> plain_sig (sig_of i).
Proof. apply (proj1 (Forall_forall _ _) (ok_plain _ snapshot_ok)). Qed.

Lemma final_structures sg : structures final_indexes sg <-> exists i, i ∈ ts_Indexes current /\ sig_of i = sg.
Proof.
  assert (Hda : NoDup (index_key <$> df_AddedIndexes diff)) by apply NoDup_filter_fmap, current_ok.
  unfold structures, final_indexes. split.
  - intros [k Hk]. apply lookup_union_Some_raw in Hk as [Hk|[_ Hk]].
    + apply idx_of_Some in Hk as (i & [Hi _]%elem_of_added_index & _ & Hs); [|done]. by exists i.
    + apply map_lookup_filter_Some in Hk as [Hk Hd]. apply lookup_fmap_Some in Hk as (sg0 & <- & Hk).
      apply idx_of_Some in Hk as (j & Hj & <- & <-); [|apply snapshot_ok]. cbn [fst] in Hd.
      destruct (unmatched (signatures (ts_Indexes current)) j) eqn:E.
      * destruct Hd. apply elem_of_dropped. by exists j.
      * apply unmatched_spec in E as (i & Hi & Hs); [|apply current_ok|by apply plain_snapshot].
        exists i. split; [done|]. symmetry. by apply kept_structure.
  - intros (i & Hi & <-). destruct (unmatched (signatures (ts_Indexes snapshot)) i) eqn:E.
    + exists (index_key i). apply lookup_union_Some_raw. left. apply idx_of_Some; [done|]. exists i.
      split; [by apply elem_of_added_index|done].
    + apply unmatched_spec in E as (j & Hj & Hs); [|apply snapshot_ok|by apply plain_current].
      assert (Hm : unmatched (signatures (ts_Indexes current)) j = false).
      { apply unmatched_spec; [apply current_ok|by apply plain_snapshot|]. by exists i. }
      exists (index_key j). apply lookup_union_Some_raw. right. split.
      * apply lookup_keyed_None. intros (i' & Hk & Hi')%list_elem_of_fmap.
        pose proof (proj1 (Forall_forall _ _) (proj1 (Forall_forall _ _) fresh_names i' Hi') j Hj (eq_sym Hk)). congruence.
      * apply map_lookup_filter_Some. split; [|by apply matched_kept].
        apply lookup_fmap_Some. exists (sig_of j). split; [by apply kept_structure|].
        apply idx_of_Some; [apply snapshot_ok|]. by exists j.
Qed.

Lemma ops_run : run (ops_of_diff diff) (shape_of snapshot) = Some (mkShape final_columns final_indexes).
Proof.
  destruct supported_parts as [Hadd _]. destruct current_ok as [Hd _ _ _].
  unfold ops_of_diff. change (df_Renamed diff) with (renamed s). fold (rename_ops (renamed s)).
  rewrite (run_step _ _ _ _ (ri_run _ inv)). fold g.
  assert (Ha : (fun c => AddCol (cs_Name c) (cs_StorageType c) true) <$> df_Added diff
               = (fun p : string * string * bool => AddCol p.1.1 p.1.2 p.2) <$> ((fun c => (tc_Name c, tc_StorageType c, true)) <$> added_columns)).
  { unfold diff. cbn [DiffSchemas df_Added]. fold s. rewrite additions_are.
    assert (List.filter cs_Nullable (spec_of <$> added_columns) = spec_of <$> added_columns) as ->.
    { clear -Hadd. induction added_columns as [|c l IH]; [done|]. cbn. rewrite Hadd by by left. f_equal.
      apply IH. intros. apply Hadd. by right. }
    by rewrite <- !list_fmap_compose. }
  rewrite Ha. erewrite run_step; [|apply run_adds].
  - rewrite <- list_fmap_compose. cbn [sh_cols sh_idx].
    assert (Hr : (fun c => DropCol (cs_Name c)) <$> df_Removed diff = DropCol <$> (cs_Name <$> df_Removed diff))
      by by rewrite <- list_fmap_compose.
    rewrite Hr. erewrite run_step; [|apply run_drops]; cbn [sh_cols sh_idx].
    + erewrite run_step; [|apply run_drop_indexes]; cbn [sh_cols sh_idx].
      * rewrite run_create_indexes; [reflexivity|..]; cbn [sh_cols sh_idx].
        -- apply NoDup_filter_fmap, current_ok.
        -- apply Forall_forall. intros i Hi. apply map_lookup_filter_None. right. intros sg Hk. cbn [fst].
           apply lookup_fmap_Some in Hk as (sg0 & _ & (j & Hj & Hk & _)%idx_of_Some); [|apply snapshot_ok].
           intros Hn. apply Hn, elem_of_dropped. exists j. split_and!; [done|done|].
           by apply (proj1 (Forall_forall _ _) (proj1 (Forall_forall _ _) fresh_names i Hi)).
        -- apply Forall_forall. intros i [Hi _]%elem_of_added_index. apply Forall_forall. intros k Hk.
           change (is_Some (final_columns !! k)). rewrite final_columns_current. apply cols_of_is_Some.
           by apply (proj1 (Forall_forall _ _) (proj1 (Forall_forall _ _) (ok_covered _ current_ok) i Hi)).
      * unfold diff. cbn [DiffSchemas df_RemovedIndexNames]. rewrite <- list_fmap_compose.
        apply NoDup_filter_fmap, snapshot_ok.
      * apply Forall_forall. intros n Hn. apply (list_elem_of_fmap_2 ToLower) in Hn.
        apply elem_of_dropped in Hn as (j & Hj & <- & _). rewrite lookup_fmap. cbn [shape_of sh_idx].
        assert (idx_of (ts_Indexes snapshot) !! index_key j = Some (sig_of j)) as ->; [|by eexists].
        apply idx_of_Some; [apply snapshot_ok|]. by exists j.
    + rewrite removal_names. apply NoDup_ListNoDup, List.NoDup_filter, NoDup_ListNoDup, (ri_order _ inv).
    + apply Forall_forall. intros n Hn. apply (list_elem_of_fmap_2 ToLower) in Hn. apply elem_of_removed in Hn as [[sp Hsp] _].
      rewrite lookup_union_is_Some. right. rewrite lookup_fmap, Hsp. by eexists.
    + intros k sg n Hk Hn Hin. apply (list_elem_of_fmap_2 ToLower) in Hn. apply elem_of_removed in Hn as [_ Hn].
      apply lookup_fmap_Some in Hk as (sg0 & <- & (j & Hj & _ & <-)%idx_of_Some); [|apply snapshot_ok].
      rewrite sig_columns_rename in Hin. apply list_elem_of_fmap in Hin as (k' & E & Hk'). apply Hn. rewrite E.
      by apply (surviving j).
  - rewrite <- list_fmap_compose. unfold added_columns. by apply NoDup_filter_fmap.
  - apply Forall_fmap, Forall_forall. intros c [_ Hc]%elem_of_added. cbn [compose fst sh_cols].
    rewrite lookup_fmap. change (ToLower (tc_Name c)) with (column_key c). by rewrite Hc.
Qed.
End Forward.

(** An index the diff keeps covers only columns that stay or are renamed. *)
Definition indexes_survive (current snapshot : TableSchema) (diff : TableDiff) : Prop :=
  Forall (fun i => Forall (fun k => k ∈ keys current \/ k ∈ ((fun r => ToLower (cr_From r)) <$> df_Renamed diff))
                     (sig_columns (sig_of i))) (ts_Indexes snapshot).
(** An index the diff adds takes the name of one only when that one goes. *)
Definition names_free (current snapshot : TableSchema) (diff : TableDiff) : Prop :=
  Forall (fun i => Forall (fun j => index_key i = index_key j ->
                             unmatched (signatures (ts_Indexes current)) j = true) (ts_Indexes snapshot))
    (df_AddedIndexes diff).
#[export] Instance indexes_survive_dec current snapshot diff : Decision (indexes_survive current snapshot diff).
Proof. unfold indexes_survive. apply _. Defined.
#[export] Instance names_free_dec current snapshot diff : Decision (names_free current snapshot diff).
Proof. unfold names_free. apply _. Defined.

(** C9. The step a diff generates does what the diff says and ends in the model:
    when nothing of the diff is unsupported, the explicit renames go from columns
    the model gave up to columns the snapshot does not have, no two to one
    ([renames_clear]), no index of the snapshot covers a column that is dropped
    ([indexes_survive]) and no added index takes the name of one that stays
    ([names_free]), the statements its actions render are the dialect's renderings of a sequence of renames, additions, removals
    and index changes; applied to the snapshot's table, each is one a database
    accepts where it comes (names free, columns there, no index over a dropped
    column); and the table they leave has exactly the model's columns, with
    their types and nullability, and exactly the model's index structures.  The
    program itself does not test the first two conditions:
    [explicit_rename_overwrites_a_column] and [generated_step_drops_under_an_index]
    are what happens without them. *)
Theorem generated_step_reaches_the_model m d snapshot renames :
  let current := FromMap m d in
  let diff := Diff m d (Some snapshot) renames in
  schema_ok current -> schema_ok snapshot -> renames_clear current snapshot renames ->
  df_Unsupported diff = [] -> indexes_survive current snapshot diff -> names_free current snapshot diff ->
  st_SQL <$> generated_up m d diff = ddl_sql d (RelationName m) <$> ops_of_diff diff /\
  exists final, run (ops_of_diff diff) (shape_of snapshot) = Some final /\
    sh_cols final = sh_cols (shape_of current) /\
    forall sg, structures (sh_idx final) sg <-> structures (sh_idx (shape_of current)) sg.
Proof.
  intros current diff Hc Hs Hr Hu Hi Hn. split; [by apply generated_statements|].
  eexists. split; [by apply (ops_run current snapshot Hc Hs renames (DeclaredRenames m))|].
  cbn [sh_cols sh_idx]. split; [by apply final_columns_current|]. intros sg.
  rewrite (final_structures current snapshot Hc Hs renames (DeclaredRenames m)) by done.
  cbn [shape_of sh_idx]. rewrite structures_of by apply Hc. reflexivity.
Qed.

(** A table whose title became a heading, whose body went and whose rating is new. *)
Definition notes_property (name : string) (ft : FieldType) (ct : ColumnType) (nullable key generated : bool)
    (from : option string) : PropertyMap :=
  mkProperty None name name ft ct nullable key generated false AuditNone false from 0 0 0 None None.
Definition notes_map : EntityMap :=
  NewEntityMap (mkGoType "app" "Note") RelationTable "notes" "" ""
    [notes_property "id" (mkField false (TyInt KInt64)) TypeInt64 false true true None;
     notes_property "heading" (mkField true TyString) TypeString true false false (Some "title");
     notes_property "rating" (mkField true (TyInt KInt64)) TypeInt64 true false false None]
    KeyDatabaseGenerated [mkEntityIndex "ix_notes_heading" [mkIndexColumn "heading" "heading" true] true] [].
Definition notes_snapshot : TableSchema :=
  mkTableSchema "notes" "" [mkTableColumn "ID" "integer" false true true; mkTableColumn "Title" "TEXT" true false false;
                            mkTableColumn "body" "TEXT" true false false]
    [mkTableIndex "ix_notes_title" [mkIndexPart "Title" true] true].

Lemma generated_step_reaches_the_model_witness :
  df_Renamed (Diff notes_map Sqlite.dialect (Some notes_snapshot) ∅) = [mkRename "title" "heading"] /\
  df_RemovedIndexNames (Diff notes_map Sqlite.dialect (Some notes_snapshot) ∅) = ["ix_notes_title"] /\
  exists final, run (ops_of_diff (Diff notes_map Sqlite.dialect (Some notes_snapshot) ∅)) (shape_of notes_snapshot) = Some final /\
    sh_cols final = sh_cols (shape_of (FromMap notes_map Sqlite.dialect)).
Proof.
  split; [vm_compute; reflexivity|]. split; [vm_compute; reflexivity|].
  destruct (generated_step_reaches_the_model notes_map Sqlite.dialect notes_snapshot ∅) as (_ & final & Hrun & Hcols & _).
  - split; apply (bool_decide_unpack _); vm_compute; reflexivity.
  - split; apply (bool_decide_unpack _); vm_compute; reflexivity.
  - split; [apply map_Forall_empty|apply map_Forall_empty|]. intros f1 f2 t1 t2 H. by rewrite lookup_empty in H.
  - vm_compute. reflexivity.
  - apply (bool_decide_unpack _); vm_compute; reflexivity.
  - apply (bool_decide_unpack _); vm_compute; reflexivity.
  - exists final. split; [exact Hrun|exact Hcols].
Defined.

(** ** The order of removals

    [EmitTableStep] writes the column removals before the index removals, and
    [TableActions] keeps declaration order within a group: a column that goes
    with its index is dropped while the index still covers it. *)
Definition unindexed_map : EntityMap :=
  NewEntityMap (mkGoType "app" "Note") RelationTable "notes" "" ""
    [notes_property "id" (mkField false (TyInt KInt64)) TypeInt64 false true true None] KeyDatabaseGenerated [] [].
Definition indexed_snapshot : TableSchema :=
  mkTableSchema "notes" "" [mkTableColumn "id" "INTEGER" false true true; mkTableColumn "title" "TEXT" true false false]
    [mkTableIndex "ix_notes_title" [mkIndexPart "title" false] false].

Theorem generated_step_drops_under_an_index :
  let diff := Diff unindexed_map Sqlite.dialect (Some indexed_snapshot) ∅ in
  df_Unsupported diff = [] /\
  st_SQL <$> generated_up unindexed_map Sqlite.dialect diff
    = ["alter table notes drop column title"; "drop index ix_notes_title"] /\
  ops_of_diff diff = [DropCol "title"; DropIdx "ix_notes_title"] /\
  run (ops_of_diff diff) (shape_of indexed_snapshot) = None.
Proof. vm_compute. repeat split. Qed.

(** ** Renames onto a column that is there

    An explicit rename is checked against the snapshot and the model only at
    its two ends: one onto a column the snapshot already has replaces it in
    [oldByKey], and the step renames onto a name that is taken. *)
Definition overwritten_snapshot : TableSchema :=
  mkTableSchema "notes" "" [mkTableColumn "id" "INTEGER" false true true; mkTableColumn "title" "TEXT" true false false;
    mkTableColumn "subject" "TEXT" true false false] [].
Definition overwriting_schema : TableSchema :=
  mkTableSchema "notes" "" [mkTableColumn "id" "INTEGER" false true true; mkTableColumn "subject" "TEXT" true false false] [].

Theorem explicit_rename_overwrites_a_column :
  let diff := DiffSchemas overwriting_schema (Some overwritten_snapshot) {["title" := "subject"]} ∅ in
  df_Unsupported diff = [] /\ df_Renamed diff = [mkRename "title" "subject"] /\ df_Removed diff = [] /\
  run (ops_of_diff diff) (shape_of overwritten_snapshot) = None.
Proof. vm_compute. repeat split. Qed.

(** * A model that has not changed *)

Lemma omap_all_none {A B} (f : A -> option B) l : (forall a, a ∈ l -> f a = None) -> omap f l = [].
Proof.
  induction l as [|a l IH]; intros H; [done|]. cbn. rewrite H by by left. apply IH. intros. apply H. by right.
Qed.

Lemma filter_none {A} (P : A -> bool) l : (forall a, a ∈ l -> P a = false) -> List.filter P l = [].
Proof.
  induction l as [|a l IH]; intros H; [done|]. cbn. rewrite H by by left. apply IH. intros. apply H. by right.
Qed.

Lemma changed_refl sp : changed sp sp = false.
Proof. unfold changed. by rewrite EqualFold_refl, eqb_reflx. Qed.

(** A model that matches its snapshot has nothing to migrate: the diff of a
    schema against itself is empty, whatever renames the model still declares.
    [renamed_from] is permanent and harmless once its migration has run. *)
Theorem unchanged_model_has_no_diff s declared : NoDup (keys s) -> DiffSchemas s (Some s) ∅ declared = no_diff.
Proof.
  intros H. set (start := mkLocals (keys s) (by_key (ts_Columns s)) [] []).
  assert (Hr : renames_applied s s ∅ declared = start).
  { unfold renames_applied. replace (sortedKeys ∅) with (@nil string) by reflexivity. cbn [fold_left].
    change (mkLocals _ _ _ _) with start. generalize (sortedKeys declared). intros l.
    induction l as [|from l IH]; [done|]. cbn [fold_left].
    assert (declared_rename (by_key (ts_Columns s)) declared start from = start) as ->; [|done].
    unfold declared_rename. cbn [start oldByKey]. destruct (by_key (ts_Columns s) !! ToLower from); [|done].
    by destruct (by_key (ts_Columns s) !! ToLower (default "" (declared !! from))). }
  assert (Hk : forall c, c ∈ ts_Columns s -> by_key (ts_Columns s) !! column_key c = Some (spec_of c)).
  { intros c Hc. apply by_key_Some; [done|]. by exists c. }
  unfold DiffSchemas. rewrite Hr. cbn [start oldByKey oldOrder renamed unsupported].
  assert (omap (addition (by_key (ts_Columns s)) (by_key (ts_Columns s))) (ts_Columns s) = []) as ->.
  { apply omap_all_none. intros c Hc. unfold addition. by rewrite Hk. }
  assert (omap (removal (by_key (ts_Columns s)) (by_key (ts_Columns s))) (keys s) = []) as ->.
  { apply omap_all_none. intros k (c & -> & Hc)%list_elem_of_fmap. unfold removal. by rewrite Hk. }
  assert (omap (unsupported_change (by_key (ts_Columns s)) (by_key (ts_Columns s))) (ts_Columns s) = []) as ->.
  { apply omap_all_none. intros c Hc. unfold unsupported_change. rewrite Hk by done.
    cbn [default from_option id]. by rewrite changed_refl. }
  assert (List.filter (unmatched (signatures (ts_Indexes s))) (ts_Indexes s) = []) as ->; [|reflexivity].
  apply filter_none. intros i Hi. unfold unmatched. rewrite bool_decide_true; [done|].
  by apply list_elem_of_fmap_2.
Qed.

Lemma unchanged_model_has_no_diff_witness :
  NoDup (keys (FromMap notes_map Sqlite.dialect)) /\
  DeclaredRenames notes_map = {["title" := "heading"]} /\
  Diff notes_map Sqlite.dialect (Some (FromMap notes_map Sqlite.dialect)) ∅ = no_diff.
Proof.
  assert (H : NoDup (keys (FromMap notes_map Sqlite.dialect))) by (apply (bool_decide_unpack _); vm_compute; reflexivity).
  split; [exact H|]. split; [vm_compute; reflexivity|].
  apply (unchanged_model_has_no_diff (FromMap notes_map Sqlite.dialect) (DeclaredRenames notes_map) H).
Defined.
