(* ===== verification/DownLaws.v ===== *)
(** What a derived rollback does: the statements [deriveTableDown] returns, run
    on the table a step left, are accepted one after the other and give the
    table back as it was before. *)
From S2P Require Import Prelude GoStrings Core Triggers Dialect SchemaSnapshot SchemaDiff MigrationSteps DownDerive Signatures Evolution.
From S2P Require Sqlite.

(** Renames whose targets are no sources move a key at most once. *)
Lemma renaming_other ps k : k ∉ (fun p : string * string => ToLower p.1) <$> ps -> renaming ps k = k.
Proof.
  unfold renaming. induction ps as [|p ps IH]; intros Hk; [done|]. cbn [fmap list_fmap] in Hk.
  apply not_elem_of_cons in Hk as [Hne Hk]. cbn [fold_left]. unfold swap at 2. rewrite decide_False by done. by apply IH.
Qed.

Lemma renaming_here ps p : NoDup ((fun p : string * string => ToLower p.1) <$> ps) ->
  (forall q, q ∈ ps -> ToLower q.2 ∉ (fun p : string * string => ToLower p.1) <$> ps) -> p ∈ ps ->
  renaming ps (ToLower p.1) = ToLower p.2.
Proof.
  induction ps as [|q ps IH]; intros Hd Ht Hp; [by apply not_elem_of_nil in Hp|].
  cbn [fmap list_fmap] in Hd. apply NoDup_cons in Hd as [Hq Hd].
  change (renaming (q :: ps) (ToLower p.1)) with (renaming ps (swap (ToLower q.1) (ToLower q.2) (ToLower p.1))).
  unfold swap. destruct (decide (ToLower p.1 = ToLower q.1)) as [E|Hne].
  - assert (p = q) as ->.
    { apply elem_of_cons in Hp as [->|Hp]; [done|]. destruct Hq. rewrite <- E. apply list_elem_of_fmap. by exists p. }
    apply renaming_other. intros Hin. apply (Ht q); [by left|]. by right.
  - apply elem_of_cons in Hp as [->|Hp]; [done|]. apply IH; [done| |done].
    intros r Hr Hin. apply (Ht r); [by right|]. by right.
Qed.

(** The declared renames of a step, against the tables before and after it:
    each from a column it had to one it has, no two of one name. *)
Record declared_renames (at_ before : TableSchema) (rs : list ColumnRename) : Prop := {
  dr_from_apart : NoDup ((fun r => ToLower (cr_From r)) <$> rs);
  dr_to_apart : NoDup ((fun r => ToLower (cr_To r)) <$> rs);
  dr_from : Forall (fun r => ToLower (cr_From r) ∈ keys before /\ ~ ToLower (cr_From r) ∈ keys at_) rs;
  dr_to : Forall (fun r => ToLower (cr_To r) ∈ keys at_) rs;
  dr_plain : Forall (fun r => plain (ToLower (cr_From r))) rs }.

Lemma NoDup_keys_inj {A} (f g : A -> string) l : NoDup (f <$> l) ->
  (forall a b, a ∈ l -> b ∈ l -> g a = g b -> f a = f b) -> NoDup (g <$> l).
Proof.
  induction l as [|a l IH]; intros Hd H; [constructor|]. cbn [fmap list_fmap] in *.
  apply NoDup_cons in Hd as [Ha Hd]. apply NoDup_cons. split.
  - intros (b & E & Hb)%list_elem_of_fmap. apply Ha. rewrite (H a b); [by apply list_elem_of_fmap_2|by left|by right|done].
  - apply IH; [done|]. intros b c Hb Hc. apply H; by right.
Qed.

Section Down.
Context (at_ before : TableSchema) (rs : list ColumnRename).
Hypothesis at_ok : schema_ok at_.
Hypothesis before_ok : schema_ok before.
Hypothesis renames_ok : declared_renames at_ before rs.
Let names := inverted rs.
Let current := current_columns names (ts_Columns at_).
Let previous := previous_columns (ts_Columns before).
Definition back_pairs : list (string * string) := (fun r => (cr_To r, cr_From r)) <$> rev rs.

Lemma rs_from r : r ∈ rs -> ToLower (cr_From r) ∈ keys before /\ ToLower (cr_From r) ∉ keys at_.
Proof. apply (proj1 (Forall_forall _ _) (dr_from _ _ _ renames_ok)). Qed.
Lemma rs_to r : r ∈ rs -> ToLower (cr_To r) ∈ keys at_.
Proof. apply (proj1 (Forall_forall _ _) (dr_to _ _ _ renames_ok)). Qed.

Lemma elem_of_backwards r : r ∈ rev rs <-> r ∈ rs.
Proof. by rewrite <- Permutation_rev. Qed.
Lemma NoDup_backwards (f : ColumnRename -> string) : NoDup (f <$> rs) -> NoDup (f <$> rev rs).
Proof. by rewrite <- Permutation_rev. Qed.

Lemma names_Some k from : names !! k = Some from <-> exists r, r ∈ rs /\ ToLower (cr_To r) = k /\ cr_From r = from.
Proof.
  unfold names, inverted. rewrite (fold_insert_Some (fun r => ToLower (cr_To r)) cr_From).
  - by setoid_rewrite elem_of_backwards.
  - apply NoDup_backwards, renames_ok.
Qed.

Lemma back_sources k : k ∈ (fun p : string * string => ToLower p.1) <$> back_pairs <-> is_Some (names !! k).
Proof.
  unfold back_pairs. rewrite <- list_fmap_compose, list_elem_of_fmap. split.
  - intros (r & -> & Hr%elem_of_backwards). exists (cr_From r). apply names_Some. by exists r.
  - intros [from (r & Hr & <- & _)%names_Some]. exists r. split; [done|]. by apply elem_of_backwards.
Qed.

(** The statements' renames are the lookup in [nameAtToBefore]. *)
Lemma renaming_names k : renaming back_pairs k = rename_key names k.
Proof.
  unfold rename_key. destruct (names !! k) as [from|] eqn:E.
  - apply names_Some in E as (r & Hr & <- & <-). apply (renaming_here back_pairs (cr_To r, cr_From r)).
    + unfold back_pairs. rewrite <- list_fmap_compose. apply (NoDup_backwards (fun r => ToLower (cr_To r))), renames_ok.
    + intros [t f] (r' & [= -> ->] & Hr'%elem_of_backwards)%list_elem_of_fmap. cbn [snd]. rewrite back_sources.
      intros [x (r'' & Hr'' & E & _)%names_Some]. apply (proj2 (rs_from r' Hr')). rewrite <- E. by apply rs_to.
    + unfold back_pairs. apply list_elem_of_fmap. exists r. split; [done|]. by apply elem_of_backwards.
  - apply renaming_other. rewrite back_sources, E. by intros [? ?].
Qed.

Lemma before_key_rename c : before_key names c = rename_key names (column_key c).
Proof. unfold before_key, before_name, rename_key. by destruct (names !! column_key c). Qed.

Lemma rename_key_inj k1 k2 : k1 ∈ keys at_ -> k2 ∈ keys at_ -> rename_key names k1 = rename_key names k2 -> k1 = k2.
Proof.
  intros H1 H2. unfold rename_key.
  destruct (names !! k1) as [f1|] eqn:E1, (names !! k2) as [f2|] eqn:E2; [| | |done]; intros E.
  - apply names_Some in E1 as (r1 & Hr1 & <- & <-). apply names_Some in E2 as (r2 & Hr2 & <- & <-).
    by rewrite (keyed_inj (fun r => ToLower (cr_From r)) rs r1 r2 (dr_from_apart _ _ _ renames_ok) Hr1 Hr2 E).
  - apply names_Some in E1 as (r1 & Hr1 & <- & <-). destruct (proj2 (rs_from r1 Hr1)). by rewrite E.
  - apply names_Some in E2 as (r2 & Hr2 & <- & <-). destruct (proj2 (rs_from r2 Hr2)). by rewrite <- E.
Qed.

Lemma at_key c : c ∈ ts_Columns at_ -> column_key c ∈ keys at_.
Proof. apply list_elem_of_fmap_2. Qed.

Lemma NoDup_before_keys : NoDup (before_key names <$> ts_Columns at_).
Proof.
  apply (NoDup_keys_inj column_key (before_key names)); [apply at_ok|].
  intros c1 c2 H1 H2 E. rewrite !before_key_rename in E. apply rename_key_inj in E; auto using at_key.
Qed.

Lemma current_Some k nc : current !! k = Some nc <->
  exists c, c ∈ ts_Columns at_ /\ before_key names c = k /\ mkNamed (before_name names c) c = nc.
Proof. apply (fold_insert_Some (before_key names) (fun c => mkNamed (before_name names c) c)), NoDup_before_keys. Qed.
Lemma current_None k : current !! k = None <-> k ∉ before_key names <$> ts_Columns at_.
Proof.
  rewrite eq_None_not_Some. unfold current, current_columns.
  by rewrite (fold_insert_is_Some (before_key names) (fun c => mkNamed (before_name names c) c)) by apply NoDup_before_keys.
Qed.
Lemma previous_Some k nc : previous !! k = Some nc <->
  exists c, c ∈ ts_Columns before /\ column_key c = k /\ mkNamed (tc_Name c) c = nc.
Proof. apply (fold_insert_Some column_key (fun c => mkNamed (tc_Name c) c)), before_ok. Qed.
Lemma previous_None k : previous !! k = None <-> k ∉ keys before.
Proof.
  rewrite eq_None_not_Some. unfold previous, previous_columns.
  by rewrite (fold_insert_is_Some column_key (fun c => mkNamed (tc_Name c) c)) by apply before_ok.
Qed.

Lemma underivable_column c b : c ∈ ts_Columns at_ -> b ∈ ts_Columns before -> before_key names c = column_key b ->
  underivable current previous (before_key names c) = false <-> col_of c = col_of b.
Proof.
  intros Hc Hb E. unfold underivable.
  rewrite (proj2 (current_Some (before_key names c) (mkNamed (before_name names c) c))) by by exists c.
  rewrite E, (proj2 (previous_Some (column_key b) (mkNamed (tc_Name b) b))) by by exists b.
  cbn [named_column]. unfold column_changed. rewrite orb_false_iff, !negb_false_iff, EqualFold_true, eqb_true_iff.
  unfold col_of. split; [by intros [-> ->]|by intros [= -> ->]].
Qed.

(** ** The groups of statements *)

Hypothesis derivable : forall c, c ∈ ts_Columns at_ -> underivable current previous (before_key names c) = false.

Lemma kept_column_same c b : c ∈ ts_Columns at_ -> b ∈ ts_Columns before ->
  before_key names c = column_key b -> col_of c = col_of b.
Proof. intros Hc Hb E. apply (underivable_column c b Hc Hb E), derivable, Hc. Qed.

Let restored := restored_columns at_ before rs.
Let dropped := dropped_columns at_ before rs.

Lemma elem_of_restored c : c ∈ restored <-> c ∈ ts_Columns before /\ current !! column_key c = None.
Proof.
  unfold restored, restored_columns.
  rewrite list_elem_of_In, filter_In, <- list_elem_of_In, negb_true_iff, bool_decide_eq_false.
  by rewrite <- eq_None_not_Some.
Qed.

Lemma dropped_filter l : (forall c, c ∈ l -> c ∈ ts_Columns at_) ->
  omap (fun c => match previous !! before_key names c with
                 | Some _ => None
                 | None => named_column <$> current !! before_key names c
                 end) l
  = List.filter (fun c => negb (bool_decide (before_key names c ∈ keys before))) l.
Proof.
  induction l as [|c l IH]; intros Hl; [done|]. specialize (IH (fun x Hx => Hl x (list_elem_of_further _ _ _ Hx))).
  cbn [omap list_omap List.filter]. destruct (previous !! before_key names c) as [nc|] eqn:E.
  - apply previous_Some in E as (b & Hb & E & _).
    rewrite bool_decide_true by (rewrite <- E; by apply list_elem_of_fmap_2). exact IH.
  - rewrite (bool_decide_false (before_key names c ∈ keys before)) by by apply previous_None.
    rewrite (proj2 (current_Some (before_key names c) (mkNamed (before_name names c) c)))
      by (exists c; split; [apply Hl; by left|done]).
    cbn [negb fmap option_fmap option_map named_column]. f_equal. exact IH.
Qed.
Lemma dropped_is_filter : dropped = List.filter (fun c => negb (bool_decide (before_key names c ∈ keys before))) (ts_Columns at_).
Proof. by apply dropped_filter. Qed.

Lemma NoDup_dropped : NoDup (before_key names <$> dropped).
Proof. rewrite dropped_is_filter. apply NoDup_filter_fmap, NoDup_before_keys. Qed.

Lemma elem_of_dropped_columns c : c ∈ dropped <-> c ∈ ts_Columns at_ /\ before_key names c ∉ keys before.
Proof.
  by rewrite dropped_is_filter, list_elem_of_In, filter_In, <- list_elem_of_In, negb_true_iff, bool_decide_eq_false.
Qed.

(** A dropped column was not renamed: its name is its own. *)
Lemma dropped_key c : c ∈ dropped -> before_key names c = column_key c.
Proof.
  intros [Hc Hk]%elem_of_dropped_columns. rewrite before_key_rename in *. unfold rename_key in *.
  destruct (names !! column_key c) as [from|] eqn:E; [|done].
  apply names_Some in E as (r & Hr & _ & <-). destruct Hk. by apply (rs_from r).
Qed.

Lemma dropped_names_are k : k ∈ ToLower <$> (tc_Name <$> dropped) <->
  (exists c, c ∈ ts_Columns at_ /\ before_key names c = k) /\ k ∉ keys before.
Proof.
  rewrite <- list_fmap_compose, list_elem_of_fmap. split.
  - intros (c & -> & Hc). pose proof (dropped_key c Hc) as E. change ((ToLower ∘ tc_Name) c) with (column_key c).
    rewrite <- E. apply elem_of_dropped_columns in Hc as [Hc Hk]. split; [by exists c|done].
  - intros [(c & Hc & <-) Hk]. exists c. assert (Hd : c ∈ dropped) by by apply elem_of_dropped_columns.
    split; [by apply dropped_key|done].
Qed.

(** *** Columns *)

(** A column restored comes back nullable. *)
Definition restored_col (c : TableColumn) : col := (ToLower (tc_StorageType c), tc_Nullable c || bool_decide (c ∈ restored)).
Definition restored_cols : gmap string col :=
  list_to_map ((fun c => (column_key c, restored_col c)) <$> ts_Columns before).

Definition left_cols (cols' : gmap string col) : gmap string col :=
  filter (fun kc => kc.1 ∉ ToLower <$> (tc_Name <$> dropped))
    (list_to_map ((fun c => (column_key c, (ToLower (tc_StorageType c), true))) <$> restored) ∪ cols').

Lemma NoDup_restored : NoDup (column_key <$> restored).
Proof. apply NoDup_filter_fmap, before_ok. Qed.

Lemma moved_Some cols' k v : moved (renaming back_pairs) (cols_of (ts_Columns at_)) cols' ->
  cols' !! k = Some v <-> exists c, c ∈ ts_Columns at_ /\ before_key names c = k /\ col_of c = v.
Proof.
  intros Hm. rewrite (Hm k v). split.
  - intros (k' & -> & (c & Hc & <- & Hv)%cols_of_Some); [|apply at_ok]. exists c.
    by rewrite renaming_names, <- before_key_rename.
  - intros (c & Hc & <- & Hv). exists (column_key c). rewrite renaming_names, <- before_key_rename. split; [done|].
    apply cols_of_Some; [apply at_ok|]. by exists c.
Qed.

Lemma left_cols_restored cols' : moved (renaming back_pairs) (cols_of (ts_Columns at_)) cols' ->
  left_cols cols' = restored_cols.
Proof.
  intros Hm. apply map_eq. intros k. apply option_eq. intros v. unfold left_cols, restored_cols.
  rewrite map_lookup_filter_Some, dropped_names_are, lookup_union_Some_raw, (moved_Some cols' k v Hm).
  rewrite (lookup_keyed column_key restored_col) by apply before_ok.
  rewrite (lookup_keyed column_key (fun c => (ToLower (tc_StorageType c), true))), lookup_keyed_None by apply NoDup_restored.
  split.
  - intros [[(b & Hb & <- & <-)|(Hn & c & Hc & <- & <-)] Hr].
    + exists b. split_and!; [by apply elem_of_restored in Hb as [? _]|done|]. unfold restored_col.
      by rewrite bool_decide_true, orb_true_r.
    + cbn [fst] in Hr. destruct (decide (before_key names c ∈ keys before)) as [Hk|Hk]; [|destruct Hr; split; [by exists c|done]].
      apply list_elem_of_fmap in Hk as (b & E & Hb). exists b. split_and!; [done|done|]. unfold restored_col.
      rewrite bool_decide_false, orb_false_r.
      * symmetry. by apply kept_column_same.
      * intros Hres. apply Hn. rewrite E. by apply list_elem_of_fmap_2.
  - intros (b & Hb & <- & <-). split; [|cbn [fst]; intros [_ Hk]; apply Hk; by apply list_elem_of_fmap_2].
    unfold restored_col. destruct (decide (b ∈ restored)) as [Hres|Hres].
    + left. exists b. rewrite bool_decide_true, orb_true_r by done. done.
    + right. rewrite bool_decide_false, orb_false_r by done. split.
      * intros (b' & E & Hb')%list_elem_of_fmap. apply Hres.
        by rewrite (keyed_inj column_key (ts_Columns before) b b' (ok_columns _ before_ok) Hb (proj1 (proj1 (elem_of_restored b') Hb')) E).
      * destruct (current !! column_key b) as [nc|] eqn:E.
        -- apply current_Some in E as (c & Hc & E & _). exists c. split_and!; [done|done|]. by apply kept_column_same.
        -- destruct Hres. by apply elem_of_restored.
Qed.

(** *** Indexes *)

Let dropped_idx := dropped_indexes at_ before rs.
Let restored_idx := restored_indexes at_ before rs.

Lemma plain_at i : i ∈ ts_Indexes at_ -> plain_sig (sig_of i).
Proof. apply (proj1 (Forall_forall _ _) (ok_plain _ at_ok)). Qed.
Lemma plain_before i : i ∈ ts_Indexes before -> plain_sig (sig_of i).
Proof. apply (proj1 (Forall_forall _ _) (ok_plain _ before_ok)). Qed.
Lemma covered_before i k : i ∈ ts_Indexes before -> k ∈ sig_columns (sig_of i) -> k ∈ keys before.
Proof. intros Hi. apply (proj1 (Forall_forall _ _) (proj1 (Forall_forall _ _) (ok_covered _ before_ok) i Hi)). Qed.

Lemma plain_renamed sg : plain_sig sg -> plain_sig (rename_sig (rename_key names) sg).
Proof.
  intros [Hne H]. split; [cbn [rename_sig sig_parts]; by destruct (sig_parts sg)|].
  rewrite sig_columns_rename. apply Forall_fmap. eapply Forall_impl; [exact H|]. intros k Hk. cbn [compose].
  unfold rename_key. destruct (names !! k) as [from|] eqn:E; [|done].
  apply names_Some in E as (r & Hr & _ & <-). by apply (proj1 (Forall_forall _ _) (dr_plain _ _ _ renames_ok)).
Qed.

Lemma index_matched_spec a b : a ∈ ts_Indexes at_ -> b ∈ ts_Indexes before ->
  index_matched names a b = true <-> rename_sig (rename_key names) (sig_of a) = sig_of b.
Proof.
  intros Ha Hb. unfold index_matched. rewrite bool_decide_eq_true, !IndexSignature_text, applyRenames_text by by apply plain_at.
  split; [|congruence]. apply sig_text_inj; [by apply plain_renamed, plain_at|by apply plain_before].
Qed.

Lemma elem_of_dropped_idx a : a ∈ dropped_idx <-> a ∈ ts_Indexes at_ /\
  forall b, b ∈ ts_Indexes before -> rename_sig (rename_key names) (sig_of a) <> sig_of b.
Proof.
  unfold dropped_idx, dropped_indexes. rewrite list_elem_of_In, filter_In, <- list_elem_of_In, negb_true_iff.
  split; intros [Ha H]; (split; [done|]).
  - intros b Hb E. apply (index_matched_spec a b Ha Hb) in E. rewrite <- not_true_iff_false, existsb_exists in H.
    apply H. exists b. split; [by apply list_elem_of_In|done].
  - rewrite <- not_true_iff_false, existsb_exists. intros (b & Hb%list_elem_of_In & E). apply (H b Hb).
    by apply index_matched_spec.
Qed.

Lemma elem_of_restored_idx b : b ∈ restored_idx <-> b ∈ ts_Indexes before /\
  forall a, a ∈ ts_Indexes at_ -> rename_sig (rename_key names) (sig_of a) <> sig_of b.
Proof.
  unfold restored_idx, restored_indexes. rewrite list_elem_of_In, filter_In, <- list_elem_of_In, negb_true_iff.
  split; intros [Hb H]; (split; [done|]).
  - intros a Ha E. apply (index_matched_spec a b Ha Hb) in E. rewrite <- not_true_iff_false, existsb_exists in H.
    apply H. exists a. split; [by apply list_elem_of_In|done].
  - rewrite <- not_true_iff_false, existsb_exists. intros (a & Ha%list_elem_of_In & E). apply (H a Ha).
    by apply index_matched_spec.
Qed.

Lemma matched_decided a : a ∈ ts_Indexes at_ ->
  a ∈ dropped_idx \/ exists b, b ∈ ts_Indexes before /\ rename_sig (rename_key names) (sig_of a) = sig_of b.
Proof.
  intros Ha. destruct (existsb (index_matched names a) (ts_Indexes before)) eqn:E.
  - right. apply existsb_exists in E as (b & Hb%list_elem_of_In & E). exists b. split; [done|]. by apply index_matched_spec.
  - left. unfold dropped_idx, dropped_indexes. rewrite list_elem_of_In, filter_In, <- list_elem_of_In. split; [done|].
    fold names. by rewrite E.
Qed.

(** A restored index takes the name of one only when that one goes. *)
Hypothesis fresh_names : forall b a, b ∈ restored_idx -> a ∈ ts_Indexes at_ -> index_key b = index_key a -> a ∈ dropped_idx.

Definition left_idx : gmap string sig :=
  idx_of restored_idx ∪
  filter (fun kc => kc.1 ∉ ToLower <$> (ti_Name <$> dropped_idx))
    (rename_sig (renaming back_pairs) <$> sh_idx (shape_of at_)).

Lemma dropped_idx_keys k : k ∈ ToLower <$> (ti_Name <$> dropped_idx) <-> exists a, a ∈ dropped_idx /\ index_key a = k.
Proof.
  rewrite <- list_fmap_compose, list_elem_of_fmap. split; intros (a & Ha); exists a; [by destruct Ha as [-> ?]|].
  by destruct Ha as [? <-].
Qed.

Lemma rename_sig_names sg : rename_sig (renaming back_pairs) sg = rename_sig (rename_key names) sg.
Proof. apply rename_sig_ext. intros k _. apply renaming_names. Qed.

Lemma NoDup_restored_idx : NoDup (index_key <$> restored_idx).
Proof. apply NoDup_filter_fmap, before_ok. Qed.

(** What is left of the indexes the step had. *)
Lemma kept_idx_Some k sg :
  filter (fun kc => kc.1 ∉ ToLower <$> (ti_Name <$> dropped_idx))
    (rename_sig (renaming back_pairs) <$> sh_idx (shape_of at_)) !! k = Some sg
  <-> exists a, a ∈ ts_Indexes at_ /\ (a ∉ dropped_idx) /\ index_key a = k /\ rename_sig (rename_key names) (sig_of a) = sg.
Proof.
  rewrite map_lookup_filter_Some, lookup_fmap_Some, dropped_idx_keys. cbn [fst]. split.
  - intros [(sg0 & <- & (a & Ha & <- & <-)%idx_of_Some) Hd]; [|apply at_ok]. exists a.
    rewrite rename_sig_names. split_and!; [done| |done|done]. intros Hin. apply Hd. by exists a.
  - intros (a & Ha & Hd & <- & <-). split.
    + exists (sig_of a). rewrite rename_sig_names. split; [done|]. apply idx_of_Some; [apply at_ok|]. by exists a.
    + intros (a' & Ha' & E). apply Hd.
      by rewrite (keyed_inj index_key (ts_Indexes at_) a a' (ok_indexes _ at_ok) Ha (proj1 (proj1 (elem_of_dropped_idx a') Ha')) (eq_sym E)).
Qed.

Lemma left_structures sg : structures left_idx sg <-> exists b, b ∈ ts_Indexes before /\ sig_of b = sg.
Proof.
  unfold structures, left_idx. split.
  - intros [k [Hk|[_ Hk]]%lookup_union_Some_raw].
    + apply idx_of_Some in Hk as (b & [Hb _]%elem_of_restored_idx & _ & Hs); [by exists b|apply NoDup_restored_idx].
    + apply kept_idx_Some in Hk as (a & Ha & Hd & _ & <-). destruct (matched_decided a Ha) as [?|(b & Hb & E)]; [done|by exists b].
  - intros (b & Hb & <-). destruct (decide (b ∈ restored_idx)) as [Hres|Hres].
    + exists (index_key b). apply lookup_union_Some_raw. left. apply idx_of_Some; [apply NoDup_restored_idx|]. by exists b.
    + assert (exists a, a ∈ ts_Indexes at_ /\ rename_sig (rename_key names) (sig_of a) = sig_of b) as (a & Ha & E).
      { destruct (existsb (fun a => index_matched names a b) (ts_Indexes at_)) eqn:E.
        - apply existsb_exists in E as (a & Ha%list_elem_of_In & E). exists a. split; [done|]. by apply index_matched_spec.
        - destruct Hres. unfold restored_idx, restored_indexes. rewrite list_elem_of_In, filter_In, <- list_elem_of_In.
          split; [done|]. fold names. by rewrite E. }
      assert (Hd : a ∉ dropped_idx) by (intros [_ H]%elem_of_dropped_idx; by apply (H b Hb)).
      exists (index_key a). apply lookup_union_Some_raw. right. split.
      * apply lookup_keyed_None. intros (b' & Ek & Hb')%list_elem_of_fmap. apply Hd. by apply (fresh_names b').
      * apply kept_idx_Some. by exists a.
Qed.

(** ** The run *)

Definition down_ops : list ddl :=
  ((fun r => RenameCol (cr_To r) (cr_From r)) <$> rev rs) ++
  ((fun i => DropIdx (ti_Name i)) <$> dropped_idx) ++
  ((fun c => AddCol (tc_Name c) (tc_StorageType c) true) <$> restored) ++
  ((fun c => DropCol (tc_Name c)) <$> dropped) ++
  (CreateIdx <$> restored_idx).

Lemma down_sql objectName d : st_SQL <$> down_statements objectName d at_ before rs = ddl_sql d objectName <$> down_ops.
Proof. unfold down_statements, down_ops, down_renames. rewrite !fmap_app, <- !list_fmap_compose. reflexivity. Qed.

Lemma back_apart : renames_apart back_pairs (sh_cols (shape_of at_)).
Proof.
  split; unfold back_pairs; rewrite <- ?list_fmap_compose.
  - apply (NoDup_backwards (fun r => ToLower (cr_To r))), renames_ok.
  - apply (NoDup_backwards (fun r => ToLower (cr_From r))), renames_ok.
  - apply Forall_fmap, Forall_forall. intros r Hr%elem_of_backwards. cbn. apply cols_of_is_Some. by apply rs_to.
  - apply Forall_fmap, Forall_forall. intros r Hr%elem_of_backwards. cbn. apply eq_None_not_Some. rewrite cols_of_is_Some.
    by apply (rs_from r).
Qed.

Lemma down_run : exists cols', moved (renaming back_pairs) (cols_of (ts_Columns at_)) cols' /\
  run down_ops (shape_of at_) = Some (mkShape (left_cols cols') left_idx).
Proof.
  destruct (run_renames back_pairs (shape_of at_) back_apart) as (cols' & Hrun & Hm). exists cols'. split; [exact Hm|].
  unfold down_ops.
  assert ((fun r => RenameCol (cr_To r) (cr_From r)) <$> rev rs = (fun p => RenameCol p.1 p.2) <$> back_pairs) as ->
    by (unfold back_pairs; by rewrite <- list_fmap_compose).
  rewrite (run_step _ _ _ _ Hrun).
  assert ((fun i => DropIdx (ti_Name i)) <$> dropped_idx = DropIdx <$> (ti_Name <$> dropped_idx)) as ->
    by by rewrite <- list_fmap_compose.
  erewrite run_step; [|apply run_drop_indexes]; cbn [sh_cols sh_idx].
  - assert ((fun c => AddCol (tc_Name c) (tc_StorageType c) true) <$> restored
            = (fun p : string * string * bool => AddCol p.1.1 p.1.2 p.2) <$> ((fun c => (tc_Name c, tc_StorageType c, true)) <$> restored)) as ->
      by by rewrite <- list_fmap_compose.
    erewrite run_step; [|apply run_adds]; cbn [sh_cols sh_idx].
    + rewrite <- list_fmap_compose.
      assert ((fun c => DropCol (tc_Name c)) <$> dropped = DropCol <$> (tc_Name <$> dropped)) as -> by by rewrite <- list_fmap_compose.
      erewrite run_step; [|apply run_drops]; cbn [sh_cols sh_idx].
      * rewrite run_create_indexes; [reflexivity|..]; cbn [sh_cols sh_idx].
        -- apply NoDup_restored_idx.
        -- apply Forall_forall. intros b Hb. apply eq_None_not_Some. intros [sg (a & Ha & Hd & E & _)%kept_idx_Some].
           apply Hd. by apply (fresh_names b).
        -- apply Forall_forall. intros b [Hb _]%elem_of_restored_idx. apply Forall_forall. intros k Hk.
           change (is_Some (left_cols cols' !! k)). rewrite (left_cols_restored cols' Hm).
           apply (covered_before b k Hb), list_elem_of_fmap in Hk as (c & -> & Hc). exists (restored_col c).
           apply (lookup_keyed column_key restored_col); [apply before_ok|]. by exists c.
      * rewrite <- list_fmap_compose. apply (NoDup_keys_inj (before_key names)).
        -- apply NoDup_dropped.
        -- intros c1 c2 H1 H2. cbn [compose]. change (column_key c1 = column_key c2 -> before_key names c1 = before_key names c2).
           by rewrite !dropped_key.
      * apply Forall_forall. intros n Hn. apply (list_elem_of_fmap_2 ToLower) in Hn.
        apply dropped_names_are in Hn as [(c & Hc & E) _]. rewrite lookup_union_is_Some. right. exists (col_of c).
        apply (moved_Some cols'); [done|]. by exists c.
      * intros k sg n Hk Hn Hin. apply (list_elem_of_fmap_2 ToLower) in Hn. apply dropped_names_are in Hn as [_ Hn].
        apply kept_idx_Some in Hk as (a & Ha & Hd & _ & <-). destruct (matched_decided a Ha) as [?|(b & Hb & E)]; [done|].
        rewrite E in Hin. apply Hn. by apply (covered_before b).
    + rewrite <- list_fmap_compose. apply NoDup_restored.
    + apply Forall_fmap, Forall_forall. intros c Hc. cbn [compose fst sh_cols].
      apply eq_None_not_Some. intros [v (a & Ha & E & _)%(moved_Some cols')]; [|done].
      apply elem_of_restored in Hc as [_ Hc%current_None]. apply Hc. change (column_key c) with (ToLower (tc_Name c)).
      rewrite <- E. by apply list_elem_of_fmap_2.
  - rewrite <- list_fmap_compose. apply (NoDup_filter_fmap index_key), at_ok.
  - apply Forall_forall. intros n Hn. apply (list_elem_of_fmap_2 ToLower) in Hn. apply dropped_idx_keys in Hn as (a & Ha & <-).
    rewrite lookup_fmap. cbn [shape_of sh_idx].
    assert (idx_of (ts_Indexes at_) !! index_key a = Some (sig_of a)) as ->; [|by eexists].
    apply idx_of_Some; [apply at_ok|]. exists a. by apply elem_of_dropped_idx in Ha as [? _].
Qed.
End Down.

(** A restored index takes the name of one only when that one goes. *)
Definition restored_names_free (at_ before : TableSchema) (rs : list ColumnRename) : Prop :=
  Forall (fun b => Forall (fun a => index_key b = index_key a -> a ∈ dropped_indexes at_ before rs) (ts_Indexes at_))
    (restored_indexes at_ before rs).
#[export] Instance restored_names_free_dec at_ before rs : Decision (restored_names_free at_ before rs).
Proof. unfold restored_names_free. apply _. Defined.

Lemma derive_Ok objectName version d at_ before rs statements notices :
  deriveTableDown objectName version at_ (Some before) rs d = Ok (statements, notices) ->
  statements = down_statements objectName d at_ before rs /\
  notices = omap (not_nullable_notice version objectName) (restored_columns at_ before rs) /\
  forall c, c ∈ ts_Columns at_ ->
    underivable (current_columns (inverted rs) (ts_Columns at_)) (previous_columns (ts_Columns before))
      (before_key (inverted rs) c) = false.
Proof.
  cbn [deriveTableDown]. unfold derive_columns. destruct (existsb _ _) eqn:E; [done|].
  intros [= <- <-]. split_and!; [done|done|]. intros c Hc. apply not_true_iff_false. intros Hu.
  rewrite <- not_true_iff_false, existsb_exists in E. apply E. exists c. split; [by apply list_elem_of_In|done].
Qed.

(** C10. A derived rollback restores the snapshot.  For a step whose declared
    renames each go from a column it had to one it has, no two of one name and so
    none chained ([declared_renames]), and where no restored index takes the name
    of one that stays ([restored_names_free]), the statements
    [deriveTableDown] returns are the dialect's renderings of a sequence of
    changes that a database accepts one after the other from the table the step
    left; the table they leave has exactly the previous version's columns,
    renames inverted in place, with the types and nullability they had except
    that a restored column is nullable; it has exactly the previous version's
    index structures; and when no notice is sent the columns are the previous
    version's without exception.  The program does not test for chained renames:
    [chained_renames_do_not_roll_back] is what they do. *)
Theorem rollback_restores_the_snapshot objectName version d at_ before rs statements notices :
  schema_ok at_ -> schema_ok before -> declared_renames at_ before rs -> restored_names_free at_ before rs ->
  deriveTableDown objectName version at_ (Some before) rs d = Ok (statements, notices) ->
  st_SQL <$> statements = ddl_sql d objectName <$> down_ops at_ before rs /\
  exists final, run (down_ops at_ before rs) (shape_of at_) = Some final /\
    sh_cols final = restored_cols at_ before rs /\
    (notices = [] -> sh_cols final = sh_cols (shape_of before)) /\
    forall sg, structures (sh_idx final) sg <-> structures (sh_idx (shape_of before)) sg.
Proof.
  intros Ha Hb Hr Hf (-> & -> & Hu)%derive_Ok. split; [apply down_sql|].
  assert (Hfresh : forall b a, b ∈ restored_indexes at_ before rs -> a ∈ ts_Indexes at_ ->
            index_key b = index_key a -> a ∈ dropped_indexes at_ before rs).
  { intros b a Hb' Ha'. by apply (proj1 (Forall_forall _ _) (proj1 (Forall_forall _ _) Hf b Hb')). }
  destruct (down_run at_ before rs Ha Hb Hr Hu Hfresh) as (cols' & Hm & Hrun).
  eexists. split; [exact Hrun|]. cbn [sh_cols sh_idx].
  rewrite (left_cols_restored at_ before rs Ha Hb Hr Hu cols' Hm). split_and!; [done| |].
  - intros Hn. unfold restored_cols, shape_of, cols_of. cbn [sh_cols]. f_equal.
    apply list_fmap_ext. intros i c Hc. f_equal. unfold restored_col, col_of. f_equal.
    destruct (decide (c ∈ restored_columns at_ before rs)) as [Hin|Hin].
    + rewrite bool_decide_true, orb_true_r by done.
      assert (H : not_nullable_notice version objectName c = None).
      { destruct (not_nullable_notice version objectName c) eqn:E; [|done].
        exfalso. apply (not_elem_of_nil s). rewrite <- Hn. apply list_elem_of_omap. by exists c. }
      unfold not_nullable_notice in H. by destruct (tc_Nullable c).
    + by rewrite bool_decide_false, orb_false_r.
  - intros sg. rewrite (left_structures at_ before rs Ha Hb Hr Hfresh). cbn [shape_of sh_idx].
    rewrite structures_of by apply Hb. reflexivity.
Qed.

(** Version 2 of a table renamed a column, dropped one with its index, added
    one with an index, and renamed an indexed one. *)
Definition orders_v1 : TableSchema :=
  mkTableSchema "orders" "" [mkTableColumn "id" "INTEGER" false true true; mkTableColumn "buyer" "TEXT" false false false;
                             mkTableColumn "note" "TEXT" false false false]
    [mkTableIndex "ix_buyer" [mkIndexPart "buyer" false] false; mkTableIndex "ix_note" [mkIndexPart "Note" true] true].
Definition orders_v2 : TableSchema :=
  mkTableSchema "orders" "" [mkTableColumn "Id" "integer" false true true; mkTableColumn "customer" "TEXT" false false false;
                             mkTableColumn "total" "TEXT" true false false]
    [mkTableIndex "ix_customer" [mkIndexPart "customer" false] false; mkTableIndex "ix_note" [mkIndexPart "total" false] false].

Lemma rollback_restores_the_snapshot_witness :
  exists statements, deriveTableDown "orders" 2 orders_v2 (Some orders_v1) [mkRename "buyer" "customer"] Sqlite.dialect
    = Ok (statements, ["V0002 orders.note: restored nullable — the NOT NULL constraint (and the data) are not derivable"]) /\
  st_SQL <$> statements =
    ["alter table orders rename column customer to buyer"; "drop index ix_note"; "alter table orders add column note TEXT";
     "alter table orders drop column total"; "create unique index if not exists ix_note on orders (Note desc)"] /\
  exists final, run (down_ops orders_v2 orders_v1 [mkRename "buyer" "customer"]) (shape_of orders_v2) = Some final /\
    forall sg, structures (sh_idx final) sg <-> structures (sh_idx (shape_of orders_v1)) sg.
Proof.
  eexists. split; [vm_compute; reflexivity|]. split; [vm_compute; reflexivity|].
  edestruct (rollback_restores_the_snapshot "orders" 2 Sqlite.dialect orders_v2 orders_v1 [mkRename "buyer" "customer"])
    as (_ & final & Hrun & _ & _ & Hs).
  - split; apply (bool_decide_unpack _); vm_compute; reflexivity.
  - split; apply (bool_decide_unpack _); vm_compute; reflexivity.
  - split; apply (bool_decide_unpack _); vm_compute; reflexivity.
  - apply (bool_decide_unpack _); vm_compute; reflexivity.
  - vm_compute. reflexivity.
  - exists final. split; [exact Hrun|exact Hs].
Defined.

(** The derived rollback of a table is refused exactly when it has to be:
    with MIG-020, and only when a column that stayed, renamed or not, changed
    its type or its nullability at this version. *)
Theorem rollback_refused_exactly objectName version d at_ before rs e :
  schema_ok at_ -> schema_ok before -> declared_renames at_ before rs ->
  deriveTableDown objectName version at_ (Some before) rs d = Fail e <->
  e = NewError "MIG-020" (V4 version +:+ " " +:+ objectName) /\
  exists c b, c ∈ ts_Columns at_ /\ b ∈ ts_Columns before /\
    rename_key (inverted rs) (column_key c) = column_key b /\ col_of c <> col_of b.
Proof.
  intros Ha Hb Hr. cbn [deriveTableDown]. unfold derive_columns.
  assert (Hiff : existsb (fun c => underivable (current_columns (inverted rs) (ts_Columns at_)) (previous_columns (ts_Columns before))
                                     (before_key (inverted rs) c)) (ts_Columns at_) = true
          <-> exists c b, c ∈ ts_Columns at_ /\ b ∈ ts_Columns before /\
                rename_key (inverted rs) (column_key c) = column_key b /\ col_of c <> col_of b).
  { rewrite existsb_exists. split.
    - intros (c & Hc%list_elem_of_In & Hu). destruct (previous_columns (ts_Columns before) !! before_key (inverted rs) c) as [nb|] eqn:E.
      + apply (previous_Some before Hb) in E as (b & Hin & Ek & _). exists c, b. rewrite <- before_key_rename.
        split_and!; [done|done|done|]. intros Hsame.
        apply (underivable_column at_ before rs Ha Hb Hr c b Hc Hin (eq_sym Ek)) in Hsame. congruence.
      + unfold underivable in Hu. rewrite E in Hu. by destruct (current_columns _ _ !! _).
    - intros (c & b & Hc & Hin & Ek & Hne). exists c. split; [by apply list_elem_of_In|]. rewrite <- before_key_rename in Ek.
      apply not_false_iff_true. intros E. apply Hne. by apply (underivable_column at_ before rs Ha Hb Hr c b Hc Hin Ek). }
  destruct (existsb _ _) eqn:E.
  - split; [intros [= <-]; split; [done|by apply Hiff]|by intros [-> _]].
  - split; [done|]. intros [_ H%Hiff]. congruence.
Qed.

Lemma rollback_refused_exactly_witness :
  schema_ok orders_v1 /\
  deriveTableDown "orders" 3 orders_v2 (Some (mkTableSchema "orders" "" [mkTableColumn "ID" "TEXT" false true false] []))
    [] Sqlite.dialect = Fail (NewError "MIG-020" "V0003 orders").
Proof.
  split; [split; apply (bool_decide_unpack _); vm_compute; reflexivity|].
  apply rollback_refused_exactly; [split; apply (bool_decide_unpack _); vm_compute; reflexivity..|].
  split; [reflexivity|]. exists (mkTableColumn "Id" "integer" false true true), (mkTableColumn "ID" "TEXT" false true false).
  split_and!; [by left|by left|vm_compute; reflexivity|]. vm_compute. discriminate.
Defined.

(** ** Renames that chain

    A step may rename a column twice.  [nameAtToBefore] follows one of the two
    renames only, so the rollback restores a column that its own renames have
    already brought back. *)
Definition chain_v1 : TableSchema := mkTableSchema "t" "" [mkTableColumn "a" "TEXT" true false false] [].
Definition chain_v2 : TableSchema := mkTableSchema "t" "" [mkTableColumn "c" "TEXT" true false false] [].

Theorem chained_renames_do_not_roll_back :
  let rs := [mkRename "a" "b"; mkRename "b" "c"] in
  run ((fun r => RenameCol (cr_From r) (cr_To r)) <$> rs) (shape_of chain_v1) = Some (shape_of chain_v2) /\
  match deriveTableDown "t" 2 chain_v2 (Some chain_v1) rs Sqlite.dialect with
  | Ok derived => st_SQL <$> derived.1
  | Fail _ => []
  end = ["alter table t rename column c to b"; "alter table t rename column b to a";
          "alter table t add column a TEXT"; "alter table t drop column c"] /\
  run (down_ops chain_v2 chain_v1 rs) (shape_of chain_v2) = None.
Proof. vm_compute. repeat split. Qed.
