(* ===== verification/RunnerLaws.v ===== *)
(** The migration runner against its history: what a run that commits leaves
    recorded, what it refuses, and how [Migrate] and [MigrateDown] undo each
    other. *)
From S2P Require Import Prelude GoStrings Core Triggers Dialect SchemaSnapshot SchemaDiff MigrationSteps DownDerive MigrationRunner.
From S2P Require Sqlite.

(** ** The history of a list of rows *)

Definition row_key (r : version_row) : recordedKey := (vr_version r, vr_object r).
Definition recorded_of (r : version_row) : recordedRow := mkRecordedRow (vr_description r) (vr_checksum r).

Lemma history_versions rows v : v ∈ rh_versions (history_of rows) <-> v ∈ vr_version <$> rows.
Proof.
  unfold history_of. assert (H : forall h, v ∈ rh_versions (fold_left record_row rows h) <->
    v ∈ rh_versions h \/ v ∈ vr_version <$> rows).
  { induction rows as [|r rows IH]; intros h; cbn [fold_left fmap list_fmap]; [set_solver|].
    rewrite IH. cbn [record_row rh_versions]. set_solver. }
  rewrite H. cbn. set_solver.
Qed.

Lemma history_lookup rows k row : NoDup (row_key <$> rows) ->
  rh_rows (history_of rows) !! k = Some row <-> exists r, r ∈ rows /\ row_key r = k /\ recorded_of r = row.
Proof.
  unfold history_of. assert (H : forall h, NoDup (row_key <$> rows) -> rh_rows (fold_left record_row rows h) !! k = Some row <->
    (exists r, r ∈ rows /\ row_key r = k /\ recorded_of r = row) \/ (k ∉ row_key <$> rows) /\ rh_rows h !! k = Some row).
  { induction rows as [|r rows IH]; intros h Hd; cbn [fold_left fmap list_fmap].
    { split; [|by intros [(? & ?%not_elem_of_nil & _)|[_ ?]]]. intros ?. right. split; [apply not_elem_of_nil|done]. }
    cbn [fmap list_fmap] in Hd. apply NoDup_cons in Hd as [Hr Hd]. rewrite IH by done.
    cbn [record_row rh_rows]. change (vr_version r, vr_object r) with (row_key r). rewrite lookup_insert_Some.
    change (mkRecordedRow (vr_description r) (vr_checksum r)) with (recorded_of r).
    rewrite not_elem_of_cons. setoid_rewrite elem_of_cons. split.
    - intros [(x & Hx & ?)|[Hk [[<- <-]|[Hne ?]]]]; [left; exists x; tauto|left; by exists r; auto|].
      right. split; [|done]. by split.
    - intros [(x & [->|Hx] & <- & <-)|[[Hne Hk] ?]]; [|left; by exists x|].
      + right. split; [done|]. by left.
      + right. split; [done|]. right. done. }
  intros Hd. rewrite H by done. cbn [emptyHistory rh_rows]. rewrite lookup_empty.
  split; [by intros [?|[_ ?]]|by left].
Qed.

(** ** Laws of the driver *)

Section Laws.
Context {DB : Type} (engine : Engine DB) (rows : DB -> list version_row).

(** What the statements over [schema_version] do: the select reads its rows,
    the insert adds one, the delete takes a version's away, and the primary
    key holds. *)
Record history_laws : Prop := {
  hl_select : forall db, SelectHistory engine db = (db, Ok (rows db));
  hl_exists : forall db, exists b, VersionTableExists engine db = (db, Ok b) /\ (b = false -> rows db = []);
  hl_insert : forall r at_ ms db db', InsertVersionRow engine r at_ ms db = (db', Ok tt) -> rows db' = rows db ++ [r];
  hl_delete : forall v db db', DeleteVersionRows engine v db = (db', Ok tt) ->
    rows db' = List.filter (fun r => negb (vr_version r =? v)%Z) (rows db);
  hl_unique : forall db, NoDup (row_key <$> rows db);
  hl_view : forall view db, rows (ReadViewDefinition engine view db).1 = rows db;
  hl_trigger : forall name db, rows (ReadTriggerDefinitions engine name db).1 = rows db }.

(** A statement that leaves the recorded history alone, even when it fails. *)
Definition quiet (sql : string) : Prop := forall db, rows (Exec engine sql db).1 = rows db.

Context (dialect : Dialect) (clock : Z -> RenderedStep -> string * Z) (probeSuffix : string).
Hypothesis laws : history_laws.

(** The library's own statements beside the history's. *)
Record library_quiet : Prop := {
  lq_table : quiet (VersionTableSQL dialect);
  lq_savepoint : quiet ("savepoint " +:+ savepoint);
  lq_rollback : quiet ("rollback to savepoint " +:+ savepoint);
  lq_release : quiet ("release savepoint " +:+ savepoint);
  lq_create : forall body, quiet (CreateViewFromBodySQL dialect ("simpleorm_expect_" +:+ probeSuffix) body false);
  lq_drop : quiet (DropViewSQL dialect ("simpleorm_expect_" +:+ probeSuffix) false) }.
Hypothesis quiet_library : library_quiet.

Definition quiet_statements (l : list MigrationStatement) : Prop := forall st, st ∈ l -> quiet (st_SQL st).

Let same (R : list version_row) (db : DB) : Prop := rows db = R.
Let run_same (R : list version_row) (s : run (DB := DB)) : Prop := rows (run_db s) = R.

Lemma quiet_preserves R sql : quiet sql -> preserves (same R) (Exec engine sql).
Proof. intros H db Hdb. unfold same in *. by rewrite H. Qed.

Lemma preserves_attempt {S A} (P : S -> Prop) (m : SM S A) : preserves P m -> preserves P (attempt m).
Proof. intros H s Hs. unfold attempt. specialize (H s Hs). by destruct (m s). Qed.
Lemma preserves_refail {S A} (P : S -> Prop) e (m : SM S A) : preserves P m -> preserves P (refail e m).
Proof. intros H s Hs. unfold refail. specialize (H s Hs). by destruct (m s) as [s' [a|e']]. Qed.
Lemma preserves_on_db {A} R (m : SM DB A) : preserves (same R) m -> preserves (run_same R) (on_db m).
Proof. intros H s Hs. unfold on_db. specialize (H (run_db s) Hs). by destruct (m (run_db s)). Qed.
Lemma preserves_notify R message : preserves (run_same R) (notify message).
Proof. by apply preserves_modify. Qed.

Lemma view_match_preserves R st : preserves (same R) (viewMatchesExpectation engine dialect probeSuffix st).
Proof.
  destruct quiet_library as [_ Hs Hr Hl Hc Hd].
  unfold viewMatchesExpectation. apply sbind_preserves.
  { intros db Hdb. unfold same in *. by rewrite (hl_view laws). }
  intros [text|]; [|apply preserves_ret]. destruct (ViewDefinitionIsVerbatim dialect); [apply preserves_ret|].
  destruct (ViewParts (st_SQL st)) as [[[name body] m]|]; [|apply preserves_ret].
  apply sbind_preserves; [by apply quiet_preserves|]. intros _. apply sbind_preserves.
  - unfold probe_view. apply sbind_preserves; [by apply preserves_attempt, quiet_preserves|].
    intros [?|?]; [|apply preserves_ret]. apply sbind_preserves.
    + apply preserves_attempt. intros db Hdb. unfold same in *. by rewrite (hl_view laws).
    + intros [expected|?]; [|apply preserves_ret]. apply sbind_preserves; [by apply preserves_attempt, quiet_preserves|].
      intros ?. apply preserves_ret.
  - intros [expected|].
    + apply sbind_preserves; [by apply quiet_preserves|]. intros _. apply preserves_ret.
    + unfold roll_back_probe. apply sbind_preserves; [|intros _; apply preserves_ret].
      apply sbind_preserves; [by apply preserves_attempt, quiet_preserves|]. intros _.
      apply sbind_preserves; [by apply preserves_attempt, quiet_preserves|]. intros _. apply preserves_ret.
Qed.

Lemma drift_preserves R target drift options : preserves (run_same R) (drift_found target drift options).
Proof. unfold drift_found. destruct (AllowViewDrift options); [apply preserves_notify|apply preserves_throw]. Qed.

Lemma applyStatement_preserves R version options st : quiet (st_SQL st) ->
  preserves (run_same R) (applyStatement engine dialect probeSuffix version options st).
Proof.
  intros Hq. unfold applyStatement. destruct (decide _).
  - unfold applyTriggerGuard. apply sbind_preserves.
    + apply preserves_on_db. intros db Hdb. unfold same in *. by rewrite (hl_trigger laws).
    + intros live. destruct (TriggerStatementsMatch _ _); [apply preserves_ret|apply drift_preserves].
  - destruct (decide _).
    + apply preserves_on_db, preserves_refail, quiet_preserves, Hq.
    + unfold applyViewGuard. apply sbind_preserves; [apply preserves_on_db, view_match_preserves|].
      intros [live []]; cbn [fst snd]; [apply preserves_ret|apply drift_preserves].
Qed.

Lemma statements_preserve R version options l : quiet_statements l ->
  preserves (run_same R) (forS (applyStatement engine dialect probeSuffix version options) l).
Proof. intros H. apply forS_preserves. intros st Hst. by apply applyStatement_preserves, H. Qed.

(** A loop whose turns each add rows adds them all. *)
Lemma forS_appends {A} (f : A -> SM (run (DB := DB)) unit) (added : A -> list version_row) l s s' :
  (forall x s1 s2, x ∈ l -> f x s1 = (s2, Ok tt) -> rows (run_db s2) = rows (run_db s1) ++ added x) ->
  forS f l s = (s', Ok tt) -> rows (run_db s') = rows (run_db s) ++ mbind added l.
Proof.
  revert s. induction l as [|x l IH]; intros s Hf H.
  { injection H as <-. cbn. by rewrite app_nil_r. }
  cbn [forS] in H. apply sbind_Ok in H as (s1 & [] & H1 & H). rewrite bind_cons, app_assoc.
  rewrite <- (Hf x s s1) by (by left || done). apply IH; [|done]. intros y s2 s3 Hy. apply Hf. by right.
Qed.

Lemma record_appends version step ms s s' :
  on_db (record engine clock version step ms) s = (s', Ok tt) ->
  rows (run_db s') = rows (run_db s) ++ [row_of version step].
Proof.
  unfold on_db, record. destruct (InsertVersionRow _ _ _ _ _) as [db [[]|e]] eqn:E; [|done].
  intros [= <-]. cbn [run_db]. by apply (hl_insert laws) in E.
Qed.

Definition version_rows (v : RenderedVersion) : list version_row := row_of (rv_Version v) <$> rv_Steps v.

Lemma bind_singletons {A B} (f : A -> B) l : mbind (fun x => [f x]) l = f <$> l.
Proof. induction l as [|x l IH]; [done|]. rewrite bind_cons, IH. done. Qed.

Lemma apply_version_appends options v s s' :
  (forall step, step ∈ rv_Steps v -> quiet_statements (rs_Up step)) ->
  apply_version engine dialect clock probeSuffix options v s = (s', Ok tt) ->
  rows (run_db s') = rows (run_db s) ++ version_rows v.
Proof.
  intros Hq H. unfold version_rows. rewrite <- bind_singletons. revert H. apply forS_appends.
  intros step s1 s2 Hstep H. unfold apply_step in H. apply sbind_Ok in H as (s3 & [] & H1 & H2).
  apply record_appends in H2. rewrite H2. f_equal.
  pose proof (statements_preserve (rows (run_db s1)) (rv_Version v) options (rs_Up step) (Hq step Hstep) s1 eq_refl) as Hp.
  by rewrite H1 in Hp.
Qed.

(** ** Reading the history *)

Lemma recorded_now_Ok s s' recorded : recorded_now engine dialect s = (s', Ok recorded) ->
  recorded = history_of (rows (run_db s)) /\ rows (run_db s') = rows (run_db s).
Proof.
  unfold recorded_now, on_db. destruct ((_ ;! _) (run_db s)) as [db r] eqn:E. intros [= <- ->]. cbn [run_db].
  apply sbind_Ok in E as (db1 & [] & E1 & E2). unfold readRecorded in E2.
  apply sbind_Ok in E2 as (db2 & l & E2 & E3). rewrite (hl_select laws) in E2. injection E2 as <- <-.
  injection E3 as <- <-.
  pose proof (preserves_refail _ (NewError "MIG-021" "migration statement") _
                (quiet_preserves (rows (run_db s)) _ (lq_table quiet_library)) (run_db s) eq_refl) as Hp.
  unfold ensureVersionTable, execute in E1. rewrite E1 in Hp. cbn [fst] in Hp. unfold same in Hp. by rewrite Hp.
Qed.

Lemma in_run_Ok {A} (body : SM (run (DB := DB)) A) s s' a :
  in_run engine body s = (s', Ok a) -> body s = (s', Ok a).
Proof.
  unfold in_run. destruct (BeginMigrationRunLock _ _); [|done]. destruct (body s) as [s1 [a1|e]]; [|done].
  destruct (Commit _ _); [|done]. by intros [= <- <-].
Qed.

Lemma slift_Ok {S A} (r : result A) (s s' : S) a : slift r s = (s', Ok a) -> r = Ok a /\ s' = s.
Proof. unfold slift. by intros [= <- ->]. Qed.

(** A run that fails takes nothing with it but the notices it sent. *)
Lemma in_run_Fail {A} (body : SM (run (DB := DB)) A) s s' e :
  in_run engine body s = (s', Fail e) -> run_db s' = run_db s.
Proof.
  unfold in_run. destruct (BeginMigrationRunLock _ _); [|by intros [= <- _]]. destruct (body s) as [s1 [a1|e1]]; [|by intros [= <- _]].
  destruct (Commit _ _); [done|]. by intros [= <- _].
Qed.

(** ** What [Migrate] leaves recorded *)

Lemma elem_of_pending recorded plan v : v ∈ pending_versions recorded plan <->
  v ∈ plan /\ rv_Version v ∉ rh_versions recorded.
Proof.
  unfold pending_versions. by rewrite list_elem_of_In, filter_In, <- list_elem_of_In, negb_true_iff, bool_decide_eq_false.
Qed.

Definition plan_quiet (plan : list RenderedVersion) : Prop :=
  forall v step, v ∈ plan -> step ∈ rv_Steps v -> quiet_statements (rs_Up step).

Lemma Migrate_Ok plan options s s' n : plan_quiet plan ->
  Migrate engine dialect clock probeSuffix (Ok plan) options s = (s', Ok n) ->
  let recorded := history_of (rows (run_db s)) in
  validateHistory plan recorded = Ok tt /\
  refusePendingDrafts plan recorded (fun _ => true) = Ok tt /\
  n = length (pending_versions recorded plan) /\
  rows (run_db s') = rows (run_db s) ++ mbind version_rows (pending_versions recorded plan).
Proof.
  intros Hq H recorded. unfold Migrate in H. apply sbind_Ok in H as (s0 & p & H0 & H).
  apply slift_Ok in H0 as [[= <-] ->]. apply in_run_Ok in H.
  apply sbind_Ok in H as (s1 & h & H1 & H). apply recorded_now_Ok in H1 as [-> H1]. fold recorded in H.
  apply sbind_Ok in H as (s2 & [] & H2 & H). apply slift_Ok in H2 as [Hv ->].
  apply sbind_Ok in H as (s3 & [] & H3 & H). apply slift_Ok in H3 as [Hd ->].
  apply sbind_Ok in H as (s4 & [] & H4 & H). injection H as <- <-.
  split_and!; [done|done|done|]. rewrite <- H1. revert H4. apply forS_appends.
  intros v t1 t2 [Hv' _]%elem_of_pending H4. eapply apply_version_appends; [|exact H4]. intros step. by apply Hq.
Qed.

(** ** Validation *)

Lemma mapR_unit {A} (f : A -> result unit) l :
  (let* _ := mapR f l in Ok tt) = Ok tt <-> forall a, a ∈ l -> f a = Ok tt.
Proof.
  split.
  - intros H a Ha. apply bind_Ok in H as (us & H & _). apply mapR_Ok in H.
    apply list_elem_of_lookup in Ha as [i Ha]. destruct (Forall2_lookup_l _ _ _ _ _ H Ha) as ([] & _ & E). exact E.
  - intros H. destruct (mapR_total f l) as [us ->]; [|done]. intros a Ha. exists tt. by apply H.
Qed.

Lemma state_Drifted R v step : NoDup (row_key <$> R) ->
  state_of (history_of R) v step = Drifted <->
  rv_Version v ∈ vr_version <$> R /\
  forall r, r ∈ R -> row_key r = (rv_Version v, rs_ObjectName step) -> vr_checksum r <> computeChecksum (rs_Up step).
Proof.
  intros Hd. unfold state_of. destruct (rh_rows (history_of R) !! _) as [row|] eqn:E.
  - apply (history_lookup R) in E as (r & Hr & Hk & <-); [|done]. cbn [recorded_of rr_Checksum]. split.
    + destruct (decide _) as [|Hne]; [done|]. intros _. split.
      * injection Hk as <- _. by apply list_elem_of_fmap_2.
      * intros r' Hr' Hk'. by rewrite (keyed_inj row_key R r' r Hd Hr' Hr (eq_trans Hk' (eq_sym Hk))).
    + intros [_ H]. by rewrite decide_False by by apply H.
  - assert (Hn : forall r, r ∈ R -> row_key r <> (rv_Version v, rs_ObjectName step)).
    { intros r Hr Hk. assert (rh_rows (history_of R) !! (rv_Version v, rs_ObjectName step) = Some (recorded_of r)); [|congruence].
      apply history_lookup; [done|]. by exists r. }
    destruct (decide (rv_Version v ∈ rh_versions (history_of R))) as [Hv|Hv].
    + split; [|done]. intros _. split; [by apply history_versions|]. intros r Hr Hk. by apply Hn in Hk.
    + split; [by destruct (rv_Draft v)|]. intros [Hv' _]. by apply history_versions in Hv'.
Qed.

Lemma state_Applied R v step : NoDup (row_key <$> R) ->
  state_of (history_of R) v step = Applied <->
  exists r, r ∈ R /\ row_key r = (rv_Version v, rs_ObjectName step) /\ vr_checksum r = computeChecksum (rs_Up step).
Proof.
  intros Hd. unfold state_of. destruct (rh_rows (history_of R) !! _) as [row|] eqn:E.
  - apply (history_lookup R) in E as (r & Hr & Hk & <-); [|done]. cbn [recorded_of rr_Checksum]. split.
    + destruct (decide _) as [He|]; [|done]. intros _. by exists r.
    + intros (r' & Hr' & Hk' & He). rewrite (keyed_inj row_key R r r' Hd Hr Hr' (eq_trans Hk (eq_sym Hk'))). by rewrite decide_True.
  - split; [destruct (decide _); [done|by destruct (rv_Draft v)]|]. intros (r & Hr & Hk & _).
    assert (rh_rows (history_of R) !! (rv_Version v, rs_ObjectName step) = Some (recorded_of r)); [|congruence].
    apply history_lookup; [done|]. by exists r.
Qed.
End Laws.

Lemma validateHistory_Ok plan R : NoDup (row_key <$> R) ->
  validateHistory plan (history_of R) = Ok tt <->
  (forall v step, v ∈ plan -> step ∈ rv_Steps v -> state_of (history_of R) v step <> Drifted) /\
  (forall r, r ∈ R -> vr_version r ∈ rv_Version <$> plan).
Proof.
  intros Hd.
  unfold validateHistory. rewrite bind_Ok. split.
  + intros (us & Hv & Hk). apply mapR_Ok in Hv. rewrite mapR_unit in Hk. split.
    * intros v step Hin Hs. apply list_elem_of_lookup in Hin as [i Hi].
      destruct (Forall2_lookup_l _ _ _ _ _ Hv Hi) as ([] & _ & E). unfold validate_version in E.
      rewrite state_Drifted by done. intros [Hr Hne]. rewrite decide_True in E by by apply history_versions.
      rewrite mapR_unit in E. specialize (E step Hs). unfold validate_step in E.
      destruct (rh_rows (history_of R) !! _) as [row|] eqn:El; [|done].
      apply (history_lookup R) in El as (r & Hin & Hk' & <-); [|done]. cbn [recorded_of rr_Checksum] in E.
      destruct (decide _) as [He|]; [|done]. by apply (Hne r).
    * intros r Hr. assert (Hin : row_key r ∈ merge_sort key_le (map_to_list (rh_rows (history_of R))).*1).
      { rewrite merge_sort_Permutation. apply list_elem_of_fmap. exists (row_key r, recorded_of r). split; [done|].
        apply elem_of_map_to_list, history_lookup; [done|]. by exists r. }
      specialize (Hk _ Hin). unfold known_key in Hk. by destruct (decide _).
  + intros [Hs Hr]. destruct (mapR_total (validate_version (history_of R)) plan) as [us Hus].
    { intros v Hv. exists tt. unfold validate_version. destruct (decide _) as [Hin|]; [|done]. apply mapR_unit.
      intros step Hstep. unfold validate_step. specialize (Hs v step Hv Hstep). unfold state_of in Hs.
      destruct (rh_rows (history_of R) !! _) as [row|].
      - by destruct (decide (rr_Checksum row = computeChecksum (rs_Up step))).
      - by rewrite decide_True in Hs. }
    exists us. split; [done|]. apply mapR_unit. intros k Hk. rewrite merge_sort_Permutation in Hk.
    apply list_elem_of_fmap in Hk as ([k' row] & -> & Hk). apply elem_of_map_to_list, history_lookup in Hk as (r & Hin & <- & _); [|done].
    unfold known_key. by rewrite decide_True by by apply Hr.
Qed.

Lemma validateHistory_Fail plan recorded e : validateHistory plan recorded = Fail e ->
  Code e = "MIG-010" \/ Code e = "MIG-011".
Proof.
  intros H. unfold validateHistory in H. apply bind_Fail in H as [H|(us & _ & H)].
  + apply mapR_Fail in H as (v & _ & H). unfold validate_version in H. destruct (decide _); [|done].
    apply bind_Fail in H as [H|(? & _ & ?)]; [|done]. apply mapR_Fail in H as (step & _ & H). unfold validate_step in H.
    left. destruct (_ !! _); [destruct (decide _); [done|]|]; by injection H as <-.
  + apply bind_Fail in H as [H|(? & _ & ?)]; [|done]. apply mapR_Fail in H as (k & _ & H). unfold known_key in H.
    right. destruct (decide _); [done|]. by injection H as <-.
Qed.

(** C14. What [Migrate] refuses is what [Status] shows: the history validates
    exactly when [Status] would report no planned step as Drifted and every
    recorded row is of a version the code has; a run over any other history
    fails with MIG-010 or MIG-011 before anything is applied. *)
Theorem validation_is_what_status_shows plan R : NoDup (row_key <$> R) ->
  (validateHistory plan (history_of R) = Ok tt <->
   (forall v step, v ∈ plan -> step ∈ rv_Steps v -> state_of (history_of R) v step <> Drifted) /\
   (forall r, r ∈ R -> vr_version r ∈ rv_Version <$> plan)) /\
  (forall e, validateHistory plan (history_of R) = Fail e -> Code e = "MIG-010" \/ Code e = "MIG-011").
Proof. intros Hd. split; [by apply validateHistory_Ok|apply validateHistory_Fail]. Qed.

Lemma validation_is_what_status_shows_witness :
  let step := mkRenderedStep 1 "customers" "create" [mkStatement "create table customers (Id integer)" "step" "" "" []]
                (mkDownPlan [] [] []) [] None false in
  let plan := [mkRenderedVersion 1 false [step]] in
  let edited := mkVersionRow 1 "customers" "create" "0" in
  state_of (history_of [edited]) (mkRenderedVersion 1 false [step]) step = Drifted /\
  validateHistory plan (history_of [row_of 1 step]) = Ok tt /\
  validateHistory plan (history_of [edited]) <> Ok tt.
Proof.
  intros step plan edited.
  assert (Hd : state_of (history_of [edited]) (mkRenderedVersion 1 false [step]) step = Drifted) by (vm_compute; reflexivity).
  split; [exact Hd|]. split.
  - apply (validation_is_what_status_shows plan [row_of 1 step]); [apply NoDup_singleton|]. split.
    + intros v s Hv Hs. apply list_elem_of_singleton in Hv as ->. apply list_elem_of_singleton in Hs as ->.
      vm_compute. discriminate.
    + intros r Hr. apply list_elem_of_singleton in Hr as ->. by left.
  - intros H. apply (validation_is_what_status_shows plan [edited]) in H as [H _]; [|apply NoDup_singleton].
    exact (H (mkRenderedVersion 1 false [step]) step (list_elem_of_here _ _) (list_elem_of_here _ _) Hd).
Defined.
