(* ===== verification/RunnerRuns.v ===== *)
(** What runs of the migration runner do: a migration that commits leaves
    nothing pending, one whose statements are accepted completes, and a
    rollback to a version leaves exactly the history up to it. *)
From S2P Require Import Prelude GoStrings Core Triggers Dialect SchemaSnapshot SchemaDiff MigrationSteps DownDerive MigrationRunner RunnerLaws.
From S2P Require Sqlite.

(** ** The versions of a history *)

Lemma version_rows_version v r : r ∈ version_rows v -> vr_version r = rv_Version v.
Proof. unfold version_rows. by intros (step & -> & _)%list_elem_of_fmap. Qed.

Lemma planned_version r l : r ∈ mbind version_rows l -> vr_version r ∈ rv_Version <$> l.
Proof.
  intros (v & Hr & Hv)%list_elem_of_bind. rewrite (version_rows_version v r Hr). by apply list_elem_of_fmap_2.
Qed.

Lemma versions_after R l v : v ∈ rh_versions (history_of (R ++ mbind version_rows l)) <->
  v ∈ rh_versions (history_of R) \/ exists w, w ∈ l /\ rv_Version w = v /\ rv_Steps w <> [].
Proof.
  rewrite !history_versions, fmap_app, elem_of_app. apply or_iff_compat_l. rewrite list_elem_of_fmap. split.
  - intros (r & -> & (w & Hr & Hw)%list_elem_of_bind). exists w. split; [done|].
    split; [by rewrite (version_rows_version w r Hr)|]. intros E. unfold version_rows in Hr. rewrite E in Hr.
    by apply not_elem_of_nil in Hr.
  - intros (w & Hw & <- & Hs). destruct (rv_Steps w) as [|step steps] eqn:E; [done|].
    exists (row_of (rv_Version w) step). split; [done|]. apply list_elem_of_bind. exists w. split; [|done].
    unfold version_rows. rewrite E. by left.
Qed.

Lemma filter_filter_and {A} (f g : A -> bool) l :
  List.filter f (List.filter g l) = List.filter (fun x => g x && f x) l.
Proof. induction l as [|x l IH]; [done|]. cbn [List.filter]. destruct (g x); cbn [List.filter andb]; [destruct (f x)|]; by rewrite IH. Qed.

Lemma filter_ext_in_iff {A} (f g : A -> bool) l : (forall x, In x l -> f x = true <-> g x = true) ->
  List.filter f l = List.filter g l.
Proof.
  intros H. apply filter_ext_in. intros x Hx. specialize (H x Hx). destruct (f x), (g x); try done; tauto || (symmetry; tauto).
Qed.

Lemma filter_nil_iff {A} (f : A -> bool) l : (forall x, In x l -> f x = false) -> List.filter f l = [].
Proof. induction l as [|x l IH]; intros H; [done|]. cbn [List.filter]. rewrite H by by left. apply IH. intros y Hy. apply H. by right. Qed.

Section Runs.
Context {DB : Type} (engine : Engine DB) (rows : DB -> list version_row).
Context (dialect : Dialect) (clock : Z -> RenderedStep -> string * Z) (probeSuffix : string).
Hypothesis laws : history_laws engine rows.
Hypothesis quiet_library : library_quiet engine rows dialect probeSuffix.

(** ** After a migration *)

(** Once a valid history has the pending versions' rows, every planned step is
    recorded with its checksum. *)
Lemma all_applied plan R v step : NoDup (row_key <$> R) ->
  let R' := R ++ mbind version_rows (pending_versions (history_of R) plan) in NoDup (row_key <$> R') ->
  validateHistory plan (history_of R) = Ok tt -> v ∈ plan -> step ∈ rv_Steps v ->
  state_of (history_of R') v step = Applied.
Proof.
  intros Hd R' Hd' Hv Hin Hs. apply state_Applied; [done|].
  destruct (decide (rv_Version v ∈ rh_versions (history_of R))) as [Hr|Hr].
  - apply validateHistory_Ok in Hv as [Hv _]; [|done]. specialize (Hv v step Hin Hs).
    destruct (state_of (history_of R) v step) eqn:E.
    1, 4, 5: exfalso; revert E; unfold state_of; destruct (_ !! _); [by destruct (decide _)|by rewrite decide_True].
    + apply state_Applied in E as (r & Hr' & Hk & Hc); [|done]. exists r. split; [|done]. apply elem_of_app. by left.
    + done.
  - exists (row_of (rv_Version v) step). split; [|done]. apply elem_of_app. right. apply list_elem_of_bind.
    exists v. split; [by apply list_elem_of_fmap_2|by apply elem_of_pending].
Qed.

Lemma valid_after plan R :
  let R' := R ++ mbind version_rows (pending_versions (history_of R) plan) in
  NoDup (row_key <$> R) -> NoDup (row_key <$> R') ->
  validateHistory plan (history_of R) = Ok tt -> validateHistory plan (history_of R') = Ok tt.
Proof.
  intros R' Hd Hd' Hv. apply validateHistory_Ok; [done|]. split.
  - intros v step Hin Hs. by rewrite (all_applied plan R).
  - intros r [Hr|Hr]%elem_of_app; [by apply (validateHistory_Ok plan R)|].
    apply planned_version in Hr. rewrite list_elem_of_fmap in *. destruct Hr as (v & -> & [Hr _]%elem_of_pending). by exists v.
Qed.

(** The versions still pending then are those composing no step. *)
Lemma pending_after plan R : NoDup (rv_Version <$> plan) ->
  pending_versions (history_of (R ++ mbind version_rows (pending_versions (history_of R) plan))) plan =
  List.filter (fun v => bool_decide (rv_Steps v = [])) (pending_versions (history_of R) plan).
Proof.
  intros Hd. unfold pending_versions at 1 3. rewrite filter_filter_and. apply filter_ext_in_iff.
  intros v Hv%list_elem_of_In. rewrite andb_true_iff, !negb_true_iff, !bool_decide_eq_false, bool_decide_eq_true, versions_after. split.
  - intros H. assert (Hr : rv_Version v ∉ rh_versions (history_of R)) by tauto. split; [done|].
    destruct (decide (rv_Steps v = [])); [done|]. destruct H. right. exists v. split; [by apply elem_of_pending|done].
  - intros [Hr Hs] [?|(w & Hw & E & Hne)]; [done|]. apply elem_of_pending in Hw as [Hw _].
    by rewrite (keyed_inj rv_Version plan w v Hd Hw Hv E) in Hne.
Qed.

Lemma Status_Ok plan db : (Status engine (Ok plan) db).1 = db /\
  (Status engine (Ok plan) db).2 = Ok (merge_sort entry_le
     (planned_entries (history_of (rows db)) plan ++ unknown_entries (history_of (rows db)) plan)).
Proof.
  unfold Status, slift, sbind, readRecordedIfPresent. unfold sbind. destruct (hl_exists _ _ laws db) as (b & -> & Hb).
  destruct b.
  - unfold readRecorded, sbind. rewrite (hl_select _ _ laws). done.
  - rewrite Hb by done. done.
Qed.

Lemma not_pending plan R : (forall v step, v ∈ plan -> step ∈ rv_Steps v -> state_of (history_of R) v step = Applied) ->
  existsb is_pending (merge_sort entry_le (planned_entries (history_of R) plan ++ unknown_entries (history_of R) plan)) = false.
Proof.
  intros H. apply not_true_iff_false. intros (e & He & Hp)%existsb_exists. apply list_elem_of_In in He.
  rewrite merge_sort_Permutation in He. apply elem_of_app in He as [He|He].
  - unfold planned_entries in He. apply list_elem_of_bind in He as (v & He & Hv).
    apply list_elem_of_fmap in He as (step & -> & Hs). unfold is_pending in Hp. cbn [me_State] in Hp.
    by rewrite H in Hp.
  - unfold unknown_entries in He. apply list_elem_of_omap in He as (kr & _ & He). destruct (composed _ _); [done|].
    injection He as <-. done.
Qed.

(** ** A rollback *)

Definition keeps (versions : list Z) (R : list version_row) : list version_row :=
  List.filter (fun r => negb (bool_decide (vr_version r ∈ versions))) R.

Lemma keeps_nil R : keeps [] R = R.
Proof. unfold keeps. induction R as [|r R IH]; [done|]. cbn [List.filter]. rewrite bool_decide_eq_false_2 by apply not_elem_of_nil. cbn [negb]. by rewrite IH. Qed.

Lemma keeps_cons v vs R : keeps (v :: vs) R = keeps vs (List.filter (fun r => negb (vr_version r =? v)%Z) R).
Proof.
  unfold keeps. rewrite filter_filter_and. apply filter_ext. intros r.
  destruct (Z.eqb_spec (vr_version r) v) as [->|Hne]; cbn [negb andb].
  - rewrite bool_decide_eq_true_2; [done|by left].
  - f_equal. apply bool_decide_ext. rewrite elem_of_cons. tauto.
Qed.

Lemma revert_version_deletes options derived v s s' :
  (forall step, step ∈ rv_Steps v -> quiet_statements engine rows (down_of derived step)) ->
  revert_version engine dialect probeSuffix options derived v s = (s', Ok tt) ->
  rows (run_db s') = List.filter (fun r => negb (vr_version r =? rv_Version v)%Z) (rows (run_db s)).
Proof.
  intros Hq H. unfold revert_version in H. apply sbind_Ok in H as (s1 & [] & H1 & H2).
  assert (Hp : rows (run_db s1) = rows (run_db s)).
  { match type of H1 with forS ?f ?l _ = _ =>
      pose proof (forS_preserves (fun t => rows (run_db t) = rows (run_db s)) f l) as Hp end.
    specialize (Hp ltac:(intros step Hs%list_elem_of_In%in_rev%list_elem_of_In; eapply statements_preserve; eauto) s eq_refl). by rewrite H1 in Hp. }
  rewrite <- Hp. unfold on_db, deleteVersionRecord, refail in H2.
  destruct (DeleteVersionRows _ _ _) as [db [[]|e]] eqn:E; [|done]. injection H2 as <-. cbn [run_db].
  by apply (hl_delete _ _ laws) in E.
Qed.

Lemma reverts_delete options derived l s s' :
  (forall v step, v ∈ l -> step ∈ rv_Steps v -> quiet_statements engine rows (down_of derived step)) ->
  forS (revert_version engine dialect probeSuffix options derived) l s = (s', Ok tt) ->
  rows (run_db s') = keeps (rv_Version <$> l) (rows (run_db s)).
Proof.
  revert s. induction l as [|v l IH]; intros s Hq H.
  { injection H as <-. by rewrite keeps_nil. }
  cbn [forS] in H. apply sbind_Ok in H as (s1 & [] & H1 & H). rewrite fmap_cons, keeps_cons.
  rewrite <- (revert_version_deletes options derived v s s1); [|intros step; apply Hq; by left|done].
  apply IH; [|done]. intros w step Hw. apply Hq. by right.
Qed.

Lemma elem_of_reverting target recorded plan v : v ∈ reverting_versions target recorded plan <->
  v ∈ plan /\ (target < rv_Version v)%Z /\ rv_Version v ∈ rh_versions recorded.
Proof.
  unfold reverting_versions. rewrite merge_sort_Permutation, list_elem_of_In, filter_In, <- list_elem_of_In.
  by rewrite andb_true_iff, Z.ltb_lt, bool_decide_eq_true.
Qed.

(** A valid history's rows above the target are all of versions that revert. *)
Lemma reverting_covers plan R target : NoDup (row_key <$> R) -> validateHistory plan (history_of R) = Ok tt ->
  keeps (rv_Version <$> reverting_versions target (history_of R) plan) R =
  List.filter (fun r => (vr_version r <=? target)%Z) R.
Proof.
  intros Hd [_ Hk]%validateHistory_Ok; [|done]. unfold keeps. apply filter_ext_in_iff. intros r Hr%list_elem_of_In.
  rewrite negb_true_iff, bool_decide_eq_false, Z.leb_le, list_elem_of_fmap. split.
  - intros H. destruct (Z.le_gt_cases (vr_version r) target); [done|]. exfalso. apply H.
    specialize (Hk r Hr). apply list_elem_of_fmap in Hk as (v & E & Hv). exists v. split; [done|].
    apply elem_of_reverting. split_and!; [done|lia|]. rewrite <- E. by apply history_versions, list_elem_of_fmap_2.
  - intros H (v & E & (_ & Hlt & _)%elem_of_reverting). lia.
Qed.

Definition down_quiet (plan : list RenderedVersion) (snapshots : SnapshotSet) (target : Z) (R : list version_row) : Prop :=
  forall d v step, resolve_rollbacks dialect snapshots (reverting_versions target (history_of R) plan) = Ok d ->
    v ∈ plan -> step ∈ rv_Steps v -> quiet_statements engine rows (down_of d.1 step).

Lemma MigrateDown_Ok plan snapshots target options s s' n :
  down_quiet plan snapshots target (rows (run_db s)) ->
  MigrateDown engine dialect probeSuffix (Ok plan) snapshots target options s = (s', Ok n) ->
  validateHistory plan (history_of (rows (run_db s))) = Ok tt /\
  n = length (reverting_versions target (history_of (rows (run_db s))) plan) /\
  rows (run_db s') = List.filter (fun r => (vr_version r <=? target)%Z) (rows (run_db s)).
Proof.
  intros Hq H. unfold MigrateDown in H. apply sbind_Ok in H as (s0 & p & H0 & H).
  apply slift_Ok in H0 as [[= <-] ->]. apply in_run_Ok in H.
  apply sbind_Ok in H as (s1 & h & H1 & H). eapply (recorded_now_Ok _ rows) in H1 as [-> H1]; [|done..].
  apply sbind_Ok in H as (s2 & [] & H2 & H). apply slift_Ok in H2 as [Hv ->]. cbv zeta in H.
  apply sbind_Ok in H as (s3 & d & H3 & H). apply slift_Ok in H3 as [Hd ->].
  apply sbind_Ok in H as (s4 & [] & H4 & H). apply sbind_Ok in H as (s5 & [] & H5 & H). injection H as <- <-.
  split_and!; [done|done|].
  assert (H4' : rows (run_db s4) = rows (run_db s)).
  { pose proof (forS_preserves (fun t => rows (run_db t) = rows (run_db s)) notify d.2) as Hp.
    specialize (Hp ltac:(intros; apply preserves_notify) s1 H1). by rewrite H4 in Hp. }
  apply reverts_delete in H5; [|intros v step (Hin & _)%elem_of_reverting; by apply (Hq d)].
  rewrite H5, H4'. apply reverting_covers; [apply (hl_unique _ _ laws)|done].
Qed.

(** ** A migration that completes *)

(** [m] answers from every state. *)
Definition answers {S A} (m : SM S A) : Prop := forall s, exists s' a, m s = (s', Ok a).

Lemma answers_bind {S A B} (m : SM S A) (k : A -> SM S B) : answers m -> (forall a, answers (k a)) -> answers (sbind m k).
Proof. intros Hm Hk s. destruct (Hm s) as (s1 & a & E). destruct (Hk a s1) as (s2 & b & E2). exists s2, b. by rewrite (sbind_step _ _ _ _ _ E). Qed.
Lemma answers_ret {S A} (a : A) : answers (sret (S := S) a).
Proof. intros s. by exists s, a. Qed.
Lemma answers_attempt {S A} (m : SM S A) : answers (attempt m).
Proof. intros s. unfold attempt. destruct (m s) as [s' r]. by exists s', r. Qed.
Lemma answers_refail {S A} e (m : SM S A) : answers m -> answers (refail e m).
Proof. intros H s. unfold refail. destruct (H s) as (s' & a & ->). by exists s', a. Qed.
Lemma answers_on_db {A} (m : SM DB A) : answers m -> answers (on_db m).
Proof. intros H s. unfold on_db. destruct (H (run_db s)) as (db & a & ->). by eexists _, a. Qed.
Lemma answers_forS {S A} (f : A -> SM S unit) l : (forall x, x ∈ l -> answers (f x)) -> answers (forS f l).
Proof.
  induction l as [|x l IH]; intros H; [apply answers_ret|]. cbn [forS]. apply answers_bind; [apply H; by left|].
  intros _. apply IH. intros y Hy. apply H. by right.
Qed.

(** What the driver is asked for beside the migration's own statements: it
    opens and commits the run, keeps the history and reads live definitions. *)
Record serves : Prop := {
  sv_lock : forall db, BeginMigrationRunLock engine db = Ok tt;
  sv_commit : forall db, Commit engine db = Ok tt;
  sv_table : answers (Exec engine (VersionTableSQL dialect));
  sv_savepoint : answers (Exec engine ("savepoint " +:+ savepoint));
  sv_release : answers (Exec engine ("release savepoint " +:+ savepoint));
  sv_view : forall view, answers (ReadViewDefinition engine view);
  sv_trigger : forall name, answers (ReadTriggerDefinitions engine name);
  sv_insert : forall r at_ ms db, row_key r ∉ row_key <$> rows db ->
    exists db', InsertVersionRow engine r at_ ms db = (db', Ok tt) }.
Hypothesis driver : serves.

(** The database takes the statement; a guard passes or may be overridden. *)
Definition accepted (options : RunOptions) (st : MigrationStatement) : Prop :=
  if decide (st_GuardTrigger st = "" /\ st_GuardView st = "")
  then answers (Exec engine (st_SQL st)) else AllowViewDrift options = true.

Lemma answers_view st : answers (viewMatchesExpectation engine dialect probeSuffix st).
Proof.
  destruct driver as [_ _ _ Hs Hr Hv _ _]. unfold viewMatchesExpectation. apply answers_bind; [apply Hv|].
  intros [text|]; [|apply answers_ret]. destruct (ViewDefinitionIsVerbatim dialect); [apply answers_ret|].
  destruct (ViewParts (st_SQL st)) as [[[name body] m]|]; [|apply answers_ret].
  apply answers_bind; [done|]. intros _. apply answers_bind.
  - unfold probe_view. apply answers_bind; [apply answers_attempt|]. intros [?|?]; [|apply answers_ret].
    apply answers_bind; [apply answers_attempt|]. intros [?|?]; [|apply answers_ret].
    apply answers_bind; [apply answers_attempt|]. intros ?. apply answers_ret.
  - intros [expected|].
    + apply answers_bind; [done|]. intros _. apply answers_ret.
    + unfold roll_back_probe. repeat (apply answers_bind; [|intros ?]); try apply answers_attempt; apply answers_ret.
Qed.

Lemma answers_drift target drift options : AllowViewDrift options = true -> answers (drift_found (DB := DB) target drift options).
Proof. intros H s. unfold drift_found. rewrite H. by eexists _, tt. Qed.

Lemma answers_statement version options st : accepted options st ->
  answers (applyStatement engine dialect probeSuffix version options st).
Proof.
  unfold accepted, applyStatement. intros H. destruct (decide (st_GuardTrigger st <> "")) as [Ht|Ht].
  - rewrite decide_False in H by tauto. unfold applyTriggerGuard. apply answers_bind.
    + apply answers_on_db, (sv_trigger driver).
    + intros live. destruct (TriggerStatementsMatch _ _); [apply answers_ret|by apply answers_drift].
  - destruct (decide (st_GuardView st = "")) as [Hv|Hv].
    + rewrite decide_True in H by (split; [by apply dec_stable|done]). by apply answers_on_db, answers_refail.
    + rewrite decide_False in H by tauto. unfold applyViewGuard. apply answers_bind; [apply answers_on_db, answers_view|].
      intros [live []]; cbn [fst snd]; [apply answers_ret|by apply answers_drift].
Qed.

(** A step runs and is recorded where the history has no row of its key. *)
Lemma step_completes options version step s : quiet_statements engine rows (rs_Up step) ->
  (forall st, st ∈ rs_Up step -> accepted options st) -> row_key (row_of version step) ∉ row_key <$> rows (run_db s) ->
  exists s', apply_step engine dialect clock probeSuffix options version step s = (s', Ok tt).
Proof.
  intros Hq Ha Hk. unfold apply_step.
  destruct (answers_forS (applyStatement engine dialect probeSuffix version options) (rs_Up step)
    ltac:(intros st Hst; by apply answers_statement, Ha) s) as (s1 & [] & E1).
  pose proof (statements_preserve engine rows dialect probeSuffix laws quiet_library (rows (run_db s)) version options _ Hq s eq_refl) as Hp.
  rewrite E1 in Hp. cbn [fst] in Hp. rewrite (sbind_step _ _ _ _ _ E1). unfold on_db, record.
  destruct (sv_insert driver (row_of version step) (clock version step).1 (clock version step).2 (run_db s1)) as [db ->]; [by rewrite Hp|].
  by eexists.
Qed.

(** A loop over rows still to be recorded: each turn finds its key absent. *)
Lemma forS_completes {A} (f : A -> SM (run (DB := DB)) unit) (added : A -> list version_row) l s :
  NoDup (row_key <$> rows (run_db s) ++ mbind added l) ->
  (forall x s1, x ∈ l -> NoDup (row_key <$> rows (run_db s1) ++ added x) ->
     exists s2, f x s1 = (s2, Ok tt) /\ rows (run_db s2) = rows (run_db s1) ++ added x) ->
  exists s', forS f l s = (s', Ok tt).
Proof.
  revert s. induction l as [|x l IH]; intros s Hd Hf; [by exists s|]. rewrite bind_cons, app_assoc in Hd.
  destruct (Hf x s) as (s1 & E & Hr); [by left| |].
  { rewrite fmap_app in Hd. by apply NoDup_app in Hd as [Hd _]. }
  cbn [forS]. rewrite (sbind_step _ _ _ _ _ E). apply IH; [by rewrite Hr|]. intros y s2 Hy. apply Hf. by right.
Qed.

Definition plan_accepted (options : RunOptions) (plan : list RenderedVersion) : Prop :=
  forall v step st, v ∈ plan -> step ∈ rv_Steps v -> st ∈ rs_Up step -> accepted options st.

Lemma version_completes options v s :
  (forall step, step ∈ rv_Steps v -> quiet_statements engine rows (rs_Up step)) ->
  (forall step st, step ∈ rv_Steps v -> st ∈ rs_Up step -> accepted options st) ->
  NoDup (row_key <$> rows (run_db s) ++ version_rows v) ->
  exists s', apply_version engine dialect clock probeSuffix options v s = (s', Ok tt).
Proof.
  intros Hq Ha Hd. unfold apply_version. unfold version_rows in Hd. rewrite <- (bind_singletons (row_of (rv_Version v))) in Hd.
  apply (forS_completes _ (fun step => [row_of (rv_Version v) step])); [done|]. intros step s1 Hs Hd'. clear Hd. rename Hd' into Hd.
  destruct (step_completes options (rv_Version v) step s1) as [s2 E]; [auto|eauto| |].
  { rewrite fmap_app in Hd. apply NoDup_app in Hd as (_ & Hd & _). intros H. apply (Hd _ H). by left. }
  exists s2. split; [done|]. unfold apply_step in E. apply sbind_Ok in E as (s3 & [] & E1 & E2).
  eapply (record_appends _ rows) in E2; [|done]. rewrite E2. f_equal.
  pose proof (statements_preserve engine rows dialect probeSuffix laws quiet_library (rows (run_db s1)) (rv_Version v) options (rs_Up step) (Hq step Hs) s1 eq_refl) as Hp.
  by rewrite E1 in Hp.
Qed.

Lemma ensure_table s : exists s', recorded_now engine dialect s = (s', Ok (history_of (rows (run_db s)))) /\
  rows (run_db s') = rows (run_db s).
Proof.
  assert (H : exists s', recorded_now engine dialect s = (s', Ok (history_of (rows (run_db s))))).
  2: { destruct H as [s' E]. exists s'. split; [done|]. by eapply (recorded_now_Ok _ rows) in E as [_ E]. }
  unfold recorded_now, on_db, ensureVersionTable, execute.
  destruct (answers_refail (NewError "MIG-021" "migration statement") _ (sv_table driver) (run_db s)) as (db & [] & E).
  rewrite (sbind_step _ _ _ _ _ E). unfold readRecorded, sbind. rewrite (hl_select _ _ laws).
  pose proof (quiet_preserves engine rows (rows (run_db s)) _ (lq_table _ _ _ _ quiet_library)) as Hp.
  apply (preserves_refail _ (NewError "MIG-021" "migration statement")) in Hp. specialize (Hp (run_db s) eq_refl).
  rewrite E in Hp. cbn [fst] in Hp. cbn [sret]. unfold sret. rewrite Hp. by eexists.
Qed.

Lemma Migrate_completes plan options s : plan_quiet engine rows plan -> plan_accepted options plan ->
  let recorded := history_of (rows (run_db s)) in
  NoDup (row_key <$> rows (run_db s) ++ mbind version_rows (pending_versions recorded plan)) ->
  validateHistory plan recorded = Ok tt -> refusePendingDrafts plan recorded (fun _ => true) = Ok tt ->
  exists s', Migrate engine dialect clock probeSuffix (Ok plan) options s = (s', Ok (length (pending_versions recorded plan))).
Proof.
  intros Hq Ha recorded Hd Hv Hdr. unfold Migrate. rewrite (sbind_step _ _ s s plan) by done. unfold in_run.
  rewrite (sv_lock driver). destruct (ensure_table s) as (s1 & E1 & Hr). fold recorded in E1.
  rewrite (sbind_step _ _ _ _ _ E1), (sbind_step _ _ s1 s1 tt) by (unfold slift; by rewrite Hv).
  rewrite (sbind_step _ _ s1 s1 tt) by (unfold slift; by rewrite Hdr).
  destruct (forS_completes (apply_version engine dialect clock probeSuffix options) version_rows (pending_versions recorded plan) s1) as [s2 E2].
  - by rewrite Hr.
  - intros v t [Hin _]%elem_of_pending Hd'.
    destruct (version_completes options v t) as [t' E]; [intros step; by apply Hq|intros step st; by apply Ha|done|].
    exists t'. split; [done|]. eapply (apply_version_appends _ rows) in E; [done..|]. intros step. by apply Hq.
  - rewrite (sbind_step _ _ _ _ _ E2). unfold sret. rewrite (sv_commit driver). by exists s2.
Qed.
End Runs.

(** Fresh keys: the plan's keys are distinct and a pending version has no row. *)
Lemma pending_fresh plan R : NoDup (row_key <$> R) -> NoDup (row_key <$> mbind version_rows plan) ->
  NoDup (row_key <$> R ++ mbind version_rows (pending_versions (history_of R) plan)).
Proof.
  intros Hd Hp. rewrite fmap_app. apply NoDup_app. split_and!; [done| |].
  - intros k (r & -> & Hr)%list_elem_of_fmap (r' & E & Hr')%list_elem_of_fmap. apply planned_version in Hr'.
    apply list_elem_of_fmap in Hr' as (v & Ev & [_ Hv]%elem_of_pending). apply Hv, history_versions.
    rewrite <- Ev. injection E as <- _. by apply list_elem_of_fmap_2.
  - unfold pending_versions. induction plan as [|v plan IH]; [done|]. rewrite bind_cons, fmap_app in Hp.
    apply NoDup_app in Hp as (H1 & H2 & H3). cbn [List.filter]. destruct (negb _); [|by apply IH].
    rewrite bind_cons, fmap_app. apply NoDup_app. split_and!; [done| |by apply IH].
    intros k Hk Hk'. apply (H2 k Hk). revert Hk'. rewrite !list_elem_of_fmap. intros (r & -> & Hr). exists r. split; [done|].
    rewrite list_elem_of_bind in Hr |- *. destruct Hr as (w & Hr & [Hw _]%list_elem_of_In%filter_In). exists w.
    split; [done|]. by apply list_elem_of_In.
Qed.

(** What a migration over versions above the target recorded is what a
    rollback to the target takes back. *)
Lemma filter_up_to plan R target : (forall r, r ∈ R -> (vr_version r <= target)%Z) ->
  (forall v, v ∈ pending_versions (history_of R) plan -> (target < rv_Version v)%Z) ->
  List.filter (fun r => (vr_version r <=? target)%Z) (R ++ mbind version_rows (pending_versions (history_of R) plan)) = R.
Proof.
  intros Hold Hnew. rewrite List.filter_app.
  assert (E1 : List.filter (fun r => (vr_version r <=? target)%Z) R = R).
  { clear Hnew. induction R as [|r R IH]; [done|]. cbn [List.filter].
    rewrite (proj2 (Z.leb_le _ _)) by (apply Hold; by left). f_equal. apply IH. intros x Hx. apply Hold. by right. }
  rewrite E1. replace (List.filter _ (mbind version_rows _)) with (@nil version_row); [by rewrite app_nil_r|].
  symmetry. apply filter_nil_iff. intros r Hr. apply list_elem_of_In, planned_version, list_elem_of_fmap in Hr as (v & -> & Hv).
  apply Z.leb_gt. by apply Hnew.
Qed.

Lemma reverting_pending plan R target : NoDup (rv_Version <$> plan) -> (forall r, r ∈ R -> (vr_version r <= target)%Z) ->
  (forall v, v ∈ pending_versions (history_of R) plan -> (target < rv_Version v)%Z) ->
  length (reverting_versions target (history_of (R ++ mbind version_rows (pending_versions (history_of R) plan))) plan) =
  length (List.filter (fun v => negb (bool_decide (rv_Steps v = []))) (pending_versions (history_of R) plan)).
Proof.
  intros Hd Hold Hnew. unfold reverting_versions. rewrite merge_sort_Permutation. apply (f_equal length). symmetry. unfold pending_versions at 1. symmetry.
  rewrite filter_filter_and. apply filter_ext_in_iff. intros v Hv%list_elem_of_In.
  rewrite !andb_true_iff, !negb_true_iff, !bool_decide_eq_false, bool_decide_eq_true, Z.ltb_lt, versions_after. split.
  - intros [Hlt [Hr|(w & Hw & E & Hne)]].
    + apply history_versions, list_elem_of_fmap in Hr as (r & E & Hr). specialize (Hold r Hr). lia.
    + apply elem_of_pending in Hw as [Hw Hwn]. rewrite E in Hwn. by rewrite (keyed_inj rv_Version plan w v Hd Hw Hv E) in Hne.
  - intros [Hn Hne]. assert (Hp : v ∈ pending_versions (history_of R) plan) by by apply elem_of_pending.
    split; [by apply Hnew|]. right. by exists v.
Qed.

(** C11. A migration that commits leaves nothing behind: it has added exactly
    the rows of the versions that were pending, in the plan's order, every
    planned step is now Applied with the checksum of what ran, the history it
    leaves validates, [HasPending] answers no, and what a second run would
    apply is only the versions that compose no step. *)
Theorem migrate_leaves_nothing_pending {DB} (engine : Engine DB) rows dialect clock probeSuffix plan options s s' n :
  history_laws engine rows -> library_quiet engine rows dialect probeSuffix -> plan_quiet engine rows plan ->
  NoDup (rv_Version <$> plan) ->
  Migrate engine dialect clock probeSuffix (Ok plan) options s = (s', Ok n) ->
  let pending := pending_versions (history_of (rows (run_db s))) plan in
  let recorded := history_of (rows (run_db s')) in
  n = length pending /\ rows (run_db s') = rows (run_db s) ++ mbind version_rows pending /\
  (forall v step, v ∈ plan -> step ∈ rv_Steps v -> state_of recorded v step = Applied) /\
  validateHistory plan recorded = Ok tt /\
  HasPending engine (Ok plan) (run_db s') = (run_db s', Ok false) /\
  pending_versions recorded plan = List.filter (fun v => bool_decide (rv_Steps v = [])) pending.
Proof.
  intros laws Hl Hq Hd H pending recorded. eapply (Migrate_Ok _ rows) in H as (Hv & _ & Hn & Hr); [|done..].
  fold pending in Hn, Hr. subst recorded. pose proof (hl_unique _ _ laws (run_db s)) as H1.
  pose proof (hl_unique _ _ laws (run_db s')) as H2. rewrite Hr in H2 |- *.
  assert (Ha : forall v step, v ∈ plan -> step ∈ rv_Steps v ->
    state_of (history_of (rows (run_db s) ++ mbind version_rows pending)) v step = Applied) by (intros; by apply all_applied with (plan := plan)).
  split_and!; [done|done|done|by apply valid_after| |by apply pending_after].
  unfold HasPending, sbind. destruct (Status_Ok engine rows laws plan (run_db s')) as [E1 E2].
  destruct (Status engine (Ok plan) (run_db s')) as [db r]. cbn [fst snd] in E1, E2. subst db r.
  unfold sret. f_equal. f_equal. apply not_pending. by rewrite Hr.
Qed.

(** C12. A migration the database accepts completes: with a driver that serves
    the run, a valid history without pending drafts, distinct keys in the plan
    and every statement accepted (a guard may fire where view drift is
    allowed), [Migrate] returns the number of pending versions and leaves
    their rows recorded. *)
Theorem accepted_migration_completes {DB} (engine : Engine DB) rows dialect clock probeSuffix plan options s :
  history_laws engine rows -> library_quiet engine rows dialect probeSuffix -> plan_quiet engine rows plan ->
  serves engine rows dialect -> plan_accepted engine options plan -> NoDup (row_key <$> mbind version_rows plan) ->
  let recorded := history_of (rows (run_db s)) in
  validateHistory plan recorded = Ok tt -> refusePendingDrafts plan recorded (fun _ => true) = Ok tt ->
  exists s', Migrate engine dialect clock probeSuffix (Ok plan) options s = (s', Ok (length (pending_versions recorded plan))) /\
    rows (run_db s') = rows (run_db s) ++ mbind version_rows (pending_versions recorded plan).
Proof.
  intros laws Hl Hq Hs Ha Hk recorded Hv Hdr.
  destruct (Migrate_completes engine rows dialect clock probeSuffix laws Hl Hs plan options s) as [s' E]; [done..| |done|done|].
  { apply pending_fresh; [apply (hl_unique _ _ laws)|done]. }
  exists s'. split; [done|]. by eapply (Migrate_Ok _ rows) in E as (_ & _ & _ & E).
Qed.

(** A rollback that commits leaves exactly the history up to its target:
    the rows of every version above it are gone, the others are untouched and
    in their order. *)
Theorem rollback_leaves_history_up_to_target {DB} (engine : Engine DB) rows dialect probeSuffix plan snapshots target options s s' n :
  history_laws engine rows -> library_quiet engine rows dialect probeSuffix ->
  down_quiet engine rows dialect plan snapshots target (rows (run_db s)) ->
  MigrateDown engine dialect probeSuffix (Ok plan) snapshots target options s = (s', Ok n) ->
  rows (run_db s') = List.filter (fun r => (vr_version r <=? target)%Z) (rows (run_db s)) /\
  n = length (reverting_versions target (history_of (rows (run_db s))) plan).
Proof. intros laws Hl Hq H. by eapply (MigrateDown_Ok _ rows) in H as (_ & ? & ?). Qed.

(** C13. [MigrateDown] undoes [Migrate]: rolling back to a version at or above
    everything recorded before a migration and below everything it applied
    restores the recorded history, reverting as many versions as the
    migration recorded, those that compose a step. *)
Theorem rollback_undoes_migration {DB} (engine : Engine DB) rows dialect clock probeSuffix plan snapshots target options options' s s1 s2 n m :
  history_laws engine rows -> library_quiet engine rows dialect probeSuffix -> plan_quiet engine rows plan ->
  NoDup (rv_Version <$> plan) ->
  Migrate engine dialect clock probeSuffix (Ok plan) options s = (s1, Ok n) ->
  (forall r, r ∈ rows (run_db s) -> (vr_version r <= target)%Z) ->
  (forall v, v ∈ pending_versions (history_of (rows (run_db s))) plan -> (target < rv_Version v)%Z) ->
  down_quiet engine rows dialect plan snapshots target (rows (run_db s1)) ->
  MigrateDown engine dialect probeSuffix (Ok plan) snapshots target options' s1 = (s2, Ok m) ->
  rows (run_db s2) = rows (run_db s) /\
  m = length (List.filter (fun v => negb (bool_decide (rv_Steps v = []))) (pending_versions (history_of (rows (run_db s))) plan)).
Proof.
  intros laws Hl Hq Hd H Hold Hnew Hdown H'. eapply (Migrate_Ok _ rows) in H as (_ & _ & _ & Hr); [|done..].
  eapply (MigrateDown_Ok _ rows) in H' as (_ & -> & ->); [|done..]. rewrite Hr. split.
  - by apply filter_up_to.
  - by apply reverting_pending.
Qed.

(** ** A driver that logs *)

(** The rows of [schema_version], their key distinct, and what was executed. *)
Record LogDB := mkLogDB {
  ld_rows : list version_row; ld_sql : list string; ld_keys : bool_decide (NoDup (row_key <$> ld_rows)) }.

Lemma log_insert_ok R r : bool_decide (NoDup (row_key <$> R)) -> bool_decide (row_key r ∉ row_key <$> R) ->
  bool_decide (NoDup (row_key <$> R ++ [r])).
Proof.
  intros Hd%bool_decide_unpack Hr%bool_decide_unpack. apply bool_decide_pack. rewrite fmap_app. by apply NoDup_snoc.
Qed.
Lemma log_delete_ok f R : bool_decide (NoDup (row_key <$> R)) -> bool_decide (NoDup (row_key <$> List.filter f R)).
Proof.
  intros Hd%bool_decide_unpack. apply bool_decide_pack. induction R as [|r R IH]; [done|].
  rewrite fmap_cons in Hd. apply NoDup_cons in Hd as [Hr Hd]. cbn [List.filter]. destruct (f r); [|by apply IH].
  rewrite fmap_cons. apply NoDup_cons. split; [|by apply IH]. intros H. apply Hr. revert H.
  rewrite !list_elem_of_fmap. intros (x & E & [Hx _]%list_elem_of_In%filter_In). exists x. split; [done|]. by apply list_elem_of_In.
Qed.

Definition log_insert (r : version_row) (db : LogDB) : LogDB * result unit :=
  match decide (row_key r ∉ row_key <$> ld_rows db) with
  | left H => (mkLogDB (ld_rows db ++ [r]) (ld_sql db) (log_insert_ok _ r (ld_keys db) (bool_decide_pack _ H)), Ok tt)
  | right _ => (db, Fail (NewError "EXE-001" "UNIQUE constraint failed"))
  end.

Definition log_engine : Engine LogDB := mkEngine LogDB
  (fun _ => Ok tt) (fun _ => Ok tt)
  (fun sql db => (mkLogDB (ld_rows db) (ld_sql db ++ [sql]) (ld_keys db), Ok tt))
  (fun _ db => (db, Ok None)) (fun _ db => (db, Ok [])) (fun db => (db, Ok (ld_rows db)))
  (fun db => (db, Ok (negb (bool_decide (ld_rows db = [])))))
  (fun r _ _ db => log_insert r db)
  (fun v db => (mkLogDB (List.filter (fun r => negb (vr_version r =? v)%Z) (ld_rows db)) (ld_sql db)
                  (log_delete_ok _ _ (ld_keys db)), Ok tt)).

Lemma log_laws : history_laws log_engine ld_rows.
Proof.
  split; try done.
  - intros db. eexists. split; [done|]. intros E%negb_false_iff%bool_decide_eq_true. done.
  - intros r at_ ms db db'. cbn. unfold log_insert. destruct (decide _); [|done]. by intros [= <-].
  - intros v db db' [= <-]. done.
  - intros db. apply (bool_decide_unpack _), (ld_keys db).
Qed.
Lemma log_quiet sql : quiet log_engine ld_rows sql.
Proof. by intros db. Qed.
Lemma log_library dialect probeSuffix : library_quiet log_engine ld_rows dialect probeSuffix.
Proof. split; intros; apply log_quiet. Qed.
Lemma log_plan plan : plan_quiet log_engine ld_rows plan.
Proof. intros v step _ _ st _. apply log_quiet. Qed.
Lemma log_down dialect plan snapshots target R : down_quiet log_engine ld_rows dialect plan snapshots target R.
Proof. intros d v step _ _ _ st _. apply log_quiet. Qed.
Lemma log_serves dialect : serves log_engine ld_rows dialect.
Proof.
  split; try (intros; done).
  - intros db. eexists _, _. reflexivity.
  - intros db. eexists _, _. reflexivity.
  - intros db. eexists _, _. reflexivity.
  - intros view db. eexists _, _. reflexivity.
  - intros name db. eexists _, _. reflexivity.
  - intros r at_ ms db H. cbn. unfold log_insert. destruct (decide _); [by eexists|done].
Qed.

Definition table_step (version : Z) (object up down : string) : RenderedStep :=
  mkRenderedStep version object "create" [statement "step" up] (mkDownPlan [] [statement "step" down] []) [] None false.

(** Three versions, the second composing no step, the third replacing a view
    under a guard. *)
Definition sample_plan : list RenderedVersion :=
  [mkRenderedVersion 1 false [table_step 1 "customers" "create table customers (Id integer)" "drop table customers"];
   mkRenderedVersion 2 false [];
   mkRenderedVersion 3 false
     [table_step 3 "orders" "create table orders (Id integer)" "drop table orders";
      mkRenderedStep 3 "totals" "create"
        [mkStatement "create view totals as select 1" "step" "totals" "" []; statement "step" "create view totals as select 2"]
        (mkDownPlan [] [statement "step" "drop view totals"] []) [] None false]].

Definition sample_db : LogDB :=
  mkLogDB [row_of 1 (table_step 1 "customers" "create table customers (Id integer)" "drop table customers")] []
    (bool_decide_pack _ (NoDup_singleton _)).
Definition sample_run : run := mkRun sample_db [].
Definition sample_clock (version : Z) (step : RenderedStep) : string * Z := ("2026-01-02T03:04:05Z", 7%Z).

Lemma migrate_leaves_nothing_pending_witness :
  exists s', Migrate log_engine Sqlite.dialect sample_clock "ab" (Ok sample_plan) (mkRunOptions true) sample_run = (s', Ok 2%nat) /\
    vr_object <$> ld_rows (run_db s') = ["customers"; "orders"; "totals"] /\
    ld_sql (run_db s') = [VersionTableSQL Sqlite.dialect; "create table orders (Id integer)"; "create view totals as select 2"] /\
    run_notices s' = ["V0003 totals: the view is absent; expected the previous definition; recreating (--force)"] /\
    HasPending log_engine (Ok sample_plan) (run_db s') = (run_db s', Ok false) /\
    pending_versions (history_of (ld_rows (run_db s'))) sample_plan = [mkRenderedVersion 2 false []].
Proof.
  destruct (Migrate log_engine Sqlite.dialect sample_clock "ab" (Ok sample_plan) (mkRunOptions true) sample_run) as [s' r] eqn:E.
  assert (r = Ok 2%nat) as ->. { change r with (s', r).2. rewrite <- E. vm_compute. reflexivity. }
  exists s'. split; [done|].
  assert (Hs : s' = (Migrate log_engine Sqlite.dialect sample_clock "ab" (Ok sample_plan) (mkRunOptions true) sample_run).1) by by rewrite E.
  apply (migrate_leaves_nothing_pending log_engine ld_rows) in E as (_ & _ & _ & _ & Hp & Hs2);
    [|apply log_laws|apply log_library|apply log_plan|apply (bool_decide_unpack _); vm_compute; reflexivity].
  split_and!; [by rewrite Hs; vm_compute|by rewrite Hs; vm_compute|by rewrite Hs; vm_compute|exact Hp|].
  rewrite Hs2. vm_compute. reflexivity.
Defined.

Lemma accepted_migration_completes_witness :
  validateHistory sample_plan (history_of (ld_rows sample_db)) = Ok tt /\
  exists s', Migrate log_engine Sqlite.dialect sample_clock "ab" (Ok sample_plan) (mkRunOptions true) sample_run = (s', Ok 2%nat) /\
    row_key <$> ld_rows (run_db s') = [(1%Z, "customers"); (3%Z, "orders"); (3%Z, "totals")].
Proof.
  split; [vm_compute; reflexivity|].
  destruct (accepted_migration_completes log_engine ld_rows Sqlite.dialect sample_clock "ab" sample_plan (mkRunOptions true) sample_run)
    as (s' & E & Hr); [apply log_laws|apply log_library|apply log_plan|apply log_serves| | | | |].
  - intros v step st _ _ _. unfold accepted. destruct (decide _); [|reflexivity]. intros db. eexists _, _. reflexivity.
  - apply (bool_decide_unpack _). vm_compute. reflexivity.
  - vm_compute. reflexivity.
  - vm_compute. reflexivity.
  - exists s'. split; [rewrite E; vm_compute; reflexivity|]. change (ld_rows (run_db s')) with (ld_rows (run_db s')) in Hr.
    rewrite Hr. vm_compute. reflexivity.
Defined.

(** The run after [sample_plan] was migrated. *)
Definition migrated_run : run :=
  (Migrate log_engine Sqlite.dialect sample_clock "ab" (Ok sample_plan) (mkRunOptions true) sample_run).1.

Lemma rollback_leaves_history_up_to_target_witness :
  exists s', MigrateDown log_engine Sqlite.dialect "ab" (Ok sample_plan) ∅ 0 (mkRunOptions false) migrated_run = (s', Ok 2%nat) /\
    ld_rows (run_db s') = [] /\
    drop 3 (ld_sql (run_db s')) =
      [VersionTableSQL Sqlite.dialect; "drop view totals"; "drop table orders"; "drop table customers"].
Proof.
  destruct (MigrateDown log_engine Sqlite.dialect "ab" (Ok sample_plan) ∅ 0 (mkRunOptions false) migrated_run) as [s' r] eqn:E.
  assert (Hr : (s', r).2 = Ok 2%nat) by (rewrite <- E; vm_compute; reflexivity). cbn [snd] in Hr. subst r.
  assert (Hs : s' = (MigrateDown log_engine Sqlite.dialect "ab" (Ok sample_plan) ∅ 0 (mkRunOptions false) migrated_run).1) by by rewrite E.
  exists s'. split; [done|]. split; [|by rewrite Hs; vm_compute].
  apply (rollback_leaves_history_up_to_target log_engine ld_rows) in E as [-> _];
    [vm_compute; reflexivity|apply log_laws|apply log_library|apply log_down].
Defined.

Lemma rollback_undoes_migration_witness :
  exists s1 s2, Migrate log_engine Sqlite.dialect sample_clock "ab" (Ok sample_plan) (mkRunOptions true) sample_run = (s1, Ok 2%nat) /\
    MigrateDown log_engine Sqlite.dialect "ab" (Ok sample_plan) ∅ 1 (mkRunOptions false) s1 = (s2, Ok 1%nat) /\
    ld_rows (run_db s2) = ld_rows sample_db.
Proof.
  destruct (Migrate log_engine Sqlite.dialect sample_clock "ab" (Ok sample_plan) (mkRunOptions true) sample_run) as [s1 r1] eqn:E1.
  assert (H1 : (s1, r1).2 = Ok 2%nat) by (rewrite <- E1; vm_compute; reflexivity). cbn [snd] in H1. subst r1.
  destruct (MigrateDown log_engine Sqlite.dialect "ab" (Ok sample_plan) ∅ 1 (mkRunOptions false) s1) as [s2 r2] eqn:E2.
  assert (Hs : s1 = migrated_run) by (unfold migrated_run; by rewrite E1).
  assert (H2 : (s2, r2).2 = Ok 1%nat) by (rewrite <- E2, Hs; vm_compute; reflexivity). cbn [snd] in H2. subst r2.
  exists s1, s2. split; [done|]. split; [done|].
  destruct (rollback_undoes_migration log_engine ld_rows Sqlite.dialect sample_clock "ab" sample_plan ∅ 1
    (mkRunOptions true) (mkRunOptions false) sample_run s1 s2 2 1) as [H _];
    [apply log_laws|apply log_library|apply log_plan| |done| | |apply log_down|done|exact H].
  - apply (bool_decide_unpack _). vm_compute. reflexivity.
  - intros r Hr. apply list_elem_of_singleton in Hr as ->. vm_compute. discriminate.
  - change (forall v, v ∈ pending_versions (history_of (ld_rows sample_db)) sample_plan -> (1 < rv_Version v)%Z).
    apply Forall_forall, (bool_decide_unpack _). vm_compute. reflexivity.
Defined.
