(* ===== verification/MapSpec.v ===== *)
(** What the metadata loader reads: the program's types as reflection shows them
    and its declarations (internal/core/entity_def.go, trigger.go, owned.go), and
    the working shapes it assembles maps from
    (internal/metadata/mapped_property_spec.go, options.go).

    A program is data here: a struct type has its fields with their [orm] tags,
    and what its [Entity], [Trigger] and [OwnedType] methods answer.  A type the
    fixed conversion table knows is its [VType]; a struct type of the program is
    a name. *)
From S2P Require Import Prelude GoStrings Values Core Triggers Query Converter Json SchemaSnapshot MigrationSteps.

(** ** Types *)

Inductive TypeShape :=
  | TValue (v : VType)
  | TStruct (t : GoType)
  | TPointer (s : TypeShape)
  | TSlice (s : TypeShape).
#[export] Instance TypeShape_eq_dec : EqDecision TypeShape.
Proof. solve_decision. Defined.

Definition timeStructType : GoType := mkGoType "time" "Time".
Definition decimalStructType : GoType := mkGoType "github.com/kosmassp/SimpleOrm/go/orm/internal/core" "Decimal".

(** The struct type behind a shape whose kind is [reflect.Struct]. *)
Definition struct_of (s : TypeShape) : option GoType :=
  match s with
  | TStruct t => Some t
  | TValue TyTime => Some timeStructType
  | TValue TyDecimal => Some decimalStructType
  | _ => None
  end.

(** [EntityType]: every pointer is followed. *)
Fixpoint EntityType (s : TypeShape) : TypeShape :=
  match s with TPointer e => EntityType e | _ => s end.
(** One pointer is followed. *)
Definition pointee (s : TypeShape) : TypeShape := match s with TPointer e => e | _ => s end.
Definition is_pointer (s : TypeShape) : bool := match s with TPointer _ => true | _ => false end.

(** How messages and custom tokens spell a type.  Within a pointer or a slice Go
    prints the package's name where this prints its path; nothing compares it. *)
Fixpoint shape_text (s : TypeShape) : string :=
  match s with
  | TValue (TyOther name _) => name
  | TValue _ => ""
  | TStruct t => TypeName t
  | TPointer e => "*" +:+ shape_text e
  | TSlice e => "[]" +:+ shape_text e
  end.
(** The type of the values of a field, as the converter names it. *)
Definition value_type (s : TypeShape) : VType :=
  match s with TValue v => v | _ => TyOther (shape_text s) "" end.
Definition field_type (s : TypeShape) : FieldType := mkField (is_pointer s) (value_type (pointee s)).

(** ** Declarations *)

Record StructField := mkStructField {
  sf_Name : string;
  sf_Type : TypeShape;
  (** [Tag.Lookup("orm")] *)
  sf_Tag : option string;
  sf_Exported : bool;
  sf_Anonymous : bool }.

Record StatementParameter := mkStatementParameter { stp_Name : string; stp_Type : TypeShape }.
Record Source := mkSource {
  src_Kind : RelationKind; src_Name : string; src_Schema : string; src_SQL : string;
  src_Parameters : list StatementParameter }.

(** The tokens of an index: [any] in the source. *)
Inductive IndexToken := TokenColumn (property : string) | TokenOrder (order : SortOrder) | TokenElse.
Record IndexDef := mkIndexDef { id_Columns : list IndexToken; id_Name : string; id_IsUnique : bool }.
Record ForeignKeyDef := mkForeignKeyDef { fk_Property : string; fk_References : GoType }.
Record ManyToManyDef := mkManyToManyDef { mm_Property : string; mm_Link : GoType }.

Record EntityDef := mkEntityDef {
  ed_Source : Source;
  ed_Indexes : list IndexDef;
  ed_ForeignKeys : list ForeignKeyDef;
  ed_ManyToMany : list ManyToManyDef;
  (** [None] is a link that names no class *)
  ed_Triggers : list (option GoType) }.

(** [EntityDef{}] *)
Definition no_entity_def : EntityDef := mkEntityDef (mkSource RelationTable "" "" "" []) [] [] [] [].

Record TriggerDef := mkTriggerDef {
  tdef_Name : string; tdef_Timing : TriggerTiming; tdef_Events : TriggerEvents;
  tdef_UpdateOf : list string; tdef_SQL : string }.

(** A struct type: its fields and what its methods answer on a zero value,
    promoted methods included. *)
Record StructDecl := mkStructDecl {
  sd_Fields : list StructField;
  sd_Entity : option EntityDef;
  sd_Trigger : option TriggerDef;
  sd_Owned : bool }.
Definition no_decl : StructDecl := mkStructDecl [] None None false.

Definition Types : Type := gmap GoType StructDecl.

Section Types_.
Context (types : Types) (named : string -> NamedType).

Definition decl_of (t : GoType) : StructDecl := default no_decl (types !! t).
Definition fields_of (t : GoType) : list StructField := sd_Fields (decl_of t).
Definition Descriptor (t : GoType) : option EntityDef := sd_Entity (decl_of t).
Definition TriggerDeclarationOf (t : GoType) : option TriggerDef := sd_Trigger (decl_of t).
Definition IsTriggerType (t : GoType) : bool := bool_decide (is_Some (sd_Trigger (decl_of t))).
Definition IsOwnedType (t : GoType) : bool := sd_Owned (decl_of t).

Definition value_column (v : VType) : ColumnType :=
  match v with
  | TyTime => TypeDateTime
  | TyDecimal => TypeDecimal
  | TyGuid => TypeGUID
  | TyBytes => TypeBytes
  | TyInt KInt8 | TyInt KInt16 | TyInt KUint8 => TypeInt16
  | TyInt KInt32 | TyInt KUint16 => TypeInt32
  | TyInt _ => TypeInt64
  | TyFloat true => TypeFloat
  | TyFloat false => TypeDouble
  | TyBool => TypeBool
  | TyString => TypeString
  | TyOther type _ =>
      if IsEnumType named v then TypeEnumText else
      match nt_kind (named type) with
      | NamedInt (KInt8 | KInt16 | KUint8) => TypeInt16
      | NamedInt (KInt32 | KUint16) => TypeInt32
      | NamedInt _ => TypeInt64
      | NamedBool => TypeBool
      | NamedString => TypeString
      | NamedOther => TypeCustom
      end
  end.
Definition ColumnTypeOf (s : TypeShape) : ColumnType := value_column (value_type (pointee s)).
End Types_.

(** ** The loader's working shapes *)

Record OwnedSpec := mkOwnedSpec {
  os_FieldName : string; os_OwnedType : GoType; os_IsNullable : bool; os_ExplicitPrefix : option string }.

Record MappedPropertySpec := mkSpec_ {
  sp_Type : TypeShape;
  sp_DeclaringType : GoType;
  sp_PropertyName : string;
  sp_ExplicitColumn : option string;
  sp_ColumnTypeOverride : option ColumnType;
  sp_IsKey : bool; sp_IsGenerated : bool; sp_IsVersion : bool; sp_EnumAsInt : bool;
  sp_CreatedAt : bool; sp_UpdatedAt : bool; sp_SoftDelete : bool;
  sp_RenamedFrom : option string;
  sp_Length : option Z; sp_Precision : option Z; sp_Scale : option Z;
  sp_ForeignKeyReferences : option GoType;
  sp_Owner : option OwnedSpec }.

Record IndexColumnSpec := mkIndexColumnSpec { ics_PropertyName : string; ics_Descending : bool }.
Record IndexSpec := mkIndexSpec { ixs_Name : option string; ixs_Unique : bool; ixs_Columns : list IndexColumnSpec }.

Record RelationshipSpec := mkRelationshipSpec {
  rls_PropertyName : string; rls_Kind : RelationshipKind; rls_TargetType : GoType;
  rls_ForeignKeyProperties : list string; rls_LinkType : option GoType;
  rls_LinkForeignKeysToOwner : list string; rls_LinkForeignKeysToTarget : list string;
  rls_Cascade : CascadeOperations }.

(** ** Collected violations

    Every violation of a type is collected before the load fails: a step
    answers its value and what it collected. *)
Definition collected (A : Type) : Type := A * list Error.
Definition cret {A} (a : A) : collected A := (a, []).
Definition cbind {A B} (m : collected A) (k : A -> collected B) : collected B :=
  let '(a, es) := m in let '(b, es') := k a in (b, es ++ es').
Definition violation (code target : string) : list Error := [NewError code target].
Definition when (b : bool) (es : list Error) : list Error := if b then es else [].

(** [target]: "Type.Property" *)
Definition target (entityType : GoType) (propertyName : string) : string :=
  TypeShortName entityType +:+ "." +:+ propertyName.
