(* ===== verification/MapAssembler.v ===== *)
(** The final stage of every loader path (internal/metadata/map_assembler.go):
    column names through the convention, the validations every source shares,
    and the entity map.  Violations are collected; a map comes out only when
    there is none. *)
From S2P Require Import Prelude GoStrings Values Core Triggers Converter Json SchemaSnapshot MigrationSteps MapSpec.
#[local] Open Scope Z_scope.

Section Assembler.
Context (types : Types) (named : string -> NamedType).
Context (entityType : GoType) (kind : RelationKind) (convention : NamingConvention).

Definition is_table : bool := bool_decide (kind = RelationTable).
Definition Target (p : PropertyMap) : string :=
  match DeclaringType p with
  | Some t => TypeShortName t +:+ "." +:+ PropertyName p
  | None => PropertyName p
  end.

(** ** Properties *)

Definition owned_map (o : OwnedSpec) : OwnedMap :=
  mkOwned (os_FieldName o)
    (default (conv_ColumnName convention (os_FieldName o) +:+ "_") (os_ExplicitPrefix o)) (os_IsNullable o).

Definition spec_owner (spec : MappedPropertySpec) : option OwnedMap := owned_map <$> sp_Owner spec.
Definition spec_name (spec : MappedPropertySpec) : string :=
  match spec_owner spec with
  | Some o => ow_PropertyName o +:+ "." +:+ sp_PropertyName spec
  | None => sp_PropertyName spec
  end.
Definition spec_column (spec : MappedPropertySpec) : string :=
  let columnName := default (conv_ColumnName convention (sp_PropertyName spec)) (sp_ExplicitColumn spec) in
  match spec_owner spec with Some o => ow_Prefix o +:+ columnName | None => columnName end.
Definition spec_column_type (spec : MappedPropertySpec) : ColumnType :=
  if sp_EnumAsInt spec then TypeEnumInt
  else default (ColumnTypeOf named (sp_Type spec)) (sp_ColumnTypeOverride spec).
Definition spec_audit (spec : MappedPropertySpec) : AuditRole :=
  if sp_CreatedAt spec then AuditCreatedAt
  else if sp_UpdatedAt spec then AuditUpdatedAt else AuditNone.
Definition countHooks (spec : MappedPropertySpec) : nat :=
  length (List.filter id [sp_CreatedAt spec; sp_UpdatedAt spec; sp_SoftDelete spec]).
Definition spec_renamed_from (spec : MappedPropertySpec) : option string :=
  old ← sp_RenamedFrom spec;
  if decide (TrimSpace old = "") then None else Some (TrimSpace old).

(** The facets that do not fit, by MAP-032. *)
Definition length_refused (columnType : ColumnType) (spec : MappedPropertySpec) : bool :=
  match sp_Length spec with
  | None => false
  | Some n =>
      if negb (bool_decide (columnType = TypeString) || bool_decide (columnType = TypeBytes)) then true else n <=? 0
  end.
Definition precision_refused (columnType : ColumnType) (spec : MappedPropertySpec) : bool :=
  match sp_Precision spec, sp_Scale spec with
  | None, None => false
  | precision, scale =>
      if negb (bool_decide (columnType = TypeDecimal)) then true else
      match precision, scale with
      | None, _ => true
      | Some p, None => p <=? 0
      | Some p, Some s => if p <=? 0 then true else if s <? 0 then true else p <? s
      end
  end.

Definition facets : Type := Z * Z * Z.
Definition validateFacets (targetName : string) (columnType : ColumnType) (spec : MappedPropertySpec) : collected facets :=
  match sp_Length spec, sp_Precision spec, sp_Scale spec with
  | None, None, None => cret (0, 0, 0)
  | length, precision, scale =>
      if negb is_table then ((0, 0, 0), violation "MAP-032" targetName) else
      let es := when (length_refused columnType spec) (violation "MAP-032" targetName) ++
                when (precision_refused columnType spec) (violation "MAP-032" targetName) in
      match es with
      | [] => cret (default 0 length, default 0 precision, match precision with Some _ => default 0 scale | None => 0 end)
      | _ => ((0, 0, 0), es)
      end
  end.

Definition resolve_property (spec : MappedPropertySpec) : PropertyMap :=
  let owner := spec_owner spec in
  let '(length, precision, scale) := (validateFacets (target entityType (spec_name spec)) (spec_column_type spec) spec).1 in
  mkProperty (Some (sp_DeclaringType spec)) (spec_name spec) (spec_column spec) (field_type (sp_Type spec))
    (spec_column_type spec)
    (is_pointer (sp_Type spec) || match owner with Some o => ow_IsNullable o | None => false end)
    (sp_IsKey spec) (sp_IsGenerated spec) (sp_IsVersion spec) (spec_audit spec) (sp_SoftDelete spec)
    (spec_renamed_from spec) length precision scale (sp_ForeignKeyReferences spec) owner.

Definition property_violations (seenColumns : gset string) (spec : MappedPropertySpec) : list Error :=
  let t := target entityType (spec_name spec) in
  when (bool_decide (spec_column spec ∈ seenColumns)) (violation "MAP-018" t) ++
  when (1 <? countHooks spec)%nat (violation "MAP-026" t) ++
  when (match sp_RenamedFrom spec with Some old => bool_decide (TrimSpace old = "") | None => false end)
    (violation "MAP-027" t) ++
  (validateFacets t (spec_column_type spec) spec).2.

Fixpoint properties_violations (seenColumns : gset string) (specs : list MappedPropertySpec) : list Error :=
  match specs with
  | [] => []
  | spec :: rest =>
      property_violations seenColumns spec ++ properties_violations ({[spec_column spec]} ∪ seenColumns) rest
  end.

Definition by_property (properties : list PropertyMap) : gmap string PropertyMap :=
  fold_left (fun m p => <[PropertyName p := p]> m) properties ∅.

Definition buildProperties (specs : list MappedPropertySpec) : collected (list PropertyMap) :=
  (resolve_property <$> specs, properties_violations ∅ specs).

(** ** Validations over the properties *)

Definition hook_role (p : PropertyMap) : option string :=
  match Audit p with
  | AuditCreatedAt => Some "created_at"
  | AuditUpdatedAt => Some "updated_at"
  | AuditNone => if IsSoftDelete p then Some "soft_delete" else None
  end.

Definition hook_misplaced (p : PropertyMap) : bool :=
  if negb (bool_decide (Audit p = AuditNone)) &&
     negb (bool_decide (ColumnType_ p = TypeDateTime)) && negb (bool_decide (ColumnType_ p = TypeDateTimeOffset)) then true
  else IsSoftDelete p && (negb (bool_decide (ColumnType_ p = TypeBool)) || IsNullable p).

Fixpoint validateHooks (roles : gset string) (properties : list PropertyMap) : list Error :=
  match properties with
  | [] => []
  | p :: rest =>
      match hook_role p with
      | None => validateHooks roles rest
      | Some role =>
          if negb is_table then violation "MAP-026" (Target p) ++ validateHooks roles rest else
          when (hook_misplaced p) (violation "MAP-026" (Target p)) ++
          when (IsKey p || IsVersion p || IsGenerated p) (violation "MAP-026" (Target p)) ++
          when (bool_decide (role ∈ roles)) (violation "MAP-026" (Target p)) ++
          validateHooks ({[role]} ∪ roles) rest
      end
  end.

Fixpoint validateRenamedFrom (claimed : gset string) (properties : list PropertyMap) : list Error :=
  match properties with
  | [] => []
  | p :: rest =>
      match RenamedFrom p with
      | None => validateRenamedFrom claimed rest
      | Some old =>
          if negb is_table then violation "MAP-027" (Target p) ++ validateRenamedFrom claimed rest else
          when (bool_decide (ToLower old ∈ claimed)) (violation "MAP-027" (Target p)) ++
          validateRenamedFrom ({[ToLower old]} ∪ claimed) rest
      end
  end.

Fixpoint validateVersion (version : bool) (properties : list PropertyMap) : list Error :=
  match properties with
  | [] => []
  | p :: rest =>
      if negb (IsVersion p) then validateVersion version rest
      else if version then violation "MAP-019" (Target p) ++ validateVersion true rest
      else when (negb (IsInteger (ColumnType_ p))) (violation "MAP-019" (Target p)) ++
           when (IsKey p) (violation "MAP-019" (Target p)) ++ validateVersion true rest
  end.

Definition resolveKeyStrategy (properties : list PropertyMap) : collected KeyStrategy :=
  match List.filter IsKey properties with
  | [] => (KeyNone, when is_table (violation "MAP-019" (TypeShortName entityType)))
  | k :: more =>
      match List.filter IsGenerated (k :: more) with
      | g :: _ =>
          (KeyDatabaseGenerated,
           match more with
           | _ :: _ => violation "MAP-019" (Target g)
           | [] => when (negb (IsInteger (ColumnType_ k))) (violation "MAP-019" (Target k))
           end)
      | [] =>
          match more with
          | [] => if decide (ColumnType_ k = TypeGUID) then cret KeyClientGuid else cret KeyNatural
          | _ => cret KeyNatural
          end
      end
  end.

(** ** Indexes *)

Definition resolve_index_column (byProperty : gmap string PropertyMap) (c : IndexColumnSpec) : collected (option IndexColumn) :=
  match byProperty !! ics_PropertyName c with
  | None => (None, violation "MAP-015" (TypeShortName entityType +:+ " index"))
  | Some p => cret (Some (mkIndexColumn (ics_PropertyName c) (ColumnName p) (ics_Descending c)))
  end.

Definition resolve_index (relationName : string) (byProperty : gmap string PropertyMap) (spec : IndexSpec)
    : collected (option EntityIndex) :=
  let resolved := resolve_index_column byProperty <$> ixs_Columns spec in
  let es := mbind snd resolved in
  match es with
  | [] =>
      let columns := omap fst resolved in
      let name := default (conv_IndexName convention relationName (ic_ColumnName <$> columns)) (ixs_Name spec) in
      cret (Some (mkEntityIndex name columns (ixs_Unique spec)))
  | _ => (None, es)
  end.

Definition resolveIndexColumns (relationName : string) (indexSpecs : list IndexSpec)
    (byProperty : gmap string PropertyMap) : collected (list EntityIndex) :=
  let resolved := resolve_index relationName byProperty <$> indexSpecs in
  (omap fst resolved, mbind snd resolved).

(** ** Relationships *)

(** [keyArity]: the [key] options of a struct, those it embeds by value
    included.  [depth] bounds how deep structs embed one another. *)
Definition has_key_option (tag : string) : bool :=
  existsb (fun token => bool_decide (TrimSpace token = "key")) (Split tag ","%char).

Fixpoint keyArity (depth : nat) (t : GoType) : nat :=
  match depth with
  | 0%nat => 0
  | S depth =>
      sum_list ((fun field =>
        if negb (sf_Exported field) then 0%nat else
        match sf_Anonymous field, sf_Type field, struct_of (sf_Type field) with
        | true, TPointer _, _ => 0%nat
        | true, _, Some embedded => keyArity depth embedded
        | _, _, _ => match sf_Tag field with Some tag => if has_key_option tag then 1%nat else 0%nat | None => 0%nat end
        end) <$> fields_of types t)
  end.

Definition owner_key_count (byProperty : gmap string PropertyMap) : nat :=
  length (List.filter (fun kp => IsKey kp.2) (map_to_list byProperty)).

(** The code a relationship is refused with, [None] when it holds. *)
Definition relationship_refused (depth : nat) (byProperty : gmap string PropertyMap) (spec : RelationshipSpec) : option string :=
  let ownerKeyCount := owner_key_count byProperty in
  let arity := keyArity depth (rls_TargetType spec) in
  match rls_Kind spec with
  | RelationshipManyToOne =>
      if existsb (fun n => negb (bool_decide (is_Some (byProperty !! n)))) (rls_ForeignKeyProperties spec) then Some "MAP-016"
      else if (0 <? arity)%nat && negb (arity =? length (rls_ForeignKeyProperties spec))%nat then Some "MAP-016"
      else None
  | RelationshipOneToMany | RelationshipOneToOne =>
      if (0 <? ownerKeyCount)%nat && negb (length (rls_ForeignKeyProperties spec) =? ownerKeyCount)%nat
      then Some "MAP-021" else None
  | RelationshipManyToMany =>
      if (0 <? ownerKeyCount)%nat && negb (length (rls_LinkForeignKeysToOwner spec) =? ownerKeyCount)%nat
      then Some "MAP-022"
      else if (0 <? arity)%nat && negb (length (rls_LinkForeignKeysToTarget spec) =? arity)%nat
      then Some "MAP-022" else None
  end.

Definition relationship_map (spec : RelationshipSpec) : RelationshipMap :=
  mkRelationship (rls_PropertyName spec) (rls_Kind spec) (rls_TargetType spec) (rls_ForeignKeyProperties spec)
    (rls_LinkType spec) (rls_LinkForeignKeysToOwner spec) (rls_LinkForeignKeysToTarget spec) (rls_Cascade spec).

Definition resolve_relationship (depth : nat) (byProperty : gmap string PropertyMap) (spec : RelationshipSpec)
    : collected (option RelationshipMap) :=
  match relationship_refused depth byProperty spec with
  | Some code => (None, violation code (target entityType (rls_PropertyName spec)))
  | None => cret (Some (relationship_map spec))
  end.

Definition resolveRelationships (depth : nat) (specs : list RelationshipSpec) (byProperty : gmap string PropertyMap)
    : collected (list RelationshipMap) :=
  let resolved := resolve_relationship depth byProperty <$> specs in
  (omap fst resolved, mbind snd resolved).

(** ** Triggers (internal/metadata/trigger_resolver.go) *)

(** [hasTaggedField]: a tag on a field of the struct or of one it embeds, by
    value or behind pointers. *)
Fixpoint hasTaggedField (fuel : nat) (visited : gset GoType) (t : GoType) : bool * gset GoType :=
  match fuel with
  | 0%nat => (false, visited)
  | S fuel =>
      if decide (t ∈ visited) then (false, visited) else
      (fix walk (fields : list StructField) (visited : gset GoType) : bool * gset GoType :=
        match fields with
        | [] => (false, visited)
        | field :: rest =>
            if bool_decide (is_Some (sf_Tag field)) then (true, visited) else
            match sf_Anonymous field, struct_of (EntityType (sf_Type field)) with
            | true, Some embedded =>
                let '(found, visited) := hasTaggedField fuel visited embedded in
                if found : bool then (true, visited) else walk rest visited
            | _, _ => walk rest visited
            end
        end) (fields_of types t) ({[t]} ∪ visited)
  end.
Definition HasMappingDeclarations (t : GoType) : bool :=
  bool_decide (is_Some (Descriptor types t)) || (hasTaggedField (S (S (size types))) ∅ t).1.

Definition resolve_update_of (byProperty : gmap string PropertyMap) (name property : string) : collected (option string) :=
  match byProperty !! property with
  | None => (None, violation "MAP-029" name)
  | Some mapped => cret (Some (ColumnName mapped))
  end.
Definition resolveUpdateOf (declaration : TriggerDef) (name : string) (byProperty : gmap string PropertyMap)
    : collected (list string) :=
  match tdef_UpdateOf declaration with
  | [] => cret []
  | updateOf =>
      let resolved := resolve_update_of byProperty name <$> updateOf in
      (omap fst resolved,
       when (negb (Events_Has (tdef_Events declaration) EventUpdate)) (violation "MAP-029" name) ++ mbind snd resolved)
  end.

(** The rules of one token of the body. *)
Definition token_violations (declaration : TriggerDef) (name : string) (columns : gset string) (token : TriggerToken) : list Error :=
  match tok_Kind token with
  | TokenNew => when (Events_Has (tdef_Events declaration) EventDelete) (violation "MAP-029" name)
  | TokenOld => when (Events_Has (tdef_Events declaration) EventInsert) (violation "MAP-029" name)
  | TokenNow => []
  end ++
  mbind (fun column => when (bool_decide (column ∉ columns)) (violation "MAP-029" name)) (tok_Columns token).

Definition anyEvent : TriggerEvents := Z.lor EventInsert (Z.lor EventUpdate EventDelete).
Definition declaration_violations (declaration : TriggerDef) (name : string) : list Error :=
  when (bool_decide (TrimSpace (tdef_Name declaration) = "")) (violation "MAP-029" name) ++
  when (bool_decide (TriggerTiming_Token (tdef_Timing declaration) = "")) (violation "MAP-029" name) ++
  when ((tdef_Events declaration =? 0) || negb (Z.ldiff (tdef_Events declaration) anyEvent =? 0)) (violation "MAP-029" name) ++
  when (bool_decide (TrimSpace (tdef_SQL declaration) = "")) (violation "MAP-029" name) ++
  when (bool_decide (kind = RelationView) && negb (bool_decide (tdef_Timing declaration = TimingInsteadOf)) &&
        negb (bool_decide (TriggerTiming_Token (tdef_Timing declaration) = ""))) (violation "MAP-029" name).

Definition resolveTrigger (link : GoType) (columns : gset string) (byProperty : gmap string PropertyMap)
    : collected (option TriggerDefinition) :=
  let name := target entityType (TypeShortName link) in
  match TriggerDeclarationOf types link with
  | None => (None, violation "MAP-029" name)
  | Some declaration =>
      let '(updateOf, updateOf_violations) := resolveUpdateOf declaration name byProperty in
      let '(tokens, problems) := ScanTriggerTokens (tdef_SQL declaration) in
      let es :=
        when (HasMappingDeclarations link || IsOwnedType types link) (violation "MAP-029" name) ++
        declaration_violations declaration name ++ updateOf_violations ++
        mbind (fun _ => violation "MAP-029" name) problems ++
        mbind (token_violations declaration name columns) tokens in
      match es with
      | [] => cret (Some (mkTrigger (TrimSpace (tdef_Name declaration)) (tdef_Timing declaration)
                       (tdef_Events declaration) updateOf (TrimSpace (tdef_SQL declaration))))
      | _ => (None, es)
      end
  end.

Definition takes_triggers : bool := bool_decide (kind = RelationTable) || bool_decide (kind = RelationView).

Fixpoint resolve_links (columns : gset string) (byProperty : gmap string PropertyMap) (linked : gset GoType)
    (links : list (option GoType)) : collected (list EntityTrigger) :=
  match links with
  | [] => cret []
  | None :: rest =>
      let '(triggers, es) := resolve_links columns byProperty linked rest in
      (triggers, violation "MAP-029" (TypeShortName entityType) ++ es)
  | Some link :: rest =>
      let name := target entityType (TypeShortName link) in
      if negb takes_triggers || bool_decide (link ∈ linked) then
        let '(triggers, es) := resolve_links columns byProperty linked rest in
        (triggers, violation "MAP-029" name ++ es)
      else
        let '(definition, es) := resolveTrigger link columns byProperty in
        let '(triggers, es') := resolve_links columns byProperty ({[link]} ∪ linked) rest in
        (match definition with Some d => mkEntityTrigger link d :: triggers | None => triggers end, es ++ es')
  end.

Definition resolveTriggers (links : list (option GoType)) (properties : list PropertyMap)
    (byProperty : gmap string PropertyMap) : collected (list EntityTrigger) :=
  resolve_links (list_to_set (ColumnName <$> properties)) byProperty ∅ links.

(** ** [assemble] *)

(** The map with what [EntityMap] leaves out of the session's view. *)
Record LoadedMap := mkLoaded {
  lm_Map : EntityMap; lm_Triggers : list EntityTrigger; lm_Parameters : list StatementParameter }.

Definition assemble (depth : nat) (relationName schema definingSQL : string)
    (statementParameters : list StatementParameter) (specs : list MappedPropertySpec) (indexSpecs : list IndexSpec)
    (relationshipSpecs : list RelationshipSpec) (triggerLinks : list (option GoType)) (errs : list Error)
    : LoadedMap + list Error :=
  let '(properties, property_errors) := buildProperties specs in
  let byProperty := by_property properties in
  let '(keyStrategy, key_errors) := resolveKeyStrategy properties in
  let '(indexes, index_errors) := resolveIndexColumns relationName indexSpecs byProperty in
  let '(relationships, relationship_errors) := resolveRelationships depth relationshipSpecs byProperty in
  let '(triggers, trigger_errors) := resolveTriggers triggerLinks properties byProperty in
  match errs ++ property_errors ++ validateVersion false properties ++ validateHooks ∅ properties ++
        validateRenamedFrom ∅ properties ++ key_errors ++ index_errors ++ relationship_errors ++ trigger_errors with
  | [] => inl (mkLoaded (NewEntityMap entityType kind relationName schema definingSQL properties keyStrategy
                           indexes relationships) triggers statementParameters)
  | es => inr es
  end.
End Assembler.
