(* ===== verification/MapLoader.v ===== *)
(** The loader paths (internal/metadata/attribute_map_loader.go,
    convention_map_loader.go, entity_map_builder.go, loader.go): the declared,
    the conventional and the explicit map of a type, and which one a load takes. *)
From S2P Require Import Prelude GoStrings Values Core Placeholders Digits Triggers Query Converter Json SchemaSnapshot MigrationSteps MapSpec MapAssembler.
#[local] Open Scope Z_scope.

(** ** The tag of a field *)

Record parsedRelationship := mkParsedRelationship {
  pr_kind : RelationshipKind; pr_fkProperties : list string; pr_cascade : CascadeOperations }.

Record fieldDeclaration := mkDeclared {
  fd_isColumn : bool; fd_columnName : option string; fd_isIgnore : bool;
  fd_isKey : bool; fd_isGenerated : bool; fd_isVersion : bool; fd_isEnumInt : bool;
  fd_typeOverride : option ColumnType;
  fd_isCreatedAt : bool; fd_isUpdatedAt : bool; fd_isSoftDelete : bool;
  fd_renamedFrom : option string;
  fd_length : option Z; fd_precision : option Z; fd_scale : option Z;
  fd_isOwned : bool; fd_ownedPrefix : option string;
  fd_relationships : list parsedRelationship;
  fd_hasCascade : bool; fd_cascade : CascadeOperations }.

Definition no_declaration : fieldDeclaration :=
  mkDeclared false None false false false false false None false false false None None None None false None [] false 0.

Definition hasFacet (d : fieldDeclaration) : bool :=
  bool_decide (is_Some (fd_length d)) || bool_decide (is_Some (fd_precision d)) || bool_decide (is_Some (fd_scale d)).
Definition hasHook (d : fieldDeclaration) : bool := fd_isCreatedAt d || fd_isUpdatedAt d || fd_isSoftDelete d.

(** What one option does to the declaration. *)
Inductive facet := FacetLength | FacetPrecision | FacetScale.
Definition facet_name (f : facet) : string :=
  match f with FacetLength => "length" | FacetPrecision => "precision" | FacetScale => "scale" end.
Definition facet_of (f : facet) (d : fieldDeclaration) : option Z :=
  match f with FacetLength => fd_length d | FacetPrecision => fd_precision d | FacetScale => fd_scale d end.

Inductive hook := HookCreatedAt | HookUpdatedAt | HookSoftDelete.
Definition hook_of (h : hook) (d : fieldDeclaration) : bool :=
  match h with HookCreatedAt => fd_isCreatedAt d | HookUpdatedAt => fd_isUpdatedAt d | HookSoftDelete => fd_isSoftDelete d end.

Definition set_column (name : option string) (d : fieldDeclaration) : fieldDeclaration :=
  let '(mkDeclared _ old ignore key gen version enum type_ cr up soft renamed len prec scale owned prefix rels hasc casc) := d in
  mkDeclared true (match name with Some _ => name | None => old end) ignore key gen version enum type_ cr up soft
    renamed len prec scale owned prefix rels hasc casc.
Definition set_ignore (d : fieldDeclaration) : fieldDeclaration :=
  let '(mkDeclared col name _ key gen version enum type_ cr up soft renamed len prec scale owned prefix rels hasc casc) := d in
  mkDeclared col name true key gen version enum type_ cr up soft renamed len prec scale owned prefix rels hasc casc.
Definition set_key (d : fieldDeclaration) : fieldDeclaration :=
  let '(mkDeclared col name ignore _ gen version enum type_ cr up soft renamed len prec scale owned prefix rels hasc casc) := d in
  mkDeclared col name ignore true gen version enum type_ cr up soft renamed len prec scale owned prefix rels hasc casc.
Definition set_generated (d : fieldDeclaration) : fieldDeclaration :=
  let '(mkDeclared col name ignore key _ version enum type_ cr up soft renamed len prec scale owned prefix rels hasc casc) := d in
  mkDeclared col name ignore key true version enum type_ cr up soft renamed len prec scale owned prefix rels hasc casc.
Definition set_version (d : fieldDeclaration) : fieldDeclaration :=
  let '(mkDeclared col name ignore key gen _ enum type_ cr up soft renamed len prec scale owned prefix rels hasc casc) := d in
  mkDeclared col name ignore key gen true enum type_ cr up soft renamed len prec scale owned prefix rels hasc casc.
Definition set_enum_int (d : fieldDeclaration) : fieldDeclaration :=
  let '(mkDeclared col name ignore key gen version _ type_ cr up soft renamed len prec scale owned prefix rels hasc casc) := d in
  mkDeclared col name ignore key gen version true type_ cr up soft renamed len prec scale owned prefix rels hasc casc.
Definition set_type (t : ColumnType) (d : fieldDeclaration) : fieldDeclaration :=
  let '(mkDeclared col name ignore key gen version enum _ cr up soft renamed len prec scale owned prefix rels hasc casc) := d in
  mkDeclared col name ignore key gen version enum (Some t) cr up soft renamed len prec scale owned prefix rels hasc casc.
Definition set_hook (h : hook) (d : fieldDeclaration) : fieldDeclaration :=
  let '(mkDeclared col name ignore key gen version enum type_ cr up soft renamed len prec scale owned prefix rels hasc casc) := d in
  let '(cr, up, soft) := match h with HookCreatedAt => (true, up, soft) | HookUpdatedAt => (cr, true, soft) | HookSoftDelete => (cr, up, true) end in
  mkDeclared col name ignore key gen version enum type_ cr up soft renamed len prec scale owned prefix rels hasc casc.
Definition set_renamed_from (old : string) (d : fieldDeclaration) : fieldDeclaration :=
  let '(mkDeclared col name ignore key gen version enum type_ cr up soft _ len prec scale owned prefix rels hasc casc) := d in
  mkDeclared col name ignore key gen version enum type_ cr up soft (Some old) len prec scale owned prefix rels hasc casc.
Definition set_facet (f : facet) (z : Z) (d : fieldDeclaration) : fieldDeclaration :=
  let '(mkDeclared col name ignore key gen version enum type_ cr up soft renamed len prec scale owned prefix rels hasc casc) := d in
  let '(len, prec, scale) := match f with FacetLength => (Some z, prec, scale) | FacetPrecision => (len, Some z, scale) | FacetScale => (len, prec, Some z) end in
  mkDeclared col name ignore key gen version enum type_ cr up soft renamed len prec scale owned prefix rels hasc casc.
Definition set_owned (p : option string) (d : fieldDeclaration) : fieldDeclaration :=
  let '(mkDeclared col name ignore key gen version enum type_ cr up soft renamed len prec scale _ prefix rels hasc casc) := d in
  mkDeclared col name ignore key gen version enum type_ cr up soft renamed len prec scale true
    (match p with Some _ => p | None => prefix end) rels hasc casc.
Definition set_cascade (c : CascadeOperations) (d : fieldDeclaration) : fieldDeclaration :=
  let '(mkDeclared col name ignore key gen version enum type_ cr up soft renamed len prec scale owned prefix rels _ _) := d in
  mkDeclared col name ignore key gen version enum type_ cr up soft renamed len prec scale owned prefix rels true c.
Definition add_relationship (k : RelationshipKind) (fks : list string) (d : fieldDeclaration) : fieldDeclaration :=
  let '(mkDeclared col name ignore key gen version enum type_ cr up soft renamed len prec scale owned prefix rels hasc casc) := d in
  mkDeclared col name ignore key gen version enum type_ cr up soft renamed len prec scale owned prefix
    (rels ++ [mkParsedRelationship k fks 0]) hasc casc.

Section Tags.
Context (fieldTarget : string).
Definition malformed : list Error := violation "MAP-023" fieldTarget.

Definition declareRenamedFrom (old : string) (d : fieldDeclaration) : collected fieldDeclaration :=
  (set_renamed_from old d, when (bool_decide (is_Some (fd_renamedFrom d))) malformed).

Definition declareFacet (f : facet) (value : string) (d : fieldDeclaration) : collected fieldDeclaration :=
  match facet_of f d with
  | Some _ => (d, malformed)
  | None =>
      match ParseInt (TrimSpace value) with
      | None => (d, malformed)
      | Some z => cret (set_facet f z d)
      end
  end.

Definition declareHook (h : hook) (d : fieldDeclaration) : collected fieldDeclaration :=
  (set_hook h d, when (hook_of h d) malformed).

Definition splitFKList (value : string) : list string :=
  if decide (value = "") then [] else Split value "+"%char.

(** The rest of a token after its prefix. *)
Definition option_value (name token : string) : option string :=
  if HasPrefix token (name +:+ "=")
  then Some (String.substring (String.length name + 1) (String.length token - (String.length name + 1)) token)
  else None.

Definition declareValue (token : string) (d : fieldDeclaration) : collected fieldDeclaration :=
  match option_value "column" token with Some v => cret (set_column (Some v) d) | None =>
  match option_value "length" token with Some v => declareFacet FacetLength v d | None =>
  match option_value "precision" token with Some v => declareFacet FacetPrecision v d | None =>
  match option_value "scale" token with Some v => declareFacet FacetScale v d | None =>
  match option_value "renamed_from" token with Some v => declareRenamedFrom v d | None =>
  match option_value "type" token with
  | Some v => match ParseColumnType v with Some t => cret (set_type t d) | None => (d, malformed) end
  | None =>
  match option_value "owned" token with Some v => cret (set_owned (Some v) d) | None =>
  match option_value "cascade" token with
  | Some v => match ParseCascadeOperations v with Some c => cret (set_cascade c d) | None => (d, malformed) end
  | None =>
  match option_value "many_to_one" token with Some v => cret (add_relationship RelationshipManyToOne (splitFKList v) d) | None =>
  match option_value "one_to_many" token with Some v => cret (add_relationship RelationshipOneToMany (splitFKList v) d) | None =>
  match option_value "one_to_one" token with Some v => cret (add_relationship RelationshipOneToOne (splitFKList v) d) | None =>
  (d, malformed)
  end end end end end end end end end end end.

Definition declareOption (token : string) (d : fieldDeclaration) : collected fieldDeclaration :=
  if decide (token = "") then (d, malformed)
  else if decide (token = "ignore") then cret (set_ignore d)
  else if decide (token = "column") then cret (set_column None d)
  else if decide (token = "key") then cret (set_key d)
  else if decide (token = "generated") then cret (set_generated d)
  else if decide (token = "version") then cret (set_version d)
  else if decide (token = "enum_int") then cret (set_enum_int d)
  else if decide (token = "created_at") then declareHook HookCreatedAt d
  else if decide (token = "updated_at") then declareHook HookUpdatedAt d
  else if decide (token = "soft_delete") then declareHook HookSoftDelete d
  else if decide (token = "renamed_from") then declareRenamedFrom "" d
  else if decide (token = "owned") then cret (set_owned None d)
  else if decide (token = "cascade" \/ token = "cascade=") then (d, violation "MAP-025" fieldTarget)
  else if decide (token = "many_to_many") then cret (add_relationship RelationshipManyToMany [] d)
  else declareValue token d.

Fixpoint declare_options (tokens : list string) (d : fieldDeclaration) : collected fieldDeclaration :=
  match tokens with
  | [] => cret d
  | token :: rest => cbind (declareOption (TrimSpace token) d) (declare_options rest)
  end.
Definition parseFieldTag (tagValue : string) : collected fieldDeclaration :=
  declare_options (Split tagValue ","%char) no_declaration.
End Tags.

Section Loader.
Context (types : Types) (named : string -> NamedType) (depth : nat).

(** ** Fields *)

(** [Index], the path to the field, is its place in the program's memory and
    nothing the maps are compared by. *)
Record discoveredField := mkDiscovered { df_Field : StructField; df_DeclaringType : GoType }.

(** The struct's own fields first, then those of each struct it embeds. *)
Inductive field_class := FieldHidden | FieldPointer | FieldEmbedded (t : GoType) | FieldOwn.
Definition classify (field : StructField) : field_class :=
  if negb (sf_Exported field) then FieldHidden
  else if negb (sf_Anonymous field) then FieldOwn
  else match sf_Type field, struct_of (sf_Type field) with
       | TPointer _, _ => FieldPointer
       | _, Some t => FieldEmbedded t
       | _, None => FieldOwn
       end.

Definition own_fields (t : GoType) : list discoveredField :=
  omap (fun field => match classify field with FieldOwn => Some (mkDiscovered field t) | _ => None end) (fields_of types t).

Fixpoint discoverFields (depth : nat) (t : GoType) : collected (list discoveredField) :=
  match depth with
  | 0%nat => cret []
  | S depth =>
      let below := (fun field =>
        match classify field with
        | FieldPointer => ([], violation "MAP-023" (target t (sf_Name field)))
        | FieldEmbedded embedded => discoverFields depth embedded
        | _ => cret []
        end) <$> fields_of types t in
      (own_fields t ++ mbind fst below, mbind snd below)
  end.

(** [reflect.Type.FieldByName]: the shallowest field of that name, none where
    two are equally deep. *)
Definition embedded_structs (visited : gset GoType) (t : GoType) : list GoType :=
  omap (fun field => if sf_Anonymous field
                     then s ← struct_of (pointee (sf_Type field)); if decide (s ∈ visited) then None else Some s
                     else None) (fields_of types t).
Definition fields_named (name : string) (t : GoType) : list discoveredField :=
  (fun f => mkDiscovered f t) <$> List.filter (fun f => bool_decide (sf_Name f = name)) (fields_of types t).
Fixpoint field_at (fuel : nat) (visited : gset GoType) (current : list GoType) (name : string) : option discoveredField :=
  match fuel, current with
  | 0%nat, _ | _, [] => None
  | S fuel, _ =>
      match mbind (fields_named name) current with
      | [f] => Some f
      | _ :: _ => None
      | [] =>
          let visited := list_to_set current ∪ visited in
          field_at fuel visited (mbind (embedded_structs visited) current) name
      end
  end.
Definition FieldByName (t : GoType) (name : string) : option discoveredField :=
  field_at (S (S (size types))) ∅ [t] name.
Definition exported_field (t : GoType) (name : string) : option discoveredField :=
  f ← FieldByName t name; if sf_Exported (df_Field f) then Some f else None.

Definition pointerToStructElem (s : TypeShape) : option GoType :=
  match s with TPointer e => struct_of e | _ => None end.
Definition sliceEntityElem (s : TypeShape) : option GoType :=
  match s with TSlice e => struct_of (pointee e) | _ => None end.

(** ** Relationships *)

Definition validateTargetForeignKeys (targetType : GoType) (names : list string) : bool :=
  negb (bool_decide (names = [])) &&
  forallb (fun name => bool_decide (is_Some (exported_field targetType name))) names.

Definition readManyToManyLink (entityType : GoType) (fieldName fieldTarget : string) (elementType : GoType)
    : collected (list RelationshipSpec) :=
  let declared := match Descriptor types entityType with
                  | Some def => List.find (fun m => bool_decide (mm_Property m = fieldName)) (ed_ManyToMany def)
                  | None => None
                  end in
  match declared with
  | None => ([], violation "MAP-022" fieldTarget)
  | Some m =>
      let foreignKeys := match Descriptor types (mm_Link m) with Some d => ed_ForeignKeys d | None => [] end in
      let referencing t := fk_Property <$> List.filter (fun fk => bool_decide (fk_References fk = t)) foreignKeys in
      let toOwner := referencing entityType in
      let toTarget := referencing elementType in
      match when (bool_decide (toOwner = [])) (violation "MAP-022" fieldTarget) ++
            when (bool_decide (toTarget = [])) (violation "MAP-022" fieldTarget) with
      | [] => cret [mkRelationshipSpec fieldName RelationshipManyToMany elementType [] (Some (mm_Link m)) toOwner toTarget 0]
      | es => ([], es)
      end
  end.

Definition readRelationshipField (entityType : GoType) (field : StructField) (fieldTarget : string)
    (rel : parsedRelationship) : collected (list RelationshipSpec) :=
  let spec targetType :=
    mkRelationshipSpec (sf_Name field) (pr_kind rel) targetType (pr_fkProperties rel) None [] [] (pr_cascade rel) in
  match pr_kind rel with
  | RelationshipManyToOne =>
      match pointerToStructElem (sf_Type field) with
      | None => ([], violation "MAP-020" fieldTarget)
      | Some targetType =>
          if decide (pr_fkProperties rel = []) then ([], violation "MAP-016" fieldTarget) else cret [spec targetType]
      end
  | RelationshipOneToOne =>
      match pointerToStructElem (sf_Type field) with
      | None => ([], violation "MAP-020" fieldTarget)
      | Some targetType =>
          if validateTargetForeignKeys targetType (pr_fkProperties rel) then cret [spec targetType]
          else ([], violation "MAP-021" fieldTarget)
      end
  | RelationshipOneToMany =>
      match sliceEntityElem (sf_Type field) with
      | None => ([], violation "MAP-020" fieldTarget)
      | Some elementType =>
          if validateTargetForeignKeys elementType (pr_fkProperties rel) then cret [spec elementType]
          else ([], violation "MAP-021" fieldTarget)
      end
  | RelationshipManyToMany =>
      match sliceEntityElem (sf_Type field) with
      | None => ([], violation "MAP-020" fieldTarget)
      | Some elementType => readManyToManyLink entityType (sf_Name field) fieldTarget elementType
      end
  end.

(** ** Fields to specs *)

Definition column_spec (df : discoveredField) (decl : fieldDeclaration) : MappedPropertySpec :=
  mkSpec_ (sf_Type (df_Field df)) (df_DeclaringType df) (sf_Name (df_Field df)) (fd_columnName decl) (fd_typeOverride decl)
    (fd_isKey decl) (fd_isGenerated decl) (fd_isVersion decl) (fd_isEnumInt decl)
    (fd_isCreatedAt decl) (fd_isUpdatedAt decl) (fd_isSoftDelete decl)
    (fd_renamedFrom decl) (fd_length decl) (fd_precision decl) (fd_scale decl) None None.
Definition member_spec (owner : OwnedSpec) (df : discoveredField) (decl : fieldDeclaration) : MappedPropertySpec :=
  mkSpec_ (sf_Type (df_Field df)) (df_DeclaringType df) (sf_Name (df_Field df)) (fd_columnName decl) (fd_typeOverride decl)
    false false false (fd_isEnumInt decl) false false false None (fd_length decl) (fd_precision decl) (fd_scale decl)
    None (Some owner).

Definition enum_violation (field : StructField) (decl : fieldDeclaration) (fieldTarget : string) : list Error :=
  when (fd_isEnumInt decl && negb (IsEnumType named (value_type (pointee (sf_Type field))))) (violation "MAP-023" fieldTarget).

(** One member of an owned type: its spec, whether it counts as mapped, and
    what it violates. *)
Definition readMember (owner : OwnedSpec) (member : discoveredField) : collected (option MappedPropertySpec * bool) :=
  let memberTarget := target (os_OwnedType owner) (sf_Name (df_Field member)) in
  match sf_Tag (df_Field member) with
  | None => ((None, false), violation "MAP-010" memberTarget)
  | Some tagValue =>
      cbind (parseFieldTag memberTarget tagValue) (fun decl =>
      if fd_hasCascade decl then ((None, false), violation "MAP-025" memberTarget)
      else if bool_decide (is_Some (fd_renamedFrom decl)) then ((None, true), violation "MAP-027" memberTarget)
      else if hasHook decl then ((None, true), violation "MAP-026" memberTarget)
      else if fd_isKey decl || fd_isGenerated decl || fd_isVersion decl || fd_isOwned decl ||
              negb (bool_decide (length (fd_relationships decl) = 0%nat)) then ((None, false), violation "MAP-024" memberTarget)
      else if fd_isIgnore decl then
        ((None, false), when (fd_isColumn decl) (violation "MAP-019" memberTarget) ++
                        when (hasFacet decl) (violation "MAP-032" memberTarget))
      else if negb (fd_isColumn decl) then
        ((None, false), when (fd_isEnumInt decl || bool_decide (is_Some (fd_typeOverride decl))) (violation "MAP-019" memberTarget) ++
                        when (hasFacet decl) (violation "MAP-032" memberTarget))
      else ((Some (member_spec owner member decl), true), enum_violation (df_Field member) decl memberTarget))
  end.

Definition readOwnedType (field : StructField) (fieldTarget : string) (explicitPrefix : option string)
    : collected (list MappedPropertySpec) :=
  match struct_of (pointee (sf_Type field)) with
  | None => ([], violation "MAP-024" fieldTarget)
  | Some ownedType =>
      if decide (ownedType = timeStructType) then ([], violation "MAP-024" fieldTarget)
      else if bool_decide (is_Some (Descriptor types ownedType)) then ([], violation "MAP-024" fieldTarget)
      else if negb (IsOwnedType types ownedType) then ([], violation "MAP-024" fieldTarget)
      else
        let owner := mkOwnedSpec (sf_Name field) ownedType (is_pointer (sf_Type field)) explicitPrefix in
        let '(members, discErrs) := discoverFields depth ownedType in
        let read := readMember owner <$> members in
        (omap (fun r => r.1.1) read,
         discErrs ++ mbind snd read ++
         when (negb (existsb (fun r => r.1.2) read)) (violation "MAP-024" fieldTarget))
  end.

(** The specs and the relationships of one field. *)
Definition read : Type := list MappedPropertySpec * list RelationshipSpec.
Definition refused (code fieldTarget : string) : collected read := (([], []), violation code fieldTarget).

(** A field declared [owned]. *)
Definition readOwnedField (field : StructField) (fieldTarget : string) (decl : fieldDeclaration) : collected read :=
  if hasHook decl then refused "MAP-026" fieldTarget
  else if bool_decide (is_Some (fd_renamedFrom decl)) then refused "MAP-027" fieldTarget
  else if hasFacet decl then refused "MAP-032" fieldTarget
  else if fd_hasCascade decl then refused "MAP-025" fieldTarget
  else if fd_isColumn decl || fd_isIgnore decl || fd_isKey decl || fd_isGenerated decl || fd_isVersion decl ||
          fd_isEnumInt decl || bool_decide (is_Some (fd_typeOverride decl)) ||
          negb (bool_decide (length (fd_relationships decl) = 0%nat)) then refused "MAP-019" fieldTarget
  else cbind (readOwnedType field fieldTarget (fd_ownedPrefix decl)) (fun specs => cret (specs, [])).

(** What a declaration of no mapped column may not carry. *)
Definition column_only (fieldTarget : string) (decl : fieldDeclaration) : list Error :=
  when (hasHook decl) (violation "MAP-026" fieldTarget) ++
  when (bool_decide (is_Some (fd_renamedFrom decl))) (violation "MAP-027" fieldTarget) ++
  when (hasFacet decl) (violation "MAP-032" fieldTarget).

Definition readNavigation (entityType : GoType) (field : StructField) (fieldTarget : string)
    (decl : fieldDeclaration) (declared : parsedRelationship) : collected read :=
  let rel := mkParsedRelationship (pr_kind declared) (pr_fkProperties declared) (fd_cascade decl) in
  let es := when (fd_isColumn decl || fd_isIgnore decl) (violation "MAP-019" fieldTarget) ++ column_only fieldTarget decl in
  if fd_hasCascade decl && bool_decide (pr_kind rel = RelationshipManyToMany)
  then (([], []), es ++ violation "MAP-025" fieldTarget)
  else
    let '(relationships, es') := readRelationshipField entityType field fieldTarget rel in
    (([], relationships), es ++ es').

Definition readColumnField (kind : RelationKind) (df : discoveredField) (fieldTarget : string)
    (decl : fieldDeclaration) : collected read :=
  if negb (fd_isColumn decl) then
    (([], []), column_only fieldTarget decl ++
      when (fd_isKey decl || fd_isGenerated decl || fd_isVersion decl || fd_isEnumInt decl ||
            bool_decide (is_Some (fd_typeOverride decl))) (violation "MAP-019" fieldTarget))
  else
    (([column_spec df decl], []),
      enum_violation (df_Field df) decl fieldTarget ++
      when (negb (bool_decide (kind = RelationTable)) && (fd_isGenerated decl || fd_isVersion decl)) (violation "MAP-013" fieldTarget) ++
      when (fd_isKey decl && (bool_decide (kind = RelationStatement) || bool_decide (kind = RelationProcedure)))
        (violation "MAP-013" fieldTarget)).

Definition readField (entityType : GoType) (kind : RelationKind) (df : discoveredField) : collected read :=
  let field := df_Field df in
  let fieldTarget := target entityType (sf_Name field) in
  match sf_Tag field with
  | None => refused "MAP-010" fieldTarget
  | Some tagValue =>
      cbind (parseFieldTag fieldTarget tagValue) (fun decl =>
      if fd_isOwned decl then readOwnedField field fieldTarget decl else
      match fd_relationships decl with
      | _ :: _ :: _ => refused "MAP-019" fieldTarget
      | [declared] => readNavigation entityType field fieldTarget decl declared
      | [] =>
          if fd_hasCascade decl then refused "MAP-025" fieldTarget
          else if fd_isIgnore decl then
            (([], []), when (fd_isColumn decl) (violation "MAP-019" fieldTarget) ++ column_only fieldTarget decl)
          else readColumnField kind df fieldTarget decl
      end)
  end.

Definition readProperties (t : GoType) (kind : RelationKind) : collected read :=
  let '(fields, discErrs) := discoverFields depth t in
  let fields_read := readField t kind <$> fields in
  ((mbind (fun r => r.1.1) fields_read, mbind (fun r => r.1.2) fields_read), discErrs ++ mbind snd fields_read).

(** ** The descriptor *)

Definition dedupe_step (t : GoType) (st : list StatementParameter * list Error) (p : StatementParameter) :=
  if decide (stp_Name p ∈ stp_Name <$> st.1) then (st.1, st.2 ++ violation "MAP-017" (TypeShortName t))
  else (st.1 ++ [p], st.2).
Definition dedupeParameters (t : GoType) (params : list StatementParameter) : collected (list StatementParameter) :=
  fold_left (dedupe_step t) params ([], []).

(** The relation source as [resolveSource] answers it. *)
Definition resolveSource (t : GoType) (descriptor : option EntityDef) (convention : NamingConvention) : collected Source :=
  match descriptor with
  | None => cret (mkSource RelationTable (conv_TableName convention (TypeShortName t)) "" "" [])
  | Some def =>
      let source := ed_Source def in
      let kind := src_Kind source in
      let name := if bool_decide (kind = RelationTable) && bool_decide (src_Name source = "")
                  then conv_TableName convention (TypeShortName t) else src_Name source in
      let '(params, es) :=
        match kind with
        | RelationStatement | RelationProcedure => dedupeParameters t (src_Parameters source)
        | _ => cret (src_Parameters source)
        end in
      (mkSource kind name (src_Schema source) (src_SQL source) params,
       when (negb (bool_decide (kind = RelationTable)) && bool_decide (TrimSpace (src_SQL source) = ""))
         (violation "MAP-019" (TypeShortName t)) ++ es)
  end.

Definition checkStatementPlaceholders (t : GoType) (sql : string) (declared : list StatementParameter) : list Error :=
  let placeholders := FindPlaceholders sql in
  mbind (fun placeholder => when (negb (existsb (fun p => EqualFold (stp_Name p) placeholder) declared))
                              (violation "PRM-010" (TypeShortName t))) placeholders ++
  mbind (fun p => when (negb (existsb (fun placeholder => EqualFold (stp_Name p) placeholder) placeholders))
                    (violation "PRM-011" (TypeShortName t))) declared.

(** [byPropertyName] keeps the last spec of a name, under the member's own name
    for an owned one; a reference is written to that spec. *)
Fixpoint last_named (i : nat) (name : string) (specs : list MappedPropertySpec) : option nat :=
  match specs with
  | [] => None
  | spec :: rest =>
      match last_named (S i) name rest with
      | Some j => Some j
      | None => if decide (sp_PropertyName spec = name) then Some i else None
      end
  end.
Definition set_reference (t : GoType) (spec : MappedPropertySpec) : MappedPropertySpec :=
  mkSpec_ (sp_Type spec) (sp_DeclaringType spec) (sp_PropertyName spec) (sp_ExplicitColumn spec) (sp_ColumnTypeOverride spec)
    (sp_IsKey spec) (sp_IsGenerated spec) (sp_IsVersion spec) (sp_EnumAsInt spec)
    (sp_CreatedAt spec) (sp_UpdatedAt spec) (sp_SoftDelete spec) (sp_RenamedFrom spec)
    (sp_Length spec) (sp_Precision spec) (sp_Scale spec) (Some t) (sp_Owner spec).
Definition apply_foreign_key (t : GoType) (st : collected (list MappedPropertySpec)) (fk : ForeignKeyDef)
    : collected (list MappedPropertySpec) :=
  match last_named 0 (fk_Property fk) st.1 with
  | None => (st.1, st.2 ++ violation "MAP-016" (target t (fk_Property fk)))
  | Some i => (alter (set_reference (fk_References fk)) i st.1, st.2)
  end.
Definition applyForeignKeyReferences (t : GoType) (foreignKeys : list ForeignKeyDef) (specs : list MappedPropertySpec)
    : collected (list MappedPropertySpec) :=
  fold_left (apply_foreign_key t) foreignKeys (specs, []).

(** The columns of a token stream: an order applies to the column before it. *)
Fixpoint index_columns (tokens : list IndexToken) (columns : list IndexColumnSpec) : list IndexColumnSpec * nat :=
  match tokens with
  | [] => (columns, 0%nat)
  | TokenColumn property :: rest => index_columns rest (columns ++ [mkIndexColumnSpec property false])
  | TokenOrder order :: rest =>
      match last columns with
      | None => let '(columns, bad) := index_columns rest columns in (columns, S bad)
      | Some c =>
          index_columns rest (take (length columns - 1) columns ++
                              [mkIndexColumnSpec (ics_PropertyName c) (bool_decide (order = Desc))])
      end
  | TokenElse :: rest => let '(columns, bad) := index_columns rest columns in (columns, S bad)
  end.
Fixpoint consecutive_orders (tokens : list IndexToken) : nat :=
  match tokens with
  | TokenOrder _ :: ((TokenOrder _ :: _) as rest) => S (consecutive_orders rest)
  | _ :: rest => consecutive_orders rest
  | [] => 0%nat
  end.
Definition read_index (t : GoType) (index : IndexDef) : collected (option IndexSpec) :=
  let '(columns, bad) := index_columns (id_Columns index) [] in
  let violations := (bad + consecutive_orders (id_Columns index) + (if decide (columns = []) then 1 else 0))%nat in
  match violations with
  | 0%nat => cret (Some (mkIndexSpec (if decide (id_Name index = "") then None else Some (id_Name index)) (id_IsUnique index) columns))
  | n => (None, replicate n (NewError "MAP-015" (TypeShortName t +:+ " index")))
  end.
Definition readIndexStreamShape (t : GoType) (kind : RelationKind) (descriptor : option EntityDef) : collected (list IndexSpec) :=
  match descriptor with
  | None => cret []
  | Some def =>
      match ed_Indexes def with
      | [] => cret []
      | indexes =>
          if negb (bool_decide (kind = RelationTable)) && negb (bool_decide (kind = RelationMaterializedView))
          then ([], violation "MAP-014" (TypeShortName t))
          else
            let read := read_index t <$> indexes in
            (omap fst read, mbind snd read)
      end
  end.

Definition declaresRelationOrIndexes (def : EntityDef) : bool :=
  let s := ed_Source def in
  negb (bool_decide (src_Kind s = RelationTable)) || negb (bool_decide (src_Name s = "")) ||
  negb (bool_decide (src_Schema s = "")) || negb (bool_decide (src_SQL s = "")) ||
  negb (bool_decide (length (src_Parameters s) = 0%nat)) || negb (bool_decide (length (ed_Indexes def) = 0%nat)).

(** MAP-028: an embedded struct that is an entity in its own right. *)
Fixpoint refuseEmbeddedEntities (depth : nat) (parent : GoType) : list Error :=
  match depth with
  | 0%nat => []
  | S depth =>
      mbind (fun field =>
        match sf_Anonymous field && sf_Exported field, struct_of (sf_Type field) with
        | true, Some embedded =>
            match refuseEmbeddedEntities depth embedded with
            | [] =>
                match Descriptor types embedded with
                | Some def => when (declaresRelationOrIndexes def) (violation "MAP-028" (target parent (sf_Name field)))
                | None => []
                end
            | es => es
            end
        | _, _ => []
        end) (fields_of types parent)
  end.

(** ** The three paths *)

Definition loadFromDeclarations (convention : NamingConvention) (t : GoType) : LoadedMap + list Error :=
  match refuseEmbeddedEntities depth t with
  | _ :: _ as es => inr es
  | [] =>
      let descriptor := Descriptor types t in
      let def := default no_entity_def descriptor in
      let '(source, source_errors) := resolveSource t descriptor convention in
      let kind := src_Kind source in
      let '((specs, relationships), property_errors) := readProperties t kind in
      let '(specs, key_errors) :=
        match descriptor with
        | Some def => applyForeignKeyReferences t (ed_ForeignKeys def) specs
        | None => cret specs
        end in
      let '(indexes, index_errors) := readIndexStreamShape t kind descriptor in
      let placeholder_errors :=
        if decide (TrimSpace (src_SQL source) = "") then []
        else checkStatementPlaceholders t (src_SQL source) (src_Parameters source) in
      assemble types named t kind convention depth (src_Name source) (src_Schema source) (src_SQL source)
        (src_Parameters source) specs indexes relationships (ed_Triggers def)
        (source_errors ++ property_errors ++ key_errors ++ index_errors ++ placeholder_errors)
  end.

Definition conventional_spec (df : discoveredField) : MappedPropertySpec :=
  let field := df_Field df in
  let isID := EqualFold (sf_Name field) "id" in
  mkSpec_ (sf_Type field) (df_DeclaringType df) (sf_Name field) None None isID
    (isID && IsInteger (ColumnTypeOf named (pointee (sf_Type field)))) false false false false false None None None None None None.
Definition loadByConvention (convention : NamingConvention) (t : GoType) : LoadedMap + list Error :=
  let '(fields, discErrs) := discoverFields depth t in
  assemble types named t RelationTable convention depth (conv_TableName convention (TypeShortName t)) "" "" []
    (conventional_spec <$> fields) [] [] [] discErrs.

(** [EntityMapBuilder]: its specs carry the names and the settings; the type
    and the declaring struct of each come from the field. *)
Record EntityMapBuilder := mkBuilder {
  bu_specs : list MappedPropertySpec; bu_tableName : string; bu_schema : string; bu_triggers : list (option GoType) }.

Definition configured (df : discoveredField) (spec : MappedPropertySpec) : MappedPropertySpec :=
  mkSpec_ (sf_Type (df_Field df)) (df_DeclaringType df) (sp_PropertyName spec) (sp_ExplicitColumn spec)
    (sp_ColumnTypeOverride spec) (sp_IsKey spec) (sp_IsGenerated spec) (sp_IsVersion spec) (sp_EnumAsInt spec)
    (sp_CreatedAt spec) (sp_UpdatedAt spec) (sp_SoftDelete spec) (sp_RenamedFrom spec)
    (sp_Length spec) (sp_Precision spec) (sp_Scale spec) None None.
Definition build_spec (t : GoType) (spec : MappedPropertySpec) : collected (option MappedPropertySpec) :=
  match exported_field t (sp_PropertyName spec) with
  | None => (None, violation "MAP-023" (target t (sp_PropertyName spec)))
  | Some df => cret (Some (configured df spec))
  end.
Definition Build (b : EntityMapBuilder) (convention : NamingConvention) (t : GoType) : LoadedMap + list Error :=
  let built := build_spec t <$> bu_specs b in
  match mbind snd built with
  | _ :: _ as es => inr es
  | [] =>
      let tableName := if decide (bu_tableName b = "") then conv_TableName convention (TypeShortName t) else bu_tableName b in
      assemble types named t RelationTable convention depth tableName (bu_schema b) "" [] (omap fst built) [] [] (bu_triggers b) []
  end.

(** [Loader.load]: explicit, then declared, then by convention. *)
Definition load (explicit : GoType -> option EntityMapBuilder) (convention : NamingConvention) (t : GoType)
    : LoadedMap + list Error :=
  if IsTriggerType types t then inr (violation "MAP-029" (TypeShortName t))
  else if IsOwnedType types t then inr (violation "MAP-024" (TypeShortName t))
  else match explicit t with
  | Some b => Build b convention t
  | None => if HasMappingDeclarations types t then loadFromDeclarations convention t else loadByConvention convention t
  end.

Definition Load (explicit : GoType -> option EntityMapBuilder) (convention : NamingConvention)
    (cache : gmap GoType LoadedMap) (s : TypeShape) : gmap GoType LoadedMap * (LoadedMap + list Error) :=
  match struct_of (EntityType s) with
  | None => (cache, inr (violation "MAP-023" (shape_text s)))
  | Some t =>
      match cache !! t with
      | Some m => (cache, inl m)
      | None =>
          match load explicit convention t with
          | inl m => (<[t := m]> cache, inl m)
          | inr es => (cache, inr es)
          end
      end
  end.
End Loader.
