(* ===== verification/LoaderLaws.v ===== *)
(** What a load that succeeds gives: a type loads exactly when its declarations
    obey every rule, and the map is then the one the rest of the library relies
    on. *)
From S2P Require Import Prelude GoStrings Values Core Triggers Query Converter Json SchemaSnapshot MigrationSteps MapSpec MapAssembler MapLoader.
#[local] Open Scope Z_scope.

(** ** Collected violations *)

Lemma violation_not_nil code t : violation code t <> [].
Proof. done. Qed.
Lemma when_nil b es : es <> [] -> when b es = [] <-> b = false.
Proof. destruct b; cbn; intros H; split; congruence. Qed.
Lemma when_violation b code t : when b (violation code t) = [] <-> b = false.
Proof. by apply when_nil. Qed.
Lemma app_nil_iff {A} (l k : list A) : l ++ k = [] <-> l = [] /\ k = [].
Proof. split; [apply app_nil|]. by intros [-> ->]. Qed.
Lemma bind_nil {A B} (f : A -> list B) l : mbind f l = [] <-> forall a, a ∈ l -> f a = [].
Proof.
  induction l as [|a l IH]; cbn; [split; [intros _ a []%not_elem_of_nil|done]|].
  change (f a ++ mbind f l = [] <-> forall a0, a0 ∈ a :: l -> f a0 = []).
  rewrite app_nil_iff, IH. setoid_rewrite elem_of_cons. split; [intros [? ?] b [->|?]; auto|]. intros H. split; auto.
Qed.
Lemma bind_fmap_nil {A B C} (f : A -> B) (g : B -> list C) l : mbind g (f <$> l) = [] <-> forall a, a ∈ l -> g (f a) = [].
Proof.
  rewrite bind_nil. split; [intros H a Ha; by apply H, list_elem_of_fmap_2|].
  intros H b (a & -> & Ha)%list_elem_of_fmap. by apply H.
Qed.

(** A loop that reports every element whose key it has met: none is reported
    exactly when the keys are distinct and new. *)
Lemma distinct_keys {A K} `{Countable K} (key : A -> K) (l : list A) (seen : gset K) :
  (NoDup (key <$> l) /\ (forall a, a ∈ l -> (key a ∉ seen))) <->
  match l with [] => True | a :: l' => (key a ∉ seen) /\ NoDup (key <$> l') /\ (forall b, b ∈ l' -> (key b ∉ ({[key a]} ∪ seen))) end.
Proof.
  destruct l as [|a l].
  - split; [done|]. intros _. split; [constructor|]. by intros a []%not_elem_of_nil.
  - rewrite fmap_cons, NoDup_cons. setoid_rewrite elem_of_cons. setoid_rewrite elem_of_union. setoid_rewrite elem_of_singleton.
    rewrite list_elem_of_fmap. split.
    + intros [[Ha Hn] Hs]. split_and!; [by apply Hs; left|done|]. intros b Hb [E|E]; [|by apply (Hs b); [by right|]].
      apply Ha. by exists b.
    + intros (Ha & Hn & Hs). split; [split; [|done]|].
      * intros (b & E & Hb). apply (Hs b Hb). by left.
      * intros b [->|Hb]; [done|]. intros ?. apply (Hs b Hb). by right.
Qed.

Section Assembled.
Context (types : Types) (named : string -> NamedType).
Context (entityType : GoType) (kind : RelationKind) (convention : NamingConvention) (depth : nat).

Abbreviation column := (spec_column convention).
Abbreviation column_type := (spec_column_type named).
Abbreviation resolve := (resolve_property named entityType kind convention).

(** ** The rules *)

(** Storage facets (MAP-032): on a table only, a length on text or bytes, a
    precision and a scale within it on a decimal. *)
Definition facets_fit (spec : MappedPropertySpec) : Prop :=
  sp_Length spec = None /\ sp_Precision spec = None /\ sp_Scale spec = None \/
  kind = RelationTable /\
  (forall n, sp_Length spec = Some n -> 0 < n /\ (column_type spec = TypeString \/ column_type spec = TypeBytes)) /\
  (forall p, sp_Precision spec = Some p -> 0 < p /\ column_type spec = TypeDecimal) /\
  (forall s, sp_Scale spec = Some s -> exists p, sp_Precision spec = Some p /\ (0 <= s <= p)).

Record specs_valid (specs : list MappedPropertySpec) : Prop := {
  sv_columns : NoDup (column <$> specs);
  sv_one_hook : forall spec, spec ∈ specs -> (countHooks spec <= 1)%nat;
  sv_renamed : forall spec old, spec ∈ specs -> sp_RenamedFrom spec = Some old -> TrimSpace old <> "";
  sv_facets : forall spec, spec ∈ specs -> facets_fit spec }.

Lemma length_refused_false spec : length_refused (column_type spec) spec = false <->
  forall n, sp_Length spec = Some n -> 0 < n /\ (column_type spec = TypeString \/ column_type spec = TypeBytes).
Proof.
  unfold length_refused. destruct (sp_Length spec) as [n|]; [|split; [intros _ n [=]|done]].
  assert (Ht : negb (bool_decide (column_type spec = TypeString) || bool_decide (column_type spec = TypeBytes)) = false <->
               (column_type spec = TypeString \/ column_type spec = TypeBytes)).
  { by rewrite negb_false_iff, orb_true_iff, !bool_decide_eq_true. }
  destruct (negb _) eqn:E.
  - split; [done|]. intros H. destruct (H n eq_refl) as [_ Hc]. apply Ht in Hc. congruence.
  - rewrite Z.leb_gt. split; [intros ? ? [= <-]; split; [done|by apply Ht]|intros H; by destruct (H n eq_refl)].
Qed.

Lemma precision_refused_false spec : precision_refused (column_type spec) spec = false <->
  (forall p, sp_Precision spec = Some p -> 0 < p /\ column_type spec = TypeDecimal) /\
  (forall s, sp_Scale spec = Some s -> exists p, sp_Precision spec = Some p /\ (0 <= s <= p)).
Proof.
  unfold precision_refused. destruct (decide (column_type spec = TypeDecimal)) as [E|E].
  - rewrite (bool_decide_eq_true_2 _ E). cbn [negb]. destruct (sp_Precision spec) as [p|], (sp_Scale spec) as [s|].
    + destruct (Z.leb_spec p 0), (Z.ltb_spec s 0), (Z.ltb_spec p s); (split; [intros ?; try done|intros [Hp Hs]]).
      all: try (destruct (Hp p eq_refl), (Hs s eq_refl) as (? & [= <-] & ?); lia || done).
      split; [by intros ? [= <-]|]. intros ? [= <-]. exists p. split; [done|lia].
    + destruct (Z.leb_spec p 0); (split; [intros ?; try done|intros [Hp Hs]]);
        [destruct (Hp p eq_refl); lia|split; [by intros ? [= <-]|done]|done].
    + split; [done|]. intros [_ H2]. by destruct (H2 s eq_refl) as (? & [=] & _).
    + split; [|done]. intros _. by split.
  - rewrite (bool_decide_eq_false_2 _ E). cbn [negb]. destruct (sp_Precision spec) as [p|], (sp_Scale spec) as [s|];
      (split; [try done|intros [H1 H2]; try done]).
    + by destruct (H1 p eq_refl).
    + by destruct (H1 p eq_refl).
    + by destruct (H2 s eq_refl) as (? & [=] & _).
Qed.

Lemma facets_valid t spec : (validateFacets kind t (column_type spec) spec).2 = [] <-> facets_fit spec.
Proof.
  assert (Hrefused : forall f : facets, snd (let es := when (length_refused (column_type spec) spec) (violation "MAP-032" t) ++
                 when (precision_refused (column_type spec) spec) (violation "MAP-032" t) in
                 match es with [] => cret f | _ => ((0, 0, 0), es) end) = [] <->
             length_refused (column_type spec) spec = false /\ precision_refused (column_type spec) spec = false).
  { intros. destruct (length_refused _ _), (precision_refused _ _); cbn; split; try done; by intros []. }
  assert (Hsome : (sp_Length spec = None /\ sp_Precision spec = None /\ sp_Scale spec = None -> False) ->
    snd (if negb (is_table kind) then ((0, 0, 0), violation "MAP-032" t) else
      let es := when (length_refused (column_type spec) spec) (violation "MAP-032" t) ++
            when (precision_refused (column_type spec) spec) (violation "MAP-032" t) in
      match es with
      | [] => cret (default 0 (sp_Length spec), default 0 (sp_Precision spec),
                    match sp_Precision spec with Some _ => default 0 (sp_Scale spec) | None => 0 end)
      | _ => ((0, 0, 0), es) end) = [] <-> facets_fit spec).
  { intros Hn. unfold facets_fit, is_table. destruct (decide (kind = RelationTable)) as [Hk|Hk].
    - rewrite (bool_decide_eq_true_2 _ Hk). cbn [negb]. rewrite Hrefused, length_refused_false, precision_refused_false.
      split; [intros (? & ? & ?); by right|]. intros [?|(_ & ? & ? & ?)]; [by destruct Hn|done].
    - rewrite (bool_decide_eq_false_2 _ Hk). cbn [negb snd]. split; [done|]. intros [?|[? _]]; [by destruct Hn|done]. }
  unfold validateFacets. destruct (sp_Length spec) eqn:En, (sp_Precision spec) eqn:Ep, (sp_Scale spec) eqn:Es;
    try (rewrite ?En, ?Ep, ?Es in Hsome; apply Hsome; by intros (? & ? & ?)).
  split; [|done]. intros _. left. by split_and!.
Qed.

Lemma properties_valid specs seen : properties_violations named entityType kind convention seen specs = [] <->
  specs_valid specs /\ forall spec, spec ∈ specs -> column spec ∉ seen.
Proof.
  revert seen. induction specs as [|spec specs IH]; intros seen; cbn [properties_violations].
  { split; [|done]. intros _. split; [|by intros ? []%not_elem_of_nil]. split; [by apply NoDup_nil_2|..].
    - by intros ? []%not_elem_of_nil.
    - by intros ? ? []%not_elem_of_nil.
    - by intros ? []%not_elem_of_nil. }
  rewrite app_nil_iff, IH. unfold property_violations. rewrite !app_nil_iff, !when_violation, facets_valid, bool_decide_eq_false, Nat.ltb_ge.
  pose proof (distinct_keys column (spec :: specs) seen) as Hk. cbn in Hk. split.
  - intros [(H1 & H2 & H3 & H4) [[V1 V2 V3 V4] Hs]]. destruct (proj2 Hk) as [Hd Hn]; [done|]. split; [|done]. split; [done|..].
    + intros x [->|Hx]%elem_of_cons; auto.
    + intros x old [->|Hx]%elem_of_cons E; [|by eapply V3]. rewrite E in H3. by apply bool_decide_eq_false in H3.
    + intros x [->|Hx]%elem_of_cons; auto.
  - intros [[V1 V2 V3 V4] Hs]. destruct (proj1 Hk) as (H1 & H2 & H3); [done|].
    split; [|split; [split; [done|..]|done]].
    + split_and!; [done|apply V2; by left| |apply V4; by left].
      destruct (sp_RenamedFrom spec) eqn:E; [|done]. apply bool_decide_eq_false. eapply V3; [by left|done].
    + intros x Hx. apply V2. by right.
    + intros x old Hx. apply V3. by right.
    + intros x Hx. apply V4. by right.
Qed.

(** At most one version, of an integer type and no part of the key (MAP-019). *)
Record version_valid (properties : list PropertyMap) : Prop := {
  vv_fits : forall p, p ∈ properties -> IsVersion p = true -> IsInteger (ColumnType_ p) = true /\ IsKey p = false;
  vv_one : (length (List.filter IsVersion properties) <= 1)%nat }.

Lemma version_rules seen properties : validateVersion seen properties = [] <->
  (forall p, p ∈ properties -> IsVersion p = true -> IsInteger (ColumnType_ p) = true /\ IsKey p = false) /\
  (length (List.filter IsVersion properties) + (if seen then 1 else 0) <= 1)%nat.
Proof.
  revert seen. induction properties as [|p l IH]; intros seen; cbn [validateVersion].
  { split; [|done]. intros _. split; [by intros ? []%not_elem_of_nil|]. by destruct seen; cbn; lia. }
  cbn [List.filter]. setoid_rewrite elem_of_cons. destruct (IsVersion p) eqn:Ev; cbn [negb].
  - destruct seen; cbn [length].
    + split; [done|]. intros [_ H]. lia.
    + rewrite !app_nil_iff, !when_violation, negb_false_iff, IH. split.
      * intros (Hi & Hk & H & Hl). split; [|lia]. intros q [->|Hq] Hv; [done|by apply H].
      * intros [H Hl]. destruct (H p) as [Hi Hk]; [by left|done|]. split_and!; [done|done| |lia].
        intros q Hq. apply H. by right.
  - rewrite IH. split; intros [H Hl]; (split; [|done]).
    + intros q [->|Hq] Hv; [congruence|by apply H].
    + intros q Hq. apply H. by right.
Qed.

(** Hooks (MAP-026): on a table, of the role's type, on plain data, one column a
    role. *)
Definition hook_fits (p : PropertyMap) : Prop :=
  (Audit p <> AuditNone -> ColumnType_ p = TypeDateTime \/ ColumnType_ p = TypeDateTimeOffset) /\
  (IsSoftDelete p = true -> ColumnType_ p = TypeBool /\ IsNullable p = false).

Record hooks_valid (properties : list PropertyMap) : Prop := {
  hv_fits : forall p role, p ∈ properties -> hook_role p = Some role ->
    kind = RelationTable /\ hook_fits p /\ IsKey p = false /\ IsVersion p = false /\ IsGenerated p = false;
  hv_roles : NoDup (omap hook_role properties) }.

Lemma hook_misplaced_false p : hook_misplaced p = false <-> hook_fits p.
Proof.
  unfold hook_misplaced, hook_fits.
  assert (Ha : negb (bool_decide (Audit p = AuditNone)) && negb (bool_decide (ColumnType_ p = TypeDateTime)) &&
               negb (bool_decide (ColumnType_ p = TypeDateTimeOffset)) = false <->
               (Audit p <> AuditNone -> ColumnType_ p = TypeDateTime \/ ColumnType_ p = TypeDateTimeOffset)).
  { repeat case_bool_decide; cbn; split; try done; tauto. }
  assert (Hs : IsSoftDelete p && (negb (bool_decide (ColumnType_ p = TypeBool)) || IsNullable p) = false <->
               (IsSoftDelete p = true -> ColumnType_ p = TypeBool /\ IsNullable p = false)).
  { clear Ha. destruct (IsSoftDelete p); cbn; [|by split]. case_bool_decide; cbn; [|split; [done|]; intros H'; by destruct (H' eq_refl)].
    destruct (IsNullable p); split; try done. intros H'. by destruct (H' eq_refl). }
  destruct (negb _ && _ && _) eqn:E; rewrite ?E in Ha.
  - split; [done|]. intros [H _]. by apply Ha.
  - rewrite Hs. split; [intros ?; split; [by apply Ha|done]|by intros [_ ?]].
Qed.

Lemma hooks_rules seen properties : validateHooks kind seen properties = [] <->
  hooks_valid properties /\ forall role, role ∈ omap hook_role properties -> role ∉ seen.
Proof.
  revert seen. induction properties as [|p l IH]; intros seen; cbn [validateHooks].
  { split; [|done]. intros _. split; [|by intros ? []%not_elem_of_nil]. split; [|by apply NoDup_nil_2].
    by intros ? ? []%not_elem_of_nil. }
  destruct (hook_role p) as [role|] eqn:Er.
  - assert (Eo : omap hook_role (p :: l) = role :: omap hook_role l) by (cbn; by rewrite Er). rewrite Eo.
    unfold is_table. destruct (decide (kind = RelationTable)) as [Hk|Hk].
    + rewrite (bool_decide_eq_true_2 _ Hk). cbn [negb].
      rewrite !app_nil_iff, !when_violation, hook_misplaced_false, !orb_false_iff, bool_decide_eq_false, IH.
      pose proof (distinct_keys (fun r : string => r) (role :: omap hook_role l) seen) as Hd. cbn in Hd. rewrite !list_fmap_id in Hd. split.
      * intros (Hf & [[Hk1 Hk2] Hk3] & Hs & [Hv1 Hv2] & Hv3). destruct (proj2 Hd) as [Hn Hs']; [done|].
        split; [|done]. split; [|by rewrite Eo]. intros q r [->|Hq]%elem_of_cons Hr; [done|by eapply Hv1].
      * intros [[Hv1 Hv2] Hs]. rewrite Eo in Hv2. destruct (proj1 Hd) as (H1 & H2 & H3); [done|].
        destruct (Hv1 p role) as (_ & Hf & Hk1 & Hk2 & Hk3); [by left|done|]. split_and!; try done.
        split; [|done]. intros q r Hq. apply Hv1. by right.
    + rewrite (bool_decide_eq_false_2 _ Hk). cbn [negb]. split; [by intros [? _]%app_nil_iff|]. intros [[Hv _] _].
      by destruct (Hv p role) as [? _]; [left| |].
  - assert (Eo : omap hook_role (p :: l) = omap hook_role l) by (cbn; by rewrite Er). rewrite Eo, IH.
    split; intros [[Hv1 Hv2] Hs]; (split; [|done]); (split; [|by rewrite ?Eo in *]).
    + intros q r [->|Hq]%elem_of_cons Hr; [congruence|by eapply Hv1].
    + intros q r Hq. apply Hv1. by right.
Qed.

(** Declared renames (MAP-027): on a table, no column the origin of two. *)
Record renamed_valid (properties : list PropertyMap) : Prop := {
  rv_table : forall p old, p ∈ properties -> RenamedFrom p = Some old -> kind = RelationTable;
  rv_distinct : NoDup (ToLower <$> omap RenamedFrom properties) }.

Lemma renamed_rules seen properties : validateRenamedFrom kind seen properties = [] <->
  renamed_valid properties /\ forall old, old ∈ omap RenamedFrom properties -> ToLower old ∉ seen.
Proof.
  revert seen. induction properties as [|p l IH]; intros seen; cbn [validateRenamedFrom].
  { split; [|done]. intros _. split; [|by intros ? []%not_elem_of_nil]. split; [|by apply NoDup_nil_2].
    by intros ? ? []%not_elem_of_nil. }
  destruct (RenamedFrom p) as [old|] eqn:Er.
  - assert (Eo : omap RenamedFrom (p :: l) = old :: omap RenamedFrom l) by (cbn; by rewrite Er). rewrite Eo.
    unfold is_table. destruct (decide (kind = RelationTable)) as [Hk|Hk].
    + rewrite (bool_decide_eq_true_2 _ Hk). cbn [negb]. rewrite app_nil_iff, when_violation, bool_decide_eq_false, IH.
      pose proof (distinct_keys ToLower (old :: omap RenamedFrom l) seen) as Hd. cbn in Hd. split.
      * intros (H1 & [Hv1 Hv2] & Hs). destruct (proj2 Hd) as [Hn Hs']; [done|]. split; [|done]. split; [done|].
        by rewrite Eo.
      * intros [[Hv1 Hv2] Hs]. rewrite Eo in Hv2. destruct (proj1 Hd) as (H1 & H2 & H3); [done|].
        split_and!; [done| |done]. split; [|done]. intros q o Hq. apply Hv1. by right.
    + rewrite (bool_decide_eq_false_2 _ Hk). cbn [negb]. split; [by intros [? _]%app_nil_iff|]. intros [[Hv _] _].
      by destruct (Hk (Hv p old (list_elem_of_here _ _) Er)).
  - assert (Eo : omap RenamedFrom (p :: l) = omap RenamedFrom l) by (cbn; by rewrite Er). rewrite Eo, IH.
    split; intros [[Hv1 Hv2] Hs]; (split; [|done]); (split; [|by rewrite ?Eo in *]).
    + intros q o [->|Hq]%elem_of_cons Ho; [congruence|by eapply Hv1].
    + intros q o Hq. apply Hv1. by right.
Qed.

(** The key (MAP-019): a table has one; a generated part is the whole key and an
    integer. *)
Record key_valid (properties : list PropertyMap) : Prop := {
  kv_declared : kind = RelationTable -> List.filter IsKey properties <> [];
  kv_generated : forall k, k ∈ properties -> IsKey k = true -> IsGenerated k = true ->
    List.filter IsKey properties = [k] /\ IsInteger (ColumnType_ k) = true }.

Lemma key_rules properties : (resolveKeyStrategy entityType kind properties).2 = [] <-> key_valid properties.
Proof.
  unfold resolveKeyStrategy.
  assert (Hin : forall q, q ∈ List.filter IsKey properties <-> q ∈ properties /\ IsKey q = true).
  { intros q. by rewrite !list_elem_of_In, filter_In. }
  destruct (List.filter IsKey properties) as [|k more] eqn:E.
  - cbn [snd]. unfold is_table. rewrite when_violation, bool_decide_eq_false. split.
    + intros Hk. split; [done|]. intros q Hq Hqk _. assert (q ∈ []) as []%not_elem_of_nil by by apply Hin.
    + intros [Hd _] Hk. by apply Hd.
  - destruct (List.filter IsGenerated (k :: more)) as [|g gs] eqn:Eg.
    + assert (Hno : forall q, q ∈ properties -> IsKey q = true -> IsGenerated q = true -> False).
      { intros q Hq Hk Hg. assert (q ∈ []) as []%not_elem_of_nil.
        rewrite <- Eg. apply list_elem_of_In, filter_In. split; [|done]. by apply list_elem_of_In, Hin. }
      assert (H : key_valid properties). { split; [by rewrite E|]. intros q Hq Hk Hg. by destruct (Hno q). }
      split; [done|]. intros _. destruct more; [by case_decide|done].
    + assert (Hg : g ∈ k :: more /\ IsGenerated g = true).
      { rewrite list_elem_of_In, <- filter_In, Eg. by left. }
      destruct Hg as [Hg1 Hg2]. pose proof (proj1 (Hin g) Hg1) as [Hg3 Hg4]. cbn [snd]. split.
      * destruct more as [|k' more]; [|by intros ?%violation_not_nil]. rewrite when_violation, negb_false_iff. intros Hi.
        split; [by rewrite E|]. intros q Hq Hk Hgen. assert (Hq' : q ∈ [k]) by by apply Hin.
        apply list_elem_of_singleton in Hq' as ->. by rewrite E.
      * intros [_ Hv]. destruct (Hv g Hg3 Hg4 Hg2) as [E' Hi]. rewrite E in E'. injection E' as -> ->.
        by rewrite when_violation, Hi.
Qed.

(** ** Names that resolve *)

Lemma by_property_lookup properties n : is_Some (by_property properties !! n) <-> n ∈ PropertyName <$> properties.
Proof.
  unfold by_property. assert (H : forall m : gmap string PropertyMap,
    is_Some (fold_left (fun m p => <[PropertyName p := p]> m) properties m !! n) <-> is_Some (m !! n) \/ n ∈ PropertyName <$> properties).
  { induction properties as [|p l IH]; intros m; cbn [fold_left fmap list_fmap].
    - split; [by left|]. by intros [?|[]%not_elem_of_nil].
    - rewrite IH, elem_of_cons. destruct (decide (n = PropertyName p)) as [->|Hn].
      + rewrite lookup_insert_eq. split; [right; by left|]. intros _. left. by eexists.
      + rewrite lookup_insert_ne by done. split; [intros [?|?]; auto|]. intros [?|[?|?]]; auto. congruence. }
  rewrite H, lookup_empty. split; [intros [[? [=]]|?]; done|by right].
Qed.

Lemma by_property_Some properties n p : by_property properties !! n = Some p -> p ∈ properties /\ PropertyName p = n.
Proof.
  unfold by_property. assert (H : forall m : gmap string PropertyMap, fold_left (fun m p => <[PropertyName p := p]> m) properties m !! n = Some p ->
    m !! n = Some p \/ p ∈ properties /\ PropertyName p = n).
  { induction properties as [|q l IH]; intros m E; cbn [fold_left] in E; [by left|].
    apply IH in E as [E|[? ?]]; [|right; split; [by right|done]].
    apply lookup_insert_Some in E as [[<- <-]|[_ E]]; [right; split; [by left|done]|by left]. }
  intros E. apply H in E as [E|?]; [by rewrite lookup_empty in E|done].
Qed.

Definition mapped (properties : list PropertyMap) (n : string) : Prop := n ∈ PropertyName <$> properties.

(** Every column an index names is mapped (MAP-015). *)
Definition indexes_valid (properties : list PropertyMap) (indexSpecs : list IndexSpec) : Prop :=
  forall spec c, spec ∈ indexSpecs -> c ∈ ixs_Columns spec -> mapped properties (ics_PropertyName c).

Lemma index_column_rules properties c :
  (resolve_index_column entityType (by_property properties) c).2 = [] <-> mapped properties (ics_PropertyName c).
Proof.
  unfold resolve_index_column, mapped. rewrite <- by_property_lookup.
  destruct (by_property properties !! _); cbn; split; done.
Qed.

Lemma index_rules relationName properties indexSpecs :
  (resolveIndexColumns entityType convention relationName indexSpecs (by_property properties)).2 = [] <->
  indexes_valid properties indexSpecs.
Proof.
  unfold resolveIndexColumns. cbn [snd]. rewrite bind_fmap_nil. unfold indexes_valid.
  assert (H : forall spec, (resolve_index entityType convention relationName (by_property properties) spec).2 = [] <->
    forall c, c ∈ ixs_Columns spec -> mapped properties (ics_PropertyName c)).
  { intros spec. unfold resolve_index. transitivity (mbind snd (resolve_index_column entityType (by_property properties) <$> ixs_Columns spec) = []).
    - destruct (mbind snd _); cbn; split; congruence.
    - rewrite bind_fmap_nil. split; intros H c Hc; by apply index_column_rules, H. }
  split; [intros Hs spec c Hspec; by apply H, Hs|]. intros Hs spec Hspec. apply H. intros c. by apply Hs.
Qed.

(** A relationship's keys are there and of the right number (MAP-016, 021, 022);
    a type that declares no key is not counted against. *)
Definition relationship_valid (properties : list PropertyMap) (spec : RelationshipSpec) : Prop :=
  let owner := owner_key_count (by_property properties) in
  let arity := keyArity types depth (rls_TargetType spec) in
  match rls_Kind spec with
  | RelationshipManyToOne =>
      (forall n, n ∈ rls_ForeignKeyProperties spec -> mapped properties n) /\
      (arity <> 0%nat -> length (rls_ForeignKeyProperties spec) = arity)
  | RelationshipOneToMany | RelationshipOneToOne =>
      owner <> 0%nat -> length (rls_ForeignKeyProperties spec) = owner
  | RelationshipManyToMany =>
      (owner <> 0%nat -> length (rls_LinkForeignKeysToOwner spec) = owner) /\
      (arity <> 0%nat -> length (rls_LinkForeignKeysToTarget spec) = arity)
  end.

Lemma arity_test n m : (0 <? n)%nat && negb (m =? n)%nat = false <-> (n <> 0%nat -> m = n).
Proof. destruct (Nat.ltb_spec 0 n), (Nat.eqb_spec m n); cbn; split; intros; try done; try lia; try (exfalso; lia). Qed.

Lemma unmapped_test properties l :
  existsb (fun n => negb (bool_decide (is_Some (by_property properties !! n)))) l = false <-> forall n, n ∈ l -> mapped properties n.
Proof.
  rewrite <- not_true_iff_false, existsb_exists. unfold mapped. setoid_rewrite <- by_property_lookup. split.
  - intros H n Hn. apply dec_stable. intros Hno. apply H. exists n. split; [by apply list_elem_of_In|]. by rewrite bool_decide_eq_false_2.
  - intros H (n & Hn & E). apply list_elem_of_In in Hn. rewrite bool_decide_eq_true_2 in E by by apply H. done.
Qed.

Lemma relationship_rules properties spec :
  relationship_refused types depth (by_property properties) spec = None <-> relationship_valid properties spec.
Proof.
  unfold relationship_refused, relationship_valid.
  assert (Hif : forall (b : bool) (c : string) (o : option string), (if b then Some c else o) = None <-> b = false /\ o = None).
  { intros [] c o; split; try done; by intros []. }
  destruct (rls_Kind spec); rewrite !Hif.
  - rewrite unmapped_test, (Nat.eqb_sym (keyArity _ _ _)), arity_test. tauto.
  - rewrite arity_test. tauto.
  - rewrite !arity_test. tauto.
  - rewrite arity_test. tauto.
Qed.

Definition relationships_valid (properties : list PropertyMap) (specs : list RelationshipSpec) : Prop :=
  forall spec, spec ∈ specs -> relationship_valid properties spec.
Lemma relationships_rules properties specs :
  (resolveRelationships types entityType depth specs (by_property properties)).2 = [] <-> relationships_valid properties specs.
Proof.
  unfold resolveRelationships, relationships_valid. cbn [snd]. rewrite bind_fmap_nil.
  setoid_rewrite <- relationship_rules. unfold resolve_relationship.
  split; intros H spec Hs; specialize (H spec Hs); destruct (relationship_refused _ _ _ _); done.
Qed.

(** ** Triggers (MAP-029) *)

Record trigger_valid (properties : list PropertyMap) (link : GoType) (d : TriggerDef) : Prop := {
  tv_class : HasMappingDeclarations types link = false /\ IsOwnedType types link = false;
  tv_name : TrimSpace (tdef_Name d) <> "";
  tv_timing : tdef_Timing d <> TimingNone;
  tv_view : kind = RelationView -> tdef_Timing d = TimingInsteadOf;
  tv_events : tdef_Events d <> 0 /\ Z.ldiff (tdef_Events d) anyEvent = 0;
  tv_body : TrimSpace (tdef_SQL d) <> "";
  tv_update : tdef_UpdateOf d <> [] -> Events_Has (tdef_Events d) EventUpdate = true /\
    forall n, n ∈ tdef_UpdateOf d -> mapped properties n;
  tv_scanned : (ScanTriggerTokens (tdef_SQL d)).2 = [];
  (** a row token has rows on every event of the declaration *)
  tv_tokens : forall token, token ∈ (ScanTriggerTokens (tdef_SQL d)).1 ->
    (tok_Kind token = TokenNew -> Events_Has (tdef_Events d) EventDelete = false) /\
    (tok_Kind token = TokenOld -> Events_Has (tdef_Events d) EventInsert = false) /\
    forall c, c ∈ tok_Columns token -> c ∈ ColumnName <$> properties }.

Lemma update_of_rules properties d name : (resolveUpdateOf d name (by_property properties)).2 = [] <->
  (tdef_UpdateOf d <> [] -> Events_Has (tdef_Events d) EventUpdate = true /\ forall n, n ∈ tdef_UpdateOf d -> mapped properties n).
Proof.
  unfold resolveUpdateOf. destruct (tdef_UpdateOf d) as [|u us] eqn:E; [split; done|]. cbn [snd].
  rewrite app_nil_iff, when_violation, negb_false_iff, bind_fmap_nil.
  assert (H : forall n, (resolve_update_of (by_property properties) name n).2 = [] <-> mapped properties n).
  { intros n. unfold resolve_update_of, mapped. rewrite <- by_property_lookup. destruct (by_property properties !! n); cbn; split; done. }
  setoid_rewrite H. split; [done|]. intros Hu. by apply Hu.
Qed.

Lemma token_rules properties d name token :
  token_violations d name (list_to_set (ColumnName <$> properties)) token = [] <->
  (tok_Kind token = TokenNew -> Events_Has (tdef_Events d) EventDelete = false) /\
  (tok_Kind token = TokenOld -> Events_Has (tdef_Events d) EventInsert = false) /\
  forall c, c ∈ tok_Columns token -> c ∈ ColumnName <$> properties.
Proof.
  unfold token_violations. rewrite app_nil_iff, bind_nil.
  assert (Hc : (forall c, c ∈ tok_Columns token ->
      when (bool_decide (c ∉ (list_to_set (ColumnName <$> properties) : gset string))) (violation "MAP-029" name) = []) <->
    forall c, c ∈ tok_Columns token -> c ∈ ColumnName <$> properties).
  { setoid_rewrite when_violation. setoid_rewrite bool_decide_eq_false. setoid_rewrite elem_of_list_to_set.
    split; intros H c Hc; specialize (H c Hc); [by apply dec_stable|]. intros Hn. by apply Hn. }
  rewrite Hc. destruct (tok_Kind token); rewrite ?when_violation.
  - split; [intros [H ?]; by split_and!|]. intros (H & _ & ?). split; [by apply H|done].
  - split; [intros [H ?]; by split_and!|]. intros (_ & H & ?). split; [by apply H|done].
  - split; [intros [_ ?]; by split_and!|]. by intros (_ & _ & ?).
Qed.

Lemma declaration_rules d name : declaration_violations kind d name = [] <->
  TrimSpace (tdef_Name d) <> "" /\ tdef_Timing d <> TimingNone /\
  (tdef_Events d <> 0 /\ Z.ldiff (tdef_Events d) anyEvent = 0) /\ TrimSpace (tdef_SQL d) <> "" /\
  (kind = RelationView -> tdef_Timing d = TimingInsteadOf).
Proof.
  unfold declaration_violations. rewrite !app_nil_iff, !when_violation, !bool_decide_eq_false, orb_false_iff, negb_false_iff, Z.eqb_neq, Z.eqb_eq.
  assert (Ht : TriggerTiming_Token (tdef_Timing d) <> "" <-> tdef_Timing d <> TimingNone) by (destruct (tdef_Timing d); split; done).
  rewrite Ht. destruct (decide (tdef_Timing d = TimingNone)) as [En|En]; [split; [by intros (_ & ? & _)|by intros (_ & ? & _)]|].
  rewrite (bool_decide_eq_false_2 (TriggerTiming_Token (tdef_Timing d) = "")) by by apply Ht. cbn [negb]. rewrite andb_true_r.
  destruct (decide (kind = RelationView)) as [Ek|Ek];
    [rewrite (bool_decide_eq_true_2 _ Ek)|rewrite (bool_decide_eq_false_2 _ Ek)]; cbn [andb].
  - rewrite negb_false_iff, bool_decide_eq_true. intuition.
  - intuition.
Qed.

Definition link_valid (properties : list PropertyMap) (link : GoType) : Prop :=
  exists d, TriggerDeclarationOf types link = Some d /\ trigger_valid properties link d.

Lemma trigger_rules properties link :
  (resolveTrigger types entityType kind link (list_to_set (ColumnName <$> properties)) (by_property properties)).2 = [] <->
  link_valid properties link.
Proof.
  unfold resolveTrigger, link_valid. destruct (TriggerDeclarationOf types link) as [d|]; [|split; [done|by intros (? & [=] & _)]].
  set (name := target entityType (TypeShortName link)).
  pose proof (update_of_rules properties d name) as Hu. destruct (resolveUpdateOf d name (by_property properties)) as [updateOf us].
  destruct (ScanTriggerTokens (tdef_SQL d)) as [tokens problems] eqn:Es. cbn [snd] in Hu.
  assert (H : when (HasMappingDeclarations types link || IsOwnedType types link) (violation "MAP-029" name) ++
    declaration_violations kind d name ++ us ++ mbind (fun _ => violation "MAP-029" name) problems ++
    mbind (token_violations d name (list_to_set (ColumnName <$> properties))) tokens = [] <-> trigger_valid properties link d).
  { rewrite !app_nil_iff, when_violation, orb_false_iff, declaration_rules, Hu, !bind_nil. setoid_rewrite token_rules.
    assert (Hp : (forall a : TokenProblem, a ∈ problems -> violation "MAP-029" name = []) <-> problems = []).
    { split; [|intros -> a []%not_elem_of_nil].
      destruct problems as [|x l]; [done|]. intros Hp. by specialize (Hp x (list_elem_of_here _ _)). }
    rewrite Hp. split.
    - intros (? & (? & ? & ? & ? & ?) & ? & ? & ?). split; rewrite ?Es; done.
    - intros [? ? ? ? ? ? ? Hs Ht]. rewrite Es in Hs, Ht. done. }
  transitivity (trigger_valid properties link d); [|split; [by exists d|by intros (? & [= <-] & ?)]].
  rewrite <- H. destruct (when _ _ ++ _); cbn; split; congruence.
Qed.

Definition links_valid (properties : list PropertyMap) (links : list (option GoType)) : Prop :=
  exists classes, links = Some <$> classes /\ NoDup classes /\
    forall link, link ∈ classes -> (kind = RelationTable \/ kind = RelationView) /\ link_valid properties link.

Lemma link_rules properties linked links :
  (resolve_links types entityType kind (list_to_set (ColumnName <$> properties)) (by_property properties) linked links).2 = [] <->
  exists classes, links = Some <$> classes /\ NoDup classes /\
    forall link, link ∈ classes -> (link ∉ linked) /\ (kind = RelationTable \/ kind = RelationView) /\ link_valid properties link.
Proof.
  revert linked. induction links as [|[link|] links IH]; intros linked; cbn [resolve_links].
  - split; [|done]. intros _. exists []. split_and!; [done|by apply NoDup_nil_2|by intros ? []%not_elem_of_nil].
  - assert (Ht : takes_triggers kind = true <-> kind = RelationTable \/ kind = RelationView).
    { unfold takes_triggers. by rewrite orb_true_iff, !bool_decide_eq_true. }
    destruct (negb (takes_triggers kind) || bool_decide (link ∈ linked)) eqn:Eb.
    + destruct (resolve_links _ _ _ _ _ linked links) as [ts es]. cbn [snd]. split; [by intros [? _]%app_nil_iff|].
      intros ([|c cs] & [= <- _] & _ & H). destruct (H link) as (Hn & Hk & _); [by left|].
      apply orb_true_iff in Eb as [Eb|Eb]; [apply negb_true_iff in Eb; apply Ht in Hk; congruence|by apply bool_decide_eq_true in Eb].
    + apply orb_false_iff in Eb as [Ek%negb_false_iff Hn%bool_decide_eq_false].
      pose proof (trigger_rules properties link) as Hr. destruct (resolveTrigger _ _ _ _ _ _) as [def es].
      specialize (IH ({[link]} ∪ linked)). destruct (resolve_links _ _ _ _ _ ({[link]} ∪ linked) links) as [ts es'].
      cbn [snd] in *. rewrite app_nil_iff, Hr, IH. split.
      * intros (Hl & classes & -> & Hd & H). exists (link :: classes). split; [done|]. split.
        -- apply NoDup_cons. split; [|done]. intros Hin. destruct (H link Hin) as [Hx _]. apply Hx, elem_of_union. by left; apply elem_of_singleton.
        -- intros c [->|Hc]%elem_of_cons; [split_and!; [done|by apply Ht|done]|]. destruct (H c Hc) as (Hx & ? & ?).
           split_and!; [|done|done]. intros ?. apply Hx, elem_of_union. by right.
      * intros ([|c classes] & [= <- ->] & [Hc Hd]%NoDup_cons & H). split; [by apply H; left|]. exists classes. split_and!; [done|done|].
        intros x Hx. destruct (H x) as (? & ? & ?); [by right|]. split_and!; [|done|done]. intros [->%elem_of_singleton|?]%elem_of_union; done.
  - destruct (resolve_links _ _ _ _ _ linked links) as [ts es]. cbn [snd]. split; [by intros [? _]%app_nil_iff|].
    by intros ([|c cs] & [=] & _).
Qed.

Lemma resolveTriggers_rules properties links :
  (resolveTriggers types entityType kind links properties (by_property properties)).2 = [] <-> links_valid properties links.
Proof.
  unfold resolveTriggers, links_valid. rewrite link_rules.
  split; intros (classes & E & Hd & H); exists classes; split_and!; try done; intros l Hl; [apply (H l Hl)|].
  split; [apply not_elem_of_empty|by apply H].
Qed.

(** All of them, over what the specs resolve to. *)
Record rules (specs : list MappedPropertySpec) (indexSpecs : list IndexSpec)
    (relationshipSpecs : list RelationshipSpec) (links : list (option GoType)) : Prop := {
  ru_specs : specs_valid specs;
  ru_version : version_valid (resolve <$> specs);
  ru_hooks : hooks_valid (resolve <$> specs);
  ru_renamed : renamed_valid (resolve <$> specs);
  ru_key : key_valid (resolve <$> specs);
  ru_indexes : indexes_valid (resolve <$> specs) indexSpecs;
  ru_relationships : relationships_valid (resolve <$> specs) relationshipSpecs;
  ru_triggers : links_valid (resolve <$> specs) links }.

(** The map of specs that obey the rules. *)
Definition assembled (relationName schema definingSQL : string) (statementParameters : list StatementParameter)
    (specs : list MappedPropertySpec) (indexSpecs : list IndexSpec) (relationshipSpecs : list RelationshipSpec)
    (links : list (option GoType)) : LoadedMap :=
  let properties := resolve <$> specs in
  mkLoaded
    (NewEntityMap entityType kind relationName schema definingSQL properties
       (resolveKeyStrategy entityType kind properties).1
       (resolveIndexColumns entityType convention relationName indexSpecs (by_property properties)).1
       (resolveRelationships types entityType depth relationshipSpecs (by_property properties)).1)
    (resolveTriggers types entityType kind links properties (by_property properties)).1 statementParameters.

Lemma assemble_inl relationName schema definingSQL parameters specs indexSpecs relationshipSpecs links errs m :
  assemble types named entityType kind convention depth relationName schema definingSQL parameters
    specs indexSpecs relationshipSpecs links errs = inl m <->
  (errs = [] /\ rules specs indexSpecs relationshipSpecs links) /\
  m = assembled relationName schema definingSQL parameters specs indexSpecs relationshipSpecs links.
Proof.
  unfold assemble, assembled, buildProperties. set (properties := resolve <$> specs).
  pose proof (properties_valid specs ∅) as Hp. pose proof (version_rules false properties) as Hv. rewrite Nat.add_0_r in Hv.
  pose proof (hooks_rules ∅ properties) as Hh. pose proof (renamed_rules ∅ properties) as Hr.
  pose proof (key_rules properties) as Hk. pose proof (index_rules relationName properties indexSpecs) as Hi.
  pose proof (relationships_rules properties relationshipSpecs) as Hl.
  pose proof (resolveTriggers_rules properties links) as Ht.
  destruct (resolveKeyStrategy _ _ _) as [strategy es1], (resolveIndexColumns _ _ _ _ _) as [indexes es2],
    (resolveRelationships _ _ _ _ _) as [relationships es3], (resolveTriggers _ _ _ _ _ _) as [triggers es4].
  cbn [fst snd] in *.
  set (all := errs ++ _).
  assert (Hall : all = [] <-> errs = [] /\ rules specs indexSpecs relationshipSpecs links).
  { unfold all. rewrite !app_nil_iff, Hp, Hv, Hh, Hr, Hk, Hi, Hl, Ht. split.
    - intros (? & [? _] & [? ?] & [? _] & [? _] & ? & ? & ? & ?). split; [done|]. by split.
    - intros [? [? [? ?] ? ? ? ? ? ?]]. split_and!; try done; intros; apply not_elem_of_empty. }
  rewrite <- Hall. destruct all; split; [intros [= <-]; by split|by intros [_ ->]|done|by intros [? _]].
Qed.
End Assembled.

(** * Theorem *)

(** C15. Assembly is exact: whatever the specs, indexes, relationships and trigger
    links, a map comes out exactly when nothing was violated before and every
    rule holds - distinct columns, facets that fit, one version, hooks and renames
    on tables, a key, index and foreign keys that name mapped members, key counts
    that match, well-formed triggers; otherwise the violations are not empty.
    The map is the one the specs resolve to. *)
Theorem assemble_exact types named entityType kind convention depth relationName schema definingSQL parameters
    specs indexSpecs relationshipSpecs links errs :
  let loaded := assemble types named entityType kind convention depth relationName schema definingSQL parameters
                  specs indexSpecs relationshipSpecs links errs in
  let accepted := errs = [] /\ rules types named entityType kind convention depth specs indexSpecs relationshipSpecs links in
  (accepted <-> loaded = inl (assembled types named entityType kind convention depth relationName schema definingSQL
                                parameters specs indexSpecs relationshipSpecs links)) /\
  (~ accepted <-> exists e es, loaded = inr (e :: es)).
Proof.
  intros loaded accepted.
  assert (H : forall m, loaded = inl m <-> accepted /\ m = assembled types named entityType kind convention depth
                relationName schema definingSQL parameters specs indexSpecs relationshipSpecs links) by (intros; apply assemble_inl).
  split; [rewrite H; by split; [|intros []]|].
  destruct loaded as [m|es] eqn:E.
  - destruct (proj1 (H m) eq_refl) as [Ha _]. split; [by intros []|by intros (? & ? & [=])].
  - split; [|by intros _ Ha%(fun a => proj2 (H _) (conj a eq_refl))].
    intros _. destruct es as [|e es]; [|by exists e, es].
    unfold loaded, assemble in E. destruct (buildProperties _ _ _ _ _), (resolveKeyStrategy _ _ _), (resolveIndexColumns _ _ _ _ _),
      (resolveRelationships _ _ _ _ _), (resolveTriggers _ _ _ _ _ _). by destruct (errs ++ _).
Qed.
