(* ===== verification/LoaderPaths.v ===== *)
(** What the session gets from a load: the map of each loader path is well
    formed, the depth its walks are given does not matter, the cache changes no
    answer, and no declared field goes unmapped in silence. *)
From S2P Require Import Prelude GoStrings Values Core Triggers Dialect GeneratedSql Query Converter Json SchemaSnapshot MigrationSteps MapSpec MapAssembler MapLoader LoaderLaws.
#[local] Open Scope Z_scope.

(** ** Well-formed maps *)

Definition stored_facets (p : PropertyMap) : Prop :=
  (Length p <> 0 -> 0 < Length p /\ (ColumnType_ p = TypeString \/ ColumnType_ p = TypeBytes)) /\
  (Precision p <> 0 -> 0 < Precision p /\ ColumnType_ p = TypeDecimal) /\ (0 <= Scale p <= Precision p).

(** What every consumer of a loaded map may rely on. *)
Record well_formed (lm : LoadedMap) : Prop := {
  wf_derived : map_derived (lm_Map lm);
  wf_columns : NoDup (ColumnName <$> Properties (lm_Map lm));
  wf_facets : forall p, p ∈ Properties (lm_Map lm) -> stored_facets p;
  wf_version : version_valid (Properties (lm_Map lm));
  wf_hooks : hooks_valid (Kind (lm_Map lm)) (Properties (lm_Map lm));
  wf_renamed : renamed_valid (Kind (lm_Map lm)) (Properties (lm_Map lm));
  wf_key : key_valid (Kind (lm_Map lm)) (Properties (lm_Map lm));
  wf_generated : KeyStrategy_ (lm_Map lm) = KeyDatabaseGenerated <->
    exists k, KeyProperties (lm_Map lm) = [k] /\ IsGenerated k = true;
  wf_indexes : forall ix c, ix ∈ Indexes (lm_Map lm) -> c ∈ ei_Columns ix ->
    exists p, p ∈ Properties (lm_Map lm) /\ PropertyName p = ic_PropertyName c /\ ColumnName p = ic_ColumnName c;
  wf_foreign_keys : forall r n, r ∈ Relationships (lm_Map lm) -> rel_Kind r = RelationshipManyToOne ->
    n ∈ rel_ForeignKeyProperties r -> mapped (Properties (lm_Map lm)) n;
  wf_triggers : forall tr, tr ∈ lm_Triggers lm ->
    tr_Name (et_Definition tr) <> "" /\ tr_Timing (et_Definition tr) <> TimingNone /\ tr_Events (et_Definition tr) <> 0 /\
    forall c, c ∈ tr_UpdateOf (et_Definition tr) -> c ∈ ColumnName <$> Properties (lm_Map lm) }.

Lemma fold_static l m :
  let m' := fold_left derive_step l m in
  Type_ m' = Type_ m /\ Kind m' = Kind m /\ RelationName m' = RelationName m /\ Properties m' = Properties m /\
  KeyStrategy_ m' = KeyStrategy_ m /\ Indexes m' = Indexes m /\ Relationships m' = Relationships m.
Proof. revert m. induction l as [|p l IH]; intros m; [done|]. exact (IH (derive_step m p)). Qed.

Section Assembled.
Context (types : Types) (named : string -> NamedType).
Context (entityType : GoType) (kind : RelationKind) (convention : NamingConvention) (depth : nat).
Abbreviation resolve := (resolve_property named entityType kind convention).

Lemma facets_stored spec : facets_fit named kind spec -> stored_facets (resolve spec).
Proof.
  unfold resolve_property. intros Hf.
  set (t := target entityType _). pose proof (proj2 (facets_valid named kind t spec) Hf) as E.
  assert (H1 : (validateFacets kind t (spec_column_type named spec) spec).1 =
            (default 0 (sp_Length spec), default 0 (sp_Precision spec),
             match sp_Precision spec with Some _ => default 0 (sp_Scale spec) | None => 0 end)).
  { unfold validateFacets in *. destruct (sp_Length spec); destruct (sp_Precision spec); try destruct (sp_Scale spec);
      try done; (destruct (negb (is_table kind)); [done|]); destruct (when _ _ ++ _); done. }
  rewrite H1. unfold stored_facets. cbn. destruct Hf as [(-> & -> & _)|(_ & Hl & Hp & Hs)]; [done|].
  split; [|split].
  - destruct (sp_Length spec) as [n|]; [by intros _; apply Hl|done].
  - destruct (sp_Precision spec) as [n|]; [by intros _; apply Hp|done].
  - destruct (sp_Scale spec) as [s|]; cbn.
    + destruct (Hs s eq_refl) as (q & -> & ?). done.
    + destruct (sp_Precision spec) as [n|]; cbn; [|done]. destruct (Hp n eq_refl). lia.
Qed.

Lemma strategy_generated properties : key_valid kind properties ->
  (resolveKeyStrategy entityType kind properties).1 = KeyDatabaseGenerated <->
  exists k, List.filter IsKey properties = [k] /\ IsGenerated k = true.
Proof.
  intros [_ Hg]. unfold resolveKeyStrategy. destruct (List.filter IsKey properties) as [|k more] eqn:E.
  { split; [done|]. by intros (? & [=] & _). }
  destruct (List.filter IsGenerated (k :: more)) as [|g gs] eqn:Eg; cbn [fst].
  - split; [destruct more; [by case_decide|done]|]. intros (k' & [= -> ->] & Hk). cbn in Eg. by rewrite Hk in Eg.
  - split; [|done]. intros _. assert (Hin : List.In g (k :: more) /\ IsGenerated g = true) by (apply filter_In; rewrite Eg; by left).
    destruct Hin as [Hin Hgen]. rewrite <- E in Hin. apply filter_In in Hin as [Hin Hkey].
    exists g. destruct (Hg g) as [E' _]; [by apply list_elem_of_In|done|done|]. by split.
Qed.

Lemma index_mapped relationName properties specs ix c :
  ix ∈ (resolveIndexColumns entityType convention relationName specs (by_property properties)).1 -> c ∈ ei_Columns ix ->
  exists p, p ∈ properties /\ PropertyName p = ic_PropertyName c /\ ColumnName p = ic_ColumnName c.
Proof.
  unfold resolveIndexColumns. cbn [fst]. intros (r & (spec & -> & _)%list_elem_of_fmap & E)%list_elem_of_omap Hc.
  unfold resolve_index in E. destruct (mbind snd _); [|done]. injection E as <-. cbn in Hc.
  apply list_elem_of_omap in Hc as (rc & (c0 & -> & _)%list_elem_of_fmap & Ec).
  unfold resolve_index_column in Ec. destruct (by_property properties !! _) as [p|] eqn:Ep; [|done].
  injection Ec as <-. apply by_property_Some in Ep as [??]. by exists p.
Qed.

Lemma links_definition properties linked links tr :
  links_valid types kind properties links ->
  tr ∈ (resolve_links types entityType kind (list_to_set (ColumnName <$> properties)) (by_property properties) linked links).1 ->
  exists link d, link_valid types kind properties link /\
    (resolveTrigger types entityType kind link (list_to_set (ColumnName <$> properties)) (by_property properties)).1 = Some d /\
    tr = mkEntityTrigger link d.
Proof.
  intros (classes & -> & _ & Hc). revert linked. induction classes as [|link classes IH]; intros linked; cbn [fmap list_fmap resolve_links].
  { by intros []%not_elem_of_nil. }
  assert (IH' : forall linked, tr ∈ (resolve_links types entityType kind (list_to_set (ColumnName <$> properties)) (by_property properties) linked (Some <$> classes)).1 ->
     exists link d, link_valid types kind properties link /\
       (resolveTrigger types entityType kind link (list_to_set (ColumnName <$> properties)) (by_property properties)).1 = Some d /\
       tr = mkEntityTrigger link d) by (apply IH; intros l Hl; apply Hc; by right).
  destruct (negb (takes_triggers kind) || _).
  - pose proof (IH' linked) as H. destruct (resolve_links _ _ _ _ _ linked _) as [ts es]. exact H.
  - pose proof (IH' ({[link]} ∪ linked)) as H. destruct (resolve_links _ _ _ _ _ ({[link]} ∪ linked) _) as [ts es].
    destruct (resolveTrigger _ _ _ link _ _) as [[d|] es'] eqn:E; [|exact H].
    intros [->|Ht]%elem_of_cons; [|by apply H]. exists link, d. rewrite E. split_and!; [by apply Hc; left|done|done].
Qed.

Lemma trigger_definition properties link d :
  link_valid types kind properties link ->
  (resolveTrigger types entityType kind link (list_to_set (ColumnName <$> properties)) (by_property properties)).1 = Some d ->
  tr_Name d <> "" /\ tr_Timing d <> TimingNone /\ tr_Events d <> 0 /\
  forall c, c ∈ tr_UpdateOf d -> c ∈ ColumnName <$> properties.
Proof.
  intros (def & Hd & Hv). unfold resolveTrigger. rewrite Hd.
  set (name := target entityType (TypeShortName link)).
  assert (Hu : forall c, c ∈ (resolveUpdateOf def name (by_property properties)).1 -> c ∈ ColumnName <$> properties).
  { unfold resolveUpdateOf. destruct (tdef_UpdateOf def) as [|u us]; [by intros c []%not_elem_of_nil|]. cbn [fst].
    intros c (r & (n & -> & _)%list_elem_of_fmap & E)%list_elem_of_omap. unfold resolve_update_of in E.
    destruct (by_property properties !! n) as [p|] eqn:Ep; [|done]. injection E as <-.
    apply by_property_Some in Ep as [??]. by apply list_elem_of_fmap_2. }
  destruct (resolveUpdateOf _ _ _) as [updateOf us]. destruct (ScanTriggerTokens _) as [tokens problems].
  destruct (when _ _ ++ _); [|done]. intros [= <-]. destruct Hv as [_ ? ? _ [? _] _ _ _ _]. by split_and!.
Qed.

Lemma assembled_well_formed relationName schema definingSQL parameters specs indexSpecs relationshipSpecs links :
  rules types named entityType kind convention depth specs indexSpecs relationshipSpecs links ->
  well_formed (assembled types named entityType kind convention depth relationName schema definingSQL parameters specs
                 indexSpecs relationshipSpecs links).
Proof.
  intros [[Hcols _ _ Hfacets] Hv Hh Hr Hk Hi Hl Ht]. unfold assembled.
  set (m := NewEntityMap _ _ _ _ _ _ _ _ _).
  destruct (fold_static (resolve <$> specs) (mkEntityMap entityType kind relationName schema definingSQL (resolve <$> specs)
     (resolveKeyStrategy entityType kind (resolve <$> specs)).1
     (resolveIndexColumns entityType convention relationName indexSpecs (by_property (resolve <$> specs))).1
     (resolveRelationships types entityType depth relationshipSpecs (by_property (resolve <$> specs))).1 [] None None None None []))
    as (_ & Ek & _ & Ep & Es & Ei & Er).
  change (fold_left derive_step (resolve <$> specs) _) with m in Ek, Ep, Es, Ei, Er. cbn [Kind Properties KeyStrategy_ Indexes Relationships] in *.
  split; cbn [lm_Map lm_Triggers]; rewrite ?Ek, ?Ep, ?Es, ?Ei, ?Er; try done.
  - apply NewEntityMap_derived.
  - rewrite <- list_fmap_compose. erewrite list_fmap_ext; [exact Hcols|]. intros ? spec _. cbn. unfold resolve_property.
    by destruct (validateFacets _ _ _ _).1 as [[??]?].
  - intros p (spec & -> & Hs)%list_elem_of_fmap. by apply facets_stored, Hfacets.
  - rewrite (md_keys m) by apply NewEntityMap_derived. rewrite Ep. by apply strategy_generated.
  - intros ix c. apply index_mapped.
  - intros r n Hin Hkind Hn. unfold resolveRelationships in Hin. cbn [fst] in Hin.
    apply list_elem_of_omap in Hin as (res & (spec & -> & Hs)%list_elem_of_fmap & E).
    specialize (Hl spec Hs). unfold resolve_relationship in E. destruct (relationship_refused _ _ _ _); [done|]. injection E as <-.
    unfold relationship_valid in Hl. cbn in Hkind, Hn. rewrite Hkind in Hl. by apply Hl.
  - intros tr Htr. apply links_definition in Htr as (link & d & Hlv & Hd & ->); [|done]. by eapply trigger_definition.
Qed.
End Assembled.

(** ** The three paths *)

Section Paths.
Context (types : Types) (named : string -> NamedType).

(** Whatever its path, a load ends in one assembly. *)
Lemma load_assembles depth explicit convention t m :
  load types named depth explicit convention t = inl m ->
  exists kind relationName schema sql parameters specs indexes relationships links,
    assemble types named t kind convention depth relationName schema sql parameters specs indexes relationships links [] = inl m.
Proof.
  assert (Herr : forall kind relationName schema sql parameters specs indexes relationships links errs,
    assemble types named t kind convention depth relationName schema sql parameters specs indexes relationships links errs = inl m ->
    exists kind relationName schema sql parameters specs indexes relationships links,
      assemble types named t kind convention depth relationName schema sql parameters specs indexes relationships links [] = inl m).
  { intros * H. pose proof H as [[-> _] _]%assemble_inl. by repeat eexists. }
  unfold load. destruct (IsTriggerType types t); [done|]. destruct (IsOwnedType types t); [done|].
  destruct (explicit t) as [b|]; [|destruct (HasMappingDeclarations types t)].
  - unfold Build. destruct (mbind snd _); [|done]. by apply Herr.
  - unfold loadFromDeclarations. destruct (refuseEmbeddedEntities _ _ _); [|done].
    destruct (resolveSource _ _ _), (readProperties _ _ _ _ _) as [[]?].
    destruct (match Descriptor types t with Some _ => _ | None => _ end), (readIndexStreamShape _ _ _). by apply Herr.
  - unfold loadByConvention. destruct (discoverFields _ _ _). by apply Herr.
Qed.

Lemma one_version m : map_derived m -> version_valid (Properties m) -> single_version m.
Proof.
  intros Hd [_ Hone]. unfold single_version, versionOf. rewrite (md_version m Hd).
  induction (Properties m) as [|p l IH]; [done|]. cbn in *. destruct (IsVersion p); [|by apply IH].
  cbn in Hone. by destruct (List.filter IsVersion l); [|cbn in Hone; lia].
Qed.

(** ** Fields that are accounted for *)

(** The declaration says something. *)
Definition declares (d : fieldDeclaration) : bool :=
  fd_isColumn d || fd_isIgnore d || fd_isOwned d || negb (bool_decide (length (fd_relationships d) = 0%nat)) ||
  fd_hasCascade d || hasHook d || bool_decide (is_Some (fd_renamedFrom d)) || hasFacet d ||
  fd_isKey d || fd_isGenerated d || fd_isVersion d || fd_isEnumInt d || bool_decide (is_Some (fd_typeOverride d)).

Lemma one_more {A} (l : list A) a : negb (bool_decide (length (l ++ [a]) = 0%nat)) = true.
Proof. rewrite bool_decide_eq_false_2; [done|]. rewrite length_app. cbn. lia. Qed.
Ltac saying := rewrite ?one_more; repeat (first [rewrite orb_true_r | rewrite orb_true_l]); try done.

Lemma value_declares fieldTarget token d d' : declareValue fieldTarget token d = (d', []) -> declares d' = true.
Proof.
  destruct d. unfold declareValue, declareRenamedFrom, declareFacet, declares, hasHook, hasFacet.
  repeat case_match; intros [= <-]; cbn; saying.
Qed.

Lemma option_declares fieldTarget token d d' : declareOption fieldTarget token d = (d', []) -> declares d' = true.
Proof.
  unfold declareOption. destruct (decide (token = "")); [done|].
  repeat (destruct (decide _); [destruct d; unfold declareHook, declareRenamedFrom, declares, hasHook, hasFacet; cbn;
    intros [= <-]; cbn; saying|]).
  apply value_declares.
Qed.

Lemma options_declare fieldTarget tokens d d' :
  tokens <> [] -> declare_options fieldTarget tokens d = (d', []) -> declares d' = true.
Proof.
  revert d. induction tokens as [|token tokens IH]; intros d H; [done|]. cbn [declare_options]. unfold cbind.
  destruct (declareOption _ _ _) as [d1 es] eqn:E1. destruct (declare_options _ tokens d1) as [d2 es'] eqn:E2.
  intros [= -> [-> ->]%app_nil]. destruct tokens as [|token' tokens]; [|by eapply IH].
  injection E2 as <-. by eapply option_declares.
Qed.

Lemma split_some sep word l : split_from sep word l <> [].
Proof. revert word. induction l as [|c l IH]; intros word; cbn; [done|]. by case_match. Qed.

Lemma tag_declares fieldTarget tagValue d : parseFieldTag fieldTarget tagValue = (d, []) -> declares d = true.
Proof. apply options_declare, split_some. Qed.

(** What the members of an entity account a field to. *)
Definition own_spec (name : string) (specs : list MappedPropertySpec) : Prop :=
  exists spec, spec ∈ specs /\ sp_PropertyName spec = name /\ sp_Owner spec = None.
Definition owned_spec (name : string) (specs : list MappedPropertySpec) : Prop :=
  exists spec o, spec ∈ specs /\ sp_Owner spec = Some o /\ os_FieldName o = name.
Definition navigation_spec (name : string) (relationships : list RelationshipSpec) : Prop :=
  exists rel, rel ∈ relationships /\ rls_PropertyName rel = name.

Lemma relationship_read t field fieldTarget rel rs :
  readRelationshipField types t field fieldTarget rel = (rs, []) -> navigation_spec (sf_Name field) rs.
Proof.
  assert (H1 : forall r : RelationshipSpec, rls_PropertyName r = sf_Name field -> navigation_spec (sf_Name field) [r]).
  { intros r E. exists r. split; [by left|done]. }
  unfold readRelationshipField. destruct (pr_kind rel).
  - destruct (pointerToStructElem _); [|done]. case_decide; [done|]. intros [= <-]. by apply H1.
  - destruct (sliceEntityElem _); [|done]. destruct (validateTargetForeignKeys _ _ _); [|done]. intros [= <-]. by apply H1.
  - destruct (sliceEntityElem _); [|done]. unfold readManyToManyLink.
    destruct (match Descriptor types t with Some _ => _ | None => _ end); [|done].
    destruct (when _ _ ++ _); [|done]. intros [= <-]. by apply H1.
  - destruct (pointerToStructElem _); [|done]. destruct (validateTargetForeignKeys _ _ _); [|done]. intros [= <-]. by apply H1.
Qed.

Lemma member_read owner member :
  (readMember named owner member).2 = [] -> (readMember named owner member).1.2 = true ->
  exists spec, (readMember named owner member).1.1 = Some spec /\ sp_Owner spec = Some owner.
Proof.
  unfold readMember. destruct (sf_Tag _); [|done]. unfold cbind. destruct (parseFieldTag _ _) as [decl es].
  repeat (match goal with |- context [if ?b then _ else _] => destruct b end; cbn; try done).
  - by intros [_ [=]]%app_nil.
  - by intros [_ [=]]%app_nil.
  - intros _ _. by eexists.
Qed.

Lemma owned_read depth field fieldTarget prefix specs :
  readOwnedType types named depth field fieldTarget prefix = (specs, []) -> owned_spec (sf_Name field) specs.
Proof.
  unfold readOwnedType. destruct (struct_of _) as [ownedType|]; [|done]. case_decide; [done|].
  destruct (bool_decide _); [done|]. destruct (negb (IsOwnedType _ _)); [done|].
  destruct (discoverFields _ _ _) as [members discErrs].
  set (owner := mkOwnedSpec _ _ _ _). set (read := readMember named owner <$> members).
  intros [= <- [_ [He Hm%when_violation]%app_nil]%app_nil]. apply negb_false_iff, existsb_exists in Hm as (r & Hr & Hc).
  apply list_elem_of_In in Hr. pose proof (proj1 (bind_nil _ _) He _ Hr) as Hr2.
  apply list_elem_of_fmap in Hr as (member & -> & Hin). destruct (member_read owner member Hr2 Hc) as (spec & E & Ho).
  exists spec, owner. split_and!; [|done|done]. apply list_elem_of_omap. exists (readMember named owner member).
  split; [by apply list_elem_of_fmap_2|done].
Qed.

(** The field is ignored by its own declaration. *)
Definition ignored (t : GoType) (df : discoveredField) : Prop :=
  exists tagValue decl, sf_Tag (df_Field df) = Some tagValue /\
    parseFieldTag (target t (sf_Name (df_Field df))) tagValue = (decl, []) /\ fd_isIgnore decl = true.

Definition field_read (t : GoType) (df : discoveredField) (r : read) : Prop :=
  let name := sf_Name (df_Field df) in
  own_spec name r.1 \/ owned_spec name r.1 \/ navigation_spec name r.2 \/ ignored t df.

Lemma column_only_nil fieldTarget decl : column_only fieldTarget decl = [] <->
  hasHook decl = false /\ bool_decide (is_Some (fd_renamedFrom decl)) = false /\ hasFacet decl = false.
Proof. unfold column_only. by rewrite !app_nil_iff, !when_violation. Qed.

Lemma column_read kind t df fieldTarget decl r :
  declares decl = true -> fd_isOwned decl = false -> fd_relationships decl = [] -> fd_hasCascade decl = false ->
  fd_isIgnore decl = false -> readColumnField named kind df fieldTarget decl = (r, []) -> field_read t df r.
Proof.
  intros Hd Ho Hr Hc Hi. unfold readColumnField. destruct (fd_isColumn decl) eqn:Ecol; cbn [negb]; intros [= <- He].
  - left. exists (column_spec df decl). split_and!; [by left|done|done].
  - apply app_nil in He as [(H1 & H2 & H3)%column_only_nil H4%when_violation]. unfold declares in Hd.
    rewrite Ecol, Hi, Ho, Hr, Hc, H1, H2, H3 in Hd. change (fd_isKey decl || fd_isGenerated decl || fd_isVersion decl || fd_isEnumInt decl ||
      bool_decide (is_Some (fd_typeOverride decl)) = true) in Hd. congruence.
Qed.

Lemma readField_accounts depth t kind df r :
  readField types named depth t kind df = (r, []) -> field_read t df r.
Proof.
  unfold readField. destruct (sf_Tag _) as [tagValue|] eqn:Et; [|done]. unfold cbind at 1.
  destruct (parseFieldTag _ tagValue) as [decl es] eqn:Ep.
  destruct (if fd_isOwned decl then _ else _) as [r' es'] eqn:Er. intros [= -> [-> ->]%app_nil].
  pose proof (tag_declares _ _ _ Ep) as Hd. destruct (fd_isOwned decl) eqn:Eo; [|destruct (fd_relationships decl) as [|declared [|]] eqn:El; [| |done]].
  - right; left. unfold readOwnedField in Er. repeat (destruct (_ : bool) in Er; [done|]).
    unfold cbind in Er. destruct (readOwnedType _ _ _ _ _ _) as [specs es''] eqn:E. injection Er as <- Hes.
    rewrite app_nil_r in Hes. subst es''. by eapply owned_read.
  - destruct (fd_hasCascade decl) eqn:Ec; [done|]. destruct (fd_isIgnore decl) eqn:Ei; [|by eapply column_read].
    do 3 right. by exists tagValue, decl.
  - do 2 right; left. unfold readNavigation in Er. destruct (fd_hasCascade decl && _).
    + by injection Er as _ [_ ?]%app_nil.
    + destruct (readRelationshipField _ _ _ _ _) as [rs es''] eqn:E. injection Er as <- [_ ->]%app_nil. by eapply relationship_read.
Qed.
End Paths.

(** ** The depth of the walks

    Go refuses a struct that embeds itself by value, so the program's types have
    a rank that falls with every embedding; any depth above it gives one answer. *)
Section Depth.
Context (types : Types) (named : string -> NamedType).

Definition ranked (rank : GoType -> nat) : Prop := forall t field e,
  field ∈ fields_of types t -> classify field = FieldEmbedded e -> (rank e < rank t)%nat.

Context (rank : GoType -> nat) (Hrank : ranked rank).

Lemma fmap_ext_in {A B} (f g : A -> B) (l : list A) : (forall a, a ∈ l -> f a = g a) -> f <$> l = g <$> l.
Proof. intros H. apply list_fmap_ext. intros i a Ha. by eapply H, list_elem_of_lookup_2. Qed.

Lemma bind_ext_in {A B} (f g : A -> list B) (l : list A) : (forall a, a ∈ l -> f a = g a) -> mbind f l = mbind g l.
Proof.
  induction l as [|a l IH]; intros H; [done|]. change (f a ++ mbind f l = g a ++ mbind g l).
  rewrite (H a), IH; [done| |by left]. intros b Hb. apply H. by right.
Qed.

Lemma discover_deep d d' t : (rank t < d)%nat -> (rank t < d')%nat -> discoverFields types d t = discoverFields types d' t.
Proof.
  revert d' t. induction d as [|d IH]; intros [|d'] t Hd Hd'; try lia. cbn [discoverFields].
  assert (E : (fun field => match classify field with
        | FieldPointer => ([], violation "MAP-023" (target t (sf_Name field)))
        | FieldEmbedded embedded => discoverFields types d embedded | _ => cret [] end) <$> fields_of types t =
      (fun field => match classify field with
        | FieldPointer => ([], violation "MAP-023" (target t (sf_Name field)))
        | FieldEmbedded embedded => discoverFields types d' embedded | _ => cret [] end) <$> fields_of types t).
  { apply fmap_ext_in. intros field Hf. destruct (classify field) eqn:Ec; try done.
    pose proof (Hrank _ _ _ Hf Ec). apply IH; lia. }
  by rewrite E.
Qed.

Lemma arity_deep d d' t : (rank t < d)%nat -> (rank t < d')%nat -> keyArity types d t = keyArity types d' t.
Proof.
  revert d' t. induction d as [|d IH]; intros [|d'] t Hd Hd'; try lia. cbn [keyArity]. f_equal.
  apply fmap_ext_in. intros field Hf. destruct (sf_Exported field) eqn:Ee; [|done]. cbn [negb].
  destruct (sf_Anonymous field) eqn:Ea; [|done]. destruct (sf_Type field) eqn:Es; try done;
    (destruct (struct_of _) eqn:E; [|done]);
    (assert (Ec : classify field = FieldEmbedded g) by (unfold classify; rewrite Ee, Ea, Es; cbn [negb]; by rewrite E));
    pose proof (Hrank _ _ _ Hf Ec); apply IH; lia.
Qed.

Lemma embedded_deep d d' t : (rank t < d)%nat -> (rank t < d')%nat ->
  refuseEmbeddedEntities types d t = refuseEmbeddedEntities types d' t.
Proof.
  revert d' t. induction d as [|d IH]; intros [|d'] t Hd Hd'; try lia. cbn [refuseEmbeddedEntities].
  apply bind_ext_in. intros field Hf. destruct (sf_Anonymous field) eqn:Ea; [|done]. destruct (sf_Exported field) eqn:Ee; [|done].
  cbn [andb]. destruct (struct_of _) eqn:E; [|done].
  assert (Ec : classify field = FieldEmbedded g).
  { unfold classify. rewrite Ee, Ea. cbn [negb]. destruct (sf_Type field) eqn:Es; try done; by rewrite E. }
  pose proof (Hrank _ _ _ Hf Ec). by rewrite (IH d') by lia.
Qed.

Context (d d' : nat) (Hd : forall t, (rank t < d)%nat) (Hd' : forall t, (rank t < d')%nat).

Lemma assemble_deep t kind convention relationName schema sql parameters specs indexes relationships links errs :
  assemble types named t kind convention d relationName schema sql parameters specs indexes relationships links errs =
  assemble types named t kind convention d' relationName schema sql parameters specs indexes relationships links errs.
Proof.
  unfold assemble. destruct (buildProperties _ _ _ _ _) as [properties es].
  assert (E : resolveRelationships types t d relationships (by_property properties) =
              resolveRelationships types t d' relationships (by_property properties)).
  { unfold resolveRelationships. assert (E : forall spec, resolve_relationship types t d (by_property properties) spec =
      resolve_relationship types t d' (by_property properties) spec).
    { intros spec. unfold resolve_relationship, relationship_refused. by rewrite (arity_deep d d'). }
    by rewrite (fmap_ext_in _ _ _ (fun spec _ => E spec)). }
  by rewrite E.
Qed.

Lemma properties_deep t kind : readProperties types named d t kind = readProperties types named d' t kind.
Proof.
  unfold readProperties. rewrite (discover_deep d d') by done. destruct (discoverFields types d' t) as [fields es].
  assert (E : forall df, readField types named d t kind df = readField types named d' t kind df).
  { intros df. unfold readField. destruct (sf_Tag _); [|done]. unfold cbind. destruct (parseFieldTag _ _) as [decl es'].
    destruct (fd_isOwned decl); [|done]. unfold readOwnedField, readOwnedType.
    destruct (struct_of _); [|done]. by rewrite (discover_deep d d'). }
  by rewrite (fmap_ext_in _ _ _ (fun df _ => E df)).
Qed.

Lemma load_deep explicit convention t :
  load types named d explicit convention t = load types named d' explicit convention t.
Proof.
  unfold load, Build, loadFromDeclarations, loadByConvention. rewrite (embedded_deep d d'), (discover_deep d d') by done.
  destruct (IsTriggerType types t); [done|]. destruct (IsOwnedType types t); [done|].
  destruct (explicit t); [destruct (mbind snd _); [apply assemble_deep|done]|]. destruct (HasMappingDeclarations types t).
  - destruct (refuseEmbeddedEntities _ _ _); [|done]. destruct (resolveSource _ _ _). rewrite properties_deep. destruct (readProperties _ _ _ _ _) as [[]?].
    destruct (match Descriptor types t with Some _ => _ | None => _ end), (readIndexStreamShape _ _ _). apply assemble_deep.
  - destruct (discoverFields _ _ _). apply assemble_deep.
Qed.
End Depth.

(** A program: posts with an embedded base, an owned place, an author, an index
    and a trigger. *)
Definition app (name : string) : GoType := mkGoType "app" name.
Definition tagged (name : string) (s : TypeShape) (tag : string) : StructField := mkStructField name s (Some tag) true false.
Definition embedded_field (t : GoType) : StructField := mkStructField (TypeShortName t) (TStruct t) None true true.
Definition plain_struct (fields : list StructField) : StructDecl := mkStructDecl fields None None false.

Definition post_entity : EntityDef :=
  mkEntityDef (mkSource RelationTable "" "" "" [])
    [mkIndexDef [TokenColumn "Title"; TokenOrder Desc; TokenColumn "AuthorID"] "" true]
    [mkForeignKeyDef "AuthorID" (app "Author")] [] [Some (app "PostTouched")].
Definition post_fields : list StructField :=
  [embedded_field (app "Base");
   tagged "Title" (TValue TyString) "column=headline, length=200";
   tagged "Place" (TStruct (app "Address")) "owned=at_";
   tagged "AuthorID" (TValue (TyInt KInt64)) "column";
   tagged "Author" (TPointer (TStruct (app "Author"))) "many_to_one=AuthorID, cascade=persist";
   tagged "Revision" (TValue (TyInt KInt32)) "column, version";
   tagged "Draft" (TValue TyString) "ignore"].
Definition app_types : Types := list_to_map [
  (app "Base", plain_struct [tagged "ID" (TValue (TyInt KInt64)) "column, key, generated";
                             tagged "Stamp" (TValue TyTime) "column, created_at"]);
  (app "Address", mkStructDecl [tagged "Street" (TValue TyString) "column"] None None true);
  (app "Author", plain_struct [embedded_field (app "Base"); tagged "Name" (TValue TyString) "column"]);
  (app "PostTouched", mkStructDecl [] None
     (Some (mkTriggerDef "post_touched" TimingAfter EventUpdate ["Title"] "update log set at = {now} where id = {new:id}")) false);
  (app "Post", mkStructDecl post_fields (Some post_entity) None false)].
Definition no_named : string -> NamedType := fun _ => mkNamed NamedOther None false.
Definition post_map : LoadedMap :=
  match load app_types no_named 3 (fun _ => None) SnakeCase (app "Post") with inl m => m
  | inr _ => mkLoaded (NewEntityMap (app "") RelationTable "" "" "" [] KeyNone [] []) [] [] end.

(** * Theorems *)

(** C16. A map that a load returns is well formed, whichever path it took
    (declared, conventional, explicit) and whatever the program's types declare:
    the derived members are its properties', no column is mapped twice, facets are
    in range and on a type that has them, at most one version column and it is an
    integer outside the key, hooks and renames are in place, a table has a key and a
    generated one is a single integer, indexes, foreign keys and trigger columns
    name mapped members.  Generated SQL's single-version assumption holds of it. *)
Theorem loaded_map_well_formed types named depth explicit convention t m :
  load types named depth explicit convention t = inl m ->
  well_formed m /\ Type_ (lm_Map m) = t /\ single_version (lm_Map m).
Proof.
  intros (kind & relationName & schema & sql & parameters & specs & indexes & relationships & links &
    [[_ Hr] ->]%assemble_inl)%load_assembles.
  pose proof (assembled_well_formed _ _ _ _ _ _ relationName schema sql parameters _ _ _ _ Hr) as Hw.
  split; [done|]. split; [|by apply one_version; [apply (wf_derived _ Hw)|apply (wf_version _ Hw)]].
  unfold assembled. cbn [lm_Map]. by apply (fold_static _ (mkEntityMap _ _ _ _ _ _ _ _ _ _ _ _ _ _ _)).
Qed.

Lemma loaded_map_well_formed_witness :
  load app_types no_named 3 (fun _ => None) SnakeCase (app "Post") = inl post_map /\
  (ColumnName <$> Properties (lm_Map post_map)) = ["headline"; "at_street"; "author_id"; "revision"; "id"; "stamp"] /\
  length (lm_Triggers post_map) = 1%nat /\ well_formed post_map.
Proof.
  assert (E : load app_types no_named 3 (fun _ => None) SnakeCase (app "Post") = inl post_map) by (vm_compute; reflexivity).
  split; [exact E|]. split; [vm_compute; reflexivity|]. split; [vm_compute; reflexivity|].
  apply (loaded_map_well_formed _ _ _ _ _ _ _ E).
Defined.

(** The field is in the map, or says itself that it is not. *)
Definition accounted (t : GoType) (m : LoadedMap) (df : discoveredField) : Prop :=
  let name := sf_Name (df_Field df) in
  (exists p, p ∈ Properties (lm_Map m) /\ PropertyName p = name /\ Owner p = None) \/
  (exists p o, p ∈ Properties (lm_Map m) /\ Owner p = Some o /\ ow_PropertyName o = name) \/
  (exists r, r ∈ Relationships (lm_Map m) /\ rel_PropertyName r = name) \/
  ignored t df.

Section Accounted.
Context (types : Types) (named : string -> NamedType) (depth : nat) (convention : NamingConvention) (t : GoType).

Lemma resolve_shape kind spec :
  Owner (resolve_property named t kind convention spec) = owned_map convention <$> sp_Owner spec /\
  PropertyName (resolve_property named t kind convention spec) = spec_name convention spec.
Proof. unfold resolve_property. by destruct (validateFacets _ _ _ _).1 as [[??]?]. Qed.

Lemma assembled_accounts kind relationName schema sql parameters specs indexes relationships links df :
  rules types named t kind convention depth specs indexes relationships links ->
  field_read t df (specs, relationships) ->
  accounted t (assembled types named t kind convention depth relationName schema sql parameters specs indexes relationships links) df.
Proof.
  intros Hr Hf. unfold accounted, assembled. cbn [lm_Map].
  destruct (fold_static (resolve_property named t kind convention <$> specs) (mkEntityMap t kind relationName schema sql
     (resolve_property named t kind convention <$> specs)
     (resolveKeyStrategy t kind (resolve_property named t kind convention <$> specs)).1
     (resolveIndexColumns t convention relationName indexes (by_property (resolve_property named t kind convention <$> specs))).1
     (resolveRelationships types t depth relationships (by_property (resolve_property named t kind convention <$> specs))).1 [] None None None None []))
    as (_ & _ & _ & Ep & _ & _ & Er).
  set (m := NewEntityMap _ _ _ _ _ _ _ _ _). change (fold_left derive_step _ _) with m in Ep, Er.
  rewrite Ep, Er. cbn [Properties Relationships]. destruct Hf as [(spec & Hs & En & Eo)|[(spec & o & Hs & Eo & En)|[(rel & Hl & En)|Hi]]].
  - left. destruct (resolve_shape kind spec) as [H1 H2]. exists (resolve_property named t kind convention spec).
    split; [by apply list_elem_of_fmap_2|]. rewrite H1, H2, Eo. split; [|done]. unfold spec_name, spec_owner. by rewrite Eo.
  - right; left. destruct (resolve_shape kind spec) as [H1 H2]. exists (resolve_property named t kind convention spec), (owned_map convention o).
    split_and!; [by apply list_elem_of_fmap_2|by rewrite H1, Eo|exact En].
  - do 2 right; left. exists (relationship_map rel). split; [|exact En]. unfold resolveRelationships. cbn [fst].
    apply list_elem_of_omap. exists (resolve_relationship types t depth (by_property (resolve_property named t kind convention <$> specs)) rel).
    split; [by apply list_elem_of_fmap_2|]. unfold resolve_relationship.
    pose proof (ru_relationships _ _ _ _ _ _ _ _ _ _ Hr rel Hl) as Hv. apply relationship_rules in Hv. by rewrite Hv.
  - by do 3 right.
Qed.

(** The references give a spec a target and leave its name and owner. *)
Lemma reference_keeps foreignKeys specs errs spec :
  spec ∈ specs -> exists spec', spec' ∈ (fold_left (apply_foreign_key t) foreignKeys (specs, errs)).1 /\
    sp_PropertyName spec' = sp_PropertyName spec /\ sp_Owner spec' = sp_Owner spec.
Proof.
  revert specs errs spec. induction foreignKeys as [|fk fks IH]; intros specs errs spec Hs; cbn [fold_left]; [by exists spec|].
  unfold apply_foreign_key at 2. cbn [fst snd]. destruct (last_named 0 _ specs) as [i|]; [|by apply IH].
  apply list_elem_of_lookup in Hs as [j Hj]. destruct (decide (i = j)) as [->|Hn].
  - destruct (IH (alter (set_reference (fk_References fk)) j specs) errs (set_reference (fk_References fk) spec)) as (s' & Hs' & E1 & E2).
    + apply list_elem_of_lookup. exists j. by rewrite list_lookup_alter_eq, Hj.
    + by exists s'.
  - apply IH. apply list_elem_of_lookup. exists j. by rewrite list_lookup_alter_ne.
Qed.

Lemma reference_reads foreignKeys specs errs relationships df :
  field_read t df (specs, relationships) ->
  field_read t df ((fold_left (apply_foreign_key t) foreignKeys (specs, errs)).1, relationships).
Proof.
  intros [(spec & Hs & En & Eo)|[(spec & o & Hs & Eo & En)|H]]; [| |by do 2 right].
  - destruct (reference_keeps foreignKeys specs errs spec Hs) as (s' & Hs' & E1 & E2). left. exists s'. split_and!; [done|congruence..].
  - destruct (reference_keeps foreignKeys specs errs spec Hs) as (s' & Hs' & E1 & E2). right; left. exists s', o. split_and!; [done|congruence|done].
Qed.

Lemma properties_read kind specs relationships df :
  readProperties types named depth t kind = ((specs, relationships), []) ->
  df ∈ (discoverFields types depth t).1 -> field_read t df (specs, relationships).
Proof.
  unfold readProperties. destruct (discoverFields _ _ _) as [fields es]. intros [= <- <- [_ He]%app_nil] Hdf. cbn in Hdf.
  destruct (readField types named depth t kind df) as [r es'] eqn:E.
  assert (Hin : (r, es') ∈ readField types named depth t kind <$> fields) by (rewrite <- E; by apply list_elem_of_fmap_2).
  pose proof (proj1 (bind_nil _ _) He _ Hin) as Hes. cbn in Hes. subst es'.
  destruct (readField_accounts _ _ _ _ _ _ _ E) as [(spec & Hs & H)|[(spec & o & Hs & H)|[(rel & Hl & H)|Hi]]].
  - left. exists spec. split; [|done]. apply list_elem_of_bind. exists (r, []). split; [exact Hs|exact Hin].
  - right; left. exists spec, o. split; [|done]. apply list_elem_of_bind. exists (r, []). split; [exact Hs|exact Hin].
  - do 2 right; left. exists rel. split; [|done]. apply list_elem_of_bind. exists (r, []). split; [exact Hl|exact Hin].
  - by do 3 right.
Qed.
End Accounted.

(** C17. No field goes unmapped in silence (MAP-010): in the map of a type that
    declares its mapping, every field the load discovers, those of the structs it
    embeds included, is a column, an owned type with at least one column, or a
    navigation - or its own tag, parsed without a violation, says ignore. *)
Theorem no_field_unmapped types named depth explicit convention t m :
  explicit t = None -> HasMappingDeclarations types t = true ->
  load types named depth explicit convention t = inl m ->
  forall df, df ∈ (discoverFields types depth t).1 -> accounted t m df.
Proof.
  intros He Hh. unfold load. destruct (IsTriggerType types t); [done|]. destruct (IsOwnedType types t); [done|].
  rewrite He, Hh. unfold loadFromDeclarations. destruct (refuseEmbeddedEntities _ _ _); [|done].
  destruct (resolveSource _ _ _) as [source es1].
  destruct (readProperties _ _ _ _ _) as [[specs relationships] es2] eqn:Er.
  destruct (match Descriptor types t with Some _ => _ | None => _ end) as [specs' es3] eqn:Ef.
  destruct (readIndexStreamShape _ _ _) as [indexes es4].
  intros [[[_ [-> _]%app_nil]%app_nil Hr] ->]%assemble_inl df Hdf.
  eapply assembled_accounts; [exact Hr|]. pose proof (properties_read _ _ _ _ _ _ _ _ Er Hdf) as Hread.
  destruct (Descriptor types t) as [def|].
  - unfold applyForeignKeyReferences in Ef. pose proof (reference_reads t (ed_ForeignKeys def) specs [] relationships df Hread) as H.
    by rewrite Ef in H.
  - by injection Ef as <- _.
Qed.

Lemma no_field_unmapped_witness :
  length (discoverFields app_types 3 (app "Post")).1 = 8%nat /\
  forall df, df ∈ (discoverFields app_types 3 (app "Post")).1 -> accounted (app "Post") post_map df.
Proof.
  split; [vm_compute; reflexivity|].
  apply (no_field_unmapped app_types no_named 3 (fun _ => None) SnakeCase); vm_compute; reflexivity.
Defined.

(** C18. Loading ends whatever structs embed one another: for a program whose
    value embeddings have a rank - Go refuses the others - every depth above the
    ranks loads every type to the same map or the same violations, and the cache
    changes no answer: a cache of loaded maps answers what a load gives, and stays
    one. *)
Theorem load_depth_and_cache types named rank depth depth' explicit convention cache s :
  ranked types rank -> (forall t, rank t < depth)%nat -> (forall t, rank t < depth')%nat ->
  (forall t m, cache !! t = Some m -> load types named depth explicit convention t = inl m) ->
  let '(cache', answer) := Load types named depth explicit convention cache s in
  answer = match struct_of (EntityType s) with
           | None => inr (violation "MAP-023" (shape_text s))
           | Some t => load types named depth' explicit convention t
           end /\
  forall t m, cache' !! t = Some m -> load types named depth' explicit convention t = inl m.
Proof.
  intros Hrank Hd Hd' Hcache.
  assert (E : forall t, load types named depth explicit convention t = load types named depth' explicit convention t).
  { intros t. by apply (load_deep types named rank). }
  unfold Load. destruct (struct_of _) as [t|].
  2: { split; [done|]. intros t m. rewrite <- E. apply Hcache. }
  destruct (cache !! t) as [m|] eqn:Ec.
  { split; [rewrite <- E; symmetry; by apply Hcache|]. intros t' m'. rewrite <- E. apply Hcache. }
  rewrite <- E. destruct (load types named depth explicit convention t) as [m|es] eqn:El; (split; [done|]).
  - intros t' m' [[<- <-]|[_ H]]%lookup_insert_Some; rewrite <- E; [done|by apply Hcache].
  - intros t' m'. rewrite <- E. apply Hcache.
Qed.

Definition app_rank (t : GoType) : nat := if decide (t = app "Base") then 0 else 1.
Lemma app_ranked : ranked app_types app_rank.
Proof.
  intros t field e. unfold fields_of, decl_of. destruct (app_types !! t) as [decl|] eqn:E; [|by intros []%not_elem_of_nil].
  apply elem_of_list_to_map_2 in E. unfold app_rank.
  repeat (apply elem_of_cons in E as [[= -> ->]|E]); try by apply not_elem_of_nil in E.
  all: cbn; intros Hin Hc; repeat (apply elem_of_cons in Hin as [->|Hin]); try (by apply not_elem_of_nil in Hin);
    vm_compute in Hc; try done; injection Hc as <-; vm_compute; lia.
Qed.

Lemma load_depth_and_cache_witness :
  ranked app_types app_rank /\
  (Load app_types no_named 2 (fun _ => None) SnakeCase ∅ (TPointer (TStruct (app "Post")))).2 =
  load app_types no_named 7 (fun _ => None) SnakeCase (app "Post").
Proof.
  assert (Hr : forall t, (app_rank t < 2)%nat) by (intros t; unfold app_rank; case_decide; lia).
  pose proof (load_depth_and_cache app_types no_named app_rank 2 7 (fun _ => None) SnakeCase ∅ (TPointer (TStruct (app "Post")))
    app_ranked Hr (fun t => Nat.lt_le_trans _ 2 7 (Hr t) ltac:(lia))) as H.
  split; [exact app_ranked|]. destruct (Load _ _ _ _ _ _ _) as [cache' answer]. apply H. intros t m. by rewrite lookup_empty.
Defined.

(** ** What modelling showed *)

Definition key_field : StructField := tagged "ID" (TValue (TyInt KInt64)) "column, key".
Definition entity_of (indexes : list IndexDef) (foreignKeys : list ForeignKeyDef) : EntityDef :=
  mkEntityDef (mkSource RelationTable "" "" "" []) indexes foreignKeys [] [].
Definition one_type (fields : list StructField) (def : EntityDef) : Types :=
  list_to_map [(app "Base", plain_struct [tagged "Label" (TValue TyString) "column=base_label"]);
               (app "Address", mkStructDecl [tagged "Street" (TValue TyString) "column"] None None true);
               (app "T", mkStructDecl fields (Some def) None false)].
Definition loaded_properties {B} (show : PropertyMap -> B) (types : Types) : option (list B) :=
  match load types no_named 3 (fun _ => None) SnakeCase (app "T") with
  | inl m => Some (show <$> Properties (lm_Map m)) | inr _ => None end.
Definition loaded_indexes (types : Types) : option (list (string * bool)) :=
  match load types no_named 3 (fun _ => None) SnakeCase (app "T") with
  | inl m => Some ((fun ix => (ei_Name ix, ei_Unique ix)) <$> Indexes (lm_Map m)) | inr _ => None end.

(** MAP-018 compares the spellings of column names, where the databases and the
    snapshots compare them without case: a type with the columns [name] and [Name]
    loads, and no database can hold its table. *)
Theorem columns_differing_in_case_load :
  loaded_properties ColumnName (one_type [key_field; tagged "A" (TValue TyString) "column=name";
                                tagged "B" (TValue TyString) "column=Name"] (entity_of [] [])) =
  Some ["id"; "name"; "Name"].
Proof. vm_compute. reflexivity. Qed.

(** Two indexes over one column, one of them unique, derive one name and load;
    [create index if not exists] skips the second, so the unique one may be lost. *)
Theorem indexes_may_share_a_name :
  loaded_indexes (one_type [key_field; tagged "Mail" (TValue TyString) "column"]
    (entity_of [mkIndexDef [TokenColumn "Mail"; TokenOrder Desc] "" false; mkIndexDef [TokenColumn "Mail"] "" true] [])) =
  Some [("ix_t_mail", false); ("ix_t_mail", true)].
Proof. vm_compute. reflexivity. Qed.

(** A foreign key reference is looked up by the member's own name, the last one
    winning: the reference of [Street] lands on the owned [Place.Street]. *)
Theorem reference_lands_on_an_owned_member :
  loaded_properties (fun p => (PropertyName p, ForeignKeyReferences p)) (one_type [key_field; tagged "Street" (TValue (TyInt KInt64)) "column=street_id";
                                tagged "Place" (TStruct (app "Address")) "owned"]
     (entity_of [] [mkForeignKeyDef "Street" (app "Street")])) =
  Some [("ID", None); ("Street", None); ("Place.Street", Some (app "Street"))].
Proof. vm_compute. reflexivity. Qed.

(** A field that shadows an embedded one is mapped beside it when their columns
    differ: two properties of one name, which every lookup by name takes for one. *)
Theorem shadowed_field_is_mapped_twice :
  loaded_properties (fun p => (PropertyName p, ColumnName p)) (one_type [embedded_field (app "Base"); key_field; tagged "Label" (TValue TyString) "column"] (entity_of [] [])) =
  Some [("ID", "id"); ("Label", "label"); ("Label", "base_label")].
Proof. vm_compute. reflexivity. Qed.
