(* ===== verification/MapBuilder.v ===== *)
(** The options of a loader and the manual map builder
    (internal/metadata/options.go, entity_map_builder.go): what a program
    registers beside its declarations, and that it says the same thing as tags. *)
From S2P Require Import Prelude GoStrings Values Core Triggers Converter Json SchemaSnapshot MigrationSteps MapSpec MapAssembler MapLoader LoaderLaws LoaderPaths.
#[local] Open Scope Z_scope.

(** ** Options *)

Record Options := mkOptions { op_NamingConvention : option NamingConvention; op_explicit : gmap GoType EntityMapBuilder }.

Definition Convention (o : Options) : NamingConvention := default SnakeCase (op_NamingConvention o).
Definition explicitFor (o : Options) (t : GoType) : option EntityMapBuilder := op_explicit o !! t.
Definition Register (t : GoType) (b : EntityMapBuilder) (o : Options) : Options :=
  mkOptions (op_NamingConvention o) (<[t := b]> (op_explicit o)).
(** [Loader.Load] with the options it was made with. *)
Definition load_with (types : Types) (named : string -> NamedType) (depth : nat) (o : Options) (t : GoType) : LoadedMap + list Error :=
  load types named depth (explicitFor o) (Convention o) t.

(** ** The builder

    A [PropertyConfiguration] is the place of its spec in the builder. *)

Definition NewEntityMapBuilder : EntityMapBuilder := mkBuilder [] "" "" [].
Definition ToTable (name : string) (b : EntityMapBuilder) : EntityMapBuilder :=
  mkBuilder (bu_specs b) name (bu_schema b) (bu_triggers b).
Definition InSchema (schema : string) (b : EntityMapBuilder) : EntityMapBuilder :=
  mkBuilder (bu_specs b) (bu_tableName b) schema (bu_triggers b).
Definition Trigger (link : option GoType) (b : EntityMapBuilder) : EntityMapBuilder :=
  mkBuilder (bu_specs b) (bu_tableName b) (bu_schema b) (bu_triggers b ++ [link]).

(** The field and its struct are looked up by [Build]. *)
Definition named_spec (fieldName : string) : MappedPropertySpec :=
  mkSpec_ (TValue (TyOther "" "")) (mkGoType "" "") fieldName None None false false false false false false false None None None None None None.
Definition Property_ (fieldName : string) (b : EntityMapBuilder) : EntityMapBuilder * nat :=
  (mkBuilder (bu_specs b ++ [named_spec fieldName]) (bu_tableName b) (bu_schema b) (bu_triggers b), length (bu_specs b)).
Definition configure (f : MappedPropertySpec -> MappedPropertySpec) (c : nat) (b : EntityMapBuilder) : EntityMapBuilder :=
  mkBuilder (alter f c (bu_specs b)) (bu_tableName b) (bu_schema b) (bu_triggers b).

Definition with_Column (name_ : string) (spec : MappedPropertySpec) : MappedPropertySpec :=
  let '(mkSpec_ ty declaring name _ type_ key gen version enum cr up soft renamed len prec scale fk owner) := spec in
  mkSpec_ ty declaring name (Some name_) type_ key gen version enum cr up soft renamed len prec scale fk owner.
Definition with_Key (spec : MappedPropertySpec) : MappedPropertySpec :=
  let '(mkSpec_ ty declaring name column type_ _ gen version enum cr up soft renamed len prec scale fk owner) := spec in
  mkSpec_ ty declaring name column type_ true gen version enum cr up soft renamed len prec scale fk owner.
Definition with_Generated (spec : MappedPropertySpec) : MappedPropertySpec :=
  let '(mkSpec_ ty declaring name column type_ key _ version enum cr up soft renamed len prec scale fk owner) := spec in
  mkSpec_ ty declaring name column type_ key true version enum cr up soft renamed len prec scale fk owner.
Definition with_Version (spec : MappedPropertySpec) : MappedPropertySpec :=
  let '(mkSpec_ ty declaring name column type_ key gen _ enum cr up soft renamed len prec scale fk owner) := spec in
  mkSpec_ ty declaring name column type_ key gen true enum cr up soft renamed len prec scale fk owner.
Definition with_EnumAsInt (spec : MappedPropertySpec) : MappedPropertySpec :=
  let '(mkSpec_ ty declaring name column type_ key gen version _ cr up soft renamed len prec scale fk owner) := spec in
  mkSpec_ ty declaring name column type_ key gen version true cr up soft renamed len prec scale fk owner.
Definition with_Type (columnType : ColumnType) (spec : MappedPropertySpec) : MappedPropertySpec :=
  let '(mkSpec_ ty declaring name column _ key gen version enum cr up soft renamed len prec scale fk owner) := spec in
  mkSpec_ ty declaring name column (Some columnType) key gen version enum cr up soft renamed len prec scale fk owner.
Definition with_CreatedAt (spec : MappedPropertySpec) : MappedPropertySpec :=
  let '(mkSpec_ ty declaring name column type_ key gen version enum _ up soft renamed len prec scale fk owner) := spec in
  mkSpec_ ty declaring name column type_ key gen version enum true up soft renamed len prec scale fk owner.
Definition with_UpdatedAt (spec : MappedPropertySpec) : MappedPropertySpec :=
  let '(mkSpec_ ty declaring name column type_ key gen version enum cr _ soft renamed len prec scale fk owner) := spec in
  mkSpec_ ty declaring name column type_ key gen version enum cr true soft renamed len prec scale fk owner.
Definition with_SoftDelete (spec : MappedPropertySpec) : MappedPropertySpec :=
  let '(mkSpec_ ty declaring name column type_ key gen version enum cr up _ renamed len prec scale fk owner) := spec in
  mkSpec_ ty declaring name column type_ key gen version enum cr up true renamed len prec scale fk owner.
Definition with_RenamedFrom (oldColumn : string) (spec : MappedPropertySpec) : MappedPropertySpec :=
  let '(mkSpec_ ty declaring name column type_ key gen version enum cr up soft _ len prec scale fk owner) := spec in
  mkSpec_ ty declaring name column type_ key gen version enum cr up soft (Some oldColumn) len prec scale fk owner.
Definition with_Length (length_ : Z) (spec : MappedPropertySpec) : MappedPropertySpec :=
  let '(mkSpec_ ty declaring name column type_ key gen version enum cr up soft renamed _ prec scale fk owner) := spec in
  mkSpec_ ty declaring name column type_ key gen version enum cr up soft renamed (Some length_) prec scale fk owner.
Definition with_Precision (precision : Z) (spec : MappedPropertySpec) : MappedPropertySpec :=
  let '(mkSpec_ ty declaring name column type_ key gen version enum cr up soft renamed len _ scale fk owner) := spec in
  mkSpec_ ty declaring name column type_ key gen version enum cr up soft renamed len (Some precision) scale fk owner.
Definition with_Scale (scale_ : Z) (spec : MappedPropertySpec) : MappedPropertySpec :=
  let '(mkSpec_ ty declaring name column type_ key gen version enum cr up soft renamed len prec _ fk owner) := spec in
  mkSpec_ ty declaring name column type_ key gen version enum cr up soft renamed len prec (Some scale_) fk owner.

(** ** A declaration, said to the builder *)

Definition say {A} (o : option A) (f : A -> MappedPropertySpec -> MappedPropertySpec) : list (MappedPropertySpec -> MappedPropertySpec) :=
  match o with Some a => [f a] | None => [] end.
Definition flag (b : bool) (f : MappedPropertySpec -> MappedPropertySpec) : list (MappedPropertySpec -> MappedPropertySpec) :=
  if b then [f] else [].
Definition chain_mapping (d : fieldDeclaration) : list (MappedPropertySpec -> MappedPropertySpec) :=
  say (fd_columnName d) with_Column ++ say (fd_typeOverride d) with_Type ++
  flag (fd_isKey d) with_Key ++ flag (fd_isGenerated d) with_Generated ++ flag (fd_isVersion d) with_Version ++
  flag (fd_isEnumInt d) with_EnumAsInt.
Definition chain_hooks (d : fieldDeclaration) : list (MappedPropertySpec -> MappedPropertySpec) :=
  flag (fd_isCreatedAt d) with_CreatedAt ++ flag (fd_isUpdatedAt d) with_UpdatedAt ++
  flag (fd_isSoftDelete d) with_SoftDelete ++ say (fd_renamedFrom d) with_RenamedFrom ++
  say (fd_length d) with_Length ++ say (fd_precision d) with_Precision ++ say (fd_scale d) with_Scale.
Definition chain (d : fieldDeclaration) : list (MappedPropertySpec -> MappedPropertySpec) := chain_mapping d ++ chain_hooks d.
Definition map_property (b : EntityMapBuilder) (property : string * fieldDeclaration) : EntityMapBuilder :=
  let '(b, c) := Property_ property.1 b in fold_left (fun b f => configure f c b) (chain property.2) b.
Definition builder_of (properties : list (string * fieldDeclaration)) : EntityMapBuilder :=
  fold_left map_property properties NewEntityMapBuilder.

Definition said (property : string * fieldDeclaration) : MappedPropertySpec :=
  fold_left (fun s f => f s) (chain property.2) (named_spec property.1).

Lemma configure_last fs specs spec table schema triggers :
  fold_left (fun b f => configure f (length specs) b) fs (mkBuilder (specs ++ [spec]) table schema triggers) =
  mkBuilder (specs ++ [fold_left (fun s f => f s) fs spec]) table schema triggers.
Proof.
  assert (Ha : forall f x, alter f (length specs) (specs ++ [x]) = specs ++ [f x]).
  { intros f x. clear. induction specs as [|y l IH]; [done|]. change (y :: alter f (length l) (l ++ [x]) = y :: (l ++ [f x])). by rewrite IH. }
  revert spec. induction fs as [|f fs IH]; intros spec; [done|]. cbn [fold_left].
  unfold configure at 2. cbn [bu_specs bu_tableName bu_schema bu_triggers]. by rewrite Ha, IH.
Qed.

Lemma builder_specs properties : builder_of properties = mkBuilder (said <$> properties) "" "" [].
Proof.
  unfold builder_of, NewEntityMapBuilder.
  assert (H : forall specs, fold_left map_property properties (mkBuilder specs "" "" []) =
    mkBuilder (specs ++ (said <$> properties)) "" "" []); [|apply (H [])].
  induction properties as [|p l IH]; intros specs; cbn [fold_left fmap list_fmap]; [by rewrite app_nil_r|].
  unfold map_property at 2, Property_. cbn [bu_specs bu_tableName bu_schema bu_triggers]. rewrite configure_last, IH.
  by rewrite <- app_assoc.
Qed.

Lemma said_mapping d spec :
  fold_left (fun s f => f s) (chain_mapping d) (named_spec spec) =
  mkSpec_ (TValue (TyOther "" "")) (mkGoType "" "") spec (fd_columnName d) (fd_typeOverride d) (fd_isKey d) (fd_isGenerated d)
    (fd_isVersion d) (fd_isEnumInt d) false false false None None None None None None.
Proof.
  unfold chain_mapping. by destruct (fd_columnName d), (fd_typeOverride d), (fd_isKey d), (fd_isGenerated d), (fd_isVersion d), (fd_isEnumInt d).
Qed.
Lemma said_hooks d ty declaring name column type_ key gen version enum :
  fold_left (fun s f => f s) (chain_hooks d)
    (mkSpec_ ty declaring name column type_ key gen version enum false false false None None None None None None) =
  mkSpec_ ty declaring name column type_ key gen version enum (fd_isCreatedAt d) (fd_isUpdatedAt d) (fd_isSoftDelete d)
    (fd_renamedFrom d) (fd_length d) (fd_precision d) (fd_scale d) None None.
Proof.
  unfold chain_hooks. by destruct (fd_isCreatedAt d), (fd_isUpdatedAt d), (fd_isSoftDelete d), (fd_renamedFrom d), (fd_length d), (fd_precision d), (fd_scale d).
Qed.
Lemma said_spec df decl : configured df (said (sf_Name (df_Field df), decl)) = column_spec df decl.
Proof. unfold said, chain. cbn [fst snd]. by rewrite fold_left_app, said_mapping, said_hooks. Qed.

(** A tag that maps its field to a column and nothing else. *)
Record column_tag (t : GoType) (df : discoveredField) (decl : fieldDeclaration) : Prop := {
  ct_tag : exists tagValue, sf_Tag (df_Field df) = Some tagValue /\ parseFieldTag (target t (sf_Name (df_Field df))) tagValue = (decl, []);
  ct_column : fd_isColumn decl = true /\ fd_isIgnore decl = false /\ fd_isOwned decl = false;
  ct_value : fd_relationships decl = [] /\ fd_hasCascade decl = false }.

(** What the tag reader, and it alone, asks of an [enum_int] field. *)
Definition tag_enum (named : string -> NamedType) (t : GoType) (field : discoveredField * fieldDeclaration) : list Error :=
  enum_violation named (df_Field field.1) field.2 (target t (sf_Name (df_Field field.1))).

Lemma column_field types named depth t df decl :
  column_tag t df decl ->
  readField types named depth t RelationTable df = (([column_spec df decl], []), tag_enum named t (df, decl)).
Proof.
  intros [(tagValue & Et & Ep) (Hc & Hi & Ho) (Hr & Hk)]. unfold readField. rewrite Et. unfold cbind. rewrite Ep, Ho, Hr, Hk, Hi.
  unfold readColumnField. rewrite Hc. cbn. destruct (fd_isKey decl); cbn; by rewrite app_nil_r.
Qed.

(** Violations collected before a map is assembled: it is not built, and they
    come before its own. *)
Definition violations (r : LoadedMap + list Error) : list Error := match r with inl _ => [] | inr es => es end.
Definition after (es : list Error) (r : LoadedMap + list Error) : LoadedMap + list Error :=
  match es with [] => r | _ :: _ => inr (es ++ violations r) end.

Lemma assemble_after types named t kind convention depth name schema sql params specs indexes relationships triggers errs :
  assemble types named t kind convention depth name schema sql params specs indexes relationships triggers errs =
  after errs (assemble types named t kind convention depth name schema sql params specs indexes relationships triggers []).
Proof.
  unfold assemble. destruct (buildProperties _ _ _ _ _) as [properties property_errors].
  destruct (resolveKeyStrategy _ _ _) as [keyStrategy key_errors].
  destruct (resolveIndexColumns _ _ _ _) as [idx index_errors].
  destruct (resolveRelationships _ _ _ _ _) as [rels relationship_errors].
  destruct (resolveTriggers _ _ _ _ _) as [trig trigger_errors]. cbn [app].
  match goal with |- context [errs ++ ?own] => generalize own end.
  intros [|e es]; destruct errs as [|e' errs]; cbn; by rewrite ?app_nil_r.
Qed.

Section Agree.
Context (types : Types) (named : string -> NamedType) (depth : nat) (t : GoType).
Context (fields : list (discoveredField * fieldDeclaration)).
Context (Hfields : forall df decl, (df, decl) ∈ fields -> exported_field types t (sf_Name (df_Field df)) = Some df /\ column_tag t df decl).
Abbreviation properties := ((fun p => (sf_Name (df_Field p.1), p.2)) <$> fields).

Lemma fields_read : readField types named depth t RelationTable <$> (fst <$> fields) =
  (fun p => (([column_spec p.1 p.2], []), tag_enum named t p)) <$> fields.
Proof.
  rewrite <- list_fmap_compose. apply fmap_ext_in. intros [df decl] H. cbn. by apply column_field, Hfields.
Qed.

Lemma fields_built : build_spec types t <$> (said <$> properties) = (fun p => cret (Some (column_spec p.1 p.2))) <$> fields.
Proof.
  rewrite <- !list_fmap_compose. apply fmap_ext_in. intros [df decl] H. cbn. destruct (Hfields df decl H) as [He _].
  pose proof (said_spec df decl) as E. unfold build_spec.
  assert (En : sp_PropertyName (said (sf_Name (df_Field df), decl)) = sf_Name (df_Field df)).
  { unfold said, chain. cbn [fst snd]. by rewrite fold_left_app, said_mapping, said_hooks. }
  by rewrite En, He, E.
Qed.
End Agree.

(** * Theorems *)


Definition author_fields : list (discoveredField * fieldDeclaration) :=
  (fun df => (df, (parseFieldTag "" (default "" (sf_Tag (df_Field df)))).1)) <$> (discoverFields app_types 3 (app "Author")).1.


(** The builder does not ask of [EnumAsInt] what the tag is asked: on a string
    field the tag is MAP-023 and the builder maps an integer column. *)
Theorem builder_takes_any_enum :
  let types := one_type [key_field; tagged "Mood" (TValue TyString) "column, enum_int"] (entity_of [] []) in
  let builder := builder_of [("ID", (parseFieldTag "" "column, key").1); ("Mood", (parseFieldTag "" "column, enum_int").1)] in
  load types no_named 3 (fun _ => None) SnakeCase (app "T") = inr (violation "MAP-023" "T.Mood") /\
  exists m, load types no_named 3 (explicitFor (Register (app "T") builder (mkOptions None ∅))) SnakeCase (app "T") = inl m /\
    (fun p => (ColumnName p, ColumnType_ p)) <$> Properties (lm_Map m) = [("id", TypeInt64); ("mood", TypeEnumInt)].
Proof. split; [vm_compute; reflexivity|]. eexists. split; vm_compute; reflexivity. Qed.
