(* ===== verification/TriggerScan.v ===== *)
(** The scan over a model's triggers ([ScanTriggers],
    internal/metadata/trigger_resolver.go): what one load cannot see - a trigger
    class two entities link, two classes declaring one name. *)
From S2P Require Import Prelude GoStrings Values Core Triggers Converter Json SchemaSnapshot MigrationSteps MapSpec MapAssembler MapLoader LoaderLaws LoaderPaths.
#[local] Open Scope Z_scope.

Section Scan.
Context (types : Types).

(** [linkedBy] and the known classes, in the order they are met. *)
Record Scan := mkScan { sc_linkedBy : gmap GoType (list string); sc_classes : list GoType }.

Definition note (t : GoType) (s : Scan) : Scan :=
  if decide (t ∈ sc_classes s) then s else mkScan (sc_linkedBy s) (sc_classes s ++ [t]).
Definition link_by (t : GoType) (entity : string) (s : Scan) : Scan :=
  mkScan (<[t := default [] (sc_linkedBy s !! t) ++ [entity]]> (sc_linkedBy s)) (sc_classes s).

(** The classes an entity links, each once, those that declare no trigger left out. *)
Fixpoint linked_classes (seen : gset GoType) (links : list (option GoType)) : list GoType :=
  match links with
  | [] => []
  | None :: rest => linked_classes seen rest
  | Some t :: rest =>
      if bool_decide (t ∈ seen) || negb (IsTriggerType types t) then linked_classes seen rest
      else t :: linked_classes ({[t]} ∪ seen) rest
  end.

Definition scan_entity (s : Scan) (entity : GoType) : Scan :=
  if IsTriggerType types entity then note entity s
  else if IsOwnedType types entity then s
  else match Descriptor types entity with
       | None => s
       | Some def =>
           fold_left (fun s t => note t (link_by t (TypeShortName entity) s)) (linked_classes ∅ (ed_Triggers def)) s
       end.
Definition scan_class (s : Scan) (t : GoType) : Scan := if IsTriggerType types t then note t s else s.

Definition scanned (entities triggerTypes : list GoType) : Scan :=
  fold_left scan_class triggerTypes (fold_left scan_entity entities (mkScan ∅ [])).

Definition type_before (a b : GoType) : Prop := String.le (TypeName a) (TypeName b).
#[global] Instance type_before_dec : RelDecision type_before.
Proof. intros a b. unfold type_before. apply _. Defined.

Definition link_conflicts (linkedBy : gmap GoType (list string)) (class : GoType) : list Error :=
  match default [] (linkedBy !! class) with
  | _ :: _ :: _ => violation "MAP-029" (TypeShortName class)
  | _ => []
  end.

(** The trimmed name a class declares, [None] for a blank one. *)
Definition declared_name (class : GoType) : option string :=
  let name := TrimSpace (match TriggerDeclarationOf types class with Some d => tdef_Name d | None => "" end) in
  if decide (name = "") then None else Some name.

Definition name_key (class : GoType) : option string := ToLower <$> declared_name class.
Definition name_conflicts (classes : list GoType) (key : string) : list Error :=
  match List.filter (fun class => bool_decide (name_key class = Some key)) classes with
  | first :: _ :: _ => violation "MAP-029" (default "" (declared_name first))
  | _ => []
  end.

Definition ScanTriggers (entities triggerTypes : list GoType) : list Error :=
  let s := scanned entities triggerTypes in
  let classes := merge_sort type_before (sc_classes s) in
  mbind (link_conflicts (sc_linkedBy s)) classes ++
  mbind (name_conflicts classes) (sort_strings (remove_dups (omap name_key classes))).

(** ** What the scan sees *)

(** The entity links the class: its descriptor does, in whatever order. *)
Definition links (class entity : GoType) : Prop :=
  IsTriggerType types entity = false /\ IsOwnedType types entity = false /\ IsTriggerType types class = true /\
  exists def, Descriptor types entity = Some def /\ Some class ∈ ed_Triggers def.
#[export] Instance links_dec class entity : Decision (links class entity).
Proof.
  unfold links. destruct (Descriptor types entity) as [def|] eqn:E.
  - destruct (decide (IsTriggerType types entity = false /\ IsOwnedType types entity = false /\ IsTriggerType types class = true /\
                      Some class ∈ ed_Triggers def)) as [H|H].
    + left. destruct H as (? & ? & ? & ?). split_and!; try done. by exists def.
    + right. intros (? & ? & ? & ? & [= <-] & ?). by apply H.
  - right. by intros (_ & _ & _ & ? & [=] & _).
Defined.

(** A trigger class of the model: listed, or linked by an entity of it. *)
Definition in_model (entities triggerTypes : list GoType) (class : GoType) : Prop :=
  IsTriggerType types class = true /\
  (class ∈ entities \/ class ∈ triggerTypes \/ exists entity, entity ∈ entities /\ links class entity).

Lemma linked_classes_spec seen ls t :
  t ∈ linked_classes seen ls <-> (t ∉ seen) /\ IsTriggerType types t = true /\ Some t ∈ ls.
Proof.
  revert seen. induction ls as [|[u|] ls IH]; intros seen; cbn [linked_classes].
  - split; [by intros []%not_elem_of_nil|]. by intros (_ & _ & []%not_elem_of_nil).
  - destruct (bool_decide (u ∈ seen)) eqn:Es; [|destruct (IsTriggerType types u) eqn:Et]; cbn [orb negb].
    + apply bool_decide_eq_true in Es. rewrite IH, elem_of_cons.
      split; [intros (? & ? & ?); auto|]. by intros (? & ? & [[= ->]|?]).
    + apply bool_decide_eq_false in Es. rewrite !elem_of_cons, IH. split.
      * intros [->|(H1 & H2 & H3)]; [by split_and!; [|done|left]|]. split_and!; [|done|by right].
        intros ?. apply H1, elem_of_union. by right.
      * intros (H1 & H2 & [[= ->]|H3]); [by left|]. destruct (decide (t = u)) as [->|Hne]; [by left|]. right. split_and!; try done.
        by intros [->%elem_of_singleton|?]%elem_of_union.
    + rewrite IH, elem_of_cons. split; [intros (? & ? & ?); auto|]. intros (? & ? & [[= ->]|?]); [congruence|done].
  - rewrite IH, elem_of_cons. split; [intros (? & ? & ?); auto|]. by intros (? & ? & [[=]|?]).
Qed.

Lemma linked_classes_once seen ls : NoDup (linked_classes seen ls).
Proof.
  revert seen. induction ls as [|[u|] ls IH]; intros seen; cbn [linked_classes]; [by apply NoDup_nil_2| |done].
  destruct (_ || _); [done|]. apply NoDup_cons. split; [|done]. intros (Hn & _)%linked_classes_spec.
  apply Hn, elem_of_union. by left; apply elem_of_singleton.
Qed.

Definition owners (s : Scan) (class : GoType) : list string := default [] (sc_linkedBy s !! class).

Lemma note_spec t s c : (c ∈ sc_classes (note t s) <-> c = t \/ c ∈ sc_classes s) /\ sc_linkedBy (note t s) = sc_linkedBy s /\
  (NoDup (sc_classes s) -> NoDup (sc_classes (note t s))).
Proof.
  unfold note. case_decide as H; cbn; (split; [|split; [done|]]).
  - split; [by right|]. by intros [->|].
  - done.
  - rewrite elem_of_app, list_elem_of_singleton. tauto.
  - intros Hn. apply NoDup_app. split_and!; [done| |apply NoDup_singleton]. by intros x Hx ->%list_elem_of_singleton.
Qed.

Lemma link_by_owners t entity s c : owners (link_by t entity s) c = owners s c ++ (if decide (c = t) then [entity] else []).
Proof.
  unfold owners, link_by. cbn. case_decide as H; [subst; by rewrite lookup_insert_eq|].
  by rewrite lookup_insert_ne, app_nil_r.
Qed.

(** The fold over the classes one entity links. *)
Lemma fold_links entity ls s c : NoDup ls ->
  let s' := fold_left (fun s t => note t (link_by t entity s)) ls s in
  owners s' c = owners s c ++ (if decide (c ∈ ls) then [entity] else []) /\
  (c ∈ sc_classes s' <-> c ∈ ls \/ c ∈ sc_classes s) /\ (NoDup (sc_classes s) -> NoDup (sc_classes s')).
Proof.
  revert s. induction ls as [|t ls IH]; intros s Hnd; cbn [fold_left].
  { rewrite decide_False by apply not_elem_of_nil. split; [by rewrite app_nil_r|]. split; [|done].
    split; [by right|]. by intros [[]%not_elem_of_nil|]. }
  apply NoDup_cons in Hnd as [Ht Hnd]. destruct (IH (note t (link_by t entity s)) Hnd) as (H1 & H2 & H3).
  destruct (note_spec t (link_by t entity s) c) as (N1 & N2 & N3). split; [|split].
  - rewrite H1. unfold owners. rewrite N2. fold (owners (link_by t entity s) c). rewrite link_by_owners, <- app_assoc. f_equal.
    destruct (decide (c = t)) as [->|Hne].
    + rewrite decide_False by done. by rewrite decide_True by left.
    + destruct (decide (c ∈ ls)); [by rewrite decide_True by by right|]. rewrite decide_False; [done|]. by intros [?|?]%elem_of_cons.
  - rewrite H2, N1, elem_of_cons. cbn. tauto.
  - intros Hs. by apply H3, N3.
Qed.

(** What one entity brings. *)
Lemma scan_entity_spec s entity c :
  owners (scan_entity s entity) c = owners s c ++ (if decide (links c entity) then [TypeShortName entity] else []) /\
  (c ∈ sc_classes (scan_entity s entity) <->
   (IsTriggerType types c = true /\ (c = entity \/ links c entity)) \/ c ∈ sc_classes s) /\
  (NoDup (sc_classes s) -> NoDup (sc_classes (scan_entity s entity))).
Proof.
  unfold scan_entity. destruct (IsTriggerType types entity) eqn:Et; [|destruct (IsOwnedType types entity) eqn:Eo].
  - destruct (note_spec entity s c) as (N1 & N2 & N3).
    rewrite decide_False by (intros (? & _); congruence). rewrite app_nil_r. split; [unfold owners; by rewrite N2|]. split; [|done].
    rewrite N1. split; [intros [->|?]; auto|]. intros [(_ & [?|(? & _)])|?]; [by left|congruence|by right].
  - rewrite decide_False by (intros (_ & ? & _); congruence). rewrite app_nil_r. split; [done|]. split; [|done].
    split; [by right|]. intros [(? & [->|(_ & ? & _)])|?]; congruence || done.
  - destruct (Descriptor types entity) as [def|] eqn:Ed.
    + assert (Hl : links c entity <-> c ∈ linked_classes ∅ (ed_Triggers def)).
      { rewrite linked_classes_spec. unfold links. rewrite Ed. split.
        - intros (_ & _ & ? & ? & [= <-] & ?). by split_and!; [apply not_elem_of_empty| |].
        - intros (_ & ? & ?). split_and!; try done. by exists def. }
      destruct (fold_links (TypeShortName entity) (linked_classes ∅ (ed_Triggers def)) s c (linked_classes_once _ _)) as (H1 & H2 & H3).
      split; [|split; [|done]].
      * rewrite H1. f_equal. destruct (decide (links c entity)); [rewrite decide_True|rewrite decide_False]; tauto || done.
      * rewrite H2, <- Hl. split; [intros [Hc|?]; [left; split; [apply Hc|by right]|by right]|].
        intros [(? & [->|?])|?]; [congruence|by left|by right].
    + rewrite decide_False by (intros (_ & _ & _ & ? & ? & _); congruence). rewrite app_nil_r. split; [done|]. split; [|done].
      split; [by right|]. intros [(? & [->|(_ & _ & _ & ? & ? & _)])|?]; congruence || done.
Qed.

Lemma scan_entities_spec entities s c :
  let s' := fold_left scan_entity entities s in
  owners s' c = owners s c ++ (TypeShortName <$> filter (links c) entities) /\
  (c ∈ sc_classes s' <-> (IsTriggerType types c = true /\ (c ∈ entities \/ exists e, e ∈ entities /\ links c e)) \/ c ∈ sc_classes s) /\
  (NoDup (sc_classes s) -> NoDup (sc_classes s')).
Proof.
  revert s. induction entities as [|e l IH]; intros s; cbn [fold_left].
  { rewrite filter_nil, app_nil_r. split; [done|]. split; [|done]. split; [by right|].
    intros [(_ & [[]%not_elem_of_nil|(? & []%not_elem_of_nil & _)])|?]; done. }
  destruct (IH (scan_entity s e)) as (H1 & H2 & H3). destruct (scan_entity_spec s e c) as (E1 & E2 & E3). split; [|split].
  - rewrite H1, E1, <- app_assoc, filter_cons. f_equal. by destruct (decide (links c e)).
  - rewrite H2, E2. setoid_rewrite elem_of_cons. split.
    + intros [(? & [?|(x & ? & ?)])|[(? & [?|?])|?]]; [left; auto|left; split; [done|]; right; by exists x; auto|left; auto|left; split; [done|]; right; by exists e; auto|by right].
    + intros [(? & [[?|?]|(x & [->|?] & ?)])|?]; [right; left; auto|left; auto|right; left; auto|left; split; [done|]; right; by exists x|by do 2 right].
  - intros Hn. by apply H3, E3.
Qed.

Lemma scan_classes_spec triggerTypes s c :
  let s' := fold_left scan_class triggerTypes s in
  owners s' c = owners s c /\ (c ∈ sc_classes s' <-> (IsTriggerType types c = true /\ c ∈ triggerTypes) \/ c ∈ sc_classes s) /\
  (NoDup (sc_classes s) -> NoDup (sc_classes s')).
Proof.
  revert s. induction triggerTypes as [|t l IH]; intros s; cbn [fold_left].
  { split; [done|]. split; [|done]. split; [by right|]. by intros [(_ & []%not_elem_of_nil)|?]. }
  destruct (IH (scan_class s t)) as (H1 & H2 & H3). rewrite H1, H2. setoid_rewrite elem_of_cons. unfold scan_class in *.
  destruct (IsTriggerType types t) eqn:Et.
  - destruct (note_spec t s c) as (N1 & N2 & N3). unfold owners. rewrite N1, N2. split; [done|]. split; [|intros ?; by apply H3, N3].
    split; [intros [(? & ?)|[->|?]]; auto|]. intros [(? & [->|?])|?]; auto.
  - split; [done|]. split; [|done]. split; [intros [(? & ?)|?]; auto|]. intros [(? & [->|?])|?]; [congruence|auto|auto].
Qed.

Lemma scanned_spec entities triggerTypes c :
  let s := scanned entities triggerTypes in
  owners s c = TypeShortName <$> filter (links c) entities /\ (c ∈ sc_classes s <-> in_model entities triggerTypes c) /\ NoDup (sc_classes s).
Proof.
  unfold scanned, in_model. set (s0 := mkScan ∅ []).
  destruct (scan_entities_spec entities s0 c) as (E1 & E2 & E3).
  destruct (scan_classes_spec triggerTypes (fold_left scan_entity entities s0) c) as (C1 & C2 & C3).
  rewrite C1, C2, E1, E2. split; [done|]. split; [|apply C3, E3, NoDup_nil_2].
  split; [|tauto]. intros [?|[?|[]%not_elem_of_nil]]; tauto.
Qed.
End Scan.

Lemma link_conflicts_nil s class : link_conflicts (sc_linkedBy s) class = [] <-> (length (owners s class) <= 1)%nat.
Proof. unfold link_conflicts, owners. destruct (default [] _) as [|? [|]]; cbn; split; try done; lia. Qed.

Lemma two_of_list {A} (l : list A) a b : a ∈ l -> b ∈ l -> a <> b -> (2 <= length l)%nat.
Proof.
  intros Ha Hb Hn. destruct l as [|x [|y l]]; [by apply not_elem_of_nil in Ha| |cbn; lia].
  apply list_elem_of_singleton in Ha as ->. by apply list_elem_of_singleton in Hb as ->.
Qed.

Lemma name_conflicts_nil types classes key : NoDup classes ->
  name_conflicts types classes key = [] <->
  forall a b, a ∈ classes -> b ∈ classes -> name_key types a = Some key -> name_key types b = Some key -> a = b.
Proof.
  intros Hn. unfold name_conflicts. set (l := List.filter _ classes).
  assert (Hl : forall c, c ∈ l <-> c ∈ classes /\ name_key types c = Some key).
  { intros c. unfold l. by rewrite !list_elem_of_In, filter_In, <- list_elem_of_In, bool_decide_eq_true. }
  assert (Hd : NoDup l) by (unfold l; apply NoDup_ListNoDup, List.NoDup_filter, NoDup_ListNoDup; exact Hn).
  transitivity (length l <= 1)%nat.
  { destruct l as [|? [|]]; cbn; split; try done; lia. }
  split.
  - intros Hlen a b Ha Hb Ka Kb. apply dec_stable. intros Hne.
    assert (2 <= length l)%nat; [|lia]. by apply (two_of_list l a b); [apply Hl..|].
  - intros H. destruct l as [|a [|b l]]; cbn; try lia. exfalso. apply NoDup_cons in Hd as [Hna _].
    destruct (proj1 (Hl a) (list_elem_of_here _ _)) as [Ha Ka].
    destruct (proj1 (Hl b) (list_elem_of_further _ _ _ (list_elem_of_here _ _))) as [Hb Kb].
    apply Hna. rewrite (H a b) by done. by left.
Qed.

(** * Theorem *)

(** C20. The trigger scan is exact over any model: it reports no conflict exactly
    when every trigger class is linked by at most one entity of the list and no two
    classes of the model - listed, linked or among the trigger types - declare
    names that differ only in case and blanks around them. *)
Theorem trigger_scan_exact types entities triggerTypes :
  ScanTriggers types entities triggerTypes = [] <->
  (forall class, (length (filter (links types class) entities) <= 1)%nat) /\
  (forall a b key, in_model types entities triggerTypes a -> in_model types entities triggerTypes b ->
    name_key types a = Some key -> name_key types b = Some key -> a = b).
Proof.
  unfold ScanTriggers. set (s := scanned types entities triggerTypes).
  set (classes := merge_sort type_before (sc_classes s)).
  assert (Hc : forall c, c ∈ classes <-> in_model types entities triggerTypes c).
  { intros c. unfold classes. rewrite merge_sort_Permutation. apply (scanned_spec types entities triggerTypes c). }
  assert (Hn : NoDup classes).
  { unfold classes. rewrite merge_sort_Permutation. apply (scanned_spec types entities triggerTypes (mkGoType "" "")). }
  assert (Ho : forall c, length (owners s c) = length (filter (links types c) entities)).
  { intros c. destruct (scanned_spec types entities triggerTypes c) as [E _]. fold s in E. by rewrite E, length_fmap. }
  rewrite app_nil_iff, !bind_nil. setoid_rewrite link_conflicts_nil. setoid_rewrite Ho.
  assert (Hnames : (forall key, key ∈ sort_strings (remove_dups (omap (name_key types) classes)) -> name_conflicts types classes key = []) <->
    forall a b key, in_model types entities triggerTypes a -> in_model types entities triggerTypes b ->
      name_key types a = Some key -> name_key types b = Some key -> a = b).
  { setoid_rewrite (name_conflicts_nil types classes _ Hn). split.
    - intros H a b key Ha Hb Ka Kb. apply (H key); try done; try by apply Hc.
      unfold sort_strings. rewrite merge_sort_Permutation, elem_of_remove_dups. apply list_elem_of_omap. exists a. split; [by apply Hc|done].
    - intros H key _ a b Ha Hb. apply H; by apply Hc. }
  rewrite Hnames. split; intros [H1 H2]; (split; [|done]); intros class; [|done].
  destruct (decide (class ∈ classes)) as [Hin|Hin]; [by apply H1|]. rewrite Hc in Hin.
  assert (E : filter (links types class) entities = []); [|rewrite E; cbn; lia].
  destruct (filter (links types class) entities) as [|e l] eqn:E; [done|]. exfalso. apply Hin.
  assert (He : e ∈ filter (links types class) entities) by (rewrite E; by left).
  apply list_elem_of_filter in He as [Hl He]. split; [apply Hl|]. right; right. by exists e.
Qed.
