(* ===== verification/MapExport.v ===== *)
(** The conformance export of a map (internal/metadata/entity_map_json.go,
    internal/core/column_type.go [TypeToken]): column names, neutral type tokens
    and SQL, never a Go name of a field. *)
From S2P Require Import Prelude GoStrings Values Core Triggers Converter Json SchemaSnapshot MigrationSteps MapSpec MapAssembler MapLoader LoaderLaws LoaderPaths.
#[local] Open Scope Z_scope.

(** A custom type exports under its own name, one pointer followed. *)
Definition TypeToken (goName : string) (columnType : ColumnType) : string :=
  if negb (bool_decide (columnType = TypeCustom)) then ColumnType_token columnType else "go:" +:+ goName.

(** [core.TypeName] of a type and of the elements of a field's type. *)
Definition go_name (s : TypeShape) : string := shape_text (pointee s).
Definition field_go_name (ft : FieldType) : string := shape_text (TValue (ft_elem ft)).

(** [normalizeSQL] *)
Definition normalizeSQL (sql : string) : string := Join (Fields sql) " ".

Section Exported.
Context (named : string -> NamedType).
(** what the related types load to *)
Context (load : GoType -> LoadedMap + list Error).

Definition buildParameters (params : list StatementParameter) : Json :=
  JArray ((fun p => JObject (Set_ (Set_ [] "name" (JString (stp_Name p)))
                       "type" (JString (TypeToken (go_name (stp_Type p)) (ColumnTypeOf named (stp_Type p)))))) <$> params).

Definition buildSource (lm : LoadedMap) : JSONObject :=
  let m := lm_Map lm in
  let source := Set_ [] "kind" (JString (RelationKind_Token (Kind m))) in
  if decide (Kind m = RelationStatement)
  then Set_ (Set_ source "sql" (JString (normalizeSQL (DefiningSQL m)))) "parameters" (buildParameters (lm_Parameters lm))
  else
    let source := Set_ source "name" (JString (RelationName m)) in
    let source := if decide (Schema m = "") then source else Set_ source "schema" (JString (Schema m)) in
    let source := if decide (DefiningSQL m = "") then source else Set_ source "sql" (JString (normalizeSQL (DefiningSQL m))) in
    if decide (Kind m = RelationProcedure) then Set_ source "parameters" (buildParameters (lm_Parameters lm)) else source.

Definition buildKey (m : EntityMap) : JSONObject :=
  Set_ (Set_ [] "strategy" (JString (KeyStrategy_Token (KeyStrategy_ m))))
    "columns" (JArray ((fun k => JString (ColumnName k)) <$> KeyProperties m)).

Definition set_when (b : bool) (key : string) (value : Json) (o : JSONObject) : JSONObject :=
  if b then Set_ o key value else o.

Definition buildColumn (p : PropertyMap) : Json :=
  let obj := Set_ [] "column" (JString (ColumnName p)) in
  let obj := Set_ obj "type" (JString (TypeToken (field_go_name (PropertyType p)) (ColumnType_ p))) in
  let obj := Set_ obj "nullable" (JBool (IsNullable p)) in
  let obj := set_when (IsKey p) "key" (JBool true) obj in
  let obj := set_when (IsGenerated p) "generated" (JBool true) obj in
  let obj := set_when (negb (bool_decide (AuditRole_Token (Audit p) = ""))) "audit" (JString (AuditRole_Token (Audit p))) obj in
  let obj := set_when (IsSoftDelete p) "softDelete" (JBool true) obj in
  let obj := match RenamedFrom p with Some old => Set_ obj "renamedFrom" (JString old) | None => obj end in
  let obj := set_when (0 <? Length p) "length" (JInt (Length p)) obj in
  JObject (if 0 <? Precision p
           then Set_ (Set_ obj "precision" (JInt (Precision p))) "scale" (JInt (Scale p)) else obj).
Definition buildColumns (m : EntityMap) : list Json := buildColumn <$> Properties m.

Definition buildIndexes (m : EntityMap) : list Json :=
  (fun index =>
    JObject (set_when (ei_Unique index) "unique" (JBool true)
      (Set_ (Set_ [] "name" (JString (ei_Name index))) "columns"
        (JArray ((fun c => JObject (Set_ (Set_ [] "column" (JString (ic_ColumnName c)))
                              "direction" (JString (if ic_Descending c then "desc" else "asc")))) <$> ei_Columns index))))) <$> Indexes m.

Definition buildTriggers (triggers : list EntityTrigger) : list Json :=
  (fun trigger =>
    let definition := et_Definition trigger in
    let obj := Set_ [] "name" (JString (tr_Name definition)) in
    let obj := Set_ obj "timing" (JString (TriggerTiming_Token (tr_Timing definition))) in
    let obj := Set_ obj "events" (JArray (JString <$> Events_Tokens (tr_Events definition))) in
    let obj := match tr_UpdateOf definition with
               | [] => obj
               | columns => Set_ obj "updateOf" (JArray (JString <$> columns)) end in
    JObject (Set_ obj "sql" (JString (NormalizeTriggerBody (tr_SQL definition))))) <$> triggers.

(** A name the owner does not map leaves the null of the fresh slice. *)
Definition foreignKeyColumns (owner : EntityMap) (propertyNames : list string) : Json :=
  JArray ((fun name => match Property owner name with Some p => JString (ColumnName p) | None => JNull end) <$> propertyNames).

(** One relationship's members; [RelationshipMap.LinkType] is set on a
    many-to-many. *)
Definition buildRelationship (m : EntityMap) (r : RelationshipMap) : Json + list Error :=
  let cascade obj :=
    match Cascade_Tokens (rel_Cascade r) with
    | [] => JObject obj
    | tokens => JObject (Set_ obj "cascade" (JArray (JString <$> tokens))) end in
  let references obj := Set_ obj "references" (JString (TypeShortName (rel_TargetType r))) in
  match rel_Kind r with
  | RelationshipManyToOne =>
      inl (cascade (references (Set_ (Set_ [] "kind" (JString "many_to_one"))
        "foreignKeyColumns" (foreignKeyColumns m (rel_ForeignKeyProperties r)))))
  | RelationshipOneToMany | RelationshipOneToOne =>
      let kindToken := if decide (rel_Kind r = RelationshipOneToOne) then "one_to_one" else "one_to_many" in
      match load (rel_TargetType r) with
      | inr es => inr es
      | inl targetMap =>
          inl (cascade (Set_ (references (Set_ [] "kind" (JString kindToken)))
            "targetForeignKeyColumns" (foreignKeyColumns (lm_Map targetMap) (rel_ForeignKeyProperties r))))
      end
  | RelationshipManyToMany =>
      let link := default (mkGoType "" "") (rel_LinkType r) in
      match load link with
      | inr es => inr es
      | inl linkMap =>
          inl (cascade (Set_ (Set_ (Set_ (references (Set_ [] "kind" (JString "many_to_many")))
            "through" (JString (TypeShortName link)))
            "linkForeignKeyColumnsToOwner" (foreignKeyColumns (lm_Map linkMap) (rel_LinkForeignKeysToOwner r)))
            "linkForeignKeyColumnsToTarget" (foreignKeyColumns (lm_Map linkMap) (rel_LinkForeignKeysToTarget r))))
      end
  end.
Fixpoint build_relationships (m : EntityMap) (rs : list RelationshipMap) : list Json + list Error :=
  match rs with
  | [] => inl []
  | r :: rest =>
      match buildRelationship m r with
      | inr es => inr es
      | inl json => match build_relationships m rest with inl more => inl (json :: more) | inr es => inr es end
      end
  end.
Definition buildRelationships (m : EntityMap) : list Json + list Error := build_relationships m (Relationships m).

Definition export_members (lm : LoadedMap) : JSONObject :=
  let m := lm_Map lm in
  let root := Set_ [] "entity" (JString (EntityName m)) in
  let root := Set_ root "source" (JObject (buildSource lm)) in
  let root := Set_ root "key" (JObject (buildKey m)) in
  let root := match VersionProperty m with Some v => Set_ root "version" (JString (ColumnName v)) | None => root end in
  let root := Set_ root "columns" (JArray (buildColumns m)) in
  let root := match buildIndexes m with [] => root | indexes => Set_ root "indexes" (JArray indexes) end in
  match buildTriggers (lm_Triggers lm) with [] => root | triggers => Set_ root "triggers" (JArray triggers) end.

Definition Export (lm : LoadedMap) : string + list Error :=
  match Relationships (lm_Map lm) with
  | [] => inl (CanonicalJSON (JObject (export_members lm)))
  | _ =>
      match buildRelationships (lm_Map lm) with
      | inr es => inr es
      | inl relationships => inl (CanonicalJSON (JObject (Set_ (export_members lm) "relationships" (JArray relationships))))
      end
  end.

(** ** When an export fails *)

(** The type whose map a relationship's columns come from. *)
Definition related_type (r : RelationshipMap) : option GoType :=
  match rel_Kind r with
  | RelationshipManyToOne => None
  | RelationshipManyToMany => Some (default (mkGoType "" "") (rel_LinkType r))
  | _ => Some (rel_TargetType r)
  end.
Definition unloaded (r : RelationshipMap) : Prop := exists t es, related_type r = Some t /\ load t = inr es.

Lemma relationship_fails m r : (exists es, buildRelationship m r = inr es) <-> unloaded r.
Proof.
  assert (H : forall t (k : LoadedMap -> Json), related_type r = Some t ->
    (exists es, (match load t with inr es => inr es | inl m' => inl (k m') end : Json + list Error) = inr es) <-> unloaded r).
  { intros t k E. unfold unloaded. rewrite E. split.
    - intros [es Hes]. exists t. destruct (load t) as [|es'] eqn:El; [done|]. by exists es'.
    - intros (t' & es & [= <-] & El). rewrite El. by exists es. }
  unfold buildRelationship. destruct (rel_Kind r) eqn:Ek; try (apply H; unfold related_type; by rewrite Ek).
  unfold unloaded, related_type. rewrite Ek. split; [by intros [? [=]]|by intros (? & ? & [=] & _)].
Qed.

Lemma relationships_fail m rs : (exists es, build_relationships m rs = inr es) <-> exists r, r ∈ rs /\ unloaded r.
Proof.
  induction rs as [|r rs IH]; cbn [build_relationships].
  { split; [by intros [? [=]]|]. by intros (? & []%not_elem_of_nil & _). }
  setoid_rewrite elem_of_cons. pose proof (relationship_fails m r) as Hr. destruct (buildRelationship m r) as [json|es].
  - destruct (build_relationships m rs) as [more|es].
    + split; [by intros [? [=]]|]. intros (x & [->|Hx] & Hu); [by apply Hr in Hu as [? [=]]|].
      assert (H : exists es, inl more = inr es :> list Json + list Error) by (apply IH; by exists x). by destruct H as [? [=]].
    + split; [|by exists es]. intros _. destruct (proj1 IH) as (x & Hx & Hu); [by exists es|]. exists x. auto.
  - split; [|by exists es]. intros _. exists r. split; [by left|]. apply Hr. by exists es.
Qed.
End Exported.

(** * Theorems *)

(** An export fails exactly when the map of a one-to-many or one-to-one target or
    of a many-to-many link does not load, and the foreign key columns a loaded
    map's many-to-one exports are all columns. *)
Theorem export_exact types named depth explicit convention t lm :
  load types named depth explicit convention t = inl lm ->
  ((exists es, Export named (load types named depth explicit convention) lm = inr es) <->
   exists r, r ∈ Relationships (lm_Map lm) /\ unloaded (load types named depth explicit convention) r) /\
  forall r, r ∈ Relationships (lm_Map lm) -> rel_Kind r = RelationshipManyToOne ->
    exists columns, foreignKeyColumns (lm_Map lm) (rel_ForeignKeyProperties r) = JArray (JString <$> columns) /\
      forall c, c ∈ columns -> c ∈ ColumnName <$> Properties (lm_Map lm).
Proof.
  intros Hload. split.
  - rewrite <- (relationships_fail _ (lm_Map lm)). unfold Export, buildRelationships.
    destruct (Relationships (lm_Map lm)) as [|r rs]; [split; by intros [? [=]]|].
    destruct (build_relationships _ _ _); split; try (by intros [? [=]]); intros _; by eexists.
  - intros r Hr Hk. destruct (load_assembles _ _ _ _ _ _ _ Hload) as (kind & rel & sch & sql & ps & specs & ixs & rls & lks & H).
    apply assemble_inl in H as [[_ Hrules] ->].
    pose proof (assembled_well_formed _ _ _ _ _ _ rel sch sql ps _ _ _ _ Hrules) as Hw.
    set (lm := assembled _ _ _ _ _ _ _ _ _ _ _ _ _ _) in *. clearbody lm.
    assert (Hm : forall n, n ∈ rel_ForeignKeyProperties r -> exists p, Property (lm_Map lm) n = Some p /\ p ∈ Properties (lm_Map lm)).
    { intros n Hn. pose proof (wf_foreign_keys _ Hw r n Hr Hk Hn) as (p & -> & Hp)%list_elem_of_fmap.
      unfold Property. destruct (List.find _ _) as [q|] eqn:E.
      - exists q. split; [done|]. apply List.find_some in E as [E _]. by apply list_elem_of_In.
      - pose proof (List.find_none _ _ E p (proj1 (list_elem_of_In _ _) Hp)) as Hno. cbn in Hno. by rewrite bool_decide_eq_true_2 in Hno. }
    unfold foreignKeyColumns. induction (rel_ForeignKeyProperties r) as [|n ns IH].
    + exists []. split; [done|]. by intros c []%not_elem_of_nil.
    + destruct IH as (columns & E & Hc); [intros x Hx; apply Hm; by right|]. destruct (Hm n) as (p & Ep & Hp); [by left|].
      exists (ColumnName p :: columns). injection E as E. split; [cbn; by rewrite Ep, E|].
      intros c [->|?]%elem_of_cons; [by apply list_elem_of_fmap_2|by apply Hc].
Qed.

Lemma export_exact_witness :
  load app_types no_named 3 (fun _ => None) SnakeCase (app "Post") = inl post_map /\
  (exists r, r ∈ Relationships (lm_Map post_map) /\
    foreignKeyColumns (lm_Map post_map) (rel_ForeignKeyProperties r) = JArray [JString "author_id"]) /\
  ~ exists es, Export no_named (load app_types no_named 3 (fun _ => None) SnakeCase) post_map = inr es.
Proof.
  assert (E : load app_types no_named 3 (fun _ => None) SnakeCase (app "Post") = inl post_map) by (vm_compute; reflexivity).
  split; [exact E|]. destruct (export_exact _ _ _ _ _ _ _ E) as [H1 _]. split.
  - eexists. split; [vm_compute; by left|]. vm_compute. reflexivity.
  - rewrite H1. intros (r & Hr & t & es & Ht & _). vm_compute in Hr. apply list_elem_of_singleton in Hr as ->. discriminate Ht.
Defined.

(** A one-to-many may name a target field no column maps - the loader asks only
    that it is there - and exports null for its column. *)
Theorem unmapped_foreign_key_exports_null :
  let types := list_to_map [
    (app "Child", plain_struct [key_field; tagged "Parent" (TValue (TyInt KInt64)) "ignore"]);
    (app "T", plain_struct [key_field; tagged "Children" (TSlice (TStruct (app "Child"))) "one_to_many=Parent"])] in
  exists m r child, load types no_named 3 (fun _ => None) SnakeCase (app "T") = inl m /\ Relationships (lm_Map m) = [r] /\
    load types no_named 3 (fun _ => None) SnakeCase (app "Child") = inl child /\
    foreignKeyColumns (lm_Map child) (rel_ForeignKeyProperties r) = JArray [JNull].
Proof. do 3 eexists. split_and!; vm_compute; reflexivity. Qed.
