(* ===== verification/ResultMapper.v ===== *)
(** The result mapper (internal/mapping/result_mapper.go): a plan binds the
    columns of a result to the properties of an entity, the fields of a plain
    struct or the one value of a scalar, and reads rows through the converter.

    A row is its scanned values; a type is what [MapSpec] makes of it; an
    instance is [Instances]'s.  The mutex of a plan set is not modelled: plans are
    immutable and the first one stored is kept. *)
From S2P Require Import Prelude GoStrings Values Core Converter Tracker Instances Triggers Json SchemaSnapshot MigrationSteps MapSpec MapAssembler MapLoader.
#[local] Open Scope Z_scope.

(** [IsMarkerlessTemporal] of the dialects that have it. *)
Definition Postgres_IsMarkerlessTemporal (databaseTypeName : string) : bool :=
  bool_decide (ToUpper (TrimSpace databaseTypeName) ∈ ["TIMESTAMP"; "TIMESTAMP WITHOUT TIME ZONE"]).
Definition SqlServer_IsMarkerlessTemporal (databaseTypeName : string) : bool :=
  bool_decide (ToUpper (TrimSpace databaseTypeName) ∈ ["DATETIME"; "DATETIME2"; "SMALLDATETIME"]).

(** ** Fields of a plain struct

    [reflect.VisibleFields]: the fields in the order of their index paths, an
    embedded struct's right after it; of the fields of one name the shallowest is
    visible, none where two are equally deep. *)
Record VisibleField := mkVisible {
  vf_Index : list nat;
  vf_Field : StructField;
  (** the path goes through an embedded pointer *)
  vf_Pointer : bool }.

Section Mapper.
Context (types : Types) (named : string -> NamedType).

Fixpoint walk_fields (fuel : nat) (visiting : list GoType) (t : GoType) (prefix : list nat) (pointer : bool) : list VisibleField :=
  match fuel with
  | 0%nat => []
  | S fuel =>
      if decide (t ∈ visiting) then [] else
      mbind (fun '(i, field) =>
        mkVisible (prefix ++ [i]) field pointer ::
        match sf_Anonymous field, struct_of (pointee (sf_Type field)) with
        | true, Some embedded =>
            walk_fields fuel (t :: visiting) embedded (prefix ++ [i]) (pointer || is_pointer (sf_Type field))
        | _, _ => []
        end) (imap pair (fields_of types t))
  end.
Definition hides (g f : VisibleField) : bool :=
  bool_decide (sf_Name (vf_Field g) = sf_Name (vf_Field f)) && negb (bool_decide (vf_Index g = vf_Index f)) &&
  (length (vf_Index g) <=? length (vf_Index f))%nat.
Definition VisibleFields (t : GoType) : list VisibleField :=
  let all := walk_fields (S (size types)) [] t [] false in
  List.filter (fun f => negb (existsb (fun g => hides g f) all)) all.

(** ** Plans *)

Context (handlers : TypeHandlerRegistry).
Context (FromDatabase : Value -> FieldType -> ColumnType -> string -> result Value).
(** the dialect's judge of temporal columns, none on SQLite *)
Context (markers : option (string -> bool)).
Context (load : GoType -> result EntityMap).

Record binding := mkBinding {
  bd_property : option PropertyMap;
  (** setting it dereferences an embedded pointer, nil in a new struct *)
  bd_nil_path : bool;
  (** drives the conversion of a scalar only; a property brings its own *)
  bd_columnType : ColumnType;
  bd_context : string }.

Record Plan := mkPlan {
  pl_resultType : TypeShape;
  pl_structType : GoType;
  pl_isPointer : bool;
  pl_scalar : bool;
  pl_bindings : list binding;
  pl_markerChecks : list nat }.

Definition HasHandler (ft : FieldType) : bool := Contains handlers (ft_elem ft).

Definition IsScalarType (t : TypeShape) : bool :=
  if HasHandler (field_type t) then true else
  match pointee t with
  | TValue (TyOther type zero) =>
      IsEnumType named (TyOther type zero) ||
      match nt_kind (named type) with NamedOther => false | _ => true end
  | TValue _ => true
  | _ => false
  end.

(** [binding]'s column type and target, the property's where there is one. *)
Definition judged (resultType : TypeShape) (b : binding) : ColumnType * FieldType :=
  match bd_property b with
  | Some p => (ColumnType_ p, PropertyType p)
  | None => (bd_columnType b, field_type resultType)
  end.
Definition marker_checked (resultType : TypeShape) (b : binding) : bool :=
  let '(columnType, target) := judged resultType b in
  (bool_decide (columnType = TypeDateTime) || bool_decide (columnType = TypeDateTimeOffset)) && negb (HasHandler target).
Definition planMarkerChecks (resultType : TypeShape) (bindings : list binding) : list nat :=
  match markers with
  | None => []
  | Some _ => omap (fun '(i, b) => if marker_checked resultType b then Some i else None) (imap pair bindings)
  end.

Definition propertyByColumnFold (m : EntityMap) (column : string) : option PropertyMap :=
  List.find (fun p => EqualFold (ColumnName p) column) (Properties m).

Definition entity_binding (m : EntityMap) (structType : GoType) (queryName column : string) : result binding :=
  match propertyByColumnFold m column with
  | None => Fail (NewError "MAP-001" queryName)
  | Some p => Ok (mkBinding (Some p) false (ColumnType_ p)
                    (queryName +:+ " → " +:+ TypeShortName structType +:+ "." +:+ PropertyName p))
  end.
Definition entity_bindings (m : EntityMap) (structType : GoType) (columns : list string) (queryName : string)
    : result (list binding) :=
  let* bindings := mapR (entity_binding m structType queryName) columns in
  let missing := List.filter (fun p => negb (existsb (fun b => bool_decide (bd_property b = Some p)) bindings)) (Properties m) in
  match missing with
  | [] => Ok bindings
  | _ => Fail (NewError "MAP-002" queryName)
  end.
Definition entityBindings (structType : GoType) (columns : list string) (queryName : string) : result (list binding) :=
  let* m := load structType in entity_bindings m structType columns queryName.

Definition without_underscores (s : string) : string := of_bytes (List.filter (fun c => negb (Ascii.eqb c "_"%char)) (bytes s)).
Definition NamesMatch (a b : string) : bool := EqualFold (without_underscores a) (without_underscores b).

Definition dto_fields (structType : GoType) : list VisibleField :=
  List.filter (fun f => sf_Exported (vf_Field f) && negb (sf_Anonymous (vf_Field f))) (VisibleFields structType).
Definition findDTOField (fields : list VisibleField) (column : string) : option VisibleField :=
  List.find (fun f => NamesMatch (sf_Name (vf_Field f)) column) fields.
Definition dto_property (structType : GoType) (field : StructField) (column : string) : PropertyMap :=
  mkProperty (Some structType) (sf_Name field) column (field_type (sf_Type field)) (ColumnTypeOf named (sf_Type field))
    false false false false AuditNone false None 0 0 0 None None.
Definition dto_binding (structType : GoType) (fields : list VisibleField) (queryName column : string)
    : result (VisibleField * binding) :=
  match findDTOField fields column with
  | None => Fail (NewError "MAP-001" queryName)
  | Some f =>
      let field := vf_Field f in
      Ok (f, mkBinding (Some (dto_property structType field column)) (vf_Pointer f) (ColumnTypeOf named (sf_Type field))
               (queryName +:+ " → " +:+ TypeShortName structType +:+ "." +:+ sf_Name field))
  end.
Definition dtoBindings (structType : GoType) (columns : list string) (queryName : string) : result (list binding) :=
  let fields := dto_fields structType in
  let* bound := mapR (dto_binding structType fields queryName) columns in
  let missing := List.filter (fun f =>
    negb (existsb (fun b => bool_decide (vf_Index b.1 = vf_Index f)) bound) && negb (is_pointer (sf_Type (vf_Field f)))) fields in
  match missing with
  | [] => Ok (snd <$> bound)
  | _ => Fail (NewError "MAP-002" queryName)
  end.

(** A result type that is neither a scalar nor a struct behind at most one
    pointer panics in reflection, while the plan is built or at its first row. *)
Definition buildPlan (resultType : TypeShape) (columns : list string) (queryName : string) : result Plan :=
  if IsScalarType resultType then
    match columns with
    | [] => Fail (NewError "MAP-002" queryName)
    | _ =>
        let bindings := [mkBinding None false (ColumnTypeOf named resultType) (queryName +:+ " → " +:+ shape_text resultType)] in
        Ok (mkPlan resultType (mkGoType "" "") false true bindings (planMarkerChecks resultType bindings))
    end
  else
    match struct_of (pointee resultType) with
    | None => Panic "reflect: call of NumField on a type that is no struct"
    | Some structType =>
        let* bindings := if HasMappingDeclarations types structType
                         then entityBindings structType columns queryName
                         else dtoBindings structType columns queryName in
        Ok (mkPlan resultType structType (is_pointer resultType) false bindings (planMarkerChecks resultType bindings))
    end.

(** ** The cache of plans: by result type, then by the column names *)

Definition planEntry : Type := TypeShape * list string * Plan.
Definition plans : Type := list planEntry.
Definition find_plan (set : plans) (resultType : TypeShape) (columns : list string) : option Plan :=
  snd <$> List.find (fun e => bool_decide (e.1 = (resultType, columns))) set.
Definition store_plan (set : plans) (resultType : TypeShape) (columns : list string) (plan : Plan) : plans * Plan :=
  match find_plan set resultType columns with
  | Some existing => (set, existing)
  | None => (set ++ [(resultType, columns, plan)], plan)
  end.
Definition Plan_ (set : plans) (resultType : TypeShape) (columns : list string) (queryName : string) : plans * result Plan :=
  match find_plan set resultType columns with
  | Some plan => (set, Ok plan)
  | None =>
      match buildPlan resultType columns queryName with
      | Fail e => (set, Fail e)
      | Ok plan => let '(set, plan) := store_plan set resultType columns plan in (set, Ok plan)
      end
  end.

(** ** Reading *)

Inductive RowValue := RowScalar (v : Value) | RowInstance (i : Instance).

Fixpoint judge_markers (judge : string -> bool) (bindings : list binding) (raw : list Value) (types_ : list string)
    (checks : list nat) : result unit :=
  match checks with
  | [] => Ok tt
  | i :: rest =>
      match raw !! i, types_ !! i with
      | Some v, Some name =>
          if negb (is_nil v) && judge name
          then Fail (NewError "VAL-020" (match bindings !! i with Some b => bd_context b | None => "" end))
          else judge_markers judge bindings raw types_ rest
      | _, _ => judge_markers judge bindings raw types_ rest
      end
  end.

Definition allNull (row : list (binding * Value)) (owner : OwnedMap) : bool :=
  forallb (fun '(b, v) => negb (bool_decide ((bd_property b ≫= Owner) = Some owner)) || is_nil v) row.

Definition skipped (row : list (binding * Value)) (b : binding) : bool :=
  match bd_property b ≫= Owner with
  | Some owner => ow_IsNullable owner && allNull row owner
  | None => false
  end.

Definition read_binding (row : list (binding * Value)) (bv : binding * Value) : SM Instance unit :=
  let '(b, v) := bv in
  match bd_property b with
  | None => sret tt
  | Some p =>
      if skipped row b then sret tt else
      do! converted <- slift (FromDatabase v (PropertyType p) (ColumnType_ p) (bd_context b)) in
      if bd_nil_path b then slift (Panic "reflect: indirection through nil pointer to embedded struct")
      else Instances.Set_ p converted
  end.

Definition read_row (structType : GoType) (row : list (binding * Value)) : result Instance :=
  match forS (read_binding row) row (mkInstance structType ∅ ∅ ∅) with
  | (i, Ok _) => Ok i
  | (_, Fail e) => Fail e
  end.

Definition ReadValuesTyped (plan : Plan) (raw : list Value) (columnTypes : option (list string)) : result RowValue :=
  if negb (length raw =? length (pl_bindings plan))%nat then Fail (NewError "" "ReadValues") else
  let* _ := match columnTypes, markers with
            | Some names, Some judge => judge_markers judge (pl_bindings plan) raw names (pl_markerChecks plan)
            | _, _ => Ok tt
            end in
  if pl_scalar plan then
    match pl_bindings plan, raw with
    | b :: _, v :: _ =>
        let* converted := FromDatabase v (field_type (pl_resultType plan)) (bd_columnType b) (bd_context b) in
        Ok (RowScalar converted)
    | _, _ => Panic "index out of range"
    end
  else
    let* i := read_row (pl_structType plan) (zip (pl_bindings plan) raw) in Ok (RowInstance i).
Definition ReadValues (plan : Plan) (raw : list Value) : result RowValue := ReadValuesTyped plan raw None.

(** [Read]: the scan yields the row's values; the column types are asked for
    where a check needs them. *)
Definition Read (plan : Plan) (scanned : list Value) (columnTypes : list string) : result RowValue :=
  ReadValuesTyped plan scanned (match pl_markerChecks plan with [] => None | _ => Some columnTypes end).
End Mapper.
