(* ===== verification/MapperLaws.v ===== *)
(** What the result mapper guarantees: which columns a plan takes, and that a
    row holding what an instance stored reads back into an equal instance. *)
From Stdlib Require Import SpecFloat.
From S2P Require Import Prelude GoStrings Values Core Converter ConverterLaws Tracker Instances Triggers Json SchemaSnapshot MigrationSteps MapSpec MapAssembler MapLoader LoaderLaws LoaderPaths ResultMapper.
#[local] Open Scope Z_scope.

(** ** Binding columns *)

Section Binding.
Context (m : EntityMap) (structType : GoType) (queryName : string).

(** The column the strict rule gives a property to. *)
Definition takes (column : string) (p : PropertyMap) : Prop := propertyByColumnFold m column = Some p.

Definition bound_to (p : PropertyMap) : binding :=
  mkBinding (Some p) false (ColumnType_ p) (queryName +:+ " → " +:+ TypeShortName structType +:+ "." +:+ PropertyName p).

Lemma binding_takes column b :
  entity_binding m structType queryName column = Ok b <-> exists p, takes column p /\ b = bound_to p.
Proof.
  unfold entity_binding, takes. destruct (propertyByColumnFold m column) as [p|].
  - split; [intros [= <-]; by exists p|by intros (q & [= ->] & ->)].
  - split; [done|by intros (? & [=] & _)].
Qed.

Lemma bindings_of columns bs :
  mapR (entity_binding m structType queryName) columns = Ok bs <->
  exists ps, Forall2 takes columns ps /\ bs = bound_to <$> ps.
Proof.
  rewrite mapR_Ok. split.
  - induction 1 as [|c b columns bs Hb _ (ps & H & ->)]; [by exists []|].
    apply binding_takes in Hb as (p & Hp & ->). exists (p :: ps). split; [by constructor|done].
  - intros (ps & H & ->). induction H as [|c p columns ps Hp _ IH]; [constructor|]. constructor; [|done].
    apply binding_takes. by exists p.
Qed.

Definition unbound (columns : list string) (p : PropertyMap) : Prop := forall c, c ∈ columns -> ~ takes c p.

Lemma entity_bindings_cases columns :
  match entity_bindings m structType columns queryName with
  | Ok bs => exists ps, Forall2 takes columns ps /\ bs = bound_to <$> ps /\ forall p, p ∈ Properties m -> p ∈ ps
  | Fail e =>
      (e = NewError "MAP-001" queryName /\ exists c, c ∈ columns /\ propertyByColumnFold m c = None) \/
      (e = NewError "MAP-002" queryName /\ (forall c, c ∈ columns -> exists p, takes c p) /\
       exists p, p ∈ Properties m /\ unbound columns p)
  end.
Proof.
  unfold entity_bindings. destruct (mapR _ columns) as [bs|e] eqn:E; cbn.
  2:{ apply mapR_Fail in E as (c & Hc & E). left. unfold entity_binding in E. destruct (propertyByColumnFold m c) eqn:Ef; [done|].
      injection E as <-. split; [done|]. by exists c. }
  apply bindings_of in E as (ps & Hps & ->). set (missing := List.filter _ _).
  assert (Hm : forall p, p ∈ missing <-> p ∈ Properties m /\ p ∉ ps).
  { intros p. set (test := fun p => existsb (fun b => bool_decide (bd_property b = Some p)) (bound_to <$> ps)).
    assert (Hx : test p = true <-> p ∈ ps).
    { unfold test. rewrite existsb_exists. split.
      - intros (b & Hb & Ep%bool_decide_eq_true). apply list_elem_of_In, list_elem_of_fmap in Hb as (q & -> & Hq). by injection Ep as <-.
      - intros Hp. exists (bound_to p). split; [by apply list_elem_of_In, list_elem_of_fmap_2|]. by apply bool_decide_eq_true. }
    rewrite <- Hx, not_true_iff_false, <- negb_true_iff. rewrite (list_elem_of_In missing). unfold missing. rewrite filter_In. by rewrite list_elem_of_In. }
  assert (Htakes : forall c, c ∈ columns -> exists p, takes c p /\ p ∈ ps).
  { clear -Hps. induction Hps as [|c p columns ps Hp _ IH]; intros c' Hc; [by apply not_elem_of_nil in Hc|].
    apply elem_of_cons in Hc as [->|Hc]; [exists p; split; [done|by left]|]. destruct (IH c' Hc) as (q & ? & ?). exists q. split; [done|by right]. }
  destruct missing as [|p more].
  - exists ps. split_and!; try done. intros p Hp. apply dec_stable. intros Hn. by apply (not_elem_of_nil p), Hm.
  - right. split; [done|]. split; [intros c Hc; destruct (Htakes c Hc) as (q & ? & _); by exists q|].
    destruct (proj1 (Hm p)) as [Hp Hn]; [by left|]. exists p. split; [done|]. intros c Hc Ht.
    destruct (Htakes c Hc) as (q & Hq & Hin). unfold takes in *. apply Hn. congruence.
Qed.
End Binding.

(** ** Reading a row *)

Section Reading.
Context (FromDatabase : Value -> FieldType -> ColumnType -> string -> result Value).
(** the properties bound, with the value of each one's column *)
Context (label : PropertyMap -> string) (data : PropertyMap -> Value) (ps : list PropertyMap).
Definition bd (p : PropertyMap) : binding := mkBinding (Some p) false (ColumnType_ p) (label p).
Definition row : list (binding * Value) := (fun p => (bd p, data p)) <$> ps.

Context (Hnames : NoDup (PropertyName <$> ps)).
Context (Howners : forall p q o o', p ∈ ps -> q ∈ ps -> Owner p = Some o -> Owner q = Some o' ->
           ow_PropertyName o = ow_PropertyName o' -> o = o').

(** A nullable navigation whose columns are all NULL. *)
Definition absent (o : OwnedMap) : Prop :=
  ow_IsNullable o = true /\ forall p, p ∈ ps -> Owner p = Some o -> data p = VNil.
Definition skip (p : PropertyMap) : bool := skipped row (bd p).

Lemma skip_true p : skip p = true <-> exists o, Owner p = Some o /\ absent o.
Proof.
  unfold skip, skipped, absent. cbn. destruct (Owner p) as [o|]; [|split; [done|by intros (? & [=] & _)]].
  rewrite andb_true_iff. unfold allNull, row.
  assert (H : forallb (fun '(b, v) => negb (bool_decide ((bd_property b ≫= Owner) = Some o)) || is_nil v)
                ((fun p => (bd p, data p)) <$> ps) = true <-> forall p, p ∈ ps -> Owner p = Some o -> data p = VNil).
  { rewrite forallb_forall. split.
    - intros H q Hq Eo. specialize (H (bd q, data q)). cbn in H. rewrite bool_decide_eq_true_2 in H by done. cbn in H.
      assert (Hn : is_nil (data q) = true) by (by apply H, list_elem_of_In, (list_elem_of_fmap_2 (fun p => (bd p, data p)))).
      by destruct (data q).
    - intros H [b v] Hb. apply list_elem_of_In, list_elem_of_fmap in Hb as (q & [= -> ->] & Hq). cbn.
      destruct (decide (Owner q = Some o)) as [E|E]; [rewrite (H q Hq E); apply orb_true_r|by rewrite bool_decide_eq_false_2]. }
  rewrite H. split; [intros ?; by exists o|by intros (? & [= <-] & ?)].
Qed.

(** What the loop has done after the properties [done_]. *)
Record so_far (value : PropertyMap -> Value) (done_ : list PropertyMap) (i : Instance) : Prop := {
  sf_set : forall p, p ∈ done_ -> skip p = false -> Get p i = stored p (value p) /\ reachable_field p i;
  sf_owned : forall n, n ∈ in_owned i -> exists p o, p ∈ done_ /\ skip p = false /\ Owner p = Some o /\ ow_PropertyName o = n }.

Lemma Set_owned p v i : accepts p v ->
  in_owned (Instances.Set_ p v i).1 ⊆ in_owned i ∪ match Owner p with Some o => {[ow_PropertyName o]} | None => ∅ end.
Proof.
  intros Hv. unfold Instances.Set_, sbind, smodify. set (i1 := match Owner p with Some o => allocate o i | None => i end).
  assert (H1 : in_owned i1 ⊆ in_owned i ∪ match Owner p with Some o => {[ow_PropertyName o]} | None => ∅ end).
  { subst i1. destruct (Owner p) as [o|]; [|set_solver]. unfold allocate. destruct (navigation o i); [set_solver|]. cbn. set_solver. }
  destruct (decide (v = VNil)); [done|]. by destruct Hv as [?| ->].
Qed.

Lemma read_loop value done_ todo i :
  ps = done_ ++ todo ->
  (forall p, p ∈ todo -> skip p = false -> FromDatabase (data p) (PropertyType p) (ColumnType_ p) (label p) = Ok (value p) /\ accepts p (value p)) ->
  so_far value done_ i ->
  exists i', forS (read_binding FromDatabase row) ((fun p => (bd p, data p)) <$> todo) i = (i', Ok tt) /\ so_far value ps i'.
Proof.
  revert done_ i. induction todo as [|p todo IH]; intros done_ i Eps Hv Hi.
  { exists i. split; [done|]. by rewrite Eps, app_nil_r. }
  cbn [fmap list_fmap forS]. unfold sbind at 1. unfold read_binding at 1. cbn [bd bd_property].
  fold (bd p). change (skipped row (bd p)) with (skip p).
  assert (Enext : ps = (done_ ++ [p]) ++ todo) by (by rewrite <- app_assoc).
  destruct (skip p) eqn:Es.
  - destruct (IH (done_ ++ [p]) i Enext) as (i' & H & Hs).
    + intros q Hq. apply Hv. by right.
    + destruct Hi as [H1 H2]. split.
      * intros q [Hq| ->%list_elem_of_singleton]%elem_of_app Hk; [by apply H1|congruence].
      * intros n Hn. destruct (H2 n Hn) as (q & o & ? & ?). exists q, o. split; [apply elem_of_app; by left|done].
    + exists i'. split; [exact H|done].
  - destruct (Hv p) as [Hc Ha]; [by left|done|]. cbn [bd_nil_path bd_context bd]. unfold sbind, slift. rewrite Hc.
    destruct (Set_stores p (value p) i Ha) as (i1 & H1 & Hg & Hr & Hmono & Hframe). rewrite H1.
    destruct (IH (done_ ++ [p]) i1 Enext) as (i' & H & Hs).
    + intros q Hq. apply Hv. by right.
    + destruct Hi as [S1 S2]. split.
      * intros q [Hq| ->%list_elem_of_singleton]%elem_of_app Hk; [|done]. destruct (S1 q Hq Hk) as [E Hreach].
        split; [|by apply Hmono]. rewrite Hframe; [done| |done]. intros En.
        rewrite Eps, fmap_app, fmap_cons in Hnames. apply NoDup_app in Hnames as (_ & Hd & _).
        apply (Hd (PropertyName q)); [by apply list_elem_of_fmap_2|rewrite En; by left].
      * intros n Hn. pose proof (Set_owned p (value p) i Ha) as Ho. rewrite H1 in Ho. cbn in Ho. apply Ho in Hn.
        apply elem_of_union in Hn as [Hn|Hn].
        -- destruct (S2 n Hn) as (q & o & ? & ?). exists q, o. split; [apply elem_of_app; by left|done].
        -- destruct (Owner p) as [o|] eqn:Eo; [|by apply not_elem_of_empty in Hn]. apply elem_of_singleton in Hn as ->.
           exists p, o. split_and!; [apply elem_of_app; right; by left|done|done|done].
    + exists i'. split; [exact H|done].
Qed.

(** Every column converted: the instance holds the values, and a navigation
    that is absent stays nil. *)
Lemma read_row_Ok structType value :
  (forall p, p ∈ ps -> skip p = false -> FromDatabase (data p) (PropertyType p) (ColumnType_ p) (label p) = Ok (value p) /\ accepts p (value p)) ->
  exists i, read_row FromDatabase structType row = Ok i /\
    forall p, p ∈ ps -> Get p i = if skip p then VNil else stored p (value p).
Proof.
  intros Hv. unfold read_row. destruct (read_loop value [] ps (mkInstance structType ∅ ∅ ∅)) as (i & H & [S1 S2]); [done|done| |].
  { split; [by intros p []%not_elem_of_nil|]. cbn. intros n []%not_elem_of_empty. }
  unfold row in *. rewrite H. exists i. split; [done|]. intros p Hp. destruct (skip p) eqn:Es; [|by apply S1].
  apply skip_true in Es as (o & Eo & Habs). unfold Get. rewrite Eo. unfold navigation. destruct Habs as [Hn Hd]. rewrite Hn. cbn [negb orb].
  rewrite bool_decide_eq_false_2; [done|]. intros Hin. destruct (S2 _ Hin) as (q & o' & Hq & Hk & Eo' & En).
  assert (o' = o) as -> by (by eapply (Howners q p)). assert (Hk' : skip q = true) by (apply skip_true; by exists o). congruence.
Qed.

(** A failure is a column's conversion. *)
Lemma read_row_Fail structType e :
  (forall p w, p ∈ ps -> FromDatabase (data p) (PropertyType p) (ColumnType_ p) (label p) = Ok w -> accepts p w) ->
  read_row FromDatabase structType row = Fail e ->
  exists p, p ∈ ps /\ skip p = false /\ FromDatabase (data p) (PropertyType p) (ColumnType_ p) (label p) = Fail e.
Proof.
  intros Ha. unfold read_row.
  assert (H : forall todo i, (forall p, p ∈ todo -> p ∈ ps) ->
    match forS (read_binding FromDatabase row) ((fun p => (bd p, data p)) <$> todo) i with
    | (_, Ok _) => True
    | (_, Fail e) => exists p, p ∈ todo /\ skip p = false /\ FromDatabase (data p) (PropertyType p) (ColumnType_ p) (label p) = Fail e end).
  { induction todo as [|p todo IH]; intros i Hin; [done|]. cbn [fmap list_fmap forS]. unfold sbind at 1. unfold read_binding at 1.
    cbn [bd bd_property]. fold (bd p). change (skipped row (bd p)) with (skip p).
    assert (Hnext : forall j, match forS (read_binding FromDatabase row) ((fun p => (bd p, data p)) <$> todo) j with
      | (_, Ok _) => True
      | (_, Fail e) => exists q, q ∈ p :: todo /\ skip q = false /\ FromDatabase (data q) (PropertyType q) (ColumnType_ q) (label q) = Fail e end).
    { intros j. specialize (IH j). destruct (forS _ _ j) as [? [|]]; [done|]. destruct IH as (q & Hq & ?); [intros q Hq; apply Hin; by right|].
      exists q. split; [by right|done]. }
    destruct (skip p) eqn:Es; [apply Hnext|]. cbn [bd_nil_path bd_context bd]. unfold sbind, slift.
    destruct (FromDatabase (data p) _ _ _) as [w|e'] eqn:E; [|exists p; split; [by left|done]].
    destruct (Set_stores p w i) as (i1 & H1 & _); [apply (Ha p w); [apply Hin; by left|done]|]. rewrite H1. apply Hnext. }
  specialize (H ps (mkInstance structType ∅ ∅ ∅) (fun p Hp => Hp)). unfold row at 2.
  destruct (forS _ _ _) as [i [|e']]; [done|]. by intros [= ->].
Qed.
End Reading.

(** The loop stops at the first column that does not convert. *)
Lemma loop_converts FromDatabase label data row_ todo i i' :
  forS (read_binding FromDatabase row_) ((fun p => (bd label p, data p)) <$> todo) i = (i', Ok tt) ->
  forall p, p ∈ todo -> skipped row_ (bd label p) = false ->
    exists w, FromDatabase (data p) (PropertyType p) (ColumnType_ p) (label p) = Ok w.
Proof.
  revert i. induction todo as [|p todo IH]; intros i H q Hq Hs; [by apply not_elem_of_nil in Hq|].
  cbn [fmap list_fmap forS] in H. apply sbind_Ok in H as (i1 & [] & H1 & H). apply elem_of_cons in Hq as [->|Hq]; [|by eapply IH].
  unfold read_binding in H1. cbn [bd bd_property] in H1. fold (bd label p) in H1. rewrite Hs in H1.
  apply sbind_Ok in H1 as (i2 & w & H1 & _). unfold slift in H1. injection H1 as _ H1. by exists w.
Qed.

Section RoundTrip.
Context (named : string -> NamedType) (unrepresentable : IntKind -> spec_float -> Z)
  (ParseFloat : string -> option spec_float) (FormatFloat_g FormatFloat_f : spec_float -> string)
  (Sprint : Value -> string).
Context (handlers : TypeHandlerRegistry) (bindsTemporalsNatively : bool).
Abbreviation FromDatabase := (FromDatabase named unrepresentable ParseFloat FormatFloat_g FormatFloat_f Sprint handlers).
Abbreviation ToDatabase := (ToDatabase named handlers bindsTemporalsNatively).
Abbreviation read_back_ p v := (read_back named bindsTemporalsNatively v (ft_elem (PropertyType p)) (ColumnType_ p)).

(** The column and the field belong together, the value is one the field holds,
    and nil is a nil pointer or a nil navigation. *)
Record readable (p : PropertyMap) (i : Instance) : Prop := {
  rd_fits : fits named (ft_elem (PropertyType p)) (ColumnType_ p);
  rd_enum : IsEnumType named (ft_elem (PropertyType p)) = true -> enum_token (ColumnType_ p);
  rd_handler : handlers (type_key (ft_elem (PropertyType p))) = None;
  rd_value :
    Get p i = VNil /\ (ft_pointer (PropertyType p) = true \/
                       exists o, Owner p = Some o /\ ow_IsNullable o = true /\ navigation o i = false) \/
    Get p i <> VNil /\ Converter.value_type (Get p i) = Some (type_key (ft_elem (PropertyType p))) /\
    proper named (Get p i) /\ whole_minutes (Get p i) }.

Lemma ToDatabase_not_nil v t ct context :
  Converter.value_type v = Some (type_key t) -> handlers (type_key t) = None -> ToDatabase v ct context <> Ok VNil.
Proof.
  intros Hv Hnone. unfold Converter.ToDatabase, handler_Format. rewrite Hv. cbn [mbind option_bind]. rewrite Hnone. cbn [mbind option_bind].
  destruct v as [|k z|sg f|s|b|s|nanos offset|g|text|vt text]; try done; cbn [is_nil].
  - unfold formatTemporal, time_value. intros [= E]. repeat case_match; done.
  - repeat case_match; done.
Qed.

Context (Hhandlers : forall t v w, handler_Parse handlers t v = Some (Ok w) -> has_type w t = true /\ proper named w /\ w <> VNil).
Context (Hmembers : distinct_members named).
Context (label : PropertyMap -> string) (i : Instance) (ps : list PropertyMap).
Context (Hnames : NoDup (PropertyName <$> ps)).
Context (Howners : forall p q o o', p ∈ ps -> q ∈ ps -> Owner p = Some o -> Owner q = Some o' ->
           ow_PropertyName o = ow_PropertyName o' -> o = o').
Context (Hreadable : forall p, p ∈ ps -> readable p i).
Context (data : PropertyMap -> Value)
  (Hdata : forall p, p ∈ ps -> exists context, ToDatabase (Get p i) (Some (ColumnType_ p)) context = Ok (data p)).
Abbreviation skip_ := (skip label data ps).

Lemma data_nil p : p ∈ ps -> data p = VNil <-> Get p i = VNil.
Proof.
  intros Hp. destruct (Hdata p Hp) as [context E]. split.
  - intros En. rewrite En in E. destruct (Hreadable p Hp) as [_ _ Hh [[? _]|(_ & Hv & _)]]; [done|].
    by destruct (ToDatabase_not_nil _ _ _ _ Hv Hh E).
  - intros En. rewrite En in E. by injection E as <-.
Qed.

Lemma skip_nil p : p ∈ ps -> skip_ p = true -> Get p i = VNil.
Proof. intros Hp (o & Eo & _ & Hall)%skip_true; try done. apply data_nil; [done|]. by apply Hall. Qed.

Lemma nil_pointer p : p ∈ ps -> skip_ p = false -> Get p i = VNil -> ft_pointer (PropertyType p) = true.
Proof.
  intros Hp Hs En. destruct (Hreadable p Hp) as [_ _ _ [[_ [?|(o & Eo & Hnull & Hnav)]]|[? _]]]; [done| |done].
  assert (skip_ p = true); [|congruence]. apply skip_true. exists o. split; [done|]. split; [done|].
  intros q Hq Eq. apply data_nil; [done|]. unfold Get. by rewrite Eq, Hnav.
Qed.

(** What one column gives back. *)
Lemma column_reads p : p ∈ ps -> skip_ p = false ->
  if decide (Get p i = VNil) then FromDatabase (data p) (PropertyType p) (ColumnType_ p) (label p) = Ok VNil
  else FromDatabase (data p) (PropertyType p) (ColumnType_ p) (label p) = read_back_ p (Get p i) (label p).
Proof.
  intros Hp Hs. case_decide as En.
  - rewrite (proj2 (data_nil p Hp) En). unfold Converter.FromDatabase. cbn [is_nil]. by rewrite nil_pointer.
  - destruct (Hreadable p Hp) as [Hf He Hh [[? _]|(_ & Hv & Hpr & Hw)]]; [done|].
    destruct (Hdata p Hp) as [context E].
    assert (Hctx : exists d, ToDatabase (Get p i) (Some (ColumnType_ p)) (label p) = Ok d /\ d = data p).
    { clear - E Hv Hh. unfold Converter.ToDatabase, handler_Format in *. rewrite Hv in *. cbn [mbind option_bind] in *. rewrite Hh in *.
      cbn [mbind option_bind] in *. exists (data p). split; [|done]. rewrite <- E. destruct (is_nil _); [done|].
      destruct (Get p i); try done. repeat case_match; done. }
    destruct Hctx as (d & E' & ->).
    pose proof (stored_reads named unrepresentable ParseFloat FormatFloat_g FormatFloat_f Sprint handlers bindsTemporalsNatively
      (Get p i) (ft_elem (PropertyType p)) (ColumnType_ p) (ft_pointer (PropertyType p)) (label p) Hmembers Hf He Hv Hpr Hw Hh) as H.
    rewrite E' in H. by destruct (PropertyType p).
Qed.

Lemma column_accepts p w : p ∈ ps -> FromDatabase (data p) (PropertyType p) (ColumnType_ p) (label p) = Ok w -> accepts p w.
Proof.
  intros Hp E. destruct (Hreadable p Hp) as [Hf _ _ _].
  destruct (conversion_typed named unrepresentable ParseFloat FormatFloat_g FormatFloat_f Sprint handlers Hhandlers _ _ _ _ _ (or_introl Hf) E)
    as [(_ & _ & ->)|(_ & Ht & _)]; [by left|by right].
Qed.

Lemma row_reads structType :
  match read_row FromDatabase structType (row label data ps) with
  | Ok i' => forall p, p ∈ ps ->
      if decide (Get p i = VNil) then Get p i' = VNil else read_back_ p (Get p i) (label p) = Ok (Get p i')
  | Fail e => exists p, p ∈ ps /\ Get p i <> VNil /\ read_back_ p (Get p i) (label p) = Fail e
  end.
Proof.
  destruct (read_row FromDatabase structType (row label data ps)) as [i'|e] eqn:E.
  - assert (Hall : forall p, p ∈ ps -> skip_ p = false -> exists w, FromDatabase (data p) (PropertyType p) (ColumnType_ p) (label p) = Ok w).
    { unfold read_row in E. destruct (forS _ _ _) as [j [[]|]] eqn:El; [|done]. intros p Hp Hs. by eapply loop_converts. }
    set (value p := match FromDatabase (data p) (PropertyType p) (ColumnType_ p) (label p) with Ok w => w | Fail _ => VNil end).
    destruct (read_row_Ok FromDatabase label data ps Hnames Howners structType value) as (j & Ej & Hj).
    { intros p Hp Hs. destruct (Hall p Hp Hs) as [w Ew]. unfold value. rewrite Ew. split; [done|]. by eapply column_accepts. }
    rewrite E in Ej. injection Ej as <-. intros p Hp. rewrite (Hj p Hp). destruct (skip_ p) eqn:Es.
    + rewrite decide_True by by apply skip_nil. done.
    + pose proof (column_reads p Hp Es) as Hc. destruct (Hall p Hp Es) as [w Ew]. unfold value. rewrite Ew in Hc |- *.
      case_decide as En.
      * injection Hc as ->. unfold stored, zero_field. by rewrite decide_True, (nil_pointer p Hp Es En).
      * rewrite <- Hc. unfold stored. rewrite decide_False; [done|]. intros ->.
        destruct (conversion_typed named unrepresentable ParseFloat FormatFloat_g FormatFloat_f Sprint handlers Hhandlers _ _ _ _ _
          (or_introl (rd_fits _ _ (Hreadable p Hp))) Ew) as [(Hn & _)|(_ & _ & _ & ?)]; [|done]. by apply En, data_nil.
  - apply read_row_Fail in E as (p & Hp & Hs & E); [|by intros p w; apply column_accepts].
    pose proof (column_reads p Hp Hs) as Hc. case_decide as En; [congruence|]. exists p. split_and!; [done|done|congruence].
Qed.
End RoundTrip.

(** ** The properties a strict plan binds *)

Lemma takes_property m c p : takes m c p -> p ∈ Properties m /\ ToLower (ColumnName p) = ToLower c.
Proof.
  unfold takes, propertyByColumnFold. intros [H1 H2]%List.find_some. split; [by apply list_elem_of_In|]. by apply EqualFold_true.
Qed.

Lemma bound_properties m columns ps :
  NoDup (ToLower <$> columns) -> NoDup (PropertyName <$> Properties m) -> Forall2 (takes m) columns ps ->
  (forall p, p ∈ Properties m -> p ∈ ps) ->
  NoDup (PropertyName <$> ps) /\ forall p, p ∈ ps <-> p ∈ Properties m.
Proof.
  intros Hc Hn H Hall.
  assert (E : ToLower ∘ ColumnName <$> ps = ToLower <$> columns).
  { clear -H. induction H as [|c p columns ps Hp _ IH]; [done|]. cbn. rewrite IH. by destruct (takes_property _ _ _ Hp) as [_ ->]. }
  assert (Hsub : forall p, p ∈ ps -> p ∈ Properties m).
  { clear -H. induction H as [|c p columns ps Hp _ IH]; intros q Hq; [by apply not_elem_of_nil in Hq|].
    apply elem_of_cons in Hq as [->|Hq]; [by eapply takes_property|by apply IH]. }
  assert (Hd : NoDup ps) by (eapply NoDup_fmap_1; rewrite E; exact Hc).
  split; [|intros p; split; [apply Hsub|apply Hall]].
  apply NoDup_fmap_2_strong; [|done]. intros p q Hp Hq. apply (keyed_inj PropertyName _ p q Hn); by apply Hsub.
Qed.

(** * Theorems *)

(** C22. A plan for an entity is strict both ways: it is built exactly when every
    result column, case aside, is some property's and every property gets one, and
    binds each column to that property; an unknown column is MAP-001, and only
    without one a property no column fills is MAP-002. *)
Theorem entity_plan_strict m structType columns queryName :
  match entity_bindings m structType columns queryName with
  | Ok bs => exists ps, Forall2 (takes m) columns ps /\ bs = bound_to structType queryName <$> ps /\
      forall p, p ∈ Properties m -> p ∈ ps
  | Fail e =>
      (e = NewError "MAP-001" queryName /\
       exists c, c ∈ columns /\ forall p, p ∈ Properties m -> ToLower (ColumnName p) <> ToLower c) \/
      (e = NewError "MAP-002" queryName /\ (forall c, c ∈ columns -> exists p, takes m c p) /\
       exists p, p ∈ Properties m /\ unbound m columns p)
  end.
Proof.
  pose proof (entity_bindings_cases m structType queryName columns) as H. destruct (entity_bindings _ _ _ _) as [bs|e]; [exact H|].
  destruct H as [(-> & c & Hc & Hf)|H]; [left|by right]. split; [done|]. exists c. split; [done|]. intros p Hp E.
  pose proof (List.find_none _ _ Hf p (proj1 (list_elem_of_In _ _) Hp)) as Hno. cbn in Hno.
  by rewrite (proj2 (EqualFold_true _ _) E) in Hno.
Qed.

(** C21. A written row reads back.  Take any instance whose properties hold values
    of their columns' kinds, and a result whose columns the strict plan binds, in
    any order and case, each holding what the converter stores for its property.
    The row reads into an instance in which every property reads nil exactly where
    it did - a nullable navigation of all NULL columns stays nil - and otherwise
    what its stored value reads back as; the only failure is a value its column
    does not hold. *)
Theorem written_row_reads_back named unrepresentable ParseFloat FormatFloat_g FormatFloat_f Sprint handlers native
    m structType columns queryName bindings (i : Instance) raw
    (Hhandlers : forall t v w, handler_Parse handlers t v = Some (Ok w) -> has_type w t = true /\ proper named w /\ w <> VNil)
    (Hmembers : distinct_members named)
    (Hnames : NoDup (PropertyName <$> Properties m))
    (Howners : forall p q o o', p ∈ Properties m -> q ∈ Properties m -> Owner p = Some o -> Owner q = Some o' ->
               ow_PropertyName o = ow_PropertyName o' -> o = o')
    (Hreadable : forall p, p ∈ Properties m -> readable named handlers p i)
    (Hcolumns : NoDup (ToLower <$> columns))
    (Hbindings : entity_bindings m structType columns queryName = Ok bindings)
    (Hraw : Forall2 (fun b v => exists p, bd_property b = Some p /\
              ToDatabase named handlers native (Get p i) (Some (ColumnType_ p)) (Target_ p) = Ok v) bindings raw) :
  match read_row (FromDatabase named unrepresentable ParseFloat FormatFloat_g FormatFloat_f Sprint handlers)
          structType (zip bindings raw) with
  | Ok i' => forall p, p ∈ Properties m ->
      if decide (Get p i = VNil) then Get p i' = VNil
      else exists context, read_back named native (Get p i) (ft_elem (PropertyType p)) (ColumnType_ p) context = Ok (Get p i')
  | Fail e => exists p context, p ∈ Properties m /\ Get p i <> VNil /\
      read_back named native (Get p i) (ft_elem (PropertyType p)) (ColumnType_ p) context = Fail e
  end.
Proof.
  pose proof (entity_bindings_cases m structType queryName columns) as H. rewrite Hbindings in H.
  destruct H as (ps & Htakes & -> & Hall). destruct (bound_properties m columns ps Hcolumns Hnames Htakes Hall) as [Hn Hin].
  set (label p := queryName +:+ " → " +:+ TypeShortName structType +:+ "." +:+ PropertyName p).
  set (data p := match ToDatabase named handlers native (Get p i) (Some (ColumnType_ p)) (Target_ p) with Ok v => v | Fail _ => VNil end).
  assert (Erow : zip (bound_to structType queryName <$> ps) raw = row label data ps).
  { clear - Hraw. unfold row. revert raw Hraw. induction ps as [|p ps IH]; intros raw H; [by inversion H|].
    rewrite fmap_cons in H |- *. apply Forall2_cons_inv_l in H as (v & vs & (q & [= <-] & Eq) & Hrest & ->). cbn. f_equal; [|by apply IH]. unfold data. by rewrite Eq. }
  assert (Hdata : forall p, p ∈ ps -> exists context, ToDatabase named handlers native (Get p i) (Some (ColumnType_ p)) context = Ok (data p)).
  { clear - Hraw. revert raw Hraw. induction ps as [|q ps IH]; intros raw H p Hp; [by apply not_elem_of_nil in Hp|].
    rewrite fmap_cons in H. apply Forall2_cons_inv_l in H as (v & vs & (q' & [= <-] & Eq) & Hrest & ->). apply elem_of_cons in Hp as [->|Hp]; [|by eapply IH].
    exists (Target_ q). unfold data. by rewrite Eq. }
  rewrite Erow.
  pose proof (row_reads named unrepresentable ParseFloat FormatFloat_g FormatFloat_f Sprint handlers native Hhandlers Hmembers label i ps Hn
    (fun p q o o' Hp Hq => Howners p q o o' (proj1 (Hin p) Hp) (proj1 (Hin q) Hq))
    (fun p Hp => Hreadable p (proj1 (Hin p) Hp)) data Hdata structType) as H.
  destruct (read_row _ structType (row label data ps)) as [i'|e].
  - intros p Hp. specialize (H p (proj2 (Hin p) Hp)). case_decide; [done|]. by exists (label p).
  - destruct H as (p & Hp & Hnil & E). exists p, (label p). split_and!; [by apply Hin|done|done].
Qed.

(** A shop with a nullable place, a nullable note and a name, its place nil. *)
Definition shop_types : Types := list_to_map [
  (app "Address", mkStructDecl [tagged "Street" (TValue TyString) "column"] None None true);
  (app "Shop", plain_struct [key_field; tagged "Name" (TValue TyString) "column";
     tagged "Note" (TPointer (TValue TyString)) "column"; tagged "Place" (TPointer (TStruct (app "Address"))) "owned"])].
Definition shop_map : EntityMap :=
  match load shop_types no_named 3 (fun _ => None) SnakeCase (app "Shop") with
  | inl m => lm_Map m | inr _ => NewEntityMap (app "") RelationTable "" "" "" [] KeyNone [] [] end.
Definition shop : Instance := mkInstance (app "Shop") (<["ID" := VInt KInt64 5]> (<["Name" := VString "Ada"]> ∅)) ∅ ∅.
Definition shop_columns : list string := ["NOTE"; "place_street"; "Id"; "name"].
Definition read_shop := FromDatabase no_named cut_float (fun _ => None) (fun _ => "") (fun _ => "") (fun _ => "") NewTypeHandlerRegistry.

Lemma written_row_reads_back_witness :
  exists bindings i', entity_bindings shop_map (app "Shop") shop_columns "q" = Ok bindings /\
    read_row read_shop (app "Shop") (zip bindings [VNil; VNil; VInt KInt64 5; VString "Ada"]) = Ok i' /\
    forall p, p ∈ Properties shop_map -> Get p shop = VNil -> Get p i' = VNil.
Proof.
  destruct (entity_bindings shop_map (app "Shop") shop_columns "q") as [bindings|] eqn:E; [|vm_compute in E; discriminate E].
  destruct (read_row read_shop (app "Shop") (zip bindings [VNil; VNil; VInt KInt64 5; VString "Ada"])) as [i'|] eqn:Er;
    [|vm_compute in E; injection E as <-; vm_compute in Er; discriminate Er].
  exists bindings, i'. split; [done|]. split; [done|].
  pose proof (written_row_reads_back no_named cut_float (fun _ => None) (fun _ => "") (fun _ => "") (fun _ => "") NewTypeHandlerRegistry false
    shop_map (app "Shop") shop_columns "q" bindings shop [VNil; VNil; VInt KInt64 5; VString "Ada"]) as H.
  assert (Ep : Properties shop_map = ltac:(let l := eval vm_compute in (Properties shop_map) in exact l)) by (vm_compute; reflexivity).
  unfold read_shop in Er. rewrite Er in H. intros p Hp En. specialize (fun a b c d e f g h => H a b c d e f g h p Hp). cbv beta in H.
  rewrite decide_True in H by exact En. apply H.
  - by intros t v w.
  - by intros type names.
  - apply (bool_decide_unpack _). vm_compute. reflexivity.
  - assert (Ho : forall q o, q ∈ Properties shop_map -> Owner q = Some o -> o = mkOwned "Place" "place_" true).
    { rewrite Ep. intros q o [->|[->|[->|[->|[]%not_elem_of_nil]%elem_of_cons]%elem_of_cons]%elem_of_cons]%elem_of_cons Eo;
        cbn in Eo; congruence. }
    intros q r o o' Hq Hr Eo Eo' _. by rewrite (Ho q o), (Ho r o').
  - rewrite Ep. intros q [->|[->|[->|[->|[]%not_elem_of_nil]%elem_of_cons]%elem_of_cons]%elem_of_cons]%elem_of_cons.
    + split; [by eexists|discriminate|reflexivity|right]. split; [discriminate|]. split; [reflexivity|]. by repeat split.
    + split; [by left|discriminate|reflexivity|right]. split; [discriminate|]. split; [reflexivity|]. by repeat split.
    + split; [by left|discriminate|reflexivity|left]. split; [reflexivity|by left].
    + split; [by left|discriminate|reflexivity|left]. split; [reflexivity|right]. eexists. by repeat split.
  - apply (bool_decide_unpack _). vm_compute. reflexivity.
  - exact E.
  - vm_compute in E. injection E as <-. repeat (constructor; [eexists; split; [reflexivity|vm_compute; reflexivity]|]). constructor.
Defined.

(** ** The cache of plans *)

Definition unnamed_binding (b : binding) : binding := mkBinding (bd_property b) (bd_nil_path b) (bd_columnType b) "".
(** A plan without the name of the query it was built for. *)
Definition unnamed_plan (p : Plan) : Plan :=
  mkPlan (pl_resultType p) (pl_structType p) (pl_isPointer p) (pl_scalar p) (unnamed_binding <$> pl_bindings p) (pl_markerChecks p).

Section Cache.
Context (types : Types) (named : string -> NamedType) (handlers : TypeHandlerRegistry).
Context (markers : option (string -> bool)) (load : GoType -> result EntityMap).
Abbreviation build := (buildPlan types named handlers markers load).

Lemma entity_bindings_name m structType columns q q' bs :
  entity_bindings m structType columns q = Ok bs ->
  exists bs', entity_bindings m structType columns q' = Ok bs' /\ unnamed_binding <$> bs = unnamed_binding <$> bs'.
Proof.
  intros E. pose proof (entity_bindings_cases m structType q columns) as H. rewrite E in H. destruct H as (ps & Ht & -> & Hall).
  pose proof (entity_bindings_cases m structType q' columns) as H'. destruct (entity_bindings m structType columns q') as [bs'|e].
  - destruct H' as (ps' & Ht' & -> & _). eexists. split; [done|].
    assert (ps' = ps) as ->; [|by rewrite <- !list_fmap_compose].
    clear -Ht Ht'. revert ps' Ht'. induction Ht as [|c p columns ps Hp _ IH]; intros ps' Ht'; [by inversion Ht'|].
    apply Forall2_cons_inv_l in Ht' as (p' & more & Hp' & Hmore & ->). unfold takes in *. f_equal; [congruence|by apply IH].
  - exfalso. assert (Htakes : forall c, c ∈ columns -> exists p, takes m c p /\ p ∈ ps).
    { clear -Ht. induction Ht as [|c p columns ps Hp _ IH]; intros c' Hc; [by apply not_elem_of_nil in Hc|].
      apply elem_of_cons in Hc as [->|Hc]; [exists p; split; [done|by left]|]. destruct (IH c' Hc) as (r & ? & ?). exists r. split; [done|by right]. }
    destruct H' as [(_ & c & Hc & Hf)|(_ & _ & p & Hp & Hu)].
    + destruct (Htakes c Hc) as (p & Hp & _). unfold takes in Hp. congruence.
    + apply Hall in Hp. clear -Ht Hp Hu. induction Ht as [|c p' columns ps Hp' _ IH]; [by apply not_elem_of_nil in Hp|].
      apply elem_of_cons in Hp as [->|Hp]; [apply (Hu c); [by left|done]|]. apply IH; [done|]. intros c' Hc'. apply Hu. by right.
Qed.

Lemma dto_bindings_name structType columns q q' bs :
  dtoBindings types named structType columns q = Ok bs ->
  exists bs', dtoBindings types named structType columns q' = Ok bs' /\ unnamed_binding <$> bs = unnamed_binding <$> bs'.
Proof.
  unfold dtoBindings. set (fields := dto_fields types structType). clearbody fields.
  assert (H : forall bound, mapR (dto_binding named structType fields q) columns = Ok bound ->
    exists bound', mapR (dto_binding named structType fields q') columns = Ok bound' /\
      fst <$> bound = fst <$> bound' /\ unnamed_binding <$> (snd <$> bound) = unnamed_binding <$> (snd <$> bound')).
  { induction columns as [|c columns IH]; intros bound E; cbn [mapR] in *; [injection E as <-; by exists []|].
    apply bind_Ok in E as (y & Ey & E). apply bind_Ok in E as (ys & Eys & [= <-]).
    assert (Hy : exists y', dto_binding named structType fields q' c = Ok y' /\ y.1 = y'.1 /\ unnamed_binding y.2 = unnamed_binding y'.2).
    { unfold dto_binding in *. destruct (findDTOField fields c) as [f|]; [|done]. injection Ey as <-. by eexists. }
    destruct Hy as (y' & -> & Ef & Eb).
    destruct (IH ys Eys) as (bound' & -> & H1 & H2). cbn. eexists. split; [done|]. cbn. by rewrite H1, H2, Ef, Eb. }
  intros E. apply bind_Ok in E as (bound & Eb & E). destruct (H bound Eb) as (bound' & -> & H1 & H2). cbn.
  assert (Hm : forall (l : list (VisibleField * binding)) f,
    existsb (fun b => bool_decide (vf_Index b.1 = vf_Index f)) l = existsb (fun g => bool_decide (vf_Index g = vf_Index f)) (fst <$> l)).
  { intros l f. induction l as [|b l IHl]; [done|]. cbn. by rewrite IHl. }
  assert (Ef : List.filter (fun f => negb (existsb (fun b => bool_decide (vf_Index b.1 = vf_Index f)) bound') &&
      negb (is_pointer (sf_Type (vf_Field f)))) fields =
    List.filter (fun f => negb (existsb (fun b => bool_decide (vf_Index b.1 = vf_Index f)) bound) &&
      negb (is_pointer (sf_Type (vf_Field f)))) fields).
  { apply List.filter_ext_in. intros f _. rewrite (Hm bound'), (Hm bound), H1. reflexivity. }
  cbn [result_bind] in *. rewrite Ef. destruct (List.filter _ fields); [|done]. injection E as <-. by eexists.
Qed.

Lemma checks_name t bs bs' : unnamed_binding <$> bs = unnamed_binding <$> bs' ->
  planMarkerChecks handlers markers t bs = planMarkerChecks handlers markers t bs'.
Proof.
  intros E. unfold planMarkerChecks. destruct markers; [|done].
  assert (H : forall bs k, omap (fun '(i, b) => if marker_checked handlers t b then Some i else None) (imap (fun i b => ((k + i)%nat, b)) bs) =
    omap (fun '(i, b) => if marker_checked handlers t b then Some i else None) (imap (fun i b => ((k + i)%nat, b)) (unnamed_binding <$> bs))).
  { clear. induction bs as [|b bs IH]; intros k; [done|]. cbn.
    assert (Ei : forall (l : list binding), imap ((fun i b => ((k + i)%nat, b)) ∘ S) l = imap (fun i b => ((S k + i)%nat, b)) l).
    { intros l. apply imap_ext. intros i x _. cbn. f_equal. lia. }
    rewrite !Ei, (IH (S k)). done. }
  change (imap pair bs) with (imap (fun i b => ((0 + i)%nat, b)) bs). change (imap pair bs') with (imap (fun i b => ((0 + i)%nat, b)) bs').
  by rewrite (H bs), (H bs'), E.
Qed.

Lemma build_name t columns q q' plan : build t columns q = Ok plan ->
  exists plan', build t columns q' = Ok plan' /\ unnamed_plan plan = unnamed_plan plan'.
Proof.
  unfold buildPlan. destruct (IsScalarType _ _ _).
  { destruct columns; [done|]. intros [= <-]. eexists. split; [done|]. unfold unnamed_plan. cbn. by f_equal. }
  destruct (struct_of _) as [structType|]; [|done]. intros H. apply bind_Ok in H as (bs & E & [= <-]).
  assert (Hb : exists bs', (if HasMappingDeclarations types structType then entityBindings load structType columns q'
                            else dtoBindings types named structType columns q') = Ok bs' /\ unnamed_binding <$> bs = unnamed_binding <$> bs').
  { destruct (HasMappingDeclarations types structType); [|by eapply dto_bindings_name].
    unfold entityBindings in *. apply bind_Ok in E as (m & -> & E). cbn. by eapply entity_bindings_name. }
  destruct Hb as (bs' & -> & Hf). cbn. eexists. split; [done|]. unfold unnamed_plan. cbn. by rewrite Hf, (checks_name _ _ _ Hf).
Qed.
End Cache.

(** The cache of plans is transparent but for a name: over a cache whose plans
    were built for their type and columns, the answer is the plan a fresh build
    gives, up to the query its errors name, or the build's own error; and the cache
    stays one. *)
Theorem plan_cache_transparent types named handlers markers load set t columns queryName :
  (forall e, e ∈ set -> exists q, buildPlan types named handlers markers load e.1.1 e.1.2 q = Ok e.2) ->
  let '(set', answer) := Plan_ types named handlers markers load set t columns queryName in
  (forall e, e ∈ set' -> exists q, buildPlan types named handlers markers load e.1.1 e.1.2 q = Ok e.2) /\
  match answer with
  | Ok plan => exists fresh, buildPlan types named handlers markers load t columns queryName = Ok fresh /\ unnamed_plan plan = unnamed_plan fresh
  | Fail e => buildPlan types named handlers markers load t columns queryName = Fail e
  end.
Proof.
  intros Hset. unfold Plan_. destruct (find_plan set t columns) as [plan|] eqn:Ef.
  - split; [done|]. unfold find_plan in Ef. match type of Ef with context [List.find ?f set] => destruct (List.find f set) as [[[t' columns'] plan']|] eqn:E; [|done] end. injection Ef as ->.
    apply List.find_some in E as [Hin Ek]. apply bool_decide_eq_true in Ek. cbn in Ek. injection Ek as -> ->.
    destruct (Hset _ (proj2 (list_elem_of_In _ _) Hin)) as [q Hq]. cbn in Hq. by apply (build_name _ _ _ _ _ _ _ q queryName) in Hq.
  - destruct (buildPlan types named handlers markers load t columns queryName) as [plan|e] eqn:E; [|by split].
    unfold store_plan. rewrite Ef. split; [|by exists plan].
    intros e [He|He]%elem_of_app; [by apply Hset|]. apply list_elem_of_singleton in He as ->. by exists queryName.
Qed.

Lemma plan_cache_transparent_witness :
  let load t := if decide (t = app "Shop") then Ok shop_map else Fail (NewError "" "") in
  let plan q := buildPlan shop_types no_named NewTypeHandlerRegistry None load (TPointer (TStruct (app "Shop"))) shop_columns q in
  exists p fresh, plan "first" = Ok p /\ plan "second" = Ok fresh /\ unnamed_plan p = unnamed_plan fresh.
Proof.
  intros load plan. destruct (plan "first") as [p|] eqn:E; [|vm_compute in E; discriminate E].
  pose proof (plan_cache_transparent shop_types no_named NewTypeHandlerRegistry None load [(TPointer (TStruct (app "Shop")), shop_columns, p)]
    (TPointer (TStruct (app "Shop"))) shop_columns "second") as H.
  assert (Hset : forall e, e ∈ [(TPointer (TStruct (app "Shop")), shop_columns, p)] ->
    exists q, buildPlan shop_types no_named NewTypeHandlerRegistry None load e.1.1 e.1.2 q = Ok e.2).
  { intros e ->%list_elem_of_singleton. by exists "first". }
  specialize (H Hset). unfold Plan_, find_plan in H. cbn [List.find fst snd] in H. rewrite bool_decide_eq_true_2 in H by done.
  destruct H as (_ & fresh & Hf & Hp). by exists p, fresh.
Defined.

(** A plan found in the cache names the query it was first built for: the error of
    a second query over the same columns points at the first. *)
Theorem cached_plan_names_the_first_query :
  let load t := if decide (t = app "Shop") then Ok shop_map else Fail (NewError "" "") in
  let ask set q := Plan_ shop_types no_named NewTypeHandlerRegistry None load set (TPointer (TStruct (app "Shop"))) shop_columns q in
  match (ask (ask [] "first").1 "second").2 with
  | Ok plan => ReadValues read_shop None plan [VNil; VNil; VNil; VNil] = Fail (NewError "MAP-031" "first → Shop.ID")
  | Fail _ => False
  end.
Proof. vm_compute. reflexivity. Qed.
